(* ===== verification/_CoqProject ===== *)
-Q . S2P
Prelude.v
Packet.v
Cksum.v
Parse.v
Timeoutq.v
TcpAge.v
Queues.v
Sweeps.v
TcpWindow.v
Frag.v
Matcharray.v
Filter.v
Check.v
State.v
StateLookup.v
StateInv.v
StateSteps.v
StateTable.v
StateAdmin.v
NatTable.v
NatNew.v
NatXlate.v
NatAdmin.v
NatInv.v
NatSteps.v
NatLife.v
