(* ===== verification/Prelude.v ===== *)
(** * IP Filter: a verification development

    IP Filter is a packet filter for Unix kernels.  Its core, under
    [src/ipfilter], is one set of portable C files: [fil.c] parses a packet into
    a summary ([fr_info_t]), walks rule lists, disposes of the packet and owns the
    timeout queues; [ip_state.c] keeps a table of connections and follows their TCP
    state; [ip_nat.c] rewrites addresses; [ip_frag.c] remembers the fragments of
    datagrams already decided.  The development translates the parts of that core
    which decide, and proves what they promise.

    ** Parts and files

    - [Prelude]: machine integers with their wraps ([u8], [u16], [u32], [i32]),
      record updates, a monad of state and failure with its rules ([wlp], [keeps]),
      and the lemmas and tactics that the other files share.
    - [Packet]: the packet summary [fr_info_t] and its constants
      ([ip_fil.h], [ip_compat.h]).  Every stage reads and returns it.
    - [Cksum]: checksums ([fil.c]: [fr_cksum], [ipf_pcksum], [ipf_checkl4sum];
      [ip_fil.c]: [ipf_cksum]; [ip_nat.c]: [ipf_fix_outcksum] and its kin).
    - [Parse]: [ipf_makefrip] and every [ipf_pr_*] routine of [fil.c], from the bytes of
      a buffer to the summary.  How much of a packet is contiguous, and [ipf_pullup],
      come from the class [build], with the user build of [ip_fil.c] and FreeBSD's as
      instances.
    - [Timeoutq]: the queues of things to expire ([fil.c]: [ipf_queueappend],
      [ipf_movequeue], [ipf_addtimeoutqueue], [ipf_apply_timeout] and the rest).
    - [Queues]: a set of such queues with all the entries on them, as the tables of
      states and sessions need it: sorted by expiry, no entry on two queues.
    - [Sweeps]: the walks over these queues that delete what is due, and [ipf_queueflush]
      of [fil.c], which makes room in a full table.  The class [queued] is what they need
      of a table, the class [sweepable] what the table promises, its own deletion above
      all; the theorems are proved once from [sweepable], and the state table
      ([StateInv]) and the NAT table ([NatInv]) are its two instances.
    - [TcpAge]: [ipf_tcp_age] of [ip_state.c], the two-sided TCP state machine;
      it moves entries between the queues of [Timeoutq].
    - [TcpWindow]: [ipf_tcpoptions], [ipf_state_tcpinwindow], [ipf_fixoutisn],
      [ipf_fixinisn] and [ipf_state_tcp] of [ip_state.c]; the last composes the
      window check with [TcpAge] and [Cksum].
    - [Frag]: the fragment cache of [ip_frag.c].
    - [Matcharray]: the compiled expressions of [fil.c] ([ipf_matcharray_load],
      [ipf_matcharray_verify], [ipf_fr_matcharray]), of [ip_state.c]
      ([ipf_state_matcharray], [ipf_state_matchflush]) and their layout by
      [lib/parseipfexpr.c].
    - [Filter]: the rule engine of [fil.c] ([ipf_check_ipf], [ipf_scanlist],
      [ipf_acctpkt], [ppsratecheck], [ipf_firewall]); it calls [Matcharray] and,
      through the class [filter_env], the components whose result is all that matters
      to it (lookup tables, authentication, logging, adding to the state table and to
      the fragment cache).
    - [Check]: [ipf_check] of [fil.c], the path of a packet through all stages: parsing,
      NAT, known fragments and states, rules, logging, answering, duplicating, rerouting
      and freeing.  The stages it calls are operations of the class [check_env]; the
      trace of their calls is part of the result.
    - [State]: the table of [ip_state.c]: inserting, deleting, expiring, flushing,
      walking and removing entries, the queues and parameters at the start.  [StateLookup]: [ipf_state_add], [ipf_matchsrcdst],
      [ipf_state_clone], [ipf_state_lookup], ICMP errors about entries and
      [ipf_state_check]; it calls [TcpWindow], [TcpAge], [Timeoutq], [Parse] (for quoted
      packets) and [Filter]'s results.  Interfaces, logging, synchronisation, source
      tracking, destination lists and scanning of ICMP groups are the class [state_env].
      [StateInv] has the invariant of the table and what each operation does to it,
      [StateSteps] the step relation of the table and the steps of packets, [StateTable]
      the properties, [StateAdmin] resizing and timeouts.
    - [NatTable]: the table of sessions of [ip_nat.c] for IPv4: the two hash chains and
      the list of each session, host maps, [ipf_nat_insert], [ipf_nat_delete],
      [ipf_nat_clone], [ipf_nat_inlookup], [ipf_nat_outlookup], the masks of the rules.
      [NatNew]: [ipf_nat_add] with [ipf_nat_newmap], [ipf_nat_newrdr] and
      [ipf_nat_finalise].  [NatXlate]: [ipf_nat_out], [ipf_nat_in], [ipf_nat_mssclamp] and
      the path of a packet, [ipf_nat_checkout] and [ipf_nat_checkin].  They call [Cksum]
      (corrections), [TcpAge] and [Timeoutq] (ageing).  Proxies, sessions of ICMP errors
      ([ipf_nat_icmperror]), rules that rewrite or divert, lookup tables, logging and
      synchronisation are the class [nat_env].  [NatAdmin]: the timer ([ipf_nat_expire]),
      flushing ([ipf_nat_extraflush], [ipf_nat_flushtable]), giving a session up, adding,
      removing and clearing rules, the queues at the start.  [NatInv] has the invariant of
      the table and what deleting, expiring and flushing do to it, [NatSteps] the step
      relation (packets, timer, administrator) and that every step keeps the invariant,
      [NatLife] the properties, on a table that [ipf_nat_soft_init] makes.

    ** How the code is represented

    A C integer is a [Z] with its wrap written at each assignment that can leave
    the width.  Structures are records with the fields the modelled code uses.
    Bytes in memory are lists; checksums take the byte order of the host as a
    parameter, because the code adds 16-bit objects as the host reads them.
    Where pointers and aliasing matter, there is an explicit heap: [Timeoutq]
    translates the pointer-to-pointer links cell by cell, and [Frag] and [State] keep
    stores of entries in which a freed entry can no longer be read; an access to
    freed or missing memory is a failure of the monad, never a value.  The hash chains
    and the list of all state entries are lists of addresses.  What [KMALLOC] returns
    is a stream in the state ([sw_allocs]) or an argument.

    Loops over arrays and lists are structural; loops over pointer chains take
    fuel.  The search of [ipf_nat_newmap] can really go on for ever, so [newmap_search]
    says [OutOfFuel] when it has not ended, and a theorem states when no fuel is enough.
    An address of a session is the 32-bit object in memory and a port the 16-bit one,
    as the byte order of the host reads it.
    [Timeoutq], [Frag] and [StateInv] prove that a heap whose chains list [n]
    entries needs no more than [n] steps (the refinement theorems produce a
    result, they do not assume one); for the walks over all queues of a table 92 plus the
    number of its entries is enough ([fuel_enough] for states, [nat_fuel] for sessions:
    fewer than 92 queues, and at most 92 rounds of [ipf_queueflush]).  The walk over IPv6 headers takes the length of the
    payload as fuel ([v6_fuel]).  [Matcharray] distinguishes running out of
    fuel ([NoFuel]) from reading outside the array ([Outside]), and its
    theorems give the outcome; [Filter] gives the walk of nested groups a fuel, of which
    sixteen times the length of the longest list is enough ([scanlist_terminates], for
    rules that are not built-in functions or expressions, and called functions that leave
    the packet's depth and rule alone).

    ** What the theorems show

    - [Cksum]: the routines compute the one's complement sum; the incremental
      corrections of NAT agree with recomputing it; the verdict on a received
      checksum, with the UDP datagrams it refuses wrongly.
    - [Parse]: parsing completes and reads nothing outside the buffer, whatever the
      bytes; what is recorded of TCP flags, IPv4 options and IPv6 headers.
    - [Timeoutq]: a well-formedness invariant of the linked structure and the
      refinement of each operation to an operation on lists; what changing a
      timeout does to the entries already queued.
    - [TcpAge]: refinement of the code to a transition function; the invariant
      of its states, how connections close, and which packets can reopen one.
    - [TcpWindow]: sequence comparison modulo [2^32], parsing of options as the
      inverse of writing them, the rewriting of sequence numbers with its
      checksum, and what happens to a segment outside the window.
    - [Frag]: which fragments get the rule of an entry, and which get it although they
      lie inside the first fragment; expiry removes exactly what is due.
    - [Matcharray]: the verifier accepts exactly the arrays with a stated shape, and which
      sizes make it read outside the array.
    - [Filter]: [ipf_scanlist] refines an evaluation of the tree of rules and
      groups; the last matching rule or the first quick one decides.
    - [Check]: every stage runs at most once and in order, a packet is disposed of
      once, and failures of the stages after the rules block.
    - [StateTable], [StateAdmin]: one invariant ties hash chains, list, queues, counters
      and references together over every sequence of operations; the timer, the flushes
      and the lookup of UDP packets do exactly what is stated and always complete; an
      idle table empties; the answer to a packet finds the entry made for it; what a
      new table size and the default parameters break.
    - [NatNew]: the session that [ipf_nat_add] makes for a map rule is found by its
      answers, which belong to no session that was there before; the search for a free
      address of a used-up pool never ends.  [NatXlate]: a translated packet of TCP or
      UDP carries the addresses and ports of the session and both checksums stay valid,
      out and in, under conditions that the theorems list.  [NatLife]: one invariant over
      every sequence of packets, timers, flushes and deletions; the timer and the flushes
      remove exactly what is stated, and always complete.

    ** Not modelled

    Event counters, locks, the contents of log records and tracing are left out
    everywhere: they do not feed a decision of the code that is modelled.
    [ipf_newisn] (random numbers) is a parameter.  BPF rules are a compile-time option on
    a third-party interpreter; RPC tracking ([IPFILTER_XID]) is off by default.  Of the
    state table, the ioctls that save, load and list entries are left out, and the
    invariant is stated for rules without timeouts of their own ([fr_age]).  Of NAT, the
    ioctls that save, load and list sessions, what happens when an interface changes
    ([ipf_nat_sync]), the sessions of ICMP errors, rules that rewrite or divert and IPv6
    ([ip_nat6.c]) are left out; the invariant is stated for rules without proxies and
    timeouts of their own.  Proxies, lookup tables, the administration of rules, user tools and the glue to each
    operating system are not modelled; the kernels called by the glue are not in the
    repository. *)
From stdpp Require Export base numbers list option gmap.
From Stdlib Require Export ZArith Lia Bool.

Global Open Scope Z_scope.
Global Set Default Goal Selector "!".

(** ** Machine integers

    A C integer of width [w] is a [Z] kept in range by one of the wraps below;
    every assignment of the source to an object of that width applies it. *)
Definition u8 (x : Z) : Z := x mod 2 ^ 8.
Definition u16 (x : Z) : Z := x mod 2 ^ 16.
Definition u32 (x : Z) : Z := x mod 2 ^ 32.
Definition u64 (x : Z) : Z := x mod 2 ^ 64.

(** Conversion to a two's complement [int] (32 bits) and [signed char]. *)
Definition i32 (x : Z) : Z := (x + 2 ^ 31) mod 2 ^ 32 - 2 ^ 31.
Definition i8 (x : Z) : Z := (x + 2 ^ 7) mod 2 ^ 8 - 2 ^ 7.

(** C's comparison results and logical values are [0] or [1]. *)
Definition b2z (b : bool) : Z := if b then 1 else 0.

(** [x & m] used as a condition. *)
Definition has (x m : Z) : bool := negb (Z.land x m =? 0).

(** [x & ~m]. *)
Definition clear (x m : Z) : Z := Z.ldiff x m.

Definition is_u8 (x : Z) : Prop := 0 <= x < 2 ^ 8.
Definition is_u16 (x : Z) : Prop := 0 <= x < 2 ^ 16.
Definition is_u32 (x : Z) : Prop := 0 <= x < 2 ^ 32.

Lemma u8_range x : is_u8 (u8 x).
Proof. apply Z.mod_pos_bound; lia. Qed.
Lemma u16_range x : is_u16 (u16 x).
Proof. apply Z.mod_pos_bound; lia. Qed.
Lemma u32_range x : is_u32 (u32 x).
Proof. apply Z.mod_pos_bound; lia. Qed.

Lemma u16_id x : is_u16 x -> u16 x = x.
Proof. apply Z.mod_small. Qed.
Lemma u32_id x : is_u32 x -> u32 x = x.
Proof. apply Z.mod_small. Qed.
Lemma u8_id x : is_u8 x -> u8 x = x.
Proof. apply Z.mod_small. Qed.

Lemma i32_id x : - 2 ^ 31 <= x < 2 ^ 31 -> i32 x = x.
Proof. intros. unfold i32. rewrite Z.mod_small; lia. Qed.

Lemma i32_range x : - 2 ^ 31 <= i32 x < 2 ^ 31.
Proof.
  unfold i32. pose proof (Z.mod_pos_bound (x + 2 ^ 31) (2 ^ 32) ltac:(lia)). lia.
Qed.

Lemma u32_u32 x : u32 (u32 x) = u32 x.
Proof. apply Z.mod_mod; lia. Qed.

Lemma u32_add_l x y : u32 (u32 x + y) = u32 (x + y).
Proof. apply Z.add_mod_idemp_l; lia. Qed.
Lemma u32_add_r x y : u32 (x + u32 y) = u32 (x + y).
Proof. apply Z.add_mod_idemp_r; lia. Qed.
Lemma u32_sub_l x y : u32 (u32 x - y) = u32 (x - y).
Proof. apply Zminus_mod_idemp_l. Qed.
Lemma u32_sub_r x y : u32 (x - u32 y) = u32 (x - y).
Proof. apply Zminus_mod_idemp_r. Qed.

Lemma b2z_range b : 0 <= b2z b <= 1.
Proof. destruct b; simpl; lia. Qed.
Lemma b2z_eq_0 b : b2z b = 0 <-> b = false.
Proof. destruct b; simpl; split; congruence || lia. Qed.
Lemma b2z_eqb_0 b : (b2z b =? 0) = negb b.
Proof. by destruct b. Qed.

(** The low 16 bits and the high part of a number, as arithmetic. *)
Lemma land_ffff x : Z.land x 65535 = x mod 65536.
Proof. change 65535 with (Z.ones 16). by rewrite Z.land_ones. Qed.
Lemma shiftr_16 x : Z.shiftr x 16 = x / 65536.
Proof. by rewrite Z.shiftr_div_pow2. Qed.

Lemma has_false x m : has x m = false <-> Z.land x m = 0.
Proof. unfold has. rewrite negb_false_iff. apply Z.eqb_eq. Qed.
Lemma has_true x m : has x m = true <-> Z.land x m <> 0.
Proof. unfold has. rewrite negb_true_iff. apply Z.eqb_neq. Qed.
Lemma has_lor x y m : has (Z.lor x y) m = has x m || has y m.
Proof.
  unfold has. rewrite Z.land_lor_distr_l.
  destruct (Z.eqb_spec (Z.land x m) 0) as [E|E], (Z.eqb_spec (Z.land y m) 0) as [F|F];
    cbn [negb orb].
  - by rewrite E, F.
  - by rewrite E, Z.lor_0_l, (proj2 (Z.eqb_neq _ _) F).
  - by rewrite F, Z.lor_0_r, (proj2 (Z.eqb_neq _ _) E).
  - apply negb_true_iff, Z.eqb_neq. rewrite Z.lor_eq_0_iff. tauto.
Qed.

Create HintDb ipf discriminated.
Create HintDb keeps discriminated.
Create Rewrite HintDb ipf_wrap.
#[export] Hint Resolve u8_range u16_range u32_range : ipf.
#[export] Hint Rewrite u32_u32 u32_add_l u32_add_r u32_sub_l u32_sub_r : ipf_wrap.

(** ** Record update

    [r <| f := v |>] is [r] with the field [f] replaced by [v].  The instance is
    found from the record's eta expansion, given once per record with
    [eta_of]. *)
Class Eta (R : Type) := eta_of : R -> R.
Class FieldSet {R T : Type} (f : R -> T) := field_set : (T -> T) -> R -> R.

Ltac find_field_set :=
  lazymatch goal with
  | |- @FieldSet ?R ?T ?f =>
      let e := eval hnf in (@eta_of R _) in
      let p := eval pattern f in e in
      lazymatch p with
      | ?body _ => let g := constr:(fun (up : T -> T) (r : R) => body (fun r' => up (f r')) r) in
                   let g := eval cbv beta in g in exact g
      end
  end.
#[export] Hint Extern 1 (FieldSet _) => find_field_set : typeclass_instances.

Declare Scope upd_scope.
Delimit Scope upd_scope with upd.
Notation "r <| f := v |>" := (@field_set _ _ f _ (fun _ => v) r)
  (at level 12, f at next level, left associativity) : upd_scope.
Notation "r <| f ::= g |>" := (@field_set _ _ f _ g r)
  (at level 12, f at next level, left associativity) : upd_scope.
Global Open Scope upd_scope.
Arguments field_set / {_ _} _ {_} _ _.

(** ** Computations on an explicit state

    [ST S A] threads a state [S] through a computation that may have no
    defined result: [None] stands for an access the C program may not make (a
    null or freed object, an index outside an array), or for fuel that ran
    out. *)
Definition ST (S A : Type) : Type := S -> option (A * S).

#[export] Instance st_ret S : MRet (ST S) := fun A a s => Some (a, s).
#[export] Instance st_bind S : MBind (ST S) := fun A B k m s =>
  match m s with Some (a, s') => k a s' | None => None end.
#[export] Instance st_map S : FMap (ST S) := fun A B f m s =>
  match m s with Some (a, s') => Some (f a, s') | None => None end.

Definition gets {S A} (f : S -> A) : ST S A := fun s => Some (f s, s).
Definition modify {S} (f : S -> S) : ST S unit := fun s => Some (tt, f s).
Definition stuck {S A} : ST S A := fun _ => None.
(** A value that must be there (a pointer that is dereferenced). *)
Definition need {S A} (o : option A) : ST S A := fun s =>
  match o with Some a => Some (a, s) | None => None end.
Definition when_ {S} (b : bool) (m : ST S unit) : ST S unit :=
  if b then m else mret tt.

(** State and result of a run, projected. *)
Definition exec {S A} (m : ST S A) (s : S) : option S := snd <$> m s.
Definition result {S A} (m : ST S A) (s : S) : option A := fst <$> m s.

Lemma bind_Some {S A B} (m : ST S A) (k : A -> ST S B) s b s' :
  (m ≫= k) s = Some (b, s') <-> exists a s1, m s = Some (a, s1) /\ k a s1 = Some (b, s').
Proof.
  unfold mbind, st_bind. destruct (m s) as [[a s1]|]; split.
  - intros. by exists a, s1.
  - by intros (?&?&[= <- <-]&?).
  - done.
  - by intros (?&?&?&?).
Qed.

Lemma bind_eq {S A B} (m : ST S A) (k : A -> ST S B) s a s1 :
  m s = Some (a, s1) -> (m ≫= k) s = k a s1.
Proof. intros E. unfold mbind, st_bind. by rewrite E. Qed.

(** [wpg d m Q s]: running [m] from [s] ends in a result and a state that satisfy
    [Q], or, when it has no result, [d] holds: [False] for total correctness
    ([wp]) and [True] for partial correctness ([wlp]). *)
Definition wpg (d : Prop) {S A} (m : ST S A) (Q : A -> S -> Prop) (s : S) : Prop :=
  match m s with Some (a, s') => Q a s' | None => d end.
Abbreviation wp := (wpg False).
Abbreviation wlp := (wpg True).

Lemma wp_bind d {S A B} (m : ST S A) (k : A -> ST S B) Q s :
  wpg d (m ≫= k) Q s = wpg d m (fun a s' => wpg d (k a) Q s') s.
Proof. unfold wpg, mbind, st_bind. by destruct (m s) as [[]|]. Qed.
Lemma wp_ret d {S A} (a : A) Q (s : S) : wpg d (mret a) Q s = Q a s.
Proof. done. Qed.
Lemma wp_gets d {S A} (f : S -> A) Q s : wpg d (gets f) Q s = Q (f s) s.
Proof. done. Qed.
Lemma wp_modify d {S} (f : S -> S) Q s : wpg d (modify f) Q s = Q tt (f s).
Proof. done. Qed.
Lemma wp_mono d {S A} (m : ST S A) (Q R : A -> S -> Prop) s :
  wpg d m Q s -> (forall a s', Q a s' -> R a s') -> wpg d m R s.
Proof. unfold wpg. destruct (m s) as [[]|]; auto. Qed.
Lemma wlp_any {S A} (m : ST S A) s : wlp m (fun _ _ => True) s.
Proof. unfold wpg. by destruct (m s) as [[]|]. Qed.
Lemma wp_when d {S} (b : bool) (m : ST S unit) Q s :
  (b = true -> wpg d m Q s) -> (b = false -> Q tt s) -> wpg d (when_ b m) Q s.
Proof. destruct b; intros Ht Hf; [exact (Ht eq_refl)|exact (Hf eq_refl)]. Qed.
Lemma wp_total {S A} (m : ST S A) Q s :
  wp m Q s -> exists a s', m s = Some (a, s') /\ Q a s'.
Proof. unfold wpg. destruct (m s) as [[a s']|]; [eauto|done]. Qed.
Lemma wlp_run {S A} (m : ST S A) Q s a s' : wlp m Q s -> m s = Some (a, s') -> Q a s'.
Proof. unfold wpg. intros H E. by rewrite E in H. Qed.

(** [keeps I m]: every run of [m] from a state of [I] that has a result ends in
    [I]. *)
Definition keeps {S A} (I : S -> Prop) (m : ST S A) : Prop :=
  forall s, I s -> wlp m (fun _ => I) s.

Section Keeps.
Context {S : Type} (I : S -> Prop).
Lemma keeps_ret {A} (a : A) : keeps I (mret a).
Proof. by intros s H. Qed.
Lemma keeps_bind {A B} (m : ST S A) (k : A -> ST S B) :
  keeps I m -> (forall a, keeps I (k a)) -> keeps I (m ≫= k).
Proof.
  intros Hm Hk s H. rewrite wp_bind. eapply wp_mono; [apply (Hm s H)|].
  intros a s' H'. by apply Hk.
Qed.
Lemma keeps_gets {A} (f : S -> A) : keeps I (gets f).
Proof. by intros s H. Qed.
Lemma keeps_need {A} (o : option A) : keeps I (need o).
Proof. intros s H. unfold wpg, need. by destruct o. Qed.
Lemma keeps_stuck {A} : keeps I (@stuck S A).
Proof. by intros s H. Qed.
Lemma keeps_modify (f : S -> S) : (forall s, I s -> I (f s)) -> keeps I (modify f).
Proof. intros Hf s H. by apply Hf. Qed.
Lemma keeps_when b (m : ST S unit) : keeps I m -> keeps I (when_ b m).
Proof. intros Hm. by destruct b; [|apply keeps_ret]. Qed.
Lemma keeps_if {A} (b : bool) (m n : ST S A) :
  keeps I m -> keeps I n -> keeps I (if b then m else n).
Proof. by destruct b. Qed.
Lemma keeps_option {A B} (o : option B) (m : B -> ST S A) (n : ST S A) :
  (forall b, keeps I (m b)) -> keeps I n ->
  keeps I (match o with Some b => m b | None => n end).
Proof. by destruct o. Qed.
Lemma keeps_pair {A B C} (p : A * B) (m : A -> B -> ST S C) :
  (forall a b, keeps I (m a b)) -> keeps I (let '(a, b) := p in m a b).
Proof. by destruct p. Qed.
End Keeps.
#[export] Hint Resolve keeps_ret keeps_bind keeps_gets keeps_need keeps_stuck keeps_when
  keeps_if keeps_option keeps_pair : keeps.

(** Split every condition of a hypothesis or goal, with its equation. *)
Ltac split_ifs :=
  repeat match goal with
    | |- context [if ?b then _ else _] => destruct b eqn:?
    | H : context [if ?b then _ else _] |- _ => destruct b eqn:?
    end.

(** Turn boolean comparisons of [Z] in the context into propositions. *)
Ltac breflect :=
  repeat match goal with
    | H : (_ && _)%bool = true |- _ => apply andb_true_iff in H as [? ?]
    | H : (_ || _)%bool = false |- _ => apply orb_false_iff in H as [? ?]
    | H : negb _ = true |- _ => apply negb_true_iff in H
    | H : negb _ = false |- _ => apply negb_false_iff in H
    | H : (_ =? _) = true |- _ => apply Z.eqb_eq in H
    | H : (_ =? _) = false |- _ => apply Z.eqb_neq in H
    | H : (_ <? _) = true |- _ => apply Z.ltb_lt in H
    | H : (_ <? _) = false |- _ => apply Z.ltb_ge in H
    | H : (_ <=? _) = true |- _ => apply Z.leb_le in H
    | H : (_ <=? _) = false |- _ => apply Z.leb_gt in H
    | H : (_ >? _) = true |- _ => rewrite Z.gtb_ltb in H
    | H : (_ >? _) = false |- _ => rewrite Z.gtb_ltb in H
    | H : (_ >=? _) = true |- _ => rewrite Z.geb_leb in H
    | H : (_ >=? _) = false |- _ => rewrite Z.geb_leb in H
    end.

(** Linear arithmetic with [/] and [mod] by constants. *)
Ltac dlia := Z.to_euclidean_division_equations; lia.

(** A concrete buffer holds bytes, by computation. *)
Lemma bytes_ok bs : forallb (fun x => (0 <=? x) && (x <? 256)) bs = true -> Forall is_u8 bs.
Proof.
  induction bs as [|b bs IH]; simpl; [constructor|]. intros H. breflect.
  constructor; [unfold is_u8; lia|auto].
Qed.

(** An element in the middle of a list. *)
Lemma mid_notin {A} (l1 l2 : list A) x : NoDup (l1 ++ x :: l2) -> x ∉ l1 ++ l2.
Proof.
  intros (_ & Hd & [Hx _]%NoDup_cons)%NoDup_app [H|H]%elem_of_app; [|done].
  apply (Hd x H). by left.
Qed.
Lemma elem_mid {A} (l1 l2 : list A) x : x ∈ l1 ++ x :: l2.
Proof. apply elem_of_app. right. by left. Qed.

(** A list without the element that was unlinked from it. *)
Definition without (x : positive) (l : list positive) : list positive := filter (fun y => y <> x) l.
Lemma elem_without x y l : y ∈ without x l <-> y ∈ l /\ y <> x.
Proof. unfold without. rewrite list_elem_of_filter. tauto. Qed.
Lemma without_notin x l : x ∉ l -> without x l = l.
Proof.
  intros Hx. induction l as [|y l IH]; [done|]. apply not_elem_of_cons in Hx as [Hxy Hx].
  unfold without in *. rewrite filter_cons_True by congruence. by rewrite IH.
Qed.
Lemma without_mid x l1 l2 : x ∉ l1 ++ l2 -> without x (l1 ++ x :: l2) = l1 ++ l2.
Proof.
  intros Hx. unfold without. rewrite filter_app, filter_cons_False by auto.
  rewrite <- filter_app. by apply without_notin.
Qed.
Lemma without_NoDup x l : NoDup l -> NoDup (without x l).
Proof. apply NoDup_filter. Qed.
Lemma length_without x l : NoDup l -> x ∈ l -> Z.of_nat (length (without x l)) = Z.of_nat (length l) - 1.
Proof.
  intros Hn (l1 & l2 & ->)%list_elem_of_split. rewrite without_mid by (by apply mid_notin).
  rewrite !length_app. simpl. lia.
Qed.

(** ** Tables of buckets, finite maps and counting *)

Definition upd_at {A} (i : Z) (f : A -> A) (t : Z -> A) : Z -> A := fun j => if j =? i then f (t j) else t j.
Lemma upd_at_eq {A} i (f : A -> A) t : upd_at i f t i = f (t i).
Proof. unfold upd_at. by rewrite Z.eqb_refl. Qed.
Lemma upd_at_ne {A} i j (f : A -> A) t : j <> i -> upd_at i f t j = t j.
Proof. intros Hij. unfold upd_at. by rewrite (proj2 (Z.eqb_neq j i)). Qed.

Lemma lookup_alter_cases {A} (f : A -> A) (m : gmap positive A) x y e :
  alter f x m !! y = Some e -> (y = x /\ exists e0, m !! x = Some e0 /\ e = f e0) \/ (y <> x /\ m !! y = Some e).
Proof. intros [(<- & e0 & ? & ->)|[? ?]]%lookup_alter_Some; [left; eauto|right; split; [congruence|done]]. Qed.
Lemma alter_some {A} (f : A -> A) (m : gmap positive A) x y : is_Some (alter f x m !! y) <-> is_Some (m !! y).
Proof. rewrite lookup_alter_is_Some. done. Qed.
Lemma lookup_alter_Some_eq {A} (f : A -> A) (m : gmap positive A) x e : m !! x = Some e -> alter f x m !! x = Some (f e).
Proof. intros E0. by rewrite lookup_alter_eq, E0. Qed.

(** How many elements satisfy a predicate, when it changes at one of them. *)
Definition count {A} (P : A -> bool) (l : list A) : Z := Z.of_nat (length (filter (fun x => P x = true) l)).
Lemma count_nil {A} (P : A -> bool) : count P [] = 0.
Proof. done. Qed.
Lemma count_cons {A} (P : A -> bool) a l : count P (a :: l) = b2z (P a) + count P l.
Proof.
  unfold count. destruct (P a) eqn:E.
  - rewrite filter_cons_True by done. cbn [length b2z]. lia.
  - rewrite filter_cons_False by congruence. done.
Qed.
Lemma count_app {A} (P : A -> bool) l l' : count P (l ++ l') = count P l + count P l'.
Proof. unfold count. rewrite filter_app, length_app. lia. Qed.
Lemma count_ext {A} (P P' : A -> bool) l : (forall x, x ∈ l -> P x = P' x) -> count P l = count P' l.
Proof.
  induction l as [|a l IH]; intros Hp; [done|]. rewrite !count_cons, IH, (Hp a) by set_solver. done.
Qed.
Lemma count_upd {A} (P P' : A -> bool) l a :
  NoDup l -> a ∈ l -> (forall x, x <> a -> P x = P' x) -> count P' l = count P l + b2z (P' a) - b2z (P a).
Proof.
  intros Hn (l1 & l2 & ->)%list_elem_of_split Hp. pose proof (mid_notin _ _ _ Hn) as Ha.
  rewrite !count_app, !count_cons, (count_ext P P' l1), (count_ext P P' l2); [lia|..];
    intros x Hx; apply Hp; intros ->; apply Ha, elem_of_app; tauto.
Qed.
Lemma count_nonneg {A} (P : A -> bool) l : 0 <= count P l.
Proof. unfold count. lia. Qed.

Lemma st_bind_assoc {S A B C} (m : ST S A) (k : A -> ST S B) (f : B -> ST S C) s :
  ((m ≫= k) ≫= f) s = (m ≫= fun a => k a ≫= f) s.
Proof. unfold mbind, st_bind. by destruct (m s) as [[]|]. Qed.
