(* ===== verification/Packet.v ===== *)
(** The packet summary [fr_info_t] that every stage of the filter reads and
    updates, with the address and header structures it holds, and the
    [FI_]/[FR_]/[TH_] constants of ip_fil.h and ip_compat.h. *)
From S2P Require Import Prelude.

(** Objects that the kernel allocates are named by abstract locations. *)
Abbreviation loc := positive.

(** [i6addr_t]: a 128-bit container seen as four 32-bit words; an IPv4 address
    is the first of them. *)
Record i6addr := mk_i6addr { i60 : Z; i61 : Z; i62 : Z; i63 : Z }.
#[export] Instance i6addr_eq_dec : EqDecision i6addr.
Proof. solve_decision. Defined.
#[export] Instance eta_i6addr : Eta i6addr :=
  fun r => mk_i6addr (i60 r) (i61 r) (i62 r) (i63 r).

Definition i6_words (a : i6addr) : list Z := [i60 a; i61 a; i62 a; i63 a].
Definition i6_zero : i6addr := mk_i6addr 0 0 0 0.

Definition IP6_EQ (a b : i6addr) : bool :=
  (i63 a =? i63 b) && (i62 a =? i62 b) && (i61 a =? i61 b) && (i60 a =? i60 b).
Definition IP6_MASKEQ (a m b : i6addr) : bool :=
  (Z.land (i60 a) (i60 m) =? i60 b) && (Z.land (i61 a) (i61 m) =? i61 b) &&
  (Z.land (i62 a) (i62 m) =? i62 b) && (Z.land (i63 a) (i63 m) =? i63 b).

(** [fr_ip_t].  [fi_ipso] is kept as its two halves ([fi_secmsk], [fi_auth]). *)
Record fr_ip := mk_fr_ip {
  fi_v : Z; fi_xx : Z; fi_tos : Z; fi_ttl : Z; fi_p : Z;
  fi_optmsk : Z;
  fi_src : i6addr; fi_dst : i6addr;
  fi_secmsk : Z; fi_auth : Z;
  fi_flx : Z;
  fi_tcpmsk : Z;
  fi_ports0 : Z; fi_ports1 : Z;
  fi_tcpf : Z; fi_sensitivity : Z }.
#[export] Instance eta_fr_ip : Eta fr_ip := fun r =>
  mk_fr_ip (fi_v r) (fi_xx r) (fi_tos r) (fi_ttl r) (fi_p r) (fi_optmsk r) (fi_src r)
    (fi_dst r) (fi_secmsk r) (fi_auth r) (fi_flx r) (fi_tcpmsk r) (fi_ports0 r)
    (fi_ports1 r) (fi_tcpf r) (fi_sensitivity r).

(** [fr_info_t].  Pointers to rules, interfaces and tags are locations (a null
    pointer is [None]); pointers into the packet are byte offsets from
    [fin_ip]. *)
Record fr_info := mk_fr_info {
  fin_ifp : option loc;
  fin_fr : option loc;
  fin_out : Z;
  fin_fi : fr_ip;
  fin_dlen : Z;
  fin_plen : Z;
  fin_rule : Z;
  fin_hlen : Z;
  fin_group : list Z;
  fin_dp : Z;
  fin_crc : Z;
  fin_family : Z;
  fin_icode : Z;
  fin_rev : Z;
  fin_ipoff : Z;
  fin_id : Z;
  fin_off : Z;
  fin_depth : Z;
  fin_error : Z;
  fin_cksum : Z;
  fin_reason : Z;
  fin_nattag : option (list Z);
  fin_fraghdr : Z }.
#[export] Instance eta_fr_info : Eta fr_info := fun r =>
  mk_fr_info (fin_ifp r) (fin_fr r) (fin_out r) (fin_fi r) (fin_dlen r) (fin_plen r)
    (fin_rule r) (fin_hlen r) (fin_group r) (fin_dp r) (fin_crc r) (fin_family r) (fin_icode r)
    (fin_rev r) (fin_ipoff r) (fin_id r) (fin_off r) (fin_depth r) (fin_error r)
    (fin_cksum r) (fin_reason r) (fin_nattag r) (fin_fraghdr r).

(** The [#define]d shorthands of ip_fil.h. *)
Definition fin_v (fin : fr_info) : Z := fi_v (fin_fi fin).
Definition fin_p (fin : fr_info) : Z := fi_p (fin_fi fin).
Definition fin_flx (fin : fr_info) : Z := fi_flx (fin_fi fin).
Definition fin_src6 (fin : fr_info) : i6addr := fi_src (fin_fi fin).
Definition fin_dst6 (fin : fr_info) : i6addr := fi_dst (fin_fi fin).
Definition fin_saddr (fin : fr_info) : Z := i60 (fi_src (fin_fi fin)).
Definition fin_daddr (fin : fr_info) : Z := i60 (fi_dst (fin_fi fin)).
Definition fin_sport (fin : fr_info) : Z := fi_ports0 (fin_fi fin).
Definition fin_dport (fin : fr_info) : Z := fi_ports1 (fin_fi fin).
Definition fin_tcpf (fin : fr_info) : Z := fi_tcpf (fin_fi fin).

(** [fin->fin_flx |= m]. *)
Definition or_flx (m : Z) (fin : fr_info) : fr_info :=
  fin <| fin_fi ::= fun fi => fi <| fi_flx ::= fun x => Z.lor x m |> |>.

(** [tcphdr_t], the fields as [ntohl] or [ntohs] yields them; [th_sum] is the
    16-bit object in memory, which the checksum code converts itself. *)
Record tcphdr := mk_tcphdr {
  th_seq : Z; th_ack : Z; th_off : Z; th_flags : Z; th_win : Z; th_sum : Z }.
#[export] Instance eta_tcphdr : Eta tcphdr := fun r =>
  mk_tcphdr (th_seq r) (th_ack r) (th_off r) (th_flags r) (th_win r) (th_sum r).

Definition FI_TCPUDP : Z := 0x0001.
Definition FI_OPTIONS : Z := 0x0002.
Definition FI_FRAG : Z := 0x0004.
Definition FI_SHORT : Z := 0x0008.
Definition FI_MULTICAST : Z := 0x0020.
Definition FI_BROADCAST : Z := 0x0040.
Definition FI_MBCAST : Z := 0x0080.
Definition FI_STATE : Z := 0x0100.
Definition FI_BAD : Z := 0x0400.
Definition FI_OOW : Z := 0x0800.
Definition FI_ICMPERR : Z := 0x1000.
Definition FI_FRAGBODY : Z := 0x2000.
Definition FI_BADSRC : Z := 0x4000.
Definition FI_LOWTTL : Z := 0x8000.
Definition FI_V6EXTHDR : Z := 0x10000.
Definition FI_COALESCE : Z := 0x20000.
Definition FI_NEWNAT : Z := 0x40000.
Definition FI_ICMPQUERY : Z := 0x80000.
Definition FI_AH : Z := 0x200000.

Definition FI_CK_BAD : Z := -1.
Definition FI_CK_NEEDED : Z := 0.
Definition FI_CK_SUMOK : Z := 1.
Definition FI_CK_L4PART : Z := 2.
Definition FI_CK_L4FULL : Z := 4.

Definition FRB_LOGFAIL : Z := 1.
Definition FRB_PPSRATE : Z := 2.
Definition FRB_JUMBO : Z := 3.
Definition FRB_MAKEFRIP : Z := 4.
Definition FRB_STATEADD : Z := 5.
Definition FRB_UPDATEIPID : Z := 6.
Definition FRB_LOGFAIL2 : Z := 7.
Definition FRB_AUTHNEW : Z := 9.
Definition FRB_AUTHCAPTURE : Z := 10.
Definition FRB_COALESCE : Z := 11.
Definition FRB_PULLUP : Z := 12.
Definition FRB_BADFRAG : Z := 14.

Definition IPPROTO_ICMP : Z := 1.
Definition IPPROTO_TCP : Z := 6.
Definition IPPROTO_UDP : Z := 17.
Definition IPPROTO_ICMPV6 : Z := 58.
Definition IPPROTO_HOPOPTS : Z := 0.
Definition IPPROTO_IPV6 : Z := 41.
Definition IPPROTO_ROUTING : Z := 43.
Definition IPPROTO_FRAGMENT : Z := 44.
Definition IPPROTO_GRE : Z := 47.
Definition IPPROTO_ESP : Z := 50.
Definition IPPROTO_AH : Z := 51.
Definition IPPROTO_NONE : Z := 59.
Definition IPPROTO_DSTOPTS : Z := 60.
Definition IPPROTO_MOBILITY : Z := 135.

Definition TH_FIN : Z := 0x01.
Definition TH_SYN : Z := 0x02.
Definition TH_RST : Z := 0x04.
Definition TH_PUSH : Z := 0x08.
Definition TH_ACK : Z := 0x10.
Definition TH_URG : Z := 0x20.
Definition TH_ECN : Z := 0x40.
Definition TH_CWR : Z := 0x80.
Definition TH_ECNALL : Z := Z.lor TH_ECN TH_CWR.
Definition TH_OPENING : Z := Z.lor TH_SYN TH_ACK.
Definition TH_ACKMASK : Z := Z.lor (Z.lor (Z.lor TH_FIN TH_SYN) TH_RST) TH_ACK.

Definition FR_BLOCK : Z := 0x00001.
Definition FR_PASS : Z := 0x00002.
Definition FR_AUTH : Z := 0x00003.
Definition FR_PREAUTH : Z := 0x00004.
Definition FR_ACCOUNT : Z := 0x00005.
Definition FR_DECAPSULATE : Z := 0x00008.
Definition FR_CMDMASK : Z := 0x0000f.
Definition FR_LOG : Z := 0x00010.
Definition FR_LOGMASK : Z := Z.lor FR_LOG FR_CMDMASK.
Definition FR_CALLNOW : Z := 0x00020.
Definition FR_NOTSRCIP : Z := 0x00040.
Definition FR_NOTDSTIP : Z := 0x00080.
Definition FR_QUICK : Z := 0x00100.
Definition FR_KEEPFRAG : Z := 0x00200.
Definition FR_KEEPSTATE : Z := 0x00400.
Definition FR_RETRST : Z := 0x01000.
Definition FR_RETICMP : Z := 0x02000.
Definition FR_FAKEICMP : Z := 0x03000.
Definition FR_LOGFIRST : Z := 0x20000.
Definition FR_LOGORBLOCK : Z := 0x40000.
Definition FR_FRSTRICT : Z := 0x100000.
Definition FR_NEWISN : Z := 0x400000.
Definition FR_NOMATCH : Z := 0x8000000.

Definition FR_ISAUTH (x : Z) : bool := Z.land x FR_CMDMASK =? FR_AUTH.
Definition FR_ISPREAUTH (x : Z) : bool := Z.land x FR_CMDMASK =? FR_PREAUTH.
Definition FR_ISACCOUNT (x : Z) : bool := Z.land x FR_CMDMASK =? FR_ACCOUNT.
Definition FR_ISDECAPS (x : Z) : bool := Z.land x FR_CMDMASK =? FR_DECAPSULATE.

(** A summary with every field zero, the base of the concrete examples. *)
Definition fi_zero : fr_ip :=
  mk_fr_ip 0 0 0 0 0 0 i6_zero i6_zero 0 0 0 0 0 0 0 0.
Definition fin_zero : fr_info :=
  mk_fr_info None None 0 fi_zero 0 0 0 0 [] 0 0 0 0 0 0 0 0 0 0 0 0 None 0.
