(* ===== verification/Cksum.v ===== *)
(** The Internet checksum code: the full sums of [ipf_cksum], [ipf_pcksum] and
    [fr_cksum] (fil.c, ip_fil.c), the verdict of [ipf_checkl4sum], and the
    incremental corrections of ip_nat.c with the difference [CALC_SUMD] of
    ip_nat.h.  Everything is generic in the byte order of the host. *)
From S2P Require Import Prelude Packet.

(** ** Definitions *)

Section ByteOrder.
(** [true] on a big-endian host. *)
Context (be : bool).

(** A 16-bit object read from two bytes of memory, and the two bytes written
    for one. *)
Definition load16 (b0 b1 : Z) : Z :=
  if be then b0 * 256 + b1 else b0 + b1 * 256.
Definition store16 (v : Z) : Z * Z :=
  if be then (v / 256, v mod 256) else (v mod 256, v / 256).

Definition swap16 (x : Z) : Z := (x mod 256) * 256 + x / 256.
Definition ntohs (x : Z) : Z := if be then u16 x else swap16 (u16 x).
Definition htons (x : Z) : Z := ntohs x.

(** Byte memory: a packet is a list of bytes; an access outside it has no
    result. *)
Definition rd8 (i : Z) (m : list Z) : option Z :=
  if i <? 0 then None else m !! Z.to_nat i.
Definition rd16 (i : Z) (m : list Z) : option Z :=
  match rd8 i m, rd8 (i + 1) m with
  | Some b0, Some b1 => Some (load16 b0 b1)
  | _, _ => None
  end.
Definition wr16 (i v : Z) (m : list Z) : option (list Z) :=
  if (i <? 0) || (Z.of_nat (length m) <? i + 2) then None
  else Some (<[Z.to_nat (i + 1) := snd (store16 v)]> (<[Z.to_nat i := fst (store16 v)]> m)).

(** [for (; len > 1; len -= 2) sum += *addr++;] *)
Fixpoint sum_loop (addr : list Z) (len sum : Z) {struct addr} : option (list Z * Z * Z) :=
  if len >? 1 then
    match addr with
    | b0 :: b1 :: rest => sum_loop rest (len - 2) (u32 (sum + load16 b0 b1))
    | _ => None
    end
  else Some (addr, len, sum).

Definition ipf_cksum (addr : list Z) (len : Z) : option Z :=
  match sum_loop addr len 0 with
  | None => None
  | Some (addr, len, sum) =>
      (* mop up an odd byte, if necessary *)
      match (if len =? 1
             then match addr with b :: _ => Some (u32 (sum + b)) | [] => None end
             else Some sum) with
      | None => None
      | Some sum =>
          let sum := u32 (Z.shiftr sum 16 + Z.land sum 0xffff) in
          let sum := u32 (sum + Z.shiftr sum 16) in
          Some (u16 (Z.lnot sum))
      end
  end.

(** [while (sum > 0xffff) sum = (sum & 0xffff) + (sum >> 16);] *)
Fixpoint fold_loop (fuel : nat) (sum : Z) : option Z :=
  if sum >? 0xffff then
    match fuel with
    | O => None
    | S fuel => fold_loop fuel (u32 (Z.land sum 0xffff + Z.shiftr sum 16))
    end
  else Some sum.

(** [ipf_pcksum] of the user-level build; [m] starts at [fin_ip]. *)
Definition ipf_pcksum (fin : fr_info) (hlen sum : Z) (m : list Z) : option Z :=
  let slen := fin_plen fin - hlen in
  let sp := drop (Z.to_nat hlen) m in
  if hlen <? 0 then None else
  match sum_loop sp slen sum with
  | None => None
  | Some (sp, slen, sum) =>
      match (if slen =? 0 then Some sum
             else match sp with
                  | b :: _ => Some (u32 (sum + ntohs (Z.shiftl b 8)))
                  | [] => None
                  end) with
      | None => None
      | Some sum =>
          match fold_loop 3 sum with
          | None => None
          | Some sum => Some (u16 (Z.land (Z.lnot sum) 0xffff))
          end
      end
  end.

(** [n] consecutive 16-bit words at offset [i] added to [sum]. *)
Fixpoint add_words (n : nat) (i sum : Z) (m : list Z) : option Z :=
  match n with
  | O => Some sum
  | S n => match rd16 i m with
           | Some w => add_words n (i + 2) (u32 (sum + w)) m
           | None => None
           end
  end.

(** Where the layer 4 header keeps its checksum ([csump]). *)
Definition csum_offset (l4proto : Z) : option Z :=
  if l4proto =? IPPROTO_UDP then Some 6
  else if l4proto =? IPPROTO_TCP then Some 16
  else if l4proto =? IPPROTO_ICMP then Some 2
  else if l4proto =? IPPROTO_ICMPV6 then Some 2
  else None.

(** [fr_cksum]; [ip] and [l4hdr] are offsets from [fin_ip].  The checksum
    field is zeroed while the sum is taken and put back. *)
Definition fr_cksum (fin : fr_info) (ip l4proto l4hdr : Z) : ST (list Z) Z := fun m =>
  match rd8 ip m with
  | None => None
  | Some vhl =>
      let sum := htons (u16 l4proto) in
      let ip_v := Z.shiftr vhl 4 in
      if negb ((ip_v =? 4) || (ip_v =? 6)) then Some (0xffff, m) else
      let off := if ip_v =? 4 then Z.shiftl (Z.land vhl 15) 2 else fin_dp fin in
      match (if ip_v =? 4 then add_words 4 (ip + 12) sum m
             else add_words 16 (ip + 8) sum m) with
      | None => None
      | Some sum =>
          let slen := u16 (fin_plen fin - off) in
          let sum := u32 (sum + htons slen) in
          let sum := if l4proto =? IPPROTO_ICMP then 0 else sum in
          match csum_offset l4proto with
          | None =>
              match ipf_pcksum fin off sum m with
              | Some sum2 => Some (u16 sum2, m)
              | None => None
              end
          | Some co =>
              match rd16 (l4hdr + co) m with
              | None => None
              | Some sumsave =>
                  match wr16 (l4hdr + co) 0 m with
                  | None => None
                  | Some m0 =>
                      match ipf_pcksum fin off sum m0 with
                      | None => None
                      | Some sum2 =>
                          match wr16 (l4hdr + co) sumsave m0 with
                          | Some m1 => Some (u16 sum2, m1)
                          | None => None
                          end
                      end
                  end
              end
          end
      end
  end.

(** [ipf_checkl4sum]: the returned code, the updated [fin_cksum] and the
    packet. *)
Definition ipf_checkl4sum (fin : fr_info) : ST (list Z) (Z * fr_info) := fun m =>
  if negb (Z.land (fin_flx fin) (Z.lor (Z.lor FI_FRAG FI_SHORT) FI_BAD) =? 0)
  then Some ((1, fin), m) else
  match csum_offset (fin_p fin) with
  | None => Some ((1, fin), m)
  | Some co =>
      match rd16 (fin_dp fin + co) m with
      | None => None
      | Some field =>
          let use := negb ((fin_p fin =? IPPROTO_UDP) && (field =? 0)) in
          let hdrsum := if use then field else 0 in
          match (if use then fr_cksum fin 0 (fin_p fin) (fin_dp fin) m else Some (0, m)) with
          | None => None
          | Some (sum, m) =>
              if hdrsum =? sum then Some ((0, fin <| fin_cksum := FI_CK_SUMOK |>), m)
              else Some ((-1, fin <| fin_cksum := FI_CK_BAD |>), m)
          end
      end
  end.

(** The incremental corrections: the new value of the checksum field [*sp]. *)
Definition fix_tail (sum1 : Z) : Z :=
  let sum1 := u32 (Z.shiftr sum1 16 + Z.land sum1 0xffff) in
  let sum1 := u32 (Z.shiftr sum1 16 + Z.land sum1 0xffff) in
  htons (u16 (Z.lnot (u16 sum1))).

Definition ipf_fix_outcksum (cksum sp n partial : Z) : Z :=
  if n =? 0 then sp
  else if cksum =? 4 then 0
  else if cksum =? 2 then
    htons (u16 (u32 (Z.land partial 0xffff + Z.shiftr partial 16)))
  else
    let sum1 := Z.land (Z.lnot (ntohs sp)) 0xffff in
    fix_tail (u32 (sum1 + n)).

Definition ipf_fix_incksum (cksum sp n partial : Z) : Z :=
  if n =? 0 then sp
  else if cksum =? 4 then 0
  else if cksum =? 2 then
    htons (u16 (u32 (Z.land partial 0xffff + Z.shiftr partial 16)))
  else
    let sum1 := Z.land (Z.lnot (ntohs sp)) 0xffff in
    fix_tail (u32 (sum1 + Z.land (Z.lnot n) 0xffff)).

Definition ipf_fix_datacksum (sp n : Z) : Z :=
  if n =? 0 then sp
  else
    let sum1 := Z.land (Z.lnot (ntohs sp)) 0xffff in
    fix_tail (u32 (sum1 + n)).

(** [CALC_SUMD(s1, s2, sd)]: the value of [sd]; [w] is the wrap of the type of
    the two operands, which the macro overwrites. *)
Definition CALC_SUMD (w : Z -> Z) (s1 s2 : Z) : Z :=
  let s1 := w (Z.land s1 0xffff + Z.shiftr s1 16) in
  let s2 := w (Z.land s2 0xffff + Z.shiftr s2 16) in
  let s1 := w (Z.land s1 0xffff + Z.shiftr s1 16) in
  let s2 := w (Z.land s2 0xffff + Z.shiftr s2 16) in
  let s2 := if s1 >? s2 then w (s2 - 1) else s2 in
  let sd := u32 (s2 - s1) in
  u32 (Z.land sd 0xffff + Z.shiftr sd 16).

(** [LONG_SUM(i)]. *)
Definition LONG_SUM (i : Z) : Z := u32 (Z.land i 0xffff + Z.shiftr i 16).

(** ** Reference definitions *)

(** RFC 1071: one's complement addition with the end-around carry taken at
    every step, over the 16-bit words of a buffer (a last odd byte is padded
    with a zero byte). *)
Definition ones_add (a b : Z) : Z := (a + b) mod 65536 + (a + b) / 65536.

Fixpoint words_of (bs : list Z) : list Z :=
  match bs with
  | b0 :: b1 :: rest => load16 b0 b1 :: words_of rest
  | [b] => [load16 b 0]
  | [] => []
  end.

Definition rfc1071 (ws : list Z) : Z := 65535 - fold_left ones_add ws 0.

Definition wsum (ws : list Z) : Z := fold_right Z.add 0 ws.
End ByteOrder.

(** A checksum verifies when the one's complement sum of everything it covers,
    itself included, is a representation of zero. *)
Definition verifies (total : Z) : Prop := total mod 65535 = 0.

(** ** Arithmetic modulo 65535 *)

Definition eqm (x y : Z) : Prop := x mod 65535 = y mod 65535.
Infix "≡ₒ" := eqm (at level 70).

#[export] Instance eqm_equiv : Equivalence eqm.
Proof. unfold eqm. split; congruence. Qed.
#[export] Instance eqm_add : Proper (eqm ==> eqm ==> eqm) Z.add.
Proof. intros a b H c d K. unfold eqm in *. by rewrite Zplus_mod, H, K, <- Zplus_mod. Qed.
#[export] Instance eqm_sub : Proper (eqm ==> eqm ==> eqm) Z.sub.
Proof. intros a b H c d K. unfold eqm in *. by rewrite Zminus_mod, H, K, <- Zminus_mod. Qed.
#[export] Instance eqm_mul : Proper (eqm ==> eqm ==> eqm) Z.mul.
Proof. intros a b H c d K. unfold eqm in *. by rewrite Zmult_mod, H, K, <- Zmult_mod. Qed.
#[export] Instance eqm_opp : Proper (eqm ==> eqm) Z.opp.
Proof. intros a b H. rewrite <- !Z.sub_0_l. by rewrite H. Qed.
#[export] Instance verifies_proper : Proper (eqm ==> iff) verifies.
Proof. intros a b H. unfold verifies, eqm in *. by rewrite H. Qed.

Lemma eqm_of x y k : x = y + k * 65535 -> x ≡ₒ y.
Proof. intros ->. apply Z_mod_plus_full. Qed.

Lemma eqm_pow16 x q r : x = q * 65536 + r -> x ≡ₒ q + r.
Proof. intros ->. apply (eqm_of _ _ q). lia. Qed.

Lemma eqm_ex x y : x ≡ₒ y -> exists k, x = y + k * 65535.
Proof.
  unfold eqm. intros H.
  exists (x / 65535 - y / 65535).
  pose proof (Z.div_mod x 65535 ltac:(lia)). pose proof (Z.div_mod y 65535 ltac:(lia)). lia.
Qed.

Lemma verifies_iff x : verifies x <-> x ≡ₒ 0.
Proof. unfold verifies, eqm. by rewrite Z.mod_0_l. Qed.

(** One representative per class, except that zero has two. *)
Lemma eqm_unique x y :
  is_u16 x -> is_u16 y -> x ≡ₒ y -> (x = 0 <-> y = 0) -> x = y.
Proof. unfold is_u16. intros ?? (k & E)%eqm_ex Hz. lia. Qed.

(** One fold of the high half into the low half. *)
Lemma fold_step x : Z.shiftr x 16 + Z.land x 0xffff = x / 65536 + x mod 65536.
Proof. by rewrite shiftr_16, land_ffff. Qed.
Lemma fold_step' x : Z.land x 0xffff + Z.shiftr x 16 = x / 65536 + x mod 65536.
Proof. rewrite shiftr_16, land_ffff. lia. Qed.

Lemma fold_eqm x : x / 65536 + x mod 65536 ≡ₒ x.
Proof.
  symmetry. apply eqm_pow16. pose proof (Z.div_mod x 65536). lia.
Qed.

Lemma fold_bound x : is_u32 x -> 0 <= x / 65536 + x mod 65536 <= 131070.
Proof.
  unfold is_u32. intros H.
  pose proof (Z.mod_pos_bound x 65536 ltac:(lia)).
  assert (0 <= x / 65536 < 65536) by (split; [apply Z.div_pos | apply Z.div_lt_upper_bound]; lia).
  lia.
Qed.

(** The second fold of a number that has been folded once fits 16 bits, and is
    zero only for zero. *)
Lemma fold_bound2 x :
  0 <= x <= 131070 -> is_u16 (x / 65536 + x mod 65536).
Proof. unfold is_u16. intros. dlia. Qed.
Lemma fold_zero x : 0 <= x -> (x / 65536 + x mod 65536 = 0 <-> x = 0).
Proof. intros. dlia. Qed.

Definition fold2 (x : Z) : Z :=
  let y := x / 65536 + x mod 65536 in y / 65536 + y mod 65536.

Lemma fold2_eqm x : fold2 x ≡ₒ x.
Proof. unfold fold2. by rewrite !fold_eqm. Qed.
Lemma fold2_u16 x : is_u32 x -> is_u16 (fold2 x).
Proof. intros. apply fold_bound2, fold_bound; done. Qed.
Lemma fold2_zero x : is_u32 x -> (fold2 x = 0 <-> x = 0).
Proof.
  intros Hx. pose proof (fold_bound x Hx). unfold fold2. rewrite fold_zero by lia.
  apply fold_zero. unfold is_u32 in Hx. lia.
Qed.

(** [~x] on 16 bits. *)
Lemma u16_lnot x : is_u16 x -> u16 (Z.lnot x) = 65535 - x.
Proof.
  unfold is_u16, u16. intros. replace (Z.lnot x) with (- x - 1) by (unfold Z.lnot; lia).
  rewrite <- (Z_mod_plus_full (- x - 1) 1). rewrite Z.mod_small; lia.
Qed.
Lemma land_lnot_u16 x : is_u16 x -> Z.land (Z.lnot x) 65535 = 65535 - x.
Proof. intros. rewrite land_ffff. by apply u16_lnot. Qed.
Lemma land_lnot_ffff x : Z.land (Z.lnot x) 65535 = 65535 - x mod 65536.
Proof.
  rewrite land_ffff. unfold Z.lnot.
  pose proof (Z.div_mod x 65536 ltac:(lia)). pose proof (Z.mod_pos_bound x 65536 ltac:(lia)).
  replace (Z.pred (- x)) with (65535 - x mod 65536 + (- (x / 65536) - 1) * 65536) by lia.
  rewrite Z_mod_plus_full. apply Z.mod_small. lia.
Qed.
Lemma eqm_lnot x : 65535 - x ≡ₒ - x.
Proof. apply (eqm_of _ _ 1). lia. Qed.

(** Byte order: swapping multiplies by 256, which is its own inverse. *)
Lemma ntohs_u16 be x : is_u16 (ntohs be x).
Proof.
  unfold ntohs, swap16. destruct be; [apply u16_range|].
  pose proof (u16_range x). unfold is_u16 in *. dlia.
Qed.
Definition unit_of (be : bool) : Z := if be then 1 else 256.
Lemma ntohs_eqm be x : is_u16 x -> ntohs be x ≡ₒ unit_of be * x.
Proof.
  intros Hx. unfold ntohs, swap16, unit_of. rewrite u16_id by done.
  destruct be; [by rewrite Z.mul_1_l|].
  apply (eqm_of _ _ (- (x / 256))). pose proof (Z.div_mod x 256). lia.
Qed.
Lemma ntohs_zero be x : is_u16 x -> (ntohs be x = 0 <-> x = 0).
Proof.
  intros Hx. unfold ntohs, swap16. rewrite u16_id by done. destruct be; [done|].
  unfold is_u16 in Hx. dlia.
Qed.
Lemma unit_of_sq be : unit_of be * unit_of be ≡ₒ 1.
Proof. by destruct be. Qed.
Lemma ntohs_ntohs be x : is_u16 x -> ntohs be (ntohs be x) = x.
Proof.
  intros Hx. pose proof (ntohs_u16 be x) as H1.
  unfold ntohs in *. rewrite (u16_id x) in * by done. destruct be.
  - by rewrite u16_id.
  - rewrite u16_id by done. unfold swap16, is_u16 in *. dlia.
Qed.
Lemma eqm_cancel_unit be x y : unit_of be * x ≡ₒ unit_of be * y -> x ≡ₒ y.
Proof.
  intros H. rewrite <- (Z.mul_1_l x), <- (Z.mul_1_l y), <- (unit_of_sq be).
  rewrite <- !Z.mul_assoc. by rewrite H.
Qed.

#[export] Hint Resolve ntohs_u16 fold2_u16 : ipf.

(** ** The full sums *)

(** The canonical residue in [0 .. 65535] that keeps zero apart. *)
Definition norm (x : Z) : Z := if x =? 0 then 0 else (x - 1) mod 65535 + 1.

Lemma norm_u16 x : 0 <= x -> is_u16 (norm x).
Proof. intros. unfold norm, is_u16. case_match; [lia|]. dlia. Qed.
Lemma norm_eqm x : norm x ≡ₒ x.
Proof.
  unfold norm. destruct (Z.eqb_spec x 0) as [->|]; [done|].
  apply (eqm_of _ _ (- ((x - 1) / 65535))). pose proof (Z.div_mod (x - 1) 65535). lia.
Qed.
Lemma norm_zero x : 0 <= x -> (norm x = 0 <-> x = 0).
Proof. intros. unfold norm. destruct (Z.eqb_spec x 0); [done|]. dlia. Qed.
Lemma norm_unique x y :
  0 <= x -> is_u16 y -> y ≡ₒ x -> (y = 0 <-> x = 0) -> y = norm x.
Proof.
  intros ??? Hz. apply eqm_unique; [done|by apply norm_u16|by rewrite norm_eqm|].
  by rewrite norm_zero.
Qed.
Lemma fold2_norm x : is_u32 x -> fold2 x = norm x.
Proof.
  intros H. pose proof H as [? _].
  apply norm_unique; [done|by apply fold2_u16|apply fold2_eqm|by apply fold2_zero].
Qed.

(** End-around carry. *)
Lemma ones_add_eqm a b : ones_add a b ≡ₒ a + b.
Proof. unfold ones_add. rewrite Z.add_comm. apply fold_eqm. Qed.
Lemma ones_add_u16 a b : is_u16 a -> is_u16 b -> is_u16 (ones_add a b).
Proof. unfold ones_add, is_u16. intros. dlia. Qed.
Lemma ones_add_zero a b :
  is_u16 a -> is_u16 b -> (ones_add a b = 0 <-> a + b = 0).
Proof. unfold ones_add, is_u16. intros. dlia. Qed.

Lemma wsum_nonneg ws : Forall is_u16 ws -> 0 <= wsum ws.
Proof. induction 1 as [|w ws [? _]]; simpl; lia. Qed.
Lemma wsum_bound ws : Forall is_u16 ws -> wsum ws <= 65535 * Z.of_nat (length ws).
Proof. induction 1 as [|w ws Hw]; simpl; [lia|]. unfold is_u16 in Hw. lia. Qed.
Lemma wsum_app ws vs : wsum (ws ++ vs) = wsum ws + wsum vs.
Proof. induction ws; simpl; lia. Qed.

Lemma ones_fold_norm ws : forall a,
  Forall is_u16 ws -> is_u16 a -> fold_left ones_add ws a = norm (a + wsum ws).
Proof.
  induction ws as [|w ws IH]; intros a Hws Ha; simpl.
  - pose proof Ha as [? _]. rewrite Z.add_0_r. by apply norm_unique.
  - apply Forall_cons in Hws as [Hw Hws]. pose proof (wsum_nonneg ws Hws).
    pose proof (ones_add_u16 a w Ha Hw) as Hu. rewrite IH by done.
    unfold is_u16 in Ha, Hw.
    apply norm_unique; [lia|apply norm_u16; unfold is_u16 in Hu; lia| |].
    + by rewrite norm_eqm, ones_add_eqm, Z.add_assoc.
    + unfold is_u16 in Hu. rewrite norm_zero by lia.
      pose proof (ones_add_zero a w ltac:(unfold is_u16; lia) ltac:(unfold is_u16; lia)). lia.
Qed.

Lemma rfc1071_norm ws : Forall is_u16 ws -> rfc1071 ws = 65535 - norm (wsum ws).
Proof.
  intros. unfold rfc1071. rewrite ones_fold_norm; [done..|]. unfold is_u16; lia.
Qed.

(** Byte lists, two at a time. *)
Lemma pair_ind (P : list Z -> Prop) :
  P [] -> (forall b, P [b]) -> (forall b0 b1 bs, P bs -> P (b0 :: b1 :: bs)) -> forall bs, P bs.
Proof.
  intros H0 H1 H2. fix IH 1. intros [|b0 [|b1 bs]]; [done|apply H1|apply H2, IH].
Qed.

Lemma load16_u16 be b0 b1 : is_u8 b0 -> is_u8 b1 -> is_u16 (load16 be b0 b1).
Proof. unfold is_u8, is_u16, load16. destruct be; lia. Qed.

Lemma words_of_u16 be bs : Forall is_u8 bs -> Forall is_u16 (words_of be bs).
Proof.
  induction bs as [|b|b0 b1 bs IH] using pair_ind; intros H; simpl; [constructor|..].
  - apply Forall_cons in H as [H _]. constructor; [|constructor].
    apply load16_u16; [done|]. unfold is_u8; lia.
  - apply Forall_cons in H as [? H]. apply Forall_cons in H as [? H].
    constructor; [by apply load16_u16|auto].
Qed.

Lemma words_of_length be bs : Z.of_nat (length (words_of be bs)) = (Z.of_nat (length bs) + 1) / 2.
Proof.
  induction bs as [|b|b0 b1 bs IH] using pair_ind; [done..|].
  cbn [words_of length]. rewrite !Nat2Z.inj_succ, IH. dlia.
Qed.

Lemma words_of_app be a b : Nat.Even (length a) -> words_of be (a ++ b) = words_of be a ++ words_of be b.
Proof.
  induction a as [|x|x y a IH] using pair_ind; intros He; simpl; [done|..].
  - apply Nat.even_spec in He. discriminate.
  - rewrite IH; [done|]. apply Nat.even_spec in He. by apply Nat.even_spec.
Qed.

(** The last byte of a buffer of odd length. *)
Fixpoint odd_tail (bs : list Z) : list Z :=
  match bs with _ :: _ :: rest => odd_tail rest | _ => bs end.
Fixpoint pairs_of (be : bool) (bs : list Z) : list Z :=
  match bs with b0 :: b1 :: rest => load16 be b0 b1 :: pairs_of be rest | _ => [] end.

Lemma words_pairs be bs :
  words_of be bs = pairs_of be bs ++ match odd_tail bs with b :: _ => [load16 be b 0] | [] => [] end.
Proof. induction bs as [|b|b0 b1 bs IH] using pair_ind; simpl; [done..|]. by rewrite IH. Qed.

Lemma odd_tail_length bs : Z.of_nat (length (odd_tail bs)) = Z.of_nat (length bs) mod 2.
Proof.
  induction bs as [|b|b0 b1 bs IH] using pair_ind; [done..|].
  cbn [odd_tail length]. rewrite !Nat2Z.inj_succ, IH. dlia.
Qed.
Lemma odd_tail_cases bs :
  (odd_tail bs = [] /\ Z.of_nat (length bs) mod 2 = 0) \/
  (exists b, odd_tail bs = [b] /\ Z.of_nat (length bs) mod 2 = 1 /\ (Forall is_u8 bs -> is_u8 b)).
Proof.
  induction bs as [|b|b0 b1 bs IH] using pair_ind; [by left|right; exists b; split_and!; [done..|]; by intros [? _]%Forall_cons|].
  cbn [odd_tail length]. rewrite !Nat2Z.inj_succ.
  replace (Z.succ (Z.succ (Z.of_nat (length bs))) mod 2) with (Z.of_nat (length bs) mod 2) by dlia.
  destruct IH as [?|(b & ? & ? & H)]; [by left|]. right. exists b. split_and!; [done..|].
  by intros [_ [_ ?]%Forall_cons]%Forall_cons; auto.
Qed.

Lemma pairs_of_u16 be bs : Forall is_u8 bs -> Forall is_u16 (pairs_of be bs).
Proof.
  intros H. pose proof (words_of_u16 be bs H) as Hw. rewrite words_pairs in Hw.
  by apply Forall_app in Hw as [? _].
Qed.

(** The word loop reads the pairs and leaves the odd byte, without wrapping. *)
Lemma sum_loop_spec be bs rest : forall sum,
  Forall is_u8 bs -> 0 <= sum -> sum + wsum (pairs_of be bs) < 2 ^ 32 ->
  sum_loop be (bs ++ rest) (Z.of_nat (length bs)) sum =
  Some (odd_tail bs ++ rest, Z.of_nat (length bs) mod 2, sum + wsum (pairs_of be bs)).
Proof.
  induction bs as [|b|b0 b1 bs IH] using pair_ind; intros sum H Hs Hb.
  - simpl. rewrite Z.add_0_r. by destruct rest.
  - simpl. by rewrite Z.add_0_r.
  - apply Forall_cons in H as [? H]. apply Forall_cons in H as [? H].
    pose proof (load16_u16 be b0 b1 ltac:(done) ltac:(done)) as Hl. unfold is_u16 in Hl.
    pose proof (wsum_nonneg _ (pairs_of_u16 be bs H)).
    simpl in Hb. cbn [app sum_loop length odd_tail pairs_of wsum fold_right].
    destruct (Z.gtb_spec (Z.of_nat (S (S (length bs)))) 1); [|lia].
    replace (Z.of_nat (S (S (length bs))) - 2) with (Z.of_nat (length bs)) by lia.
    rewrite u32_id by (unfold is_u32; lia).
    rewrite IH; [|done|lia|fold (wsum (pairs_of be bs)); lia].
    f_equal. f_equal; [f_equal|]; [|fold (wsum (pairs_of be bs)); lia].
    rewrite !Nat2Z.inj_succ. dlia.
Qed.

Lemma fold_loop_norm x : is_u32 x -> fold_loop 3 x = Some (norm x).
Proof.
  intros Hx. pose proof (fold_bound x Hx). pose proof (fold2_u16 x Hx) as H2.
  pose proof Hx as [? _].
  assert (Hsmall : forall n y, is_u16 y -> fold_loop n y = Some y).
  { intros [] y Hy; unfold is_u16 in Hy; simpl; destruct (Z.gtb_spec y 65535); lia || done. }
  assert (Hstep : forall n y, fold_loop (S n) y =
    if y >? 65535 then fold_loop n (u32 (y / 65536 + y mod 65536)) else Some y).
  { intros. cbn [fold_loop]. by rewrite fold_step'. }
  rewrite Hstep. destruct (Z.gtb_spec x 65535).
  - rewrite u32_id by (unfold is_u32; lia).
    rewrite Hstep. destruct (Z.gtb_spec (x / 65536 + x mod 65536) 65535).
    + pose proof (fold_bound2 _ H) as H4.
      rewrite u32_id by (unfold is_u16 in H4; unfold is_u32; lia).
      rewrite <- fold2_norm by done. by apply Hsmall.
    + f_equal. rewrite <- fold2_norm by done. unfold fold2.
      set (y := x / 65536 + x mod 65536) in *. rewrite (Z.div_small y), (Z.mod_small y); lia.
  - f_equal. apply norm_unique; [lia|unfold is_u16; lia|done|done].
Qed.

(** ** Packet memory *)

Lemma rd8_app pre b rest : rd8 (Z.of_nat (length pre)) (pre ++ b :: rest) = Some b.
Proof.
  unfold rd8. destruct (Z.ltb_spec (Z.of_nat (length pre)) 0); [lia|].
  rewrite Nat2Z.id. by apply list_lookup_middle.
Qed.
Lemma rd16_app be pre b0 b1 rest :
  rd16 be (Z.of_nat (length pre)) (pre ++ b0 :: b1 :: rest) = Some (load16 be b0 b1).
Proof.
  unfold rd16. rewrite rd8_app.
  replace (Z.of_nat (length pre) + 1) with (Z.of_nat (length (pre ++ [b0])))
    by (rewrite length_app; simpl; lia).
  replace (pre ++ b0 :: b1 :: rest) with ((pre ++ [b0]) ++ b1 :: rest) by by rewrite <- app_assoc.
  by rewrite rd8_app.
Qed.
Lemma wr16_app be pre b0 b1 rest v :
  wr16 be (Z.of_nat (length pre)) v (pre ++ b0 :: b1 :: rest) =
  Some (pre ++ fst (store16 be v) :: snd (store16 be v) :: rest).
Proof.
  unfold wr16. rewrite length_app. simpl length.
  destruct (Z.ltb_spec (Z.of_nat (length pre)) 0); [lia|].
  destruct (Z.ltb_spec (Z.of_nat (length pre + S (S (length rest)))) (Z.of_nat (length pre) + 2)); [lia|].
  simpl. f_equal. rewrite Nat2Z.id. replace (Z.to_nat (Z.of_nat (length pre) + 1)) with (length pre + 1)%nat by lia.
  rewrite <- (Nat.add_0_r (length pre)) at 2.
  rewrite !insert_app_r. done.
Qed.

Lemma store_load16 be b0 b1 : is_u8 b0 -> is_u8 b1 -> store16 be (load16 be b0 b1) = (b0, b1).
Proof. unfold store16, load16, is_u8. intros. destruct be; f_equal; dlia. Qed.
Lemma store16_0 be : store16 be 0 = (0, 0).
Proof. by destruct be. Qed.

Lemma add_words_spec be n : forall i sum m,
  Forall is_u8 m -> 0 <= i -> i + 2 * Z.of_nat n <= Z.of_nat (length m) ->
  0 <= sum -> sum + 65535 * Z.of_nat n < 2 ^ 32 ->
  add_words be n i sum m = Some (sum + wsum (words_of be (take (2 * n) (drop (Z.to_nat i) m)))).
Proof.
  induction n as [|n IH]; intros i sum m Hm Hi Hl Hs Hb; [by rewrite Z.add_0_r|].
  destruct (drop (Z.to_nat i) m) as [|b0 [|b1 rest]] eqn:E.
  1-2: apply (f_equal length) in E; rewrite length_drop in E; simpl in E; lia.
  assert (Em : m = take (Z.to_nat i) m ++ b0 :: b1 :: rest) by by rewrite <- E, take_drop.
  assert (Hlen : Z.of_nat (length (take (Z.to_nat i) m)) = i) by (rewrite length_take; lia).
  assert (is_u8 b0 /\ is_u8 b1) as [H0 H1].
  { rewrite Em in Hm. apply Forall_app in Hm as [_ Hm].
    by apply Forall_cons in Hm as [? [? _]%Forall_cons]. }
  pose proof (load16_u16 be b0 b1 H0 H1) as Hw. unfold is_u16 in Hw.
  cbn [add_words]. rewrite Em at 1. rewrite <- Hlen at 1. rewrite rd16_app.
  rewrite u32_id by (unfold is_u32; lia).
  rewrite IH by (done || lia). f_equal.
  replace (2 * S n)%nat with (S (S (2 * n))) by lia. cbn [take words_of wsum fold_right].
  replace (Z.to_nat (i + 2)) with (Z.to_nat i + 2)%nat by lia.
  rewrite <- drop_drop, E. cbn [drop]. rewrite drop_0. unfold wsum. lia.
Qed.

(** [ipf_pcksum] over a segment [bs] that follows a header of [hlen] bytes. *)
Lemma ipf_pcksum_spec be fin hdr bs trailer sum :
  Forall is_u8 bs ->
  fin_plen fin = Z.of_nat (length hdr) + Z.of_nat (length bs) ->
  0 <= sum -> sum + wsum (words_of be bs) < 2 ^ 32 ->
  ipf_pcksum be fin (Z.of_nat (length hdr)) sum (hdr ++ bs ++ trailer) =
  Some (65535 - norm (sum + wsum (words_of be bs))).
Proof.
  intros Hbs Hp Hs Hb. unfold ipf_pcksum.
  destruct (Z.ltb_spec (Z.of_nat (length hdr)) 0); [lia|].
  rewrite Nat2Z.id, drop_app_length.
  replace (fin_plen fin - Z.of_nat (length hdr)) with (Z.of_nat (length bs)) by lia.
  assert (Hsplit : wsum (words_of be bs) = wsum (pairs_of be bs) +
     match odd_tail bs with b :: _ => load16 be b 0 | [] => 0 end).
  { rewrite words_pairs, wsum_app. f_equal. destruct (odd_tail bs); simpl; lia. }
  pose proof (wsum_nonneg _ (pairs_of_u16 be bs Hbs)).
  assert (Hfin : forall x, x = sum + wsum (words_of be bs) ->
     match fold_loop 3 x with None => None
     | Some sum => Some (u16 (Z.land (Z.lnot sum) 0xffff)) end =
     Some (65535 - norm (sum + wsum (words_of be bs)))).
  { intros x ->. rewrite fold_loop_norm.
    - f_equal. pose proof (norm_u16 (sum + wsum (words_of be bs))) as Hn.
      pose proof (wsum_nonneg _ (words_of_u16 be bs Hbs)).
      rewrite land_lnot_u16 by (apply Hn; lia). apply u16_id. unfold is_u16 in *. lia.
    - pose proof (wsum_nonneg _ (words_of_u16 be bs Hbs)). unfold is_u32. lia. }
  destruct (odd_tail_cases bs) as [[E Em]|(b & E & Em & Hb8)]; rewrite E in *.
  - rewrite sum_loop_spec by (done || lia). rewrite E, Em. simpl. apply Hfin. lia.
  - specialize (Hb8 Hbs). unfold is_u8 in Hb8.
    assert (Ent : ntohs be (Z.shiftl b 8) = load16 be b 0).
    { rewrite Z.shiftl_mul_pow2 by lia. unfold ntohs, load16, swap16, u16. destruct be; dlia. }
    assert (0 <= load16 be b 0) by (unfold load16; destruct be; lia).
    rewrite sum_loop_spec by (done || lia). rewrite E, Em. simpl. rewrite Ent.
    rewrite u32_id by (unfold is_u32; lia). apply Hfin. lia.
Qed.

(** ** Properties of the full sums *)

(** The bytes of [fr_cksum]'s pseudo header, as the words it adds. *)
Definition pseudo_words (be : bool) (hdr : list Z) (proto slen : Z) : list Z :=
  if proto =? IPPROTO_ICMP then []
  else htons be (u16 proto) :: words_of be (take 8 (drop 12 hdr)) ++ [htons be (u16 slen)].

(** The shape of an IPv4 packet [hdr ++ seg ++ trailer] described by [fin], with a
    layer 4 checksum at offset [length a] of the segment [a ++ c0 :: c1 :: b]. *)
Record ipv4_packet (fin : fr_info) (proto : Z) (hdr a : list Z) (c0 c1 : Z) (b trailer : list Z) := {
  ip_bytes : Forall is_u8 (hdr ++ a ++ c0 :: c1 :: b ++ trailer);
  ip_vhl : exists vhl rest, hdr = vhl :: rest /\ Z.shiftr vhl 4 = 4 /\
             Z.shiftl (Z.land vhl 15) 2 = Z.of_nat (length hdr);
  ip_hlen : 20 <= Z.of_nat (length hdr);
  ip_plen : fin_plen fin = Z.of_nat (length hdr) + Z.of_nat (length (a ++ c0 :: c1 :: b));
  ip_plen_max : fin_plen fin <= 65535;
  ip_csum : csum_offset proto = Some (Z.of_nat (length a)) }.

Lemma csum_offset_even proto n : csum_offset proto = Some (Z.of_nat n) -> Nat.Even n.
Proof.
  unfold csum_offset. intros H.
  assert (n = 6 \/ n = 16 \/ n = 2)%nat as [->|[->| ->]]
    by (split_ifs; [apply (inj Some) in H; lia..|discriminate]);
  by apply Nat.even_spec.
Qed.

Lemma pseudo_u16 be hdr proto slen : Forall is_u8 hdr -> Forall is_u16 (pseudo_words be hdr proto slen).
Proof.
  intros H. unfold pseudo_words. split_ifs; [constructor|].
  constructor; [apply ntohs_u16|]. apply Forall_app. split.
  - apply words_of_u16. by apply Forall_take, Forall_drop.
  - constructor; [apply ntohs_u16|constructor].
Qed.

Lemma ipf_cksum_final x :
  is_u32 x ->
  u16 (Z.lnot (u32 (u32 (Z.shiftr x 16 + Z.land x 65535) +
                    Z.shiftr (u32 (Z.shiftr x 16 + Z.land x 65535)) 16))) = 65535 - norm x.
Proof.
  intros Hx. rewrite fold_step. pose proof (fold_bound x Hx). pose proof (fold2_u16 x Hx) as H2.
  rewrite <- fold2_norm by done. unfold fold2 in *. set (y := x / 65536 + x mod 65536) in *.
  rewrite (u32_id y) by (unfold is_u32; lia). rewrite shiftr_16.
  rewrite u32_id by (unfold is_u32; dlia).
  unfold u16, Z.lnot, is_u16 in *. clearbody y. dlia.
Qed.

(** the header checksum [ipf_cksum], which adds 16-bit words into 32 bits and
    folds the carries twice at the end, computes exactly the RFC 1071 checksum
    (end-around carry at every word) of the buffer, for every buffer of bytes
    up to 131074 bytes; on a big-endian host only for even lengths, because the
    last odd byte is added unshifted. *)
Theorem ipf_cksum_rfc1071 be bs :
  Forall is_u8 bs -> Z.of_nat (length bs) <= 131074 ->
  (be = true -> Nat.Even (length bs)) ->
  ipf_cksum be bs (Z.of_nat (length bs)) = Some (rfc1071 (words_of be bs)).
Proof.
  intros Hbs Hl He. rewrite rfc1071_norm by by apply words_of_u16.
  pose proof (wsum_bound _ (words_of_u16 be bs Hbs)) as Hwb.
  rewrite words_of_length in Hwb.
  pose proof (wsum_nonneg _ (pairs_of_u16 be bs Hbs)).
  rewrite words_pairs, wsum_app in *.
  unfold ipf_cksum. rewrite <- (app_nil_r bs) at 1.
  destruct (odd_tail_cases bs) as [[E Em]|(b & E & Em & Hb8)]; rewrite E in *.
  - rewrite sum_loop_spec by (done || (simpl in Hwb; dlia)). rewrite E, Em. simpl.
    rewrite Z.add_0_r. f_equal. apply ipf_cksum_final. unfold is_u32. simpl in Hwb. dlia.
  - specialize (Hb8 Hbs). unfold is_u8 in Hb8.
    destruct be.
    { specialize (He eq_refl) as [k Hk]. rewrite Hk in Em. dlia. }
    simpl in Hwb. rewrite sum_loop_spec by (done || dlia). rewrite E, Em. simpl.
    rewrite (u32_id (0 + wsum (pairs_of false bs) + b)) by (unfold is_u32; dlia).
    rewrite ipf_cksum_final by (unfold is_u32; dlia). do 3 f_equal. lia.
Qed.

Lemma ipf_cksum_rfc1071_witness :
  ipf_cksum false [0x45; 0; 0; 0x1c; 0xff] 5 = Some (rfc1071 (words_of false [0x45; 0; 0; 0x1c; 0xff])) /\
  ipf_cksum false [0x45; 0; 0; 0x1c; 0xff] 5 = Some 0xe2bb.
Proof.
  split; [|by vm_compute].
  apply (ipf_cksum_rfc1071 false [0x45; 0; 0; 0x1c; 0xff]).
  - by apply bytes_ok.
  - simpl; lia.
  - discriminate.
Defined.

Section FrCksum.
Context (be : bool) (fin : fr_info) (proto : Z) (hdr a : list Z) (c0 c1 : Z) (b trailer : list Z).
Context (Hpkt : ipv4_packet fin proto hdr a c0 c1 b trailer).

Local Abbreviation packet x y := (hdr ++ a ++ x :: y :: b ++ trailer).
Local Abbreviation covered := (pseudo_words be hdr proto (fin_plen fin - Z.of_nat (length hdr)) ++
                           words_of be (a ++ 0 :: 0 :: b)).

Lemma packet_assoc x y : packet x y = hdr ++ (a ++ x :: y :: b) ++ trailer.
Proof. by rewrite <- (app_assoc a). Qed.

Lemma fr_cksum_zeroed :
  Forall is_u8 (a ++ 0 :: 0 :: b) /\ Forall is_u8 hdr /\ is_u8 c0 /\ is_u8 c1.
Proof.
  pose proof (ip_bytes _ _ _ _ _ _ _ _ Hpkt) as H.
  apply Forall_app in H as [Hh H]. apply Forall_app in H as [Ha H].
  apply Forall_cons in H as [H0 H]. apply Forall_cons in H as [H1 H].
  apply Forall_app in H as [Hb _].
  split_and!; [|done..]. apply Forall_app; split; [done|].
  repeat constructor; done || unfold is_u8; lia.
Qed.

Lemma fr_cksum_covered : Forall is_u16 covered.
Proof.
  destruct fr_cksum_zeroed as (Ha & Hh & _). apply Forall_app; split.
  - by apply pseudo_u16.
  - by apply words_of_u16.
Qed.

Lemma fr_cksum_seg_len : Z.of_nat (length (a ++ 0 :: 0 :: b)) = Z.of_nat (length (a ++ c0 :: c1 :: b)).
Proof. by rewrite !length_app. Qed.

Lemma fr_cksum_run :
  fr_cksum be fin 0 proto (Z.of_nat (length hdr)) (packet c0 c1) = Some (rfc1071 covered, packet c0 c1).
Proof.
  pose proof Hpkt as [Hbytes (vhl & hrest & Ehdr & Hv & Hl) Hh Hp Hpm Hco].
  destruct fr_cksum_zeroed as (Hz & Hhdr & H0 & H1).
  rewrite rfc1071_norm by apply fr_cksum_covered.
  pose proof (wsum_bound _ (words_of_u16 be _ Hz)) as Hwz. rewrite words_of_length in Hwz.
  rewrite fr_cksum_seg_len in Hwz.
  pose proof (wsum_nonneg _ (words_of_u16 be _ Hz)).
  unfold fr_cksum.
  replace (rd8 0 (packet c0 c1)) with (Some vhl) by (by rewrite Ehdr).
  rewrite Hv, Hl. cbn [Z.eqb Pos.eqb orb negb].
  assert (Hbytes' : Forall is_u8 (packet c0 c1)) by done.
  assert (Hdrop : take (2 * 4) (drop (Z.to_nat (0 + 12)) (packet c0 c1)) = take 8 (drop 12 hdr)).
  { change (Z.to_nat (0 + 12)) with 12%nat. rewrite drop_app_le by lia.
    by rewrite take_app_le by (rewrite length_drop; lia). }
  pose proof (ntohs_u16 be (u16 proto)) as Hn1. fold (htons be (u16 proto)) in Hn1. unfold is_u16 in Hn1.
  rewrite add_words_spec; [|done|lia|rewrite length_app; lia|lia|simpl; lia]. rewrite Hdrop.
  set (addrs := words_of be (take 8 (drop 12 hdr))).
  assert (Haddr : 0 <= wsum addrs <= 65535 * 4).
  { assert (Hu : Forall is_u16 addrs) by by apply words_of_u16, Forall_take, Forall_drop.
    split; [by apply wsum_nonneg|]. etrans; [by apply wsum_bound|].
    unfold addrs. rewrite words_of_length, length_take, length_drop. dlia. }
  pose proof (ntohs_u16 be (u16 (fin_plen fin - Z.of_nat (length hdr)))) as Hn2.
  fold (htons be (u16 (fin_plen fin - Z.of_nat (length hdr)))) in Hn2. unfold is_u16 in Hn2.
  rewrite u32_id by (unfold is_u32; lia).
  rewrite Hco, <- Nat2Z.inj_add, <- length_app.
  rewrite (app_assoc hdr a), rd16_app, wr16_app, store16_0. simpl fst; simpl snd.
  rewrite <- (app_assoc hdr a), packet_assoc.
  assert (Hps : (if proto =? IPPROTO_ICMP then 0
     else htons be (u16 proto) + wsum addrs + htons be (u16 (fin_plen fin - Z.of_nat (length hdr)))) =
     wsum (pseudo_words be hdr proto (fin_plen fin - Z.of_nat (length hdr)))).
  { unfold pseudo_words. fold addrs. destruct (proto =? IPPROTO_ICMP); [done|].
    cbn [wsum fold_right]. fold (wsum (addrs ++ [htons be (u16 (fin_plen fin - Z.of_nat (length hdr)))])).
    rewrite wsum_app. simpl. lia. }
  rewrite Hps.
  assert (Hpb : 0 <= wsum (pseudo_words be hdr proto (fin_plen fin - Z.of_nat (length hdr))) <= 65535 * 6).
  { rewrite <- Hps. destruct (proto =? IPPROTO_ICMP); lia. }
  rewrite ipf_pcksum_spec; [|done|rewrite fr_cksum_seg_len; lia|lia|dlia].
  rewrite <- packet_assoc, (app_assoc hdr a), wr16_app, store_load16 by done. simpl fst; simpl snd.
  rewrite <- (app_assoc hdr a), wsum_app. do 2 f_equal.
  apply u16_id. pose proof (norm_u16 (wsum (pseudo_words be hdr proto (fin_plen fin - Z.of_nat (length hdr))) +
     wsum (words_of be (a ++ 0 :: 0 :: b)))) as Hn. unfold is_u16 in *. lia.
Qed.
End FrCksum.

(** C35. for an IPv4 packet whose layer 4 checksum field lies inside the segment,
    [fr_cksum] returns the RFC 1071 checksum of the pseudo header (left out for
    ICMP) followed by the segment with its checksum field taken as zero, and
    leaves the packet's bytes as they were, although it zeroes the field while
    it sums. *)
Theorem fr_cksum_reference be fin proto hdr a c0 c1 b trailer :
  ipv4_packet fin proto hdr a c0 c1 b trailer ->
  fr_cksum be fin 0 proto (Z.of_nat (length hdr)) (hdr ++ a ++ c0 :: c1 :: b ++ trailer) =
  Some (rfc1071 (pseudo_words be hdr proto (fin_plen fin - Z.of_nat (length hdr)) ++
                 words_of be (a ++ 0 :: 0 :: b)),
        hdr ++ a ++ c0 :: c1 :: b ++ trailer).
Proof. apply fr_cksum_run. Qed.

(** A UDP datagram from 10.0.0.1 to 10.0.0.2 whose checksum computes to zero. *)
Definition ex_udp_hdr : list Z :=
  [0x45; 0; 0; 30; 0; 0; 0; 0; 64; 17; 0; 0; 10; 0; 0; 1; 10; 0; 0; 2].
Definition ex_udp_a : list Z := [0; 53; 0; 53; 0; 10].
Definition ex_udp_b : list Z := [0xeb; 0x6d].
Definition ex_udp_fin : fr_info :=
  fin_zero <| fin_plen := 30 |> <| fin_hlen := 20 |> <| fin_dlen := 10 |> <| fin_dp := 20 |>
    <| fin_fi := fi_zero <| fi_v := 4 |> <| fi_p := IPPROTO_UDP |> |>.

Lemma ex_udp_packet c0 c1 : is_u8 c0 -> is_u8 c1 ->
  ipv4_packet ex_udp_fin IPPROTO_UDP ex_udp_hdr ex_udp_a c0 c1 ex_udp_b [].
Proof.
  intros. split.
  - apply Forall_app; split; [by apply bytes_ok|]. apply Forall_app; split; [by apply bytes_ok|].
    repeat (apply Forall_cons; split; [done|]). by apply bytes_ok.
  - by eexists _, _.
  - done.
  - done.
  - done.
  - done.
Qed.

Lemma fr_cksum_reference_witness :
  fr_cksum false ex_udp_fin 0 IPPROTO_UDP 20 (ex_udp_hdr ++ ex_udp_a ++ 0xff :: 0xff :: ex_udp_b) =
  Some (0, ex_udp_hdr ++ ex_udp_a ++ 0xff :: 0xff :: ex_udp_b).
Proof.
  exact (fr_cksum_reference false ex_udp_fin IPPROTO_UDP ex_udp_hdr ex_udp_a 0xff 0xff ex_udp_b []
           (ex_udp_packet 0xff 0xff ltac:(done) ltac:(done))).
Defined.

Lemma checkl4sum_run be fin hdr a c0 c1 b trailer :
  ipv4_packet fin (fin_p fin) hdr a c0 c1 b trailer ->
  fin_dp fin = Z.of_nat (length hdr) ->
  Z.land (fin_flx fin) (Z.lor (Z.lor FI_FRAG FI_SHORT) FI_BAD) = 0 ->
  let pkt := hdr ++ a ++ c0 :: c1 :: b ++ trailer in
  let want := rfc1071 (pseudo_words be hdr (fin_p fin) (fin_plen fin - Z.of_nat (length hdr)) ++
                       words_of be (a ++ 0 :: 0 :: b)) in
  let stored := load16 be c0 c1 in
  ipf_checkl4sum be fin pkt =
  Some (if (stored =? want) || ((fin_p fin =? IPPROTO_UDP) && (stored =? 0))
        then (0, fin <| fin_cksum := FI_CK_SUMOK |>)
        else (-1, fin <| fin_cksum := FI_CK_BAD |>), pkt).
Proof.
  intros Hp Hdp Hflx pkt want stored. unfold ipf_checkl4sum. rewrite Hflx.
  rewrite (ip_csum _ _ _ _ _ _ _ _ Hp). cbn [Z.eqb negb].
  rewrite Hdp, <- Nat2Z.inj_add, <- length_app. unfold pkt.
  rewrite (app_assoc hdr a), rd16_app, <- (app_assoc hdr a).
  destruct ((fin_p fin =? IPPROTO_UDP) && (load16 be c0 c1 =? 0)) eqn:Eu; cbn [negb].
  - unfold stored. by rewrite Eu, orb_true_r.
  - rewrite (fr_cksum_run be fin (fin_p fin) hdr a c0 c1 b trailer Hp). fold want stored in Eu |- *.
    rewrite Eu, orb_false_r. by destruct (stored =? want).
Qed.

(** [ipf_checkl4sum] on a complete IPv4 packet accepts it (result 0, mark
    [FI_CK_SUMOK]) exactly when the stored checksum equals the reference
    checksum, and otherwise rejects it (result -1, mark [FI_CK_BAD]); the only
    other accepted case is UDP's "no checksum" field of zero.  Nothing but
    [fin_cksum] changes, and the packet is left as it was. *)
Theorem checkl4sum_verdict be fin hdr a c0 c1 b trailer :
  ipv4_packet fin (fin_p fin) hdr a c0 c1 b trailer ->
  fin_dp fin = Z.of_nat (length hdr) ->
  Z.land (fin_flx fin) (Z.lor (Z.lor FI_FRAG FI_SHORT) FI_BAD) = 0 ->
  let pkt := hdr ++ a ++ c0 :: c1 :: b ++ trailer in
  let want := rfc1071 (pseudo_words be hdr (fin_p fin) (fin_plen fin - Z.of_nat (length hdr)) ++
                       words_of be (a ++ 0 :: 0 :: b)) in
  let stored := load16 be c0 c1 in
  ipf_checkl4sum be fin pkt =
  Some (if (stored =? want) || ((fin_p fin =? IPPROTO_UDP) && (stored =? 0))
        then (0, fin <| fin_cksum := FI_CK_SUMOK |>)
        else (-1, fin <| fin_cksum := FI_CK_BAD |>), pkt).
Proof. apply checkl4sum_run. Qed.

Lemma checkl4sum_verdict_witness :
  ipf_checkl4sum false (ex_udp_fin) (ex_udp_hdr ++ ex_udp_a ++ 0 :: 0 :: ex_udp_b) =
  Some ((0, ex_udp_fin <| fin_cksum := FI_CK_SUMOK |>), ex_udp_hdr ++ ex_udp_a ++ 0 :: 0 :: ex_udp_b).
Proof.
  exact (checkl4sum_verdict false ex_udp_fin ex_udp_hdr ex_udp_a 0 0 ex_udp_b []
           (ex_udp_packet 0 0 ltac:(done) ltac:(done)) eq_refl eq_refl).
Defined.

(** a UDP datagram whose checksum computes to zero must be sent with the
    field 0xffff (RFC 768).  Such a datagram verifies - the one's complement sum
    over everything it covers is a zero - but [ipf_checkl4sum] marks it
    [FI_CK_BAD]. *)
Theorem checkl4sum_rejects_udp_ffff be fin hdr a b trailer :
  ipv4_packet fin (fin_p fin) hdr a 0xff 0xff b trailer ->
  fin_dp fin = Z.of_nat (length hdr) ->
  Z.land (fin_flx fin) (Z.lor (Z.lor FI_FRAG FI_SHORT) FI_BAD) = 0 ->
  fin_p fin = IPPROTO_UDP ->
  let pseudo := pseudo_words be hdr (fin_p fin) (fin_plen fin - Z.of_nat (length hdr)) in
  rfc1071 (pseudo ++ words_of be (a ++ 0 :: 0 :: b)) = 0 ->
  let pkt := hdr ++ a ++ 0xff :: 0xff :: b ++ trailer in
  verifies (wsum (pseudo ++ words_of be (a ++ 0xff :: 0xff :: b))) /\
  ipf_checkl4sum be fin pkt = Some ((-1, fin <| fin_cksum := FI_CK_BAD |>), pkt).
Proof.
  intros Hp Hdp Hflx Hudp pseudo Hz pkt. split.
  - pose proof (fr_cksum_covered be fin (fin_p fin) hdr a 0xff 0xff b trailer Hp) as Hc.
    rewrite rfc1071_norm in Hz by done.
    pose proof (csum_offset_even _ _ (ip_csum _ _ _ _ _ _ _ _ Hp)) as He.
    rewrite verifies_iff. rewrite wsum_app, words_of_app in * by done.
    rewrite wsum_app in *. cbn [words_of wsum fold_right] in *.
    fold (wsum (words_of be b)) in *. set (rest := wsum (words_of be b)) in *.
    set (ps := wsum pseudo) in *. set (pa := wsum (words_of be a)) in *.
    assert (E : ps + (pa + (load16 be 0 0 + rest)) ≡ₒ 65535).
    { rewrite <- norm_eqm. apply (eqm_of _ _ 0). lia. }
    replace (load16 be 0 0) with 0 in E by by destruct be.
    replace (load16 be 255 255) with 65535 by by destruct be.
    replace (ps + (pa + (65535 + rest))) with (ps + (pa + (0 + rest)) + 65535) by lia.
    by rewrite E.
  - unfold pkt. rewrite (checkl4sum_run be fin hdr a 0xff 0xff b trailer) by done.
    fold pseudo. rewrite Hz, Hudp. by destruct be.
Qed.

Lemma checkl4sum_rejects_udp_ffff_witness :
  ipf_checkl4sum false ex_udp_fin (ex_udp_hdr ++ ex_udp_a ++ 0xff :: 0xff :: ex_udp_b) =
  Some ((-1, ex_udp_fin <| fin_cksum := FI_CK_BAD |>), ex_udp_hdr ++ ex_udp_a ++ 0xff :: 0xff :: ex_udp_b).
Proof.
  exact (proj2 (checkl4sum_rejects_udp_ffff false ex_udp_fin ex_udp_hdr ex_udp_a ex_udp_b []
           (ex_udp_packet 0xff 0xff ltac:(done) ltac:(done)) eq_refl eq_refl eq_refl
           ltac:(vm_compute; reflexivity))).
Defined.

(** ** Incremental corrections *)

Lemma fix_tail_spec be x : is_u32 x -> ntohs be (fix_tail be x) = 65535 - fold2 x.
Proof.
  intros Hx. unfold fix_tail. rewrite !fold_step.
  pose proof (fold_bound x Hx). pose proof (fold2_u16 x Hx) as H2. unfold fold2 in *.
  rewrite !(u32_id (x / 65536 + x mod 65536)) by (unfold is_u32; lia).
  set (y := x / 65536 + x mod 65536) in *.
  rewrite u32_id by (unfold is_u16 in H2; unfold is_u32; lia).
  rewrite (u16_id (y / 65536 + y mod 65536)) by done. rewrite u16_lnot by done.
  unfold htons. rewrite ntohs_ntohs; [done|]. unfold is_u16 in *. lia.
Qed.

Lemma fix_tail_u16 be x : is_u16 (fix_tail be x).
Proof. unfold fix_tail, htons. apply ntohs_u16. Qed.

Lemma fix_outcksum_u16 be sp n : is_u16 sp -> is_u16 (ipf_fix_outcksum be 0 sp n 0).
Proof. intros. unfold ipf_fix_outcksum. split_ifs; [done|discriminate..|apply fix_tail_u16]. Qed.
Lemma fix_incksum_u16 be sp n : is_u16 sp -> is_u16 (ipf_fix_incksum be 0 sp n 0).
Proof. intros. unfold ipf_fix_incksum. split_ifs; [done|discriminate..|apply fix_tail_u16]. Qed.

(** The stored field, seen as a network-order number, loses [n]. *)
Lemma fix_outcksum_eqm be sp n :
  is_u16 sp -> 0 <= n < 2 ^ 32 - 65536 ->
  ntohs be (ipf_fix_outcksum be 0 sp n 0) ≡ₒ ntohs be sp - n.
Proof.
  intros Hsp Hn. unfold ipf_fix_outcksum. destruct (Z.eqb_spec n 0) as [->|]; [by rewrite Z.sub_0_r|].
  simpl. pose proof (ntohs_u16 be sp) as Hu. rewrite land_lnot_u16 by done.
  unfold is_u16 in Hu.
  rewrite u32_id by (unfold is_u32; lia). rewrite fix_tail_spec by (unfold is_u32; lia).
  rewrite eqm_lnot, fold2_eqm. apply (eqm_of _ _ (-1)). lia.
Qed.

(** The inbound correction adds back the low 16 bits of [n]. *)
Lemma fix_incksum_eqm be sp n :
  is_u16 sp -> n <> 0 -> ntohs be (ipf_fix_incksum be 0 sp n 0) ≡ₒ ntohs be sp + n mod 65536.
Proof.
  intros Hsp Hn. unfold ipf_fix_incksum. destruct (Z.eqb_spec n 0) as [->|]; [done|].
  simpl. pose proof (ntohs_u16 be sp) as Hu. rewrite land_lnot_u16 by done.
  rewrite land_lnot_ffff. pose proof (Z.mod_pos_bound n 65536 ltac:(lia)).
  unfold is_u16 in Hu.
  rewrite u32_id by (unfold is_u32; lia). rewrite fix_tail_spec by (unfold is_u32; lia).
  rewrite eqm_lnot, fold2_eqm. apply (eqm_of _ _ (-2)). lia.
Qed.

(** [CALC_SUMD] is the difference modulo 65535, whichever of the two is larger. *)
Lemma calc_fold w s : (forall x, 0 <= x < 65536 -> w x = x) -> is_u32 s ->
  w (s / 65536 + s mod 65536) = s / 65536 + s mod 65536 ->
  w (Z.land (w (Z.land s 65535 + Z.shiftr s 16)) 65535 + Z.shiftr (w (Z.land s 65535 + Z.shiftr s 16)) 16)
  = fold2 s.
Proof.
  intros Hw Hs E. rewrite (fold_step' s), E, fold_step'. apply Hw. by apply fold2_u16.
Qed.

Lemma sumd_fold_u32 s1 s2 : is_u16 s1 -> is_u16 s2 ->
  let s2' := if s1 >? s2 then u32 (s2 - 1) else s2 in
  let sd := u32 (s2' - s1) in
  u32 (Z.land sd 65535 + Z.shiftr sd 16) = (if s1 >? s2 then s2 - s1 - 1 + 131071 else s2 - s1).
Proof.
  unfold is_u16. intros H1 H2. cbv zeta. rewrite fold_step'.
  destruct (Z.gtb_spec s1 s2).
  - rewrite u32_sub_l. replace (u32 (s2 - 1 - s1)) with (s2 - 1 - s1 + 2 ^ 32).
    + rewrite u32_id; unfold is_u32; dlia.
    + unfold u32. rewrite <- (Z_mod_plus_full _ 1), Z.mod_small; lia.
  - rewrite (u32_id (s2 - s1)) by (unfold is_u32; lia). rewrite u32_id; unfold is_u32; dlia.
Qed.

Lemma CALC_SUMD_value s1 s2 :
  is_u32 s1 -> is_u32 s2 ->
  CALC_SUMD u32 s1 s2 =
  if fold2 s1 >? fold2 s2 then fold2 s2 - fold2 s1 - 1 + 131071 else fold2 s2 - fold2 s1.
Proof.
  intros H1 H2. unfold CALC_SUMD.
  assert (Hw : forall x, 0 <= x < 65536 -> u32 x = x) by (intros; apply u32_id; unfold is_u32; lia).
  assert (Hf : forall s, is_u32 s -> u32 (s / 65536 + s mod 65536) = s / 65536 + s mod 65536).
  { intros s Hs. pose proof (fold_bound s Hs). apply u32_id. unfold is_u32. lia. }
  rewrite !calc_fold by auto. apply sumd_fold_u32; by apply fold2_u16.
Qed.

Lemma CALC_SUMD_spec s1 s2 :
  is_u32 s1 -> is_u32 s2 ->
  CALC_SUMD u32 s1 s2 ≡ₒ s2 - s1 /\ 0 <= CALC_SUMD u32 s1 s2 <= 131069.
Proof.
  intros H1 H2. rewrite CALC_SUMD_value by done.
  pose proof (fold2_u16 s1 H1) as Hu1. pose proof (fold2_u16 s2 H2) as Hu2. unfold is_u16 in *.
  destruct (Z.gtb_spec (fold2 s1) (fold2 s2)); (split; [|lia]).
  - transitivity (fold2 s2 - fold2 s1); [apply (eqm_of _ _ 2); lia|by rewrite !fold2_eqm].
  - by rewrite !fold2_eqm.
Qed.

(** The two in-memory words of a 32-bit network-order field holding [v]. *)
Definition field32 (be : bool) (v : Z) : Z := htons be (v / 65536) + htons be (v mod 65536).

Lemma field32_eqm be v : is_u32 v -> field32 be v ≡ₒ unit_of be * v.
Proof.
  intros Hv. unfold is_u32 in Hv. unfold field32, htons.
  rewrite !ntohs_eqm by (unfold is_u16; dlia). rewrite <- Z.mul_add_distr_l.
  by rewrite fold_eqm.
Qed.

Lemma unit_ntohs be x : is_u16 x -> unit_of be * ntohs be x ≡ₒ x.
Proof. intros. by rewrite ntohs_eqm, Z.mul_assoc, unit_of_sq, Z.mul_1_l. Qed.

(** Changing any covered 32-bit quantity from [old] to [new] and taking a number
    congruent to the difference off the checksum keeps the total. *)
Lemma adjust_total be rest sp sp' old new d :
  is_u16 sp -> is_u16 sp' -> is_u32 old -> is_u32 new ->
  ntohs be sp' ≡ₒ ntohs be sp - d -> d ≡ₒ new - old ->
  rest + field32 be new + sp' ≡ₒ rest + field32 be old + sp.
Proof.
  intros Hs Hs' Ho Hn E Ed. rewrite !field32_eqm by done.
  rewrite <- (unit_ntohs be sp'), <- (unit_ntohs be sp) by done. rewrite E, Ed.
  apply (eqm_of _ _ 0). lia.
Qed.

(** C36. rewriting a 32-bit field (an address) of a checksummed header from [old]
    to [new] and correcting the checksum with
    [ipf_fix_outcksum (CALC_SUMD old new)] keeps the header valid: if the one's
    complement total over all words verified before, it verifies after, in
    either byte order. *)
Theorem fix_outcksum_sound be rest sp old new :
  is_u16 sp -> is_u32 old -> is_u32 new ->
  verifies (rest + field32 be old + sp) ->
  verifies (rest + field32 be new + ipf_fix_outcksum be 0 sp (CALC_SUMD u32 old new) 0).
Proof.
  intros Hs Ho Hn Hv. destruct (CALC_SUMD_spec old new Ho Hn) as [E ?].
  rewrite (adjust_total be rest sp _ old new (CALC_SUMD u32 old new)); try done.
  - by apply fix_outcksum_u16.
  - apply fix_outcksum_eqm; [done|lia].
Qed.

Lemma fix_outcksum_sound_witness :
  verifies (0 + field32 false 0xc0a80001 + 0x563f) /\
  verifies (0 + field32 false 0x0a000001 + ipf_fix_outcksum false 0 0x563f (CALC_SUMD u32 0xc0a80001 0x0a000001) 0).
Proof.
  split; [by vm_compute|].
  apply (fix_outcksum_sound false 0 0x563f 0xc0a80001 0x0a000001); by vm_compute.
Defined.

(** the inbound correction undoes the outbound one (and conversely) for every
    correction that fits 16 bits, up to the two representations of zero. *)
Theorem fix_cksum_roundtrip be sp n :
  is_u16 sp -> is_u16 n ->
  let out := ipf_fix_outcksum be 0 sp n 0 in
  let inn := ipf_fix_incksum be 0 sp n 0 in
  ipf_fix_incksum be 0 out n 0 ≡ₒ sp /\ ipf_fix_outcksum be 0 inn n 0 ≡ₒ sp /\
  ipf_fix_datacksum be sp n = out.
Proof.
  intros Hs Hn out inn.
  assert (Hout : is_u16 out) by by apply fix_outcksum_u16.
  assert (Hinn : is_u16 inn) by by apply fix_incksum_u16.
  destruct (Z.eqb_spec n 0) as [->|Hz].
  { done. }
  pose proof Hn as Hb. unfold is_u16 in Hb. split_and!.
  - rewrite <- (unit_ntohs be sp), <- (unit_ntohs be (ipf_fix_incksum _ _ _ _ _)) by (done || by apply fix_incksum_u16).
    rewrite fix_incksum_eqm by done. unfold out. rewrite fix_outcksum_eqm by (done || lia).
    rewrite Z.mod_small by lia. apply (eqm_of _ _ 0). lia.
  - rewrite <- (unit_ntohs be sp), <- (unit_ntohs be (ipf_fix_outcksum _ _ _ _ _)) by (done || by apply fix_outcksum_u16).
    rewrite fix_outcksum_eqm by (done || lia). unfold inn. rewrite fix_incksum_eqm by done.
    rewrite Z.mod_small by lia. apply (eqm_of _ _ 0). lia.
  - done.
Qed.

Lemma fix_cksum_roundtrip_witness :
  is_u16 0x1234 /\ ipf_fix_incksum false 0 (ipf_fix_outcksum false 0 0x1234 0xfedc 0) 0xfedc 0 ≡ₒ 0x1234.
Proof. split; [done|]. apply (fix_cksum_roundtrip false 0x1234 0xfedc); done. Defined.
