(* ===== verification/Parse.v ===== *)
(** Packet header parsing: [ipf_makefrip] of fil.c and the routines
    [ipf_pr_*] it calls, which read the headers of a packet and fill its
    summary.

    The packet is the bytes from [fin_ip] on, of which a prefix is contiguous in
    the first buffer ([M_LEN]).  A read outside that prefix, through a pointer
    that was set to null, or of a freed buffer has no result.  The routines that
    move bytes into the first buffer belong to each operating system; they are an
    interface with two implementations, that of the user-level build (ip_fil.c)
    and that of FreeBSD (ip_fil_freebsd.c). *)
From S2P Require Import Prelude Packet Cksum.

(** ** State *)

(** The summary with the buffer: whether [fin_m] and [fin_ip] are not null,
    whether the buffer was freed, [M_LEN(fin_m)], and the bytes from [fin_ip]. *)
Record pst := mk_pst {
  ps_fin : fr_info; ps_m : bool; ps_ip : bool; ps_freed : bool; ps_len : Z;
  ps_bytes : list Z }.
#[export] Instance eta_pst : Eta pst := fun s =>
  mk_pst (ps_fin s) (ps_m s) (ps_ip s) (ps_freed s) (ps_len s) (ps_bytes s).

(** Reading and writing the summary. *)
Definition the {T} (f : fr_info -> T) : ST pst T := gets (fun s => f (ps_fin s)).
Definition upd (g : fr_info -> fr_info) : ST pst unit := modify (fun s => s <| ps_fin ::= g |>).
Definition upd_fi (g : fr_ip -> fr_ip) : ST pst unit := upd (fun fin => fin <| fin_fi ::= g |>).
Definition flag (m : Z) : ST pst unit := upd (or_flx m).

(** [*(u_char * )(fin_ip + i)]. *)
Definition read8 (i : Z) : ST pst Z := fun s =>
  if ps_freed s || (ps_len s <=? i + fin_ipoff (ps_fin s)) then None
  else match rd8 i (ps_bytes s) with Some b => Some (u8 b, s) | None => None end.

(** The operations of a build of the program: whether it runs in a kernel, and
    [ipf_pullup] (true when it succeeds). *)
Class build := { is_kernel : bool; ipf_pullup : Z -> ST pst bool }.

(** [ipf_pullup] of ip_fil.c. *)
Definition user_pullup (plen : Z) : ST pst bool := fun s =>
  if plen <=? ps_len s then Some (true, s)
  else Some (false, s <| ps_fin ::= (fun fin => fin <| fin_reason := FRB_PULLUP |>) |>
                      <| ps_m := false |> <| ps_ip := false |>).
Definition user_build : build := {| is_kernel := false; ipf_pullup := user_pullup |}.

Section FreeBSD.
(** [m_pullup]: the new length of the first buffer, or [None] when there are not
    enough bytes or no memory, and then the chain was freed; [MHLEN], the room in
    a buffer with a packet header. *)
Context (m_pullup : pst -> Z -> option Z) (MHLEN : Z).

(** [ipf_pullup] of ip_fil_freebsd.c without [HAVE_M_PULLDOWN], for [fin_m] at
    the head of the chain. *)
Definition freebsd_pullup (len : Z) : ST pst bool := fun s =>
  if negb (ps_m s) then Some (false, s)
  else if has (fin_flx (ps_fin s)) FI_COALESCE then Some (true, s)
  else
    let r := if ps_len s <? len
             then match (if MHLEN <? len then None else m_pullup s len) with
                  | None => None
                  | Some l => Some (s <| ps_len := l |>)
                  end
             else Some s in
    match r with
    | None => Some (false, s <| ps_m := false |> <| ps_freed := true |>)
    | Some s => Some (true, if len =? fin_plen (ps_fin s)
                            then s <| ps_fin ::= or_flx FI_COALESCE |> else s)
    end.
Definition freebsd_build : build := {| is_kernel := true; ipf_pullup := freebsd_pullup |}.
End FreeBSD.

(** ** Tables *)

(** [ipopts], [secopt] and [ip6exthdr]: value and bit of each entry. *)
Definition ipopts : list (Z * Z) :=
  [(1, 0x000001) (* NOP *); (7, 0x000002) (* RR *); (10, 0x000004) (* ZSU *);
   (11, 0x000008) (* MTUP *); (12, 0x000010) (* MTUR *); (15, 0x000020) (* ENCODE *);
   (68, 0x000040) (* TS *); (82, 0x000080) (* TR *); (130, 0x000100) (* SECURITY *);
   (131, 0x000200) (* LSRR *); (133, 0x000400) (* E_SEC *); (134, 0x000800) (* CIPSO *);
   (136, 0x001000) (* SATID *); (137, 0x002000) (* SSRR *); (147, 0x004000) (* ADDEXT *);
   (142, 0x008000) (* VISA *); (144, 0x010000) (* IMITD *); (145, 0x020000) (* EIP *);
   (205, 0x040000) (* FINN *); (0, 0)].
Definition IPOPT_NOP : Z := 1.
Definition IPOPT_SECURITY : Z := 130.
Definition IPOPT_CIPSO : Z := 134.

Definition secopt : list (Z * Z) :=
  [(0x01, 0x01) (* RES4 *); (0x3d, 0x02) (* TOPS *); (0x5a, 0x04) (* SECR *);
   (0x66, 0x08) (* RES3 *); (0x96, 0x10) (* CONF *); (0xab, 0x20) (* UNCL *);
   (0xcc, 0x40) (* RES2 *); (0xf1, 0x80) (* RES1 *)].

Definition ip6exthdr : list (Z * Z) :=
  [(IPPROTO_HOPOPTS, 0x000001); (IPPROTO_IPV6, 0x000002); (IPPROTO_ROUTING, 0x000004);
   (IPPROTO_FRAGMENT, 0x000008); (IPPROTO_ESP, 0x000010); (IPPROTO_AH, 0x000020);
   (IPPROTO_NONE, 0x000040); (IPPROTO_DSTOPTS, 0x000080); (IPPROTO_MOBILITY, 0x000100);
   (0, 0)].

Definition IP_MF : Z := 0x2000.
Definition IP_OFFMASK : Z := 0x1fff.

Definition ICMP_ECHOREPLY : Z := 0.
Definition ICMP_UNREACH : Z := 3.
Definition ICMP_SOURCEQUENCH : Z := 4.
Definition ICMP_REDIRECT : Z := 5.
Definition ICMP_ECHO : Z := 8.
Definition ICMP_ROUTERADVERT : Z := 9.
Definition ICMP_ROUTERSOLICIT : Z := 10.
Definition ICMP_TIMXCEED : Z := 11.
Definition ICMP_PARAMPROB : Z := 12.
Definition ICMP_TSTAMP : Z := 13.
Definition ICMP_TSTAMPREPLY : Z := 14.
Definition ICMP_MASKREQ : Z := 17.
Definition ICMP_MASKREPLY : Z := 18.
Definition ICMP_UNREACH_NEEDFRAG : Z := 4.
Definition ICMPERR_ICMPHLEN : Z := 8.
Definition ICMP_MINLEN : Z := 8.
Definition ICMP6ERR_MINPKTLEN : Z := 48.
Definition ICMP6ERR_IPICMPHLEN : Z := 88.
Definition ICMP6_INFOMSG_MASK : Z := 0x80.
Definition ICMP6_DST_UNREACH : Z := 1.
Definition ICMP6_PACKET_TOO_BIG : Z := 2.
Definition ICMP6_TIME_EXCEEDED : Z := 3.
Definition ICMP6_PARAM_PROB : Z := 4.
Definition ICMP6_ECHO_REQUEST : Z := 128.
Definition ICMP6_ECHO_REPLY : Z := 129.

(** Membership in the labels of a [switch]. *)
Definition one_of (x : Z) (l : list Z) : bool := existsb (Z.eqb x) l.

(** [for (i = 0; tab[i].ol_bit != 0; i++) if (tab[i].ol_val == v) ...]: the bit
    of the first entry for [v]. *)
Fixpoint find_bit (v : Z) (tab : list (Z * Z)) : option Z :=
  match tab with
  | [] => None
  | (val, bit) :: tab =>
      if bit =? 0 then None else if val =? v then Some bit else find_bit v tab
  end.

Section Parse.
(** Byte order of the host, the build, and [softc->ipf_icmpminfragmtu]. *)
Context (be : bool) {B : build} (minfragmtu : Z).

Definition read16 (i : Z) : ST pst Z :=
  b0 ← read8 i; b1 ← read8 (i + 1); mret (load16 be b0 b1).
(** A 32-bit object as the host loads it from four bytes. *)
Definition load32 (b0 b1 b2 b3 : Z) : Z :=
  if be then ((b0 * 256 + b1) * 256 + b2) * 256 + b3
  else ((b3 * 256 + b2) * 256 + b1) * 256 + b0.
Definition read32 (i : Z) : ST pst Z :=
  b0 ← read8 i; b1 ← read8 (i + 1); b2 ← read8 (i + 2); b3 ← read8 (i + 3);
  mret (load32 b0 b1 b2 b3).
Definition read_in6 (i : Z) : ST pst i6addr :=
  w0 ← read32 i; w1 ← read32 (i + 4); w2 ← read32 (i + 8); w3 ← read32 (i + 12);
  mret (mk_i6addr w0 w1 w2 w3).

(** ** Common parts *)

(** [ipf_pr_pullup]: true for 0, false for -1. *)
Definition ipf_pr_pullup (plen : Z) : ST pst bool := fun s =>
  let fin := ps_fin s in
  if ps_m s then
    let plen := plen + (fin_dp fin - fin_hlen fin) + fin_hlen fin in
    if ps_len s <? plen + fin_ipoff fin then ipf_pullup plen s else Some (true, s)
  else Some (true, s).

Definition ipf_pr_short (xmin : Z) : ST pst unit :=
  upd (fun fin => if fin_off fin =? 0
                  then if fin_dlen fin <? xmin then or_flx FI_SHORT fin else fin
                  else if fin_off fin <? xmin then or_flx FI_SHORT fin else fin).

Definition ipf_pr_short6 (xmin : Z) : ST pst unit :=
  upd (fun fin => if fin_dlen fin <? xmin then or_flx FI_SHORT fin else fin).

(** [ipf_coalesce]: 1, 0 or -1. *)
Definition ipf_coalesce : ST pst Z :=
  flx ← the fin_flx;
  m ← gets ps_m;
  if has flx FI_COALESCE then mret 1
  else if negb m then mret 0
  else if is_kernel then
    plen ← the fin_plen;
    ok ← ipf_pullup plen;
    if ok : bool then mret 1
    else
      upd (fun fin => fin <| fin_reason := FRB_COALESCE |>);;
      modify (fun s => s <| ps_m := false |>);;
      mret (-1)
  else mret 1.

(** [ipf_checkl4sum] of Cksum.v on the bytes in reach. *)
Definition checkl4sum : ST pst Z := fun s =>
  if ps_freed s then None
  else
    let n := Z.to_nat (ps_len s - fin_ipoff (ps_fin s)) in
    match ipf_checkl4sum be (ps_fin s) (take n (ps_bytes s)) with
    | Some ((r, fin), m) =>
        Some (r, s <| ps_fin := fin |> <| ps_bytes := m ++ drop n (ps_bytes s) |>)
    | None => None
    end.

(** [ipf_checkv4sum] of ip_fil.c; [ipf_checkv6sum] has the same body. *)
Definition ipf_checkv4sum : ST pst Z :=
  flx ← the fin_flx;
  if has flx FI_SHORT then mret 1
  else
    r ← checkl4sum;
    if r =? -1 then flag FI_BAD;; mret (-1)
    else mret 0.
Definition ipf_checkv6sum : ST pst Z := ipf_checkv4sum.

(** ** Transport headers *)

(** [MIN(sizeof(tcphdr_t), fin_dlen)], compared as unsigned. *)
Definition min_tcp (dlen : Z) : Z := if (dlen <? 0) || (20 <? dlen) then 20 else dlen.

(** The combinations of flags, urgent pointer and acknowledgement number that
    mark a segment bad; a SYN with an acknowledgement number is let through on
    purpose. *)
Definition tcp_bad_flags (flags urp ack : Z) : bool :=
  if has flags TH_URG && (urp =? 0) then true
  else if has flags (Z.lor TH_SYN TH_FIN) && (Z.land flags (Z.lor TH_RST TH_ACK) =? TH_RST)
  then true
  else if has flags TH_SYN && has flags (Z.lor TH_URG TH_PUSH) then true
  else if negb (has flags TH_ACK) then
    if (flags =? TH_SYN) && negb (ack =? 0) then false
    else if negb (has flags (Z.lor TH_RST TH_SYN)) then true
    else has flags (Z.lor (Z.lor TH_URG TH_PUSH) TH_FIN)
  else false.

Definition ipf_pr_tcpcommon : ST pst Z :=
  flag FI_TCPUDP;;
  off ← the fin_off;
  if negb (off =? 0) then mret 0 else
  dlen ← the fin_dlen;
  ok ← ipf_pr_pullup (min_tcp dlen);
  if negb ok then mret (-1) else
  tcp ← the fin_dp;
  when_ (3 <? dlen) (
    sport ← read16 tcp; dport ← read16 (tcp + 2);
    upd_fi (fun fi => fi <| fi_ports0 := ntohs be sport |> <| fi_ports1 := ntohs be dport |>));;
  flx ← the fin_flx;
  if has flx FI_SHORT then mret 1 else
  xoff ← read8 (tcp + 12);
  let tlen := Z.shiftl (Z.shiftr xoff 4) 2 in
  if tlen <? 20 then flag FI_BAD;; mret 1 else
  flags ← read8 (tcp + 13);
  upd_fi (fun fi => fi <| fi_tcpf := flags |>);;
  urp ← (if has flags TH_URG then read16 (tcp + 18) else mret 0);
  ack ← (if flags =? TH_SYN then read32 (tcp + 8) else mret 0);
  when_ (tcp_bad_flags flags urp ack) (flag FI_BAD);;
  flx ← the fin_flx;
  if has flx FI_BAD then mret 1 else
  if tlen =? 20 then mret 0 else
  ok ← ipf_pr_pullup tlen;
  mret (if ok : bool then 0 else -1).

Definition ipf_pr_udpcommon : ST pst Z :=
  flag FI_TCPUDP;;
  off ← the fin_off; dlen ← the fin_dlen;
  if (off =? 0) && (3 <? dlen) then
    ok ← ipf_pr_pullup 8;
    if negb ok then flag FI_SHORT;; mret 1 else
    udp ← the fin_dp;
    sport ← read16 udp; dport ← read16 (udp + 2);
    upd_fi (fun fi => fi <| fi_ports0 := ntohs be sport |> <| fi_ports1 := ntohs be dport |>);;
    mret 0
  else mret 0.

(** ** IPv4 *)

Definition ipf_pr_tcp : ST pst unit :=
  ipf_pr_short 20;;
  r ← ipf_pr_tcpcommon;
  when_ (r =? 0) (ipf_checkv4sum;; mret tt).

Definition ipf_pr_udp : ST pst unit :=
  ipf_pr_short 8;;
  r ← ipf_pr_udpcommon;
  when_ (r =? 0) (ipf_checkv4sum;; mret tt).

Definition ipf_pr_esp : ST pst unit :=
  off ← the fin_off;
  when_ (off =? 0) (ipf_pr_short 8;; ipf_pr_pullup 8;; mret tt).

Definition ipf_pr_ah : ST pst Z :=
  flag FI_AH;;
  ipf_pr_short 12;;
  flx ← the fin_flx; off ← the fin_off;
  if has flx FI_SHORT || negb (off =? 0) then mret IPPROTO_NONE else
  ok ← ipf_pr_pullup 12;
  if negb ok then mret IPPROTO_NONE else
  ah ← the fin_dp;
  plen ← read8 (ah + 1);
  let len := Z.shiftl (plen + 2) 2 in
  ipf_pr_short len;;
  ok ← ipf_pr_pullup len;
  if negb ok then mret IPPROTO_NONE else
  upd (fun fin => fin <| fin_dp ::= fun x => x + len |> <| fin_dlen ::= fun x => x - len |>);;
  read8 ah.

(** [GRE_REV(x)]. *)
Definition GRE_REV (x : Z) : Z := Z.land (Z.shiftr (ntohs be x) 13) 7.

Definition ipf_pr_gre : ST pst unit :=
  ipf_pr_short 8;;
  off ← the fin_off;
  if negb (off =? 0) then mret tt else
  ok ← ipf_pr_pullup 8;
  if negb ok then mret tt else
  gre ← the fin_dp;
  flags ← read16 gre;
  when_ (GRE_REV flags =? 1)
    (call ← read16 (gre + 6); upd_fi (fun fi => fi <| fi_ports0 := call |>)).

(** The smallest length of an ICMP query of each type. *)
Definition icmp_query (type : Z) : option Z :=
  if one_of type [ICMP_ECHOREPLY; ICMP_ECHO; ICMP_ROUTERADVERT; ICMP_ROUTERSOLICIT]
  then Some ICMP_MINLEN
  else if one_of type [ICMP_TSTAMP; ICMP_TSTAMPREPLY] then Some 20
  else if one_of type [ICMP_MASKREQ; ICMP_MASKREPLY] then Some 12
  else None.

Definition icmp_error (type : Z) : bool :=
  one_of type [ICMP_UNREACH; ICMP_SOURCEQUENCH; ICMP_REDIRECT; ICMP_TIMXCEED; ICMP_PARAMPROB].

(** The part of [ipf_pr_icmp] for errors: false when it returns early. *)
Definition ipf_pr_icmp_error (type : Z) : ST pst bool :=
  icmp ← the fin_dp;
  when_ (type =? ICMP_UNREACH) (
    code ← read8 (icmp + 1);
    when_ (code =? ICMP_UNREACH_NEEDFRAG) (
      mtu ← read16 (icmp + 6);
      when_ (mtu <? minfragmtu) (flag FI_BAD)));;
  flag FI_ICMPERR;;
  r ← ipf_coalesce;
  if negb (r =? 1) then mret false else
  icmp ← the fin_dp;
  let oip := icmp + ICMPERR_ICMPHLEN in
  ooff ← read16 (oip + 6);
  when_ (has (ntohs be ooff) IP_OFFMASK) (flag FI_BAD);;
  osrc ← read32 (oip + 12);
  daddr ← the fin_daddr;
  when_ (negb (osrc =? daddr)) (flag FI_BAD);;
  mret true.

(** [ipf_pr_icmp]; [sizeof(struct icmp)] is 28. *)
Definition ipf_pr_icmp : ST pst unit :=
  ipf_pr_short ICMPERR_ICMPHLEN;;
  off ← the fin_off;
  if negb (off =? 0) then mret tt else
  ok ← ipf_pr_pullup ICMPERR_ICMPHLEN;
  if negb ok then mret tt else
  icmp ← the fin_dp;
  d0 ← read16 icmp;
  d1 ← read16 (icmp + 4);
  upd_fi (fun fi => fi <| fi_ports0 := d0 |> <| fi_ports1 := d1 |>);;
  type ← read8 icmp;
  match icmp_query type with
  | Some minicmpsz =>
      flag FI_ICMPQUERY;; ipf_pr_short minicmpsz;; ipf_checkv4sum;; mret tt
  | None =>
      go ← (if icmp_error type then ipf_pr_icmp_error type else mret true);
      when_ go (ipf_pr_short 28;; ipf_checkv4sum;; mret tt)
  end.

(** [ipf_checkripso]; [s] is where the option starts. *)
Fixpoint ripso_search (m : nat) (j sec s : Z) : ST pst Z :=
  '(val, bit) ← need (if j <? 0 then None else secopt !! Z.to_nat j);
  if sec =? val then
    a0 ← read8 (s + 3); a1 ← read8 (s + 4);
    mret (Z.lor (Z.shiftl bit 16) (u16 (u16 (a0 * 256) + a1)))
  else
    let j := if sec <? val then j - Z.of_nat m else j + Z.of_nat m in
    match m with
    | O => mret 0
    | S m => ripso_search m j sec s
    end.
Definition ipf_checkripso (s : Z) : ST pst Z :=
  sec ← read8 (s + 2);
  ripso_search 2 3 sec s.

(** The tags of [ipf_checkcipso]; [false] is its early return. *)
Fixpoint cipso_tags (fuel : nat) (t len : Z) : ST pst bool :=
  if len <? 2 then mret true else
  match fuel with
  | O => stuck
  | S fuel =>
      tag ← read8 t;
      tlen ← read8 (t + 1);
      if (len <? tlen) || (tlen <? 4) || (34 <? tlen) then flag FI_BAD;; mret false else
      let next := cipso_tags fuel (t + tlen) (len - tlen) in
      let raise := fun sensitivity =>
        upd_fi (fun fi => if fi_sensitivity fi <? sensitivity
                          then fi <| fi_sensitivity := sensitivity |> else fi) in
      if one_of tag [1; 4; 5] then
        align ← read8 (t + 2);
        if negb (align =? 0) then flag FI_BAD;; next
        else sens ← read8 (t + 3); raise sens;; next
      else if 127 <? tag then raise 0;; next
      else flag FI_BAD;; next
  end.

Definition ipf_checkcipso (s ol : Z) : ST pst Z :=
  if (ol <? 6) || (40 <? ol) then flag FI_BAD;; mret 0 else
  upd_fi (fun fi => fi <| fi_sensitivity := 0 |>);;
  doi ← read32 (s + 2);
  ok ← cipso_tags (Z.to_nat ol) (s + 6) (ol - 6);
  mret (if ok : bool then doi else 0).

(** What the walk over the options collects: three [u_short]s. *)
Record optinfo := mk_optinfo { optmsk : Z; secmsk : Z; auth : Z }.
#[export] Instance eta_optinfo : Eta optinfo := fun r =>
  mk_optinfo (optmsk r) (secmsk r) (auth r).

(** One entry of the table compared with the option found. *)
Definition opt_entry (opt s ol : Z) (e : Z * Z) (o : optinfo) : ST pst optinfo :=
  let '(val, bit) := e in
  if (opt =? val) && (4 <? ol) then
    let sec (check : ST pst Z) :=
      if has (optmsk o) bit then flag FI_BAD;; mret o
      else doi ← check; mret (o <| secmsk := u16 (Z.shiftr doi 16) |> <| auth := Z.land doi 0xffff |>) in
    o ← (if opt =? IPOPT_SECURITY then sec (ipf_checkripso s)
         else if opt =? IPOPT_CIPSO then sec (ipf_checkcipso s ol)
         else mret o);
    mret (o <| optmsk ::= fun x => u16 (Z.lor x bit) |>)
  else mret o.

(** [for (i = 9, mv = 4; mv >= 0; )]: the search of [ipopts], which goes on after
    an entry that matches. *)
Fixpoint opt_search (mv : nat) (i opt s ol : Z) (o : optinfo) : ST pst optinfo :=
  e ← need (if i <? 0 then None else ipopts !! Z.to_nat i);
  o ← opt_entry opt s ol e o;
  let i := if opt <? fst e then i - Z.of_nat mv else i + Z.of_nat mv in
  match mv with
  | O => mret o
  | S mv => opt_search mv i opt s ol o
  end.

(** The length of the option at [s], [None] where the walk stops. *)
Definition opt_length (s hlen opt : Z) : ST pst (option Z) :=
  if opt =? 0 then mret None
  else if opt =? IPOPT_NOP then mret (Some 1)
  else if hlen <? 2 then mret None
  else
    ol ← read8 (s + 1);
    mret (if (ol <? 2) || (hlen <? ol) then None else Some ol).

Fixpoint options_loop (fuel : nat) (s hlen : Z) (o : optinfo) : ST pst optinfo :=
  if hlen <=? 0 then mret o else
  match fuel with
  | O => stuck
  | S fuel =>
      opt ← read8 s;
      ol ← opt_length s hlen opt;
      match ol with
      | None => mret o
      | Some ol =>
          o ← opt_search 4 9 opt s ol o;
          options_loop fuel (s + ol) (hlen - ol) o
      end
  end.

(** The end of [ipf_pr_ipv4hdr]: the options of the header. *)
Definition v4_options (hlen : Z) : ST pst unit :=
  if hlen =? 20 then
    upd_fi (fun fi => fi <| fi_optmsk := 0 |> <| fi_secmsk := 0 |> <| fi_auth := 0 |>)
  else
    flag FI_OPTIONS;;
    o ← options_loop (Z.to_nat hlen) 20 (hlen - 20) (mk_optinfo 0 0 0);
    let au := if negb (auth o =? 0) && negb (has (auth o) 0x0100)
              then Z.land (auth o) 0xff00 else auth o in
    upd_fi (fun fi => fi <| fi_optmsk := optmsk o |> <| fi_secmsk := secmsk o |> <| fi_auth := au |>).

(** [fin_off] and the flags for an IPv4 packet from its [ip_off] and length. *)
Definition v4_fragment (off : Z) : ST pst unit :=
  dlen ← the fin_dlen;
  let off := Z.land off (Z.lor IP_MF IP_OFFMASK) in
  if off =? 0 then upd (fun fin => fin <| fin_off := 0 |>) else
  let morefrag := has off IP_MF in
  flag FI_FRAG;;
  let off := Z.land off IP_OFFMASK in
  if off =? 0 then upd (fun fin => fin <| fin_off := 0 |>) else
  flag FI_FRAGBODY;;
  let off := u16 (Z.shiftl off 3) in
  when_ ((65535 <? off + dlen) || (dlen =? 0) || (morefrag && has dlen 7)) (flag FI_BAD);;
  upd (fun fin => fin <| fin_off := off |>).

(** The fields of [ipf_pr_ipv4hdr] that are copied from the header; the result
    is [ip_p] and [ip_off]. *)
Definition v4_fields : ST pst (Z * Z) :=
  p ← read8 9;
  upd_fi (fun fi => fi <| fi_p := p |>);;
  tos ← read8 1;
  upd_fi (fun fi => fi <| fi_tos := tos |>);;
  id ← read16 4;
  upd (fun fin => fin <| fin_id := id |>);;
  off ← read16 6;
  ttl ← read8 8;
  upd_fi (fun fi => fi <| fi_ttl := ttl |>);;
  saddr ← read32 12;
  daddr ← read32 16;
  upd_fi (fun fi => fi <| fi_src := mk_i6addr saddr 0 0 0 |> <| fi_dst := mk_i6addr daddr 0 0 0 |>);;
  upd (fun fin => fin <| fin_crc := u32 (u32 (p + saddr) + daddr) |>);;
  mret (p, ntohs be off).

(** [IN_CLASSD(ntohl(fi_daddr))], by the first byte of the address. *)
Definition v4_multicast : ST pst unit :=
  b ← read8 16;
  when_ (Z.land b 0xf0 =? 0xe0) (flag (Z.lor FI_MULTICAST FI_MBCAST)).

Definition v4_protocol (p : Z) : ST pst unit :=
  p ← (if p =? IPPROTO_AH then ipf_pr_ah else mret p);
  if p =? IPPROTO_UDP then ipf_pr_udp
  else if p =? IPPROTO_TCP then ipf_pr_tcp
  else if p =? IPPROTO_ICMP then ipf_pr_icmp
  else if p =? IPPROTO_ESP then ipf_pr_esp
  else if p =? IPPROTO_GRE then ipf_pr_gre
  else mret tt.

Definition ipf_pr_ipv4hdr : ST pst unit :=
  hlen ← the fin_hlen;
  '(p, off) ← v4_fields;
  v4_multicast;;
  v4_fragment off;;
  v4_protocol p;;
  ip ← gets ps_ip;
  when_ ip (v4_options hlen).

(** ** IPv6 *)

(** [ipf_pr_ipv6exthdr]: where the header starts, [None] when there is a
    problem. *)
Definition ipf_pr_ipv6exthdr (multiple : bool) (proto : Z) : ST pst (option Z) :=
  flag FI_V6EXTHDR;;
  dlen ← the fin_dlen;
  if dlen - 8 <? 0 then flag FI_SHORT;; mret None else
  ok ← ipf_pr_pullup 8;
  if negb ok then mret None else
  hdr ← the fin_dp;
  shift ← (if proto =? IPPROTO_FRAGMENT then mret 8
           else len ← read8 (hdr + 1); mret (8 + Z.shiftl len 3));
  if dlen <? shift then flag FI_BAD;; mret None else
  upd (fun fin => fin <| fin_dp ::= fun x => x + shift |> <| fin_dlen ::= fun x => x - shift |>);;
  flx ← the fin_flx;
  if has flx FI_FRAG then mret (Some hdr) else
  match find_bit proto ip6exthdr with
  | None => mret (Some hdr)
  | Some bit =>
      msk ← the (fun fin => fi_optmsk (fin_fi fin));
      (if negb multiple && has msk bit then flag FI_BAD
       else upd_fi (fun fi => fi <| fi_optmsk ::= fun x => Z.lor x bit |>));;
      mret (Some hdr)
  end.

(** The value of the next header, or [IPPROTO_NONE]. *)
Definition next_header (hdr : option Z) : ST pst Z :=
  match hdr with None => mret IPPROTO_NONE | Some hdr => read8 hdr end.

Definition ipf_pr_hopopts6 : ST pst Z :=
  hdr ← ipf_pr_ipv6exthdr false IPPROTO_HOPOPTS; next_header hdr.
Definition ipf_pr_mobility6 : ST pst Z :=
  hdr ← ipf_pr_ipv6exthdr false IPPROTO_MOBILITY; next_header hdr.
Definition ipf_pr_dstopts6 : ST pst Z :=
  hdr ← ipf_pr_ipv6exthdr false IPPROTO_DSTOPTS; next_header hdr.

Definition ipf_pr_routing6 : ST pst Z :=
  hdr ← ipf_pr_ipv6exthdr false IPPROTO_ROUTING;
  match hdr with
  | None => mret IPPROTO_NONE
  | Some h =>
      type ← read8 (h + 2);
      bad ← (if type =? 0 then
               len ← read8 (h + 1); segleft ← read8 (h + 3);
               mret ((Z.shiftr len 1 <? segleft) || (negb (segleft =? 0) && has len 1))
             else mret false);
      if bad : bool then flag FI_BAD;; mret IPPROTO_NONE else read8 h
  end.

(** The masks of netinet/ip6.h apply to the field as the host loads it. *)
Definition IP6F_MORE_FRAG : Z := if be then 0x0001 else 0x0100.
Definition IP6F_OFF_MASK : Z := if be then 0xfff8 else 0xf8ff.

Definition ipf_pr_fragment6 : ST pst Z :=
  flag FI_FRAG;;
  frag ← ipf_pr_ipv6exthdr false IPPROTO_FRAGMENT;
  match frag with
  | None => mret IPPROTO_NONE
  | Some h =>
      offlg ← read16 (h + 2);
      plen ← the fin_plen;
      when_ (has offlg IP6F_MORE_FRAG && has plen 7) (flag FI_BAD);;
      ident ← read32 (h + 4);
      let off := ntohs be (Z.land offlg IP6F_OFF_MASK) in
      upd (fun fin => fin <| fin_fraghdr := h |> <| fin_id := ident |> <| fin_off := off |>);;
      when_ (negb (off =? 0)) (flag FI_FRAGBODY);;
      dlen ← the fin_dlen;
      when_ (65535 <? Z.shiftl off 3 + dlen) (flag FI_BAD);;
      read8 h
  end.

(** [fin_p] set for the time of the checksum. *)
Definition checkv6sum_as (p : Z) : ST pst unit :=
  old ← the fin_p;
  upd_fi (fun fi => fi <| fi_p := p |>);;
  ipf_checkv6sum;;
  upd_fi (fun fi => fi <| fi_p := old |>).

(** [M_LEN(fin->fin_m)]. *)
Definition m_len : ST pst Z := fun s => if ps_m s then Some (ps_len s, s) else None.

(** The errors of [ipf_pr_icmp6]: false when it returns early. *)
Definition ipf_pr_icmp6_error : ST pst bool :=
  flag FI_ICMPERR;;
  plen ← the fin_plen;
  if plen <? ICMP6ERR_IPICMPHLEN then mret true else
  l ← m_len;
  r ← (if l <? plen then ipf_coalesce else mret 1);
  if negb (r =? 1) then mret false else
  ok ← ipf_pr_pullup ICMP6ERR_MINPKTLEN;
  if negb ok then mret false else
  icmp6 ← the fin_dp;
  src ← read_in6 (icmp6 + ICMPERR_ICMPHLEN + 8);
  dst ← the fin_dst6;
  when_ (negb (IP6_EQ dst src)) (flag FI_BAD);;
  mret true.

(** The type-dependent part of [ipf_pr_icmp6]: the smallest length, [None] when
    it returns early. *)
Definition ipf_pr_icmp6_type : ST pst (option Z) :=
  icmp6 ← the fin_dp;
  d0 ← read16 icmp6;
  upd_fi (fun fi => fi <| fi_ports0 := d0 |>);;
  type ← read8 icmp6;
  when_ (has type ICMP6_INFOMSG_MASK) (flag FI_ICMPQUERY);;
  if one_of type [ICMP6_ECHO_REPLY; ICMP6_ECHO_REQUEST] then
    dlen ← the fin_dlen;
    when_ (6 <=? dlen)
      (id ← read16 (icmp6 + 4); upd_fi (fun fi => fi <| fi_ports1 := id |>));;
    mret (Some (ICMP6ERR_MINPKTLEN - 40))
  else if one_of type [ICMP6_DST_UNREACH; ICMP6_PACKET_TOO_BIG; ICMP6_TIME_EXCEEDED;
                       ICMP6_PARAM_PROB] then
    go ← ipf_pr_icmp6_error;
    mret (if go : bool then Some (ICMP6ERR_IPICMPHLEN - 40) else None)
  else mret (Some 8).

Definition ipf_pr_icmp6 : ST pst unit :=
  ok ← ipf_pr_pullup (ICMP6ERR_MINPKTLEN - 40);
  if negb ok then mret tt else
  dlen ← the fin_dlen;
  minsz ← (if 1 <? dlen then ipf_pr_icmp6_type else mret (Some 8));
  match minsz with
  | None => mret tt
  | Some minicmpsz =>
      ipf_pr_short6 minicmpsz;;
      flx ← the fin_flx;
      when_ (negb (has flx (Z.lor FI_SHORT FI_BAD))) (checkv6sum_as IPPROTO_ICMPV6)
  end.

Definition ipf_pr_udp6 : ST pst unit :=
  r ← ipf_pr_udpcommon; when_ (r =? 0) (checkv6sum_as IPPROTO_UDP).
Definition ipf_pr_tcp6 : ST pst unit :=
  r ← ipf_pr_tcpcommon; when_ (r =? 0) (checkv6sum_as IPPROTO_TCP).

Definition ipf_pr_esp6 : ST pst unit :=
  off ← the fin_off;
  when_ (off =? 0) (ipf_pr_pullup 8;; mret tt).

Definition ipf_pr_ah6 : ST pst Z :=
  flag FI_AH;;
  ah ← ipf_pr_ipv6exthdr false IPPROTO_HOPOPTS;
  match ah with
  | None => mret IPPROTO_NONE
  | Some h => ipf_pr_short6 12;; read8 h
  end.

Definition ipf_pr_gre6 : ST pst unit :=
  ok ← ipf_pr_pullup 8;
  if negb ok then mret tt else
  gre ← the fin_dp;
  flags ← read16 gre;
  when_ (GRE_REV flags =? 1)
    (call ← read16 (gre + 6); upd_fi (fun fi => fi <| fi_ports0 := call |>)).

(** The [switch] of [ipf_pr_ipv6hdr]: the new [go] and [p]. *)
Definition v6_header (p : Z) : ST pst (bool * Z) :=
  let last (m : ST pst unit) := m;; mret (false, p) in
  let more (m : ST pst Z) := p ← m; mret (true, p) in
  if p =? IPPROTO_UDP then last ipf_pr_udp6
  else if p =? IPPROTO_TCP then last ipf_pr_tcp6
  else if p =? IPPROTO_ICMPV6 then last ipf_pr_icmp6
  else if p =? IPPROTO_GRE then last ipf_pr_gre6
  else if p =? IPPROTO_HOPOPTS then more ipf_pr_hopopts6
  else if p =? IPPROTO_MOBILITY then more ipf_pr_mobility6
  else if p =? IPPROTO_DSTOPTS then more ipf_pr_dstopts6
  else if p =? IPPROTO_ROUTING then more ipf_pr_routing6
  else if p =? IPPROTO_AH then more ipf_pr_ah6
  else if p =? IPPROTO_ESP then last ipf_pr_esp6
  else if p =? IPPROTO_IPV6 then
    last (match find_bit p ip6exthdr with Some bit => flag bit | None => mret tt end)
  else if p =? IPPROTO_NONE then mret (false, p)
  else if p =? IPPROTO_FRAGMENT then
    p ← ipf_pr_fragment6;
    off ← the fin_off;
    mret (off =? 0, p)
  else mret (false, p).

(** The loop over the headers; the result is [go] and [p] after it.  [out] is what
    happens when [fuel] runs out. *)
Fixpoint v6_walk (out : ST pst (bool * Z)) (fuel : nat) (go : bool) (p : Z) : ST pst (bool * Z) :=
  flx ← the fin_flx;
  if negb (go && negb (has flx FI_SHORT)) then mret (go, p) else
  match fuel with
  | O => out
  | S fuel =>
      '(go, p) ← v6_header p;
      stop ← (if go && negb (p =? IPPROTO_NONE)
              then ok ← ipf_pr_pullup 0; mret (negb ok) else mret false);
      if stop : bool then mret (go, IPPROTO_NONE)
      else v6_walk out fuel go p
  end.
Definition v6_headers : nat -> bool -> Z -> ST pst (bool * Z) := v6_walk stuck.

Definition v6_fields : ST pst Z :=
  upd (fun fin => fin <| fin_off := 0 |>);;
  upd_fi (fun fi => fi <| fi_tos := 0 |> <| fi_optmsk := 0 |> <| fi_secmsk := 0 |> <| fi_auth := 0 |>);;
  p ← read8 6;
  hlim ← read8 7;
  src ← read_in6 8;
  dst ← read_in6 24;
  upd_fi (fun fi => fi <| fi_ttl := hlim |> <| fi_src := src |> <| fi_dst := dst |>);;
  upd (fun fin =>
    fin <| fin_crc := foldl (fun c w => u32 (c + w)) p (i6_words src ++ i6_words dst) |>
        <| fin_id := 0 |>);;
  mret p.

(** Each header but the last takes at least eight bytes of the payload. *)
Definition v6_fuel (dlen : Z) : nat := Z.to_nat (dlen / 8) + 2.

Definition ipf_pr_ipv6hdr : ST pst unit :=
  p ← v6_fields;
  dlen ← the fin_dlen;
  '(go, p) ← v6_headers (v6_fuel dlen) true p;
  m ← gets ps_m;
  if negb m then mret tt else
  upd_fi (fun fi => fi <| fi_p := p |>);;
  flx ← the fin_flx; off ← the fin_off;
  when_ (go && has flx FI_FRAG && (off =? 0)) (flag FI_BAD).

(** ** [ipf_makefrip] *)

(** The result is 0, or -1 when the packet is gone. *)
Definition ipf_makefrip (hlen : Z) : ST pst Z :=
  upd (fun fin => fin <| fin_depth := 0 |> <| fin_hlen := u16 hlen |> <| fin_rule := 0xffffffff |>
                      <| fin_group ::= (fun g => -1 :: 0 :: drop 2 g) |> <| fin_dp := hlen |>);;
  v ← the fin_v;
  (if v =? 4 then
     len ← read16 2;
     let plen := ntohs be len in
     upd (fun fin => fin <| fin_plen := plen |> <| fin_dlen := plen - hlen |>);;
     ipf_pr_ipv4hdr
   else if v =? 6 then
     len ← read16 4;
     let plen := ntohs be len in
     upd (fun fin => fin <| fin_plen := plen + hlen |> <| fin_dlen := plen |>);;
     ipf_pr_ipv6hdr
   else mret tt);;
  ip ← gets ps_ip;
  mret (if ip : bool then 0 else -1).
End Parse.

(** ** Laws of the interface *)

(** What a pull up may do to the summary: record a reason, or note that the whole
    packet is in one buffer. *)
Class build_laws (B : build) := pullup_fin : forall n s b s',
  ipf_pullup n s = Some (b, s') ->
  exists r x, (x = 0 \/ x = FI_COALESCE) /\
    ps_fin s' = or_flx x (ps_fin s <| fin_reason := r |>).

Lemma or_flx_0 fin : or_flx 0 fin = fin.
Proof. destruct fin as [? ? ? []]. unfold or_flx. cbn. by rewrite Z.lor_0_r. Qed.
Lemma set_reason_same fin : fin <| fin_reason := fin_reason fin |> = fin.
Proof. by destruct fin. Qed.

#[export] Instance user_laws : build_laws user_build.
Proof.
  intros n s b s'. cbn [ipf_pullup user_build freebsd_build]. unfold user_pullup. destruct (n <=? ps_len s); intros [= <- <-].
  - exists (fin_reason (ps_fin s)), 0. rewrite or_flx_0, set_reason_same. by split; [left|].
  - exists FRB_PULLUP, 0. rewrite or_flx_0. by split; [left|].
Qed.

#[export] Instance freebsd_laws m_pullup MHLEN : build_laws (freebsd_build m_pullup MHLEN).
Proof.
  intros n s b s'. cbn [ipf_pullup user_build freebsd_build]. unfold freebsd_pullup.
  assert (H0 : exists r x, (x = 0 \/ x = FI_COALESCE) /\
            ps_fin s = or_flx x (ps_fin s <| fin_reason := r |>)).
  { exists (fin_reason (ps_fin s)), 0. rewrite or_flx_0, set_reason_same. by split; [left|]. }
  assert (H1 : exists r x, (x = 0 \/ x = FI_COALESCE) /\
            or_flx FI_COALESCE (ps_fin s) = or_flx x (ps_fin s <| fin_reason := r |>)).
  { exists (fin_reason (ps_fin s)), FI_COALESCE. rewrite set_reason_same. by split; [right|]. }
  destruct (negb (ps_m s)); [intros [= <- <-]; done|].
  destruct (has _ _); [intros [= <- <-]; done|].
  destruct (ps_len s <? n); [destruct (if MHLEN <? n then None else m_pullup s n)|];
    cbn; try destruct (n =? _); intros [= <- <-]; done.
Qed.

(** ** What the routines leave alone *)

Definition opt_of (s : pst) : Z := fi_optmsk (fin_fi (ps_fin s)).
Definition dlen_of (s : pst) : Z := fin_dlen (ps_fin s).

(** A condition on the recorded options, one on [fin_dlen], and one that need
    only hold without [FI_FRAG]: all but the extension headers keep them. *)
Definition inv (M D : Z -> Prop) (C : Prop) (s : pst) : Prop :=
  M (opt_of s) /\ D (dlen_of s) /\ (C \/ has (fin_flx (ps_fin s)) FI_FRAG = true).

Lemma checkl4sum_fin be fin m r fin' m' :
  ipf_checkl4sum be fin m = Some ((r, fin'), m') ->
  fin' = fin <| fin_cksum := fin_cksum fin' |>.
Proof.
  assert (E : fin = fin <| fin_cksum := fin_cksum fin |>) by (by destruct fin).
  unfold ipf_checkl4sum. destruct (negb _); [by intros [= <- <- <-]|].
  destruct (csum_offset _); [|by intros [= <- <- <-]].
  destruct (rd16 _ _ _); [|done]. cbn zeta.
  set (r1 := if negb _ then _ else _). destruct r1 as [[sum m1]|]; [|done].
  destruct (_ =? sum); intros [= <- <- <-]; done.
Qed.

Section Recorded.
Context (be : bool) {B : build} {L : build_laws B} (M D : Z -> Prop) (C : Prop).

Local Abbreviation K := (keeps (inv M D C)).

Lemma keeps_upd g :
  (forall fin, fi_optmsk (fin_fi (g fin)) = fi_optmsk (fin_fi fin) /\
               fin_dlen (g fin) = fin_dlen fin /\
               (has (fin_flx fin) FI_FRAG = true -> has (fin_flx (g fin)) FI_FRAG = true)) ->
  K (upd g).
Proof.
  intros Hg s (H & Hd & HC). unfold inv, opt_of, dlen_of in *. cbn.
  destruct (Hg (ps_fin s)) as (-> & -> & Hf). split; [done|]. tauto.
Qed.
Lemma or_flx_frag m fin :
  has (fin_flx fin) FI_FRAG = true -> has (fin_flx (or_flx m fin)) FI_FRAG = true.
Proof. intros H. unfold fin_flx in *. cbn. by rewrite has_lor, H. Qed.
Lemma keeps_flag m : K (flag m).
Proof. apply keeps_upd. intros fin. split; [done|]. split; [done|apply or_flx_frag]. Qed.
Lemma keeps_upd_fi g :
  (forall fi, fi_optmsk (g fi) = fi_optmsk fi /\ fi_flx (g fi) = fi_flx fi) -> K (upd_fi g).
Proof.
  intros Hg. apply keeps_upd. intros fin. unfold fin_flx. cbn.
  by destruct (Hg (fin_fi fin)) as [-> ->].
Qed.
Lemma keeps_the {T} (f : fr_info -> T) : K (the f).
Proof. apply keeps_gets. Qed.
Lemma keeps_read8 i : K (read8 i).
Proof.
  intros s H. unfold wpg, read8. destruct (_ || _); [done|]. by destruct (rd8 _ _).
Qed.
Lemma keeps_pullup n : K (ipf_pullup n).
Proof.
  intros s H. unfold wpg. destruct (ipf_pullup n s) as [[b s']|] eqn:E; [|done].
  apply pullup_fin in E as (r & x & Hx & E). unfold inv, opt_of, dlen_of in *. rewrite E.
  destruct H as (H & Hd & HC). split; [done|]. split; [done|].
  destruct HC as [HC|HC]; [by left|right]. by apply or_flx_frag.
Qed.
Lemma keeps_pr_pullup n : K (ipf_pr_pullup n).
Proof.
  intros s H. unfold ipf_pr_pullup, wpg. destruct (ps_m s); [|done].
  destruct (_ <? _); [|done]. by apply keeps_pullup.
Qed.
Lemma keeps_checkl4sum : K (checkl4sum be).
Proof.
  intros s H. unfold checkl4sum, wpg. destruct (ps_freed s); [done|].
  destruct (ipf_checkl4sum _ _ _) as [[[r fin] m]|] eqn:E; [|done].
  apply checkl4sum_fin in E. unfold inv, opt_of, dlen_of, fin_flx in *. cbn. by rewrite E.
Qed.
Lemma keeps_m_len : K m_len.
Proof. intros s H. unfold m_len, wpg. by destruct (ps_m s). Qed.
Lemma keeps_short6 n : K (ipf_pr_short6 n).
Proof.
  apply keeps_upd. intros fin. destruct (_ <? _); [|done]. split; [done|]. split; [done|apply or_flx_frag].
Qed.
End Recorded.
#[export] Hint Resolve keeps_flag keeps_the keeps_read8 keeps_pullup keeps_pr_pullup
  keeps_checkl4sum keeps_m_len keeps_short6 : keeps.

(** Walks through a routine that is made of steps that keep the bits. *)
Ltac kept :=
  lazymatch goal with
  | |- keeps _ (upd_fi _) => apply keeps_upd_fi; done
  | |- keeps _ (upd _) => apply keeps_upd; done
  | |- keeps _ (modify _) => apply keeps_modify; done
  | |- keeps _ (_ ≫= _) => apply keeps_bind; [|intros ?]; kept
  | |- keeps _ (when_ _ _) => apply keeps_when; kept
  | |- keeps _ (if _ then _ else _) => apply keeps_if; kept
  | |- keeps _ (match _ with Some _ => _ | None => _ end) => apply keeps_option; [intros ?|]; kept
  | |- keeps _ (match _ with pair _ _ => _ end) => apply keeps_pair; intros; kept
  | |- _ => solve [eauto with keeps]
  end.

Section Recorded6.
Context (be : bool) {B : build} {L : build_laws B} (M D : Z -> Prop) (C : Prop).
Local Abbreviation K := (keeps (inv M D C)).

Lemma keeps_read16 i : K (read16 be i).
Proof. unfold read16. kept. Qed.
Lemma keeps_read32 i : K (read32 be i).
Proof. unfold read32. kept. Qed.
#[local] Hint Resolve keeps_read16 keeps_read32 : keeps.
Lemma keeps_read_in6 i : K (read_in6 be i).
Proof. unfold read_in6. kept. Qed.
Lemma keeps_coalesce : K ipf_coalesce.
Proof. unfold ipf_coalesce. kept. Qed.
Lemma keeps_checkv6sum : K (ipf_checkv6sum be).
Proof. unfold ipf_checkv6sum, ipf_checkv4sum. kept. Qed.
#[local] Hint Resolve keeps_read_in6 keeps_coalesce keeps_checkv6sum : keeps.
Lemma keeps_checkv6sum_as p : K (checkv6sum_as be p).
Proof. unfold checkv6sum_as. kept. Qed.
#[local] Hint Resolve keeps_checkv6sum_as : keeps.
Lemma keeps_tcp6 : K (ipf_pr_tcp6 be).
Proof. unfold ipf_pr_tcp6, ipf_pr_tcpcommon. kept. Qed.
Lemma keeps_udp6 : K (ipf_pr_udp6 be).
Proof. unfold ipf_pr_udp6, ipf_pr_udpcommon. kept. Qed.
Lemma keeps_icmp6_error : K (ipf_pr_icmp6_error be).
Proof. unfold ipf_pr_icmp6_error. kept. Qed.
#[local] Hint Resolve keeps_icmp6_error : keeps.
Lemma keeps_icmp6_type : K (ipf_pr_icmp6_type be).
Proof. unfold ipf_pr_icmp6_type. kept. Qed.
#[local] Hint Resolve keeps_icmp6_type : keeps.
Lemma keeps_icmp6 : K (ipf_pr_icmp6 be).
Proof. unfold ipf_pr_icmp6. kept. Qed.
Lemma keeps_gre6 : K (ipf_pr_gre6 be).
Proof. unfold ipf_pr_gre6. kept. Qed.
Lemma keeps_esp6 : K ipf_pr_esp6.
Proof. unfold ipf_pr_esp6. kept. Qed.
End Recorded6.
#[export] Hint Resolve keeps_read16 keeps_read32 keeps_tcp6 keeps_udp6 keeps_icmp6 keeps_gre6
  keeps_esp6 : keeps.

(** ** Presence of IPv6 extension headers *)

(** The bits that [ipf_pr_ipv6hdr] can set in [fi_optmsk]: hop-by-hop, routing,
    destination options and mobility. *)
Definition v6_recorded : Z := 0x185.
Abbreviation only_recorded := (inv (fun m => Z.ldiff m v6_recorded = 0) (fun _ => True)).

Section Headers6.
Context (be : bool) {B : build} {L : build_laws B}.

Lemma keeps_exthdr (C : Prop) multiple proto :
  (C -> forall bit, find_bit proto ip6exthdr = Some bit -> Z.ldiff bit v6_recorded = 0) ->
  keeps (only_recorded C) (ipf_pr_ipv6exthdr multiple proto).
Proof.
  intros HC. unfold ipf_pr_ipv6exthdr.
  do 2 (apply keeps_bind; [kept|intros ?]).
  apply keeps_if; [kept|]. apply keeps_bind; [kept|intros ?].
  apply keeps_if; [kept|]. do 2 (apply keeps_bind; [kept|intros ?]).
  apply keeps_if; [kept|]. apply keeps_bind; [by apply keeps_modify|intros []].
  intros s H. rewrite wp_bind. unfold the. rewrite wp_gets.
  destruct (has (fin_flx (ps_fin s)) FI_FRAG) eqn:Ef; [done|].
  destruct (find_bit proto ip6exthdr) as [bit|] eqn:Eb; [|done].
  destruct H as (H & _ & HF). assert (Hc : C) by (destruct HF; congruence).
  rewrite wp_bind, wp_gets, wp_bind. destruct (negb multiple && _).
  - assert (Hk : keeps (only_recorded C) (flag FI_BAD)) by kept.
    eapply wp_mono; [apply (Hk s); by repeat split|done].
  - unfold upd_fi, upd. rewrite wp_modify, wp_ret. split; [|split; [done|by left]].
    unfold opt_of in *. cbn.
    by rewrite Z.ldiff_land, Z.land_lor_distr_l, <- !Z.ldiff_land, H, (HC Hc bit).
Qed.

Lemma keeps_next_header C hdr : keeps (only_recorded C) (next_header hdr).
Proof. destruct hdr; cbn; kept. Qed.

Ltac ext := apply keeps_bind; [apply keeps_exthdr; intros _ bit [= <-]; reflexivity|intros ?].

Lemma keeps_hopopts6 C : keeps (only_recorded C) ipf_pr_hopopts6.
Proof. unfold ipf_pr_hopopts6. ext. apply keeps_next_header. Qed.
Lemma keeps_mobility6 C : keeps (only_recorded C) ipf_pr_mobility6.
Proof. unfold ipf_pr_mobility6. ext. apply keeps_next_header. Qed.
Lemma keeps_dstopts6 C : keeps (only_recorded C) ipf_pr_dstopts6.
Proof. unfold ipf_pr_dstopts6. ext. apply keeps_next_header. Qed.
Lemma keeps_routing6 C : keeps (only_recorded C) ipf_pr_routing6.
Proof. unfold ipf_pr_routing6. ext. kept. Qed.
Lemma keeps_ah6 C : keeps (only_recorded C) ipf_pr_ah6.
Proof. unfold ipf_pr_ah6. apply keeps_bind; [kept|intros ?]. ext. kept. Qed.

(** A fragment header is only looked at with [FI_FRAG] set. *)
Lemma keeps_fragment6 : keeps (only_recorded True) (ipf_pr_fragment6 be).
Proof.
  assert (Hk : keeps (only_recorded False)
            (frag ← ipf_pr_ipv6exthdr false IPPROTO_FRAGMENT;
             match frag with
             | None => mret IPPROTO_NONE
             | Some h =>
                 offlg ← read16 be (h + 2);
                 plen ← the fin_plen;
                 when_ (has offlg (IP6F_MORE_FRAG be) && has plen 7) (flag FI_BAD);;
                 ident ← read32 be (h + 4);
                 let off := ntohs be (Z.land offlg (IP6F_OFF_MASK be)) in
                 upd (fun fin => fin <| fin_fraghdr := h |> <| fin_id := ident |> <| fin_off := off |>);;
                 when_ (negb (off =? 0)) (flag FI_FRAGBODY);;
                 dlen ← the fin_dlen;
                 when_ (65535 <? Z.shiftl off 3 + dlen) (flag FI_BAD);;
                 read8 h
             end)).
  { apply keeps_bind; [by apply keeps_exthdr|intros ?]. cbv zeta. kept. }
  intros s (H & _ & _). unfold ipf_pr_fragment6. rewrite wp_bind. unfold flag, upd. rewrite wp_modify.
  eapply wp_mono; [apply Hk|].
  - split; [done|]. split; [done|right]. unfold fin_flx. cbn. rewrite has_lor. by rewrite orb_true_r.
  - cbn. intros _ s' [H' _]. split; [done|]. split; [done|by left].
Qed.

Lemma keeps_v6_header p : keeps (only_recorded True) (v6_header be p).
Proof.
  pose proof keeps_fragment6. pose proof (keeps_hopopts6 True). pose proof (keeps_mobility6 True).
  pose proof (keeps_dstopts6 True). pose proof (keeps_routing6 True). pose proof (keeps_ah6 True).
  unfold v6_header. cbv zeta. kept.
Qed.

Lemma keeps_v6_headers n : forall go p, keeps (only_recorded True) (v6_headers be n go p).
Proof.
  unfold v6_headers. induction n as [|n IH]; intros go p; simpl;
    (apply keeps_bind; [kept|intros ?]); apply keeps_if; [kept|kept|kept|].
  apply keeps_bind; [apply keeps_v6_header|intros [go' p']].
  apply keeps_bind; [kept|intros ?]. apply keeps_if; [kept|apply IH].
Qed.

Lemma ipv6hdr_recorded s :
  wlp (ipf_pr_ipv6hdr be) (fun _ s' => Z.ldiff (opt_of s') v6_recorded = 0) s.
Proof.
  unfold ipf_pr_ipv6hdr.
  assert (Hf : wlp (v6_fields be) (fun _ => only_recorded True) s).
  { unfold v6_fields. rewrite wp_bind. unfold upd. rewrite wp_modify, wp_bind.
    unfold upd_fi, upd. rewrite wp_modify.
    set (s1 := _ <| ps_fin ::= _ |>). assert (H1 : only_recorded True s1) by (split; [done|split; [done|by left]]).
    clearbody s1. revert s1 H1.
    change (keeps (only_recorded True)
      (p ← read8 6; hlim ← read8 7; src ← read_in6 be 8; dst ← read_in6 be 24;
       upd_fi (fun fi => fi <| fi_ttl := hlim |> <| fi_src := src |> <| fi_dst := dst |>);;
       upd (fun fin =>
         fin <| fin_crc := foldl (fun c w => u32 (c + w)) p (i6_words src ++ i6_words dst) |>
             <| fin_id := 0 |>);;
       mret p)).
    pose proof (keeps_read_in6 be (fun m => Z.ldiff m v6_recorded = 0) (fun _ => True) True). kept. }
  rewrite wp_bind. eapply wp_mono; [apply Hf|]. intros p s1 H1.
  eapply wp_mono with (Q := fun _ => only_recorded True); [|by intros u s' [? _]].
  revert s1 H1. cbn beta.
  refine (_ : keeps (only_recorded True) _).
  pose proof keeps_v6_headers. kept.
Qed.
End Headers6.

(** What [ipf_makefrip] records of the extension headers of an IPv6 packet: only
    hop-by-hop options, routing, destination options and mobility ever have a
    bit in [fi_optmsk].  The bits that the table [ip6exthdr] and the rule
    language have for fragment, ESP, AH, IPv6-in-IPv6 and no-next-header are
    never set, so a rule that asks for one of them matches no packet. *)
Theorem makefrip_v6_recorded be {B : build} {L : build_laws B} minfragmtu hlen s r s' :
  fin_v (ps_fin s) = 6 ->
  ipf_makefrip be minfragmtu hlen s = Some (r, s') ->
  Z.ldiff (fi_optmsk (fin_fi (ps_fin s'))) v6_recorded = 0.
Proof.
  intros Hv. apply (wlp_run _ (fun _ s' => Z.ldiff (opt_of s') v6_recorded = 0)).
  unfold ipf_makefrip. rewrite wp_bind. unfold upd at 1. rewrite wp_modify, wp_bind.
  unfold the at 1. rewrite wp_gets.
  set (s1 := s <| ps_fin ::= _ |>).
  replace (fin_v (ps_fin s1)) with 6 by (unfold s1; by rewrite <- Hv). cbn [Z.eqb Pos.eqb].
  clearbody s1. rewrite wp_bind, wp_bind. eapply wp_mono; [apply wlp_any|]. intros len s2 _.
  rewrite wp_bind. unfold upd. rewrite wp_modify.
  eapply wp_mono; [apply (ipv6hdr_recorded be)|]. intros u s3 H3. exact H3.
Qed.

(** An IPv6 packet with a hop-by-hop options header and an ESP header. *)
Definition v6_esp : list Z :=
  [0x60; 0; 0; 0; 0; 16; 0; 64] ++ replicate 15 0 ++ [1] ++ replicate 15 0 ++ [2] ++
  [50; 0; 1; 4; 0; 0; 0; 0] ++ [0; 0; 0; 9; 0; 0; 0; 1].
Definition v6_state (bytes : list Z) : pst :=
  mk_pst (fin_zero <| fin_fi := fi_zero <| fi_v := 6 |> |>) true true false
    (Z.of_nat (length bytes)) bytes.

Lemma makefrip_v6_recorded_witness :
  exists s', ipf_makefrip (B := user_build) false 68 40 (v6_state v6_esp) = Some (0, s') /\
    fi_p (fin_fi (ps_fin s')) = 50 /\ fi_optmsk (fin_fi (ps_fin s')) = 1 /\
    Z.ldiff (fi_optmsk (fin_fi (ps_fin s'))) v6_recorded = 0.
Proof.
  eexists. assert (E : ipf_makefrip (B := user_build) false 68 40 (v6_state v6_esp) = Some (0, _))
    by (vm_compute; reflexivity).
  split; [exact E|]. split; [reflexivity|]. split; [reflexivity|].
  exact (makefrip_v6_recorded false (B := user_build) 68 40 (v6_state v6_esp) _ _ eq_refl E).
Defined.

(** ** Termination of the walk over IPv6 headers *)

Section Walk6.
Context (be : bool) {B : build} {L : build_laws B}.

Local Abbreviation at_dlen d := (inv (fun _ => True) (fun x => x = d) True).

Lemma at_dlen_self s : at_dlen (dlen_of s) s.
Proof. by repeat split; left. Qed.

(** What follows a keeping step, with [fin_dlen] known. *)
Lemma wlp_after {A A'} (m : ST pst A) (k : A -> ST pst A') Q s d :
  keeps (at_dlen d) m -> dlen_of s = d ->
  (forall a s', dlen_of s' = d -> wlp (k a) Q s') -> wlp (m ≫= k) Q s.
Proof.
  intros Hm <- Hk. rewrite wp_bind. eapply wp_mono; [apply (Hm s), at_dlen_self|].
  intros a s' (_ & Hd & _). by apply Hk.
Qed.

Lemma wlp_kept {A} (m : ST pst A) s d :
  keeps (at_dlen d) m -> dlen_of s = d -> wlp m (fun _ s' => dlen_of s' = d) s.
Proof.
  intros Hm <-. eapply wp_mono; [apply (Hm s), at_dlen_self|]. by intros a s' (_ & Hd & _).
Qed.

(** An extension header that is accepted takes at least eight bytes. *)
Definition shorter (d : Z) (s : pst) : Prop := 0 <= dlen_of s <= d - 8.

Lemma wlp_u8 i s : wlp (read8 i) (fun b s' => is_u8 b /\ s' = s) s.
Proof.
  unfold wpg, read8. destruct (_ || _); [done|]. destruct (rd8 _ _); [|done].
  split; [apply u8_range|done].
Qed.

Lemma exthdr_shorter multiple proto s :
  wlp (ipf_pr_ipv6exthdr multiple proto)
    (fun hdr s' => hdr = None \/ shorter (dlen_of s) s') s.
Proof.
  unfold ipf_pr_ipv6exthdr. set (d := dlen_of s).
  apply (wlp_after _ _ _ _ d); [kept|done|]. intros _ s1 E1.
  rewrite wp_bind. unfold the at 1. rewrite wp_gets. fold (dlen_of s1). rewrite E1.
  destruct (d - 8 <? 0) eqn:E8.
  { rewrite wp_bind. eapply wp_mono; [apply wlp_any|]. by left. }
  apply (wlp_after _ _ _ _ d); [kept|done|]. intros ok s2 E2.
  destruct (negb ok); [by left|].
  rewrite wp_bind. unfold the at 1. rewrite wp_gets. rewrite wp_bind.
  apply (wp_mono _ _ (fun shift s' => 8 <= shift /\ dlen_of s' = d)).
  { destruct (proto =? IPPROTO_FRAGMENT); [by split; [lia|]|].
    rewrite wp_bind. eapply wp_mono; [apply wlp_u8|]. intros len s3 [Hb ->].
    rewrite wp_ret. split; [|done].
    rewrite Z.shiftl_mul_pow2 by lia. unfold is_u8 in Hb. lia. }
  intros shift s3 [Hs E3]. destruct (d <? shift) eqn:El.
  { rewrite wp_bind. eapply wp_mono; [apply wlp_any|]. by left. }
  rewrite wp_bind. unfold upd. rewrite wp_modify. breflect.
  set (s4 := s3 <| ps_fin ::= _ |>).
  assert (E4 : dlen_of s4 = d - shift) by (unfold dlen_of in *; subst s4; cbn; lia).
  eapply wp_mono; [apply (wlp_kept _ _ (d - shift)); [|done]|].
  - apply keeps_bind; [kept|intros flx]. apply keeps_if; [kept|].
    apply keeps_option; [intros bit|kept]. apply keeps_bind; [kept|intros msk].
    apply keeps_bind; [|kept]. apply keeps_if; [kept|]. by apply keeps_modify.
  - cbn beta. intros h s' E'. right. unfold shorter. fold d. lia.
Qed.

(** The same for a header routine that goes on with what it returns. *)
Lemma wlp_exthdr {A} multiple proto (k : option Z -> ST pst A) Q s :
  (forall s', wlp (k None) Q s') ->
  (forall h s', shorter (dlen_of s) s' -> wlp (k (Some h)) Q s') ->
  wlp (ipf_pr_ipv6exthdr multiple proto ≫= k) Q s.
Proof.
  intros Hn Hs. rewrite wp_bind. eapply wp_mono; [apply exthdr_shorter|].
  intros [h|] s' [?|H]; try done; auto.
Qed.

(** [p] is the end of the walk, or the payload left is shorter. *)
Definition progress (d : Z) (p : Z) (s : pst) : Prop := p = IPPROTO_NONE \/ shorter d s.

Lemma progress_keeps (m : ST pst Z) d s :
  (forall d, keeps (at_dlen d) m) -> shorter d s -> wlp m (progress d) s.
Proof.
  intros Hm H. eapply wp_mono; [apply (wlp_kept _ _ (dlen_of s)); [apply Hm|done]|].
  intros p s' E. right. unfold shorter in *. by rewrite E.
Qed.

Lemma exthdr_progress multiple proto s (k : option Z -> ST pst Z) :
  (forall s', wlp (k None) (progress (dlen_of s)) s') ->
  (forall h d, keeps (at_dlen d) (k (Some h))) ->
  wlp (ipf_pr_ipv6exthdr multiple proto ≫= k) (progress (dlen_of s)) s.
Proof. intros Hn Hk. apply wlp_exthdr; [done|]. intros h s' H. by apply progress_keeps. Qed.

Lemma progress_hopopts6 s : wlp ipf_pr_hopopts6 (progress (dlen_of s)) s.
Proof. apply exthdr_progress; [by left|intros h d; cbn; kept]. Qed.
Lemma progress_mobility6 s : wlp ipf_pr_mobility6 (progress (dlen_of s)) s.
Proof. apply exthdr_progress; [by left|intros h d; cbn; kept]. Qed.
Lemma progress_dstopts6 s : wlp ipf_pr_dstopts6 (progress (dlen_of s)) s.
Proof. apply exthdr_progress; [by left|intros h d; cbn; kept]. Qed.
Lemma progress_routing6 s : wlp ipf_pr_routing6 (progress (dlen_of s)) s.
Proof. apply exthdr_progress; [by left|intros h d; kept]. Qed.
Lemma progress_ah6 s : wlp ipf_pr_ah6 (progress (dlen_of s)) s.
Proof.
  unfold ipf_pr_ah6. apply (wlp_after _ _ _ _ (dlen_of s)); [kept|done|]. intros _ s1 <-.
  apply exthdr_progress; [by left|intros h d; kept].
Qed.
Lemma progress_fragment6 s : wlp (ipf_pr_fragment6 be) (progress (dlen_of s)) s.
Proof.
  unfold ipf_pr_fragment6. apply (wlp_after _ _ _ _ (dlen_of s)); [kept|done|]. intros _ s1 <-.
  apply exthdr_progress; [by left|intros h d; cbv zeta; kept].
Qed.

(** Every header that the walk goes on after makes progress. *)
Lemma v6_header_progress p s :
  wlp (v6_header be p) (fun '(go, p') s' => go = true -> progress (dlen_of s) p' s') s.
Proof.
  assert (Hlast : forall m : ST pst unit, wlp (m;; mret (false, p))
            (fun '(go, p') s' => go = true -> progress (dlen_of s) p' s') s).
  { intros m. rewrite wp_bind. eapply wp_mono; [apply wlp_any|]. intros ? ? _. by rewrite wp_ret. }
  assert (Hmore : forall m : ST pst Z, wlp m (progress (dlen_of s)) s ->
            wlp (p ← m; mret (true, p))
              (fun '(go, p') s' => go = true -> progress (dlen_of s) p' s') s).
  { intros m Hm. rewrite wp_bind. eapply wp_mono; [apply Hm|]. intros ? ? H. by rewrite wp_ret. }
  unfold v6_header. cbv zeta.
  repeat lazymatch goal with
    | |- wlp (if _ =? IPPROTO_FRAGMENT then _ else _) _ _ => fail
    | |- wlp (if ?b then _ else _) _ _ => destruct b
    end; auto using progress_hopopts6, progress_mobility6, progress_dstopts6,
           progress_routing6, progress_ah6; [by rewrite wp_ret|].
  destruct (p =? IPPROTO_FRAGMENT); [|by rewrite wp_ret].
  rewrite wp_bind. eapply wp_mono; [apply progress_fragment6|].
  intros p' s' H. rewrite wp_bind. unfold the. by rewrite wp_gets, wp_ret.
Qed.
End Walk6.

Section Fuel6.
Context (be : bool) {B : build} {L : build_laws B}.

(** The number of rounds that [go], [p] and the payload left allow. *)
Definition rounds (go : bool) (p : Z) (s : pst) : nat :=
  if go then if p =? IPPROTO_NONE then 1 else v6_fuel (dlen_of s) else 0.

Lemma rounds_step go p s go' p' s' :
  v6_header be p s = Some ((go', p'), s') -> go = true ->
  (S (rounds go' p' s') <= rounds go p s)%nat.
Proof.
  intros E ->. unfold rounds. destruct (Z.eqb_spec p IPPROTO_NONE) as [->|Hp].
  { cbn in E. by injection E as <- <- <-. }
  destruct go'; [|unfold v6_fuel; lia].
  pose proof (wlp_run _ _ _ _ _ (v6_header_progress be p s) E eq_refl) as [->|H].
  { rewrite Z.eqb_refl. unfold v6_fuel. lia. }
  unfold shorter, v6_fuel in *. assert (dlen_of s' / 8 + 1 <= dlen_of s / 8) by dlia.
  destruct (p' =? IPPROTO_NONE); [lia|]. assert (0 <= dlen_of s' / 8) by dlia. lia.
Qed.

Lemma pr_pullup_dlen n s b s' : ipf_pr_pullup n s = Some (b, s') -> dlen_of s' = dlen_of s.
Proof.
  apply (wlp_run (ipf_pr_pullup n) (fun _ s' => dlen_of s' = dlen_of s)).
  apply (wlp_kept _ _ (dlen_of s)); [kept|done].
Qed.

Lemma v6_walk_rounds out out' n : forall m s go p,
  (rounds go p s <= n)%nat -> (rounds go p s <= m)%nat ->
  v6_walk be out n go p s = v6_walk be out' m go p s.
Proof.
  induction n as [|n IH]; intros [|m] s go p Hn Hm.
  1,2,3: destruct go; [unfold rounds, v6_fuel in *; destruct (p =? IPPROTO_NONE); lia|done].
  simpl. unfold mbind, st_bind, the, gets.
  destruct (negb (go && negb (has (fin_flx (ps_fin s)) FI_SHORT))) eqn:Eg; [done|].
  destruct go; [|done].
  destruct (v6_header be p s) as [[[go' p'] s1]|] eqn:E; [|done].
  pose proof (rounds_step true p s go' p' s1 E eq_refl) as Hr.
  destruct (go' && negb (p' =? IPPROTO_NONE)); [|apply IH; lia].
  destruct (ipf_pr_pullup 0 s1) as [[ok s2]|] eqn:E2; [|done].
  apply pr_pullup_dlen in E2. unfold mret, st_ret. destruct (negb ok); [done|].
  assert (rounds go' p' s2 = rounds go' p' s1) as E3 by (unfold rounds; by rewrite E2).
  apply IH; rewrite E3; lia.
Qed.
End Fuel6.

(** C24. The walk over the headers of an IPv6 packet ends: each header that it goes on
    after takes at least eight bytes of the payload, so the rounds that [v6_fuel]
    gives for the payload are enough.  Whatever would happen when they run out
    ([out]) is never reached, and more rounds change nothing, for any packet and
    either build. *)
Theorem v6_headers_terminate be {B : build} {L : build_laws B} out n p s :
  (v6_fuel (fin_dlen (ps_fin s)) <= n)%nat ->
  v6_walk be out n true p s = v6_headers be (v6_fuel (fin_dlen (ps_fin s))) true p s.
Proof.
  intros Hn. fold (dlen_of s) in *.
  assert (rounds true p s <= v6_fuel (dlen_of s))%nat.
  { unfold rounds, v6_fuel. destruct (p =? IPPROTO_NONE); lia. }
  apply v6_walk_rounds; [exact L|lia|lia].
Qed.

(** The state of [v6_esp] when the walk starts. *)
Definition v6_esp_walk : pst := v6_state v6_esp <| ps_fin ::= fun f =>
  f <| fin_dlen := 16 |> <| fin_dp := 40 |> <| fin_hlen := 40 |> |>.

Lemma v6_headers_terminate_witness :
  (v6_fuel (fin_dlen (ps_fin v6_esp_walk)) <= 9)%nat /\
  v6_walk (B := user_build) false (mret (true, 77)) 9 true 0 v6_esp_walk =
  v6_headers (B := user_build) false 4 true 0 v6_esp_walk.
Proof.
  assert (H : (v6_fuel (fin_dlen (ps_fin v6_esp_walk)) <= 9)%nat) by (vm_compute; lia).
  split; [exact H|]. exact (v6_headers_terminate false (B := user_build) (mret (true, 77)) 9 0 v6_esp_walk H).
Defined.

(** ** Packets without a buffer *)

(** A step that only looks at the state. *)
Definition looks {A} (m : ST pst A) : Prop := forall s, wlp m (fun _ s' => s' = s) s.
Lemma looks_read8 i : looks (read8 i).
Proof. intros s. unfold wpg, read8. destruct (_ || _); [done|]. by destruct (rd8 _ _). Qed.
Lemma looks_ret {A} (a : A) : looks (mret a).
Proof. done. Qed.
Lemma looks_bind {A A'} (m : ST pst A) (k : A -> ST pst A') :
  looks m -> (forall a, looks (k a)) -> looks (m ≫= k).
Proof.
  intros Hm Hk s. rewrite wp_bind. eapply wp_mono; [apply Hm|]. intros a s' ->. apply Hk.
Qed.
Lemma looks_read16 be i : looks (read16 be i).
Proof. repeat (apply looks_bind; [apply looks_read8|intros ?]). apply looks_ret. Qed.
Lemma looks_read32 be i : looks (read32 be i).
Proof. repeat (apply looks_bind; [apply looks_read8|intros ?]). apply looks_ret. Qed.
Lemma looks_read_in6 be i : looks (read_in6 be i).
Proof. repeat (apply looks_bind; [apply looks_read32|intros ?]). apply looks_ret. Qed.
Lemma wlp_looks {A A'} (m : ST pst A) (k : A -> ST pst A') Q s :
  looks m -> (forall a, m s = Some (a, s) -> wlp (k a) Q s) -> wlp (m ≫= k) Q s.
Proof.
  intros Hm Hk. rewrite wp_bind. pose proof (Hm s) as H. unfold wpg in H |- *.
  destruct (m s) as [[a s']|] eqn:E; [|done]. subst s'. by apply (Hk a).
Qed.
Lemma read8_value i s b s' : read8 i s = Some (b, s') ->
  exists raw, ps_bytes s !! Z.to_nat i = Some raw /\ b = u8 raw.
Proof.
  unfold read8, rd8. destruct (_ || _); [done|]. destruct (i <? 0); [done|].
  destruct (ps_bytes s !! Z.to_nat i); [|done]. intros [= <- <-]. eauto.
Qed.

Lemma read16_value be i s v s' : 0 <= i -> read16 be i s = Some (v, s') ->
  exists r0 r1, ps_bytes s !! Z.to_nat i = Some r0 /\ ps_bytes s !! S (Z.to_nat i) = Some r1 /\
    v = load16 be (u8 r0) (u8 r1).
Proof.
  intros Hi (b0 & s1 & E0 & E)%bind_Some. apply bind_Some in E as (b1 & s2 & E1 & E).
  injection E as <- <-. pose proof (wlp_run _ _ _ _ _ (looks_read8 i s) E0) as ->.
  apply read8_value in E0 as (r0 & H0 & ->), E1 as (r1 & H1 & ->).
  replace (Z.to_nat (i + 1)) with (S (Z.to_nat i)) in H1 by lia. eauto.
Qed.
Lemma ntohs_load16 be b0 b1 : is_u8 b0 -> is_u8 b1 -> ntohs be (load16 be b0 b1) = b0 * 256 + b1.
Proof.
  unfold is_u8. intros. unfold ntohs, load16. destruct be.
  - apply u16_id. unfold is_u16. lia.
  - rewrite u16_id by (unfold is_u16; lia). unfold swap16. dlia.
Qed.

Section NoBuffer.
Context (be : bool) {B : build}.

(** The parts of the state that [v6_fields] does not touch. *)
Definition same_packet (s s' : pst) : Prop :=
  ps_bytes s' = ps_bytes s /\ ps_m s' = ps_m s /\
  fin_dlen (ps_fin s') = fin_dlen (ps_fin s) /\ fin_plen (ps_fin s') = fin_plen (ps_fin s) /\
  fin_dp (ps_fin s') = fin_dp (ps_fin s) /\ fin_flx (ps_fin s') = fin_flx (ps_fin s).

Lemma wlp_v6_fields s :
  wlp (v6_fields be) (fun p s' => same_packet s s' /\
    exists raw, ps_bytes s !! 6%nat = Some raw /\ p = u8 raw) s.
Proof.
  unfold v6_fields, upd_fi, upd. rewrite wp_bind, wp_modify, wp_bind, wp_modify.
  set (s1 := _ <| ps_fin ::= _ |>). assert (H1 : same_packet s s1) by (by subst s1).
  replace (ps_bytes s) with (ps_bytes s1) by apply H1. clearbody s1.
  apply wlp_looks; [apply looks_read8|intros p (raw & Hr & Hp)%read8_value].
  do 3 (apply wlp_looks; [apply looks_read8 || apply looks_read_in6|intros ? _]).
  rewrite wp_bind, wp_modify, wp_bind, wp_modify, wp_ret. split; [exact H1|eauto].
Qed.

Lemma icmp6_no_buffer s t :
  ps_m s = false -> fin_plen (ps_fin s) >= 88 -> fin_dlen (ps_fin s) > 1 ->
  ps_bytes s !! Z.to_nat (fin_dp (ps_fin s)) = Some t -> 1 <= t <= 4 ->
  ipf_pr_icmp6 be s = None.
Proof.
  intros Hm Hp Hd Ht Hr.
  assert (H : wlp (ipf_pr_icmp6 be) (fun _ _ => False) s); cycle 1.
  { unfold wpg in H. by destruct (ipf_pr_icmp6 be s) as [[]|]. }
  unfold ipf_pr_icmp6. rewrite wp_bind. unfold ipf_pr_pullup, wpg at 1. rewrite Hm. cbn [negb].
  rewrite wp_bind. unfold the at 1. rewrite wp_gets.
  rewrite (proj2 (Z.ltb_lt 1 (fin_dlen (ps_fin s))) ltac:(lia)). rewrite wp_bind.
  unfold ipf_pr_icmp6_type. rewrite wp_bind. unfold the at 1. rewrite wp_gets.
  apply wlp_looks; [apply looks_read16|intros d0 _]. rewrite wp_bind. unfold upd_fi, upd.
  rewrite wp_modify. set (s1 := _ <| ps_fin ::= _ |>).
  apply wlp_looks; [apply looks_read8|intros type (raw & Hraw & ->)%read8_value].
  change (ps_bytes s1) with (ps_bytes s) in Hraw. rewrite Ht in Hraw. injection Hraw as <-.
  rewrite (u8_id t) by (unfold is_u8; lia).
  assert (Hc : t = 1 \/ t = 2 \/ t = 3 \/ t = 4) by lia.
  assert (He : wlp (ipf_pr_icmp6_error be) (fun _ _ => False) s1).
  { unfold ipf_pr_icmp6_error, flag, upd. rewrite wp_bind, wp_modify.
    set (s2 := s1 <| ps_fin ::= _ |>).
    assert (Ep : fin_plen (ps_fin s2) = fin_plen (ps_fin s)) by done.
    assert (Em : ps_m s2 = false) by done. clearbody s2.
    rewrite wp_bind. unfold the at 1. rewrite wp_gets, Ep. unfold ICMP6ERR_IPICMPHLEN.
    rewrite (proj2 (Z.ltb_ge (fin_plen (ps_fin s)) 88)) by lia.
    rewrite wp_bind. unfold m_len, wpg at 1. by rewrite Em. }
  assert (Ht3 : has t ICMP6_INFOMSG_MASK = false /\
               one_of t [ICMP6_ECHO_REPLY; ICMP6_ECHO_REQUEST] = false /\
               one_of t [ICMP6_DST_UNREACH; ICMP6_PACKET_TOO_BIG; ICMP6_TIME_EXCEEDED;
                         ICMP6_PARAM_PROB] = true)
    by (destruct Hc as [->|[->|[->| ->]]]; done).
  destruct Ht3 as (-> & -> & ->). rewrite wp_bind. cbn [when_]. rewrite wp_ret, wp_bind.
  eapply wp_mono; [apply He|done].
Qed.

Lemma v6_header_icmp6_no_buffer s t :
  ps_m s = false -> fin_plen (ps_fin s) >= 88 -> fin_dlen (ps_fin s) > 1 ->
  ps_bytes s !! Z.to_nat (fin_dp (ps_fin s)) = Some t -> 1 <= t <= 4 ->
  v6_header be IPPROTO_ICMPV6 s = None.
Proof.
  intros.
  change (v6_header be IPPROTO_ICMPV6 s) with
    ((ipf_pr_icmp6 be;; mret (false, IPPROTO_ICMPV6)) s).
  unfold mbind, st_bind.
  by rewrite (icmp6_no_buffer s t).
Qed.

(** A packet parsed without a buffer. *)
Definition inner (s : pst) : Prop :=
  ps_m s = false /\ fin_v (ps_fin s) = 6 /\ has (fin_flx (ps_fin s)) FI_SHORT = false.
End NoBuffer.

(** C26. An ICMPv6 error inside an ICMPv6 error.  ip_state.c parses the packet
    quoted by an error with [fin_m] set to null; when that packet is an ICMPv6
    error of at least 88 bytes itself, [ipf_pr_icmp6] evaluates
    [M_LEN(fin->fin_m)], so the parse has no result whatever the packet holds
    and whichever build it is: a packet from the network makes the kernel
    dereference a null pointer. *)
Theorem inner_icmp6_error_faults be {B : build} minfragmtu s len0 len1 t :
  inner s ->
  ps_bytes s !! 4%nat = Some len0 -> ps_bytes s !! 5%nat = Some len1 ->
  48 <= u8 len0 * 256 + u8 len1 ->
  ps_bytes s !! 6%nat = Some IPPROTO_ICMPV6 ->
  ps_bytes s !! 40%nat = Some t -> 1 <= t <= 4 ->
  ipf_makefrip be minfragmtu 40 s = None.
Proof.
  intros (Hm & Hv & Hf) H4 H5 Hlen H6 H40 Ht.
  assert (H : wlp (ipf_makefrip be minfragmtu 40) (fun _ _ => False) s); cycle 1.
  { unfold wpg in H. by destruct (ipf_makefrip be minfragmtu 40 s) as [[]|]. }
  unfold ipf_makefrip, upd. rewrite wp_bind, wp_modify, wp_bind. unfold the at 1. rewrite wp_gets.
  set (s1 := s <| ps_fin ::= _ |>).
  replace (fin_v (ps_fin s1)) with 6 by done. cbn [Z.eqb Pos.eqb]. rewrite wp_bind.
  apply wlp_looks; [apply looks_read16|intros len E].
  apply read16_value in E as (r0 & r1 & E0 & E1 & ->); [|lia].
  change (ps_bytes s !! 4%nat = Some r0) in E0. change (ps_bytes s !! 5%nat = Some r1) in E1.
  rewrite H4 in E0. rewrite H5 in E1. injection E0 as <-. injection E1 as <-.
  rewrite ntohs_load16 by apply u8_range. set (n := u8 len0 * 256 + u8 len1) in *.
  rewrite wp_bind, wp_modify. set (s2 := s1 <| ps_fin ::= _ |>).
  unfold ipf_pr_ipv6hdr. rewrite wp_bind. eapply wp_mono; [apply wlp_v6_fields|].
  intros p s3 [(Eb & Em & Ed & Ep & Edp & Ef) (raw & Hraw & ->)].
  change (ps_bytes s2) with (ps_bytes s) in Hraw, Eb. rewrite H6 in Hraw. injection Hraw as <-.
  change (ps_m s2) with (ps_m s) in Em.
  rewrite wp_bind. unfold the at 1. rewrite wp_gets, wp_bind.
  unfold v6_fuel. rewrite Nat.add_comm. unfold v6_headers.
  cbn [Nat.add v6_walk].
  rewrite wp_bind. unfold the at 1. rewrite wp_gets.
  replace (has (fin_flx (ps_fin s3)) FI_SHORT) with false by (rewrite Ef; done).
  cbn [negb andb]. rewrite wp_bind. unfold wpg at 1.
  replace (u8 IPPROTO_ICMPV6) with IPPROTO_ICMPV6 by done.
  rewrite (v6_header_icmp6_no_buffer be s3 t); [done|congruence| | | |lia].
  - rewrite Ep. cbn. lia.
  - rewrite Ed. cbn. lia.
  - rewrite Eb, Edp. exact H40.
Qed.

(** An ICMPv6 error quoting an ICMPv6 error of 88 bytes. *)
Definition icmp6_in_icmp6 : list Z :=
  [0x60; 0; 0; 0; 0; 48; 58; 64] ++ replicate 32 7 ++ [1; 0; 0; 0; 0; 0; 0; 0] ++ replicate 40 0.
Definition inner_state : pst :=
  v6_state icmp6_in_icmp6 <| ps_m := false |>.
Lemma inner_icmp6_error_faults_witness :
  inner inner_state /\ ipf_makefrip (B := user_build) false 68 40 inner_state = None.
Proof.
  assert (H : inner inner_state) by (repeat split; reflexivity).
  split; [exact H|].
  refine (inner_icmp6_error_faults false (B := user_build) 68 inner_state 0 48 1 H _ _ _ _ _ _);
    (reflexivity || vm_compute; split; congruence).
Defined.

(** ** IPv4 options *)

(** The options of a header, and their bytes. *)
Inductive ipopt := Nop | Opt (type : Z) (data : list Z).
Definition opt_bytes (o : ipopt) : list Z :=
  match o with Nop => [IPOPT_NOP] | Opt t d => t :: 2 + Z.of_nat (length d) :: d end.
(** Options whose contents are not examined: neither classification. *)
Definition plain_opt (o : ipopt) : Prop :=
  match o with
  | Nop => True
  | Opt t d => 2 <= t < 256 /\ t <> IPOPT_SECURITY /\ t <> IPOPT_CIPSO /\
               2 + Z.of_nat (length d) < 256
  end.

(** The bit that the walk records for an option: none when it is at most four
    bytes long, and none for VISA (142), IMITD (144), EIP (145), ADDEXT (147) and
    FINN (205). *)
Definition lost_opts : list Z := [142; 144; 145; 147; 205].
Definition opt_bit (o : ipopt) : Z :=
  match o with
  | Nop => 0
  | Opt t d => if (4 <? 2 + Z.of_nat (length d)) && negb (one_of t lost_opts)
               then default 0 (find_bit t ipopts) else 0
  end.

(** The entries that the search visits, and the bits of those that match. *)
Fixpoint search_bits (mv : nat) (i opt : Z) : option Z :=
  match (if i <? 0 then None else ipopts !! Z.to_nat i) with
  | None => None
  | Some (val, bit) =>
      let here := if opt =? val then bit else 0 in
      let i := if opt <? val then i - Z.of_nat mv else i + Z.of_nat mv in
      match mv with
      | O => Some here
      | S mv => match search_bits mv i opt with
                | Some r => Some (Z.lor here r)
                | None => None
                end
      end
  end.

Definition search_ok (opt : Z) : bool :=
  match search_bits 4 9 opt with
  | Some b => Z.land b 0xffff =? (if one_of opt lost_opts then 0 else default 0 (find_bit opt ipopts))
  | None => false
  end.
Lemma search_table : forallb (fun n => search_ok (Z.of_nat n)) (seq 1 255) = true.
Proof. vm_compute. reflexivity. Qed.

(** The search stays in the table and finds the bit of every option that is not
    lost. *)
Lemma search_bits_spec opt : 1 <= opt < 256 -> exists b, search_bits 4 9 opt = Some b /\
  Z.land b 0xffff = if one_of opt lost_opts then 0 else default 0 (find_bit opt ipopts).
Proof.
  intros H. pose proof search_table as Ht. rewrite forallb_forall in Ht.
  specialize (Ht (Z.to_nat opt) ltac:(apply in_seq; lia)).
  rewrite Z2Nat.id in Ht by lia. unfold search_ok in Ht.
  destruct (search_bits 4 9 opt) as [b|]; [|done]. apply Z.eqb_eq in Ht. eauto.
Qed.

Lemma u16_land x : u16 x = Z.land x 0xffff.
Proof. by rewrite land_ffff. Qed.
Lemma u16_lor x y : u16 (Z.lor x y) = Z.lor (u16 x) (u16 y).
Proof. by rewrite !u16_land, Z.land_lor_distr_l. Qed.
Lemma u16_u16 x : u16 (u16 x) = u16 x.
Proof. apply Z.mod_mod; lia. Qed.
Lemma u16_lor2 x y z : u16 (Z.lor (u16 (Z.lor x y)) z) = u16 (Z.lor x (Z.lor y z)).
Proof. by rewrite !u16_lor, !u16_u16, Z.lor_assoc. Qed.

Section Options4.
Context (be : bool).

Lemma opt_search_plain mv : forall i opt s ol o st b,
  opt <> IPOPT_SECURITY -> opt <> IPOPT_CIPSO -> search_bits mv i opt = Some b ->
  u16 (optmsk o) = optmsk o ->
  opt_search be mv i opt s ol o st =
  Some (o <| optmsk := if 4 <? ol then u16 (Z.lor (optmsk o) b) else optmsk o |>, st).
Proof.
  assert (He : forall opt s ol (st : pst) val bit o, opt <> IPOPT_SECURITY -> opt <> IPOPT_CIPSO ->
    u16 (optmsk o) = optmsk o ->
    opt_entry be opt s ol (val, bit) o st =
    Some (o <| optmsk := if 4 <? ol then u16 (Z.lor (optmsk o) (if opt =? val then bit else 0))
                         else optmsk o |>, st)).
  { intros opt s ol st val bit o Hs Hc Ho. unfold opt_entry.
    apply Z.eqb_neq in Hs, Hc. rewrite Hs, Hc.
    destruct (opt =? val), (4 <? ol); cbn [andb]; rewrite ?Z.lor_0_r, ?Ho; by destruct o. }
  induction mv as [|mv IH]; intros i opt s ol o st b Hs Hc Hb Ho; simpl in Hb |- *;
    unfold mbind, st_bind, need;
    (destruct (if i <? 0 then None else ipopts !! Z.to_nat i) as [[val bit]|]; [|done]);
    rewrite He by done.
  - by injection Hb as <-.
  - destruct (search_bits mv _ opt) as [r|] eqn:Er; [|done]. injection Hb as <-.
    cbn [fst]. erewrite IH; [|done|done|exact Er|by destruct (4 <? ol); cbn; rewrite ?u16_u16].
    destruct (4 <? ol); cbn; [|done]. by rewrite u16_lor2.
Qed.

(** The bytes [l] are in reach at offset [i]. *)
Definition holds (s : pst) (i : Z) (l : list Z) : Prop :=
  forall k b, l !! k = Some b -> read8 (i + Z.of_nat k) s = Some (u8 b, s).
Lemma holds_head s i b l : holds s i (b :: l) -> read8 i s = Some (u8 b, s).
Proof. intros H. rewrite <- (Z.add_0_r i) at 1. by apply (H 0%nat). Qed.
Lemma holds_app s i l l' : holds s i (l ++ l') -> holds s (i + Z.of_nat (length l)) l'.
Proof.
  intros H k b Hk. rewrite <- Z.add_assoc, <- Nat2Z.inj_add. apply H.
  by rewrite lookup_app_r, Nat.add_comm, Nat.add_sub by lia.
Qed.

Definition opts_bits (opts : list ipopt) : Z := foldl (fun m o => Z.lor m (opt_bit o)) 0 opts.
Lemma opts_bits_acc opts : forall m,
  foldl (fun m o => Z.lor m (opt_bit o)) m opts = Z.lor m (opts_bits opts).
Proof.
  unfold opts_bits. induction opts as [|o opts IH]; intros m; simpl; [by rewrite Z.lor_0_r|].
  rewrite IH. symmetry. rewrite IH. by rewrite ?Z.lor_0_l, Z.lor_assoc.
Qed.

(** What may follow the options: nothing, or the end-of-list option. *)
Definition opts_end (tail : list Z) : Prop := tail = [] \/ head tail = Some 0.

Lemma opt_step_length o l s i hlen :
  plain_opt o -> holds s i (opt_bytes o ++ l) -> Z.of_nat (length (opt_bytes o)) <= hlen ->
  exists b, read8 i s = Some (b, s) /\ 1 <= b < 256 /\ b <> IPOPT_SECURITY /\ b <> IPOPT_CIPSO /\
    opt_length i hlen b s = Some (Some (Z.of_nat (length (opt_bytes o))), s) /\
    forall x, is_u16 x -> exists m, search_bits 4 9 b = Some m /\
      (if 4 <? Z.of_nat (length (opt_bytes o)) then u16 (Z.lor x m) else x) = Z.lor x (opt_bit o).
Proof.
  intros Hp Hh Hl. destruct o as [|t d]; cbn [opt_bytes length] in *.
  - exists 1. rewrite (holds_head _ _ _ _ Hh). do 5 (split; [done || lia|]).
    intros x Hx. eexists; split; [vm_compute; reflexivity|]. by rewrite Z.lor_0_r.
  - destruct Hp as (Ht & Hs & Hc & Hd). exists t.
    rewrite (holds_head _ _ _ _ Hh), (u8_id t) by (unfold is_u8; lia).
    split; [done|]. split; [lia|]. split; [done|]. split; [done|]. split.
    + unfold opt_length. rewrite (proj2 (Z.eqb_neq t 0)), (proj2 (Z.eqb_neq t IPOPT_NOP))
        by (unfold IPOPT_NOP; lia).
      rewrite (proj2 (Z.ltb_ge hlen 2)) by lia. unfold mbind, st_bind.
      pose proof (Hh 1%nat _ eq_refl) as H1. change (i + Z.of_nat 1) with (i + 1) in H1.
      rewrite H1.
      rewrite u8_id by (unfold is_u8; lia).
      rewrite (proj2 (Z.ltb_ge _ 2)), (proj2 (Z.ltb_ge hlen _)) by lia. cbn [orb].
      unfold mret, st_ret. do 3 f_equal. lia.
    + intros x Hx. destruct (search_bits_spec t ltac:(lia)) as (m & Hm & Hb).
      exists m. split; [done|]. cbn [opt_bit].
      replace (Z.of_nat (S (S (length d)))) with (2 + Z.of_nat (length d)) by lia.
      destruct (4 <? 2 + Z.of_nat (length d)); cbn [andb]; [|by rewrite Z.lor_0_r].
      rewrite u16_lor, u16_id, u16_land, Hb by done. by destruct (one_of t lost_opts).
Qed.
End Options4.

(** The bytes in reach do not depend on the summary, its [fin_ipoff] apart. *)
Lemma holds_fin s g i l :
  fin_ipoff (g (ps_fin s)) = fin_ipoff (ps_fin s) -> holds s i l ->
  holds (s <| ps_fin ::= g |>) i l.
Proof.
  intros Hg H k b Hk. specialize (H k b Hk). revert H. unfold read8. cbn. rewrite Hg.
  destruct (_ || _); [done|]. by destruct (rd8 _ _); [intros [= ->]|].
Qed.

Lemma opts_bits_cons o opts : opts_bits (o :: opts) = Z.lor (opt_bit o) (opts_bits opts).
Proof. unfold opts_bits at 1. cbn [foldl]. by rewrite opts_bits_acc. Qed.

Section OptionsRun.
Context (be : bool).

Lemma options_loop_run opts tail : opts_end tail -> forall fuel i o s,
  Forall plain_opt opts ->
  let bytes := concat (map opt_bytes opts) ++ tail in
  holds s i bytes -> is_u16 (optmsk o) -> (length bytes <= fuel)%nat ->
  options_loop be fuel i (Z.of_nat (length bytes)) o s =
  Some (o <| optmsk ::= fun x => Z.lor x (opts_bits opts) |>, s).
Proof.
  intros Htail. induction opts as [|op opts IH]; intros fuel i o s Hp bytes Hh Ho Hf.
  - assert (Hdone : o <| optmsk ::= fun x => Z.lor x (opts_bits []) |> = o)
      by (destruct o; cbn; by rewrite Z.lor_0_r).
    rewrite Hdone. unfold bytes in *. cbn [map concat app] in *. destruct tail as [|b tail].
    { by destruct fuel. }
    destruct Htail as [?|[= ->]]; [done|]. destruct fuel as [|fuel]; [cbn in Hf; lia|].
    cbn [options_loop]. rewrite (proj2 (Z.leb_gt _ 0)) by (cbn; lia).
    unfold mbind, st_bind. by rewrite (holds_head _ _ _ _ Hh).
  - apply Forall_cons in Hp as [Hop Hp]. unfold bytes in *. clear bytes.
    cbn [map concat] in *. rewrite <- app_assoc in *.
    set (rest := concat (map opt_bytes opts) ++ tail) in *.
    assert (Hlen : (0 < length (opt_bytes op))%nat) by (destruct op; cbn; lia).
    rewrite length_app in Hf |- *.
    destruct (opt_step_length op rest s i (Z.of_nat (length (opt_bytes op) + length rest)) Hop Hh
                ltac:(lia)) as (b & Hb & Hr & Hs & Hc & Hl & Hx).
    destruct fuel as [|fuel]; [lia|]. cbn [options_loop].
    rewrite (proj2 (Z.leb_gt _ 0)) by lia. unfold mbind, st_bind. rewrite Hb, Hl.
    destruct (Hx _ Ho) as (m & Hm & Hbit).
    rewrite (opt_search_plain be 4 9 b i _ o s m Hs Hc Hm), Hbit by (by apply u16_id).
    replace (Z.of_nat (length (opt_bytes op) + length rest) - Z.of_nat (length (opt_bytes op)))
      with (Z.of_nat (length rest)) by lia.
    unfold rest. rewrite IH; [|done|by apply holds_app| |fold rest; lia].
    + cbn -[opts_bits]. by rewrite opts_bits_cons, Z.lor_assoc.
    + cbn. rewrite <- Hbit. destruct (4 <? _); [apply u16_range|done].
Qed.
End OptionsRun.

(** C25. The options of an IPv4 header, the two that carry a security label (SECURITY and
    CIPSO) left out.  For such options written one after the other and ended by the end of the header or by the end-of-list option, [fi_optmsk]
    gets exactly the bits of [opt_bit], which are not all that the table
    [ipopts] defines: an option of at most four bytes is never recorded, because
    the length needed to read a classification is asked of every option;
    [ADDEXT] and [VISA] are not found, because the table is not in the order
    that its binary search needs; and the bits of [IMITD], [EIP] and [FINN] do
    not fit in the 16 bits of [optmsk]. *)
Theorem v4_options_recorded be opts tail s :
  Forall plain_opt opts -> opts_end tail ->
  let bytes := concat (map opt_bytes opts) ++ tail in
  bytes <> [] -> holds s 20 bytes ->
  v4_options be (20 + Z.of_nat (length bytes)) s =
  Some (tt, s <| ps_fin ::= fun fin => or_flx FI_OPTIONS fin <| fin_fi ::= fun fi =>
    fi <| fi_optmsk := opts_bits opts |> <| fi_secmsk := 0 |> <| fi_auth := 0 |> |> |>).
Proof.
  intros Hp Ht bytes Hne Hh. unfold v4_options.
  assert (0 < length bytes)%nat by (destruct bytes; [done|cbn; lia]).
  rewrite (proj2 (Z.eqb_neq _ 20)) by lia.
  unfold flag, upd_fi, upd, mbind, st_bind, modify. set (s1 := s <| ps_fin ::= _ |>).
  replace (20 + Z.of_nat (length bytes) - 20) with (Z.of_nat (length bytes)) by lia.
  unfold bytes.
  rewrite (options_loop_run be opts tail Ht _ 20 (mk_optinfo 0 0 0) s1); fold bytes;
    [|done|by apply holds_fin|done|lia].
  cbn -[opts_bits]. by rewrite Z.lor_0_l.
Qed.

(** Record route, router alert (4 bytes), VISA, SATID (4 bytes) and a source
    route: two of the five are recorded. *)
Definition demo_opts : list ipopt :=
  [Opt 7 [4; 0; 0; 0]; Opt 148 [0; 0]; Opt 142 [1; 2; 3]; Opt 136 [0; 1]; Opt 131 [4; 0; 0; 0; 0]].
Definition demo_opts_bytes : list Z := concat (map opt_bytes demo_opts) ++ [0; 0].
Definition demo_opts_state : pst :=
  mk_pst (fin_zero <| fin_fi := fi_zero <| fi_v := 4 |> |>) true true false
    48 (replicate 20 0 ++ demo_opts_bytes).
Lemma demo_opts_holds : holds demo_opts_state 20 demo_opts_bytes.
Proof.
  intros k b Hk.
  assert (Hc : forallb (fun k => match demo_opts_bytes !! k, read8 (20 + Z.of_nat k) demo_opts_state with
            | Some b, Some (b', _) => b' =? u8 b | _, _ => false end) (seq 0 28) = true)
    by (vm_compute; reflexivity).
  rewrite forallb_forall in Hc. pose proof (lookup_lt_Some _ _ _ Hk) as Hl.
  specialize (Hc k ltac:(apply in_seq; change (length demo_opts_bytes) with 28%nat in Hl; lia)).
  rewrite Hk in Hc. destruct (read8 _ _) as [[b' s']|] eqn:E; [|done].
  apply Z.eqb_eq in Hc as ->. by rewrite (wlp_run _ _ _ _ _ (looks_read8 _ _) E).
Qed.
Lemma v4_options_recorded_witness :
  holds demo_opts_state 20 demo_opts_bytes /\ opts_bits demo_opts = 0x202 /\
  v4_options false 48 demo_opts_state =
  Some (tt, demo_opts_state <| ps_fin ::= fun fin => or_flx FI_OPTIONS fin <| fin_fi ::= fun fi =>
    fi <| fi_optmsk := 0x202 |> <| fi_secmsk := 0 |> <| fi_auth := 0 |> |> |>).
Proof.
  split; [exact demo_opts_holds|]. split; [reflexivity|].
  refine (v4_options_recorded false demo_opts [0; 0] demo_opts_state _ _ _ demo_opts_holds).
  - repeat constructor; done.
  - by right.
  - done.
Defined.

(** ** Fragment and TCP headers in reach *)

(** Two bytes side by side, bit by bit. *)
Lemma bytes_lor a b : is_u8 b -> a * 256 + b = Z.lor (Z.shiftl a 8) b.
Proof.
  intros Hb. rewrite <- Z.add_nocarry_lor; [by rewrite Z.shiftl_mul_pow2|].
  apply Z.bits_inj'. intros n Hn. rewrite Z.land_spec, Z.bits_0.
  destruct (Z.lt_ge_cases n 8); [by rewrite Z.shiftl_spec_low|].
  rewrite <- (u8_id b Hb). unfold u8. by rewrite Z.mod_pow2_bits_high, andb_false_r by lia.
Qed.
Lemma land_u8 x m : is_u8 m -> is_u8 (Z.land x m).
Proof.
  intros Hm. rewrite <- (u8_id m Hm). unfold is_u8, u8. rewrite <- Z.land_ones by lia.
  rewrite Z.land_assoc, Z.land_ones by lia. apply Z.mod_pos_bound. lia.
Qed.
Lemma land_bytes a b m1 m0 : is_u8 b -> is_u8 m0 ->
  Z.land (a * 256 + b) (m1 * 256 + m0) = Z.land a m1 * 256 + Z.land b m0.
Proof.
  intros Hb Hm. rewrite !bytes_lor by auto using land_u8.
  apply Z.bits_inj'. intros n Hn. rewrite Z.land_spec, !Z.lor_spec, Z.land_spec.
  destruct (Z.lt_ge_cases n 8); [by rewrite !Z.shiftl_spec_low|].
  assert (Hhigh : forall x, is_u8 x -> Z.testbit x n = false).
  { intros x Hx. rewrite <- (u8_id x Hx). unfold u8. apply Z.mod_pow2_bits_high. lia. }
  rewrite !Z.shiftl_spec, Z.land_spec by lia. rewrite !(Hhigh _ Hb), !(Hhigh _ Hm).
  by rewrite !orb_false_r.
Qed.

(** Offset and more-fragments bit of an IPv6 fragment header, as sent. *)
Definition frag_offset (o0 o1 : Z) : Z := Z.land (o0 * 256 + o1) 0xfff8.
Lemma frag_masks be o0 o1 : is_u8 o0 -> is_u8 o1 ->
  ntohs be (Z.land (load16 be o0 o1) (IP6F_OFF_MASK be)) = frag_offset o0 o1 /\
  has (load16 be o0 o1) (IP6F_MORE_FRAG be) = has o1 1.
Proof.
  intros H0 H1. unfold frag_offset, has.
  assert (Hm : forall x m, is_u8 x -> 0 <= m < 256 -> is_u8 (Z.land x m))
    by (intros; apply land_u8; unfold is_u8; lia).
  change 0xfff8 with (255 * 256 + 248). rewrite land_bytes by (auto; unfold is_u8; lia).
  pose proof (Hm o0 255 H0 ltac:(lia)) as Ha. pose proof (Hm o1 248 H1 ltac:(lia)) as Hb.
  pose proof (land_bytes o0 o1 0 1 H1 ltac:(unfold is_u8; lia)) as E1.
  pose proof (land_bytes o1 o0 1 0 H0 ltac:(unfold is_u8; lia)) as E2.
  pose proof (land_bytes o1 o0 248 255 H0 ltac:(unfold is_u8; lia)) as E3.
  pose proof (land_bytes o0 o1 255 248 H1 ltac:(unfold is_u8; lia)) as E4.
  rewrite !Z.land_0_r in E1, E2.
  change (0 * 256 + 1) with 1 in E1. change (1 * 256 + 0) with 256 in E2.
  change (248 * 256 + 255) with 63743 in E3. change (255 * 256 + 248) with 65528 in E4.
  unfold load16, IP6F_OFF_MASK, IP6F_MORE_FRAG. destruct be.
  - rewrite E4, E1. split; [|done]. unfold ntohs. apply u16_id. unfold is_u16, is_u8 in *. lia.
  - rewrite (Z.add_comm o0), E3, E2. split.
    + unfold ntohs. rewrite u16_id by (unfold is_u16, is_u8 in *; lia).
      unfold swap16, is_u8 in *. dlia.
    + f_equal. apply eq_true_iff_eq. rewrite !Z.eqb_eq. lia.
Qed.

Section InReach.
Context (be : bool) {B : build}.

Lemma holds_sub s i l n l' : holds s i l -> (forall k b, l' !! k = Some b -> l !! (n + k)%nat = Some b) ->
  holds s (i + Z.of_nat n) l'.
Proof. intros H Hs k b Hk. rewrite <- Z.add_assoc, <- Nat2Z.inj_add. apply H. auto. Qed.

Lemma holds_read8 s i l n b : holds s i l -> l !! n = Some b -> read8 (i + Z.of_nat n) s = Some (u8 b, s).
Proof. intros H. apply H. Qed.
Lemma holds_read16 s i l n b0 b1 : holds s i l -> l !! n = Some b0 -> l !! S n = Some b1 ->
  read16 be (i + Z.of_nat n) s = Some (load16 be (u8 b0) (u8 b1), s).
Proof.
  intros H H0 H1. unfold read16, mbind, st_bind. rewrite (H _ _ H0).
  replace (i + Z.of_nat n + 1) with (i + Z.of_nat (S n)) by lia. by rewrite (H _ _ H1).
Qed.
Lemma holds_read32 s i l n b0 b1 b2 b3 : holds s i l ->
  l !! n = Some b0 -> l !! (n + 1)%nat = Some b1 -> l !! (n + 2)%nat = Some b2 ->
  l !! (n + 3)%nat = Some b3 ->
  read32 be (i + Z.of_nat n) s = Some (load32 be (u8 b0) (u8 b1) (u8 b2) (u8 b3), s).
Proof.
  intros H H0 H1 H2 H3. unfold read32, mbind, st_bind. rewrite (H _ _ H0).
  replace (i + Z.of_nat n + 1) with (i + Z.of_nat (n + 1)) by lia. rewrite (H _ _ H1).
  replace (i + Z.of_nat n + 2) with (i + Z.of_nat (n + 2)) by lia. rewrite (H _ _ H2).
  replace (i + Z.of_nat n + 3) with (i + Z.of_nat (n + 3)) by lia. by rewrite (H _ _ H3).
Qed.

(** No pull up is needed for bytes that are in reach. *)
Lemma holds_pr_pullup s l n : holds s (fin_dp (ps_fin s)) l -> l <> [] ->
  n <= Z.of_nat (length l) -> ipf_pr_pullup n s = Some (true, s).
Proof.
  intros H Hne Hn. unfold ipf_pr_pullup. destruct (ps_m s); [|done].
  destruct (l !! (length l - 1)%nat) as [b|] eqn:E; cycle 1.
  { apply lookup_ge_None in E. destruct l; [done|cbn in E; lia]. }
  pose proof (H _ _ E) as Hr. unfold read8 in Hr.
  destruct (ps_freed s || (ps_len s <=? _)) eqn:Ef; [done|].
  apply orb_false_iff in Ef as [_ Ef]. apply Z.leb_gt in Ef.
  assert (0 < length l)%nat by (destruct l; [done|cbn; lia]).
  rewrite (proj2 (Z.ltb_ge _ _)); [done|]. lia.
Qed.

Lemma exthdr_fragment_run s l :
  let fin := ps_fin s in
  holds s (fin_dp fin) l -> 8 <= Z.of_nat (length l) -> 8 <= fin_dlen fin ->
  has (fin_flx fin) FI_FRAG = true ->
  ipf_pr_ipv6exthdr false IPPROTO_FRAGMENT s =
  Some (Some (fin_dp fin), s <| ps_fin ::= fun fin => or_flx FI_V6EXTHDR fin
          <| fin_dp ::= fun x => x + 8 |> <| fin_dlen ::= fun x => x - 8 |> |>).
Proof.
  intros fin Hh Hl Hd Hf. unfold ipf_pr_ipv6exthdr, flag, upd, mbind, st_bind, modify, the, gets.
  set (s1 := s <| ps_fin ::= or_flx FI_V6EXTHDR |>).
  change (fin_dlen (ps_fin s1)) with (fin_dlen fin).
  rewrite (proj2 (Z.ltb_ge _ 0)) by lia.
  rewrite (holds_pr_pullup s1 l 8); [|by apply holds_fin|by destruct l|lia].
  cbn [negb]. change (IPPROTO_FRAGMENT =? IPPROTO_FRAGMENT) with true.
  unfold mret, st_ret. cbv iota. rewrite (proj2 (Z.ltb_ge _ 8)) by lia.
  set (s2 := s1 <| ps_fin ::= _ |>).
  replace (has (fin_flx (ps_fin s2)) FI_FRAG) with true; [done|].
  symmetry. by apply or_flx_frag.
Qed.
End InReach.

(** Symbolic execution of the first step of a routine. *)
Lemma run_upd {A} g (k : unit -> ST pst A) s : (upd g ≫= k) s = k tt (s <| ps_fin ::= g |>).
Proof. done. Qed.
Lemma run_flag {A} m (k : unit -> ST pst A) s :
  (flag m ≫= k) s = k tt (s <| ps_fin ::= or_flx m |>).
Proof. done. Qed.
Lemma run_upd_fi {A} g (k : unit -> ST pst A) s :
  (upd_fi g ≫= k) s = k tt (s <| ps_fin ::= fun fin => fin <| fin_fi ::= g |> |>).
Proof. done. Qed.
Lemma run_the {T A} (f : fr_info -> T) (k : T -> ST pst A) s : (the f ≫= k) s = k (f (ps_fin s)) s.
Proof. done. Qed.
Lemma run_ret {A A'} (a : A) (k : A -> ST pst A') s : (mret a ≫= k) s = k a s.
Proof. done. Qed.
(** A conditional flag. *)
Definition flagged (b : bool) (m : Z) (s : pst) : pst :=
  s <| ps_fin ::= or_flx (if b then m else 0) |>.
Lemma run_when_flag {A} b m (k : unit -> ST pst A) s :
  (when_ b (flag m) ≫= k) s = k tt (flagged b m s).
Proof.
  destruct b; [done|]. unfold when_, flagged. rewrite run_ret. f_equal. destruct s. cbn.
  by rewrite or_flx_0.
Qed.
Lemma holds_flagged b m s i l : holds s i l -> holds (flagged b m s) i l.
Proof. intros H. by apply holds_fin. Qed.
Lemma flagged_flx b m s k :
  has (fin_flx (ps_fin (flagged b m s))) k = has (fin_flx (ps_fin s)) k || (b && has m k).
Proof. unfold flagged, fin_flx. cbn. rewrite has_lor. by destruct b. Qed.
Lemma flagged_rest b m s :
  fin_dlen (ps_fin (flagged b m s)) = fin_dlen (ps_fin s) /\
  fin_dp (ps_fin (flagged b m s)) = fin_dp (ps_fin s) /\
  fin_off (ps_fin (flagged b m s)) = fin_off (ps_fin s).
Proof. done. Qed.
Ltac run := repeat first [rewrite run_upd | rewrite run_flag | rewrite run_upd_fi | rewrite run_the
  | rewrite run_ret | rewrite run_when_flag].

(** A fragment header of IPv6: the fields it gives and when it marks the packet
    bad.  The offset in the header counts bytes once the three low bits are
    masked, and the size check shifts it left by three again, so every fragment
    from byte 8192 on is marked [FI_BAD], however small the datagram is. *)
Theorem fragment6_summary be {B : build} s nxt res o0 o1 i0 i1 i2 i3 :
  let fin := ps_fin s in
  holds s (fin_dp fin) [nxt; res; o0; o1; i0; i1; i2; i3] -> is_u8 o0 -> is_u8 o1 ->
  8 <= fin_dlen fin ->
  let off := frag_offset o0 o1 in
  exists s', ipf_pr_fragment6 be s = Some (u8 nxt, s') /\
    fin_off (ps_fin s') = off /\ fin_dlen (ps_fin s') = fin_dlen fin - 8 /\
    fin_dp (ps_fin s') = fin_dp fin + 8 /\
    has (fin_flx (ps_fin s')) FI_FRAG = true /\
    has (fin_flx (ps_fin s')) FI_FRAGBODY = has (fin_flx fin) FI_FRAGBODY || negb (off =? 0) /\
    has (fin_flx (ps_fin s')) FI_BAD =
      has (fin_flx fin) FI_BAD || (has o1 1 && has (fin_plen fin) 7) ||
      (65535 <? 8 * off + (fin_dlen fin - 8)) /\
    (8192 <= off -> has (fin_flx (ps_fin s')) FI_BAD = true).
Proof.
  intros fin Hh H0 H1 Hd off. destruct (frag_masks be o0 o1 H0 H1) as [Hoff Hmore].
  fold off in Hoff. clearbody off.
  unfold ipf_pr_fragment6. run. set (s1 := s <| ps_fin ::= or_flx FI_FRAG |>).
  assert (Hh1 : holds s1 (fin_dp fin) [nxt; res; o0; o1; i0; i1; i2; i3]) by (apply holds_fin; [reflexivity|done]).
  erewrite bind_eq by (eapply (exthdr_fragment_run s1 _ Hh1); [cbn; lia|exact Hd|];
    unfold s1, fin_flx; cbn; by rewrite has_lor, orb_true_r).
  change (fin_dp (ps_fin s1)) with (fin_dp fin). cbv beta iota.
  set (s2 := s1 <| ps_fin ::= _ |>).
  assert (Hh2 : holds s2 (fin_dp fin) [nxt; res; o0; o1; i0; i1; i2; i3]) by (apply holds_fin; [reflexivity|done]).
  erewrite bind_eq by (apply (holds_read16 be s2 (fin_dp fin) _ 2 o0 o1 Hh2 eq_refl eq_refl)).
  rewrite !u8_id by done. run. rewrite Hmore, Hoff.
  set (b1 := has o1 1 && _).
  assert (E2 : (forall k, has (fin_flx (ps_fin s2)) k =
                  has (fin_flx fin) k || has FI_FRAG k || has FI_V6EXTHDR k) /\
      fin_dlen (ps_fin s2) = fin_dlen fin - 8 /\ fin_dp (ps_fin s2) = fin_dp fin + 8 /\
      b1 = has o1 1 && has (fin_plen fin) 7).
  { repeat split. intros k. unfold s2, s1, fin_flx. cbn. by rewrite !has_lor. }
  clearbody s2 b1. clear s1 Hh1. destruct E2 as (E2 & Ed2 & Ep2 & ->).
  erewrite bind_eq by (apply (holds_read32 be _ (fin_dp fin) _ 4 i0 i1 i2 i3 (holds_flagged _ _ _ _ _ Hh2));
    done).
  cbv zeta. rewrite run_upd. set (b1 := has o1 1 && _). set (s4 := flagged b1 _ _ <| ps_fin ::= _ |>).
  assert (Hh4 : holds s4 (fin_dp fin) [nxt; res; o0; o1; i0; i1; i2; i3])
    by (apply holds_fin; [reflexivity|by apply holds_flagged]).
  assert (E4 : (forall k, has (fin_flx (ps_fin s4)) k = has (fin_flx (ps_fin s2)) k || (b1 && has FI_BAD k)) /\
      fin_dlen (ps_fin s4) = fin_dlen fin - 8 /\ fin_dp (ps_fin s4) = fin_dp fin + 8 /\
      fin_off (ps_fin s4) = off).
  { split; [intros k; apply flagged_flx|]. by repeat split. }
  clearbody s4. destruct E4 as (E4 & Ed4 & Ep4 & Eo4).
  rewrite run_when_flag, run_the, run_when_flag, (proj1 (flagged_rest _ _ _)), Ed4.
  eexists. split.
  { apply holds_head with (l := [res; o0; o1; i0; i1; i2; i3]). by do 2 apply holds_flagged. }
  set (b3 := 65535 <? _). set (s5 := flagged _ FI_FRAGBODY s4).
  destruct (flagged_rest b3 FI_BAD s5) as (-> & -> & ->).
  destruct (flagged_rest (negb (off =? 0)) FI_FRAGBODY s4) as (Ed5 & Ep5 & Eo5). fold s5 in Ed5, Ep5, Eo5.
  split; [congruence|]. split; [congruence|]. split; [congruence|].
  unfold s5. rewrite !flagged_flx, !E4, !E2. unfold b3. clear b3 s5 Ed5 Ep5 Eo5.
  rewrite Z.shiftl_mul_pow2 by lia. change (2 ^ 3) with 8. rewrite (Z.mul_comm off 8).
  change (has FI_FRAG FI_FRAG) with true. change (has FI_BAD FI_BAD) with true.
  change (has FI_FRAGBODY FI_FRAGBODY) with true.
  change (has FI_FRAG FI_FRAGBODY) with false. change (has FI_V6EXTHDR FI_FRAGBODY) with false.
  change (has FI_BAD FI_FRAGBODY) with false. change (has FI_FRAG FI_BAD) with false.
  change (has FI_V6EXTHDR FI_BAD) with false. change (has FI_FRAGBODY FI_BAD) with false.
  rewrite ?orb_true_r, ?orb_false_r, ?andb_false_r, ?andb_true_r, ?orb_false_r.
  repeat split. intros Hbig. rewrite (proj2 (Z.ltb_lt 65535 _)) by lia. by rewrite orb_true_r.
Qed.

(** A fragment of eight bytes at byte 8192. *)
Definition v6_far_fragment : pst :=
  v6_state (replicate 40 0 ++ [17; 0; 0x20; 0; 0; 0; 0; 1] ++ replicate 8 0)
    <| ps_fin ::= fun fin => fin <| fin_dp := 40 |> <| fin_dlen := 16 |> <| fin_plen := 56 |> |>.
Lemma fragment6_summary_witness :
  frag_offset 0x20 0 = 8192 /\
  exists s', ipf_pr_fragment6 (B := user_build) false v6_far_fragment = Some (17, s') /\
    has (fin_flx (ps_fin s')) FI_BAD = true.
Proof.
  split; [reflexivity|].
  assert (Hh : holds v6_far_fragment 40 [17; 0; 0x20; 0; 0; 0; 0; 1]).
  { intros k b Hk. do 8 (destruct k as [|k]; [by injection Hk as <-|]). done. }
  destruct (fragment6_summary false (B := user_build) v6_far_fragment 17 0 0x20 0 0 0 0 1 Hh
              ltac:(vm_compute; split; congruence) ltac:(vm_compute; split; congruence)
              ltac:(vm_compute; congruence))
    as (s' & Hs & _ & _ & _ & _ & _ & _ & Hbad).
  exists s'. split; [exact Hs|]. apply Hbad. vm_compute. congruence.
Defined.

(** The combinations of TCP flags that are let through, mentioned one by one:
    with ACK anything but a SYN with URG or PUSH, without it a bare SYN or a bare
    RST; and an urgent pointer with URG. *)
Definition tcp_accepts (flags urp : Z) : bool :=
  (negb (has flags TH_URG) || negb (urp =? 0)) &&
  ((has flags TH_ACK && negb (has flags TH_SYN && has flags (Z.lor TH_URG TH_PUSH))) ||
   (Z.land flags 0x3f =? TH_SYN) || (Z.land flags 0x3f =? TH_RST)).

Lemma tcp_flags_table : forallb (fun n => forallb (fun u => forallb (fun a =>
    Bool.eqb (tcp_bad_flags (Z.of_nat n) u a) (negb (tcp_accepts (Z.of_nat n) u)))
  [0; 1]) [0; 1]) (seq 0 256) = true.
Proof. vm_compute. reflexivity. Qed.

Lemma tcp_bad_flags_accepts flags urp ack :
  is_u8 flags -> tcp_bad_flags flags urp ack = negb (tcp_accepts flags urp).
Proof.
  intros Hf. pose proof tcp_flags_table as H. rewrite forallb_forall in H.
  specialize (H (Z.to_nat flags) ltac:(apply in_seq; unfold is_u8 in Hf; lia)).
  rewrite Z2Nat.id in H by (unfold is_u8 in Hf; lia).
  rewrite forallb_forall in H. specialize (H (b2z (negb (urp =? 0)))
    ltac:(destruct (urp =? 0); cbn; tauto)).
  rewrite forallb_forall in H. specialize (H (b2z (negb (ack =? 0)))
    ltac:(destruct (ack =? 0); cbn; tauto)).
  apply eqb_prop in H. unfold tcp_bad_flags, tcp_accepts in *. rewrite !b2z_eqb_0, !negb_involutive in H.
  exact H.
Qed.

Lemma run_when {A} (b : bool) (m : ST pst unit) (k : unit -> ST pst A) s s1 :
  b = true -> m s = Some (tt, s1) -> (when_ b m ≫= k) s = k tt s1.
Proof. intros -> H. by rewrite (bind_eq _ _ _ _ _ H). Qed.

(** A TCP header in reach: source and destination port, sequence and
    acknowledgement numbers, data offset, flags, window, checksum and urgent
    pointer. *)
Record tcp_bytes := mk_tcp_bytes {
  tb_sport : Z * Z; tb_dport : Z * Z; tb_seq : list Z; tb_ack : Z * Z * Z * Z;
  tb_off : Z; tb_flags : Z; tb_win : Z * Z; tb_sum : Z * Z; tb_urp : Z * Z }.
Definition tcp_list (h : tcp_bytes) : list Z :=
  [fst (tb_sport h); snd (tb_sport h); fst (tb_dport h); snd (tb_dport h)] ++ tb_seq h ++
  [fst (fst (fst (tb_ack h))); snd (fst (fst (tb_ack h))); snd (fst (tb_ack h)); snd (tb_ack h);
   tb_off h; tb_flags h; fst (tb_win h); snd (tb_win h); fst (tb_sum h); snd (tb_sum h);
   fst (tb_urp h); snd (tb_urp h)].
Definition be16 (p : Z * Z) : Z := fst p * 256 + snd p.

(** The header length in bytes, and what is wrong with the header. *)
Definition tcp_hlen (h : tcp_bytes) : Z := 4 * (tb_off h / 16).
Definition tcp_bad (h : tcp_bytes) : bool :=
  (tcp_hlen h <? 20) || negb (tcp_accepts (tb_flags h) (be16 (tb_urp h))).

(** C23. [ipf_pr_tcpcommon] on a TCP header that is in reach with its options, at
    offset 0 of a packet that is not short: the ports are those of the header,
    and the packet is marked bad, with result 1, exactly when the header length
    is below 20 or the flags are not one of the accepted combinations; otherwise
    the result is 0 and the flags are recorded.  The acknowledgement number
    plays no part. *)
Theorem tcp_header_summary be {B : build} s h rest :
  let fin := ps_fin s in
  length (tb_seq h) = 4%nat -> Forall is_u8 (tcp_list h) ->
  holds s (fin_dp fin) (tcp_list h ++ rest) ->
  tcp_hlen h <= 20 + Z.of_nat (length rest) ->
  fin_off fin = 0 -> 20 <= fin_dlen fin ->
  has (fin_flx fin) FI_SHORT = false -> has (fin_flx fin) FI_BAD = false ->
  exists s', ipf_pr_tcpcommon be s = Some (if tcp_bad h then 1 else 0, s') /\
    has (fin_flx (ps_fin s')) FI_BAD = tcp_bad h /\
    has (fin_flx (ps_fin s')) FI_TCPUDP = true /\
    fin_sport (ps_fin s') = be16 (tb_sport h) /\ fin_dport (ps_fin s') = be16 (tb_dport h) /\
    (20 <= tcp_hlen h -> fin_tcpf (ps_fin s') = tb_flags h).
Proof.
  intros fin Hseq Hu Hh Hlen Hoff Hd Hs Hb.
  destruct h as [[sp0 sp1] [dp0 dp1] sq [[[a0 a1] a2] a3] xo fl [w0 w1] [c0 c1] [u0 u1]].
  destruct sq as [|q0 [|q1 [|q2 [|q3 [|]]]]]; try discriminate.
  unfold tcp_list, tcp_bad, tcp_hlen in *. cbn [fst snd tb_sport tb_dport tb_seq tb_ack tb_off tb_flags
    tb_win tb_sum tb_urp app] in *.
  repeat (apply Forall_cons in Hu as [? Hu]). clear Hu.
  unfold ipf_pr_tcpcommon. rewrite run_flag. set (s1 := s <| ps_fin ::= _ |>).
  set (l := _ :: _) in Hh.
  assert (Hh1 : holds s1 (fin_dp fin) l) by (by apply holds_fin).
  assert (E1 : fin_off (ps_fin s1) = 0 /\ fin_dlen (ps_fin s1) = fin_dlen fin /\
            fin_dp (ps_fin s1) = fin_dp fin /\
            (forall k, has (fin_flx (ps_fin s1)) k = has (fin_flx fin) k || has FI_TCPUDP k)).
  { repeat split; [done|]. intros k. unfold s1, fin_flx. cbn. by rewrite has_lor. }
  clearbody s1. destruct E1 as (Eo & Ed & Ep & Ef).
  rewrite run_the, Eo. cbn [Z.eqb negb]. rewrite run_the, Ed.
  assert (Hl : Z.of_nat (length l) = 20 + Z.of_nat (length rest))
    by (unfold l; cbn [length]; lia).
  assert (Hpull : forall s' n, holds s' (fin_dp (ps_fin s')) l -> n <= 20 + Z.of_nat (length rest) ->
            ipf_pr_pullup n s' = Some (true, s')).
  { intros s' n H' Hn. apply (holds_pr_pullup s' l n H'); [done|lia]. }
  rewrite (bind_eq _ _ _ true s1); cycle 1.
  { apply Hpull; [by rewrite Ep|]. unfold min_tcp. destruct (_ || _) eqn:E; breflect; lia. }
  cbn [negb]. rewrite run_the, Ep.
  set (s2 := s1 <| ps_fin ::= fun fin => fin <| fin_fi ::= fun fi =>
    fi <| fi_ports0 := sp0 * 256 + sp1 |> <| fi_ports1 := dp0 * 256 + dp1 |> |> |>).
  rewrite (run_when _ _ _ _ s2); [|apply Z.ltb_lt; lia|]; cycle 1.
  { rewrite <- (Z.add_0_r (fin_dp fin)) at 1.
    erewrite bind_eq by (apply (holds_read16 be s1 (fin_dp fin) l 0 sp0 sp1 Hh1); done).
    erewrite bind_eq by (apply (holds_read16 be s1 (fin_dp fin) l 2 dp0 dp1 Hh1); done).
    rewrite !u8_id, !ntohs_load16 by done. done. }
  assert (Hh2 : holds s2 (fin_dp fin) l) by (by apply holds_fin).
  assert (E2 : fin_dp (ps_fin s2) = fin_dp fin /\ fin_flx (ps_fin s2) = fin_flx (ps_fin s1) /\
            fin_sport (ps_fin s2) = sp0 * 256 + sp1 /\ fin_dport (ps_fin s2) = dp0 * 256 + dp1)
    by (repeat split; done).
  clearbody s2. destruct E2 as (Ep2 & Ef2 & Esp & Edp). rewrite run_the, Ef2, Ef, Hs. cbn [orb].
  change (has FI_TCPUDP FI_SHORT) with false. cbv iota.
  erewrite bind_eq by (apply (holds_read8 s2 (fin_dp fin) l 12 xo Hh2); done).
  rewrite u8_id by done. rewrite Z.shiftr_div_pow2, Z.shiftl_mul_pow2 by lia. change (2 ^ 4) with 16.
  change (2 ^ 2) with 4. rewrite (Z.mul_comm (xo / 16) 4). set (tlen := 4 * (xo / 16)) in *.
  assert (Hf2 : forall k, has (fin_flx (ps_fin s2)) k = has (fin_flx fin) k || has FI_TCPUDP k)
    by (intros; by rewrite Ef2).
  destruct (tlen <? 20) eqn:Et; cbn [orb].
  { rewrite run_flag. eexists. split; [reflexivity|]. unfold fin_flx at 1 2. cbn.
    rewrite !has_lor. fold (fin_flx (ps_fin s2)). rewrite !Hf2. breflect.
    repeat split; try done; [by rewrite orb_true_r|by rewrite !orb_true_r|lia]. }
  erewrite bind_eq by (apply (holds_read8 s2 (fin_dp fin) l 13 fl Hh2); done).
  rewrite u8_id by done. rewrite run_upd_fi. set (s3 := s2 <| ps_fin ::= _ |>).
  assert (Hh3 : holds s3 (fin_dp fin) l) by (by apply holds_fin).
  assert (E3 : fin_dp (ps_fin s3) = fin_dp fin /\ fin_flx (ps_fin s3) = fin_flx (ps_fin s2) /\
            fin_sport (ps_fin s3) = sp0 * 256 + sp1 /\ fin_dport (ps_fin s3) = dp0 * 256 + dp1 /\
            fin_tcpf (ps_fin s3) = fl) by (repeat split; done).
  clearbody s3. destruct E3 as (Ep3 & Ef3 & Esp3 & Edp3 & Etf).
  set (urp := if has fl TH_URG then load16 be u0 u1 else 0).
  rewrite (bind_eq _ _ _ urp s3); cycle 1.
  { unfold urp. destruct (has fl TH_URG); [|done].
    pose proof (holds_read16 be s3 (fin_dp fin) l 18 u0 u1 Hh3 eq_refl eq_refl) as E.
    rewrite !u8_id in E by done. exact E. }
  set (ack := if fl =? TH_SYN then load32 be a0 a1 a2 a3 else 0).
  rewrite (bind_eq _ _ _ ack s3); cycle 1.
  { unfold ack. destruct (fl =? TH_SYN); [|done].
    pose proof (holds_read32 be s3 (fin_dp fin) l 8 a0 a1 a2 a3 Hh3 eq_refl eq_refl eq_refl eq_refl) as E.
    rewrite !u8_id in E by done. exact E. }
  rewrite run_when_flag, tcp_bad_flags_accepts by done.
  replace (tcp_accepts fl urp) with (tcp_accepts fl (be16 (u0, u1))); cycle 1.
  { unfold tcp_accepts, urp, be16. cbn [fst snd]. destruct (has fl TH_URG); [|done]. cbn [negb orb].
    assert (Eu : (u0 * 256 + u1 =? 0) = (load16 be u0 u1 =? 0)); [|by rewrite Eu].
    apply eq_true_iff_eq. rewrite !Z.eqb_eq. unfold load16, is_u8 in *. destruct be; lia. }
  set (bad := negb (tcp_accepts fl (be16 (u0, u1)))). rewrite run_the.
  assert (Hf4 : forall k, has (fin_flx (ps_fin (flagged bad FI_BAD s3))) k =
            has (fin_flx fin) k || has FI_TCPUDP k || (bad && has FI_BAD k))
    by (intros; by rewrite flagged_flx, Ef3, Hf2).
  rewrite Hf4, Hb. change (has FI_TCPUDP FI_BAD) with false. change (has FI_BAD FI_BAD) with true.
  rewrite andb_true_r. cbn [orb]. set (s4 := flagged bad FI_BAD s3) in *.
  assert (E4 : holds s4 (fin_dp (ps_fin s4)) l /\
            fin_sport (ps_fin s4) = sp0 * 256 + sp1 /\ fin_dport (ps_fin s4) = dp0 * 256 + dp1 /\
            fin_tcpf (ps_fin s4) = fl).
  { unfold s4. destruct (flagged_rest bad FI_BAD s3) as (_ & -> & _). rewrite Ep3.
    split; [by apply holds_flagged|]. done. }
  clearbody s4. destruct E4 as (Hh4 & Esp4 & Edp4 & Etf4).
  assert (Hgoal : has (fin_flx (ps_fin s4)) FI_BAD = bad /\ has (fin_flx (ps_fin s4)) FI_TCPUDP = true).
  { rewrite !Hf4, Hb. change (has FI_BAD FI_TCPUDP) with false. rewrite andb_true_r, orb_true_r. done. }
  exists s4. split; [|tauto]. destruct bad; [done|].
  destruct (tlen =? 20); [done|]. by rewrite (bind_eq _ _ _ _ _ (Hpull s4 tlen Hh4 Hlen)).
Qed.

Definition demo_tcp : tcp_bytes :=
  mk_tcp_bytes (4, 0) (0, 80) [0; 0; 0; 1] (0, 0, 0, 0) 0x50 TH_SYN (16, 0) (0, 0) (0, 0).
Definition demo_tcp_state : pst :=
  mk_pst (fin_zero <| fin_fi := fi_zero <| fi_v := 4 |> |> <| fin_dp := 20 |> <| fin_hlen := 20 |>
    <| fin_dlen := 20 |>) true true false 40 (replicate 20 0 ++ tcp_list demo_tcp).
Lemma tcp_header_summary_witness :
  tcp_bad demo_tcp = false /\
  exists s', ipf_pr_tcpcommon (B := user_build) false demo_tcp_state = Some (0, s') /\
    fin_dport (ps_fin s') = 80 /\ has (fin_flx (ps_fin s')) FI_BAD = false.
Proof.
  split; [reflexivity|].
  assert (Hh : holds demo_tcp_state 20 (tcp_list demo_tcp ++ [])).
  { intros k b Hk. do 20 (destruct k as [|k]; [by injection Hk as <-|]). done. }
  destruct (tcp_header_summary false (B := user_build) demo_tcp_state demo_tcp [] eq_refl
    (bytes_ok (tcp_list demo_tcp) eq_refl) Hh ltac:(vm_compute; congruence) eq_refl ltac:(vm_compute; congruence)
    eq_refl eq_refl) as (s' & Hs & Hb & _ & _ & Hd & _).
  exists s'. split; [exact Hs|]. split; [exact Hd|exact Hb].
Defined.

(** ** Reading IPv4 packets safely *)

(** The search of [secopt] stays in the table. *)
Fixpoint sec_in_table (m : nat) (j sec : Z) : bool :=
  match (if j <? 0 then None else secopt !! Z.to_nat j) with
  | None => false
  | Some (val, _) =>
      (sec =? val) ||
      match m with
      | O => true
      | S m => sec_in_table m (if sec <? val then j - Z.of_nat (S m) else j + Z.of_nat (S m)) sec
      end
  end.
Lemma sec_table : forallb (fun n => sec_in_table 2 3 (Z.of_nat n)) (seq 0 256) = true.
Proof. vm_compute. reflexivity. Qed.
Lemma sec_in_table_u8 sec : is_u8 sec -> sec_in_table 2 3 sec = true.
Proof.
  intros H. pose proof sec_table as Ht. rewrite forallb_forall in Ht. unfold is_u8 in H.
  specialize (Ht (Z.to_nat sec) ltac:(apply in_seq; lia)). by rewrite Z2Nat.id in Ht by lia.
Qed.

(** A byte of a packet that is all in one buffer. *)
Lemma buffer_read8 s i b : ps_freed s = false -> fin_ipoff (ps_fin s) = 0 ->
  ps_len s = Z.of_nat (length (ps_bytes s)) -> 0 <= i -> ps_bytes s !! Z.to_nat i = Some b ->
  read8 i s = Some (u8 b, s).
Proof.
  intros Hf Ho Hl Hi E. pose proof (lookup_lt_Some _ _ _ E).
  unfold read8, rd8. rewrite Hf, Ho, Hl, Z.add_0_r.
  rewrite (proj2 (Z.leb_gt _ i)), (proj2 (Z.ltb_ge i 0)) by lia. cbn [orb]. by rewrite E.
Qed.

Section Safe4.
Context (be : bool) (minfragmtu : Z) (bs : list Z) (hlen plen : Z).
#[local] Existing Instance user_build.

(** A packet of [plen] bytes with a header of [hlen] bytes, all in one buffer,
    whose first byte says so. *)
Context (Hbytes : Forall is_u8 bs).
Context (Hvhl : exists vhl rest, bs = vhl :: rest /\ Z.shiftr vhl 4 = 4 /\
                                 Z.shiftl (Z.land vhl 15) 2 = hlen).
Context (Hhlen : 20 <= hlen <= Z.of_nat (length bs)) (Hplen : plen <= Z.of_nat (length bs)).
Context (Hmax : plen <= 65535).
Local Abbreviation len := (Z.of_nat (length bs)).

(** The state while such a packet is parsed; [p] is [ip_p]. *)
Record reading (p : Z) (s : pst) : Prop := {
  rd_freed : ps_freed s = false;
  rd_bytes : ps_bytes s = bs;
  rd_len : ps_len s = len;
  rd_ipoff : fin_ipoff (ps_fin s) = 0;
  rd_plen : fin_plen (ps_fin s) = plen;
  rd_hlen : fin_hlen (ps_fin s) = hlen;
  rd_p : fin_p (ps_fin s) = p;
  rd_dp : hlen <= fin_dp (ps_fin s) /\ (p <> IPPROTO_AH -> fin_dp (ps_fin s) = hlen);
  rd_dlen : fin_dlen (ps_fin s) = plen - fin_dp (ps_fin s);
  rd_off : fin_off (ps_fin s) = 0 \/ has (fin_flx (ps_fin s)) FI_FRAG = true }.

(** A step that leaves the position and only adds flags. *)
Record extends (p : Z) (s s' : pst) : Prop := {
  ex_reading : reading p s';
  ex_m : ps_m s' = ps_m s;
  ex_dp : fin_dp (ps_fin s') = fin_dp (ps_fin s);
  ex_off : fin_off (ps_fin s') = fin_off (ps_fin s);
  ex_flx : forall k, has (fin_flx (ps_fin s)) k = true -> has (fin_flx (ps_fin s')) k = true }.

Lemma extends_refl p s : reading p s -> extends p s s.
Proof. by split. Qed.

(** Updates that do not touch what [reading] speaks of. *)
Definition harmless (g : fr_info -> fr_info) : Prop := forall fin,
  fin_ipoff (g fin) = fin_ipoff fin /\ fin_plen (g fin) = fin_plen fin /\
  fin_hlen (g fin) = fin_hlen fin /\ fin_p (g fin) = fin_p fin /\ fin_dp (g fin) = fin_dp fin /\
  fin_dlen (g fin) = fin_dlen fin /\ fin_off (g fin) = fin_off fin /\
  (forall k, has (fin_flx fin) k = true -> has (fin_flx (g fin)) k = true).

Lemma harmless_extends p g s : harmless g -> reading p s -> extends p s (s <| ps_fin ::= g |>).
Proof.
  intros Hg [H1 H2 H3 H4 H5 H6 H7 H8 H9 H10].
  destruct (Hg (ps_fin s)) as (E1 & E2 & E3 & E4 & E5 & E6 & E7 & E8).
  split; [split|..]; cbn; rewrite ?E1, ?E2, ?E3, ?E4, ?E5, ?E6, ?E7; auto.
  destruct H10 as [H|H]; [by left|right; auto].
Qed.
Lemma harmless_or_flx m : harmless (or_flx m).
Proof. intros fin. repeat split. intros k H. unfold fin_flx in *. cbn. by rewrite has_lor, H. Qed.

Lemma wp_upd p g Q s : harmless g -> reading p s ->
  (forall s', extends p s s' -> Q tt s') -> wp (upd g) Q s.
Proof. intros Hg Hs HQ. unfold upd. rewrite wp_modify. by apply HQ, harmless_extends. Qed.
Lemma wp_flag p m Q s : reading p s ->
  (forall s', extends p s s' -> has (fin_flx (ps_fin s')) m = has (fin_flx (ps_fin s)) m || has m m -> Q tt s') ->
  wp (flag m) Q s.
Proof.
  intros Hs HQ. unfold flag, upd. rewrite wp_modify. apply HQ.
  - apply harmless_extends; [apply harmless_or_flx|done].
  - unfold fin_flx. cbn. by rewrite has_lor.
Qed.

Lemma reading_read8 p i s : reading p s -> 0 <= i < len ->
  exists b, bs !! Z.to_nat i = Some b /\ is_u8 b /\ read8 i s = Some (b, s).
Proof.
  intros Hs Hi. destruct (lookup_lt_is_Some_2 bs (Z.to_nat i)) as [b E]; [lia|].
  exists b. assert (is_u8 b) by (by eapply Forall_lookup_1). do 2 (split; [done|]).
  rewrite <- (u8_id b) by done.
  apply buffer_read8; rewrite ?(rd_bytes _ _ Hs); (apply Hs || lia || done).
Qed.
Lemma wp_read8 p i Q s : reading p s -> 0 <= i < len ->
  (forall b, bs !! Z.to_nat i = Some b -> is_u8 b -> Q b s) -> wp (read8 i) Q s.
Proof.
  intros Hs Hi HQ. destruct (reading_read8 p i s Hs Hi) as (b & E & Hb & Er).
  unfold wpg. rewrite Er. auto.
Qed.
Lemma wp_read16 p i Q s : reading p s -> 0 <= i -> i + 2 <= len ->
  (forall b0 b1, is_u8 b0 -> is_u8 b1 -> Q (load16 be b0 b1) s) -> wp (read16 be i) Q s.
Proof.
  intros Hs Hi Hl HQ. unfold read16. rewrite wp_bind. apply (wp_read8 p); [done|lia|]. intros b0 _ H0.
  rewrite wp_bind. apply (wp_read8 p); [done|lia|]. intros b1 _ H1. rewrite wp_ret. auto.
Qed.
Lemma wp_read32 p i Q s : reading p s -> 0 <= i -> i + 4 <= len ->
  (forall v, Q v s) -> wp (read32 be i) Q s.
Proof.
  intros Hs Hi Hl HQ. unfold read32.
  do 4 (rewrite wp_bind; apply (wp_read8 p); [done|lia|]; intros ? _ _). rewrite wp_ret. auto.
Qed.
Lemma wp_pull p n Q s : reading p s -> ps_m s = true ->
  (fin_dp (ps_fin s) + n <= len -> Q true s) -> (forall s', reading p s' -> Q false s') ->
  wp (ipf_pr_pullup n) Q s.
Proof.
  intros Hs Hm Ht Hf. unfold wpg, ipf_pr_pullup. rewrite Hm, (rd_ipoff _ _ Hs), (rd_len _ _ Hs).
  destruct (Z.ltb_spec len (n + (fin_dp (ps_fin s) - fin_hlen (ps_fin s)) + fin_hlen (ps_fin s) + 0)).
  - cbn [ipf_pullup user_build]. unfold user_pullup. rewrite (rd_len _ _ Hs).
    rewrite (proj2 (Z.leb_gt _ _)) by lia. apply Hf.
    destruct Hs. by split.
  - apply Ht. lia.
Qed.
Lemma wp_short p n Q s : reading p s ->
  (forall s', extends p s s' ->
    (fin_off (ps_fin s) = 0 -> fin_dlen (ps_fin s) < n -> has (fin_flx (ps_fin s')) FI_SHORT = true) ->
    Q tt s') ->
  wp (ipf_pr_short n) Q s.
Proof.
  intros Hs HQ. unfold ipf_pr_short, upd. rewrite wp_modify. apply HQ.
  - apply harmless_extends; [|done]. intros fin.
    repeat case_match; (apply harmless_or_flx || done).
  - intros E Hd. cbn. rewrite E, (proj2 (Z.ltb_lt _ _) Hd). unfold fin_flx. cbn. rewrite has_lor.
    by rewrite orb_true_r.
Qed.

(** The checksum is only taken of packets that hold its field. *)
Definition sum_ok (p : Z) (s : pst) : Prop :=
  has (fin_flx (ps_fin s)) FI_FRAG = true \/ has (fin_flx (ps_fin s)) FI_SHORT = true \/
  forall co, csum_offset p = Some co -> hlen + co + 2 <= plen.

Lemma checkl4sum_total p s : reading p s -> sum_ok p s ->
  exists r c, ipf_checkl4sum be (ps_fin s) bs = Some ((r, ps_fin s <| fin_cksum := c |>), bs).
Proof.
  intros Hs Hok.
  assert (Hsame : ps_fin s = ps_fin s <| fin_cksum := fin_cksum (ps_fin s) |>)
    by (destruct s as [[]]; done).
  destruct (Z.eqb_spec (Z.land (fin_flx (ps_fin s)) (Z.lor (Z.lor FI_FRAG FI_SHORT) FI_BAD)) 0) as [E0|E0];
    cycle 1.
  { unfold ipf_checkl4sum. rewrite (proj2 (Z.eqb_neq _ _) E0). cbn [negb].
    exists 1, (fin_cksum (ps_fin s)). by rewrite <- Hsame. }
  destruct (csum_offset p) as [co|] eqn:Eco; cycle 1.
  { unfold ipf_checkl4sum. rewrite E0, (rd_p _ _ Hs), Eco. cbn [Z.eqb negb].
    exists 1, (fin_cksum (ps_fin s)). by rewrite <- Hsame. }
  assert (Hfit : hlen + co + 2 <= plen).
  { destruct Hok as [H|[H|H]]; [exfalso|exfalso|by apply H];
      revert H; unfold has; rewrite negb_true_iff, Z.eqb_neq; intros H; apply H;
      rewrite !Z.land_lor_distr_r, !Z.lor_eq_0_iff in E0; tauto. }
  assert (Hco : 0 <= co /\ p <> IPPROTO_AH).
  { unfold csum_offset in Eco. split.
    - repeat case_match; simplify_eq; lia.
    - intros ->. discriminate. }
  set (hdr := take (Z.to_nat hlen) bs). set (rest := drop (Z.to_nat hlen) bs).
  set (seg := take (Z.to_nat (plen - hlen)) rest). set (trailer := drop (Z.to_nat (plen - hlen)) rest).
  assert (Hseg : length seg = Z.to_nat (plen - hlen))
    by (unfold seg, rest; rewrite length_take, length_drop; lia).
  set (a := take (Z.to_nat co) seg). set (t := drop (Z.to_nat co) seg).
  assert (Ht : (2 <= length t)%nat) by (unfold t; rewrite length_drop; lia).
  destruct t as [|c0 [|c1 b]] eqn:Et; [cbn in Ht; lia..|].
  assert (Eb : bs = hdr ++ a ++ c0 :: c1 :: b ++ trailer).
  { change (a ++ c0 :: c1 :: b ++ trailer) with (a ++ (c0 :: c1 :: b) ++ trailer).
    rewrite <- Et, (app_assoc a t). unfold a, t. rewrite take_drop. unfold seg, trailer.
    rewrite take_drop. unfold rest, hdr. by rewrite take_drop. }
  assert (Lh : Z.of_nat (length hdr) = hlen) by (unfold hdr; rewrite length_take; lia).
  assert (La : Z.of_nat (length a) = co) by (unfold a; rewrite length_take; lia).
  assert (Hp : ipv4_packet (ps_fin s) (fin_p (ps_fin s)) hdr a c0 c1 b trailer).
  { split.
    - by rewrite <- Eb.
    - destruct Hvhl as (vhl & r & Ev & H4 & Hl).
      exists vhl, (take (Z.to_nat (hlen - 1)) r). rewrite Lh. split; [|done].
      unfold hdr. rewrite Ev. replace (Z.to_nat hlen) with (S (Z.to_nat (hlen - 1))) by lia. done.
    - lia.
    - rewrite (rd_plen _ _ Hs), Lh. replace (a ++ c0 :: c1 :: b) with seg; [lia|].
      rewrite <- Et. unfold a, t. by rewrite take_drop.
    - by rewrite (rd_plen _ _ Hs).
    - by rewrite (rd_p _ _ Hs), Eco, La. }
  rewrite Eb. rewrite (checkl4sum_run be (ps_fin s) hdr a c0 c1 b trailer Hp); [|rewrite Lh; apply (rd_dp _ _ Hs), Hco|done].
  destruct (_ || _); eexists _, _; reflexivity.
Qed.

Lemma wp_checkv4sum p s : reading p s -> sum_ok p s ->
  wp (ipf_checkv4sum be) (fun _ => reading p) s.
Proof.
  intros Hs Hok. unfold ipf_checkv4sum. rewrite wp_bind. unfold the. rewrite wp_gets.
  destruct (has _ FI_SHORT); [by rewrite wp_ret|]. rewrite wp_bind.
  apply (wp_mono _ _ (fun _ => reading p)).
  - destruct (checkl4sum_total p s Hs Hok) as (r & c & E). unfold wpg, checkl4sum.
    rewrite (rd_freed _ _ Hs), (rd_len _ _ Hs), (rd_ipoff _ _ Hs), (rd_bytes _ _ Hs).
    replace (Z.to_nat (len - 0)) with (length bs) by lia. rewrite firstn_all, E, drop_all, app_nil_r.
    destruct Hs. by split.
  - intros r s1 H1. destruct (r =? -1); [|by rewrite wp_ret].
    rewrite wp_bind. apply (wp_flag p); [done|]. intros s2 H2 _. rewrite wp_ret. apply H2.
Qed.

Lemma extends_trans p s1 s2 s3 : extends p s1 s2 -> extends p s2 s3 -> extends p s1 s3.
Proof. intros [] []. split; [done|congruence..|auto]. Qed.

Lemma wp_upd_fi p g Q s : (forall fi, fi_flx (g fi) = fi_flx fi /\ fi_p (g fi) = fi_p fi) ->
  reading p s -> (forall s', extends p s s' -> Q tt s') -> wp (upd_fi g) Q s.
Proof.
  intros Hg. apply wp_upd. intros fin. unfold fin_flx, fin_p. cbn.
  destruct (Hg (fin_fi fin)) as [-> ->]. done.
Qed.
Lemma wp_when_flag p b m Q s : reading p s -> (forall s', extends p s s' -> Q tt s') ->
  wp (when_ b (flag m)) Q s.
Proof.
  intros Hs HQ. apply wp_when; intros _.
  - apply (wp_flag p); [done|]. auto.
  - by apply HQ, extends_refl.
Qed.

(** One step of the walk through a routine: the state after it extends [s]. *)
Ltac step4 := rewrite wp_bind;
  lazymatch goal with
  | |- wp (the _) _ _ => unfold the at 1; rewrite wp_gets
  | H : reading ?p ?s |- wp (flag _) _ ?s => apply (wp_flag p); [exact H|]
  | H : reading ?p ?s |- wp (upd_fi _) _ ?s => apply (wp_upd_fi p); [done|exact H|]
  | H : reading ?p ?s |- wp (when_ _ (flag _)) _ ?s => apply (wp_when_flag p); [exact H|]
  | H : reading ?p ?s |- wp (read8 _) _ ?s => apply (wp_read8 p); [exact H|lia|intros ? _ ?]
  | H : reading ?p ?s |- wp (read16 _ _) _ ?s => apply (wp_read16 p); [exact H|lia|lia|intros ? ? ? ?]
  | H : reading ?p ?s |- wp (read32 _ _) _ ?s => apply (wp_read32 p); [exact H|lia|lia|intros ?]
  end.

Lemma reading_dp p s : reading p s -> 20 <= fin_dp (ps_fin s).
Proof. intros H. pose proof (proj1 (rd_dp _ _ H)). lia. Qed.

Lemma tcp_sum_ok p s s' : p = IPPROTO_TCP \/ p = IPPROTO_AH ->
  reading p s -> 20 <= fin_dlen (ps_fin s) -> sum_ok p s'.
Proof.
  intros Hp Hs Hd. right. right. intros co Hco. destruct Hp as [->| ->]; [|discriminate].
  injection Hco as <-. rewrite (rd_dlen _ _ Hs), (proj2 (rd_dp _ _ Hs)) in Hd by done. lia.
Qed.

Lemma wp_tcpcommon p s :
  reading p s -> ps_m s = true -> p = IPPROTO_TCP \/ p = IPPROTO_AH ->
  (fin_off (ps_fin s) = 0 -> fin_dlen (ps_fin s) < 20 -> has (fin_flx (ps_fin s)) FI_SHORT = true) ->
  wp (ipf_pr_tcpcommon be) (fun r s' => reading p s' /\ (r = 0 -> sum_ok p s')) s.
Proof.
  intros Hs Hm Hp Hshort. unfold ipf_pr_tcpcommon. step4.
  intros s1 [Hs1 Em1 Ed1 Eo1 Ef1] _. step4.
  destruct (Z.eqb_spec (fin_off (ps_fin s1)) 0) as [Eoff|Eoff]; cbn [negb]; cycle 1.
  { rewrite wp_ret. split; [done|]. intros _. left. by destruct (rd_off _ _ Hs1). }
  step4. set (dlen := fin_dlen (ps_fin s1)).
  assert (Ed : dlen = fin_dlen (ps_fin s)) by (unfold dlen; rewrite (rd_dlen _ _ Hs1), (rd_dlen _ _ Hs); lia).
  pose proof (reading_dp _ _ Hs1) as Hdp.
  rewrite wp_bind. apply (wp_pull p); [done|congruence| |]; cycle 1.
  { intros s' H'. cbn [negb]. rewrite wp_ret. by split. }
  intros Hpull. cbn [negb]. step4. set (dp := fin_dp (ps_fin s1)) in *. 
  rewrite wp_bind. apply (wp_mono _ _ (fun _ => extends p s1)).
  { apply wp_when; intros Hd; [|by apply extends_refl].
    assert (4 <= min_tcp dlen) by (unfold min_tcp; apply Z.ltb_lt in Hd; destruct (_ || _); lia).
    step4. step4. apply (wp_upd_fi p); [done|done|]. done. }
  intros _ s2 [Hs2 Em2 Ed2 Eo2 Ef2]. step4.
  destruct (has (fin_flx (ps_fin s2)) FI_SHORT) eqn:Es; [by rewrite wp_ret|].
  assert (Hd20 : 20 <= dlen).
  { apply Z.nlt_ge. intros Hlt. rewrite (Ef2 FI_SHORT) in Es; [done|]. apply Ef1, Hshort; congruence || lia. }
  assert (Hp20 : dp + 20 <= len)
    by (unfold min_tcp in Hpull; destruct (_ || _) eqn:E; breflect; lia).
  step4. set (tlen := Z.shiftl _ 2). destruct (tlen <? 20).
  { step4. intros s3 [Hs3 _ _ _ _] _. by rewrite wp_ret. }
  step4. step4. intros s3 [Hs3 Em3 Ed3 Eo3 Ef3].
  rewrite wp_bind. apply (wp_mono _ _ (fun _ s' => s' = s3)).
  { destruct (has b0 TH_URG); [|done]. apply (wp_read16 p); [done|lia|lia|done]. }
  intros urp ? ->. rewrite wp_bind. apply (wp_mono _ _ (fun _ s' => s' = s3)).
  { destruct (b0 =? TH_SYN); [|done]. apply (wp_read32 p); [done|lia|lia|done]. }
  intros ack ? ->. step4. intros s4 [Hs4 Em4 Ed4 Eo4 Ef4]. step4.
  destruct (has _ FI_BAD); [by rewrite wp_ret|].
  assert (Hok : forall s', sum_ok p s').
  { intros s'. apply (tcp_sum_ok p s1 s' Hp Hs1). done. }
  destruct (tlen =? 20); [rewrite wp_ret; by split|].
  rewrite wp_bind. apply (wp_pull p); [done|congruence| |]; intros; rewrite wp_ret; by split.
Qed.

Lemma wp_tcp p s : reading p s -> ps_m s = true -> p = IPPROTO_TCP \/ p = IPPROTO_AH ->
  wp (ipf_pr_tcp be) (fun _ => reading p) s.
Proof.
  intros Hs Hm Hp. unfold ipf_pr_tcp. rewrite wp_bind. apply (wp_short p); [done|].
  intros s1 [Hs1 Em Ed Eo Ef] Hshort. rewrite wp_bind.
  eapply wp_mono; [apply (wp_tcpcommon p); [done|congruence|done|]|].
  - rewrite Eo, (rd_dlen _ _ Hs1), Ed, <- (rd_dlen _ _ Hs). exact Hshort.
  - intros r s2 [Hs2 Hok]. apply wp_when; [|done]. intros Hr%Z.eqb_eq.
    rewrite wp_bind. eapply wp_mono; [apply (wp_checkv4sum p); auto|]. auto.
Qed.

Lemma dlen_extends p s s' : reading p s -> extends p s s' -> fin_dlen (ps_fin s') = fin_dlen (ps_fin s).
Proof. intros Hs [Hs' _ Ed _ _]. rewrite (rd_dlen _ _ Hs'), Ed. symmetry. apply (rd_dlen _ _ Hs). Qed.

(** [ipf_pr_short] with its result for the states after it. *)
Lemma wp_short_keep p n Q s : reading p s ->
  (forall s', extends p s s' ->
    (fin_off (ps_fin s') = 0 -> has (fin_flx (ps_fin s')) FI_SHORT = true \/ n <= fin_dlen (ps_fin s')) ->
    Q tt s') ->
  wp (ipf_pr_short n) Q s.
Proof.
  intros Hs HQ. apply (wp_short p); [done|]. intros s' He Hshort. apply HQ; [done|].
  intros Ho. rewrite (dlen_extends p s s' Hs He).
  destruct (Z.lt_ge_cases (fin_dlen (ps_fin s)) n) as [Hd|Hd]; [left|by right].
  apply Hshort; [|done]. by rewrite <- Ho, (ex_off _ _ _ He).
Qed.

Lemma field_sum_ok p s s' n : reading p s -> reading p s' ->
  (forall co, csum_offset p = Some co -> co + 2 <= n) ->
  (forall k, has (fin_flx (ps_fin s)) k = true -> has (fin_flx (ps_fin s')) k = true) ->
  (fin_off (ps_fin s) = 0 -> has (fin_flx (ps_fin s)) FI_SHORT = true \/ n <= fin_dlen (ps_fin s)) ->
  sum_ok p s'.
Proof.
  intros Hs Hs' Hn Hf Hshort. destruct (rd_off _ _ Hs) as [Ho|Ho]; [|left; auto].
  destruct (Hshort Ho) as [H|H]; [right; left; auto|right; right].
  intros co Hco. specialize (Hn co Hco). rewrite (rd_dlen _ _ Hs) in H.
  assert (fin_dp (ps_fin s) = hlen); [|lia].
  apply (rd_dp _ _ Hs). intros ->. discriminate.
Qed.

Lemma wp_udp p s : reading p s -> ps_m s = true -> p = IPPROTO_UDP \/ p = IPPROTO_AH ->
  wp (ipf_pr_udp be) (fun _ => reading p) s.
Proof.
  intros Hs Hm Hp. unfold ipf_pr_udp. rewrite wp_bind. apply (wp_short_keep p); [done|].
  intros s1 [Hs1 Em Ed Eo Ef] Hshort. rewrite wp_bind.
  assert (Hco : forall co, csum_offset p = Some co -> co + 2 <= 8)
    by (intros co; destruct Hp as [->| ->]; intros [= <-]; lia).
  apply (wp_mono _ _ (fun r s' => reading p s' /\ (r = 0 -> sum_ok p s'))); cycle 1.
  { intros r s2 [Hs2 Hok]. apply wp_when; [|done]. intros Hr%Z.eqb_eq.
    rewrite wp_bind. eapply wp_mono; [apply (wp_checkv4sum p); auto|]. auto. }
  unfold ipf_pr_udpcommon. step4. intros s2 [Hs2 Em2 Ed2 Eo2 Ef2] _. step4. step4.
  pose proof (reading_dp _ _ Hs2).
  assert (Hshort2 : fin_off (ps_fin s2) = 0 ->
            has (fin_flx (ps_fin s2)) FI_SHORT = true \/ 8 <= fin_dlen (ps_fin s2)).
  { rewrite Eo2. intros Ho. destruct (Hshort Ho) as [H'|H']; [left; auto|right].
    rewrite (rd_dlen _ _ Hs2), Ed2, <- (rd_dlen _ _ Hs1). done. }
  destruct ((fin_off (ps_fin s2) =? 0) && (3 <? fin_dlen (ps_fin s2))); cycle 1.
  { rewrite wp_ret. split; [done|]. intros _. by apply (field_sum_ok p s2 s2 8). }
  rewrite wp_bind. apply (wp_pull p); [done|congruence| |].
  - intros Hpull. cbn [negb]. step4. step4. step4. step4. intros s3 [Hs3 Em3 Ed3 Eo3 Ef3].
    rewrite wp_ret. split; [done|]. intros _. by apply (field_sum_ok p s2 s3 8).
  - intros s3 Hs3. cbn [negb]. step4. intros s4 [Hs4 _ _ _ _] _. rewrite wp_ret. by split.
Qed.

Lemma wp_esp p s : reading p s -> ps_m s = true -> wp ipf_pr_esp (fun _ => reading p) s.
Proof.
  intros Hs Hm. unfold ipf_pr_esp. step4. apply wp_when; [|done]. intros _.
  rewrite wp_bind. apply (wp_short p); [done|]. intros s1 [Hs1 Em _ _ _] _.
  rewrite wp_bind. apply (wp_pull p); [done|congruence| |]; intros; by rewrite wp_ret.
Qed.

Lemma wp_gre p s : reading p s -> ps_m s = true -> wp (ipf_pr_gre be) (fun _ => reading p) s.
Proof.
  intros Hs Hm. unfold ipf_pr_gre. rewrite wp_bind. apply (wp_short p); [done|].
  intros s1 [Hs1 Em Ed _ _] _. step4. destruct (negb _); [by rewrite wp_ret|].
  rewrite wp_bind. pose proof (reading_dp _ _ Hs1). apply (wp_pull p); [done|congruence| |].
  - intros Hpull. cbn [negb]. step4. step4. apply wp_when; [|done]. intros _. step4.
    apply (wp_upd_fi p); [done|done|]. by intros s2 [].
  - intros s2 Hs2. cbn [negb]. by rewrite wp_ret.
Qed.

(** The quoted header of an ICMP error that starts at offset [i] is there, unless
    not even the ICMP header is. *)
Definition icmp_fits (i : Z) : Prop :=
  forall t, bs !! Z.to_nat i = Some t -> icmp_error t = true -> i + 8 <= len -> i + 24 <= len.

Lemma wp_icmp_error p t s : reading p s -> ps_m s = true ->
  fin_dp (ps_fin s) + 24 <= len ->
  wp (ipf_pr_icmp_error be minfragmtu t) (fun _ => extends p s) s.
Proof.
  intros Hs Hm Hfit. pose proof (reading_dp _ _ Hs). unfold ipf_pr_icmp_error. step4.
  rewrite wp_bind. apply (wp_mono _ _ (fun _ => extends p s)).
  { apply wp_when; intros _; [|by apply extends_refl]. step4.
    apply wp_when; intros _; [|by apply extends_refl]. step4.
    apply (wp_when_flag p); [done|]. auto. }
  intros _ s1 [Hs1 Em1 Ed1 Eo1 Ef1]. step4. intros s2 [Hs2 Em2 Ed2 Eo2 Ef2] _.
  assert (He2 : extends p s s2) by (split; [done|congruence..|auto]).
  rewrite wp_bind. apply (wp_mono _ _ (fun _ s' => s' = s2)).
  { unfold ipf_coalesce. step4. rewrite wp_bind, wp_gets. destruct (has _ FI_COALESCE); [done|].
    destruct (negb (ps_m s2)); [done|]. done. }
  intros r s3 ->. destruct (negb (r =? 1)); [by rewrite wp_ret|].
  step4. unfold ICMPERR_ICMPHLEN. step4. step4. intros s3 H3. pose proof H3 as [Hs3 Em3 Ed3 Eo3 Ef3].
  step4. step4. step4. intros s4 H4. rewrite wp_ret.
  apply (extends_trans p s s2); [done|]. by apply (extends_trans p s2 s3).
Qed.

Lemma wp_icmp p s : reading p s -> ps_m s = true -> p = IPPROTO_ICMP \/ p = IPPROTO_AH ->
  icmp_fits (fin_dp (ps_fin s)) ->
  wp (ipf_pr_icmp be minfragmtu) (fun _ => reading p) s.
Proof.
  intros Hs Hm Hp Hfit. unfold ipf_pr_icmp. rewrite wp_bind.
  assert (Hco : forall co, csum_offset p = Some co -> co + 2 <= 8)
    by (intros co; destruct Hp as [->| ->]; intros [= <-]; lia).
  apply (wp_short_keep p); [done|]. intros s1 He1 Hshort. pose proof He1 as [Hs1 Em1 Ed1 Eo1 Ef1].
  step4. destruct (Z.eqb_spec (fin_off (ps_fin s1)) 0) as [Eoff|]; cbn [negb]; [|by rewrite wp_ret].
  pose proof (reading_dp _ _ Hs1).
  rewrite wp_bind. apply (wp_pull p); [done|congruence| |]; cycle 1.
  { intros s2 Hs2. cbn [negb]. by rewrite wp_ret. }
  unfold ICMPERR_ICMPHLEN. intros Hpull. cbn [negb]. step4. step4. step4. step4.
  intros s2 He2. pose proof He2 as [Hs2 Em2 Ed2 Eo2 Ef2].
  assert (Hdone : forall s3 n, extends p s2 s3 ->
            wp (ipf_pr_short n;; ipf_checkv4sum be;; mret tt) (fun _ => reading p) s3).
  { intros s3 n [Hs3 Em3 Ed3 Eo3 Ef3]. rewrite wp_bind. apply (wp_short p); [done|].
    intros s4 [Hs4 Em4 Ed4 Eo4 Ef4] _. rewrite wp_bind.
    eapply wp_mono; [apply (wp_checkv4sum p); [done|]|by intros; rewrite wp_ret].
    apply (field_sum_ok p s1 s4 8); auto. }
  rewrite wp_bind. apply (wp_read8 p); [done|lia|]. intros t Et _.
  destruct (icmp_query t) as [n|].
  { step4. intros s3 He3 _. by apply Hdone. }
  rewrite wp_bind. apply (wp_mono _ _ (fun _ => extends p s2)).
  { destruct (icmp_error t) eqn:Eerr; [|by apply extends_refl].
    apply (wp_icmp_error p); [done|congruence|]. rewrite Ed2.
    rewrite Ed1 in Et, Hpull |- *. apply (Hfit t); (done || lia). }
  intros go s3 He3. apply wp_when; [|by intros _; destruct He3]. intros _. by apply Hdone.
Qed.

Lemma wp_ah s : reading IPPROTO_AH s -> ps_m s = true ->
  wp ipf_pr_ah (fun p' s' => reading IPPROTO_AH s' /\
    (p' = IPPROTO_NONE \/
     ps_m s' = true /\ exists l, bs !! Z.to_nat (fin_dp (ps_fin s)) = Some p' /\
       bs !! Z.to_nat (fin_dp (ps_fin s) + 1) = Some l /\
       fin_dp (ps_fin s') = fin_dp (ps_fin s) + 4 * (l + 2))) s.
Proof.
  intros Hs Hm. unfold ipf_pr_ah. step4. intros s1 [Hs1 Em1 Ed1 _ _] _.
  rewrite wp_bind. apply (wp_short IPPROTO_AH); [done|]. intros s2 [Hs2 Em2 Ed2 _ _] _.
  step4. step4. destruct (_ || _); [rewrite wp_ret; by split; [|left]|].
  pose proof (reading_dp _ _ Hs2).
  rewrite wp_bind. apply (wp_pull IPPROTO_AH); [done|congruence| |]; cycle 1.
  { intros s3 Hs3. cbn [negb]. rewrite wp_ret. by split; [|left]. }
  intros Hpull. cbn [negb]. step4. rewrite Ed2, Ed1 in *. set (dp := fin_dp (ps_fin s)) in *.
  rewrite (wp_bind False). apply (wp_read8 IPPROTO_AH); [done|lia|]. intros l El Hl.
  rewrite Z.shiftl_mul_pow2 by lia. change (2 ^ 2) with 4. rewrite (Z.mul_comm (l + 2) 4).
  rewrite wp_bind. apply (wp_short IPPROTO_AH); [done|]. intros s3 [Hs3 Em3 Ed3 _ _] _.
  rewrite wp_bind. apply (wp_pull IPPROTO_AH); [done|congruence| |]; cycle 1.
  { intros s4 Hs4. cbn [negb]. rewrite wp_ret. by split; [|left]. }
  intros _. cbn [negb]. rewrite wp_bind. unfold upd. rewrite wp_modify.
  set (s4 := s3 <| ps_fin ::= _ |>).
  assert (Hs4 : reading IPPROTO_AH s4).
  { pose proof Hs3 as [? ? ? ? ? ? ? [? ?] Hd ?]. unfold is_u8 in Hl.
    split; try done; cbn; [|rewrite Hd; lia]. split; [|by intros []]. lia. }
  apply (wp_read8 IPPROTO_AH); [done|lia|]. intros n En _. split; [done|right]. split; [cbn; congruence|].
  exists l. split; [done|]. split; [done|]. cbn. congruence.
Qed.

(** What the protocol routines need to know of ICMP errors in the packet. *)
Definition errors_fit (p : Z) : Prop :=
  (p = IPPROTO_ICMP -> icmp_fits hlen) /\
  (p = IPPROTO_AH -> forall l, bs !! Z.to_nat hlen = Some IPPROTO_ICMP ->
     bs !! Z.to_nat (hlen + 1) = Some l -> icmp_fits (hlen + 4 * (l + 2))).

Lemma wp_protocol p s : reading p s -> ps_m s = true -> fin_dp (ps_fin s) = hlen -> errors_fit p ->
  wp (v4_protocol be minfragmtu p) (fun _ => reading p) s.
Proof.
  intros Hs Hm Hdp [Hicmp Hah]. unfold v4_protocol. rewrite wp_bind.
  apply (wp_mono _ _ (fun p' s' => reading p s' /\ (p' = IPPROTO_NONE \/
    ps_m s' = true /\ (p' = p \/ p = IPPROTO_AH) /\
    (p' = IPPROTO_ICMP -> icmp_fits (fin_dp (ps_fin s')))))).
  { destruct (Z.eqb_spec p IPPROTO_AH) as [->|Hp].
    - eapply wp_mono; [by apply wp_ah|]. cbv beta.
      intros p' s' [Hs' [->|(Hm' & l & E0 & E1 & Ed)]]; split; try done; [by left|right].
      split; [done|]. split; [by right|]. intros ->. rewrite Ed, Hdp in *. by apply Hah.
    - rewrite wp_ret. split; [done|right]. split; [done|]. split; [by left|].
      intros ->. rewrite Hdp. auto. }
  intros p' s' [Hs' H]. destruct H as [->|(Hm' & Hp' & Hfit)]; [done|].
  repeat lazymatch goal with
    | |- wp (if ?a =? ?b then _ else _) _ _ => destruct (Z.eqb_spec a b) as [->|?]
    end; try done.
  - apply wp_udp; [done..|]. destruct Hp' as [<-|]; auto.
  - apply wp_tcp; [done..|]. destruct Hp' as [<-|]; auto.
  - apply wp_icmp; [done| |destruct Hp' as [<-|]; auto|by apply Hfit]. done.
  - by apply wp_esp.
  - by apply wp_gre.
Qed.

Lemma wp_ripso p s o m : forall j sec, reading p s -> sec_in_table m j sec = true ->
  0 <= o -> o + 5 <= len -> wp (ripso_search m j sec o) (fun _ s' => s' = s) s.
Proof.
  induction m as [|m IH]; intros j sec Hs Ht Ho Hl; simpl in Ht |- *; rewrite wp_bind;
    (destruct (if j <? 0 then None else secopt !! Z.to_nat j) as [[val bit]|]; [|done]);
    unfold wpg at 1, need; destruct (sec =? val); cbn [orb] in Ht;
    try (step4; step4; by rewrite wp_ret).
  - by rewrite wp_ret.
  - by apply IH.
Qed.

Lemma wp_cipso_tags p fuel : forall t l s, reading p s -> 0 <= t -> t + l <= len ->
  l <= Z.of_nat fuel -> wp (cipso_tags fuel t l) (fun _ => extends p s) s.
Proof.
  induction fuel as [|fuel IH]; intros t l s Hs Ht Hl Hf; cbn [cipso_tags].
  { destruct (Z.ltb_spec l 2); [rewrite wp_ret; by apply extends_refl|lia]. }
  destruct (Z.ltb_spec l 2); [rewrite wp_ret; by apply extends_refl|].
  step4. step4. rename b0 into tlen. destruct (_ || _ || _) eqn:Eb.
  { step4. intros s1 H1' _. by rewrite wp_ret. }
  breflect.
  assert (Hnext : forall s1, extends p s s1 ->
            wp (cipso_tags fuel (t + tlen) (l - tlen)) (fun _ => extends p s) s1).
  { intros s1 He. pose proof He as [Hs1 _ _ _ _]. eapply wp_mono; [apply IH; (done || lia)|].
    intros ? s2 He2. by apply (extends_trans p s s1). }
  assert (Hraise : forall s1 v, extends p s s1 ->
            wp (upd_fi (fun fi => if fi_sensitivity fi <? v then fi <| fi_sensitivity := v |> else fi);;
                cipso_tags fuel (t + tlen) (l - tlen)) (fun _ => extends p s) s1).
  { intros s1 v He. pose proof He as [Hs1 _ _ _ _]. rewrite wp_bind.
    apply (wp_upd_fi p); [by intros fi; destruct (_ <? v)|done|]. intros s2 He2. apply Hnext.
    by apply (extends_trans p s s1). }
  assert (Hbad : wp (flag FI_BAD;; cipso_tags fuel (t + tlen) (l - tlen)) (fun _ => extends p s) s).
  { step4. intros s1 He _. by apply Hnext. }
  destruct (one_of b [1; 4; 5]).
  - step4. destruct (negb (b0 =? 0)); [done|]. step4. apply Hraise. by apply extends_refl.
  - destruct (127 <? b); [apply Hraise; by apply extends_refl|done].
Qed.

Lemma wp_opt_entry p opt o ol e oi s : reading p s -> 0 <= o -> 0 <= ol -> o + ol <= len ->
  wp (opt_entry be opt o ol e oi) (fun _ => extends p s) s.
Proof.
  intros Hs Ho Hol Hl. unfold opt_entry. destruct e as [val bit].
  destruct ((opt =? val) && (4 <? ol)) eqn:E; [|rewrite wp_ret; by apply extends_refl]. breflect.
  rewrite wp_bind. eapply wp_mono; [|intros oi' s' H'; rewrite wp_ret; exact H'].
  assert (Hsec : forall check, wp check (fun _ => extends p s) s ->
            wp (if has (optmsk oi) bit then flag FI_BAD;; mret oi
                else doi ← check; mret (oi <| secmsk := u16 (Z.shiftr doi 16) |>
                                           <| auth := Z.land doi 0xffff |>))
               (fun _ => extends p s) s).
  { intros check Hc. destruct (has (optmsk oi) bit).
    - step4. intros s1 He _. by rewrite wp_ret.
    - rewrite wp_bind. eapply wp_mono; [exact Hc|]. intros; by rewrite wp_ret. }
  destruct (opt =? IPOPT_SECURITY).
  { apply Hsec. unfold ipf_checkripso. rewrite wp_bind. apply (wp_read8 p); [done|lia|].
    intros sec _ Hu. eapply wp_mono; [apply (wp_ripso p); (done || lia || by apply sec_in_table_u8)|].
    intros _ s' ->. by apply extends_refl. }
  destruct (opt =? IPOPT_CIPSO); [|rewrite wp_ret; by apply extends_refl].
  apply Hsec. unfold ipf_checkcipso. destruct (_ || _) eqn:Eb.
  { step4. intros s1 He _. by rewrite wp_ret. }
  breflect. step4. intros s1 He. pose proof He as [Hs1 _ _ _ _]. step4.
  rewrite wp_bind. eapply wp_mono; [apply (wp_cipso_tags p); (done || lia)|].
  intros ok s2 He2. rewrite wp_ret. by apply (extends_trans p s s1).
Qed.

Lemma wp_opt_search p opt o ol mv : forall i oi s b, reading p s -> 0 <= o -> 0 <= ol ->
  o + ol <= len -> search_bits mv i opt = Some b ->
  wp (opt_search be mv i opt o ol oi) (fun _ => extends p s) s.
Proof.
  induction mv as [|mv IH]; intros i oi s b Hs Ho Hol Hl Hb; simpl in Hb |- *; rewrite wp_bind;
    (destruct (if i <? 0 then None else ipopts !! Z.to_nat i) as [[val bit]|]; [|done]);
    unfold wpg at 1, need; rewrite wp_bind;
    (eapply wp_mono; [apply (wp_opt_entry p); done|]); intros oi' s1 He; cbn [fst].
  - by rewrite wp_ret.
  - destruct (search_bits mv _ opt) as [r|] eqn:Er; [|done]. pose proof He as [Hs1 _ _ _ _].
    eapply wp_mono; [eapply IH; [done..|exact Er]|]. intros ? s2 He2. by apply (extends_trans p s s1).
Qed.

Lemma wp_options_loop p fuel : forall o h oi s, reading p s -> 0 <= o -> o + h <= len ->
  h <= Z.of_nat fuel -> wp (options_loop be fuel o h oi) (fun _ => reading p) s.
Proof.
  induction fuel as [|fuel IH]; intros o h oi s Hs Ho Hl Hf; cbn [options_loop].
  { destruct (Z.leb_spec h 0); [done|lia]. }
  destruct (Z.leb_spec h 0); [done|]. step4. rename b into opt.
  rewrite wp_bind. apply (wp_mono _ _ (fun ol s' => s' = s /\ match ol with
    | None => True | Some ol => 1 <= opt < 256 /\ 1 <= ol <= h end)).
  { unfold opt_length, is_u8 in *. destruct (Z.eqb_spec opt 0); [by rewrite wp_ret|].
    destruct (Z.eqb_spec opt IPOPT_NOP); [rewrite wp_ret; split; [done|lia]|].
    destruct (Z.ltb_spec h 2); [by rewrite wp_ret|]. step4. rewrite wp_ret. split; [done|].
    destruct (_ || _) eqn:Eb; [done|]. breflect. lia. }
  intros [ol|] s' [-> Hol]; [|done]. destruct Hol as [Hopt Hol].
  destruct (search_bits_spec opt Hopt) as (b & Hb & _).
  rewrite wp_bind. eapply wp_mono; [eapply (wp_opt_search p); [done|lia|lia|lia|exact Hb]|].
  intros oi' s1 [Hs1 _ _ _ _]. apply IH; (done || lia).
Qed.

Lemma wp_v4_options p s : reading p s -> wp (v4_options be hlen) (fun _ => reading p) s.
Proof.
  intros Hs. unfold v4_options. destruct (hlen =? 20).
  { apply (wp_upd_fi p); [done|done|]. by intros s1 []. }
  step4. intros s1 [Hs1 _ _ _ _] _. rewrite wp_bind.
  eapply wp_mono; [apply (wp_options_loop p); (done || lia)|]. intros oi s2 Hs2.
  apply (wp_upd_fi p); [done|done|]. by intros s3 [].
Qed.

(** Before the transport header. *)
Definition at_header (p : Z) (s : pst) : Prop :=
  reading p s /\ ps_m s = true /\ fin_dp (ps_fin s) = hlen.
Lemma at_header_extends p s s' : at_header p s -> extends p s s' -> at_header p s'.
Proof. intros (H1 & H2 & H3) []. split; [done|split; congruence]. Qed.

Lemma wp_v4_fields p0 p s : at_header p0 s -> bs !! 9%nat = Some p ->
  wp (v4_fields be) (fun '(p', _) s' => p' = p /\ at_header p s') s.
Proof.
  intros (Hs & Hm & Hdp) Ep. unfold v4_fields. rewrite wp_bind.
  apply (wp_read8 p0); [done|lia|]. intros p' Ep' _.
  change (bs !! 9%nat = Some p') in Ep'. rewrite Ep in Ep'. injection Ep' as <-.
  rewrite wp_bind. unfold upd_fi at 1, upd at 1. rewrite wp_modify. set (s1 := s <| ps_fin ::= _ |>).
  assert (Hs1 : reading p s1).
  { destruct Hs as [? ? ? ? ? ? ? [? ?] ? ?]. by split. }
  assert (Hm1 : ps_m s1 = true) by done. assert (Hdp1 : fin_dp (ps_fin s1) = hlen) by done.
  clearbody s1. step4. step4. intros s2 [Hs2 Em2 Ed2 _ _]. step4.
  rewrite wp_bind. apply (wp_upd p); [by intros fin; repeat split|done|]. intros s3 [Hs3 Em3 Ed3 _ _].
  step4. step4. step4. intros s4 [Hs4 Em4 Ed4 _ _]. step4. step4. step4. intros s5 [Hs5 Em5 Ed5 _ _].
  rewrite wp_bind. apply (wp_upd p); [by intros fin; repeat split|done|]. intros s6 [Hs6 Em6 Ed6 _ _].
  rewrite wp_ret. split; [done|]. split; [done|split; congruence].
Qed.

Lemma wp_v4_fragment p off s : at_header p s -> wp (v4_fragment off) (fun _ => at_header p) s.
Proof.
  assert (Hoff : forall s' o, at_header p s' -> o = 0 \/ has (fin_flx (ps_fin s')) FI_FRAG = true ->
            wp (upd (fun fin => fin <| fin_off := o |>)) (fun _ => at_header p) s').
  { intros s' o ([] & Hm & Hdp) Ho. unfold upd. rewrite wp_modify. by split. }
  intros Hh. pose proof Hh as (Hs & Hm & Hdp). unfold v4_fragment. step4.
  destruct (_ =? 0); [by apply Hoff; [|left]|].
  step4. intros s1 He1 Hf1. change (has FI_FRAG FI_FRAG) with true in Hf1. rewrite orb_true_r in Hf1.
  pose proof (at_header_extends _ _ _ Hh He1) as Hh1. pose proof (ex_reading _ _ _ He1) as Hs1.
  destruct (_ =? 0); [by apply Hoff; [|left]|].
  step4. intros s2 He2 _. pose proof (at_header_extends _ _ _ Hh1 He2) as Hh2.
  pose proof (ex_reading _ _ _ He2) as Hs2.
  step4. intros s3 He3. apply Hoff; [by eapply at_header_extends|right].
  apply (ex_flx _ _ _ He3), (ex_flx _ _ _ He2), Hf1.
Qed.

Lemma wp_ipv4hdr p0 p s : at_header p0 s -> bs !! 9%nat = Some p -> errors_fit p ->
  wp (ipf_pr_ipv4hdr be minfragmtu) (fun _ _ => True) s.
Proof.
  intros Hh Ep Hfit. pose proof Hh as (Hs & _). unfold ipf_pr_ipv4hdr. step4. rewrite (rd_hlen _ _ Hs).
  rewrite wp_bind. eapply wp_mono; [by eapply wp_v4_fields|].
  intros [p' off] s1 [-> Hh1]. pose proof Hh1 as (Hs1 & _).
  rewrite wp_bind. apply (wp_mono _ _ (fun _ => at_header p)).
  { unfold v4_multicast. step4. apply (wp_when_flag p); [done|].
    intros. by eapply at_header_extends. }
  intros _ s2 Hh2. rewrite wp_bind. eapply wp_mono; [by apply wp_v4_fragment|].
  intros ? s3 (Hs3 & Hm3 & Hdp3). rewrite wp_bind.
  eapply wp_mono; [by apply (wp_protocol p)|]. intros ? s4 Hs4.
  rewrite wp_bind, wp_gets. apply wp_when; [|done]. intros _.
  eapply wp_mono; [by apply (wp_v4_options p)|done].
Qed.
End Safe4.

(** An IPv4 packet in one buffer, as the user-level build has it: version and
    header length agree with the first byte, and neither the header nor the
    length field reaches beyond the buffer. *)
Record v4_packet (hlen : Z) (s : pst) : Prop := {
  v4_bytes : Forall is_u8 (ps_bytes s);
  v4_vhl : exists vhl rest, ps_bytes s = vhl :: rest /\ Z.shiftr vhl 4 = 4 /\
                            Z.shiftl (Z.land vhl 15) 2 = hlen;
  v4_hlen : 20 <= hlen <= Z.of_nat (length (ps_bytes s));
  v4_plen : forall l0 l1, ps_bytes s !! 2%nat = Some l0 -> ps_bytes s !! 3%nat = Some l1 ->
            l0 * 256 + l1 <= Z.of_nat (length (ps_bytes s));
  v4_buffer : ps_m s = true /\ ps_freed s = false /\ ps_len s = Z.of_nat (length (ps_bytes s)) /\
              fin_ipoff (ps_fin s) = 0;
  v4_version : fin_v (ps_fin s) = 4;
  v4_fresh : fin_off (ps_fin s) = 0 }.

(** C22. Parsing an IPv4 packet of any contents reads nothing outside its buffer and
    always has a result, whatever its protocol, fragmentation, options, lengths
    and checksums, and also when the transport header is cut short; the one
    exception is an ICMP error that is at least 8 but less than 24 bytes long,
    whose quoted header [ipf_pr_icmp] reads without looking whether it is there
    ([errors_fit] excludes it). *)
Theorem makefrip_v4_safe be minfragmtu hlen s p :
  v4_packet hlen s -> ps_bytes s !! 9%nat = Some p -> errors_fit (ps_bytes s) hlen p ->
  exists r s', ipf_makefrip (B := user_build) be minfragmtu hlen s = Some (r, s').
Proof.
  intros [Hb Hvhl Hh Hpl (Hm & Hfr & Hlen & Hip) Hv Hoff] Ep Hfit.
  assert (H : wp (ipf_makefrip (B := user_build) be minfragmtu hlen) (fun _ _ => True) s); cycle 1.
  { apply wp_total in H as (r & s' & E & _). eauto. }
  destruct (lookup_lt_is_Some_2 (ps_bytes s) 2) as [l0 E0]; [lia|].
  destruct (lookup_lt_is_Some_2 (ps_bytes s) 3) as [l1 E1]; [lia|].
  assert (Hu0 : is_u8 l0) by (by eapply Forall_lookup_1).
  assert (Hu1 : is_u8 l1) by (by eapply Forall_lookup_1).
  specialize (Hpl l0 l1 E0 E1).
  assert (Hu16 : u16 hlen = hlen).
  { destruct Hvhl as (vhl & rest & _ & _ & <-). apply u16_id.
    change 15 with (Z.ones 4). rewrite Z.land_ones, Z.shiftl_mul_pow2 by lia.
    unfold is_u16. dlia. }
  unfold ipf_makefrip, upd. rewrite wp_bind, wp_modify, wp_bind. unfold the. rewrite wp_gets.
  set (s1 := s <| ps_fin ::= _ |>). replace (fin_v (ps_fin s1)) with 4 by done. cbn [Z.eqb Pos.eqb].
  rewrite wp_bind, wp_bind.
  assert (Hr : read16 be 2 s1 = Some (load16 be l0 l1, s1)).
  { unfold read16.
    rewrite (bind_eq _ _ _ (u8 l0) s1) by (by apply buffer_read8).
    rewrite (bind_eq _ _ _ (u8 l1) s1) by (by apply buffer_read8).
    by rewrite !u8_id. }
  unfold wpg at 1. rewrite Hr, ntohs_load16 by done. rewrite wp_bind, wp_modify.
  set (s2 := s1 <| ps_fin ::= _ |>).
  eapply wp_mono; [|intros; rewrite wp_bind, wp_gets; by rewrite wp_ret].
  apply (wp_ipv4hdr be minfragmtu (ps_bytes s) hlen (l0 * 256 + l1) Hb Hvhl Hh Hpl
           ltac:(unfold is_u8 in *; lia) (fin_p (ps_fin s2)) p); [|done|done].
  split; [|by split]. split; try done. by left.
Qed.

(** A TCP segment cut off after its fourth byte, with the rest missing. *)
Definition short_tcp : list Z :=
  [0x45; 0; 0; 24; 0; 1; 0; 0; 64; 6; 0; 0; 10; 0; 0; 1; 10; 0; 0; 2; 4; 0; 0; 80].
Definition v4_state (bytes : list Z) : pst :=
  mk_pst (fin_zero <| fin_fi := fi_zero <| fi_v := 4 |> |>) true true false
    (Z.of_nat (length bytes)) bytes.
Lemma makefrip_v4_safe_witness :
  v4_packet 20 (v4_state short_tcp) /\
  (exists r s', ipf_makefrip (B := user_build) false 68 20 (v4_state short_tcp) = Some (r, s')) /\
  ipf_makefrip (B := user_build) false 68 20
    (v4_state (take 9 short_tcp ++ [1] ++ drop 10 (take 20 short_tcp) ++ [3; 1; 0; 0; 0; 0; 0; 0])) = None.
Proof.
  assert (Hp : v4_packet 20 (v4_state short_tcp)).
  { split.
    - by apply bytes_ok.
    - by eexists _, _.
    - vm_compute. split; congruence.
    - by intros l0 l1 [= <-] [= <-].
    - done.
    - done.
    - done. }
  split; [exact Hp|]. split; [|vm_compute; reflexivity].
  apply (makefrip_v4_safe false 68 20 (v4_state short_tcp) 6 Hp eq_refl). by split.
Defined.
