(* ===== verification/Timeoutq.v ===== *)
(** The timeout queues of fil.c: doubly linked queues of [ipftqent_t] threaded
    through pointer-to-pointer back links, with a tail pointer and a reference
    count per queue.  The operations are translated on an explicit heap; the
    theorems show that they implement plain lists of entries. *)
From stdpp Require Import sorting strings.
From S2P Require Import Prelude Packet.

(** ** The heap *)

(** The two kinds of cell a [struct ipftqent **] points at:
    [&ifq->ifq_head] and [&tqe->tqe_next]. *)
Inductive cell := HeadOf (ifq : loc) | NextOf (tqe : loc).
#[export] Instance cell_eq_dec : EqDecision cell.
Proof. solve_decision. Defined.

(** What a [struct ipftq **] points at: the list head variable of the owner
    ([*parent]) or [&ifq->ifq_next]. *)
Inductive qcell := ParentVar | QNextOf (ifq : loc).

(** [ipftqent_t] and [ipftq_t] (without the locks). *)
Record ipftqent := mk_tqent {
  tqe_pnext : option cell; tqe_next : option loc; tqe_ifq : option loc;
  tqe_parent : option loc; tqe_die : Z; tqe_touched : Z; tqe_flags : Z;
  tqe_state0 : Z; tqe_state1 : Z }.
#[export] Instance eta_tqent : Eta ipftqent := fun r =>
  mk_tqent (tqe_pnext r) (tqe_next r) (tqe_ifq r) (tqe_parent r) (tqe_die r)
    (tqe_touched r) (tqe_flags r) (tqe_state0 r) (tqe_state1 r).

Record ipftq := mk_ipftq {
  ifq_ttl : Z; ifq_head : option loc; ifq_tail : cell;
  ifq_next : option loc; ifq_pnext : option qcell; ifq_ref : Z; ifq_flags : Z }.
#[export] Instance eta_ipftq : Eta ipftq := fun r =>
  mk_ipftq (ifq_ttl r) (ifq_head r) (ifq_tail r) (ifq_next r) (ifq_pnext r) (ifq_ref r)
    (ifq_flags r).

(** The heap of entries and queues, the owner's list head [*parent] of user
    queues and [softc->ipf_userifqs]. *)
Record tqheap := mk_tqheap {
  ents : gmap loc ipftqent; qs : gmap loc ipftq;
  parent_var : option loc; ipf_userifqs : Z }.
#[export] Instance eta_tqheap : Eta tqheap := fun r =>
  mk_tqheap (ents r) (qs r) (parent_var r) (ipf_userifqs r).

Definition IFQF_USER : Z := 0x01.
Definition IFQF_DELETE : Z := 0x02.
Definition IPF_HZ_DIVIDE : Z := 2.
Definition IPF_TTLVAL (x : Z) : Z := u32 (x * IPF_HZ_DIVIDE).

Definition set_ent (e : loc) (f : ipftqent -> ipftqent) (h : tqheap) : tqheap :=
  h <| ents ::= alter f e |>.
Definition set_que (q : loc) (f : ipftq -> ipftq) (h : tqheap) : tqheap :=
  h <| qs ::= alter f q |>.

(** Field reads and writes through a pointer; a dangling pointer is stuck. *)
Definition ent {A} (f : ipftqent -> A) (e : loc) : ST tqheap A :=
  fun h => t ← ents h !! e; Some (f t, h).
Definition que {A} (f : ipftq -> A) (q : loc) : ST tqheap A :=
  fun h => t ← qs h !! q; Some (f t, h).
Definition upd_ent (e : loc) (f : ipftqent -> ipftqent) : ST tqheap unit :=
  fun h => _ ← ents h !! e; Some (tt, set_ent e f h).
Definition upd_que (q : loc) (f : ipftq -> ipftq) : ST tqheap unit :=
  fun h => _ ← qs h !! q; Some (tt, set_que q f h).
(** [*c = v]. *)
Definition store (c : cell) (v : option loc) : ST tqheap unit :=
  match c with
  | HeadOf q => upd_que q (fun t => t <| ifq_head := v |>)
  | NextOf e => upd_ent e (fun t => t <| tqe_next := v |>)
  end.
Definition qstore (c : qcell) (v : option loc) : ST tqheap unit :=
  match c with
  | ParentVar => modify (fun h => h <| parent_var := v |>)
  | QNextOf q => upd_que q (fun t => t <| ifq_next := v |>)
  end.

(** ** The operations *)

(** [IPFTQ_INIT(ifq, period, ...)]. *)
Definition IPFTQ_INIT (q : loc) (ttl : Z) (t : ipftq) : ipftq :=
  t <| ifq_ttl := ttl |> <| ifq_head := None |> <| ifq_ref := 1 |> <| ifq_tail := HeadOf q |>.

(** Memory fresh from the allocator: its fields hold arbitrary values. *)
Definition fresh_ifq (junk : ipftq) (q : loc) : ST tqheap unit :=
  modify (fun h => h <| qs := <[q := junk]> (qs h) |>).

(** The search of [ipf_addtimeoutqueue] along [ifq_next]. *)
Fixpoint find_timeoutqueue (fuel : nat) (period : Z) (ifq : option loc) : ST tqheap (option loc) :=
  match ifq with
  | None => mret None
  | Some q =>
      match fuel with
      | O => stuck
      | S fuel =>
          ttl ← que ifq_ttl q;
          if ttl =? period then mret (Some q)
          else nx ← que ifq_next q; find_timeoutqueue fuel period nx
      end
  end.

(** [ipf_addtimeoutqueue]; [alloc] is what [KMALLOC] returns. *)
Definition ipf_addtimeoutqueue (fuel : nat) (alloc : option (loc * ipftq)) (seconds : Z) :
    ST tqheap (option loc) :=
  let period := u32 (seconds * IPF_HZ_DIVIDE) in
  first ← gets parent_var;
  found ← find_timeoutqueue fuel period first;
  match found with
  | Some q =>
      upd_que q (fun t => t <| ifq_flags ::= fun x => clear x IFQF_DELETE |>);;
      upd_que q (fun t => t <| ifq_ref ::= fun x => x + 1 |>);;
      mret (Some q)
  | None =>
      match alloc with
      | None => mret None
      | Some (q, junk) =>
          fresh_ifq junk q;;
          upd_que q (IPFTQ_INIT q period);;
          p ← gets parent_var;
          upd_que q (fun t => t <| ifq_next := p |>);;
          upd_que q (fun t => t <| ifq_pnext := Some ParentVar |>);;
          upd_que q (fun t => t <| ifq_flags := IFQF_USER |>);;
          upd_que q (fun t => t <| ifq_ref ::= fun x => x + 1 |>);;
          qstore ParentVar (Some q);;
          modify (fun h => h <| ipf_userifqs ::= fun x => x + 1 |>);;
          mret (Some q)
      end
  end.

Definition ipf_deletetimeoutqueue (ifq : loc) : ST tqheap Z :=
  upd_que ifq (fun t => t <| ifq_ref ::= fun x => x - 1 |>);;
  ref ← que ifq_ref ifq;
  flags ← que ifq_flags ifq;
  when_ ((ref =? 0) && has flags IFQF_USER)
    (upd_que ifq (fun t => t <| ifq_flags ::= fun x => Z.lor x IFQF_DELETE |>));;
  que ifq_ref ifq.

(** [ipf_freetimeoutqueue]: [KFREE] removes the queue from the heap. *)
Definition ipf_freetimeoutqueue (ifq : loc) : ST tqheap unit :=
  flags ← que ifq_flags ifq;
  ref ← que ifq_ref ifq;
  if negb (has flags IFQF_DELETE) || negb (ref =? 0) || negb (has flags IFQF_USER)
  then mret tt
  else
    pn ← que ifq_pnext ifq;
    pn ← need pn;
    nx ← que ifq_next ifq;
    qstore pn nx;;
    nx ← que ifq_next ifq;
    match nx with
    | Some n => pn' ← que ifq_pnext ifq; upd_que n (fun t => t <| ifq_pnext := pn' |>)
    | None => mret tt
    end;;
    upd_que ifq (fun t => t <| ifq_next := None |>);;
    upd_que ifq (fun t => t <| ifq_pnext := None |>);;
    modify (fun h => h <| ipf_userifqs ::= fun x => x - 1 |>);;
    modify (fun h => h <| qs := delete ifq (qs h) |>).

(** The unlinking common to the operations below:
    [*tqe->tqe_pnext = tqe->tqe_next;] then the back link of the successor, or
    the queue's tail when there is none. *)
Definition unlink (tqe ifq : loc) : ST tqheap unit :=
  pn ← ent tqe_pnext tqe;
  pn ← need pn;
  nx ← ent tqe_next tqe;
  store pn nx;;
  nx ← ent tqe_next tqe;
  pn' ← ent tqe_pnext tqe;
  match nx with
  | Some n => upd_ent n (fun t => t <| tqe_pnext := pn' |>)
  | None => pn' ← need pn'; upd_que ifq (fun t => t <| ifq_tail := pn' |>)
  end.

Definition ipf_deletequeueentry (tqe : loc) : ST tqheap unit :=
  ifq ← ent tqe_ifq tqe;
  ifq ← need ifq;
  pn ← ent tqe_pnext tqe;
  match pn with
  | Some _ =>
      unlink tqe ifq;;
      upd_ent tqe (fun t => t <| tqe_pnext := None |>);;
      upd_ent tqe (fun t => t <| tqe_ifq := None |>)
  | None => mret tt
  end;;
  _ ← ipf_deletetimeoutqueue ifq;
  mret tt.

Definition ipf_queuefront (tqe : loc) : ST tqheap unit :=
  ifq ← ent tqe_ifq tqe;
  match ifq with
  | None => mret tt
  | Some ifq =>
      hd ← que ifq_head ifq;
      if decide (hd = Some tqe) then mret tt
      else
        unlink tqe ifq;;
        hd ← que ifq_head ifq;
        upd_ent tqe (fun t => t <| tqe_next := hd |>);;
        hd ← que ifq_head ifq;
        first ← need hd;
        upd_ent first (fun t => t <| tqe_pnext := Some (NextOf tqe) |>);;
        upd_que ifq (fun t => t <| ifq_head := Some tqe |>);;
        upd_ent tqe (fun t => t <| tqe_pnext := Some (HeadOf ifq) |>)
  end.

(** The entry becomes the last one: [tqe->tqe_pnext = ifq->ifq_tail;
    *ifq->ifq_tail = tqe; ifq->ifq_tail = &tqe->tqe_next;]. *)
Definition link_tail (tqe ifq : loc) : ST tqheap unit :=
  tl ← que ifq_tail ifq;
  upd_ent tqe (fun t => t <| tqe_pnext := Some tl |>);;
  tl ← que ifq_tail ifq;
  store tl (Some tqe);;
  upd_que ifq (fun t => t <| ifq_tail := NextOf tqe |>).

Definition ipf_queueback (ticks : Z) (tqe : loc) : ST tqheap unit :=
  ifq ← ent tqe_ifq tqe;
  match ifq with
  | None => mret tt
  | Some ifq =>
      ttl ← que ifq_ttl ifq;
      upd_ent tqe (fun t => t <| tqe_die := u32 (ticks + ttl) |>);;
      upd_ent tqe (fun t => t <| tqe_touched := u32 ticks |>);;
      nx ← ent tqe_next tqe;
      match nx with
      | None => mret tt
      | Some _ =>
          unlink tqe ifq;;
          upd_ent tqe (fun t => t <| tqe_next := None |>);;
          link_tail tqe ifq
      end
  end.

Definition ipf_queueappend (ticks : Z) (tqe ifq : loc) (parent : option loc) : ST tqheap unit :=
  upd_ent tqe (fun t => t <| tqe_parent := parent |>);;
  link_tail tqe ifq;;
  upd_ent tqe (fun t => t <| tqe_next := None |>);;
  upd_ent tqe (fun t => t <| tqe_ifq := Some ifq |>);;
  ttl ← que ifq_ttl ifq;
  upd_ent tqe (fun t => t <| tqe_die := u32 (ticks + ttl) |>);;
  upd_ent tqe (fun t => t <| tqe_touched := u32 ticks |>);;
  upd_que ifq (fun t => t <| ifq_ref ::= fun x => x + 1 |>).

Definition ipf_movequeue (ticks : Z) (tqe oifq nifq : loc) : ST tqheap unit :=
  touched ← ent tqe_touched tqe;
  if bool_decide (oifq = nifq) && (touched =? ticks) then mret tt
  else
    upd_ent tqe (fun t => t <| tqe_touched := u32 ticks |>);;
    ttl ← que ifq_ttl nifq;
    upd_ent tqe (fun t => t <| tqe_die := u32 (ticks + ttl) |>);;
    (* Is the operation here going to be a no-op ? *)
    noop ← (if decide (oifq = nifq) then
              nx ← ent tqe_next tqe;
              match nx with
              | None => mret true
              | Some n => d ← ent tqe_die n; d' ← ent tqe_die tqe; mret (d =? d')
              end
            else mret false);
    if (noop : bool) then mret tt
    else
      (* Remove from the old queue *)
      unlink tqe oifq;;
      upd_ent tqe (fun t => t <| tqe_next := None |>);;
      when_ (negb (bool_decide (oifq = nifq)))
        (upd_ent tqe (fun t => t <| tqe_ifq := None |>);;
         _ ← ipf_deletetimeoutqueue oifq;
         upd_ent tqe (fun t => t <| tqe_ifq := Some nifq |>);;
         upd_que nifq (fun t => t <| ifq_ref ::= fun x => x + 1 |>));;
      (* Add to the bottom of the new queue *)
      link_tail tqe nifq.

(** The walk of [ipf_apply_timeout]: [tqe->tqe_die += delta] along the queue. *)
Fixpoint apply_delta (fuel : nat) (delta : Z) (tqe : option loc) : ST tqheap unit :=
  match tqe with
  | None => mret tt
  | Some e =>
      match fuel with
      | O => stuck
      | S fuel =>
          upd_ent e (fun t => t <| tqe_die ::= fun d => u32 (d + delta) |>);;
          nx ← ent tqe_next e;
          apply_delta fuel delta nx
      end
  end.

Definition ipf_apply_timeout (fuel : nat) (head : loc) (seconds : Z) : ST tqheap unit :=
  oldtimeout ← que ifq_ttl head;
  let newtimeout := IPF_TTLVAL seconds in
  let delta := i32 (u32 (oldtimeout - newtimeout)) in
  upd_que head (fun t => t <| ifq_ttl := newtimeout |>);;
  hd ← que ifq_head head;
  apply_delta fuel delta hd.

(** The TCP states, which index the array of TCP timeout queues. *)
Definition IPF_TCPS_LISTEN : Z := 0.
Definition IPF_TCPS_SYN_SENT : Z := 1.
Definition IPF_TCPS_SYN_RECEIVED : Z := 2.
Definition IPF_TCPS_HALF_ESTAB : Z := 3.
Definition IPF_TCPS_ESTABLISHED : Z := 4.
Definition IPF_TCPS_CLOSE_WAIT : Z := 5.
Definition IPF_TCPS_FIN_WAIT_1 : Z := 6.
Definition IPF_TCPS_CLOSING : Z := 7.
Definition IPF_TCPS_LAST_ACK : Z := 8.
Definition IPF_TCPS_FIN_WAIT_2 : Z := 9.
Definition IPF_TCPS_TIME_WAIT : Z := 10.
Definition IPF_TCPS_CLOSED : Z := 11.
Definition IPF_TCP_NSTATES : Z := 12.

(** [ipf_settimeout_tcp]; [tab s] is the address of [tab[s]], [name] the
    tunable's name and [secs] the new value [p->ipftu_int]. *)
Definition ipf_settimeout_tcp (fuel : nat) (name : string) (secs : Z) (tab : Z -> loc) : ST tqheap Z :=
  let strcmp s := bool_decide (name = s) in
  if strcmp "tcp_idle_timeout" || strcmp "tcp_established" then
    ipf_apply_timeout fuel (tab IPF_TCPS_ESTABLISHED) secs;; mret 0
  else if strcmp "tcp_close_wait" then ipf_apply_timeout fuel (tab IPF_TCPS_CLOSE_WAIT) secs;; mret 0
  else if strcmp "tcp_last_ack" then ipf_apply_timeout fuel (tab IPF_TCPS_LAST_ACK) secs;; mret 0
  else if strcmp "tcp_timeout" then
    ipf_apply_timeout fuel (tab IPF_TCPS_LISTEN) secs;;
    ipf_apply_timeout fuel (tab IPF_TCPS_HALF_ESTAB) secs;;
    ipf_apply_timeout fuel (tab IPF_TCPS_CLOSING) secs;; mret 0
  else if strcmp "tcp_listen" then ipf_apply_timeout fuel (tab IPF_TCPS_LISTEN) secs;; mret 0
  else if strcmp "tcp_half_established" then
    ipf_apply_timeout fuel (tab IPF_TCPS_HALF_ESTAB) secs;; mret 0
  else if strcmp "tcp_closing" then ipf_apply_timeout fuel (tab IPF_TCPS_CLOSING) secs;; mret 0
  else if strcmp "tcp_syn_received" then
    ipf_apply_timeout fuel (tab IPF_TCPS_SYN_RECEIVED) secs;; mret 0
  else if strcmp "tcp_syn_sent" then ipf_apply_timeout fuel (tab IPF_TCPS_SYN_SENT) secs;; mret 0
  else if strcmp "tcp_closed" then ipf_apply_timeout fuel (tab IPF_TCPS_CLOSED) secs;; mret 0
  else if strcmp "tcp_half_closed" then ipf_apply_timeout fuel (tab IPF_TCPS_CLOSED) secs;; mret 0
  else if strcmp "tcp_time_wait" then ipf_apply_timeout fuel (tab IPF_TCPS_TIME_WAIT) secs;; mret 0
  else mret (-1).

(** ** Queues as lists *)

(** The two views of the heap that the shape of a queue depends on: the content
    of a cell, and an entry's back link and queue. *)
Definition ld (h : tqheap) (c : cell) : option (option loc) :=
  match c with
  | HeadOf q => ifq_head <$> qs h !! q
  | NextOf e => tqe_next <$> ents h !! e
  end.
Definition lk (h : tqheap) (e : loc) : option (option cell * option loc) :=
  (fun t => (tqe_pnext t, tqe_ifq t)) <$> ents h !! e.

(** Following [tqe_next] from cell [p] visits [l] and ends at cell [p']; each
    entry points back at the cell that leads to it and at its queue. *)
Fixpoint seg (h : tqheap) (q : loc) (p : cell) (l : list loc) (p' : cell) : Prop :=
  match l with
  | [] => p = p'
  | x :: l => ld h p = Some (Some x) /\ lk h x = Some (Some p, Some q) /\ seg h q (NextOf x) l p'
  end.

(** [queue h q l]: in [h], the queue [q] holds exactly the entries [l], in order. *)
Definition queue (h : tqheap) (q : loc) (l : list loc) : Prop :=
  exists t, qs h !! q = Some t /\ NoDup l /\ seg h q (HeadOf q) l (ifq_tail t) /\
            ld h (ifq_tail t) = Some None.

(** The entries of the program's queues, all at once. *)
Definition tq_rel (h : tqheap) (Q : gmap loc (list loc)) : Prop :=
  forall q l, Q !! q = Some l -> queue h q l.

(** The cells read along a segment, and the one after it. *)
Fixpoint cells (p : cell) (l : list loc) : list cell :=
  match l with [] => [] | x :: l => p :: cells (NextOf x) l end.
Fixpoint after (p : cell) (l : list loc) : cell :=
  match l with [] => p | x :: l => after (NextOf x) l end.

Lemma seg_after h q l : forall p p', seg h q p l p' -> p' = after p l.
Proof. induction l as [|x l IH]; simpl; [congruence|]. intros p p' (_ & _ & ?). auto. Qed.

Lemma seg_app h q l1 l2 : forall p p',
  seg h q p (l1 ++ l2) p' <-> seg h q p l1 (after p l1) /\ seg h q (after p l1) l2 p'.
Proof. induction l1 as [|x l1 IH]; simpl; intros p p'; [tauto|]. rewrite IH. tauto. Qed.

Lemma seg_frame h h' q l : forall p p',
  seg h q p l p' ->
  (forall c, c ∈ cells p l -> ld h' c = ld h c) ->
  (forall x, x ∈ l -> lk h' x = lk h x) -> seg h' q p l p'.
Proof.
  induction l as [|x l IH]; simpl; [done|]. intros p p' (H1 & H2 & H3) Hc Hx.
  rewrite Hc, Hx by set_solver. split_and!; [done..|]. apply IH; set_solver.
Qed.

Lemma elem_cells c p l : c ∈ cells p l -> c = p \/ exists x, c = NextOf x /\ x ∈ l.
Proof.
  revert p. induction l as [|y l IH]; simpl; intros p; [set_solver|].
  intros [->|[->|(x & -> & ?)]%IH]%elem_of_cons; [by left|right; exists y; set_solver|].
  right; exists x; set_solver.
Qed.

Lemma after_elem p l : after p l = p \/ exists x, after p l = NextOf x /\ x ∈ l.
Proof.
  revert p. induction l as [|y l IH]; intros p; simpl; [by left|].
  destruct (IH (NextOf y)) as [->|(x & -> & ?)]; right; [exists y|exists x]; set_solver.
Qed.

(** In a list without repetition, the cell after it is not among those read. *)
Lemma after_not_cells p l : NoDup l -> (forall x, x ∈ l -> p <> NextOf x) -> after p l ∉ cells p l.
Proof.
  revert p. induction l as [|y l IH]; intros p Hnd Hp; simpl; [set_solver|].
  apply NoDup_cons in Hnd as [Hy Hnd]. intros [E|Hin]%elem_of_cons.
  - destruct (after_elem (NextOf y) l) as [E'|(x & E' & ?)]; rewrite E' in E;
      [apply (Hp y)|apply (Hp x)]; set_solver.
  - apply (IH (NextOf y)); [done| |done]. intros x ? [= <-]. done.
Qed.

Lemma seg_lk h q l : forall p p' x, seg h q p l p' -> x ∈ l -> exists c, lk h x = Some (Some c, Some q).
Proof.
  induction l as [|y l IH]; intros p p' x; simpl; [set_solver|].
  intros (_ & ? & Hs) [->|?]%elem_of_cons; [by eexists|by eapply IH].
Qed.

Lemma queue_lk h q l x : queue h q l -> x ∈ l -> exists c, lk h x = Some (Some c, Some q).
Proof. intros (t & _ & _ & Hs & _). by eapply seg_lk. Qed.

Lemma queue_NoDup h q l : queue h q l -> NoDup l.
Proof. by intros (t & _ & ? & _). Qed.

(** An entry sits on one queue only. *)
Lemma queue_disjoint h q q' l l' x : queue h q l -> queue h q' l' -> x ∈ l -> x ∈ l' -> q = q'.
Proof.
  intros H H' Hx Hx'. destruct (queue_lk _ _ _ _ H Hx) as [c E].
  destruct (queue_lk _ _ _ _ H' Hx') as [c' E']. congruence.
Qed.

(** ** What an operation leaves alone *)

Definition erase (t : ipftqent) : ipftqent := t <| tqe_next := None |> <| tqe_pnext := None |>.
Definition qerase (q : loc) (t : ipftq) : ipftq := t <| ifq_head := None |> <| ifq_tail := HeadOf q |>.

(** [h'] differs from [h] only in the links of the entries in [S] and of the
    queue [q]. *)
Record links_only (q : loc) (S : list loc) (h h' : tqheap) : Prop := {
  lo_ents : forall y, y ∉ S -> ents h' !! y = ents h !! y;
  lo_dat : forall y, erase <$> ents h' !! y = erase <$> ents h !! y;
  lo_qs : forall q', q' <> q -> qs h' !! q' = qs h !! q';
  lo_qdat : qerase q <$> qs h' !! q = qerase q <$> qs h !! q;
  lo_top : parent_var h' = parent_var h /\ ipf_userifqs h' = ipf_userifqs h }.

Lemma links_only_refl q S h : links_only q S h h.
Proof. by split. Qed.
Lemma links_only_trans q S h1 h2 h3 :
  links_only q S h1 h2 -> links_only q S h2 h3 -> links_only q S h1 h3.
Proof.
  intros [A1 A2 A3 A4 [A5 A6]] [B1 B2 B3 B4 [B5 B6]]. split; intros.
  - by rewrite B1, A1. - by rewrite B2. - by rewrite B3, A3. - by rewrite B4.
  - split; congruence.
Qed.
Lemma links_only_mono q S S' h h' : S ⊆ S' -> links_only q S h h' -> links_only q S' h h'.
Proof. intros HS [A1 A2 A3 A4 A5]. split; auto. Qed.

(** A queue that shares neither entry nor head with the change keeps its list. *)
Lemma queue_frame h h' q l :
  queue h q l -> qs h' !! q = qs h !! q ->
  (forall x, x ∈ l -> ents h' !! x = ents h !! x) -> queue h' q l.
Proof.
  intros (t & Hq & Hnd & Hs & Hl) Eq Ee. exists t. split_and!; [congruence|done|..].
  - eapply seg_frame; [done| |].
    + intros c [->|(x & -> & ?)]%elem_cells; simpl; [by rewrite Eq|by rewrite Ee].
    + intros x Hx. unfold lk. by rewrite Ee.
  - apply seg_after in Hs. rewrite Hs in *. rewrite <- Hl.
    destruct (after_elem (HeadOf q) l) as [->|(x & -> & ?)]; simpl; [by rewrite Eq|by rewrite Ee].
Qed.

Lemma links_only_queue h h' q S q' l :
  links_only q S h h' -> queue h q S -> q' <> q -> queue h q' l -> queue h' q' l.
Proof.
  intros [A1 _ A3 _ _] HS Hne Hl. eapply queue_frame; [done|by apply A3|].
  intros x Hx. apply A1. intros Hx'. by apply Hne, (queue_disjoint h q' q l S x).
Qed.

(** ** Running the primitive steps *)

Lemma ent_bind {A B} (f : ipftqent -> A) e (k : A -> ST tqheap B) h t :
  ents h !! e = Some t -> (ent f e ≫= k) h = k (f t) h.
Proof. intros E. unfold mbind, st_bind, ent. by rewrite E. Qed.
Lemma que_bind {A B} (f : ipftq -> A) q (k : A -> ST tqheap B) h t :
  qs h !! q = Some t -> (que f q ≫= k) h = k (f t) h.
Proof. intros E. unfold mbind, st_bind, que. by rewrite E. Qed.
Lemma ent_run {A} (f : ipftqent -> A) e h t : ents h !! e = Some t -> ent f e h = Some (f t, h).
Proof. intros E. unfold ent. by rewrite E. Qed.
Lemma upd_ent_run e f h t : ents h !! e = Some t -> upd_ent e f h = Some (tt, set_ent e f h).
Proof. intros E. unfold upd_ent. by rewrite E. Qed.
Lemma upd_que_run q f h t : qs h !! q = Some t -> upd_que q f h = Some (tt, set_que q f h).
Proof. intros E. unfold upd_que. by rewrite E. Qed.
Lemma need_bind {A B} (a : A) (k : A -> ST tqheap B) h : (need (Some a) ≫= k) h = k a h.
Proof. done. Qed.
Lemma ret_bind {A B} (a : A) (k : A -> ST tqheap B) h : (mret a ≫= k) h = k a h.
Proof. done. Qed.
Lemma bind_assoc {A B C} (m : ST tqheap A) (f : A -> ST tqheap B) (g : B -> ST tqheap C) h :
  ((m ≫= f) ≫= g) h = (m ≫= fun a => f a ≫= g) h.
Proof. unfold mbind, st_bind. by destruct (m h) as [[]|]. Qed.

(** [*c = v] as a function on heaps. *)
Definition hstore (c : cell) (v : option loc) (h : tqheap) : tqheap :=
  match c with
  | HeadOf q => set_que q (fun t => t <| ifq_head := v |>) h
  | NextOf e => set_ent e (fun t => t <| tqe_next := v |>) h
  end.
Lemma store_run c v h o : ld h c = Some o -> store c v h = Some (tt, hstore c v h).
Proof.
  destruct c as [q|e]; simpl; intros (t & E & _)%fmap_Some; [by eapply upd_que_run|by eapply upd_ent_run].
Qed.

Lemma ents_set_ent e f h y : ents (set_ent e f h) !! y = if decide (e = y) then f <$> ents h !! y else ents h !! y.
Proof. simpl. case_decide; [subst; apply lookup_alter_eq|by apply lookup_alter_ne]. Qed.
Lemma qs_set_que q f h y : qs (set_que q f h) !! y = if decide (q = y) then f <$> qs h !! y else qs h !! y.
Proof. simpl. case_decide; [subst; apply lookup_alter_eq|by apply lookup_alter_ne]. Qed.

Lemma ld_hstore c v h c' :
  ld (hstore c v h) c' = if decide (c = c') then (fun _ => v) <$> ld h c' else ld h c'.
Proof.
  destruct c as [q|e], c' as [q'|e']; cbn [hstore ld]; rewrite ?qs_set_que, ?ents_set_ent; repeat case_decide;
    try congruence; try done; by destruct (_ !! _).
Qed.
Lemma lk_hstore c v h e : lk (hstore c v h) e = lk h e.
Proof.
  destruct c as [q|e']; unfold lk; cbn [hstore]; [done|].
  rewrite ents_set_ent. case_decide; [|done]. by destruct (_ !! _).
Qed.

Lemma ld_set_ent_same e f h c :
  (forall t, tqe_next (f t) = tqe_next t) -> ld (set_ent e f h) c = ld h c.
Proof.
  intros Hf. destruct c as [q|e']; cbn [ld]; [done|]. rewrite ents_set_ent.
  case_decide; [subst|done]. destruct (ents h !! e'); simpl; [by rewrite Hf|done].
Qed.
Lemma lk_set_ent_ne e f h x : e <> x -> lk (set_ent e f h) x = lk h x.
Proof. intros. unfold lk. rewrite ents_set_ent. by case_decide. Qed.
Lemma lk_set_ent_same e f h x :
  (forall t, tqe_pnext (f t) = tqe_pnext t) -> (forall t, tqe_ifq (f t) = tqe_ifq t) ->
  lk (set_ent e f h) x = lk h x.
Proof.
  intros H1 H2. unfold lk. rewrite ents_set_ent. case_decide; [subst|done].
  destruct (ents h !! x); simpl; [by rewrite H1, H2|done].
Qed.
Lemma ld_set_que_same q f h c :
  (forall t, ifq_head (f t) = ifq_head t) -> ld (set_que q f h) c = ld h c.
Proof.
  intros Hf. destruct c as [q'|e']; cbn [ld]; [|done]. rewrite qs_set_que.
  case_decide; [subst|done]. destruct (qs h !! q'); simpl; [by rewrite Hf|done].
Qed.

Lemma ents_hstore_ne c v h x : c <> NextOf x -> ents (hstore c v h) !! x = ents h !! x.
Proof. destruct c; cbn [hstore]; intros; [done|]. rewrite ents_set_ent. case_decide; congruence. Qed.

Lemma lk_Some h x c q : lk h x = Some (c, q) ->
  exists t, ents h !! x = Some t /\ tqe_pnext t = c /\ tqe_ifq t = q.
Proof. unfold lk. intros (t & ? & [= -> ->])%fmap_Some. eauto. Qed.

(** [links_only] for each primitive write. *)
Lemma links_only_ent q S e f h :
  e ∈ S -> (forall t, erase (f t) = erase t) -> links_only q S h (set_ent e f h).
Proof.
  intros He Hf. split; try done; intros y *; try rewrite ents_set_ent.
  - intros. case_decide; [subst; done|done].
  - case_decide; [subst|done]. destruct (ents h !! y); simpl; [by rewrite Hf|done].
Qed.
Lemma links_only_que q S f h :
  (forall t, qerase q (f t) = qerase q t) -> links_only q S h (set_que q f h).
Proof.
  intros Hf. split; try done; intros; rewrite qs_set_que; case_decide; try done; try congruence.
  destruct (qs h !! q); simpl; [by rewrite Hf|done].
Qed.
Lemma links_only_hstore q S c v h :
  (c = HeadOf q \/ exists x, c = NextOf x /\ x ∈ S) -> links_only q S h (hstore c v h).
Proof.
  intros [->|(x & -> & ?)]; cbn [hstore]; [by apply links_only_que|by apply links_only_ent].
Qed.

(** A middle entry, seen through the segment. *)
Lemma queue_mid h q l1 x l2 :
  queue h q (l1 ++ x :: l2) ->
  let m := after (HeadOf q) l1 in
  exists t tx, qs h !! q = Some t /\ ents h !! x = Some tx /\
    seg h q (HeadOf q) l1 m /\ ld h m = Some (Some x) /\
    tqe_pnext tx = Some m /\ tqe_ifq tx = Some q /\ tqe_next tx = head l2 /\
    seg h q (NextOf x) l2 (ifq_tail t) /\ ld h (ifq_tail t) = Some None /\
    NoDup (l1 ++ x :: l2) /\ (m ∉ cells (HeadOf q) l1) /\ m <> NextOf x /\ (x ∉ l1) /\ (x ∉ l2).
Proof.
  intros (t & Hq & Hnd & Hs & Hl) m.
  apply seg_app in Hs as [Hs1 Hs2]. fold m in Hs1, Hs2. destruct Hs2 as (Hm & Hx & Hs2).
  apply lk_Some in Hx as (tx & Hx & Hpn & Hif).
  pose proof Hnd as Hnd'. apply NoDup_app in Hnd' as (Hn1 & Hd & Hn2).
  apply NoDup_cons in Hn2 as [Hx2 Hn2].
  exists t, tx. split_and!; try done.
  - destruct l2 as [|y l2]; simpl in Hs2.
    + rewrite <- Hs2 in Hl. simpl in Hl. rewrite Hx in Hl. simpl in Hl. by injection Hl.
    + destruct Hs2 as (E & _). rewrite Hx in E. simpl in E. by injection E.
  - by apply after_not_cells.
  - destruct (after_elem (HeadOf q) l1) as [E|(z & E & Hz)]; unfold m; rewrite E; [done|].
    intros [= ->]. apply (Hd x Hz). set_solver.
  - intros Hz. apply (Hd x Hz). set_solver.
Qed.

(** The cell before an entry is the head or belongs to an earlier entry. *)
Lemma before_elem q l1 (x : loc) (l2 : list loc) y :
  NoDup (l1 ++ x :: l2) -> y ∈ x :: l2 -> after (HeadOf q) l1 <> NextOf y.
Proof.
  intros (_ & Hd & _)%NoDup_app Hy E.
  destruct (after_elem (HeadOf q) l1) as [E'|(z & E' & Hz)]; rewrite E' in E; [done|].
  injection E as ->. by apply (Hd y Hz).
Qed.

Lemma links_only_before q l1 x l2 v h :
  links_only q (l1 ++ x :: l2) h (hstore (after (HeadOf q) l1) v h).
Proof.
  apply links_only_hstore. destruct (after_elem (HeadOf q) l1) as [E|(z & E & Hz)];
    [by left|right; exists z; set_solver].
Qed.

(** [unlink] is one store through the back link and one repair. *)
Lemma unlink_run h q l1 x l2 :
  queue h q (l1 ++ x :: l2) ->
  let m := after (HeadOf q) l1 in
  unlink x q h =
  match l2 with
  | y :: _ => Some (tt, set_ent y (fun t => t <| tqe_pnext := Some m |>) (hstore m (Some y) h))
  | [] => Some (tt, set_que q (fun t => t <| ifq_tail := m |>) (hstore m None h))
  end.
Proof.
  intros Hqueue m. pose proof (queue_mid _ _ _ _ _ Hqueue) as Hmid. cbv zeta in Hmid. fold m in Hmid.
  destruct Hmid as (t & tx & Hq & Hx & Hs1 & Hm & Hpn & Hif & Hnx & Hs2 & Hl & Hnd & Hmc & Hmx & Hx1 & Hx2).
  pose proof (links_only_before q l1 x l2 (head l2) h) as Hlo. fold m in Hlo.
  set (h1 := hstore m (head l2) h) in *.
  assert (Hx_1 : ents h1 !! x = Some tx) by by unfold h1; rewrite ents_hstore_ne.
  unfold unlink. rewrite (ent_bind _ _ _ _ _ Hx), Hpn, need_bind, (ent_bind _ _ _ _ _ Hx), Hnx.
  rewrite (bind_eq _ _ _ tt h1) by by eapply store_run.
  rewrite (ent_bind _ _ _ _ _ Hx_1), (ent_bind _ _ _ _ _ Hx_1), Hpn, Hnx.
  destruct l2 as [|y l2].
  - destruct (qs h1 !! q) as [t1|] eqn:Hq1.
    + by apply (upd_que_run _ _ _ _ Hq1).
    + pose proof (lo_qdat _ _ _ _ Hlo) as E. rewrite Hq, Hq1 in E. discriminate.
  - destruct Hs2 as (_ & (ty & Hy & _)%lk_Some & _).
    apply (upd_ent_run _ _ _ ty). unfold h1. rewrite ents_hstore_ne; [done|].
    apply (before_elem q l1 x (y :: l2)); [done|set_solver].
Qed.

Lemma unlink_last_queue h q l1 x :
  queue h q (l1 ++ [x]) ->
  let m := after (HeadOf q) l1 in
  queue (set_que q (fun t => t <| ifq_tail := m |>) (hstore m None h)) q l1.
Proof.
  intros Hqueue m. pose proof (queue_mid _ _ _ _ _ Hqueue) as Hmid. cbv zeta in Hmid. fold m in Hmid.
  destruct Hmid as (t & tx & Hq & Hx & Hs1 & Hm & Hpn & Hif & Hnx & Hs2 & Hl & Hnd & Hmc & Hmx & Hx1 & Hx2).
  apply NoDup_app in Hnd as (Hn1 & _).
  set (h1 := hstore m None h).
  destruct (qs h1 !! q) as [t1|] eqn:Hq1.
  2: { pose proof (lo_qdat _ _ _ _ (links_only_before q l1 x [] None h)) as E.
       fold m h1 in E. rewrite Hq, Hq1 in E. discriminate. }
  eexists. rewrite qs_set_que, decide_True, Hq1 by done. split; [done|]. split; [done|].
  simpl ifq_tail. rewrite !ld_set_que_same by done. split.
  - eapply seg_frame; [done| |].
    + intros c Hc. rewrite ld_set_que_same by done. unfold h1. rewrite ld_hstore. case_decide; [by subst|done].
    + intros z Hz. apply lk_hstore.
  - unfold h1. rewrite ld_hstore, decide_True, Hm by done. done.
Qed.

Lemma unlink_mid_queue h q l1 x y l2 :
  queue h q (l1 ++ x :: y :: l2) ->
  let m := after (HeadOf q) l1 in
  queue (set_ent y (fun t => t <| tqe_pnext := Some m |>) (hstore m (Some y) h)) q (l1 ++ y :: l2).
Proof.
  intros Hqueue m. pose proof (queue_mid _ _ _ _ _ Hqueue) as Hmid. cbv zeta in Hmid. fold m in Hmid.
  destruct Hmid as (t & tx & Hq & Hx & Hs1 & Hm & Hpn & Hif & Hnx & Hs2 & Hl & Hnd & Hmc & Hmx & Hx1 & Hx2).
  pose proof (fun z => before_elem q l1 x (y :: l2) z Hnd) as Hbef. fold m in Hbef.
  pose proof Hnd as (Hn1 & Hd & Hn2)%NoDup_app. apply NoDup_cons in Hn2 as [Hxy Hn2].
  pose proof Hn2 as [Hy2 _]%NoDup_cons.
  destruct Hs2 as (Hy1 & (ty & Hy & Hpy & Hiy)%lk_Some & Hs2).
  set (h1 := hstore m (Some y) h). set (h2 := set_ent y _ h1).
  assert (Hy_1 : ents h1 !! y = Some ty) by (unfold h1; rewrite ents_hstore_ne by (apply Hbef; set_solver); done).
  assert (Hld : forall c, c <> m -> ld h2 c = ld h c).
  { intros c Hc. unfold h2. rewrite ld_set_ent_same by done. unfold h1. rewrite ld_hstore. by case_decide. }
  assert (Hlk : forall z, z <> y -> lk h2 z = lk h z).
  { intros z Hz. unfold h2. rewrite lk_set_ent_ne by done. apply lk_hstore. }
  assert (Hqs : exists t2, qs h2 !! q = Some t2 /\ ifq_tail t2 = ifq_tail t).
  { unfold h2, h1. destruct m as [q'|z]; cbn [hstore set_ent]; [|by exists t].
    change (qs (set_ent y ?f ?g)) with (qs g). rewrite qs_set_que.
    case_decide; [subst; rewrite Hq; by eexists|by exists t]. }
  destruct Hqs as (t2 & Hq2 & Ht2). exists t2. rewrite Ht2. split_and!; [done| |apply seg_app; split|].
  - apply NoDup_app. split_and!; [done| |done]. intros z Hz Hz2. apply (Hd z Hz). by right.
  - eapply seg_frame; [done| |].
    + intros c Hc. apply Hld. by intros ->.
    + intros z Hz. apply Hlk. set_solver.
  - fold m. split_and!.
    + unfold h2. rewrite ld_set_ent_same by done. unfold h1. by rewrite ld_hstore, decide_True, Hm.
    + unfold lk, h2. rewrite ents_set_ent, decide_True, Hy_1 by done. simpl. by rewrite Hiy.
    + eapply seg_frame; [done| |].
      * intros c Hc. apply Hld. apply elem_cells in Hc as [->|(z & -> & Hz)]; intros E;
          symmetry in E; revert E; apply Hbef; set_solver.
      * intros z Hz. apply Hlk. set_solver.
  - rewrite Hld; [done|]. apply seg_after in Hs2. rewrite Hs2. intros E. symmetry in E. revert E.
    destruct (after_elem (NextOf y) l2) as [E1|(z1 & E1 & Hz1)]; rewrite E1; apply Hbef; set_solver.
Qed.

Lemma unlink_spec h q l1 x l2 :
  queue h q (l1 ++ x :: l2) ->
  exists h', unlink x q h = Some (tt, h') /\ queue h' q (l1 ++ l2) /\
             links_only q (l1 ++ x :: l2) h h' /\ ents h' !! x = ents h !! x.
Proof.
  intros Hq. rewrite (unlink_run _ _ _ _ _ Hq). pose proof (queue_NoDup _ _ _ Hq) as Hnd.
  assert (Hmx : after (HeadOf q) l1 <> NextOf x) by (apply (before_elem q l1 x l2); set_solver).
  destruct l2 as [|y l2]; eexists; (split; [done|]); split_and!.
  - rewrite app_nil_r. by apply unlink_last_queue with (x := x).
  - eapply links_only_trans; [apply (links_only_before q l1 x)|]. by apply links_only_que.
  - by apply ents_hstore_ne.
  - by apply unlink_mid_queue with (x := x).
  - eapply links_only_trans; [apply (links_only_before q l1 x)|]. apply links_only_ent; [set_solver|done].
  - rewrite ents_set_ent, decide_False; [by apply ents_hstore_ne|].
    intros ->. apply NoDup_app in Hnd as (_ & _ & [? _]%NoDup_cons). set_solver.
Qed.

(** [link_tail] after the entry's links are complete: any heap [h4] that agrees
    with the result outside [x] and has [x] as a last entry of [q]. *)
Lemma link_tail_run h q l x tx :
  queue h q l -> x ∉ l -> ents h !! x = Some tx ->
  let m := after (HeadOf q) l in
  link_tail x q h =
  Some (tt, set_que q (fun t => t <| ifq_tail := NextOf x |>)
              (hstore m (Some x) (set_ent x (fun t => t <| tqe_pnext := Some m |>) h))).
Proof.
  intros (t & Hq & Hnd & Hs & Hl) Hx Htx m. pose proof (seg_after _ _ _ _ _ Hs) as Ht.
  unfold link_tail. rewrite (que_bind _ _ _ _ _ Hq), Ht. fold m. rewrite Ht in Hl. fold m in Hl.
  set (h1 := set_ent x _ h).
  rewrite (bind_eq _ _ _ tt h1) by by apply (upd_ent_run _ _ _ tx).
  rewrite (que_bind _ _ _ _ t) by done. rewrite Ht. fold m.
  assert (Hl1 : ld h1 m = Some None) by (unfold h1; by rewrite ld_set_ent_same).
  rewrite (bind_eq _ _ _ tt (hstore m (Some x) h1)) by by eapply store_run.
  assert (is_Some (qs (hstore m (Some x) h1) !! q)) as [t' Ht'].
  { destruct m as [q'|z]; cbn [hstore]; [rewrite qs_set_que; case_decide; subst|];
      unfold h1; cbn [set_ent]; simpl; rewrite Hq; by eexists. }
  by apply (upd_que_run _ _ _ t').
Qed.

Lemma link_tail_queue h q l x h3 h4 :
  queue h q l -> x ∉ l ->
  let m := after (HeadOf q) l in
  h3 = set_que q (fun t => t <| ifq_tail := NextOf x |>)
         (hstore m (Some x) (set_ent x (fun t => t <| tqe_pnext := Some m |>) h)) ->
  (forall c, c <> NextOf x -> ld h4 c = ld h3 c) ->
  (forall y, y <> x -> lk h4 y = lk h3 y) ->
  (ifq_tail <$> qs h4 !! q) = (ifq_tail <$> qs h3 !! q) ->
  ld h4 (NextOf x) = Some None -> lk h4 x = Some (Some m, Some q) ->
  queue h4 q (l ++ [x]).
Proof.
  intros (t & Hq & Hnd & Hs & Hl) Hx m -> Hld Hlk Hqs Hnx Hlx.
  pose proof (seg_after _ _ _ _ _ Hs) as Ht. fold m in Ht. rewrite Ht in *.
  assert (Hmx : m <> NextOf x).
  { destruct (after_elem (HeadOf q) l) as [E|(z & E & Hz)]; unfold m; rewrite E; [done|]. by intros [= ->]. }
  assert (Hmc : m ∉ cells (HeadOf q) l) by by apply after_not_cells.
  rewrite qs_set_que, decide_True in Hqs by done.
  assert (is_Some (qs (hstore m (Some x) (set_ent x (fun t => t <| tqe_pnext := Some m |>) h)) !! q)) as [t' Ht'].
  { destruct m as [q'|z]; cbn [hstore]; [rewrite qs_set_que; case_decide; subst|];
      simpl; rewrite Hq; by eexists. }
  rewrite Ht' in Hqs. simpl in Hqs. apply fmap_Some in Hqs as (t4 & Hq4 & Ht4).
  exists t4. rewrite <- Ht4. split_and!; [done| |apply seg_app; split|done].
  - apply NoDup_app. split_and!; [done| |by apply NoDup_singleton].
    intros z Hz Hz'. apply list_elem_of_singleton in Hz' as ->. done.
  - eapply seg_frame; [done| |].
    + intros c Hc. rewrite Hld.
      * rewrite ld_set_que_same by done. rewrite ld_hstore. case_decide; [by subst|]. by rewrite ld_set_ent_same.
      * intros ->. apply elem_cells in Hc as [?|(z & [= <-] & ?)]; done.
    + intros z Hz. rewrite Hlk by set_solver.
      change (lk (set_que ?a ?b ?g) z) with (lk g z). rewrite lk_hstore. apply lk_set_ent_ne. set_solver.
  - fold m. split_and!; [|done|done]. rewrite Hld by done. rewrite ld_set_que_same by done.
    rewrite ld_hstore, decide_True by done. rewrite ld_set_ent_same by done. by rewrite Hl.
Qed.

Lemma links_only_link_tail h q l x :
  let m := after (HeadOf q) l in
  links_only q (x :: l) h
    (set_que q (fun t => t <| ifq_tail := NextOf x |>)
       (hstore m (Some x) (set_ent x (fun t => t <| tqe_pnext := Some m |>) h))).
Proof.
  intros m. eapply links_only_trans; [eapply links_only_trans|].
  - apply (links_only_ent q (x :: l) x (fun t => t <| tqe_pnext := Some m |>)); [set_solver|done].
  - apply (links_only_hstore q (x :: l) m). unfold m.
    destruct (after_elem (HeadOf q) l) as [E|(z & E & Hz)]; rewrite E; [by left|right; exists z; set_solver].
  - by apply links_only_que.
Qed.

(** An entry whose links are complete already. *)
Lemma link_tail_spec h q l x tx :
  queue h q l -> x ∉ l -> ents h !! x = Some tx -> tqe_next tx = None -> tqe_ifq tx = Some q ->
  exists h', link_tail x q h = Some (tt, h') /\ queue h' q (l ++ [x]) /\ links_only q (x :: l) h h'.
Proof.
  intros Hq Hx Htx Hn Hi. rewrite (link_tail_run _ _ _ _ _ Hq Hx Htx). eexists. split; [done|].
  set (m := after (HeadOf q) l). split; [|apply links_only_link_tail].
  assert (Hmx : m <> NextOf x).
  { destruct (after_elem (HeadOf q) l) as [E|(z & E & Hz)]; unfold m; rewrite E; [done|]. by intros [= ->]. }
  eapply (link_tail_queue h q l x); [done|done|reflexivity|done..| |].
  - fold m. rewrite ld_set_que_same by done. rewrite ld_hstore, decide_False by done.
    rewrite ld_set_ent_same by done. simpl. by rewrite Htx, <- Hn.
  - fold m. change (lk (set_que ?a ?b ?g) x) with (lk g x). rewrite lk_hstore.
    unfold lk. rewrite ents_set_ent, decide_True, Htx by done. simpl. by rewrite Hi.
Qed.

(** Successive writes to one object are one write. *)
Lemma alter_twice {A} (f g : A -> A) (m : gmap loc A) i :
  alter f i (alter g i m) = alter (fun t => f (g t)) i m.
Proof.
  apply map_eq. intros j. rewrite !lookup_alter. repeat case_decide; try done.
  by destruct (m !! _).
Qed.
Lemma alter_at {A} (f g : A -> A) (m : gmap loc A) i :
  (forall x, m !! i = Some x -> f x = g x) -> alter f i m = alter g i m.
Proof.
  intros E. apply map_eq. intros j. rewrite !lookup_alter. case_decide; [|done].
  destruct (m !! i) eqn:Ei; simpl; [by rewrite E|done].
Qed.
Lemma set_ent_set_ent e f g h : set_ent e f (set_ent e g h) = set_ent e (fun t => f (g t)) h.
Proof. unfold set_ent, field_set; simpl. by rewrite alter_twice. Qed.
Lemma set_que_set_que q f g h : set_que q f (set_que q g h) = set_que q (fun t => f (g t)) h.
Proof. unfold set_que, field_set; simpl. by rewrite alter_twice. Qed.
Lemma ents_set_ent_eq e f h t : ents h !! e = Some t -> ents (set_ent e f h) !! e = Some (f t).
Proof. intros E. by rewrite ents_set_ent, decide_True, E. Qed.
Lemma qs_set_que_eq q f h t : qs h !! q = Some t -> qs (set_que q f h) !! q = Some (f t).
Proof. intros E. by rewrite qs_set_que, decide_True, E. Qed.

(** Losing a reference, as one write. *)
Definition drop_ref (t : ipftq) : ipftq :=
  let t := t <| ifq_ref ::= fun x => x - 1 |> in
  if (ifq_ref t =? 0) && has (ifq_flags t) IFQF_USER
  then t <| ifq_flags ::= fun x => Z.lor x IFQF_DELETE |> else t.

Lemma deletetimeoutqueue_run q h t :
  qs h !! q = Some t -> ipf_deletetimeoutqueue q h = Some (ifq_ref t - 1, set_que q drop_ref h).
Proof.
  intros Hq. unfold ipf_deletetimeoutqueue.
  set (dec := fun t => t <| ifq_ref ::= fun x => x - 1 |>).
  rewrite (bind_eq _ _ _ tt _ (upd_que_run q dec h t Hq)).
  pose proof (qs_set_que_eq q dec h t Hq) as H1.
  rewrite (que_bind _ _ _ _ _ H1), (que_bind _ _ _ _ _ H1).
  assert (Eext : forall f g, (f t = g t) -> set_que q f h = set_que q g h).
  { intros f g E. unfold set_que, field_set; simpl. f_equal. apply alter_at. congruence. }
  destruct ((ifq_ref (dec t) =? 0) && has (ifq_flags (dec t)) IFQF_USER) eqn:E; cbn [when_].
  - rewrite (bind_eq _ _ _ tt _ (upd_que_run q _ _ _ H1)). rewrite set_que_set_que.
    pose proof (qs_set_que_eq q (fun t0 => dec t0 <| ifq_flags ::= fun x => Z.lor x IFQF_DELETE |>) h t Hq) as H2.
    unfold que. rewrite H2. simpl. do 2 f_equal. apply Eext. unfold drop_ref. fold (dec t). by rewrite E.
  - rewrite ret_bind. unfold que. rewrite H1. simpl. do 2 f_equal. apply Eext.
    unfold drop_ref. fold (dec t). by rewrite E.
Qed.

Lemma drop_ref_ref t : ifq_ref (drop_ref t) = ifq_ref t - 1.
Proof. unfold drop_ref. by case_match. Qed.
Lemma drop_ref_links t : ifq_head (drop_ref t) = ifq_head t /\ ifq_tail (drop_ref t) = ifq_tail t /\
  ifq_ttl (drop_ref t) = ifq_ttl t.
Proof. unfold drop_ref. by case_match. Qed.

(** What callers rely on besides the order: expiry, last use and owner of an
    entry; timeout and reference count of a queue. *)
Definition timing (h : tqheap) (x : loc) : option (Z * Z) :=
  (fun t => (tqe_die t, tqe_touched t)) <$> ents h !! x.
Definition owner (h : tqheap) (x : loc) : option (option loc * Z * Z * Z) :=
  (fun t => (tqe_parent t, tqe_flags t, tqe_state0 t, tqe_state1 t)) <$> ents h !! x.
Definition ttl_of (h : tqheap) (q : loc) : option Z := ifq_ttl <$> qs h !! q.
Definition refs (h : tqheap) (q : loc) : option Z := ifq_ref <$> qs h !! q.

Lemma erase_views h h' y :
  erase <$> ents h' !! y = erase <$> ents h !! y -> timing h' y = timing h y /\ owner h' y = owner h y.
Proof.
  unfold timing, owner. intros E.
  destruct (ents h' !! y) as [t'|], (ents h !! y) as [t|]; simpl in *; try discriminate; [|done].
  apply (inj Some) in E. destruct t', t; unfold erase in E; simpl in *. by injection E as -> -> -> -> -> -> ->.
Qed.
Lemma qerase_views h h' q :
  qerase q <$> qs h' !! q = qerase q <$> qs h !! q -> ttl_of h' q = ttl_of h q /\ refs h' q = refs h q.
Proof.
  unfold ttl_of, refs. intros E.
  destruct (qs h' !! q) as [t'|], (qs h !! q) as [t|]; simpl in *; try discriminate; [|done].
  apply (inj Some) in E. destruct t', t; unfold qerase in E; simpl in *. by injection E as -> -> -> -> ->.
Qed.

Lemma links_only_views q S h h' :
  links_only q S h h' ->
  (forall y, timing h' y = timing h y /\ owner h' y = owner h y) /\
  (forall q', ttl_of h' q' = ttl_of h q' /\ refs h' q' = refs h q').
Proof.
  intros [A1 A2 A3 A4 A5]. split; [intros y; by apply erase_views|].
  intros q'. destruct (decide (q' = q)) as [->|]; [by apply qerase_views|].
  unfold ttl_of, refs. by rewrite A3.
Qed.

(** Replacing one queue's list in the program's queues. *)
Lemma tq_rel_update h h' Q q l lnew (S : list loc) :
  tq_rel h Q -> Q !! q = Some l ->
  (forall y, y ∉ S -> ents h' !! y = ents h !! y) ->
  (forall q', q' <> q -> qs h' !! q' = qs h !! q') ->
  (forall q' l' y, Q !! q' = Some l' -> q' <> q -> y ∈ l' -> y ∉ S) ->
  queue h' q lnew -> tq_rel h' (<[q := lnew]> Q).
Proof.
  intros HQ Hq He Hqs Hd Hnew q' l' Hl'. destruct (decide (q' = q)) as [->|Hne].
  - rewrite lookup_insert_eq in Hl'. by injection Hl' as <-.
  - rewrite lookup_insert_ne in Hl' by done. eapply queue_frame; [by apply HQ|by apply Hqs|].
    intros y Hy. apply He. by eapply Hd.
Qed.

Lemma tq_rel_disjoint h Q q l q' l' x :
  tq_rel h Q -> Q !! q = Some l -> Q !! q' = Some l' -> q' <> q -> x ∈ l' -> x ∉ l.
Proof.
  intros HQ Hq Hq' Hne Hx Hx'. apply Hne. eapply (queue_disjoint h q' q l' l x); eauto.
Qed.

(** An entry on none of the program's queues. *)
Definition unqueued (Q : gmap loc (list loc)) (x : loc) : Prop :=
  forall q l, Q !! q = Some l -> x ∉ l.

(** ** The operations on lists *)

Lemma queueappend_run ticks h Q q l x par ttl :
  tq_rel h Q -> Q !! q = Some l -> ttl_of h q = Some ttl -> is_Some (ents h !! x) -> unqueued Q x ->
  exists h', ipf_queueappend ticks x q par h = Some (tt, h') /\
    tq_rel h' (<[q := l ++ [x]]> Q) /\
    timing h' x = Some (u32 (ticks + ttl), u32 ticks) /\
    (forall y, y <> x -> timing h' y = timing h y /\ owner h' y = owner h y) /\
    refs h' q = (fun r => r + 1) <$> refs h q /\
    (forall q', q' <> q -> qs h' !! q' = qs h !! q') /\ ttl_of h' q = Some ttl /\
    owner h' x = owner (set_ent x (fun t => t <| tqe_parent := par |>) h) x /\
    (exists t, ents h' !! x = Some t /\ tqe_ifq t = Some q).
Proof.
  intros HQ Hq Httl [tx Htx] Hun. pose proof (HQ q l Hq) as Hqueue.
  assert (Hx : x ∉ l) by by eapply Hun.
  set (fp := fun t : ipftqent => t <| tqe_parent := par |>).
  set (h0 := set_ent x fp h).
  assert (Hqueue0 : queue h0 q l).
  { eapply queue_frame; [done..|]. intros y Hy. unfold h0. rewrite ents_set_ent, decide_False; [done|].
    by intros ->. }
  pose proof (ents_set_ent_eq x fp h tx Htx) as Htx0. fold h0 in Htx0.
  pose proof (link_tail_run h0 q l x (fp tx) Hqueue0 Hx Htx0) as Hrun. cbv zeta in Hrun.
  pose proof (links_only_link_tail h0 q l x) as Hlo. cbv zeta in Hlo.
  set (m := after (HeadOf q) l) in *. set (h3 := set_que q _ _) in *.
  assert (Hmx : m <> NextOf x).
  { destruct (after_elem (HeadOf q) l) as [E|(z & E & Hz)]; unfold m; rewrite E; [done|]. by intros [= ->]. }
  assert (exists t3, ents h3 !! x = Some t3 /\ tqe_pnext t3 = Some m) as (t3 & Ht3 & Hp3).
  { unfold h3. change (ents (set_que ?a ?b ?g)) with (ents g). rewrite ents_hstore_ne by done.
    erewrite ents_set_ent_eq by done. by eexists. }
  assert (exists q3, qs h3 !! q = Some q3 /\ ifq_ttl q3 = ttl) as (q3 & Hq3 & Httl3).
  { destruct (links_only_views _ _ _ _ Hlo) as [_ Hv]. destruct (Hv q) as [E _].
    unfold ttl_of in E, Httl. change (qs h0) with (qs h) in E. rewrite Httl in E.
    apply fmap_Some in E as (q3 & ? & ?). by exists q3. }
  unfold ipf_queueappend. rewrite (bind_eq _ _ _ tt h0) by by apply (upd_ent_run _ _ _ tx).
  rewrite (bind_eq _ _ _ tt h3 Hrun).
  rewrite (bind_eq _ _ _ tt _ (upd_ent_run _ _ _ _ Ht3)).
  rewrite (bind_eq _ _ _ tt _ (upd_ent_run _ _ _ _ (ents_set_ent_eq _ _ _ _ Ht3))).
  rewrite set_ent_set_ent. rewrite (que_bind _ _ _ _ q3) by done. rewrite Httl3.
  rewrite (bind_eq _ _ _ tt _ (upd_ent_run _ _ _ _ (ents_set_ent_eq _ _ _ _ Ht3))), set_ent_set_ent.
  rewrite (bind_eq _ _ _ tt _ (upd_ent_run _ _ _ _ (ents_set_ent_eq _ _ _ _ Ht3))), set_ent_set_ent.
  rewrite (upd_que_run _ _ _ q3) by done.
  destruct (links_only_views _ _ _ _ Hlo) as [Hve Hvq].
  eexists. split; [done|]. split_and!.
  - eapply (tq_rel_update h _ Q q l _ (x :: l)); [done|done| | | |].
    + intros y Hy. change (ents (set_que ?a ?b ?g)) with (ents g).
      pose proof Hy as [Hyx _]%not_elem_of_cons.
      rewrite ents_set_ent, decide_False by congruence. rewrite (lo_ents _ _ _ _ Hlo) by done.
      unfold h0. by rewrite ents_set_ent, decide_False by congruence.
    + intros q' Hne. rewrite qs_set_que, decide_False by done. by rewrite <- (lo_qs _ _ _ _ Hlo).
    + intros q' l' y Hl' Hne Hy. apply not_elem_of_cons. split; [intros ->; by eapply Hun|].
      by eapply (tq_rel_disjoint h Q q l q' l').
    + eapply (link_tail_queue h0 q l x h3); [done|done|reflexivity|..].
      * intros c Hc. rewrite ld_set_que_same by done. destruct c as [c|c]; cbn [ld]; [done|].
        rewrite ents_set_ent, decide_False by congruence. done.
      * intros y Hy. change (lk (set_que ?a ?b ?g) y) with (lk g y). by apply lk_set_ent_ne.
      * rewrite (qs_set_que_eq _ _ _ q3) by done. by rewrite Hq3.
      * rewrite ld_set_que_same by done. cbn [ld]. by rewrite (ents_set_ent_eq _ _ _ _ Ht3).
      * change (lk (set_que ?a ?b ?g) x) with (lk g x). unfold lk. rewrite (ents_set_ent_eq _ _ _ _ Ht3).
        simpl. by rewrite Hp3.
  - unfold timing. change (ents (set_que ?a ?b ?g)) with (ents g). by rewrite (ents_set_ent_eq _ _ _ _ Ht3).
  - intros y Hy. destruct (Hve y) as [E1 E2]. unfold timing, owner in *.
    change (ents (set_que ?a ?b ?g)) with (ents g). rewrite ents_set_ent, decide_False by congruence.
    rewrite E1, E2. unfold h0. by rewrite ents_set_ent, decide_False by congruence.
  - destruct (Hvq q) as [_ E2]. unfold refs in *. rewrite (qs_set_que_eq _ _ _ q3) by done.
    change (qs h0) with (qs h) in E2. rewrite <- E2, Hq3. done.
  - intros q' Hne. rewrite qs_set_que, decide_False by done. by rewrite <- (lo_qs _ _ _ _ Hlo).
  - unfold ttl_of. rewrite (qs_set_que_eq _ _ _ q3) by done. simpl. by rewrite Httl3.
  - destruct (Hve x) as [_ <-]. unfold owner. change (ents (set_que ?a ?b ?g)) with (ents g).
    by rewrite (ents_set_ent_eq _ _ _ _ Ht3), Ht3.
  - change (ents (set_que ?a ?b ?g)) with (ents g). rewrite (ents_set_ent_eq _ _ _ _ Ht3). by eexists.
Qed.

(** A queue does not see writes to other entries, to the data of its own, or to
    the data of queue objects. *)
Lemma queue_set_other h q l x f : queue h q l -> x ∉ l -> queue (set_ent x f h) q l.
Proof.
  intros Hq Hx. eapply queue_frame; [done..|]. intros y Hy.
  rewrite ents_set_ent, decide_False; [done|]. by intros ->.
Qed.
Lemma queue_set_data h q l x f :
  (forall t, tqe_next (f t) = tqe_next t) ->
  (forall t, tqe_pnext (f t) = tqe_pnext t) -> (forall t, tqe_ifq (f t) = tqe_ifq t) ->
  queue h q l -> queue (set_ent x f h) q l.
Proof.
  intros Hn Hp Hi (t & Hq & Hnd & Hs & Hl). exists t. split_and!; [done|done| |].
  - eapply seg_frame; [done| |]; intros; [by apply ld_set_ent_same|by apply lk_set_ent_same].
  - by rewrite ld_set_ent_same.
Qed.
Lemma queue_set_que h q l q' g :
  (forall t, ifq_head (g t) = ifq_head t) -> (forall t, ifq_tail (g t) = ifq_tail t) ->
  queue h q l -> queue (set_que q' g h) q l.
Proof.
  intros Hh Ht (t & Hq & Hnd & Hs & Hl).
  exists (if decide (q' = q) then g t else t).
  assert (Et : ifq_tail (if decide (q' = q) then g t else t) = ifq_tail t) by (case_decide; [apply Ht|done]).
  rewrite Et. split_and!; [|done| |].
  - rewrite qs_set_que, Hq. by case_decide.
  - eapply seg_frame; [done| |]; intros; [by apply ld_set_que_same|done].
  - by rewrite ld_set_que_same.
Qed.

Lemma queue_elem_ent h q l x : queue h q l -> x ∈ l -> exists t, ents h !! x = Some t /\ tqe_ifq t = Some q /\ is_Some (tqe_pnext t).
Proof.
  intros Hq Hx. destruct (queue_lk _ _ _ _ Hq Hx) as [c (t & ? & Hp & ?)%lk_Some]. exists t. rewrite Hp. split_and!; [done..|by eexists].
Qed.
Lemma ents_set_que q f h : ents (set_que q f h) = ents h.
Proof. done. Qed.
Lemma qs_set_ent e f h : qs (set_ent e f h) = qs h.
Proof. done. Qed.

(** The reference count view of a write to a queue object. *)
Lemma refs_set_que q f h q' :
  refs (set_que q f h) q' = if decide (q = q') then (fun t => ifq_ref (f t)) <$> qs h !! q' else refs h q'.
Proof. unfold refs. rewrite qs_set_que. case_decide; [|done]. by destruct (qs h !! q'). Qed.
Lemma views_set_ent e f h y :
  (forall t, tqe_die (f t) = tqe_die t /\ tqe_touched (f t) = tqe_touched t) ->
  (forall t, tqe_parent (f t) = tqe_parent t /\ tqe_flags (f t) = tqe_flags t /\
             tqe_state0 (f t) = tqe_state0 t /\ tqe_state1 (f t) = tqe_state1 t) ->
  timing (set_ent e f h) y = timing h y /\ owner (set_ent e f h) y = owner h y.
Proof.
  intros Ht Ho. unfold timing, owner. rewrite ents_set_ent. case_decide; [subst|done].
  destruct (ents h !! y) as [t|]; simpl; [|done].
  destruct (Ht t) as [-> ->]. destruct (Ho t) as (-> & -> & -> & ->). done.
Qed.

Lemma refs_drop h q q' :
  refs (set_que q drop_ref h) q' = if decide (q = q') then (fun r => r - 1) <$> refs h q' else refs h q'.
Proof.
  rewrite refs_set_que. case_decide; [|done]. unfold refs. destruct (qs h !! q'); simpl; [|done].
  by rewrite drop_ref_ref.
Qed.

Lemma deletequeueentry_run h Q q l1 x l2 :
  tq_rel h Q -> Q !! q = Some (l1 ++ x :: l2) ->
  exists h', ipf_deletequeueentry x h = Some (tt, h') /\
    tq_rel h' (<[q := l1 ++ l2]> Q) /\ lk h' x = Some (None, None) /\
    (forall y, timing h' y = timing h y /\ owner h' y = owner h y) /\
    refs h' q = (fun r => r - 1) <$> refs h q /\
    (forall q', q' <> q -> qs h' !! q' = qs h !! q').
Proof.
  intros HQ Hq. pose proof (HQ _ _ Hq) as Hqueue.
  destruct (unlink_spec _ _ _ _ _ Hqueue) as (h1 & Hrun & Hq1 & Hlo & Hx1).
  destruct (queue_elem_ent _ _ _ x Hqueue (elem_mid l1 l2 x)) as (t & Ht & Hi & [c Hp]).
  rewrite Ht in Hx1.
  pose proof (mid_notin _ _ _ (queue_NoDup _ _ _ Hqueue)) as Hnx.
  unfold ipf_deletequeueentry.
  rewrite (ent_bind _ _ _ _ _ Ht), Hi, need_bind, (ent_bind _ _ _ _ _ Ht), Hp.
  rewrite bind_assoc, (bind_eq _ _ _ _ _ Hrun), bind_assoc.
  rewrite (bind_eq _ _ _ _ _ (upd_ent_run _ _ _ _ Hx1)).
  rewrite (bind_eq _ _ _ _ _ (upd_ent_run _ _ _ _ (ents_set_ent_eq _ _ _ _ Hx1))), set_ent_set_ent.
  set (h2 := set_ent x _ h1).
  assert (is_Some (qs h2 !! q)) as [t2 Ht2] by (destruct Hq1 as (? & ? & _); by eexists).
  rewrite (bind_eq _ _ _ _ _ (deletetimeoutqueue_run q h2 t2 Ht2)).
  destruct (links_only_views _ _ _ _ Hlo) as [Hve Hvq].
  eexists. split; [done|]. split_and!.
  - eapply (tq_rel_update h _ Q q _ _ (l1 ++ x :: l2)); [done|done| | | |].
    + intros y Hy. unfold h2. rewrite ents_set_que, ents_set_ent, decide_False; [by apply (lo_ents _ _ _ _ Hlo)|].
      intros ->. apply Hy, elem_mid.
    + intros q' Hne. rewrite qs_set_que, decide_False by congruence. by apply (lo_qs _ _ _ _ Hlo).
    + intros q' l' y Hl' Hne Hy. by eapply (tq_rel_disjoint h Q q _ q' l').
    + apply queue_set_que; [intros; apply drop_ref_links..|]. by apply queue_set_other.
  - unfold lk. unfold h2. rewrite ents_set_que, (ents_set_ent_eq _ _ _ _ Hx1). done.
  - intros y. destruct (Hve y) as [<- <-]. unfold timing, owner. rewrite ents_set_que.
    by apply views_set_ent.
  - rewrite refs_drop, decide_True by done. f_equal. apply Hvq.
  - intros q' Hne. rewrite qs_set_que, decide_False by congruence. by apply (lo_qs _ _ _ _ Hlo).
Qed.

(** Moving an unlinked entry to the end of a queue: the common end of
    [ipf_queueback] and [ipf_movequeue] within one queue. *)
Lemma unlink_append h Q q l1 x l2 :
  tq_rel h Q -> Q !! q = Some (l1 ++ x :: l2) ->
  exists h', (unlink x q;; upd_ent x (fun t => t <| tqe_next := None |>);; link_tail x q) h = Some (tt, h') /\
    tq_rel h' (<[q := l1 ++ l2 ++ [x]]> Q) /\
    (forall y, timing h' y = timing h y /\ owner h' y = owner h y) /\
    (forall q', ttl_of h' q' = ttl_of h q' /\ refs h' q' = refs h q') /\
    (forall q', q' <> q -> qs h' !! q' = qs h !! q').
Proof.
  intros HQ Hq. pose proof (HQ _ _ Hq) as Hqueue.
  destruct (unlink_spec _ _ _ _ _ Hqueue) as (h1 & Hrun & Hq1 & Hlo & Hx1).
  destruct (queue_elem_ent _ _ _ x Hqueue (elem_mid l1 l2 x)) as (t & Ht & Hi & _).
  rewrite Ht in Hx1. pose proof (mid_notin _ _ _ (queue_NoDup _ _ _ Hqueue)) as Hnx.
  rewrite (bind_eq _ _ _ _ _ Hrun), (bind_eq _ _ _ _ _ (upd_ent_run _ _ _ _ Hx1)).
  set (h2 := set_ent x _ h1).
  assert (Hlo2 : links_only q (l1 ++ x :: l2) h1 h2) by (apply links_only_ent; [apply elem_mid|done]).
  destruct (link_tail_spec h2 q (l1 ++ l2) x (t <| tqe_next := None |>)) as (h3 & -> & Hq3 & Hlo3);
    [by apply queue_set_other|done|by apply (ents_set_ent_eq _ _ _ _ Hx1)|done..|].
  assert (Hl : links_only q (l1 ++ x :: l2) h h3).
  { eapply links_only_trans; [done|]. eapply links_only_trans; [done|].
    eapply links_only_mono; [|done]. intros y. rewrite !elem_of_cons, !elem_of_app, elem_of_cons. tauto. }
  destruct (links_only_views _ _ _ _ Hl) as [Hve Hvq].
  exists h3. split; [done|]. split_and!; [|done..|apply Hl].
  rewrite <- app_assoc in Hq3. eapply (tq_rel_update h _ Q q _ _ (l1 ++ x :: l2)); [done|done|apply Hl|apply Hl| |done].
  intros q' l' y Hl' Hne Hy. by eapply (tq_rel_disjoint h Q q _ q' l').
Qed.

Lemma tq_rel_set_data h Q x f :
  (forall t, tqe_next (f t) = tqe_next t) ->
  (forall t, tqe_pnext (f t) = tqe_pnext t) -> (forall t, tqe_ifq (f t) = tqe_ifq t) ->
  tq_rel h Q -> tq_rel (set_ent x f h) Q.
Proof. intros ??? HQ q l Hl. apply queue_set_data; auto. Qed.

(** The touch that [ipf_queueback] and [ipf_movequeue] begin with. *)
Definition touch (ticks ttl : Z) (t : ipftqent) : ipftqent :=
  t <| tqe_die := u32 (ticks + ttl) |> <| tqe_touched := u32 ticks |>.

Lemma tq_rel_touch h Q x ticks ttl : tq_rel h Q -> tq_rel (set_ent x (touch ticks ttl) h) Q.
Proof. by apply tq_rel_set_data. Qed.

Lemma timing_touch h x ticks ttl y t :
  ents h !! x = Some t ->
  timing (set_ent x (touch ticks ttl) h) y = if decide (x = y) then Some (u32 (ticks + ttl), u32 ticks) else timing h y.
Proof.
  intros Ht. unfold timing. rewrite ents_set_ent. case_decide; [subst|done]. by rewrite Ht.
Qed.
Lemma owner_touch h x ticks ttl y : owner (set_ent x (touch ticks ttl) h) y = owner h y.
Proof. unfold owner. rewrite ents_set_ent. case_decide; [subst|done]. by destruct (ents h !! y). Qed.

(** ** Moving between queues *)

Lemma tq_rel_set_unqueued h Q x f : unqueued Q x -> tq_rel h Q -> tq_rel (set_ent x f h) Q.
Proof. intros Hu HQ q l Hl. apply queue_set_other; [by apply HQ|by eapply Hu]. Qed.
Lemma tq_rel_set_que h Q q g :
  (forall t, ifq_head (g t) = ifq_head t) -> (forall t, ifq_tail (g t) = ifq_tail t) ->
  tq_rel h Q -> tq_rel (set_que q g h) Q.
Proof. intros ?? HQ q' l Hl. apply queue_set_que; auto. Qed.

Lemma tq_rel_links_only h h' Q q l lnew S :
  tq_rel h Q -> Q !! q = Some l -> links_only q S h h' ->
  (forall y, y ∈ S -> y ∈ l \/ unqueued Q y) -> queue h' q lnew -> tq_rel h' (<[q := lnew]> Q).
Proof.
  intros HQ Hq Hlo HS Hn. eapply (tq_rel_update h h' Q q l _ S); [done|done|apply Hlo|apply Hlo| |done].
  intros q' l' y Hl' Hne Hy Hy'. destruct (HS y Hy') as [Hyl|Hu]; [|by apply (Hu q' l')].
  by apply (tq_rel_disjoint h Q q l q' l' y).
Qed.

Lemma unqueued_remove h Q q l1 x l2 :
  tq_rel h Q -> Q !! q = Some (l1 ++ x :: l2) -> unqueued (<[q := l1 ++ l2]> Q) x.
Proof.
  intros HQ Hq q' l' Hl'. destruct (decide (q' = q)) as [->|Hne].
  - rewrite lookup_insert_eq in Hl'. injection Hl' as <-.
    apply mid_notin. eapply queue_NoDup. by apply HQ.
  - rewrite lookup_insert_ne in Hl' by done. intros Hx.
    apply (tq_rel_disjoint h Q q _ q' l' x HQ Hq Hl' Hne Hx). apply elem_mid.
Qed.

(** [unlink] and [link_tail] on the program's queues. *)
Lemma unlink_rel h Q q l1 x l2 :
  tq_rel h Q -> Q !! q = Some (l1 ++ x :: l2) ->
  exists h' t, unlink x q h = Some (tt, h') /\ tq_rel h' (<[q := l1 ++ l2]> Q) /\
    links_only q (l1 ++ x :: l2) h h' /\ ents h !! x = Some t /\ ents h' !! x = Some t /\ tqe_ifq t = Some q.
Proof.
  intros HQ Hq. pose proof (HQ _ _ Hq) as Hqueue.
  destruct (unlink_spec _ _ _ _ _ Hqueue) as (h1 & Hrun & Hq1 & Hlo & Hx1).
  destruct (queue_elem_ent _ _ _ x Hqueue (elem_mid l1 l2 x)) as (t & Ht & Hi & _).
  exists h1, t. split_and!; [done| |done|done|congruence|done].
  eapply tq_rel_links_only; [done..| |done]. by left.
Qed.

Lemma link_tail_rel h Q q l x t :
  tq_rel h Q -> Q !! q = Some l -> unqueued Q x ->
  ents h !! x = Some t -> tqe_next t = None -> tqe_ifq t = Some q ->
  exists h', link_tail x q h = Some (tt, h') /\ tq_rel h' (<[q := l ++ [x]]> Q) /\ links_only q (x :: l) h h'.
Proof.
  intros HQ Hq Hu Ht Hn Hi.
  destruct (link_tail_spec h q l x t) as (h' & Hrun & Hq' & Hlo); auto; [by eapply Hu|].
  exists h'. split_and!; [done| |done]. eapply tq_rel_links_only; [done..| |done].
  intros y [->|?]%elem_of_cons; auto.
Qed.

(** The hand-over between two queues, up to linking at the new tail. *)
Definition hand_over (x o n : loc) (h : tqheap) : tqheap :=
  set_que n (fun t => t <| ifq_ref ::= fun r => r + 1 |>)
    (set_ent x (fun t => t <| tqe_ifq := Some n |>)
       (set_que o drop_ref
          (set_ent x (fun t => t <| tqe_next := None |> <| tqe_ifq := None |>) h))).

Lemma hand_over_rel h Q x o n : unqueued Q x -> tq_rel h Q -> tq_rel (hand_over x o n h) Q.
Proof.
  intros Hu HQ. unfold hand_over. apply tq_rel_set_que; [done..|]. apply tq_rel_set_unqueued; [done|].
  apply tq_rel_set_que; [apply drop_ref_links..|]. by apply tq_rel_set_unqueued.
Qed.

Lemma hand_over_views h x o n :
  o <> n ->
  (forall y, timing (hand_over x o n h) y = timing h y /\ owner (hand_over x o n h) y = owner h y) /\
  (forall q, refs (hand_over x o n h) q =
     if decide (q = o) then (fun r => r - 1) <$> refs h q
     else if decide (q = n) then (fun r => r + 1) <$> refs h q else refs h q) /\
  (forall q, ttl_of (hand_over x o n h) q = ttl_of h q).
Proof.
  intros Hon. unfold hand_over. split_and!.
  - intros y. unfold timing, owner. rewrite ents_set_que, ents_set_ent, ents_set_que, ents_set_ent.
    case_decide; [subst|done]. by destruct (ents h !! y).
  - intros q. unfold refs. rewrite !qs_set_que, qs_set_ent, qs_set_que, qs_set_ent.
    repeat case_decide; subst; try congruence; destruct (qs h !! _); simpl; try done.
    by rewrite drop_ref_ref.
  - intros q. unfold ttl_of. rewrite !qs_set_que, qs_set_ent, qs_set_que, qs_set_ent.
    repeat case_decide; subst; destruct (qs h !! _) as [t|]; simpl; try done;
      f_equal; try (by apply drop_ref_links).
Qed.

Lemma move_tail_run h Q x t o n l1 l2 ln :
  o <> n -> tq_rel h Q -> Q !! o = Some (l1 ++ x :: l2) -> Q !! n = Some ln -> ents h !! x = Some t ->
  exists h',
    (unlink x o;;
     upd_ent x (fun t => t <| tqe_next := None |>);;
     when_ (negb (bool_decide (o = n)))
        (upd_ent x (fun t => t <| tqe_ifq := None |>);;
         _ ← ipf_deletetimeoutqueue o;
         upd_ent x (fun t => t <| tqe_ifq := Some n |>);;
         upd_que n (fun t => t <| ifq_ref ::= fun x => x + 1 |>));;
     link_tail x n) h = Some (tt, h') /\
    tq_rel h' (<[n := ln ++ [x]]> (<[o := l1 ++ l2]> Q)) /\
    (forall y, timing h' y = timing h y /\ owner h' y = owner h y) /\
    (forall q, refs h' q = if decide (q = o) then (fun r => r - 1) <$> refs h q
                           else if decide (q = n) then (fun r => r + 1) <$> refs h q else refs h q) /\
    (forall q, ttl_of h' q = ttl_of h q).
Proof.
  intros Hon HQ Ho Hn Ht. rewrite bool_decide_eq_false_2 by done. cbn [negb when_].
  destruct (unlink_rel _ _ _ _ _ _ HQ Ho) as (h1 & t1 & Hrun & HQ1 & Hlo & _ & Ht1 & _).
  pose proof (unqueued_remove _ _ _ _ _ _ HQ Ho) as Hu.
  assert (Hqn : is_Some (qs h1 !! n)).
  { destruct (HQ1 n ln) as (? & ? & _); [by rewrite lookup_insert_ne|by eexists]. }
  assert (Hqo : is_Some (qs h1 !! o)).
  { destruct (HQ1 o (l1 ++ l2)) as (? & ? & _); [by rewrite lookup_insert_eq|by eexists]. }
  destruct Hqn as [tn Htn], Hqo as [to Hto].
  pose proof (hand_over_rel h1 _ x o n Hu HQ1) as HQ2.
  destruct (link_tail_rel (hand_over x o n h1) _ n ln x
              (t1 <| tqe_next := None |> <| tqe_ifq := Some n |>) HQ2) as (h3 & Hrun3 & HQ3 & Hlo3).
  { by rewrite lookup_insert_ne. }
  { done. }
  { unfold hand_over. rewrite ents_set_que, ents_set_ent, decide_True by done.
    rewrite ents_set_que, ents_set_ent, decide_True, Ht1 by done. done. }
  { done. } { done. }
  exists h3. split.
  - rewrite (bind_eq _ _ _ _ _ Hrun), (bind_eq _ _ _ _ _ (upd_ent_run _ _ _ _ Ht1)), bind_assoc.
    pose proof (ents_set_ent_eq x (fun t => t <| tqe_next := None |>) _ _ Ht1) as E1.
    rewrite (bind_eq _ _ _ _ _ (upd_ent_run _ _ _ _ E1)), set_ent_set_ent, bind_assoc.
    match goal with |- context [set_ent x ?f h1] => set (h2 := set_ent x f h1) end.
    rewrite (bind_eq _ _ _ _ _ (deletetimeoutqueue_run o h2 to Hto)), bind_assoc.
    pose proof (ents_set_ent_eq x (fun t => t <| tqe_next := None |> <| tqe_ifq := None |>) _ _ Ht1) as E2.
    rewrite (bind_eq _ _ _ tt (set_ent x (fun t => t <| tqe_ifq := Some n |>) (set_que o drop_ref h2)))
      by (eapply upd_ent_run; exact E2).
    rewrite (bind_eq _ _ _ tt (hand_over x o n h1)); [done|].
    eapply upd_que_run. rewrite qs_set_ent, qs_set_que, decide_False by done. exact Htn.
  - destruct (links_only_views _ _ _ _ Hlo) as [V1 V2], (links_only_views _ _ _ _ Hlo3) as [V5 V6].
    destruct (hand_over_views h1 x o n Hon) as (V3 & V4 & V7). split; [done|]. split_and!.
    + intros y. destruct (V1 y) as [<- <-], (V3 y) as [<- <-]. apply V5.
    + intros q. destruct (V6 q) as [_ ->], (V2 q) as [_ <-]. apply V4.
    + intros q. destruct (V6 q) as [-> _], (V2 q) as [<- _]. apply V7.
Qed.

(** The common start of a move: two writes that are one [touch]. *)
Lemma touch_steps {B} h x q t tq ticks (k : ST tqheap B) :
  ents h !! x = Some t -> qs h !! q = Some tq ->
  (upd_ent x (fun t => t <| tqe_touched := u32 ticks |>);;
   ttl ← que ifq_ttl q;
   upd_ent x (fun t => t <| tqe_die := u32 (ticks + ttl) |>);; k) h
  = k (set_ent x (touch ticks (ifq_ttl tq)) h).
Proof.
  intros Ht Hq. rewrite (bind_eq _ _ _ tt _ (upd_ent_run _ _ _ _ Ht)).
  rewrite (que_bind _ _ _ _ tq) by done.
  rewrite (bind_eq _ _ _ tt _ (upd_ent_run _ _ _ _ (ents_set_ent_eq _ _ _ _ Ht))), set_ent_set_ent.
  done.
Qed.

(** What a move within the program's queues does to the list of [q], when [x]
    has been touched at time [ticks]: nothing when [x] is last or its successor
    now dies at the same tick. *)
Definition requeue (h : tqheap) (die : Z) (l1 : list loc) (x : loc) (l2 : list loc) : list loc :=
  match l2 with
  | [] => l1 ++ [x]
  | y :: _ => if decide (fst <$> timing h y = Some die) then l1 ++ x :: l2 else l1 ++ l2 ++ [x]
  end.

Lemma movequeue_same_run ticks h Q q l1 x l2 ttl :
  tq_rel h Q -> Q !! q = Some (l1 ++ x :: l2) -> ttl_of h q = Some ttl ->
  snd <$> timing h x <> Some ticks ->
  exists h', ipf_movequeue ticks x q q h = Some (tt, h') /\
    tq_rel h' (<[q := requeue h (u32 (ticks + ttl)) l1 x l2]> Q) /\
    timing h' x = Some (u32 (ticks + ttl), u32 ticks) /\
    (forall y, y <> x -> timing h' y = timing h y) /\
    (forall y, owner h' y = owner h y) /\
    (forall q', ttl_of h' q' = ttl_of h q' /\ refs h' q' = refs h q').
Proof.
  intros HQ Hq Httl Htick. pose proof (HQ _ _ Hq) as Hqueue.
  destruct (queue_mid _ _ _ _ _ Hqueue) as (tq & t & Etq & Et & _ & _ & _ & _ & Enx & _ & _ & _ & _ & _ & _ & Hx2).
  assert (Hd : ifq_ttl tq = ttl) by (unfold ttl_of in Httl; rewrite Etq in Httl; by injection Httl).
  assert (Hne : (tqe_touched t =? ticks) = false).
  { apply Z.eqb_neq. intros E. apply Htick. unfold timing. rewrite Et. simpl. by rewrite E. }
  set (h1 := set_ent x (touch ticks ttl) h).
  pose proof (tq_rel_touch h Q x ticks ttl HQ) as HQ1. fold h1 in HQ1.
  assert (Ht1 : ents h1 !! x = Some (touch ticks ttl t)) by by apply ents_set_ent_eq.
  assert (V1 : forall y, timing h1 y = if decide (x = y) then Some (u32 (ticks + ttl), u32 ticks) else timing h y)
    by (intros; by eapply timing_touch).
  assert (V2 : forall y, owner h1 y = owner h y) by (intros; apply owner_touch).
  unfold ipf_movequeue. rewrite (ent_bind _ _ _ _ _ Et), Hne, andb_false_r.
  rewrite (touch_steps h x q t tq) by done. rewrite Hd. fold h1.
  rewrite decide_True by done. rewrite bind_assoc, (ent_bind _ _ _ _ _ Ht1).
  change (tqe_next (touch ticks ttl t)) with (tqe_next t). rewrite Enx.
  rewrite bool_decide_eq_true_2 by done. cbn [negb when_].
  assert (Hstay : forall Q', Q' = Q -> exists h', Some (tt, h1) = Some (tt, h') /\ tq_rel h' Q' /\
    timing h' x = Some (u32 (ticks + ttl), u32 ticks) /\ (forall y, y <> x -> timing h' y = timing h y) /\
    (forall y, owner h' y = owner h y) /\ (forall q', ttl_of h' q' = ttl_of h q' /\ refs h' q' = refs h q')).
  { intros Q' ->. exists h1. split_and!; try done; [by rewrite V1, decide_True|].
    intros y Hy. by rewrite V1, decide_False. }
  destruct l2 as [|y l2]; cbn [head].
  { apply Hstay. by apply insert_id. }
  destruct (queue_elem_ent _ _ _ y (HQ1 _ _ Hq)) as (ty & Ety & _); [set_solver|].
  assert (Hxy : x <> y) by set_solver.
  assert (Hty : ents h !! y = Some ty) by (unfold h1 in Ety; by rewrite ents_set_ent, decide_False in Ety).
  rewrite bind_assoc, (ent_bind _ _ _ _ _ Ety), bind_assoc, (ent_bind _ _ _ _ _ Ht1), ret_bind.
  change (tqe_die (touch ticks ttl t)) with (u32 (ticks + ttl)).
  assert (Hdie : fst <$> timing h y = Some (tqe_die ty)) by (unfold timing; by rewrite Hty).
  destruct (Z.eqb_spec (tqe_die ty) (u32 (ticks + ttl))) as [E|E].
  { apply Hstay. unfold requeue. rewrite decide_True by congruence. by apply insert_id. }
  unfold requeue. rewrite decide_False by congruence.
  destruct (unlink_append h1 Q q l1 x (y :: l2) HQ1 Hq) as (h' & Hrun & HQ' & Hv & Hvq & _).
  exists h'. split; [exact Hrun|]. split_and!; [done|..].
  - destruct (Hv x) as [-> _]. by rewrite V1, decide_True.
  - intros z Hz. destruct (Hv z) as [-> _]. by rewrite V1, decide_False.
  - intros z. destruct (Hv z) as [_ ->]. apply V2.
  - intros q'. destruct (Hvq q') as [-> ->]. done.
Qed.

Lemma movequeue_other_run ticks h Q o n l1 x l2 ln ttl :
  o <> n -> tq_rel h Q -> Q !! o = Some (l1 ++ x :: l2) -> Q !! n = Some ln -> ttl_of h n = Some ttl ->
  exists h', ipf_movequeue ticks x o n h = Some (tt, h') /\
    tq_rel h' (<[n := ln ++ [x]]> (<[o := l1 ++ l2]> Q)) /\
    timing h' x = Some (u32 (ticks + ttl), u32 ticks) /\
    (forall y, y <> x -> timing h' y = timing h y) /\
    (forall y, owner h' y = owner h y) /\
    (forall q, refs h' q = if decide (q = o) then (fun r => r - 1) <$> refs h q
                           else if decide (q = n) then (fun r => r + 1) <$> refs h q else refs h q) /\
    (forall q, ttl_of h' q = ttl_of h q).
Proof.
  intros Hon HQ Ho Hn Httl. pose proof (HQ _ _ Ho) as Hqueue.
  destruct (queue_elem_ent _ _ _ x Hqueue (elem_mid l1 l2 x)) as (t & Et & _).
  destruct (HQ _ _ Hn) as (tn & Etn & _).
  assert (Hd : ifq_ttl tn = ttl) by (unfold ttl_of in Httl; rewrite Etn in Httl; by injection Httl).
  set (h1 := set_ent x (touch ticks ttl) h).
  pose proof (tq_rel_touch h Q x ticks ttl HQ) as HQ1. fold h1 in HQ1.
  destruct (move_tail_run h1 Q x (touch ticks ttl t) o n l1 l2 ln) as (h' & Hrun & HQ' & Hv & Hr & Hl);
    [done..|by apply ents_set_ent_eq|].
  exists h'. split.
  { unfold ipf_movequeue. rewrite (ent_bind _ _ _ _ _ Et).
    replace (bool_decide (o = n)) with false by (symmetry; by apply bool_decide_eq_false_2).
    cbn [andb]. rewrite (touch_steps h x n t tn) by done. rewrite Hd. fold h1.
    rewrite decide_False by done. rewrite ret_bind. rewrite <- Hrun.
    rewrite bool_decide_eq_false_2 by done. done. }
  assert (V1 : forall y, timing h1 y = if decide (x = y) then Some (u32 (ticks + ttl), u32 ticks) else timing h y)
    by (intros; by eapply timing_touch).
  assert (V2 : forall y, owner h1 y = owner h y) by (intros; apply owner_touch).
  split_and!; [done|..|done|done].
  - destruct (Hv x) as [-> _]. by rewrite V1, decide_True.
  - intros y Hy. destruct (Hv y) as [-> _]. by rewrite V1, decide_False.
  - intros y. destruct (Hv y) as [_ ->]. apply V2.
Qed.

Lemma queueback_run ticks h Q q l1 x l2 ttl :
  tq_rel h Q -> Q !! q = Some (l1 ++ x :: l2) -> ttl_of h q = Some ttl ->
  exists h', ipf_queueback ticks x h = Some (tt, h') /\
    tq_rel h' (<[q := l1 ++ l2 ++ [x]]> Q) /\
    timing h' x = Some (u32 (ticks + ttl), u32 ticks) /\
    (forall y, y <> x -> timing h' y = timing h y) /\
    (forall y, owner h' y = owner h y) /\
    (forall q', ttl_of h' q' = ttl_of h q' /\ refs h' q' = refs h q').
Proof.
  intros HQ Hq Httl. pose proof (HQ _ _ Hq) as Hqueue.
  destruct (queue_mid _ _ _ _ _ Hqueue) as (tq & t & Etq & Et & _ & _ & _ & Ei & Enx & _ & _ & _ & _ & _ & _ & Hx2).
  assert (Hd : ifq_ttl tq = ttl) by (unfold ttl_of in Httl; rewrite Etq in Httl; by injection Httl).
  set (h1 := set_ent x (touch ticks ttl) h).
  pose proof (tq_rel_touch h Q x ticks ttl HQ) as HQ1. fold h1 in HQ1.
  assert (Ht1 : ents h1 !! x = Some (touch ticks ttl t)) by by apply ents_set_ent_eq.
  assert (V1 : forall y, timing h1 y = if decide (x = y) then Some (u32 (ticks + ttl), u32 ticks) else timing h y)
    by (intros; by eapply timing_touch).
  assert (V2 : forall y, owner h1 y = owner h y) by (intros; apply owner_touch).
  unfold ipf_queueback. rewrite (ent_bind _ _ _ _ _ Et), Ei, (que_bind _ _ _ _ _ Etq), Hd.
  rewrite (bind_eq _ _ _ tt _ (upd_ent_run _ _ _ _ Et)).
  rewrite (bind_eq _ _ _ tt _ (upd_ent_run _ _ _ _ (ents_set_ent_eq _ _ _ _ Et))), set_ent_set_ent.
  change (set_ent x _ h) with h1. rewrite (ent_bind _ _ _ _ _ Ht1).
  change (tqe_next (touch ticks ttl t)) with (tqe_next t). rewrite Enx.
  destruct l2 as [|y l2]; cbn [head].
  - exists h1. split_and!; try done.
    + by rewrite insert_id.
    + by rewrite V1, decide_True.
    + intros y Hy. by rewrite V1, decide_False.
  - destruct (unlink_append h1 Q q l1 x (y :: l2) HQ1 Hq) as (h' & Hrun & HQ' & Hv & Hvq & _).
    exists h'. split; [exact Hrun|]. split_and!; [done|..].
    + destruct (Hv x) as [-> _]. by rewrite V1, decide_True.
    + intros z Hz. destruct (Hv z) as [-> _]. by rewrite V1, decide_False.
    + intros z. destruct (Hv z) as [_ ->]. apply V2.
    + intros q'. destruct (Hvq q') as [-> ->]. done.
Qed.

Lemma movequeue_skip ticks h x q t :
  ents h !! x = Some t -> tqe_touched t = ticks -> ipf_movequeue ticks x q q h = Some (tt, h).
Proof.
  intros Ht E. unfold ipf_movequeue. rewrite (ent_bind _ _ _ _ _ Ht).
  by rewrite bool_decide_eq_true_2, (proj2 (Z.eqb_eq _ _) E).
Qed.

(** Every path at once: the move succeeds, the entry ends up on the new queue,
    and nobody's owner data changes. *)
Lemma movequeue_run ticks h Q x o n lo ln :
  tq_rel h Q -> Q !! o = Some lo -> x ∈ lo -> Q !! n = Some ln ->
  exists h' Q' l', ipf_movequeue ticks x o n h = Some (tt, h') /\ tq_rel h' Q' /\
    Q' !! n = Some l' /\ x ∈ l' /\ (forall q, is_Some (Q' !! q) <-> is_Some (Q !! q)) /\
    (forall y, owner h' y = owner h y) /\ (forall q, ttl_of h' q = ttl_of h q).
Proof.
  intros HQ Ho Hx Hn. pose proof (HQ _ _ Hn) as (tn & Htn & _).
  assert (Httl : ttl_of h n = Some (ifq_ttl tn)) by (unfold ttl_of; by rewrite Htn).
  assert (Hdom : forall (Q : gmap loc (list loc)) q l, is_Some (Q !! q) ->
            forall q', is_Some (<[q := l]> Q !! q') <-> is_Some (Q !! q')).
  { intros Q0 q l Hq q'. rewrite lookup_insert_is_Some. destruct (decide (q = q')) as [->|]; tauto. }
  apply list_elem_of_split in Hx as (l1 & l2 & ->). destruct (decide (o = n)) as [<-|Hne].
  - destruct (decide (snd <$> timing h x = Some ticks)) as [E|E].
    + unfold timing in E. destruct (ents h !! x) as [t|] eqn:Et; [|done]. injection E as E.
      exists h, Q, (l1 ++ x :: l2). split_and!; try done; [by eapply movequeue_skip|apply elem_mid].
    + destruct (movequeue_same_run ticks h Q o l1 x l2 _ HQ Ho Httl E) as (h' & Hrun & HQ' & _ & _ & Hw & Hv).
      exists h', (<[o := requeue h (u32 (ticks + ifq_ttl tn)) l1 x l2]> Q), (requeue h (u32 (ticks + ifq_ttl tn)) l1 x l2).
      split_and!; try done; [by rewrite lookup_insert_eq| |by apply Hdom|apply Hv].
      unfold requeue. destruct l2; [apply elem_mid|]. case_match; [apply elem_mid|].
      apply elem_of_app; right. apply elem_mid.
  - destruct (movequeue_other_run ticks h Q o n l1 x l2 ln _ Hne HQ Ho Hn Httl)
      as (h' & Hrun & HQ' & _ & _ & Hw & _ & Hv).
    eexists h', _, (ln ++ [x]). split_and!; try done; [by rewrite lookup_insert_eq|apply elem_mid|].
    intros q. rewrite Hdom by (rewrite lookup_insert_ne by done; by eexists). by apply Hdom.
Qed.

(** ** Expiry order *)

Definition dies (h : tqheap) (l : list loc) : list Z := omap (fun x => fst <$> timing h x) l.

(** The expiry scans stop at the first entry whose time has not come, so a queue
    must be sorted by [tqe_die]; no expiry may wrap around or lie further away
    than a whole timeout. *)
Definition ageing (h : tqheap) (q : loc) (ttl now : Z) (l : list loc) : Prop :=
  ttl_of h q = Some ttl /\ 0 <= ttl /\ 0 <= now /\ now + ttl < 2 ^ 32 /\
  StronglySorted Z.le (dies h l) /\ (forall d, d ∈ dies h l -> d <= now + ttl).

Lemma dies_app h l1 l2 : dies h (l1 ++ l2) = dies h l1 ++ dies h l2.
Proof. unfold dies. by rewrite omap_app. Qed.
Lemma dies_ext h h' l : (forall x, x ∈ l -> timing h' x = timing h x) -> dies h' l = dies h l.
Proof.
  intros E. induction l as [|x l IH]; [done|]. unfold dies in *. simpl.
  rewrite E by set_solver. destruct (fst <$> timing h x); [f_equal|]; apply IH; set_solver.
Qed.
Lemma dies_cons h x l d t : timing h x = Some (d, t) -> dies h (x :: l) = d :: dies h l.
Proof. intros E. unfold dies. simpl. by rewrite E. Qed.

Lemma sorted_drop_mid l1 (x : Z) l2 :
  StronglySorted Z.le (l1 ++ x :: l2) -> StronglySorted Z.le (l1 ++ l2).
Proof.
  rewrite !StronglySorted_app. intros (Hc & H1 & [H2 _]%StronglySorted_inv). split_and!; [|done..].
  intros. apply Hc; set_solver.
Qed.
Lemma sorted_snoc l (d : Z) :
  StronglySorted Z.le l -> (forall x, x ∈ l -> x <= d) -> StronglySorted Z.le (l ++ [d]).
Proof.
  intros Hs Hd. apply StronglySorted_app. split_and!; [|done|repeat constructor].
  intros x y Hx ->%list_elem_of_singleton. auto.
Qed.

(** Removing an entry, and putting an entry that dies last at the end. *)
Lemma ageing_remove h q ttl now l1 x l2 :
  ageing h q ttl now (l1 ++ x :: l2) -> ageing h q ttl now (l1 ++ l2).
Proof.
  intros (? & ? & ? & ? & Hs & Hb). split_and!; try done; rewrite !dies_app in *.
  - change (dies h (x :: l2)) with (dies h ([x] ++ l2)) in Hs. rewrite dies_app in Hs.
    destruct (dies h [x]) as [|d [|? ?]] eqn:E; [done| |].
    + by apply sorted_drop_mid in Hs.
    + unfold dies in E. simpl in E. by destruct (fst <$> timing h x).
  - intros d Hd. apply Hb. apply elem_of_app in Hd as [?|?]; apply elem_of_app; [by left|right].
    change (dies h (x :: l2)) with (dies h ([x] ++ l2)). rewrite dies_app. apply elem_of_app. by right.
Qed.

Lemma ageing_snoc h h' q ttl now ticks l x :
  ageing h q ttl now l -> now <= ticks -> ticks + ttl < 2 ^ 32 -> ttl_of h' q = ttl_of h q ->
  (forall y, y ∈ l -> timing h' y = timing h y) ->
  timing h' x = Some (u32 (ticks + ttl), u32 ticks) -> ageing h' q ttl ticks (l ++ [x]).
Proof.
  intros (Ht & Ht0 & ? & ? & Hs & Hb) Hn Hw Httl Hv Hx.
  rewrite u32_id in Hx by (unfold is_u32; lia).
  assert (Hb' : forall d, d ∈ dies h l -> d <= ticks + ttl) by (intros d Hd%Hb; lia).
  split_and!; [congruence|lia|lia|done|..]; rewrite dies_app, (dies_ext h h' l Hv), (dies_cons h' x [] _ _ Hx).
  - by apply sorted_snoc.
  - intros d [?| ->%list_elem_of_singleton]%elem_of_app; [auto|lia].
Qed.

(** An entry that is refreshed in place, before one that already dies at the
    refreshed time. *)
Lemma ageing_refresh h h' q ttl now ticks l1 x l2 :
  ageing h q ttl now (l1 ++ x :: l2) -> now <= ticks -> ticks + ttl < 2 ^ 32 -> ttl_of h' q = ttl_of h q ->
  (forall y, y <> x -> timing h' y = timing h y) -> (x ∉ l1 ++ l2) ->
  timing h' x = Some (u32 (ticks + ttl), u32 ticks) ->
  (match l2 with [] => True | y :: _ => fst <$> timing h y = Some (u32 (ticks + ttl)) end) ->
  ageing h' q ttl ticks (l1 ++ x :: l2).
Proof.
  intros Ha Hn Hw Httl Hv Hx Htx Hy. pose proof (ageing_remove _ _ _ _ _ _ _ Ha) as (Ht & Ht0 & ? & ? & Hs & Hb).
  rewrite u32_id in Htx, Hy by (unfold is_u32; lia).
  assert (E : forall l, l ⊆ l1 ++ l2 -> dies h' l = dies h l).
  { intros l Hl. apply dies_ext. intros y Hy'. apply Hv. intros ->. by apply Hx, Hl. }
  assert (Hb' : forall d, d ∈ dies h (l1 ++ l2) -> d <= ticks + ttl) by (intros d Hd%Hb; lia).
  rewrite dies_app in Hs, Hb'. split_and!; [congruence|lia|lia|done|..];
    rewrite dies_app, (dies_cons h' x _ _ _ Htx), !E by set_solver.
  - apply StronglySorted_app in Hs as (Hc & H1 & H2). apply StronglySorted_app. split_and!; [|done|].
    + intros a b Ha1 [->|Hb2]%elem_of_cons; [apply Hb'; set_solver|by apply Hc].
    + constructor; [done|]. destruct l2 as [|y l2]; [constructor|].
      destruct (timing h y) as [[dy ty]|] eqn:Ey; [|done]. simpl in Hy. injection Hy as ->.
      rewrite (dies_cons _ _ _ _ _ Ey) in *. apply StronglySorted_inv in H2 as [_ H2].
      constructor; [lia|]. done.
  - intros d [Hd|[->|Hd]%elem_of_cons]%elem_of_app; [apply Hb'; set_solver|lia|apply Hb'; set_solver].
Qed.

(** ** Changing a timeout *)

Lemma seg_next h q p x l p' :
  seg h q p (x :: l) p' -> ld h p' = Some None -> exists t, ents h !! x = Some t /\ tqe_next t = head l.
Proof.
  intros (_ & (t & Ht & _)%lk_Some & Hs) Hl. exists t. split; [done|].
  destruct l as [|y l]; simpl in Hs.
  - subst p'. simpl in Hl. rewrite Ht in Hl. by injection Hl.
  - destruct Hs as (E & _). simpl in E. rewrite Ht in E. by injection E.
Qed.

Definition shift (delta : Z) (t : ipftqent) : ipftqent := t <| tqe_die ::= fun d => u32 (d + delta) |>.

Lemma seg_shift h q p l p' x delta : seg h q p l p' -> seg (set_ent x (shift delta) h) q p l p'.
Proof. intros. eapply seg_frame; [done| |]; intros; [by apply ld_set_ent_same|by apply lk_set_ent_same]. Qed.

Lemma apply_delta_run q delta l : forall fuel h p p',
  seg h q p l p' -> ld h p' = Some None -> NoDup l -> (length l <= fuel)%nat ->
  exists h', apply_delta fuel delta (head l) h = Some (tt, h') /\
    (forall y, ents h' !! y = if decide (y ∈ l) then shift delta <$> ents h !! y else ents h !! y) /\
    qs h' = qs h.
Proof.
  induction l as [|x l IH]; intros fuel h p p' Hs Hl Hnd Hf.
  { exists h. split_and!; [by destruct fuel|intros y; by rewrite decide_False by set_solver|done]. }
  destruct fuel as [|fuel]; [simpl in Hf; lia|]. cbn [head apply_delta].
  destruct (seg_next _ _ _ _ _ _ Hs Hl) as (t & Ht & Hn). pose proof Hs as (_ & _ & Hs').
  apply NoDup_cons in Hnd as [Hx Hnd].
  set (h1 := set_ent x (shift delta) h).
  assert (Ht1 : ents h1 !! x = Some (shift delta t)) by by apply ents_set_ent_eq.
  destruct (IH fuel h1 (NextOf x) p') as (h' & Hrun & He & Hq); [by apply seg_shift| |done|simpl in Hf; lia|].
  { unfold h1. by rewrite ld_set_ent_same. }
  exists h'. split_and!; [|intros y; rewrite He|done].
  - rewrite (bind_eq _ _ _ tt h1) by (by apply (upd_ent_run _ _ _ t)).
    rewrite (ent_bind _ _ _ _ _ Ht1). change (tqe_next (shift delta t)) with (tqe_next t). by rewrite Hn.
  - unfold h1. rewrite ents_set_ent. destruct (decide (x = y)) as [->|Hne].
    + rewrite decide_False by done. by rewrite decide_True by by left.
    + case_decide as Hin; [by rewrite decide_True by by right|].
      rewrite decide_False; [done|]. intros [?|?]%elem_of_cons; congruence.
Qed.

Lemma apply_timeout_run fuel secs h Q q l old :
  tq_rel h Q -> Q !! q = Some l -> ttl_of h q = Some old -> (length l <= fuel)%nat ->
  exists h', ipf_apply_timeout fuel q secs h = Some (tt, h') /\
    tq_rel h' Q /\ ttl_of h' q = Some (IPF_TTLVAL secs) /\
    (forall y, ents h' !! y = if decide (y ∈ l) then shift (old - IPF_TTLVAL secs) <$> ents h !! y
                              else ents h !! y).
Proof.
  intros HQ Hq Httl Hf. destruct (HQ _ _ Hq) as (t & Ht & Hnd & Hs & Hl).
  assert (Ho : ifq_ttl t = old) by (unfold ttl_of in Httl; rewrite Ht in Httl; by injection Httl).
  set (h1 := set_que q (fun t => t <| ifq_ttl := IPF_TTLVAL secs |>) h).
  assert (HQ1 : tq_rel h1 Q) by by apply tq_rel_set_que.
  destruct (HQ1 _ _ Hq) as (t1 & Ht1 & _ & Hs1 & Hl1).
  destruct (apply_delta_run q (i32 (u32 (old - IPF_TTLVAL secs))) l fuel h1 _ _ Hs1 Hl1 Hnd Hf)
    as (h' & Hrun & He & Hqs).
  assert (E1 : qs h1 !! q = Some (t <| ifq_ttl := IPF_TTLVAL secs |>)) by by apply qs_set_que_eq.
  rewrite Ht1 in E1. injection E1 as Et1.
  assert (Hh : ld h1 (HeadOf q) = Some (head l)).
  { destruct l as [|x l]; simpl seg in Hs1; [by rewrite <- Hs1 in Hl1|by destruct Hs1]. }
  cbn [ld] in Hh. rewrite Ht1 in Hh. injection Hh as Hh.
  exists h'. split_and!.
  - unfold ipf_apply_timeout. rewrite (que_bind _ _ _ _ _ Ht), Ho.
    rewrite (bind_eq _ _ _ tt h1) by by apply (upd_que_run _ _ _ t).
    by rewrite (que_bind _ _ _ _ _ Ht1), Hh.
  - intros q' l' Hl'. destruct (HQ1 _ _ Hl') as (t' & Ht' & Hnd' & Hs' & Hl0). exists t'.
    assert (Hld : forall c, ld h' c = ld h1 c).
    { intros [c|c]; cbn [ld]; [by rewrite Hqs|]. rewrite He. case_decide; [|done]. by destruct (ents h1 !! c). }
    split_and!; [congruence|done| |by rewrite Hld].
    eapply seg_frame; [done|done|]. intros x _. unfold lk. rewrite He. case_decide; [|done].
    by destruct (ents h1 !! x).
  - unfold ttl_of. rewrite Hqs, Ht1, Et1. done.
  - intros y. rewrite He. change (ents h1) with (ents h). case_decide; [|done].
    destruct (ents h !! y) as [ty|]; simpl; [|done]. unfold shift, field_set. do 2 f_equal.
    unfold i32, u32. dlia.
Qed.

(** ** The list of user queues *)

(** Following [ifq_next] from [p] visits [l]; [ttls] are the timeouts on it. *)
Fixpoint uchain (h : tqheap) (p : option loc) (l : list loc) : Prop :=
  match l with
  | [] => p = None
  | x :: l => p = Some x /\ exists t, qs h !! x = Some t /\ uchain h (ifq_next t) l
  end.
Definition ttls (h : tqheap) (l : list loc) : list Z := omap (ttl_of h) l.
Definition with_ttl (h : tqheap) (period : Z) (l : list loc) : option loc :=
  head (filter (fun x => ttl_of h x = Some period) l).

Lemma uchain_ttl h p l x : uchain h p l -> x ∈ l -> is_Some (ttl_of h x).
Proof.
  revert p. induction l as [|y l IH]; intros p; [set_solver|]. intros (-> & t & Ht & Hc) [->|Hx]%elem_of_cons.
  - unfold ttl_of. rewrite Ht. by eexists.
  - by eapply IH.
Qed.
Lemma elem_ttls h l d : d ∈ ttls h l <-> exists x, x ∈ l /\ ttl_of h x = Some d.
Proof. unfold ttls. rewrite list_elem_of_omap. done. Qed.

Lemma find_timeoutqueue_run h period l : forall fuel p,
  uchain h p l -> (length l <= fuel)%nat ->
  find_timeoutqueue fuel period p h = Some (with_ttl h period l, h).
Proof.
  unfold with_ttl. induction l as [|x l IH]; intros fuel p; [intros -> _; by destruct fuel|].
  intros (-> & t & Ht & Hc) Hf. destruct fuel as [|fuel]; [simpl in Hf; lia|]. cbn [find_timeoutqueue].
  assert (Et : ttl_of h x = Some (ifq_ttl t)) by (unfold ttl_of; by rewrite Ht).
  rewrite (que_bind _ _ _ _ _ Ht), filter_cons.
  destruct (Z.eqb_spec (ifq_ttl t) period) as [E|Hne]; [by rewrite decide_True by congruence|].
  rewrite decide_False by (rewrite Et; congruence). rewrite (que_bind _ _ _ _ _ Ht). apply IH; [done|simpl in Hf; lia].
Qed.

(** The chain and its timeouts do not see a write to the other fields of a queue,
    nor to a queue outside. *)
Lemma uchain_frame h h' l : forall p,
  uchain h p l -> (forall x, x ∈ l -> ifq_next <$> qs h' !! x = ifq_next <$> qs h !! x) -> uchain h' p l.
Proof.
  induction l as [|x l IH]; intros p; [done|]. intros (-> & t & Ht & Hc) E. split; [done|].
  pose proof (E x ltac:(set_solver)) as Ex. rewrite Ht in Ex. apply fmap_Some in Ex as (t' & Ht' & En).
  exists t'. split; [done|]. rewrite <- En. apply IH; [done|]. intros. apply E. set_solver.
Qed.
Lemma ttls_frame h h' l : (forall x, x ∈ l -> ttl_of h' x = ttl_of h x) -> ttls h' l = ttls h l.
Proof.
  intros E. induction l as [|x l IH]; [done|]. unfold ttls in *. simpl. rewrite E by set_solver.
  destruct (ttl_of h x); [f_equal|]; apply IH; set_solver.
Qed.

Lemma with_ttl_None h period l : with_ttl h period l = None <-> period ∉ ttls h l.
Proof.
  unfold with_ttl. rewrite elem_ttls. destruct (filter _ l) as [|x l'] eqn:E; simpl.
  - split; [|done]. intros _ (x & Hx & Ht). assert (x ∈ filter (fun x => ttl_of h x = Some period) l) as Hf
      by by apply list_elem_of_filter. rewrite E in Hf. set_solver.
  - split; [done|]. intros Hn. exfalso. apply Hn.
    assert (x ∈ filter (fun x => ttl_of h x = Some period) l) as [? ?]%list_elem_of_filter by (rewrite E; set_solver).
    by exists x.
Qed.
Lemma with_ttl_Some h period l x : with_ttl h period l = Some x -> x ∈ l /\ ttl_of h x = Some period.
Proof.
  unfold with_ttl. destruct (filter _ l) as [|y l'] eqn:E; [done|]. intros [= ->].
  assert (x ∈ filter (fun x => ttl_of h x = Some period) l) as [? ?]%list_elem_of_filter by (rewrite E; set_solver).
  done.
Qed.

(** A hit revives the queue and takes a reference. *)
Definition revive (t : ipftq) : ipftq :=
  t <| ifq_flags ::= fun x => clear x IFQF_DELETE |> <| ifq_ref ::= fun x => x + 1 |>.
(** A miss initialises fresh memory. *)
Definition new_user_queue (q : loc) (period : Z) (nx : option loc) : ipftq :=
  mk_ipftq period None (HeadOf q) nx (Some ParentVar) 2 IFQF_USER.

Lemma addtimeoutqueue_hit_run fuel alloc secs h l q :
  uchain h (parent_var h) l -> (length l <= fuel)%nat ->
  with_ttl h (u32 (secs * IPF_HZ_DIVIDE)) l = Some q ->
  ipf_addtimeoutqueue fuel alloc secs h = Some (Some q, set_que q revive h).
Proof.
  intros Hc Hf Hw. destruct (with_ttl_Some _ _ _ _ Hw) as [_ [t [Ht _]]%fmap_Some].
  unfold ipf_addtimeoutqueue. cbn [gets]. rewrite (bind_eq _ _ _ (parent_var h) h) by done.
  rewrite (bind_eq _ _ _ _ _ (find_timeoutqueue_run _ _ _ _ _ Hc Hf)), Hw.
  rewrite (bind_eq _ _ _ tt _ (upd_que_run _ _ _ _ Ht)).
  rewrite (bind_eq _ _ _ tt _ (upd_que_run _ _ _ _ (qs_set_que_eq _ _ _ _ Ht))), set_que_set_que.
  done.
Qed.

Lemma addtimeoutqueue_miss_run fuel secs h l q junk :
  uchain h (parent_var h) l -> (length l <= fuel)%nat ->
  with_ttl h (u32 (secs * IPF_HZ_DIVIDE)) l = None ->
  ipf_addtimeoutqueue fuel (Some (q, junk)) secs h =
  Some (Some q,
    mk_tqheap (ents h) (<[q := new_user_queue q (u32 (secs * IPF_HZ_DIVIDE)) (parent_var h)]> (qs h))
      (Some q) (ipf_userifqs h + 1)).
Proof.
  intros Hc Hf Hw. set (period := u32 _) in *.
  unfold ipf_addtimeoutqueue. rewrite (bind_eq _ _ _ (parent_var h) h) by done. fold period.
  rewrite (bind_eq _ _ _ _ _ (find_timeoutqueue_run _ _ _ _ _ Hc Hf)), Hw.
  set (h0 := h <| qs := <[q := junk]> (qs h) |>).
  rewrite (bind_eq _ _ _ tt h0) by done.
  assert (E0 : qs h0 !! q = Some junk) by apply lookup_insert_eq.
  rewrite (bind_eq _ _ _ tt _ (upd_que_run _ _ _ _ E0)).
  rewrite (bind_eq _ _ _ (parent_var h) _) by done.
  do 4 (rewrite (bind_eq _ _ _ tt _ (upd_que_run _ _ _ _ (qs_set_que_eq _ _ _ _ E0))), set_que_set_que).
  cbv [mbind st_bind qstore modify mret st_ret]. do 2 f_equal.
  unfold set_que, field_set. cbn [h0 ents qs parent_var ipf_userifqs field_set]. f_equal.
  apply map_eq. intros i. rewrite lookup_alter.
  destruct (decide (q = i)) as [->|]; [by rewrite !lookup_insert_eq|by rewrite !lookup_insert_ne].
Qed.

(** Releasing the last reference unlinks and frees the queue. *)
Lemma freetimeoutqueue_run h q t pn :
  qs h !! q = Some t -> has (ifq_flags t) IFQF_DELETE = true -> ifq_ref t = 0 ->
  has (ifq_flags t) IFQF_USER = true -> ifq_pnext t = Some pn -> ifq_next t <> Some q ->
  (forall p, pn = QNextOf p -> p <> q /\ is_Some (qs h !! p)) ->
  (forall n, ifq_next t = Some n -> is_Some (qs h !! n)) ->
  exists h', ipf_freetimeoutqueue q h = Some (tt, h') /\ qs h' !! q = None /\
    parent_var h' = (if pn is ParentVar then ifq_next t else parent_var h) /\
    ipf_userifqs h' = ipf_userifqs h - 1 /\ ents h' = ents h.
Proof.
  intros Ht Hd Hr Hu Hp Hnq Hpn Hn. unfold ipf_freetimeoutqueue.
  do 2 rewrite (que_bind _ _ _ _ _ Ht). rewrite Hd, Hr, Hu. cbn [negb orb Z.eqb].
  rewrite (que_bind _ _ _ _ _ Ht), Hp, need_bind, (que_bind _ _ _ _ _ Ht).
  assert (exists h1, qstore pn (ifq_next t) h = Some (tt, h1) /\ qs h1 !! q = Some t /\
            (forall n, is_Some (qs h !! n) -> is_Some (qs h1 !! n)) /\
            parent_var h1 = (if pn is ParentVar then ifq_next t else parent_var h) /\
            ipf_userifqs h1 = ipf_userifqs h /\ ents h1 = ents h) as (h1 & Hs & Ht1 & Hk & V1 & V2 & V3).
  { destruct pn as [|p]; [by eexists|]. destruct (Hpn p eq_refl) as [Hne [tp Htp]].
    eexists. split; [by eapply upd_que_run|]. split_and!; try done.
    - by rewrite qs_set_que, decide_False.
    - intros n [tn Hn']. rewrite qs_set_que. case_decide; [subst; rewrite Hn'|]; by eexists. }
  rewrite (bind_eq _ _ _ _ _ Hs), (que_bind _ _ _ _ _ Ht1).
  rewrite <- V1, <- V2, <- V3. clear V1 V2 V3.
  assert (exists h2, (match ifq_next t with
      | Some n => pn' ← que ifq_pnext q; upd_que n (fun t => t <| ifq_pnext := pn' |>)
      | None => mret tt end) h1 = Some (tt, h2) /\ qs h2 !! q = Some t /\
     parent_var h2 = parent_var h1 /\ ipf_userifqs h2 = ipf_userifqs h1 /\ ents h2 = ents h1)
    as (h2 & Hs2 & Ht2 & <- & <- & <-).
  { destruct (ifq_next t) as [n|] eqn:En; [|by exists h1].
    destruct (Hk n (Hn n eq_refl)) as [tn Htn]. rewrite (que_bind _ _ _ _ _ Ht1).
    eexists. split; [by eapply upd_que_run|]. split_and!; try done.
    rewrite qs_set_que, decide_False; [done|]. congruence. }
  rewrite (bind_eq _ _ _ _ _ Hs2), (bind_eq _ _ _ tt _ (upd_que_run _ _ _ _ Ht2)).
  rewrite (bind_eq _ _ _ tt _ (upd_que_run _ _ _ _ (qs_set_que_eq _ _ _ _ Ht2))), set_que_set_que.
  eexists. split; [done|]. split_and!; [apply lookup_delete_eq|done..].
Qed.

Lemma ttls_cons h x l d : ttl_of h x = Some d -> ttls h (x :: l) = d :: ttls h l.
Proof. intros E. unfold ttls. simpl. by rewrite E. Qed.

(** ** A concrete heap

    Queue 1 (20 ticks) holds the entries 10, 11 and 12, queue 2 (40 ticks) holds
    13; the entry 14 is on no queue. *)
Definition demo_ent (pn : option cell) (nx : option loc) (q : option loc) (die touched : Z) : ipftqent :=
  mk_tqent pn nx q None die touched 0 0 0.
Definition demo : tqheap := mk_tqheap
  (<[10%positive := demo_ent (Some (HeadOf 1)) (Some 11%positive) (Some 1%positive) 25 5]>
   (<[11%positive := demo_ent (Some (NextOf 10)) (Some 12%positive) (Some 1%positive) 27 7]>
   (<[12%positive := demo_ent (Some (NextOf 11)) None (Some 1%positive) 28 8]>
   (<[13%positive := demo_ent (Some (HeadOf 2)) None (Some 2%positive) 50 10]>
   (<[14%positive := demo_ent None None None 0 0]> ∅)))))
  (<[1%positive := mk_ipftq 20 (Some 10%positive) (NextOf 12) (Some 2%positive) None 4 0]>
   (<[2%positive := mk_ipftq 40 (Some 13%positive) (NextOf 13) None None 2 0]> ∅))
  None 0.
Definition demo_queues : gmap loc (list loc) :=
  <[1%positive := [10; 11; 12]%positive]> (<[2%positive := [13]%positive]> ∅).

Lemma tq_rel_insert h Q q l : queue h q l -> tq_rel h Q -> tq_rel h (<[q := l]> Q).
Proof.
  intros Hq HQ q' l'. destruct (decide (q = q')) as [<-|].
  - rewrite lookup_insert_eq. by intros [= <-].
  - rewrite lookup_insert_ne by done. apply HQ.
Qed.
Lemma tq_rel_empty h : tq_rel h ∅.
Proof. intros q l. by rewrite lookup_empty. Qed.

Lemma demo_rel : tq_rel demo demo_queues.
Proof.
  unfold demo_queues. repeat apply tq_rel_insert; [..|apply tq_rel_empty].
  - eexists. split_and!; [reflexivity|apply (bool_decide_unpack _); by vm_compute|repeat split|reflexivity].
  - eexists. split_and!; [reflexivity|apply (bool_decide_unpack _); by vm_compute|repeat split|reflexivity].
Qed.

(** ** Properties *)

(** C34. [ipf_movequeue] between two queues is removal from one list and
    appending to the other: the reference of the old queue is released, the new
    queue gains one, the entry dies a full timeout of the new queue after now,
    and no other entry, owner or timeout changes. *)
Theorem movequeue_between ticks h Q o n l1 x l2 ln ttl :
  o <> n -> tq_rel h Q -> Q !! o = Some (l1 ++ x :: l2) -> Q !! n = Some ln -> ttl_of h n = Some ttl ->
  exists h', ipf_movequeue ticks x o n h = Some (tt, h') /\
    tq_rel h' (<[n := ln ++ [x]]> (<[o := l1 ++ l2]> Q)) /\
    timing h' x = Some (u32 (ticks + ttl), u32 ticks) /\
    (forall y, y <> x -> timing h' y = timing h y) /\
    (forall y, owner h' y = owner h y) /\
    (forall q, refs h' q = if decide (q = o) then (fun r => r - 1) <$> refs h q
                           else if decide (q = n) then (fun r => r + 1) <$> refs h q else refs h q) /\
    (forall q, ttl_of h' q = ttl_of h q).
Proof. apply movequeue_other_run. Qed.

Lemma movequeue_between_witness :
  exists h', ipf_movequeue 30 11%positive 1%positive 2%positive demo = Some (tt, h') /\
    tq_rel h' (<[2%positive := [13; 11]%positive]> (<[1%positive := [10; 12]%positive]> demo_queues)) /\
    timing h' 11%positive = Some (70, 30).
Proof.
  destruct (movequeue_between 30 demo demo_queues 1%positive 2%positive [10%positive] 11%positive
              [12%positive] [13%positive] 40 ltac:(done) demo_rel eq_refl eq_refl eq_refl)
    as (h' & H1 & H2 & H3 & _).
  exists h'. split; [exact H1|]. split; [exact H2|exact H3].
Defined.

(** [ipf_movequeue] within one queue keeps the queue sorted by expiry while
    time advances and nothing wraps, whichever of its shortcuts it takes: the
    entry is already last, its successor dies at the same tick, or it is moved. *)
Theorem movequeue_keeps_order ticks now h Q q l1 x l2 ttl :
  tq_rel h Q -> Q !! q = Some (l1 ++ x :: l2) -> ageing h q ttl now (l1 ++ x :: l2) ->
  now <= ticks -> ticks + ttl < 2 ^ 32 -> snd <$> timing h x <> Some ticks ->
  exists h' l', ipf_movequeue ticks x q q h = Some (tt, h') /\ l' ≡ₚ l1 ++ x :: l2 /\
    tq_rel h' (<[q := l']> Q) /\ ageing h' q ttl ticks l' /\
    timing h' x = Some (ticks + ttl, ticks).
Proof.
  intros HQ Hq Ha Hn Hw Ht. pose proof Ha as (Httl & ? & ? & _).
  destruct (movequeue_same_run ticks h Q q l1 x l2 ttl HQ Hq Httl Ht) as (h' & Hrun & HQ' & Hx & Hv & _ & Hq').
  pose proof (mid_notin _ _ _ (queue_NoDup _ _ _ (HQ _ _ Hq))) as Hnx.
  assert (Hk : ageing h' q ttl ticks (l1 ++ l2 ++ [x])).
  { rewrite app_assoc. eapply ageing_snoc; [by eapply ageing_remove|done|done|apply Hq'| |done].
    intros y Hy. apply Hv. by intros ->. }
  assert (Hr : (match l2 with [] => True | y :: _ => fst <$> timing h y = Some (u32 (ticks + ttl)) end) ->
    ageing h' q ttl ticks (l1 ++ x :: l2)).
  { intros Hm. eapply ageing_refresh; [done..|apply Hq'|done|done|done|done]. }
  exists h', (requeue h (u32 (ticks + ttl)) l1 x l2). split; [done|].
  rewrite !u32_id in Hx by (unfold is_u32; lia).
  unfold requeue in *. destruct l2 as [|y l2]; [split_and!; try done; by apply Hr|].
  case_decide as Hd; split_and!; try done; [by apply Hr|].
  apply Permutation_app_head. symmetry. apply (Permutation_cons_append (y :: l2) x).
Qed.

Lemma demo_ageing : ageing demo 1%positive 20 10 [10; 11; 12]%positive.
Proof.
  split_and!; try done; [repeat constructor; vm_compute; congruence|].
  intros d Hd. change (dies demo _) with [25; 27; 28] in Hd. set_unfold. lia.
Qed.
Lemma movequeue_keeps_order_witness :
  exists h' l', ipf_movequeue 12 10%positive 1%positive 1%positive demo = Some (tt, h') /\
    l' ≡ₚ [10; 11; 12]%positive /\ tq_rel h' (<[1%positive := l']> demo_queues) /\
    ageing h' 1%positive 20 12 l' /\ timing h' 10%positive = Some (32, 12).
Proof.
  apply (movequeue_keeps_order 12 10 demo demo_queues 1%positive [] 10%positive [11; 12]%positive 20
           demo_rel eq_refl demo_ageing); [lia|lia|vm_compute; congruence].
Defined.

(** [ipf_queueappend] puts an entry that is on no queue at the end of one,
    records its owner, takes a reference and keeps the queue sorted by expiry. *)
Theorem queueappend_at_end ticks now h Q q l x par ttl :
  tq_rel h Q -> Q !! q = Some l -> is_Some (ents h !! x) -> unqueued Q x ->
  ageing h q ttl now l -> now <= ticks -> ticks + ttl < 2 ^ 32 ->
  exists h', ipf_queueappend ticks x q par h = Some (tt, h') /\
    tq_rel h' (<[q := l ++ [x]]> Q) /\ ageing h' q ttl ticks (l ++ [x]) /\
    refs h' q = (fun r => r + 1) <$> refs h q /\
    (forall y, y <> x -> timing h' y = timing h y /\ owner h' y = owner h y).
Proof.
  intros HQ Hq Hx Hu Ha Hn Hw. pose proof Ha as (Httl & _).
  destruct (queueappend_run ticks h Q q l x par ttl HQ Hq Httl Hx Hu) as (h' & Hrun & HQ' & Ht & Hv & Hr & _ & Hl & _).
  exists h'. split_and!; try done. eapply ageing_snoc; [done..|congruence| |done].
  intros y Hy. apply Hv. intros ->. by apply (Hu q l).
Qed.
Lemma queueappend_at_end_witness :
  exists h', ipf_queueappend 12 14%positive 1%positive (Some 99%positive) demo = Some (tt, h') /\
    tq_rel h' (<[1%positive := [10; 11; 12; 14]%positive]> demo_queues) /\
    ageing h' 1%positive 20 12 [10; 11; 12; 14]%positive /\ refs h' 1%positive = Some 5.
Proof.
  destruct (queueappend_at_end 12 10 demo demo_queues 1%positive [10; 11; 12]%positive 14%positive
              (Some 99%positive) 20 demo_rel eq_refl ltac:(by eexists)) as (h' & H1 & H2 & H3 & H4 & _).
  - intros q l. unfold demo_queues. rewrite !lookup_insert. repeat case_decide; intros [= <-]; by apply (bool_decide_unpack _).
  - exact demo_ageing.
  - lia.
  - lia.
  - exists h'. split_and!; [exact H1|exact H2|exact H3|exact H4].
Defined.

(** [ipf_deletequeueentry] takes exactly the entry off its queue, makes it
    an orphan and releases one reference of the queue. *)
Theorem deletequeueentry_removes h Q q l1 x l2 :
  tq_rel h Q -> Q !! q = Some (l1 ++ x :: l2) ->
  exists h', ipf_deletequeueentry x h = Some (tt, h') /\
    tq_rel h' (<[q := l1 ++ l2]> Q) /\ lk h' x = Some (None, None) /\
    (forall y, timing h' y = timing h y /\ owner h' y = owner h y) /\
    refs h' q = (fun r => r - 1) <$> refs h q /\
    (forall q', q' <> q -> qs h' !! q' = qs h !! q').
Proof. apply deletequeueentry_run. Qed.
Lemma deletequeueentry_removes_witness :
  exists h', ipf_deletequeueentry 12%positive demo = Some (tt, h') /\
    tq_rel h' (<[1%positive := [10; 11]%positive]> demo_queues).
Proof.
  destruct (deletequeueentry_removes demo demo_queues 1%positive [10; 11]%positive 12%positive [] demo_rel eq_refl)
    as (h' & H1 & H2 & _).
  exists h'. split; [exact H1|exact H2].
Defined.

(** [ipf_apply_timeout] moves every expiry of the queue by the old timeout
    minus the new one, so an entry that died a full old timeout after its last
    use dies [2 * old - new] after it, not the new timeout that the queue now
    has: lengthening a timeout shortens the life of the entries already queued. *)
Theorem apply_timeout_moves_back fuel secs h Q q l old x die touched :
  tq_rel h Q -> Q !! q = Some l -> ttl_of h q = Some old -> (length l <= fuel)%nat ->
  x ∈ l -> timing h x = Some (die, touched) -> die = u32 (touched + old) ->
  exists h', ipf_apply_timeout fuel q secs h = Some (tt, h') /\ tq_rel h' Q /\
    ttl_of h' q = Some (IPF_TTLVAL secs) /\
    timing h' x = Some (u32 (touched + (2 * old - IPF_TTLVAL secs)), touched).
Proof.
  intros HQ Hq Httl Hf Hx Ht ->.
  destruct (apply_timeout_run fuel secs h Q q l old HQ Hq Httl Hf) as (h' & Hrun & HQ' & Httl' & He).
  exists h'. split_and!; try done. unfold timing in *. rewrite He, decide_True by done.
  destruct (ents h !! x) as [t|]; simpl in *; [|done]. injection Ht as -> ->. autorewrite with ipf_wrap.
  do 3 f_equal. lia.
Qed.
Lemma apply_timeout_moves_back_witness :
  exists h', ipf_apply_timeout 3 1%positive 15 demo = Some (tt, h') /\ tq_rel h' demo_queues /\
    ttl_of h' 1%positive = Some 30 /\ timing h' 12%positive = Some (18, 8).
Proof.
  apply (apply_timeout_moves_back 3 15 demo demo_queues 1%positive [10; 11; 12]%positive 20 12%positive 28 8
           demo_rel eq_refl eq_refl); [simpl; lia|set_solver|reflexivity|reflexivity].
Defined.

(** [ipf_addtimeoutqueue] always yields a queue with the wanted timeout at
    the front of, or already on, the list of user queues; a miss allocates it,
    and no two queues of the list ever share a timeout. *)
Theorem addtimeoutqueue_unique fuel q junk secs h l :
  uchain h (parent_var h) l -> NoDup (ttls h l) -> (q ∉ l) -> (length l <= fuel)%nat ->
  exists r h' l', ipf_addtimeoutqueue fuel (Some (q, junk)) secs h = Some (Some r, h') /\
    uchain h' (parent_var h') l' /\ NoDup (ttls h' l') /\
    ttl_of h' r = Some (u32 (secs * IPF_HZ_DIVIDE)) /\
    (if with_ttl h (u32 (secs * IPF_HZ_DIVIDE)) l is Some p
     then r = p /\ l' = l /\ refs h' r = (fun n => n + 1) <$> refs h r
     else r = q /\ l' = q :: l /\ refs h' r = Some 2).
Proof.
  intros Hc Hnd Hq Hf. set (period := u32 _). destruct (with_ttl h period l) as [p|] eqn:Hw.
  - pose proof (with_ttl_Some _ _ _ _ Hw) as [Hp Htp].
    assert (E : forall x, ttl_of (set_que p revive h) x = ttl_of h x).
    { intros x. unfold ttl_of. rewrite qs_set_que. case_decide; [|done]. by destruct (qs h !! x). }
    exists p, (set_que p revive h), l. split_and!; [by apply (addtimeoutqueue_hit_run fuel _ secs h l)|..].
    + eapply uchain_frame; [done|]. intros x Hx. rewrite qs_set_que. case_decide; [|done]. by destruct (qs h !! x).
    + by rewrite (ttls_frame h).
    + by rewrite E.
    + done.
    + done.
    + rewrite refs_set_que, decide_True by done. unfold refs. by destruct (qs h !! p).
  - pose proof (addtimeoutqueue_miss_run fuel secs h l q junk Hc Hf Hw) as Hrun.
    set (h' := mk_tqheap _ _ _ _) in Hrun.
    assert (Hk : forall x, x ∈ l -> qs h' !! x = qs h !! x).
    { intros x Hx. unfold h'. simpl. rewrite lookup_insert_ne; [done|]. by intros ->. }
    assert (Hn : qs h' !! q = Some (new_user_queue q period (parent_var h))) by apply lookup_insert_eq.
    assert (Ht : ttl_of h' q = Some period) by (unfold ttl_of; by rewrite Hn).
    exists q, h', (q :: l). split_and!; try done.
    + split; [done|]. eexists. split; [exact Hn|]. eapply uchain_frame; [exact Hc|]. intros x Hx. by rewrite Hk.
    + rewrite (ttls_cons _ _ _ _ Ht), (ttls_frame h) by (intros x Hx; unfold ttl_of; by rewrite Hk).
      apply NoDup_cons. split; [by apply with_ttl_None|done].
    + unfold refs. by rewrite Hn.
Qed.

Definition junk_ifq : ipftq := mk_ipftq 77 (Some 5%positive) (HeadOf 9) (Some 6%positive) None (-3) 255.
Definition demo_user : tqheap := mk_tqheap ∅
  (<[1%positive := mk_ipftq 20 None (HeadOf 1) None (Some ParentVar) 0 (Z.lor IFQF_USER IFQF_DELETE)]> ∅)
  (Some 1%positive) 1.
Lemma demo_user_chain : uchain demo_user (parent_var demo_user) [1%positive].
Proof. split; [done|]. by eexists. Qed.

Lemma addtimeoutqueue_unique_witness :
  exists r h' l', ipf_addtimeoutqueue 1 (Some (2%positive, junk_ifq)) 30 demo_user = Some (Some r, h') /\
    uchain h' (parent_var h') l' /\ NoDup (ttls h' l') /\ ttl_of h' r = Some 60 /\ r = 2%positive.
Proof.
  destruct (addtimeoutqueue_unique 1 2%positive junk_ifq 30 demo_user [1%positive] demo_user_chain)
    as (r & h' & l' & H1 & H2 & H3 & H4 & H5).
  - apply (bool_decide_unpack _). by vm_compute.
  - set_solver.
  - simpl. lia.
  - exists r, h', l'. split_and!; [exact H1|exact H2|exact H3|exact H4|exact (proj1 H5)].
Defined.

(** A user queue that is created while the list is not empty does not become
    the back link of the queue it precedes; freeing that older queue unlinks it
    through [*parent] and drops the newer queue from the list. *)
Theorem freetimeoutqueue_loses_newer fuel q junk secs h a t l :
  parent_var h = Some a -> qs h !! a = Some t -> uchain h (ifq_next t) l -> (q ∉ a :: l) -> (a ∉ l) ->
  (length l < fuel)%nat -> u32 (secs * IPF_HZ_DIVIDE) ∉ ttls h (a :: l) ->
  ifq_pnext t = Some ParentVar -> has (ifq_flags t) IFQF_DELETE = true ->
  has (ifq_flags t) IFQF_USER = true -> ifq_ref t = 0 ->
  exists h', (_ ← ipf_addtimeoutqueue fuel (Some (q, junk)) secs; ipf_freetimeoutqueue a) h = Some (tt, h') /\
    parent_var h' = ifq_next t /\ (parent_var h' <> Some q).
Proof.
  intros Hp Ht Hc Hq Ha Hf Hw Hpn Hd Hu Hr.
  assert (Hc' : uchain h (parent_var h) (a :: l)) by (split; [done|by exists t]).
  assert (Hw' : with_ttl h (u32 (secs * IPF_HZ_DIVIDE)) (a :: l) = None) by by apply with_ttl_None.
  rewrite (bind_eq _ _ _ _ _ (addtimeoutqueue_miss_run fuel secs h (a :: l) q junk Hc' ltac:(simpl; lia) Hw')).
  set (h1 := mk_tqheap _ _ _ _).
  assert (Hk : forall x, x <> q -> qs h1 !! x = qs h !! x) by (intros; by apply lookup_insert_ne).
  assert (Hnx : forall n, ifq_next t = Some n -> n ∈ l /\ is_Some (qs h !! n)).
  { intros n En. rewrite En in Hc. destruct l as [|y l]; simpl in Hc; [done|].
    destruct Hc as ([= ->] & t' & Ht' & _). split; [set_solver|by eexists]. }
  destruct (freetimeoutqueue_run h1 a t ParentVar) as (h' & Hrun & _ & Hp' & _); try done.
  - rewrite Hk by set_solver. done.
  - intros En. by apply Ha, Hnx.
  - intros n En. destruct (Hnx n En) as [Hn ?]. rewrite Hk; [done|]. intros ->. set_solver.
  - exists h'. split_and!; [done|done|]. rewrite Hp'. intros En. apply Hnx in En as [? _]. set_solver.
Qed.
Lemma freetimeoutqueue_loses_newer_witness :
  exists h', (_ ← ipf_addtimeoutqueue 1 (Some (2%positive, junk_ifq)) 30; ipf_freetimeoutqueue 1%positive) demo_user
      = Some (tt, h') /\ parent_var h' = None /\ parent_var h' <> Some 2%positive.
Proof.
  apply (freetimeoutqueue_loses_newer 1 2%positive junk_ifq 30 demo_user 1%positive
           (mk_ipftq 20 None (HeadOf 1) None (Some ParentVar) 0 (Z.lor IFQF_USER IFQF_DELETE)) []);
    first [reflexivity | apply (bool_decide_unpack _); by vm_compute | simpl; lia].
Defined.
