(* ===== verification/TcpAge.v ===== *)
(** The TCP state machine [ipf_tcp_age] of ip_state.c, which ages both sides of a
    connection from the packets seen and moves the connection's timeout entry
    between the queues of Timeoutq.v. *)
From S2P Require Import Prelude Packet Timeoutq.

(** ** Definitions *)

Definition TQE_RULEBASED : Z := 0x00000001.
Definition IS_TCPFSM : Z := 0x10000.
Definition IS_STRICT : Z := 0x20000.
Definition IS_ISNSYN : Z := 0x40000.
Definition IS_ISNACK : Z := 0x80000.
Definition IS_LOOSE : Z := 0x200000.

(** [x & m] compared with [v]. *)
Definition masked (x m v : Z) : bool := Z.land x m =? v.

(** The branches of the [switch (nstate)] of [ipf_tcp_age]: the new [nstate] and
    [rval], from the flags of the entry and of the packet and the state of the
    other side. *)
Definition age_listen (flags tcpflags ostate nstate : Z) : Z * Z :=
  let '(nstate, rval) :=
    if masked tcpflags TH_OPENING TH_OPENING then (IPF_TCPS_SYN_RECEIVED, 1)
    else if masked tcpflags TH_OPENING TH_SYN then (IPF_TCPS_SYN_SENT, 1)
    else (nstate, 0) in
  (* picking up a connection that is established already *)
  if (Z.land flags IS_TCPFSM =? 0) && masked tcpflags TH_ACKMASK TH_ACK then
    if (ostate =? IPF_TCPS_LISTEN) || (ostate =? IPF_TCPS_SYN_RECEIVED) then (IPF_TCPS_HALF_ESTAB, 1)
    else if (ostate =? IPF_TCPS_HALF_ESTAB) || (ostate =? IPF_TCPS_ESTABLISHED)
    then (IPF_TCPS_ESTABLISHED, 1)
    else (nstate, rval)
  else (nstate, rval).

Definition age_syn_sent (tcpflags nstate : Z) : Z * Z :=
  if clear tcpflags (Z.lor TH_ECN TH_CWR) =? TH_SYN then (nstate, 2)
  else if masked tcpflags (Z.lor (Z.lor TH_SYN TH_FIN) TH_ACK) TH_ACK then (IPF_TCPS_ESTABLISHED, 1)
  else if has tcpflags TH_FIN then (IPF_TCPS_FIN_WAIT_1, 1)
  else if masked tcpflags TH_OPENING TH_OPENING then (IPF_TCPS_SYN_RECEIVED, 1)
  else (nstate, 0).

Definition age_syn_received (tcpflags nstate : Z) : Z * Z :=
  if masked tcpflags (Z.lor (Z.lor TH_SYN TH_FIN) TH_ACK) TH_ACK then (IPF_TCPS_ESTABLISHED, 1)
  else if clear tcpflags (Z.lor TH_ECN TH_CWR) =? TH_OPENING then (nstate, 2)
  else if has tcpflags TH_FIN then (IPF_TCPS_FIN_WAIT_1, 1)
  else (nstate, 0).

Definition age_half_estab (tcpflags ostate nstate : Z) : Z * Z :=
  if has tcpflags TH_FIN then (IPF_TCPS_FIN_WAIT_1, 1)
  else if masked tcpflags TH_ACKMASK TH_ACK then
    if (ostate =? IPF_TCPS_LISTEN) || (ostate =? IPF_TCPS_SYN_SENT) || (ostate =? IPF_TCPS_SYN_RECEIVED)
    then (nstate, 1)
    else if (ostate =? IPF_TCPS_HALF_ESTAB) || (ostate =? IPF_TCPS_ESTABLISHED)
    then (IPF_TCPS_ESTABLISHED, 1)
    else (nstate, 0)
  else (nstate, 0).

Definition age_established (tcpflags ostate nstate : Z) : Z * Z :=
  if has tcpflags TH_FIN then
    if ostate =? IPF_TCPS_FIN_WAIT_1 then (IPF_TCPS_CLOSING, 1) else (IPF_TCPS_FIN_WAIT_1, 1)
  else if has tcpflags TH_ACK then
    if ostate =? IPF_TCPS_FIN_WAIT_1 then (IPF_TCPS_CLOSE_WAIT, 1)
    else if ostate <? IPF_TCPS_CLOSE_WAIT then (IPF_TCPS_ESTABLISHED, 1)
    else (nstate, 1)
  else (nstate, 1).

Definition age_close_wait (tcpflags : Z) : Z * Z :=
  if has tcpflags TH_FIN then (IPF_TCPS_LAST_ACK, 1) else (IPF_TCPS_CLOSE_WAIT, 1).

Definition age_fin_wait_1 (tcpflags ostate : Z) : Z * Z :=
  if has tcpflags TH_ACK && (ostate >? IPF_TCPS_CLOSE_WAIT) then (IPF_TCPS_LAST_ACK, 1)
  else (IPF_TCPS_FIN_WAIT_1, 1).

Definition age_closing (tcpflags nstate : Z) : Z * Z :=
  if masked tcpflags (Z.lor TH_FIN TH_ACK) TH_ACK then (IPF_TCPS_TIME_WAIT, 1) else (nstate, 1).

Definition age_last_ack (tcpflags nstate : Z) : Z * Z :=
  if has tcpflags TH_ACK then (nstate, 1) else (nstate, 0).

Definition age_time_wait (ostate nstate : Z) : Z * Z :=
  if ostate =? IPF_TCPS_LAST_ACK then (IPF_TCPS_CLOSED, 1) else (nstate, 2).

Definition age_switch (flags tcpflags ostate nstate : Z) : Z * Z :=
  if nstate =? IPF_TCPS_LISTEN then age_listen flags tcpflags ostate nstate
  else if nstate =? IPF_TCPS_SYN_SENT then age_syn_sent tcpflags nstate
  else if nstate =? IPF_TCPS_SYN_RECEIVED then age_syn_received tcpflags nstate
  else if nstate =? IPF_TCPS_HALF_ESTAB then age_half_estab tcpflags ostate nstate
  else if nstate =? IPF_TCPS_ESTABLISHED then age_established tcpflags ostate nstate
  else if nstate =? IPF_TCPS_CLOSE_WAIT then age_close_wait tcpflags
  else if nstate =? IPF_TCPS_FIN_WAIT_1 then age_fin_wait_1 tcpflags ostate
  else if nstate =? IPF_TCPS_CLOSING then age_closing tcpflags nstate
  else if nstate =? IPF_TCPS_LAST_ACK then age_last_ack tcpflags nstate
  else if nstate =? IPF_TCPS_FIN_WAIT_2 then (nstate, 0)
  else if nstate =? IPF_TCPS_TIME_WAIT then age_time_wait ostate nstate
  else if nstate =? IPF_TCPS_CLOSED then (nstate, 2)
  else (nstate, 0).

(** The reset branch: the new state of the sender's side. *)
Definition age_rst (tcpflags dlen : Z) : Z :=
  if negb (has tcpflags TH_PUSH) && (dlen =? 0) then IPF_TCPS_CLOSED else IPF_TCPS_CLOSE_WAIT.

(** [tqe->tqe_state[dir]], for [dir] 0 or 1. *)
Definition tqe_state (dir : Z) (t : ipftqent) : Z :=
  if dir =? 0 then tqe_state0 t else tqe_state1 t.
Definition set_state (dir v : Z) (t : ipftqent) : ipftqent :=
  if dir =? 0 then t <| tqe_state0 := v |> else t <| tqe_state1 := v |>.

(** [ipf_tcp_age]; [tqtab s] is the address of [tqtab[s]]. *)
Definition ipf_tcp_age (ticks : Z) (tqe : loc) (fin : fr_info) (tcp : tcphdr) (tqtab : Z -> loc)
    (flags ok : Z) : ST tqheap Z :=
  let dir := fin_rev fin in
  let tcpflags := th_flags tcp in
  let dlen := fin_dlen fin - Z.shiftl (th_off tcp) 2 in
  if negb ((dir =? 0) || (dir =? 1)) then stuck else
  ostate ← ent (tqe_state (1 - dir)) tqe;
  nstate ← ent (tqe_state dir) tqe;
  nr ← (if has tcpflags TH_RST then
          when_ (ostate <=? IPF_TCPS_ESTABLISHED)
            (upd_ent tqe (set_state (1 - dir) IPF_TCPS_CLOSE_WAIT));;
          mret (age_rst tcpflags dlen, 1)
        else mret (age_switch flags tcpflags ostate nstate));
  let '(nstate, rval) := nr : Z * Z in
  (* If rval == 2 then do not update the queue position, but treat the packet
     as being ok. *)
  if rval =? 2 then mret 1
  else if rval =? 1 then
    when_ (negb (ok =? 0)) (upd_ent tqe (set_state dir nstate));;
    fl ← ent tqe_flags tqe;
    when_ (negb (has fl TQE_RULEBASED))
      (q ← ent tqe_ifq tqe; q ← need q; ipf_movequeue ticks tqe q (tqtab nstate));;
    mret rval
  else mret rval.

(** ** The machine on pairs of states *)

(** A packet as the state machine sees it. *)
Record event := mk_event { ev_ticks : Z; ev_fin : fr_info; ev_tcp : tcphdr; ev_ok : Z }.

Definition valid_dir (e : event) : Prop := fin_rev (ev_fin e) = 0 \/ fin_rev (ev_fin e) = 1.

Definition side (dir : Z) (c : Z * Z) : Z := if dir =? 0 then fst c else snd c.
Definition set_side (dir v : Z) (c : Z * Z) : Z * Z := if dir =? 0 then (v, snd c) else (fst c, v).

(** The verdict of one packet: the value of [nstate] and [rval] at the end of the
    [if]. *)
Definition verdict (flags : Z) (e : event) (c : Z * Z) : Z * Z :=
  let f := th_flags (ev_tcp e) in
  let dir := fin_rev (ev_fin e) in
  if has f TH_RST then (age_rst f (fin_dlen (ev_fin e) - Z.shiftl (th_off (ev_tcp e)) 2), 1)
  else age_switch flags f (side (1 - dir) c) (side dir c).

(** One packet's effect on the states of the two sides. *)
Definition age (flags : Z) (e : event) (c : Z * Z) : Z * Z :=
  let dir := fin_rev (ev_fin e) in
  let '(nstate, rval) := verdict flags e c in
  let c := if has (th_flags (ev_tcp e)) TH_RST && (side (1 - dir) c <=? IPF_TCPS_ESTABLISHED)
           then set_side (1 - dir) IPF_TCPS_CLOSE_WAIT c else c in
  if (rval =? 1) && negb (ev_ok e =? 0) then set_side dir nstate c else c.

Definition age_list (flags : Z) (es : list event) (c : Z * Z) : Z * Z :=
  fold_left (fun c e => age flags e c) es c.

(** The program on a sequence of packets; what it returns for each. *)
Fixpoint age_all (x : loc) (tqtab : Z -> loc) (flags : Z) (es : list event) : ST tqheap (list Z) :=
  match es with
  | [] => mret []
  | e :: es =>
      r ← ipf_tcp_age (ev_ticks e) x (ev_fin e) (ev_tcp e) tqtab flags (ev_ok e);
      rs ← age_all x tqtab flags es;
      mret (r :: rs)
  end.

(** What the heap says about the connection. *)
Definition states (h : tqheap) (x : loc) : option (Z * Z) :=
  (fun t => (tqe_state0 t, tqe_state1 t)) <$> ents h !! x.
Definition flags_of (h : tqheap) (x : loc) : option Z := tqe_flags <$> ents h !! x.

(** The states that index the array of queues. *)
Definition is_state (s : Z) : Prop := 0 <= s < IPF_TCP_NSTATES.
Definition used_state (s : Z) : Prop := is_state s /\ s <> IPF_TCPS_FIN_WAIT_2.
Definition used_states (c : Z * Z) : Prop := used_state (fst c) /\ used_state (snd c).

(** A connection entry [x] on one of the program's queues, which include every
    queue of the table. *)
Record conn_ok (tqtab : Z -> loc) (x : loc) (h : tqheap) (Q : gmap loc (list loc)) : Prop := {
  co_rel : tq_rel h Q;
  co_tab : forall s, is_state s -> is_Some (Q !! tqtab s);
  co_x : exists q l, Q !! q = Some l /\ x ∈ l }.

(** On which queue [x] is. *)
Definition on_queue (Q : gmap loc (list loc)) (x q : loc) : Prop := exists l, Q !! q = Some l /\ x ∈ l.

(** *** Case analysis on the flags *)

(** The results of the [switch], one branch at a time: every branch yields a used
    state when it starts in one, and never leaves the closing states. *)
Ltac age_cases :=
  repeat match goal with
    | |- context [if ?b then _ else _] => destruct b eqn:?
    end; simpl.

Definition closing (s : Z) : Prop := IPF_TCPS_CLOSE_WAIT <= s.

Lemma age_switch_used flags f o n :
  used_state n -> used_state (fst (age_switch flags f o n)).
Proof.
  intros Hn. unfold age_switch, age_listen, age_syn_sent, age_syn_received, age_half_estab, age_established,
    age_close_wait, age_fin_wait_1, age_closing, age_last_ack, age_time_wait.
  age_cases; try done; unfold used_state, is_state, IPF_TCP_NSTATES; vm_compute; intuition congruence.
Qed.

Lemma age_rst_used f d : used_state (age_rst f d).
Proof. unfold age_rst. case_match; vm_compute; intuition congruence. Qed.

Lemma age_switch_closing flags f o n : closing n -> closing (fst (age_switch flags f o n)).
Proof.
  unfold closing. intros Hn. unfold age_switch.
  repeat match goal with
    | |- context [if ?n =? ?c then _ else _] => destruct (Z.eqb_spec n c) as [E|?];
        [subst n; try (exfalso; revert Hn; vm_compute; congruence)|]
    end; try done;
  unfold age_close_wait, age_fin_wait_1, age_closing, age_last_ack, age_time_wait; age_cases; try done;
    vm_compute; congruence.
Qed.

Lemma age_rst_closing f d : closing (age_rst f d).
Proof. unfold age_rst. case_match; vm_compute; congruence. Qed.

Lemma side_set_eq dir v c : (dir = 0 \/ dir = 1) -> side dir (set_side dir v c) = v.
Proof. by intros [->| ->]. Qed.
Lemma side_set_other dir v c : (dir = 0 \/ dir = 1) -> side (1 - dir) (set_side dir v c) = side (1 - dir) c.
Proof. by intros [->| ->]. Qed.
Lemma used_states_side c dir : used_states c -> used_state (side dir c).
Proof. intros [? ?]. unfold side. by case_match. Qed.
Lemma used_states_set dir v c : used_states c -> used_state v -> used_states (set_side dir v c).
Proof. intros [? ?] ?. unfold set_side, used_states. by case_match. Qed.

Lemma verdict_used flags e c : used_states c -> used_state (fst (verdict flags e c)).
Proof.
  intros Hc. unfold verdict. case_match; [apply age_rst_used|]. apply age_switch_used. by apply used_states_side.
Qed.

Lemma age_used flags e c : used_states c -> used_states (age flags e c).
Proof.
  intros Hc. pose proof (verdict_used flags e c Hc) as Hv. unfold age.
  destruct (verdict flags e c) as [n r]. simpl in Hv.
  assert (used_state IPF_TCPS_CLOSE_WAIT) by (vm_compute; intuition congruence).
  repeat case_match; auto using used_states_set.
Qed.

(** ** The program implements the machine on pairs *)

Lemma owner_views h h' x : owner h' x = owner h x -> states h' x = states h x /\ flags_of h' x = flags_of h x.
Proof.
  unfold owner, states, flags_of. intros E.
  destruct (ents h' !! x) as [t'|], (ents h !! x) as [t|]; simpl in *; try discriminate; [|done].
  injection E as _ -> -> ->. done.
Qed.

(** Writing one side's state. *)
Lemma set_state_views h x dir v c fl :
  (dir = 0 \/ dir = 1) -> states h x = Some c -> flags_of h x = Some fl ->
  states (set_ent x (set_state dir v) h) x = Some (set_side dir v c) /\
  flags_of (set_ent x (set_state dir v) h) x = Some fl /\
  (forall y, y <> x -> ents (set_ent x (set_state dir v) h) !! y = ents h !! y).
Proof.
  intros Hd Hs Hf. unfold states, flags_of in *. rewrite ents_set_ent, decide_True by done.
  destruct (ents h !! x) as [t|]; simpl in *; [|done]. injection Hs as <-. injection Hf as <-.
  split_and!; [by destruct Hd as [->| ->]|by destruct Hd as [->| ->]|].
  intros y Hy. by rewrite lookup_alter_ne.
Qed.

Lemma set_state_conn tqtab x dir v h Q :
  conn_ok tqtab x h Q -> conn_ok tqtab x (set_ent x (set_state dir v) h) Q.
Proof.
  intros [Hr Ht Hx]. split; [|done|done].
  apply tq_rel_set_data; [..|done]; intros t; unfold set_state; by case_match.
Qed.

Lemma states_side h x c t dir : ents h !! x = Some t -> states h x = Some c -> (dir = 0 \/ dir = 1) ->
  tqe_state dir t = side dir c.
Proof. unfold states. intros -> [= <-]. by intros [->| ->]. Qed.

(** The end of [ipf_tcp_age] when a transition was made. *)
Lemma age_move_run ticks x tqtab h Q c fl n dir ok :
  conn_ok tqtab x h Q -> states h x = Some c -> flags_of h x = Some fl -> is_state n -> (dir = 0 \/ dir = 1) ->
  exists h' Q', (when_ (negb (ok =? 0)) (upd_ent x (set_state dir n));;
      fl ← ent tqe_flags x;
      when_ (negb (has fl TQE_RULEBASED))
        (q ← ent tqe_ifq x; q ← need q; ipf_movequeue ticks x q (tqtab n));;
      mret 1) h = Some (1, h') /\ conn_ok tqtab x h' Q' /\
    states h' x = Some (if negb (ok =? 0) then set_side dir n c else c) /\ flags_of h' x = Some fl /\
    (has fl TQE_RULEBASED = false -> on_queue Q' x (tqtab n)) /\
    (forall y, y <> x -> owner h' y = owner h y).
Proof.
  intros Hc Hs Hf Hn Hd.
  assert (exists h1, when_ (negb (ok =? 0)) (upd_ent x (set_state dir n)) h = Some (tt, h1) /\
    conn_ok tqtab x h1 Q /\ states h1 x = Some (if negb (ok =? 0) then set_side dir n c else c) /\
    flags_of h1 x = Some fl /\ (forall y, y <> x -> ents h1 !! y = ents h !! y))
    as (h1 & Hrun & Hc1 & Hs1 & Hf1 & He1).
  { destruct (negb (ok =? 0)); [|by exists h]. destruct (set_state_views h x dir n c fl Hd Hs Hf) as (? & ? & ?).
    eexists. split; [|split_and!; [by apply set_state_conn|done..]].
    unfold states in Hs. destruct (ents h !! x) as [t|] eqn:Et; [|done]. by apply (upd_ent_run _ _ _ t). }
  assert (Ho : forall y, y <> x -> owner h1 y = owner h y) by (intros y Hy; unfold owner; by rewrite He1).
  rewrite (bind_eq _ _ _ _ _ Hrun). clear Hrun He1.
  pose proof Hf1 as Hf2. unfold flags_of in Hf2. destruct (ents h1 !! x) as [t|] eqn:Et; [|done].
  injection Hf2 as Efl. rewrite (ent_bind _ _ _ _ _ Et), Efl.
  destruct (has fl TQE_RULEBASED) eqn:Hrb; cbn [negb when_].
  { exists h1, Q. split_and!; try done. }
  destruct Hc1 as [Hr Ht (q & l & Hq & Hx)]. destruct (Ht n Hn) as [ln Hln].
  destruct (queue_elem_ent _ _ _ _ (Hr _ _ Hq) Hx) as (t' & Et' & Hifq & _).
  rewrite Et in Et'. injection Et' as <-.
  rewrite bind_assoc, (ent_bind _ _ _ _ _ Et), Hifq, bind_assoc, need_bind.
  destruct (movequeue_run ticks h1 Q x q (tqtab n) l ln Hr Hq Hx Hln)
    as (h' & Q' & l' & Hrun & HQ' & Hl' & Hx' & Hdom & Hown & _).
  destruct (owner_views _ _ x (Hown x)) as [Es Ef].
  exists h', Q'. rewrite (bind_eq _ _ _ _ _ Hrun). split_and!; try done.
  - split; [done| |by eexists _, _]. intros s Hst. apply Hdom, Ht, Hst.
  - by rewrite Es.
  - by rewrite Ef.
  - intros _. by exists l'.
  - intros y Hy. rewrite Hown. by apply Ho.
Qed.

(** The [switch] only ever asks for 0, 1 or 2. *)
Lemma verdict_rval flags e c : let r := snd (verdict flags e c) in r = 0 \/ r = 1 \/ r = 2.
Proof.
  unfold verdict, age_switch, age_listen, age_syn_sent, age_syn_received, age_half_estab, age_established,
    age_close_wait, age_fin_wait_1, age_closing, age_last_ack, age_time_wait.
  age_cases; auto.
Qed.

Lemma tcp_age_run x e tqtab flags h Q c fl :
  conn_ok tqtab x h Q -> valid_dir e -> states h x = Some c -> flags_of h x = Some fl -> used_states c ->
  let n := fst (verdict flags e c) in let r := snd (verdict flags e c) in
  exists h' Q', ipf_tcp_age (ev_ticks e) x (ev_fin e) (ev_tcp e) tqtab flags (ev_ok e) h
      = Some (if r =? 2 then 1 else r, h') /\
    conn_ok tqtab x h' Q' /\ states h' x = Some (age flags e c) /\ flags_of h' x = Some fl /\
    (r = 1 -> has fl TQE_RULEBASED = false -> on_queue Q' x (tqtab n)) /\ (r <> 1 -> Q' = Q) /\
    (forall y, y <> x -> owner h' y = owner h y).
Proof.
  intros Hc Hdir Hs Hf Hu n r. pose proof (verdict_used flags e c Hu) as Hn. fold n in Hn.
  pose proof (verdict_rval flags e c) as Hr. cbv zeta in Hr. fold r in Hr.
  set (dir := fin_rev (ev_fin e)) in *.
  assert (Hd' : 1 - dir = 0 \/ 1 - dir = 1) by (unfold valid_dir in Hdir; fold dir in Hdir; lia).
  assert (exists t, ents h !! x = Some t) as [t Et].
  { unfold states in Hs. destruct (ents h !! x) as [t|]; [by exists t|done]. }
  unfold ipf_tcp_age. fold dir.
  replace (negb ((dir =? 0) || (dir =? 1))) with false by (destruct Hdir as [E|E]; fold dir in E; by rewrite E).
  rewrite (ent_bind _ _ _ _ _ Et), (ent_bind _ _ _ _ _ Et).
  rewrite (states_side h x c t (1 - dir) Et Hs Hd'), (states_side h x c t dir Et Hs Hdir).
  unfold age, n, r, verdict in *. clear n r. fold dir in Hn, Hr |- *.
  destruct (has (th_flags (ev_tcp e)) TH_RST) eqn:Hrst; cbn [fst snd andb] in *.
  - assert (exists h1, when_ (side (1 - dir) c <=? IPF_TCPS_ESTABLISHED)
        (upd_ent x (set_state (1 - dir) IPF_TCPS_CLOSE_WAIT)) h = Some (tt, h1) /\ conn_ok tqtab x h1 Q /\
        states h1 x = Some (if side (1 - dir) c <=? IPF_TCPS_ESTABLISHED
                            then set_side (1 - dir) IPF_TCPS_CLOSE_WAIT c else c) /\
        flags_of h1 x = Some fl /\ (forall y, y <> x -> owner h1 y = owner h y))
      as (h1 & Hrun & Hc1 & Hs1 & Hf1 & Ho1).
    { destruct (side (1 - dir) c <=? IPF_TCPS_ESTABLISHED); [|by exists h].
      destruct (set_state_views h x (1 - dir) IPF_TCPS_CLOSE_WAIT c fl Hd' Hs Hf) as (? & ? & He).
      eexists. split; [by apply (upd_ent_run _ _ _ t)|].
      split_and!; [by apply set_state_conn|done..|]. intros y Hy. unfold owner. by rewrite He. }
    rewrite bind_assoc, (bind_eq _ _ _ _ _ Hrun). cbn [Z.eqb Pos.eqb]. rewrite ret_bind.
    destruct (age_move_run (ev_ticks e) x tqtab h1 Q _ fl (age_rst (th_flags (ev_tcp e))
      (fin_dlen (ev_fin e) - Z.shiftl (th_off (ev_tcp e)) 2)) dir (ev_ok e) Hc1 Hs1 Hf1 (proj1 Hn) Hdir)
      as (h' & Q' & Hrun' & ? & ? & ? & ? & Ho).
    exists h', Q'. split_and!; try done. intros y Hy. by rewrite Ho, Ho1.
  - rewrite ret_bind. destruct (age_switch _ _ _ _) as [n r] eqn:Ev. cbn [fst snd] in *.
    destruct Hr as [->|[->|Hr]].
    + exists h, Q. by split_and!.
    + cbn [Z.eqb Pos.eqb]. destruct (age_move_run (ev_ticks e) x tqtab h Q c fl n dir (ev_ok e) Hc Hs Hf
        (proj1 Hn) Hdir) as (h' & Q' & Hrun' & ? & ? & ? & ? & Ho).
      exists h', Q'. by split_and!.
    + subst r. exists h, Q. by split_and!.
Qed.

Lemma age_all_run x tqtab flags es : forall h Q c fl,
  conn_ok tqtab x h Q -> Forall valid_dir es -> states h x = Some c -> flags_of h x = Some fl -> used_states c ->
  exists rs h' Q', age_all x tqtab flags es h = Some (rs, h') /\ conn_ok tqtab x h' Q' /\
    states h' x = Some (age_list flags es c) /\ flags_of h' x = Some fl /\
    used_states (age_list flags es c) /\ length rs = length es.
Proof.
  induction es as [|e es IH]; intros h Q c fl Hc Hd Hs Hf Hu.
  { exists [], h, Q. by split_and!. }
  apply Forall_cons in Hd as [Hd Hds].
  destruct (tcp_age_run x e tqtab flags h Q c fl Hc Hd Hs Hf Hu) as (h1 & Q1 & Hrun & Hc1 & Hs1 & Hf1 & _).
  destruct (IH h1 Q1 _ fl Hc1 Hds Hs1 Hf1 (age_used flags e c Hu)) as (rs & h' & Q' & Hrun' & ? & ? & ? & ? & ?).
  eexists _, h', Q'. split_and!; [|done..|].
  - cbn [age_all]. rewrite (bind_eq _ _ _ _ _ Hrun), (bind_eq _ _ _ _ _ Hrun'). done.
  - simpl. by f_equal.
Qed.

(** ** Facts about sequences of packets *)

Lemma age_side_other flags e c d :
  valid_dir e -> (d = 0 \/ d = 1) -> fin_rev (ev_fin e) <> d ->
  side d (age flags e c) = side d c \/ side d (age flags e c) = IPF_TCPS_CLOSE_WAIT.
Proof.
  intros He Hd Hne. unfold age. destruct (verdict flags e c) as [n r].
  assert (Hdd : 1 - fin_rev (ev_fin e) = d) by (unfold valid_dir in He; lia). rewrite Hdd.
  assert (Hdr : fin_rev (ev_fin e) = 1 - d) by lia. rewrite Hdr.
  destruct Hd as [->| ->]; repeat case_match; simpl; auto.
Qed.

Lemma age_side_same flags e c :
  valid_dir e ->
  side (fin_rev (ev_fin e)) (age flags e c) = side (fin_rev (ev_fin e)) c \/
  ((snd (verdict flags e c) = 1) /\ ev_ok e <> 0 /\
   side (fin_rev (ev_fin e)) (age flags e c) = fst (verdict flags e c)).
Proof.
  intros He. unfold age. destruct (verdict flags e c) as [n r] eqn:Ev. simpl.
  assert (Hs : forall v c, side (fin_rev (ev_fin e)) (set_side (1 - fin_rev (ev_fin e)) v c) = side (fin_rev (ev_fin e)) c).
  { intros v c0. by destruct He as [->| ->]. }
  destruct ((r =? 1) && negb (ev_ok e =? 0)) eqn:E.
  - right. breflect. split_and!; [done|done|by apply side_set_eq].
  - left. case_match; [apply Hs|done].
Qed.

Lemma age_closing_side flags e c d :
  valid_dir e -> (d = 0 \/ d = 1) -> closing (side d c) -> closing (side d (age flags e c)).
Proof.
  intros He Hd Hc. destruct (decide (fin_rev (ev_fin e) = d)) as [<-|Hne].
  - destruct (age_side_same flags e c He) as [-> | (_ & _ & ->)]; [done|].
    unfold verdict. case_match; [apply age_rst_closing|by apply age_switch_closing].
  - destruct (age_side_other flags e c d He Hd Hne) as [-> | ->]; [done|]. vm_compute; congruence.
Qed.

Lemma age_list_closing flags es d : forall c,
  Forall valid_dir es -> (d = 0 \/ d = 1) -> closing (side d c) -> closing (side d (age_list flags es c)).
Proof.
  induction es as [|e es IH]; intros c Hes Hd Hc; [done|]. apply Forall_cons in Hes as [He Hes].
  apply IH; [done..|]. by apply age_closing_side.
Qed.

(** A packet of side [d] with all of [m] set, and not a reset, that was allowed to
    advance the connection. *)
Definition sent (d m : Z) (e : event) : Prop :=
  fin_rev (ev_fin e) = d /\ has (th_flags (ev_tcp e)) m = true /\ has (th_flags (ev_tcp e)) TH_RST = false /\
  ev_ok e <> 0.
Definition saw_syn (d : Z) (es : list event) : Prop := exists a e b, es = a ++ e :: b /\ sent d TH_SYN e.
Definition saw_syn_ack (d : Z) (es : list event) : Prop :=
  exists a e b e' r, es = a ++ e :: b ++ e' :: r /\ sent d TH_SYN e /\ sent d TH_ACK e'.

Lemma saw_syn_snoc d es e : saw_syn d es -> saw_syn d (es ++ [e]).
Proof. intros (a & x & b & -> & ?). exists a, x, (b ++ [e]). by rewrite <- app_assoc. Qed.
Lemma saw_syn_ack_snoc d es e : saw_syn_ack d es -> saw_syn_ack d (es ++ [e]).
Proof.
  intros (a & x & b & y & r & -> & ? & ?). exists a, x, b, y, (r ++ [e]). split_and!; [|done..].
  by rewrite <- app_assoc, <- app_comm_cons, <- app_assoc.
Qed.

Lemma masked_bit f m v b : masked f m v = true -> Z.land v b <> 0 -> has f b = true.
Proof.
  unfold masked. intros E%Z.eqb_eq Hb. apply has_true. intros Hz. apply Hb. rewrite <- E.
  rewrite <- Z.land_assoc, (Z.land_comm m), Z.land_assoc, Hz. apply Z.land_0_l.
Qed.

(** Where the early states come from under [IS_TCPFSM]: *)
Lemma age_switch_early flags f o n :
  Z.land flags IS_TCPFSM <> 0 -> used_state n -> n <> IPF_TCPS_HALF_ESTAB ->
  snd (age_switch flags f o n) = 1 ->
  let n' := fst (age_switch flags f o n) in
  n' <> IPF_TCPS_HALF_ESTAB /\
  (n' = IPF_TCPS_SYN_SENT \/ n' = IPF_TCPS_SYN_RECEIVED ->
   has f TH_SYN = true) /\
  (n' = IPF_TCPS_ESTABLISHED -> n = IPF_TCPS_ESTABLISHED \/
     ((n = IPF_TCPS_SYN_SENT \/ n = IPF_TCPS_SYN_RECEIVED) /\ has f TH_ACK = true)).
Proof.
  intros Hf Hn H3. apply Z.eqb_neq in Hf. unfold age_switch, age_listen, age_syn_sent, age_syn_received, age_half_estab,
    age_established, age_close_wait, age_fin_wait_1, age_closing, age_last_ack, age_time_wait. rewrite Hf. cbn [andb].
  age_cases; intros Hr; try discriminate Hr;
    repeat match goal with H : (_ =? _) = true |- _ => apply Z.eqb_eq in H; subst end;
    split_and!; try (vm_compute; congruence);
    try (intros [E|E]; exfalso; revert E; vm_compute; congruence);
    try (intros _; eapply masked_bit; [eassumption|vm_compute; congruence]);
    try (intros _; right; split; [tauto|]; eapply masked_bit; [eassumption|vm_compute; congruence]);
    try (intros _; by left); try (intros E; exfalso; revert E; vm_compute; congruence); tauto.
Qed.

Definition early_inv (es : list event) (c : Z * Z) : Prop :=
  forall d, (d = 0 \/ d = 1) ->
    side d c <> IPF_TCPS_HALF_ESTAB /\
    (side d c = IPF_TCPS_SYN_SENT \/ side d c = IPF_TCPS_SYN_RECEIVED -> saw_syn d es) /\
    (side d c = IPF_TCPS_ESTABLISHED -> saw_syn_ack d es).

Lemma early_inv_step flags es e c :
  Z.land flags IS_TCPFSM <> 0 -> valid_dir e -> used_states c ->
  early_inv es c -> early_inv (es ++ [e]) (age flags e c).
Proof.
  intros Hf He Hu Hinv d Hd. destruct (Hinv d Hd) as (I1 & I2 & I3).
  assert (Hkeep : side d (age flags e c) = side d c ->
    side d (age flags e c) <> IPF_TCPS_HALF_ESTAB /\
    (side d (age flags e c) = IPF_TCPS_SYN_SENT \/ side d (age flags e c) = IPF_TCPS_SYN_RECEIVED -> saw_syn d (es ++ [e])) /\
    (side d (age flags e c) = IPF_TCPS_ESTABLISHED -> saw_syn_ack d (es ++ [e]))).
  { intros ->. split_and!; auto using saw_syn_snoc, saw_syn_ack_snoc. }
  destruct (decide (fin_rev (ev_fin e) = d)) as [<-|Hne].
  - destruct (age_side_same flags e c He) as [E|(Hr & Hok & E)]; [by apply Hkeep|]. rewrite E.
    unfold verdict in *. destruct (has (th_flags (ev_tcp e)) TH_RST) eqn:Hrst; cbn [fst snd] in *.
    { unfold age_rst. case_match; vm_compute; intuition congruence. }
    destruct (age_switch_early flags _ _ _ Hf (used_states_side c (fin_rev (ev_fin e)) Hu) I1 Hr) as (J1 & J2 & J3).
    split_and!; [done| |].
    + intros Hs. exists es, e, []. split_and!; [done|]. split_and!; [done|by apply J2|done..].
    + intros Hs. destruct (J3 Hs) as [E4|[E12 Hack]]; [by apply saw_syn_ack_snoc, I3|].
      destruct (I2 E12) as (a & x & b & -> & Hx). exists a, x, b, e, [].
      split_and!; [by rewrite <- app_assoc|done|]. by split_and!.
  - destruct (age_side_other flags e c d He Hd Hne) as [E|E]; [by apply Hkeep|]. rewrite E.
    vm_compute; intuition congruence.
Qed.

Lemma early_inv_list flags es : forall pre c,
  Z.land flags IS_TCPFSM <> 0 -> Forall valid_dir es -> used_states c ->
  early_inv pre c -> early_inv (pre ++ es) (age_list flags es c).
Proof.
  induction es as [|e es IH]; intros pre c Hf Hes Hu Hi; [by rewrite app_nil_r|].
  apply Forall_cons in Hes as [He Hes]. change (e :: es) with ([e] ++ es). rewrite app_assoc.
  apply IH; [done|done|by apply age_used|by apply early_inv_step].
Qed.

(** ** A concrete connection: entry 10 on the queue of LISTEN *)

Definition demo_tab (s : Z) : loc := Z.to_pos (s + 1).
Definition demo_tcp : tqheap := mk_tqheap
  (<[10%positive := mk_tqent (Some (HeadOf 1)) None (Some 1%positive) None 60 0 0 0 0]> ∅)
  (list_to_map (((1%positive, mk_ipftq 60 (Some 10%positive) (NextOf 10) None None 2 0)) ::
     map (fun s => (demo_tab s, mk_ipftq 240 None (HeadOf (demo_tab s)) None None 1 0))
       [1; 2; 3; 4; 5; 6; 7; 8; 9; 10; 11]))
  None 0.
Definition demo_tcp_queues : gmap loc (list loc) :=
  list_to_map ((1%positive, [10%positive]) :: map (fun s => (demo_tab s, [])) [1; 2; 3; 4; 5; 6; 7; 8; 9; 10; 11]).

Lemma demo_tcp_ok : conn_ok demo_tab 10%positive demo_tcp demo_tcp_queues.
Proof.
  split.
  - unfold demo_tcp_queues. cbn [list_to_map map]. repeat apply tq_rel_insert; [..|apply tq_rel_empty];
      (eexists; split_and!; [reflexivity|apply (bool_decide_unpack _); by vm_compute|repeat split|reflexivity]).
  - intros s [Hs1 Hs2]. unfold IPF_TCP_NSTATES in Hs2.
    assert (Hin : s ∈ [0; 1; 2; 3; 4; 5; 6; 7; 8; 9; 10; 11]) by (rewrite !elem_of_cons; lia).
    rewrite !elem_of_cons in Hin. destruct_or! Hin; [subst; vm_compute; by eexists..|by apply elem_of_nil in Hin].
  - exists 1%positive, [10%positive]. split; [reflexivity|by left].
Qed.

(** [f] sent by [dir] with no payload, at tick [t]. *)
Definition demo_event (t dir f : Z) : event :=
  mk_event t (fin_zero <| fin_rev := dir |> <| fin_dlen := 20 |>) (mk_tcphdr 0 0 5 f 1024 0) 1.

(** ** Properties *)

(** C27. One call of [ipf_tcp_age] on a connection whose entry is on one of the
    queues: it always completes, the states of the two sides change as [age]
    says, both stay inside the table and never become the unused FIN_WAIT_2, the
    result is 0 exactly when the packet does not fit, and after a transition the
    entry (unless its timeout is set by a rule) is on the queue of the new
    state.  Retransmissions ([rval] 2) and misfits leave every queue alone. *)
Theorem tcp_age_refines x e tqtab flags h Q c fl :
  conn_ok tqtab x h Q -> valid_dir e -> states h x = Some c -> flags_of h x = Some fl -> used_states c ->
  let n := fst (verdict flags e c) in let r := snd (verdict flags e c) in
  used_states (age flags e c) /\
  exists h' Q', ipf_tcp_age (ev_ticks e) x (ev_fin e) (ev_tcp e) tqtab flags (ev_ok e) h
      = Some (if r =? 2 then 1 else r, h') /\
    conn_ok tqtab x h' Q' /\ states h' x = Some (age flags e c) /\
    (r = 1 -> has fl TQE_RULEBASED = false -> on_queue Q' x (tqtab n)) /\ (r <> 1 -> Q' = Q) /\
    (forall y, y <> x -> owner h' y = owner h y).
Proof.
  intros Hc Hd Hs Hf Hu n r. split; [by apply age_used|].
  destruct (tcp_age_run x e tqtab flags h Q c fl Hc Hd Hs Hf Hu) as (h' & Q' & ? & ? & ? & _ & ? & ? & ?).
  by exists h', Q'.
Qed.
Lemma tcp_age_refines_witness :
  let e := demo_event 5 0 TH_SYN in
  exists h' Q', ipf_tcp_age 5 10%positive (ev_fin e) (ev_tcp e) demo_tab 0 1 demo_tcp = Some (1, h') /\
    states h' 10%positive = Some (IPF_TCPS_SYN_SENT, IPF_TCPS_LISTEN) /\
    on_queue Q' 10%positive (demo_tab IPF_TCPS_SYN_SENT).
Proof.
  intros e. destruct (tcp_age_refines 10%positive e demo_tab 0 demo_tcp demo_tcp_queues (0, 0) 0 demo_tcp_ok)
    as (_ & h' & Q' & H1 & _ & H2 & H3 & _).
  - by left.
  - reflexivity.
  - reflexivity.
  - vm_compute; intuition congruence.
  - exists h', Q'. split_and!; [exact H1|exact H2|by apply H3].
Defined.

(** C28. Once a side is closing (CLOSE_WAIT or later) no sequence of packets, of
    either direction and with whatever flags, brings it back to an open state. *)
Theorem closing_is_final x tqtab flags es h Q c fl d :
  conn_ok tqtab x h Q -> Forall valid_dir es -> states h x = Some c -> flags_of h x = Some fl -> used_states c ->
  (d = 0 \/ d = 1) -> IPF_TCPS_CLOSE_WAIT <= side d c ->
  exists rs h' c', age_all x tqtab flags es h = Some (rs, h') /\ length rs = length es /\
    states h' x = Some c' /\ IPF_TCPS_CLOSE_WAIT <= side d c'.
Proof.
  intros Hc Hes Hs Hf Hu Hd Hcl.
  destruct (age_all_run x tqtab flags es h Q c fl Hc Hes Hs Hf Hu) as (rs & h' & Q' & Hrun & _ & Hs' & _ & _ & Hl).
  exists rs, h', (age_list flags es c). split_and!; try done. by apply age_list_closing.
Qed.
Definition demo_closed : tqheap := set_ent 10%positive (set_state 1 IPF_TCPS_CLOSED) demo_tcp.
Lemma closing_is_final_witness :
  exists rs h' c', age_all 10%positive demo_tab 0 [demo_event 5 0 TH_SYN; demo_event 6 1 TH_ACK] demo_closed = Some (rs, h') /\
    length rs = 2%nat /\ states h' 10%positive = Some c' /\ IPF_TCPS_CLOSE_WAIT <= side 1 c'.
Proof.
  apply (closing_is_final 10%positive demo_tab 0 [demo_event 5 0 TH_SYN; demo_event 6 1 TH_ACK] demo_closed
           demo_tcp_queues (0, 11) 0 1).
  - apply set_state_conn, demo_tcp_ok.
  - constructor; [by left|]. constructor; [by right|constructor].
  - reflexivity.
  - reflexivity.
  - vm_compute; intuition congruence.
  - by right.
  - vm_compute; congruence.
Defined.

(** C29. With [IS_TCPFSM] set (the rule asked for strict flags), a fresh
    connection has a side ESTABLISHED only after that very side sent a SYN and,
    later, an ACK, both of which the window check let through. *)
Theorem established_needs_handshake x tqtab flags es h Q fl d :
  conn_ok tqtab x h Q -> Forall valid_dir es -> states h x = Some (IPF_TCPS_LISTEN, IPF_TCPS_LISTEN) ->
  flags_of h x = Some fl -> Z.land flags IS_TCPFSM <> 0 -> (d = 0 \/ d = 1) ->
  exists rs h' c', age_all x tqtab flags es h = Some (rs, h') /\ states h' x = Some c' /\
    (side d c' = IPF_TCPS_ESTABLISHED -> saw_syn_ack d es).
Proof.
  intros Hc Hes Hs Hf Hfl Hd.
  assert (Hu : used_states (IPF_TCPS_LISTEN, IPF_TCPS_LISTEN)) by (vm_compute; intuition congruence).
  destruct (age_all_run x tqtab flags es h Q _ fl Hc Hes Hs Hf Hu) as (rs & h' & Q' & Hrun & _ & Hs' & _).
  eexists rs, h', _. split_and!; [done|done|].
  apply (early_inv_list flags es []); [done|done|done| |done].
  intros d' [->| ->]; vm_compute; intuition congruence.
Qed.
Definition demo_handshake : list event :=
  [demo_event 5 0 TH_SYN; demo_event 6 1 TH_OPENING; demo_event 7 0 TH_ACK].
Lemma established_needs_handshake_witness :
  exists rs h' c', age_all 10%positive demo_tab IS_TCPFSM demo_handshake demo_tcp = Some (rs, h') /\
    states h' 10%positive = Some c' /\ (side 0 c' = IPF_TCPS_ESTABLISHED -> saw_syn_ack 0 demo_handshake).
Proof.
  apply (established_needs_handshake 10%positive demo_tab IS_TCPFSM demo_handshake demo_tcp demo_tcp_queues 0 0
           demo_tcp_ok).
  - constructor; [by left|]. constructor; [by right|]. constructor; [by left|constructor].
  - reflexivity.
  - reflexivity.
  - vm_compute; congruence.
  - by left.
Defined.

(** The life of a connection in the comment above [ipf_tcp_age]: direction and
    flags of each packet. *)
Definition procession : list (Z * Z) :=
  [(0, TH_SYN); (1, TH_OPENING); (0, TH_ACK); (1, Z.lor TH_ACK TH_PUSH); (0, TH_ACK);
   (1, Z.lor TH_FIN TH_ACK); (0, TH_ACK); (1, Z.lor TH_ACK TH_PUSH); (0, TH_ACK); (0, TH_FIN); (1, TH_ACK)].
Definition follows (e : event) (p : Z * Z) : Prop :=
  fin_rev (ev_fin e) = fst p /\ th_flags (ev_tcp e) = snd p /\ ev_ok e <> 0.
(** [age] of a packet that carries [snd p] in direction [fst p]. *)
Definition age_ideal (flags : Z) (c : Z * Z) (p : Z * Z) : Z * Z :=
  age flags (demo_event 0 (fst p) (snd p)) c.

Lemma age_follows flags e p c : follows e p -> has (snd p) TH_RST = false -> age flags e c = age_ideal flags c p.
Proof.
  intros (Hr & Hf & Hok) Hrst. unfold age_ideal, age, verdict. simpl. rewrite Hr, Hf, Hrst.
  apply Z.eqb_neq in Hok. by rewrite Hok.
Qed.
(** Of the entry's flags only [IS_TCPFSM] matters. *)
Definition norm_flags (flags : Z) : Z := if Z.land flags IS_TCPFSM =? 0 then 0 else IS_TCPFSM.
Lemma age_ideal_flags flags c p : age_ideal flags c p = age_ideal (norm_flags flags) c p.
Proof.
  unfold norm_flags, age_ideal, age, verdict, age_switch, age_listen. destruct (Z.land flags IS_TCPFSM =? 0) eqn:E;
    [replace (Z.land 0 IS_TCPFSM =? 0) with true by done|replace (Z.land IS_TCPFSM IS_TCPFSM =? 0) with false by done]; done.
Qed.
Lemma age_list_follows flags ps : forall es c,
  Forall2 follows es ps -> Forall (fun p => has (snd p) TH_RST = false) ps ->
  age_list flags es c = fold_left (age_ideal (norm_flags flags)) ps c.
Proof.
  induction ps as [|p ps IH]; intros es c H Hp; inversion H; subst; [done|].
  apply Forall_cons in Hp as [Hp Hps]. simpl. rewrite <- (IH l) by done. simpl. by rewrite <- age_ideal_flags, <- (age_follows flags x p c).
Qed.
Lemma procession_no_rst n : Forall (fun p => has (snd p) TH_RST = false) (take n procession).
Proof. apply Forall_take. apply (bool_decide_unpack _). vm_compute. exact I. Qed.

(** The connection of the comment above [ipf_tcp_age] runs through as long as
    its packets pass the window check, whatever the flags of the entry: the
    handshake leaves the initiator ESTABLISHED at its first ACK (the comment says
    HALF_ESTAB, 3), and the last ACK leaves the responder in LAST_ACK (the
    comment says TIME_WAIT, 10); before it the initiator is in LAST_ACK, 8. *)
Theorem typical_procession x tqtab flags es h Q fl n :
  conn_ok tqtab x h Q -> states h x = Some (IPF_TCPS_LISTEN, IPF_TCPS_LISTEN) -> flags_of h x = Some fl ->
  Forall2 follows es (take n procession) ->
  exists rs h' c', age_all x tqtab flags es h = Some (rs, h') /\ states h' x = Some c' /\
    (n = 3%nat -> c' = (IPF_TCPS_ESTABLISHED, IPF_TCPS_SYN_RECEIVED)) /\
    (n = 5%nat -> c' = (IPF_TCPS_ESTABLISHED, IPF_TCPS_ESTABLISHED)) /\
    (n = 10%nat -> c' = (IPF_TCPS_LAST_ACK, IPF_TCPS_FIN_WAIT_1)) /\
    (n = 11%nat -> c' = (IPF_TCPS_LAST_ACK, IPF_TCPS_LAST_ACK)).
Proof.
  intros Hc Hs Hf Hes.
  assert (Hv : Forall valid_dir es).
  { assert (Hd : Forall (fun p : Z * Z => fst p = 0 \/ fst p = 1) (take n procession)).
    { apply Forall_take. apply (bool_decide_unpack _). vm_compute. exact I. }
    clear -Hes Hd. revert Hd. induction Hes as [|e p es ps He Hes IH]; [constructor|].
    intros [Hp Hps]%Forall_cons. constructor; [|by apply IH]. unfold valid_dir. by rewrite (proj1 He). }
  assert (Hu : used_states (IPF_TCPS_LISTEN, IPF_TCPS_LISTEN)) by (vm_compute; intuition congruence).
  destruct (age_all_run x tqtab flags es h Q _ fl Hc Hv Hs Hf Hu) as (rs & h' & Q' & Hrun & _ & Hs' & _).
  eexists rs, h', _. split_and!; [done|done|..]; intros ->; rewrite (age_list_follows flags _ _ _ Hes) by apply procession_no_rst;
    unfold norm_flags; destruct (Z.land flags IS_TCPFSM =? 0); vm_compute; reflexivity.
Qed.
Lemma typical_procession_witness :
  exists rs h' c', age_all 10%positive demo_tab 0 demo_handshake demo_tcp = Some (rs, h') /\
    states h' 10%positive = Some c' /\ c' = (IPF_TCPS_ESTABLISHED, IPF_TCPS_SYN_RECEIVED).
Proof.
  destruct (typical_procession 10%positive demo_tab 0 demo_handshake demo_tcp demo_tcp_queues 0 3 demo_tcp_ok)
    as (rs & h' & c' & H1 & H2 & H3 & _).
  - reflexivity.
  - reflexivity.
  - repeat constructor; vm_compute; congruence.
  - exists rs, h', c'. split_and!; [exact H1|exact H2|by apply H3].
Defined.

(** A reset without PUSH and without data closes its sender at once, puts
    the other side into CLOSE_WAIT if it was still open, and moves the entry to
    the queue of CLOSED, from every pair of states. *)
Theorem reset_closes x e tqtab flags h Q c fl :
  conn_ok tqtab x h Q -> valid_dir e -> states h x = Some c -> flags_of h x = Some fl -> used_states c ->
  has (th_flags (ev_tcp e)) TH_RST = true -> has (th_flags (ev_tcp e)) TH_PUSH = false ->
  fin_dlen (ev_fin e) = 4 * th_off (ev_tcp e) -> ev_ok e <> 0 -> has fl TQE_RULEBASED = false ->
  let d := fin_rev (ev_fin e) in
  exists h' Q' c', ipf_tcp_age (ev_ticks e) x (ev_fin e) (ev_tcp e) tqtab flags (ev_ok e) h = Some (1, h') /\
    conn_ok tqtab x h' Q' /\ states h' x = Some c' /\ side d c' = IPF_TCPS_CLOSED /\
    side (1 - d) c' = Z.max (side (1 - d) c) IPF_TCPS_CLOSE_WAIT /\ on_queue Q' x (tqtab IPF_TCPS_CLOSED).
Proof.
  intros Hc Hd Hs Hf Hu Hr Hp Hl Hok Hrb d.
  assert (Ev : verdict flags e c = (IPF_TCPS_CLOSED, 1)).
  { unfold verdict. rewrite Hr. unfold age_rst. rewrite Hp, Z.shiftl_mul_pow2, Hl by lia.
    replace (4 * th_off (ev_tcp e) - th_off (ev_tcp e) * 2 ^ 2) with 0 by lia. done. }
  destruct (tcp_age_run x e tqtab flags h Q c fl Hc Hd Hs Hf Hu) as (h' & Q' & Hrun & ? & Hs' & _ & Hq & _).
  rewrite Ev in *. cbn [fst snd] in *. exists h', Q', (age flags e c).
  split_and!; try done; [| |by apply Hq]; unfold age; rewrite Ev, Hr; fold d;
    apply Z.eqb_neq in Hok; rewrite Hok; cbn [Z.eqb Pos.eqb negb andb]; [by apply side_set_eq|].
  rewrite side_set_other by done.
  assert (Hdd : 1 - d = 0 \/ 1 - d = 1) by (unfold valid_dir in Hd; fold d in Hd; lia).
  destruct (Z.leb_spec (side (1 - d) c) IPF_TCPS_ESTABLISHED);
    [rewrite side_set_eq by done|]; unfold IPF_TCPS_ESTABLISHED, IPF_TCPS_CLOSE_WAIT in *; lia.
Qed.
Lemma reset_closes_witness :
  let e := demo_event 9 1 (Z.lor TH_RST TH_ACK) in
  exists h' Q' c', ipf_tcp_age 9 10%positive (ev_fin e) (ev_tcp e) demo_tab 0 1 demo_tcp = Some (1, h') /\
    conn_ok demo_tab 10%positive h' Q' /\ states h' 10%positive = Some c' /\ side 1 c' = IPF_TCPS_CLOSED /\
    side 0 c' = IPF_TCPS_CLOSE_WAIT /\ on_queue Q' 10%positive (demo_tab IPF_TCPS_CLOSED).
Proof.
  intros e. apply (reset_closes 10%positive e demo_tab 0 demo_tcp demo_tcp_queues (0, 0) 0 demo_tcp_ok);
    try reflexivity; [by right|vm_compute; intuition congruence|vm_compute; congruence].
Defined.
