(* ===== verification/Queues.v ===== *)
(** The timeout queues of one table (the state table's, for example) as a single
    invariant of the heap: which queues there are, that each is sorted by expiry,
    and which entries are queued.  Timeoutq.v treats one operation on one queue
    exactly; here the operations are shown to keep the invariant, so that a table
    can forget on which queue an entry is. *)
From S2P Require Import Prelude Packet Timeoutq TcpAge.

(** ** What the queue operations leave alone *)

(** On which queue an entry says it is. *)
Definition ifq_of (h : tqheap) (x : loc) : option (option loc) := tqe_ifq <$> ents h !! x.

(** A property of the heap that survives writes to entries that change the queue of
    entries of [P] only, and writes to queues that keep the timeouts and the chain of queues. *)
Record stable (P : loc -> Prop) (I : tqheap -> Prop) : Prop := {
  st_ent : forall e f h, I h -> is_Some (ents h !! e) -> P e \/ (forall t, tqe_ifq (f t) = tqe_ifq t) -> I (set_ent e f h);
  st_que : forall q f h, I h -> (forall t, ifq_ttl (f t) = ifq_ttl t /\ ifq_next (f t) = ifq_next t) -> I (set_que q f h) }.

Lemma stable_ifq y v : stable (fun e => e <> y) (fun h => ifq_of h y = v).
Proof.
  split.
  - intros e f h <- _ Hf. unfold ifq_of. rewrite ents_set_ent. case_decide as E; [|done]. subst e.
    destruct Hf as [Hf|Hf]; [done|]. destruct (ents h !! y); [|done]. cbn. by rewrite Hf.
  - by intros q f h <- _.
Qed.
Lemma stable_ttl q v : stable (fun _ => True) (fun h => ttl_of h q = v).
Proof.
  split; [done|]. intros q' f h <- Hf. unfold ttl_of. rewrite qs_set_que. case_decide; [|done].
  destruct (qs h !! q) as [t|]; [|done]. cbn. by destruct (Hf t) as [-> _].
Qed.
Lemma stable_present y : stable (fun _ => True) (fun h => is_Some (ents h !! y)).
Proof.
  split; [|done]. intros e f h [t Ht] _ _. rewrite ents_set_ent, Ht. case_decide; by eexists.
Qed.
Lemma stable_absent y : stable (fun _ => True) (fun h => ents h !! y = None).
Proof. split; [|done]. intros e f h Hy _ _. rewrite ents_set_ent, Hy. by case_decide. Qed.
Lemma stable_parent v : stable (fun _ => True) (fun h => parent_var h = v).
Proof. by split. Qed.

(** Following [ifq_next] visits the queues [l] and ends with a null pointer. *)
Fixpoint queue_chain (h : tqheap) (p : option loc) (l : list loc) : Prop :=
  match l with
  | [] => p = None
  | q :: l => p = Some q /\ exists t, qs h !! q = Some t /\ queue_chain h (ifq_next t) l
  end.
Lemma stable_chain p l : stable (fun _ => True) (fun h => queue_chain h p l).
Proof.
  split; [by intros e f h Hh _ _; revert p Hh; induction l; simpl; naive_solver|].
  intros q f h Hh Hf. revert p Hh. induction l as [|q' l IH]; intros p; cbn [queue_chain]; [done|].
  intros (-> & t & Ht & Hc). split; [done|]. rewrite qs_set_que, Ht.
  case_decide; [|by exists t; auto]. exists (f t). split; [done|]. destruct (Hf t) as [_ ->]. auto.
Qed.

Section Frame.
Context (P : loc -> Prop) (I : tqheap -> Prop) (HI : stable P I).
Lemma keeps_upd_ent e f : P e \/ (forall t, tqe_ifq (f t) = tqe_ifq t) -> keeps I (upd_ent e f).
Proof.
  intros Hf h Hh. unfold wpg, upd_ent. destruct (ents h !! e) eqn:E; [|done]. cbn.
  apply (st_ent P I HI); [done|by eexists|done].
Qed.
Lemma keeps_upd_que q f : (forall t, ifq_ttl (f t) = ifq_ttl t /\ ifq_next (f t) = ifq_next t) -> keeps I (upd_que q f).
Proof. intros Hf h Hh. unfold wpg, upd_que. destruct (qs h !! q); [|done]. by apply (st_que P I HI). Qed.
Lemma keeps_ent {A} (f : ipftqent -> A) e : keeps I (ent f e).
Proof. intros h Hh. unfold wpg, ent. by destruct (ents h !! e). Qed.
Lemma keeps_que {A} (f : ipftq -> A) q : keeps I (que f q).
Proof. intros h Hh. unfold wpg, que. by destruct (qs h !! q). Qed.
Lemma keeps_store c w : keeps I (store c w).
Proof. destruct c; [by apply keeps_upd_que|apply keeps_upd_ent; by right]. Qed.
Hint Resolve keeps_ent keeps_que keeps_store : keeps.
Hint Extern 1 (keeps _ (upd_ent _ _)) => (apply keeps_upd_ent; auto) : keeps.
Hint Extern 1 (keeps _ (upd_que _ _)) => (apply keeps_upd_que; done) : keeps.
Hint Extern 1 (keeps _ (if decide _ then _ else _)) => case_decide : keeps.

Lemma keeps_unlink x q : keeps I (unlink x q).
Proof. unfold unlink. auto 20 with keeps. Qed.
Lemma keeps_link_tail x q : keeps I (link_tail x q).
Proof. unfold link_tail. auto 20 with keeps. Qed.
Lemma keeps_deletetimeoutqueue q : keeps I (ipf_deletetimeoutqueue q).
Proof. unfold ipf_deletetimeoutqueue. auto 20 with keeps. Qed.
Hint Resolve keeps_unlink keeps_link_tail keeps_deletetimeoutqueue : keeps.
Lemma keeps_movequeue ticks x o n : P x -> keeps I (ipf_movequeue ticks x o n).
Proof. intros Hx. unfold ipf_movequeue. auto 30 with keeps. Qed.
Lemma keeps_queueappend ticks x n par : P x -> keeps I (ipf_queueappend ticks x n par).
Proof. intros Hx. unfold ipf_queueappend. auto 30 with keeps. Qed.
Lemma keeps_deletequeueentry x : P x -> keeps I (ipf_deletequeueentry x).
Proof. intros Hx. unfold ipf_deletequeueentry. auto 30 with keeps. Qed.
Hint Extern 1 (keeps _ (let '(_, _) := ?p in _)) => (destruct p) : keeps.
Hint Resolve keeps_movequeue : keeps.
Lemma keeps_tcp_age ticks x fin tcp tqtab flags ok : P x -> keeps I (ipf_tcp_age ticks x fin tcp tqtab flags ok).
Proof.
  intros Hx. unfold ipf_tcp_age.
  assert (Hs : forall dir v, keeps I (upd_ent x (set_state dir v))).
  { intros dir v. apply keeps_upd_ent. right. intros t. unfold set_state. by case_match. }
  auto 40 with keeps.
Qed.
End Frame.

(** ** The queues of the table *)

(** Frame and re-ordering, for the order of a queue. *)
Lemma ageing_frame h h' q ttl now l :
  ageing h q ttl now l -> ttl_of h' q = ttl_of h q -> (forall y, y ∈ l -> timing h' y = timing h y) ->
  ageing h' q ttl now l.
Proof. intros (? & ? & ? & ? & ? & ?) Ht Hv. unfold ageing. rewrite (dies_ext h h' l Hv), Ht. by split_and!. Qed.
Lemma requeue_ageing h h' q ttl now l1 x l2 :
  ageing h q ttl now (l1 ++ x :: l2) -> x ∉ l1 ++ l2 -> ttl_of h' q = ttl_of h q ->
  timing h' x = Some (u32 (now + ttl), u32 now) -> (forall y, y <> x -> timing h' y = timing h y) ->
  ageing h' q ttl now (requeue h (u32 (now + ttl)) l1 x l2).
Proof.
  intros Ha Hnx Hq Hx Hv. pose proof Ha as (_ & _ & _ & Hw & _).
  assert (Hk : ageing h' q ttl now (l1 ++ l2 ++ [x])).
  { rewrite app_assoc. eapply ageing_snoc; [by eapply ageing_remove|lia|done|done| |done].
    intros y Hy. apply Hv. by intros ->. }
  assert (Hr : (match l2 with [] => True | y :: _ => fst <$> timing h y = Some (u32 (now + ttl)) end) ->
    ageing h' q ttl now (l1 ++ x :: l2)) by (intros; eapply ageing_refresh; done || lia).
  unfold requeue. destruct l2 as [|y l2]; [by apply Hr|]. case_decide; [by apply Hr|done].
Qed.

(** A timeout entry: states that index the array of queues, no queue of a rule's own,
    its state entry as parent while it is queued, and no queue otherwise. *)
Record ent_ok (K : loc -> Prop) (x : loc) (t : ipftqent) : Prop := {
  eo_used : used_states (tqe_state0 t, tqe_state1 t);
  eo_plain : has (tqe_flags t) TQE_RULEBASED = false;
  eo_parent : K x -> tqe_parent t = Some x;
  eo_free : tqe_ifq t <> None -> K x }.

(** The queues are those of [F], every queue is sorted by expiry, and exactly the
    entries of [K] are queued. *)
Record queues_rel (F : loc -> Prop) (now : Z) (K : loc -> Prop) (Q : gmap loc (list loc)) (h : tqheap) : Prop := {
  qr_rel : tq_rel h Q;
  qr_fixed : forall q, F q <-> is_Some (Q !! q);
  qr_ageing : forall q l, Q !! q = Some l -> exists ttl, ageing h q ttl now l;
  qr_members : forall x, K x <-> exists q, on_queue Q x q;
  qr_ents : forall x t, ents h !! x = Some t -> ent_ok K x t }.
Definition queues_ok (F : loc -> Prop) (now : Z) (K : loc -> Prop) (h : tqheap) : Prop :=
  exists Q, queues_rel F now K Q h.

Lemma on_queue_ent h Q x q : tq_rel h Q -> on_queue Q x q ->
  exists t, ents h !! x = Some t /\ tqe_ifq t = Some q.
Proof. intros HQ (l & Hl & Hx). destruct (queue_elem_ent _ _ _ _ (HQ _ _ Hl) Hx) as (t & ? & ? & _). eauto. Qed.
Lemma on_queue_of F now K Q h x t o : queues_rel F now K Q h -> ents h !! x = Some t -> tqe_ifq t = Some o -> on_queue Q x o.
Proof.
  intros HQ Ht Ho. destruct (proj1 (qr_members _ _ _ _ _ HQ x)) as [q Hq].
  { apply (eo_free K x t); [by eapply qr_ents|congruence]. }
  destruct (on_queue_ent _ _ _ _ (qr_rel _ _ _ _ _ HQ) Hq) as (t' & Ht' & Hq'). congruence.
Qed.

(** [ent_ok] sees only the owner data and the queue. *)
Lemma ent_ok_frame K x h h' :
  owner h' x = owner h x -> K x \/ ifq_of h' x = ifq_of h x ->
  (forall t, ents h !! x = Some t -> ent_ok K x t) -> forall t, ents h' !! x = Some t -> ent_ok K x t.
Proof.
  unfold owner, ifq_of. intros Ho Hi Hok t Ht. rewrite Ht in *.
  destruct (ents h !! x) as [t0|]; [|done]. cbn in *. injection Ho as E1 E2 E3 E4.
  destruct (Hok t0 eq_refl) as [Hu Hp Hpa Hf]. split; [congruence|congruence|by rewrite E1|].
  intros Ht'. destruct Hi as [|Hi]; [done|]. apply Hf. congruence.
Qed.

Lemma insert_dom (Q : gmap loc (list loc)) q l : is_Some (Q !! q) ->
  forall q', is_Some (<[q := l]> Q !! q') <-> is_Some (Q !! q').
Proof. intros Hq q'. rewrite lookup_insert_is_Some. destruct (decide (q = q')) as [->|]; tauto. Qed.
Lemma on_queue_insert Q q l x q' :
  on_queue (<[q := l]> Q) x q' <-> (q' = q /\ x ∈ l) \/ (q' <> q /\ on_queue Q x q').
Proof.
  unfold on_queue. split.
  - intros (l' & Hl' & Hx). apply lookup_insert_Some in Hl' as [[<- <-]|[Hne Hl']]; [by left|right]. split; [congruence|eauto].
  - intros [[-> Hx]|[Hne (l' & Hl' & Hx)]]; [exists l; by rewrite lookup_insert_eq|].
    exists l'. by rewrite lookup_insert_ne by congruence.
Qed.

Section Queues.
Context (F : loc -> Prop) (now : Z) (K : loc -> Prop).

(** Moving a queued entry to one of the table's queues. *)
Lemma movequeue_ageing h Q x o n lo :
  queues_rel F now K Q h -> Q !! o = Some lo -> x ∈ lo -> F n ->
  exists h' Q', ipf_movequeue now x o n h = Some (tt, h') /\ tq_rel h' Q' /\
    (forall q, is_Some (Q' !! q) <-> is_Some (Q !! q)) /\
    (forall q l, Q' !! q = Some l -> exists ttl, ageing h' q ttl now l) /\
    (forall y, (exists q, on_queue Q' y q) <-> (exists q, on_queue Q y q)) /\
    (forall y, owner h' y = owner h y).
Proof.
  intros HQ Ho Hx Hn. pose proof (qr_rel _ _ _ _ _ HQ) as Hrel.
  pose proof Hx as (l1 & l2 & ->)%list_elem_of_split.
  destruct (qr_ageing _ _ _ _ _ HQ _ _ Ho) as [ttlo Hao]. destruct (proj1 (qr_fixed _ _ _ _ _ HQ n) Hn) as [ln Hln].
  destruct (qr_ageing _ _ _ _ _ HQ _ _ Hln) as [ttl Han]. pose proof Han as (Httl & ? & ? & Hw & _).
  pose proof (mid_notin _ _ _ (queue_NoDup _ _ _ (Hrel _ _ Ho))) as Hnx.
  destruct (decide (o = n)) as [<-|Hne].
  - destruct (decide (snd <$> timing h x = Some now)) as [E|E].
    + unfold timing in E. destruct (ents h !! x) as [t|] eqn:Et; [|done]. injection E as E.
      exists h, Q. split_and!; try done; [by eapply movequeue_skip|apply HQ].
    + rewrite Ho in Hln. injection Hln as <-.
      destruct (movequeue_same_run now h Q o l1 x l2 ttl Hrel Ho Httl E) as (h' & Hrun & HQ' & Htx & Hv & Hown & Hq').
      set (l' := requeue h (u32 (now + ttl)) l1 x l2) in *.
      assert (Hp : l' ≡ₚ l1 ++ x :: l2).
      { unfold l', requeue. destruct l2 as [|y l2]; [done|]. case_decide; [done|].
        apply Permutation_app_head. symmetry. apply (Permutation_cons_append (y :: l2) x). }
      exists h', (<[o := l']> Q). split_and!; try done.
      * by apply insert_dom.
      * intros q l [[<- <-]|[Hq Hl]]%lookup_insert_Some.
        -- exists ttl. apply requeue_ageing; try done. apply Hq'.
        -- destruct (qr_ageing _ _ _ _ _ HQ _ _ Hl) as [ttl' Ha']. exists ttl'.
           eapply ageing_frame; [exact Ha'|apply Hq'|]. intros y Hy. apply Hv. intros ->.
           apply Hq. by eapply (queue_disjoint h o q); eauto.
      * intros y. setoid_rewrite on_queue_insert. split.
        -- intros (q & [[-> Hy]|[_ Hy]]); [exists o, (l1 ++ x :: l2); split; [done|by rewrite <- Hp]|by exists q].
        -- intros (q & Hy). destruct (decide (q = o)) as [->|]; [|by exists q; right].
           exists o; left. split; [done|]. destruct Hy as (l & Hl & Hy). rewrite Ho in Hl. injection Hl as <-. by rewrite Hp.
  - destruct (movequeue_other_run now h Q o n l1 x l2 ln ttl Hne Hrel Ho Hln Httl)
      as (h' & Hrun & HQ' & Htx & Hv & Hown & _ & Hq').
    assert (Hxn : forall q l, Q !! q = Some l -> q <> o -> x ∉ l).
    { intros q l Hl Hq Hxl. apply Hq. by eapply (queue_disjoint h q o); eauto. }
    assert (Hon : is_Some (<[o := l1 ++ l2]> Q !! n)) by (rewrite lookup_insert_ne by done; by eexists).
    exists h', (<[n := ln ++ [x]]> (<[o := l1 ++ l2]> Q)). split_and!; try done.
    + intros q. rewrite insert_dom by done. by apply insert_dom.
    + intros q l [[<- <-]|[Hqn [[<- <-]|[Hqo Hl]]%lookup_insert_Some]]%lookup_insert_Some.
      * exists ttl. eapply ageing_snoc; [exact Han|lia|done|apply Hq'| |done].
        intros y Hy. apply Hv. intros ->. by apply (Hxn _ _ Hln).
      * exists ttlo. eapply ageing_frame; [by eapply ageing_remove|apply Hq'|].
        intros y Hy. apply Hv. by intros ->.
      * destruct (qr_ageing _ _ _ _ _ HQ _ _ Hl) as [ttl' Ha']. exists ttl'.
        eapply ageing_frame; [exact Ha'|apply Hq'|]. intros y Hy. apply Hv. intros ->. by eapply Hxn; eauto.
    + intros y. setoid_rewrite on_queue_insert. setoid_rewrite on_queue_insert. split.
      * intros (q & [[-> [Hy|Hy]%elem_of_app]|[_ [[-> Hy]|[_ Hy]]]]).
        -- by exists n, ln.
        -- apply list_elem_of_singleton in Hy as ->. exists o. by eexists.
        -- exists o. eexists. split; [done|]. set_solver.
        -- by exists q.
      * intros (q & Hy). destruct (decide (y = x)) as [->|Hyx].
        { exists n. left. split; [done|]. set_solver. }
        destruct (decide (q = n)) as [->|Hqn].
        { exists n. left. split; [done|]. destruct Hy as (l & Hl & Hy). rewrite Hln in Hl. injection Hl as <-. set_solver. }
        exists q. right. split; [done|]. destruct (decide (q = o)) as [->|]; [left|by right].
        split; [done|]. destruct Hy as (l & Hl & Hy). rewrite Ho in Hl. injection Hl as <-. set_solver.
Qed.

Lemma qok_move h x t o n :
  queues_ok F now K h -> ents h !! x = Some t -> tqe_ifq t = Some o -> F n ->
  exists h', ipf_movequeue now x o n h = Some (tt, h') /\ queues_ok F now K h' /\ (forall y, owner h' y = owner h y).
Proof.
  intros [Q HQ] Ht Ho Hn. destruct (on_queue_of _ _ _ _ _ _ _ _ HQ Ht Ho) as (lo & Hlo & Hx).
  destruct (movequeue_ageing h Q x o n lo HQ Hlo Hx Hn) as (h' & Q' & Hrun & HQ' & Hd & Ha & Hm & Hown).
  exists h'. split_and!; [done| |done]. exists Q'. split; [done| |done| |].
  - intros q. rewrite Hd. apply HQ.
  - intros y. rewrite Hm. apply HQ.
  - intros y ty Hty. eapply (ent_ok_frame K y h h'); [apply Hown| |apply HQ|done].
    destruct (decide (y = x)) as [->|Hne]; [left; apply (qr_members _ _ _ _ _ HQ); by exists o, lo|right].
    by apply (wlp_run _ _ _ _ _ (keeps_movequeue _ _ (stable_ifq y _) now x o n (not_eq_sym Hne) h eq_refl) Hrun).
Qed.
End Queues.

(** Joining and leaving. *)
Lemma tq_rel_ents h Q x (t : option ipftqent) : unqueued Q x -> tq_rel h Q ->
  tq_rel (h <| ents ::= partial_alter (fun _ => t) x |>) Q.
Proof.
  intros Hun HQ q l Hl. eapply queue_frame; [by apply HQ|done|].
  intros y Hy. cbn. rewrite lookup_partial_alter_ne; [done|]. intros ->. by eapply Hun.
Qed.
Lemma unqueued_free h Q x t : tq_rel h Q -> ents h !! x = Some t -> tqe_ifq t = None -> unqueued Q x.
Proof.
  intros HQ Ht Hi q l Hl Hx. destruct (on_queue_ent h Q x q HQ) as (t' & Ht' & Hi'); [by exists l|congruence].
Qed.
Lemma unqueued_absent h Q x : tq_rel h Q -> ents h !! x = None -> unqueued Q x.
Proof. intros HQ Ht q l Hl Hx. destruct (on_queue_ent h Q x q HQ) as (t' & Ht' & _); [by exists l|congruence]. Qed.

(** A queue holds one list. *)
Lemma seg_fun h q l l' : forall p c c', seg h q p l c -> seg h q p l' c' -> ld h c = Some None -> ld h c' = Some None -> l = l'.
Proof.
  revert l'. induction l as [|x l IH]; intros [|x' l'] p c c'; cbn [seg]; [done|..].
  - intros -> (E & _) Hc. by rewrite E in Hc.
  - intros (E & _) -> _ Hc. by rewrite E in Hc.
  - intros (E & _ & Hs) (E' & _ & Hs') ? ?. rewrite E in E'. injection E' as <-. f_equal. by eapply IH.
Qed.
Lemma queue_fun h q l l' : queue h q l -> queue h q l' -> l = l'.
Proof. intros (t & Ht & _ & Hs & Hl) (t' & Ht' & _ & Hs' & Hl'). simplify_eq. by eapply seg_fun. Qed.

Section Members.
Context (F : loc -> Prop) (now : Z).

Lemma queues_ok_ext K K' h : (forall x, K x <-> K' x) -> queues_ok F now K h -> queues_ok F now K' h.
Proof.
  intros HK (Q & [H1 H2 H3 H4 H5]). exists Q. split; try done; [intros x; by rewrite <- HK|].
  intros x t Ht. destruct (H5 x t Ht) as [? ? Hp Hf]. split; [done|done|intros ?; by apply Hp, HK|intros ?; by apply HK, Hf].
Qed.

Lemma qok_append K h x t q :
  queues_ok F now K h -> ents h !! x = Some t -> tqe_ifq t = None -> F q ->
  exists h', ipf_queueappend now x q (Some x) h = Some (tt, h') /\
    queues_ok F now (fun y => K y \/ y = x) h' /\
    (forall y, y <> x -> owner h' y = owner h y) /\ owner h' x = Some (Some x, tqe_flags t, tqe_state0 t, tqe_state1 t) /\
    ifq_of h' x = Some (Some q).
Proof.
  intros [Q HQ] Ht Hi Hq. pose proof (qr_rel _ _ _ _ _ HQ) as Hrel.
  destruct (proj1 (qr_fixed _ _ _ _ _ HQ q) Hq) as [l Hl]. destruct (qr_ageing _ _ _ _ _ HQ _ _ Hl) as [ttl Ha].
  pose proof Ha as (Httl & ? & ? & Hw & _). pose proof (unqueued_free _ _ _ _ Hrel Ht Hi) as Hun.
  destruct (queueappend_run now h Q q l x (Some x) ttl Hrel Hl Httl ltac:(by eexists) Hun)
    as (h' & Hrun & HQ' & Htx & Hv & _ & Hqs & Httl' & Hox & tx & Htx' & Hix).
  assert (Eo : owner h' x = Some (Some x, tqe_flags t, tqe_state0 t, tqe_state1 t)).
  { rewrite Hox. unfold owner. rewrite ents_set_ent, decide_True, Ht by done. done. }
  exists h'. split_and!; [done| |by intros; apply Hv|done|by unfold ifq_of; rewrite Htx'; cbn; rewrite Hix].
  exists (<[q := l ++ [x]]> Q). split.
  - done.
  - intros q'. rewrite insert_dom by (by eexists). apply HQ.
  - intros q' l' [[<- <-]|[Hne Hl']]%lookup_insert_Some.
    + exists ttl. eapply ageing_snoc; [exact Ha|lia|done|congruence| |done].
      intros y Hy. apply Hv. intros ->. by apply (Hun _ _ Hl).
    + destruct (qr_ageing _ _ _ _ _ HQ _ _ Hl') as [ttl' Ha']. exists ttl'.
      eapply ageing_frame; [exact Ha'|unfold ttl_of; by rewrite Hqs|].
      intros y Hy. apply Hv. intros ->. by apply (Hun _ _ Hl').
  - intros y. rewrite (qr_members _ _ _ _ _ HQ y). setoid_rewrite on_queue_insert. split.
    + intros [(q' & Hy)| ->]; [|exists q; left; split; [done|set_solver]].
      destruct (decide (q' = q)) as [->|]; [|by exists q'; right]. exists q; left. split; [done|].
      destruct Hy as (l' & Hl' & Hy). rewrite Hl in Hl'. injection Hl' as <-. set_solver.
    + intros (q' & [[-> [Hy| ->%list_elem_of_singleton]%elem_of_app]|[_ Hy]]); [left; by exists q, l|by right|left; by exists q'].
  - intros y ty Hty. destruct (decide (y = x)) as [->|Hne].
    + destruct (qr_ents _ _ _ _ _ HQ x t Ht) as [? ? _ _]. unfold owner in Eo. rewrite Hty in Eo. cbn in Eo.
      injection Eo as E1 E2 E3 E4. split; [congruence|congruence|done|by right].
    + eapply (ent_ok_frame _ y h h'); [by apply Hv| | |done].
      * right. by apply (wlp_run _ _ _ _ _ (keeps_queueappend _ _ (stable_ifq y _) now x q (Some x) (not_eq_sym Hne) h eq_refl) Hrun).
      * intros t0 Ht0. destruct (qr_ents _ _ _ _ _ HQ y t0 Ht0) as [? ? Hp Hf]. split; [done|done| |auto].
        intros [?|?]; [auto|done].
Qed.

Lemma qok_delete K h x t o :
  queues_ok F now K h -> ents h !! x = Some t -> tqe_ifq t = Some o ->
  exists h', ipf_deletequeueentry x h = Some (tt, h') /\ queues_ok F now (fun y => K y /\ y <> x) h' /\
    (forall y, owner h' y = owner h y) /\ ifq_of h' x = Some None /\
    (forall y, timing h' y = timing h y) /\
    (forall q l, F q -> queue h q l -> queue h' q (without x l)).
Proof.
  intros [Q HQ] Ht Ho. pose proof (qr_rel _ _ _ _ _ HQ) as Hrel.
  destruct (on_queue_of _ _ _ _ _ _ _ _ HQ Ht Ho) as (lo & Hlo & Hx).
  pose proof Hx as (l1 & l2 & ->)%list_elem_of_split.
  destruct (deletequeueentry_run h Q o l1 x l2 Hrel Hlo) as (h' & Hrun & HQ' & Hlk & Hv & Hrefs & Hqs).
  pose proof (mid_notin _ _ _ (queue_NoDup _ _ _ (Hrel _ _ Hlo))) as Hnx.
  assert (Httl : forall q, ttl_of h' q = ttl_of h q).
  { intros q. destruct (decide (q = o)) as [->|Hne]; [|unfold ttl_of; by rewrite Hqs].
    by apply (wlp_run _ _ _ _ _ (keeps_deletequeueentry _ _ (stable_ttl o _) x Logic.I h eq_refl) Hrun). }
  assert (Hix : ifq_of h' x = Some None).
  { unfold ifq_of. unfold lk in Hlk. destruct (ents h' !! x); [|done]. cbn in *. congruence. }
  exists h'. split_and!; [done| |apply Hv|done|apply Hv|]; cycle 1.
  { intros q l Hq Hql. destruct (proj1 (qr_fixed _ _ _ _ _ HQ q) Hq) as [l' Hl'].
    rewrite (queue_fun h q l l' Hql (Hrel _ _ Hl')). clear l Hql. apply HQ'.
    destruct (decide (q = o)) as [->|Hne].
    - rewrite lookup_insert_eq. rewrite Hlo in Hl'. injection Hl' as <-. f_equal. symmetry. by apply without_mid.
    - rewrite lookup_insert_ne, Hl' by done. f_equal. symmetry. apply without_notin. intros Hxl.
      apply Hne. by eapply (queue_disjoint h q o); eauto. }
  exists (<[o := l1 ++ l2]> Q). split.
  - done.
  - intros q'. rewrite insert_dom by (by eexists). apply HQ.
  - intros q l [[<- <-]|[Hne Hl]]%lookup_insert_Some.
    + destruct (qr_ageing _ _ _ _ _ HQ _ _ Hlo) as [ttl Ha]. exists ttl.
      eapply ageing_frame; [by eapply ageing_remove|apply Httl|]. intros; apply Hv.
    + destruct (qr_ageing _ _ _ _ _ HQ _ _ Hl) as [ttl Ha]. exists ttl.
      eapply ageing_frame; [done|apply Httl|]. intros; apply Hv.
  - intros y. rewrite (qr_members _ _ _ _ _ HQ y). setoid_rewrite on_queue_insert. split.
    + intros [(q & Hy) Hyx]. destruct (decide (q = o)) as [->|]; [|by exists q; right]. exists o; left. split; [done|].
      destruct Hy as (l & Hl & Hy). rewrite Hlo in Hl. injection Hl as <-. set_solver.
    + intros (q & [[-> Hy]|[Hne Hy]]); (split; [|intros ->]).
      * exists o. eexists. split; [done|]. set_solver.
      * done.
      * by exists q.
      * destruct Hy as (l & Hl & Hy). apply Hne. eapply (queue_disjoint h q o); eauto.
  - intros y ty Hty. destruct (decide (y = x)) as [->|Hne].
    + destruct (qr_ents _ _ _ _ _ HQ x t Ht) as [Hu Hp _ _]. destruct (Hv x) as [_ Eo]. unfold owner in Eo. rewrite Hty, Ht in Eo.
      cbn in Eo. injection Eo as E1 E2 E3 E4. unfold ifq_of in Hix. rewrite Hty in Hix. cbn in Hix.
      split; [congruence|congruence|by intros []|congruence].
    + eapply (ent_ok_frame _ y h h'); [apply Hv| | |done].
      * right. by apply (wlp_run _ _ _ _ _ (keeps_deletequeueentry _ _ (stable_ifq y _) x (not_eq_sym Hne) h eq_refl) Hrun).
      * intros t0 Ht0. destruct (qr_ents _ _ _ _ _ HQ y t0 Ht0) as [? ? Hp Hf]. split; [done|done|intros []; auto|auto].
Qed.

(** An entry that is on no queue is created, or freed. *)
Lemma qok_create K h x t :
  queues_ok F now K h -> ents h !! x = None -> used_states (tqe_state0 t, tqe_state1 t) ->
  has (tqe_flags t) TQE_RULEBASED = false -> tqe_ifq t = None ->
  queues_ok F now K (h <| ents ::= <[x := t]> |>).
Proof.
  intros [Q HQ] Hx Hu Hf Hi. pose proof (unqueued_absent _ _ _ (qr_rel _ _ _ _ _ HQ) Hx) as Hun. exists Q. split.
  - by apply (tq_rel_ents h Q x (Some t)), HQ.
  - apply HQ.
  - intros q l Hl. destruct (qr_ageing _ _ _ _ _ HQ _ _ Hl) as [ttl Ha]. exists ttl.
    eapply ageing_frame; [exact Ha|done|]. intros y Hy. unfold timing. cbn.
    rewrite lookup_insert_ne; [done|]. intros ->. by eapply Hun.
  - apply HQ.
  - intros y ty. cbn. intros [[<- <-]|[Hne Hty]]%lookup_insert_Some; [|by eapply qr_ents].
    split; [done|done| |congruence]. intros [q (l & Hl & Hxl)]%(qr_members _ _ _ _ _ HQ). by apply Hun in Hl.
Qed.
Lemma qok_free K h x : queues_ok F now K h -> ~ K x -> queues_ok F now K (h <| ents ::= delete x |>).
Proof.
  intros [Q HQ] Hx.
  assert (Hun : unqueued Q x) by (intros q l Hl Hxl; apply Hx, HQ; by exists q, l). exists Q. split.
  - by apply (tq_rel_ents h Q x None), HQ.
  - apply HQ.
  - intros q l Hl. destruct (qr_ageing _ _ _ _ _ HQ _ _ Hl) as [ttl Ha]. exists ttl.
    eapply ageing_frame; [exact Ha|done|]. intros y Hy. unfold timing. cbn.
    rewrite lookup_delete_ne; [done|]. intros ->. by eapply Hun.
  - apply HQ.
  - intros y ty. cbn. intros [? Hty]%lookup_delete_Some. by eapply qr_ents.
Qed.

(** The states of an entry are written. *)
Lemma qok_state K h x dir v : queues_ok F now K h -> used_state v ->
  queues_ok F now K (set_ent x (set_state dir v) h).
Proof.
  intros [Q HQ] Hv. exists Q. split.
  - apply tq_rel_set_data; [..|apply HQ]; intros t; unfold set_state; by case_match.
  - apply HQ.
  - intros q l Hl. destruct (qr_ageing _ _ _ _ _ HQ _ _ Hl) as [ttl Ha]. exists ttl.
    eapply ageing_frame; [exact Ha|done|]. intros y Hy. unfold timing. rewrite ents_set_ent. case_decide; [|done].
    destruct (ents h !! y) as [t|]; [|done]. cbn. unfold set_state. by case_match.
  - apply HQ.
  - intros y ty Hty. rewrite ents_set_ent in Hty. case_decide as E; [|by eapply qr_ents].
    destruct (ents h !! y) as [t|] eqn:Et; [|done]. injection Hty as <-.
    destruct (qr_ents _ _ _ _ _ HQ y t Et) as [[Hu1 Hu2] ? ? ?]. unfold set_state.
    case_match; split; try done; by split.
Qed.

(** Time passes, as long as no timeout reaches past the end of the counter. *)
Lemma qok_tick K h now' : queues_ok F now K h -> now <= now' ->
  (forall q ttl, ttl_of h q = Some ttl -> now' + ttl < 2 ^ 32) -> queues_ok F now' K h.
Proof.
  intros [Q HQ] Hn Hw. exists Q. destruct HQ as [? ? Ha ? ?]. split; try done.
  intros q l Hl. destruct (Ha _ _ Hl) as (ttl & Httl & ? & ? & ? & ? & Hb). exists ttl.
  split_and!; [done|done|lia|by apply (Hw q)|done|]. intros d Hd%Hb. lia.
Qed.
(** A heap without entries whose queues are set up. *)
Lemma qok_empty (all : list loc) K h : ents h = ∅ -> (forall x, ~ K x) -> 0 <= now ->
  (forall q, q ∈ all -> queue h q [] /\ exists ttl, ttl_of h q = Some ttl /\ 0 <= ttl /\ now + ttl < 2 ^ 32) ->
  queues_ok (fun q => q ∈ all) now K h.
Proof.
  intros He HK Hn Hq. set (Q := list_to_map ((fun q => (q, [])) <$> all) : gmap loc (list loc)).
  assert (HQ : forall q l, Q !! q = Some l -> q ∈ all /\ l = []).
  { intros q l Hql. apply elem_of_list_to_map_2, list_elem_of_fmap in Hql as (q' & [= -> ->] & ?). done. }
  assert (HQ2 : forall q, q ∈ all -> Q !! q = Some []).
  { intros q Hin. destruct (Q !! q) as [l|] eqn:E0; [by destruct (HQ q l E0) as [_ ->]|].
    exfalso. apply not_elem_of_list_to_map_2 in E0. apply E0. rewrite <- list_fmap_compose. apply list_elem_of_fmap. by exists q. }
  exists Q. split.
  - intros q l [Hin ->]%HQ. by apply Hq.
  - intros q. split; [intros Hin; exists []; by apply HQ2|]. intros [l [? _]%HQ]. done.
  - intros q l [Hin ->]%HQ. destruct (Hq q Hin) as (_ & ttl & ? & ? & ?). exists ttl.
    split_and!; try done; [constructor|]. intros d Hd. by apply elem_of_nil in Hd.
  - intros x. split; [by intros ?%HK|]. intros (q & l & [_ ->]%HQ & Hx). by apply elem_of_nil in Hx.
  - intros x t Hx. by rewrite He in Hx.
Qed.
End Members.

(** ** The TCP state machine keeps the invariant *)

Lemma qok_keeps_state F now K x dir v : used_state v -> keeps (queues_ok F now K) (upd_ent x (set_state dir v)).
Proof. intros Hv h Hh. unfold wpg, upd_ent. destruct (ents h !! x); [|done]. by apply qok_state. Qed.
Lemma qok_keeps_move F now K x n : F n ->
  keeps (queues_ok F now K) (q ← ent tqe_ifq x; q ← need q; ipf_movequeue now x q n).
Proof.
  intros Hn h Hh. unfold wpg, ent, mbind, st_bind. destruct (ents h !! x) as [t|] eqn:Et; [|done]. cbn.
  destruct (tqe_ifq t) as [o|] eqn:Eo; [|done]. cbn.
  by destruct (qok_move F now K h x t o n Hh Et Eo Hn) as (h' & -> & ? & _).
Qed.

Lemma side_pair dir t : (dir = 0 \/ dir = 1) -> tqe_state dir t = side dir (tqe_state0 t, tqe_state1 t).
Proof. by intros [->| ->]. Qed.

Lemma qok_tcp_age F now K x fin tcp tqtab flags ok :
  (forall s, used_state s -> F (tqtab s)) ->
  keeps (queues_ok F now K) (ipf_tcp_age now x fin tcp tqtab flags ok).
Proof.
  intros HF h Hh. unfold ipf_tcp_age. cbv zeta. set (dir := fin_rev fin).
  destruct (negb ((dir =? 0) || (dir =? 1))) eqn:Ed; [done|]. breflect.
  apply orb_true_iff in Ed.
  assert (Hdir : dir = 0 \/ dir = 1) by (destruct Ed; breflect; lia).
  assert (Hdir' : 1 - dir = 0 \/ 1 - dir = 1) by lia.
  rewrite wp_bind. unfold wpg at 1, ent. destruct (ents h !! x) as [t|] eqn:Et; [|done]. cbn [mbind option_bind].
  rewrite wp_bind. unfold wpg at 1. rewrite Et. cbn [mbind option_bind].
  rewrite (side_pair _ _ Hdir), (side_pair _ _ Hdir'). set (c := (tqe_state0 t, tqe_state1 t)).
  assert (Hu : used_states c) by (destruct Hh as [Q HQ]; by eapply qr_ents).
  rewrite wp_bind.
  apply (wp_mono _ _ (fun nr h' => queues_ok F now K h' /\ used_state (fst nr))).
  { destruct (has (th_flags tcp) TH_RST).
    - rewrite wp_bind. apply (wp_mono _ _ (fun _ => queues_ok F now K)).
      + apply keeps_when; [|done]. apply qok_keeps_state. vm_compute; intuition congruence.
      + intros _ h' Hh'. rewrite wp_ret. split; [done|]. apply age_rst_used.
    - rewrite wp_ret. split; [done|]. by apply age_switch_used; apply used_states_side. }
  clear h Hh Et. intros [n r] h [Hh Hn]. cbn [fst] in Hn.
  destruct (r =? 2); [done|]. destruct (r =? 1); [|done].
  revert h Hh. apply keeps_bind; [apply keeps_when; by apply qok_keeps_state|]. intros _.
  apply keeps_bind; [intros h Hh; unfold wpg, ent; by destruct (ents h !! x)|]. intros fl.
  apply keeps_bind; [|intros; apply keeps_ret]. apply keeps_when. by apply qok_keeps_move, HF.
Qed.
