(* ===== verification/Sweeps.v ===== *)
(** Walks over timeout queues: how a table that keeps its entries on the queues of
    Timeoutq.v expires them, and makes room when it is full ([ipf_queueflush] of fil.c,
    which the state table and the NAT table call with a function that deletes an entry).

    The class [queued] is what the walks need of a table.  The class [sweepable] is what a
    table promises, its own deletion above all; the theorems about the walks are proved
    from that, and hold for every table that keeps the promise. *)
From S2P Require Import Prelude Packet Timeoutq TcpAge Queues.

(** ** Definitions *)

(** A table: running a queue operation, the queues, the time, and how many entries the
    table says it has. *)
Class queued (W : Type) := {
  on_queues : forall {A}, ST tqheap A -> ST W A;
  tbl_heap : W -> tqheap;
  tbl_ticks : W -> Z;
  tbl_active : W -> Z }.

(** [which = IPF_TTLVAL(which)], an [int] (which overflows from 2^30 on), when it is
    compared with a time. *)
Definition idle_limit (which : Z) : Z := u64 (i32 (IPF_TTLVAL which)).

(** The width of the slots, from wide to narrow. *)
Definition slot_start (ticks : Z) : option (Z * Z) :=
  if ticks >? IPF_TTLVAL (43200 * 15 / 10) then Some (IPF_TTLVAL (86400 * 4), IPF_TTLVAL 43200)
  else if ticks >? IPF_TTLVAL (1800 * 15 / 10) then Some (IPF_TTLVAL 43200, IPF_TTLVAL 1800)
  else if ticks >? IPF_TTLVAL (30 * 15 / 10) then Some (IPF_TTLVAL 1800, IPF_TTLVAL 30)
  else None.
Definition slot_clamp (ticks istart interval : Z) : Z :=
  if istart >? ticks then
    if u64 (ticks - interval) <? interval then interval else u64 (ticks / interval * interval)
  else istart.
(** The end of a round: the next [istart], [iend] and [interval], or [None] when the
    loop is left. *)
Definition slot_next (ticks istart iend interval : Z) : option (Z * Z * Z) :=
  if u64 (ticks - istart) >=? iend then
    let narrow := if interval =? IPF_TTLVAL 43200 then Some (IPF_TTLVAL 1800)
                  else if interval =? IPF_TTLVAL 1800 then Some (IPF_TTLVAL 30) else None in
    match narrow with
    | Some i => if i >=? ticks then None else Some (u64 (istart - i), u64 (ticks - i), i)
    | None => None
    end
  else Some (u64 (istart - interval), iend, interval).

Section Walks.
Context {W : Type} `{queued W}.

(** A walk along a timeout queue from [tqn] on: the entries that [stop] lets pass are
    deleted, [del] being the function that does it; the result is how many went. *)
Fixpoint sweep (del : loc -> ST W Z) (stop : loc -> ST W bool) (fuel : nat) (tqn : option loc) : ST W Z :=
  match tqn with
  | None => mret 0
  | Some tqe =>
      match fuel with
      | O => stuck
      | S fuel =>
          s ← stop tqe;
          if (s : bool) then mret 0 else
          tqn ← on_queues (ent tqe_next tqe);
          par ← on_queues (ent tqe_parent tqe);
          par ← need par;
          r ← del par;
          n ← sweep del stop fuel tqn;
          mret (b2z (r =? 0) + n)
      end
  end.
(** The same for each queue of a chain of queues.  [early]: the next queue is read
    before the queue is walked. *)
Fixpoint sweep_queues (walk : option loc -> ST W Z) (early : bool) (fuel : nat) (ifq : option loc) : ST W Z :=
  match ifq with
  | None => mret 0
  | Some q =>
      match fuel with
      | O => stuck
      | S fuel =>
          nx ← on_queues (que ifq_next q);
          hd ← on_queues (que ifq_head q);
          n ← walk hd;
          nx ← (if early then mret nx else on_queues (que ifq_next q));
          m ← sweep_queues walk early fuel nx;
          mret (n + m)
      end
  end.
(** [tqe->tqe_die > softc->ipf_ticks]. *)
Definition not_due (tqe : loc) : ST W bool :=
  die ← on_queues (ent tqe_die tqe); ticks ← gets tbl_ticks; mret (die >? ticks).

(** The user queues that were given up are freed. *)
Fixpoint free_queues (fuel : nat) (ifq : option loc) : ST W unit :=
  match ifq with
  | None => mret tt
  | Some q =>
      match fuel with
      | O => stuck
      | S fuel =>
          nx ← on_queues (que ifq_next q);
          fl ← on_queues (que ifq_flags q);
          rf ← on_queues (que ifq_ref q);
          when_ (has fl IFQF_DELETE && (rf =? 0)) (on_queues (ipf_freetimeoutqueue q));;
          free_queues fuel nx
      end
  end.

(** *** Making room ([ipf_queueflush] of fil.c) *)

Definition usage (size : Z) : ST W Z := a ← gets tbl_active; mret (u32 (a * 100) / size).
(** [try < tqe->tqe_touched]. *)
Definition younger (try : Z) (tqe : loc) : ST W bool := t ← on_queues (ent tqe_touched tqe); mret (try <? t).

Section Queueflush.
Context (tcpqueues : Z -> loc) (deletefn : loc -> ST W Z) (F : nat).

(** One round over all queues: entries touched after [try] stay.  [userqs] is the first
    user queue, as it was when [ipf_queueflush] was called. *)
Definition flush_round (userqs : option loc) (try : Z) : ST W Z :=
  n ← sweep_queues (sweep deletefn (younger try) F) false F (Some (tcpqueues 0));
  m ← sweep_queues (sweep deletefn (younger try) F) true F userqs;
  mret (n + m).

Fixpoint flush_rounds (fuel : nat) (userqs : option loc) (size low istart iend interval removed : Z) : ST W Z :=
  u ← usage size;
  if u >? low then
    match fuel with
    | O => stuck
    | S fuel =>
        ticks ← gets tbl_ticks;
        n ← flush_round userqs (u64 (ticks - istart));
        match slot_next ticks istart iend interval with
        | None => mret (removed + n)
        | Some (istart, iend, interval) => flush_rounds fuel userqs size low istart iend interval (removed + n)
        end
    end
  else mret removed.

Definition flush_queue (q : loc) : ST W Z :=
  hd ← on_queues (que ifq_head q); sweep deletefn (fun _ => mret false) F hd.

Definition ipf_queueflush (size low : Z) : ST W Z :=
  userqs ← gets (fun w => parent_var (tbl_heap w));
  n ← flush_queue (tcpqueues IPF_TCPS_CLOSED);
  u ← usage size;
  m ← (if u >? low then flush_queue (tcpqueues IPF_TCPS_TIME_WAIT) else mret 0);
  let removed := n + m in
  u ← usage size;
  if u <=? low then mret removed else
  ticks ← gets tbl_ticks;
  match slot_start ticks with
  | None => mret 0
  | Some (istart, interval) =>
      flush_rounds F userqs size low (slot_clamp ticks istart interval) (u64 (ticks - interval)) interval removed
  end.
End Queueflush.
End Walks.

(** ** Lists without some entries *)

Definition minus (D l : list loc) : list loc := filter (fun y => y ∉ D) l.
Lemma elem_minus D l y : y ∈ minus D l <-> y ∈ l /\ y ∉ D.
Proof. unfold minus. rewrite list_elem_of_filter. tauto. Qed.
Lemma minus_nil l : minus [] l = l.
Proof.
  induction l as [|y l IH]; [done|]. unfold minus in *. rewrite filter_cons_True by apply not_elem_of_nil. by rewrite IH.
Qed.
Lemma minus_cons x D l : minus D (without x l) = minus (x :: D) l.
Proof.
  unfold minus, without. rewrite list_filter_filter. apply list_filter_iff. intros y. rewrite not_elem_of_cons. tauto.
Qed.
Lemma minus_app D D' l : minus D' (minus D l) = minus (D ++ D') l.
Proof. unfold minus. rewrite list_filter_filter. apply list_filter_iff. intros y. rewrite not_elem_of_app. tauto. Qed.
Lemma minus_self D l : NoDup (D ++ l) -> minus D (D ++ l) = l.
Proof.
  intros (_ & Hd & _)%NoDup_app. unfold minus. rewrite filter_app.
  replace (filter (fun y => y ∉ D) D) with (@nil loc); [cbn [app]|].
  - induction l as [|y l IH]; [done|]. rewrite filter_cons_True; [f_equal; apply IH|]; set_solver.
  - symmetry. apply elem_of_nil_inv. intros y [? ?]%list_elem_of_filter. done.
Qed.

(** The entries in front of the first one that [p] stops at. *)
Fixpoint until (p : loc -> bool) (l : list loc) : list loc :=
  match l with [] => [] | x :: l => if p x then [] else x :: until p l end.
Definition stop_head (p : loc -> bool) (l : list loc) : Prop :=
  match l with [] => True | x :: _ => p x = true end.
Lemma until_split p D rest : (forall x, x ∈ D -> p x = false) -> stop_head p rest -> until p (D ++ rest) = D.
Proof.
  intros Hd Hr. induction D as [|x D IH]; cbn [app until].
  - destruct rest as [|y rest]; [done|]. cbn in *. by rewrite Hr.
  - rewrite Hd by by left. f_equal. apply IH. intros y Hy. apply Hd. by right.
Qed.
Lemma until_minus p D l x : (forall y, y ∈ D -> p y = false) -> x ∈ until p (minus D l) \/ x ∈ D <-> x ∈ until p l \/ x ∈ D.
Proof.
  intros Hd. unfold minus. induction l as [|y l IH]; [done|]. cbn [until]. destruct (decide (y ∈ D)) as [Hy|Hy].
  - rewrite filter_cons_False by tauto. rewrite (Hd y Hy), elem_of_cons, IH. split; [tauto|]. intros [[->|?]|?]; tauto.
  - rewrite filter_cons_True by done. cbn [until]. destruct (p y); [done|]. rewrite !elem_of_cons. tauto.
Qed.

(** ** The slots of time *)

(** The slots: [istart] is a multiple of the width of the slot, and the number of
    rounds left has a bound that does not depend on the time. *)
Definition slot_inv (ticks istart iend interval : Z) (n : Z) : Prop :=
  exists k, 1 <= k /\ istart = k * interval /\ istart <= ticks /\ iend = ticks - interval /\
    ((interval = IPF_TTLVAL 43200 /\ n = k + 84) \/ (interval = IPF_TTLVAL 1800 /\ n = k + 60) \/
     (interval = IPF_TTLVAL 30 /\ n = k)).
Lemma u64_id x : 0 <= x < 2 ^ 64 -> u64 x = x.
Proof. apply Z.mod_small. Qed.
Lemma slot_next_inv ticks istart iend interval n : 0 <= ticks < 2 ^ 64 -> slot_inv ticks istart iend interval n ->
  match slot_next ticks istart iend interval with
  | Some (istart', iend', interval') => exists n', slot_inv ticks istart' iend' interval' n' /\ n' < n
  | None => True
  end.
Proof.
  intros Hw (k & Hk & -> & Hle & -> & Hcase). unfold slot_next, slot_inv.
  assert (E1 : IPF_TTLVAL 43200 = 24 * IPF_TTLVAL 1800) by reflexivity.
  assert (E2 : IPF_TTLVAL 1800 = 60 * IPF_TTLVAL 30) by reflexivity.
  assert (E3 : 0 < IPF_TTLVAL 30) by reflexivity. set (c := IPF_TTLVAL 30) in *.
  rewrite E2 in E1. rewrite E1, E2 in *. clear E1 E2. clearbody c.
  assert (Hi : 0 < interval /\ interval <= k * interval) by nia. rewrite !(u64_id (ticks - _)) by lia.
  destruct (ticks - k * interval >=? ticks - interval) eqn:E0; breflect.
  - assert (k = 1) as -> by nia. destruct Hcase as [[-> ->]|[[-> ->]|[-> ->]]].
    + replace (24 * (60 * c) =? 24 * (60 * c)) with true by (symmetry; breflect; lia).
      destruct (60 * c >=? ticks) eqn:E4; breflect; [done|]. rewrite !u64_id by lia.
      exists 83. split; [|lia]. exists 23. split_and!; [lia..|right; left; lia].
    + replace (60 * c =? 24 * (60 * c)) with false by (symmetry; breflect; lia).
      replace (60 * c =? 60 * c) with true by (symmetry; breflect; lia).
      destruct (c >=? ticks) eqn:E4; breflect; [done|]. rewrite !u64_id by lia.
      exists 59. split; [|lia]. exists 59. split_and!; [lia..|right; right; lia].
    + replace (c =? 24 * (60 * c)) with false by (symmetry; breflect; lia).
      by replace (c =? 60 * c) with false by (symmetry; breflect; lia).
  - rewrite u64_id by lia. exists (n - 1). split; [|lia]. exists (k - 1). split; [nia|]. split; [nia|]. split; [nia|].
    split; [done|]. lia.
Qed.
(** Every round looks for entries untouched for 30 seconds at least, the last one for those. *)
Lemma slot_try ticks istart iend interval n : 0 <= ticks < 2 ^ 64 -> slot_inv ticks istart iend interval n ->
  u64 (ticks - istart) <= ticks - IPF_TTLVAL 30 /\
  (slot_next ticks istart iend interval = None -> u64 (ticks - istart) = ticks - IPF_TTLVAL 30).
Proof.
  intros Hw (k & Hk & -> & Hle & -> & Hcase). unfold slot_next.
  assert (E1 : IPF_TTLVAL 43200 = 24 * IPF_TTLVAL 1800) by reflexivity.
  assert (E2 : IPF_TTLVAL 1800 = 60 * IPF_TTLVAL 30) by reflexivity.
  assert (E3 : 0 < IPF_TTLVAL 30) by reflexivity. set (c := IPF_TTLVAL 30) in *.
  rewrite E2 in E1. rewrite E1, E2 in *. clear E1 E2. clearbody c.
  assert (Hi : c <= interval <= k * interval) by nia. rewrite !u64_id by lia. split; [lia|].
  destruct (ticks - k * interval >=? ticks - interval) eqn:E0; breflect; [|intros ?; discriminate].
  assert (k = 1) as -> by nia. clear Hk E0. rewrite Z.mul_1_l in *. destruct Hcase as [[-> _]|[[-> _]|[-> _]]].
  - replace (24 * (60 * c) =? 24 * (60 * c)) with true by (symmetry; breflect; lia).
    destruct (60 * c >=? ticks) eqn:E4; breflect; [lia|intros ?; discriminate].
  - replace (60 * c =? 24 * (60 * c)) with false by (symmetry; breflect; lia).
    replace (60 * c =? 60 * c) with true by (symmetry; breflect; lia).
    destruct (c >=? ticks) eqn:E4; breflect; [lia|intros ?; discriminate].
  - lia.
Qed.
Lemma slot_start_none ticks : slot_start ticks = None -> ticks <= IPF_TTLVAL 45.
Proof.
  unfold slot_start. destruct (ticks >? IPF_TTLVAL (43200 * 15 / 10)); [discriminate|].
  destruct (ticks >? IPF_TTLVAL (1800 * 15 / 10)); [discriminate|].
  change (30 * 15 / 10) with 45. destruct (Z.gtb_spec ticks (IPF_TTLVAL 45)) as [|Hle]; [discriminate|]. by intros _.
Qed.
Lemma slot_first ticks istart interval : 0 <= ticks < 2 ^ 64 -> slot_start ticks = Some (istart, interval) ->
  exists n, slot_inv ticks (slot_clamp ticks istart interval) (u64 (ticks - interval)) interval n /\ n <= 92.
Proof.
  intros Hw Hs. unfold slot_start in Hs.
  assert (Hfirst : forall a b c, c < ticks -> istart = a -> interval = b -> b < c -> 0 < b -> a mod b = 0 -> b <= a ->
    exists k, 1 <= k <= a / b /\ slot_clamp ticks istart interval = k * b /\ k * b <= ticks /\ u64 (ticks - interval) = ticks - b).
  { intros a b c Hc -> -> Hbc Hb Hab Hle. unfold slot_clamp. rewrite !(u64_id (ticks - b)) by lia.
    apply Z.mod_divide in Hab as [d ->]; [|lia]. rewrite Z.div_mul by lia. assert (1 <= d) by nia.
    destruct (d * b >? ticks) eqn:E1; breflect; [|exists d; split_and!; try done; nia].
    destruct (ticks - b <? b) eqn:E2; breflect; [exists 1; split_and!; try done; nia|].
    pose proof (Z.mul_div_le ticks b ltac:(lia)) as Hm. pose proof (Z.mul_succ_div_gt ticks b ltac:(lia)) as Hm'.
    exists (ticks / b). rewrite u64_id by nia. split_and!; try done; nia. }
  destruct (ticks >? _) eqn:E1; [|destruct (ticks >? IPF_TTLVAL (1800 * 15 / 10)) eqn:E2;
    [|destruct (ticks >? IPF_TTLVAL (30 * 15 / 10)) eqn:E3; [|done]]]; injection Hs as <- <-; breflect.
  - destruct (Hfirst _ _ _ E1 eq_refl eq_refl) as (k & Hk & Hc & Hl & Hu); [done..|]. rewrite Hc, Hu.
    change (IPF_TTLVAL (86400 * 4) / IPF_TTLVAL 43200) with 8 in Hk. exists (k + 84). split; [|lia].
    exists k. split_and!; [lia|done..|by left].
  - destruct (Hfirst _ _ _ E2 eq_refl eq_refl) as (k & Hk & Hc & Hl & Hu); [done..|]. rewrite Hc, Hu.
    change (IPF_TTLVAL 43200 / IPF_TTLVAL 1800) with 24 in Hk. exists (k + 60). split; [|lia].
    exists k. split_and!; [lia|done..|by right; left].
  - destruct (Hfirst _ _ _ E3 eq_refl eq_refl) as (k & Hk & Hc & Hl & Hu); [done..|]. rewrite Hc, Hu.
    change (IPF_TTLVAL 1800 / IPF_TTLVAL 30) with 60 in Hk. exists k. split; [|lia].
    exists k. split_and!; [lia|done..|by right; right].
Qed.

(** ** The walks on a well-formed table *)

(** What a table promises: while it is well-formed ([ok]), its entries ([here]) are the
    ones on its [queues], which are sorted, chained and the only ones; [del] completes,
    takes out the entry it is given and changes nothing else ([gone D]: the entries [D]
    left). *)
Class sweepable {W : Type} `{queued W} (ok : W -> Prop) (here : W -> loc -> Prop) (gone : list loc -> W -> W -> Prop)
    (queues : list loc) (del : loc -> ST W Z) : Prop := {
  sp_read : forall A (m : ST tqheap A) (w : W) a, m (tbl_heap w) = Some (a, tbl_heap w) -> on_queues m w = Some (a, w);
  sp_queues : forall w, ok w -> queues_ok (fun q => q ∈ queues) (tbl_ticks w) (here w) (tbl_heap w);
  sp_chain : forall w, ok w -> queue_chain (tbl_heap w) (head queues) queues;
  sp_users : forall w, ok w -> parent_var (tbl_heap w) = None;
  sp_del : forall w x, ok w -> here w x -> exists r w', del x w = Some (r, w') /\ ok w' /\ gone [x] w w';
  sp_refl : forall w, gone [] w w;
  sp_trans : forall D D' w1 w2 w3, gone D w1 w2 -> gone D' w2 w3 -> gone (D ++ D') w1 w3;
  sp_ticks : forall D w w', gone D w w' -> tbl_ticks w' = tbl_ticks w;
  sp_here : forall D w w' x, gone D w w' -> here w' x <-> here w x /\ x ∉ D;
  sp_timing : forall D w w' x, gone D w w' -> x ∉ D -> timing (tbl_heap w') x = timing (tbl_heap w) x;
  sp_queue : forall D w w' q l, gone D w w' -> q ∈ queues -> queue (tbl_heap w) q l -> queue (tbl_heap w') q (minus D l) }.

Lemma ld_seg h q p l c : seg h q p l c -> ld h c = Some None -> ld h p = Some (head l).
Proof. destruct l as [|x l]; cbn [seg]; [by intros -> Hc|by intros (Hx & _) _]. Qed.
Lemma queue_next h q x l t : queue h q (x :: l) -> ents h !! x = Some t -> tqe_next t = head l.
Proof.
  intros (tq & Ht & _ & Hs & Hl) Ex. cbn [seg] in Hs. destruct Hs as (_ & _ & Hs).
  pose proof (ld_seg _ _ _ _ _ Hs Hl) as Hd. unfold ld in Hd. rewrite Ex in Hd. cbn in Hd. congruence.
Qed.
Lemma chain_suffix h l1 l2 p : queue_chain h p (l1 ++ l2) -> exists p', queue_chain h p' l2.
Proof. revert p. induction l1 as [|q l1 IH]; intros p; [by exists p|]. intros (_ & t & _ & Hc). by eapply IH. Qed.
Lemma chain_head h p l : queue_chain h p l -> p = head l.
Proof. destruct l; [done|]. by intros (-> & _). Qed.
Lemma queued_timing h q l x : queue h q l -> x ∈ l -> exists d t, timing h x = Some (d, t).
Proof. intros Hl Hx. destruct (queue_elem_ent _ _ _ _ Hl Hx) as (t & Et & _). unfold timing. rewrite Et. cbn. eauto. Qed.

Section Sweepable.
Context {W : Type} `{queued W} (ok : W -> Prop) (here : W -> loc -> Prop) (gone : list loc -> W -> W -> Prop).
Context (queues : list loc) (del : loc -> ST W Z) `{!sweepable ok here gone queues del}.

Lemma on_ent {A} (f : ipftqent -> A) x (w : W) t : ents (tbl_heap w) !! x = Some t -> on_queues (ent f x) w = Some (f t, w).
Proof. intros Hx. by apply sp_read, ent_run. Qed.
Lemma queue_head_run (w : W) q l : queue (tbl_heap w) q l -> on_queues (que ifq_head q) w = Some (head l, w).
Proof.
  intros (t & Ht & _ & Hs & Hl). apply sp_read. pose proof (ld_seg _ _ _ _ _ Hs Hl) as Hd. unfold ld in Hd.
  unfold que. rewrite Ht in *. cbn in *. congruence.
Qed.
Lemma queue_next_run (w : W) l1 q l2 : ok w -> queues = l1 ++ q :: l2 -> on_queues (que ifq_next q) w = Some (head l2, w).
Proof.
  intros Ht Ha. pose proof (sp_chain w Ht) as Hc. rewrite Ha in Hc at 2. apply chain_suffix in Hc as [p (_ & t & Hq & Hc)].
  apply sp_read. unfold que. rewrite Hq. cbn. by rewrite (chain_head _ _ _ Hc).
Qed.

(** Entries and queues. *)
Lemma queue_of (w : W) q : ok w -> q ∈ queues -> exists l, queue (tbl_heap w) q l.
Proof.
  intros Ht Hq. destruct (sp_queues w Ht) as [Q HQ]. destruct (proj1 (qr_fixed _ _ _ _ _ HQ q) Hq) as [l Hl].
  exists l. by apply (qr_rel _ _ _ _ _ HQ).
Qed.
Lemma queued_here (w : W) q l x : ok w -> queue (tbl_heap w) q l -> x ∈ l -> here w x.
Proof.
  intros Ht Hl Hx. destruct (sp_queues w Ht) as [Q HQ].
  destruct (queue_elem_ent _ _ _ _ Hl Hx) as (t & Et & Eq & _). apply (eo_free _ x t); [by eapply qr_ents|congruence].
Qed.
Lemma queued_ent (w : W) q l x : ok w -> queue (tbl_heap w) q l -> x ∈ l ->
  exists t, ents (tbl_heap w) !! x = Some t /\ tqe_parent t = Some x.
Proof.
  intros Ht Hl Hx. destruct (sp_queues w Ht) as [Q HQ]. destruct (queue_elem_ent _ _ _ _ Hl Hx) as (t & Et & _).
  exists t. split; [done|]. apply (eo_parent (here w) x t); [by eapply qr_ents|by eapply queued_here].
Qed.
Lemma here_queued (w : W) x : ok w -> here w x -> exists q l, q ∈ queues /\ queue (tbl_heap w) q l /\ x ∈ l.
Proof.
  intros Ht Hx. destruct (sp_queues w Ht) as [Q HQ]. destruct (proj1 (qr_members _ _ _ _ _ HQ x) Hx) as (q & l & Hl & Hxl).
  exists q, l. split; [apply (qr_fixed _ _ _ _ _ HQ); by eexists|]. split; [by apply (qr_rel _ _ _ _ _ HQ)|done].
Qed.


(** [stop] decides by [p], as long as the entry is as it was in [w0]. *)
Definition stops (w0 : W) (stop : loc -> ST W bool) (p : loc -> bool) : Prop :=
  forall w D x t, ok w -> gone D w0 w -> x ∉ D -> here w x -> ents (tbl_heap w) !! x = Some t -> tqe_parent t = Some x ->
    stop x w = Some (p x, w).

(** One queue: the entries up to the first one that [p] stops at go. *)
Lemma sweep_run stop p w0 q : forall l fuel D0 (w : W), stops w0 stop p -> (length l <= fuel)%nat ->
  ok w -> gone D0 w0 w -> q ∈ queues -> queue (tbl_heap w) q l ->
  exists n D rest w', sweep del stop fuel (head l) w = Some (n, w') /\ ok w' /\ gone D w w' /\
    l = D ++ rest /\ (forall x, x ∈ D -> p x = false) /\ stop_head p rest.
Proof.
  induction l as [|x l IH]; intros fuel D0 w Hstop Hf Ht Hg Hq Hl.
  { exists 0, [], [], w. split; [by destruct fuel|]. split_and!; try done; [apply sp_refl|by intros x ?%elem_of_nil]. }
  destruct fuel as [|fuel]; [cbn in Hf; lia|]. cbn [head sweep].
  destruct (queued_ent w q (x :: l) x Ht Hl) as (t & Ex & Hp); [by left|].
  assert (Hx0 : here w x) by (eapply queued_here; [done|done|by left]).
  assert (HxD : x ∉ D0) by by apply (sp_here _ _ _ _ Hg) in Hx0 as [_ ?].
  rewrite (bind_eq _ _ _ _ _ (Hstop w D0 x t Ht Hg HxD Hx0 Ex Hp)).
  destruct (p x) eqn:Ep.
  { exists 0, [], (x :: l), w. split_and!; try done; [apply sp_refl|by intros y ?%elem_of_nil]. }
  rewrite (bind_eq _ _ _ _ _ (on_ent tqe_next _ _ _ Ex)), (bind_eq _ _ _ _ _ (on_ent tqe_parent _ _ _ Ex)), Hp.
  rewrite (bind_eq _ _ _ _ _ eq_refl), (queue_next _ _ _ _ _ Hl Ex).
  destruct (sp_del w x Ht Hx0) as (r & w1 & R1 & T1 & D1). rewrite (bind_eq _ _ _ _ _ R1).
  pose proof (queue_NoDup _ _ _ Hl) as [Hx Hn]%NoDup_cons.
  assert (Hl1 : queue (tbl_heap w1) q l).
  { apply (sp_queue _ _ _ q _ D1) in Hl; [|done]. pose proof (minus_self [x] l) as E0. cbn [app] in E0.
    rewrite E0 in Hl; [done|by apply NoDup_cons]. }
  destruct (IH fuel (D0 ++ [x]) w1 Hstop) as (n & D & rest & w2 & R2 & T2 & D2 & -> & Hd & Hs);
    [cbn in Hf; lia|done|by eapply sp_trans|done|done|].
  rewrite (bind_eq _ _ _ _ _ R2). exists (b2z (r =? 0) + n), (x :: D), rest, w2.
  split; [done|]. split; [done|]. split; [by apply (sp_trans [x] D w w1)|]. split; [done|]. split; [|done].
  intros y [->|?]%elem_of_cons; auto.
Qed.

(** Enough fuel for every queue, and for the chain of queues. *)
Definition fuel_ok (F : nat) (w : W) : Prop :=
  (length queues <= F)%nat /\ forall q l, q ∈ queues -> queue (tbl_heap w) q l -> (length l <= F)%nat.
Lemma fuel_removed F D w w' : ok w -> gone D w w' -> fuel_ok F w -> fuel_ok F w'.
Proof.
  intros Ht Hr [Hf Hq]. split; [done|]. intros q l' Hqt Hl'. destruct (queue_of w q Ht Hqt) as [l Hl].
  specialize (Hq q l Hqt Hl). rewrite (queue_fun _ _ _ _ Hl' (sp_queue _ _ _ q l Hr Hqt Hl)).
  pose proof (length_filter (fun y => y ∉ D) l). unfold minus. lia.
Qed.
(** As many steps as there are queues and entries are enough. *)
Lemma fuel_of_list F (w : W) all : ok w -> (forall x, here w x -> x ∈ all) -> (length queues + length all <= F)%nat -> fuel_ok F w.
Proof.
  intros Ht Hall HF. split; [lia|]. intros q l Hq Hl. enough (length l <= length all)%nat by lia.
  apply submseteq_length, NoDup_submseteq; [by eapply queue_NoDup|]. intros x Hx. apply Hall. by eapply queued_here.
Qed.

Lemma stop_head_minus p D l : (forall x, x ∈ D -> p x = false) -> stop_head p l -> stop_head p (minus D l).
Proof.
  intros Hd Hl. destruct l as [|x l]; [done|]. cbn in Hl. unfold minus. rewrite filter_cons_True; [done|].
  intros Hx%Hd. congruence.
Qed.

(** What goes from a queue and, after that, from others. *)
Lemma until_queues p (D : list loc) (w w1 : W) q (l l2 D' : list loc) : ok w -> ok w1 -> gone D w w1 -> queue (tbl_heap w) q l -> until p l = D ->
  (forall x, x ∈ D -> p x = false) -> (forall q', q' ∈ l2 -> q' ∈ queues) ->
  (forall x, x ∈ D' <-> x ∈ D \/ exists q' l', q' ∈ l2 /\ queue (tbl_heap w1) q' l' /\ x ∈ until p l') ->
  forall x, x ∈ D' <-> exists q' l', q' ∈ q :: l2 /\ queue (tbl_heap w) q' l' /\ x ∈ until p l'.
Proof.
  intros Ht T1 Dr Hl Hu Hd Hin HD x. rewrite HD. split.
  - intros [Hx|(q' & l1 & Hq' & Hl1 & Hx)]; [exists q, l; rewrite Hu; split_and!; [by left|done|done]|].
    destruct (queue_of w q' Ht (Hin q' Hq')) as [l' Hl']. pose proof (sp_queue _ _ _ _ _ Dr (Hin q' Hq') Hl') as Hm.
    rewrite (queue_fun _ _ _ _ Hl1 Hm) in Hx. destruct (proj1 (until_minus p D l' x Hd)) as [Hx'|Hx']; [by left|..].
    + exists q', l'. split_and!; [by right|done|done].
    + exists q, l. rewrite Hu. split_and!; [by left|done|done].
  - intros (q' & l' & [->|Hq']%elem_of_cons & Hl' & Hx); [left; by rewrite <- Hu, (queue_fun _ _ _ _ Hl Hl')|].
    destruct (proj2 (until_minus p D l' x Hd)) as [Hx'|Hx']; [by left|right|by left].
    exists q', (minus D l'). split_and!; [done|by apply (sp_queue _ _ _ _ _ Dr); [apply Hin|]|done].
Qed.

(** The queues of the table one after the other. *)
Lemma queues_run stop p F early w0 : forall l2 l1 fuel D0 (w : W), stops w0 stop p -> queues = l1 ++ l2 ->
  (length l2 <= fuel)%nat -> fuel_ok F w -> ok w -> gone D0 w0 w ->
  exists n D w', sweep_queues (sweep del stop F) early fuel (head l2) w = Some (n, w') /\
    ok w' /\ gone D w w' /\ (forall x, x ∈ D -> p x = false) /\
    (forall q l, q ∈ l2 -> queue (tbl_heap w') q l -> stop_head p l) /\
    (forall x, x ∈ D <-> exists q l, q ∈ l2 /\ queue (tbl_heap w) q l /\ x ∈ until p l).
Proof.
  induction l2 as [|q l2 IH]; intros l1 fuel D0 w Hstop Ha Hf HF Ht Hr.
  { exists 0, [], w. split; [by destruct fuel|]. split_and!; try done; [apply sp_refl|by intros x ?%elem_of_nil|by intros ? ? ?%elem_of_nil|].
    intros x. split; [by intros ?%elem_of_nil|by intros (? & ? & ?%elem_of_nil & _)]. }
  destruct fuel as [|fuel]; [cbn in Hf; lia|]. cbn [head sweep_queues].
  assert (Hq : q ∈ queues) by (rewrite Ha; set_solver).
  destruct (queue_of w q Ht Hq) as [l Hl].
  rewrite (bind_eq _ _ _ _ _ (queue_next_run w l1 q l2 Ht Ha)), (bind_eq _ _ _ _ _ (queue_head_run w q l Hl)).
  destruct (sweep_run stop p w0 q l F D0 w Hstop) as (n & D & rest & w1 & R1 & T1 & D1 & El & Hd & Hs);
    [by eapply HF|done|done|done|done|].
  rewrite (bind_eq _ _ _ _ _ R1). rewrite (bind_eq _ _ _ (head l2) w1).
  2: { destruct early; [done|]. by eapply queue_next_run. }
  destruct (IH (l1 ++ [q]) fuel (D0 ++ D) w1 Hstop) as (m & D2 & w2 & R2 & T2 & D2' & Hd2 & Hs2 & He2);
    [by rewrite <- app_assoc|cbn in Hf; lia|by apply (fuel_removed F D w)|done|by eapply sp_trans|].
  rewrite (bind_eq _ _ _ _ _ R2). exists (n + m), (D ++ D2), w2. split; [done|]. split; [done|].
  split; [by eapply sp_trans|]. split; [intros x [?|?]%elem_of_app; auto|]. split.
  2: { apply (until_queues p D w w1 q l l2 (D ++ D2)); [done..| |done| |].
       - rewrite El. by apply until_split.
       - intros q' Hq'. rewrite Ha. set_solver.
       - intros x. by rewrite elem_of_app, He2. }
  intros q' l' [->|Hq']%elem_of_cons Hl'; [|by eapply Hs2].
  assert (Hl1 : queue (tbl_heap w1) q rest).
  { apply (sp_queue _ _ _ q _ D1) in Hl as Hl1; [|done]. rewrite El, minus_self in Hl1; [done|]. rewrite <- El. by eapply queue_NoDup. }
  apply (sp_queue _ _ _ q _ D2') in Hl1; [|done]. rewrite (queue_fun _ _ _ _ Hl' Hl1). by apply stop_head_minus.
Qed.
Lemma all_queues_run stop p F (w : W) : stops w stop p -> fuel_ok F w -> ok w ->
  exists n D w', sweep_queues (sweep del stop F) false F (head queues) w = Some (n, w') /\
    ok w' /\ gone D w w' /\ (forall x, x ∈ D -> p x = false) /\
    (forall q l, q ∈ queues -> queue (tbl_heap w') q l -> stop_head p l).
Proof.
  intros Hs HF Ht. destruct (queues_run stop p F false w queues [] F [] w) as (n & D & w' & R & T & Dr & Hd & Hh & _);
    try done; [apply HF|apply sp_refl|]. by exists n, D, w'.
Qed.

(** *** The scan for entries that are due *)

Definition due (w : W) (x : loc) : bool :=
  match timing (tbl_heap w) x with Some (die, _) => die <=? tbl_ticks w | None => false end.
Lemma due_gone D (w w' : W) x : gone D w w' -> x ∉ D -> due w' x = due w x.
Proof. intros Hr Hx. unfold due. by rewrite (sp_timing _ _ _ _ Hr Hx), (sp_ticks _ _ _ Hr). Qed.
Lemma not_due_stops w0 : stops w0 not_due (fun x => negb (due w0 x)).
Proof.
  intros w D x t _ Hg Hx _ Ex _. unfold not_due. rewrite (bind_eq _ _ _ _ _ (on_ent tqe_die _ _ _ Ex)).
  rewrite (bind_eq _ _ _ _ _ eq_refl). rewrite <- (due_gone _ _ _ _ Hg Hx). unfold due, timing. rewrite Ex. cbn.
  unfold mret, st_ret. do 2 f_equal. rewrite Z.leb_antisym. by rewrite negb_involutive, Z.gtb_ltb.
Qed.
Lemma none_due (w : W) q l x : ok w -> q ∈ queues -> queue (tbl_heap w) q l ->
  stop_head (fun x => negb (due w x)) l -> x ∈ l -> due w x = false.
Proof.
  intros Ht Hq Hl Hs Hx. destruct (sp_queues w Ht) as [Q HQ].
  destruct (proj1 (qr_fixed _ _ _ _ _ HQ q) Hq) as [l' Hl'].
  rewrite <- (queue_fun _ _ _ _ Hl (qr_rel _ _ _ _ _ HQ _ _ Hl')) in Hl'.
  destruct (qr_ageing _ _ _ _ _ HQ _ _ Hl') as (ttl & _ & _ & _ & _ & Hso & _).
  destruct l as [|y l]; [by apply elem_of_nil in Hx|]. cbn in Hs. apply negb_true_iff in Hs.
  apply elem_of_cons in Hx as [->|Hx]; [done|].
  destruct (queued_timing (tbl_heap w) q (y :: l) y Hl) as (dy & ty & Ey); [by left|].
  destruct (queued_timing (tbl_heap w) q (y :: l) x Hl) as (dx & tx & Ex'); [by right|].
  rewrite (dies_cons _ _ _ _ _ Ey) in Hso. inversion_clear Hso as [|? ? _ Hall].
  assert (Hin : dx ∈ dies (tbl_heap w) l) by (apply list_elem_of_omap; exists x; by rewrite Ex').
  rewrite Forall_forall in Hall. specialize (Hall _ Hin).
  unfold due in *. rewrite Ey in Hs. rewrite Ex'. breflect. lia.
Qed.
(** Exactly the due entries go. *)
Lemma expire_scan (w : W) F : ok w -> fuel_ok F w ->
  exists n D w', sweep_queues (sweep del not_due F) false F (head queues) w = Some (n, w') /\
    ok w' /\ gone D w w' /\ (forall x, x ∈ D -> due w x = true) /\
    (forall x, here w' x <-> here w x /\ due w x = false).
Proof.
  intros Ht HF. destruct (all_queues_run _ _ F w (not_due_stops w) HF Ht) as (n & D & w' & R & T & Dr & Hd & Hs).
  exists n, D, w'. split; [done|]. split; [done|]. split; [done|].
  assert (Hdue : forall x, x ∈ D -> due w x = true) by (intros x Hx; by apply negb_false_iff, Hd).
  split; [done|]. intros x. rewrite (sp_here _ _ _ x Dr). split; intros [Hx Hd']; (split; [done|]).
  - assert (Hin : here w' x) by by apply (sp_here _ _ _ x Dr).
    destruct (here_queued w' x T Hin) as (q & l & Hq & Hl & Hxl). rewrite <- (due_gone _ _ _ x Dr Hd').
    apply (none_due w' q l x T Hq Hl); [|done]. specialize (Hs q l Hq Hl). destruct l as [|y l]; [done|]. cbn in Hs |- *.
    assert (Hy : y ∉ D) by (apply (sp_here _ _ _ y Dr); eapply queued_here; [done|done|by left]).
    by rewrite (due_gone _ _ _ y Dr).
  - intros Hin%Hdue. congruence.
Qed.

(** *** Making room *)

Lemma younger_stops w0 try :
  stops w0 (younger try) (fun x => match timing (tbl_heap w0) x with Some (_, t) => try <? t | None => false end).
Proof.
  intros w D x t _ Hg Hx _ Ex _. unfold younger. rewrite (bind_eq _ _ _ _ _ (on_ent tqe_touched _ _ _ Ex)).
  rewrite <- (sp_timing _ _ _ _ Hg Hx). unfold timing. by rewrite Ex.
Qed.
Lemma false_stops w0 : stops w0 (fun _ => mret false) (fun _ => false).
Proof. by intros w D x t. Qed.
Lemma usage_run size (w : W) : usage size w = Some (u32 (tbl_active w * 100) / size, w).
Proof. done. Qed.

Section Flush.
Context (tq : Z -> loc) (F : nat) (Hq0 : head queues = Some (tq 0)).
Context (Hclosed : tq IPF_TCPS_CLOSED ∈ queues) (Hwait : tq IPF_TCPS_TIME_WAIT ∈ queues).

(** Last touched at [t] or before. *)
Definition touched_by (w : W) (t : Z) (x : loc) : bool :=
  match timing (tbl_heap w) x with Some (_, u) => u <=? t | None => true end.
Lemma touched_by_gone D (w w' : W) t x : gone D w w' -> x ∉ D -> touched_by w' t x = touched_by w t x.
Proof. intros Hr Hx. unfold touched_by. by rewrite (sp_timing _ _ _ _ Hr Hx). Qed.
(** No queue starts with an entry touched at [t] or before. *)
Definition all_recent (w : W) (t : Z) : Prop :=
  forall q x l, q ∈ queues -> queue (tbl_heap w) q (x :: l) -> touched_by w t x = false.
Lemma flush_round_run (w : W) try : ok w -> fuel_ok F w ->
  exists n D w', flush_round tq del F None try w = Some (n, w') /\ ok w' /\ gone D w w' /\
    (forall x, x ∈ D -> touched_by w try x = true) /\ all_recent w' try.
Proof.
  intros Ht HF. unfold flush_round. rewrite <- Hq0.
  destruct (all_queues_run _ _ F w (younger_stops w try) HF Ht) as (n & D & w' & R & T & Dr & Hd & Hs).
  rewrite (bind_eq _ _ _ _ _ R). exists (n + 0), D, w'. split; [by destruct F|]. split; [done|]. split; [done|]. split.
  - intros x Hx. specialize (Hd x Hx). unfold touched_by. destruct (timing _ _) as [[die u]|]; [|done]. breflect. lia.
  - intros q x l Hq Hl. specialize (Hs q _ Hq Hl). cbn in Hs. assert (Hx : x ∉ D).
    { apply (sp_here _ _ _ x Dr). eapply queued_here; [done|exact Hl|by left]. }
    rewrite (touched_by_gone _ _ _ _ _ Dr Hx). unfold touched_by. destruct (timing _ _) as [[die u]|]; [|done]. breflect. lia.
Qed.
Lemma flush_queue_run (w : W) q : ok w -> fuel_ok F w -> q ∈ queues ->
  exists n D w', flush_queue del F q w = Some (n, w') /\ ok w' /\ gone D w w' /\ queue (tbl_heap w) q D.
Proof.
  intros Ht HF Hq. destruct (queue_of w q Ht Hq) as [l Hl]. unfold flush_queue.
  rewrite (bind_eq _ _ _ _ _ (queue_head_run w q l Hl)).
  destruct (sweep_run _ _ w q l F [] w (false_stops w)) as (n & D & rest & w' & R & T & Dr & El & _ & Hs);
    [by eapply HF|done|apply sp_refl|done|done|].
  exists n, D, w'. split; [done|]. split; [done|]. split; [done|]. destruct rest; [|done]. rewrite app_nil_r in El. by subst.
Qed.
(** Entries touched within the last 30 seconds stay, and unless there is room in the end
    no other entry is at the front of a queue. *)
Definition recent (w : W) : Z := tbl_ticks w - IPF_TTLVAL 30.
Lemma flush_rounds_run size low : forall fuel istart iend interval rm n (w : W),
  ok w -> fuel_ok F w -> 0 <= tbl_ticks w < 2 ^ 64 -> slot_inv (tbl_ticks w) istart iend interval n ->
  n <= Z.of_nat fuel ->
  exists m D w', flush_rounds tq del F fuel None size low istart iend interval rm w = Some (m, w') /\ ok w' /\ gone D w w' /\
    (forall x, x ∈ D -> touched_by w (recent w) x = true) /\ (u32 (tbl_active w' * 100) / size <= low \/ all_recent w' (recent w)).
Proof.
  induction fuel as [|fuel IH]; intros istart iend interval rm n w Ht HF Hw Hs Hn; cbn [flush_rounds];
    rewrite (bind_eq _ _ _ _ _ (usage_run _ _));
    (destruct (Z.gtb_spec (u32 (tbl_active w * 100) / size) low);
     [|exists rm, [], w; split_and!; [done|done|apply sp_refl|by intros x ?%elem_of_nil|by left]]).
  { destruct Hs as (k & ? & _ & _ & _ & Hc). lia. }
  rewrite (bind_eq _ _ _ _ _ eq_refl).
  destruct (flush_round_run w (u64 (tbl_ticks w - istart)) Ht HF) as (r & D & w1 & R & T1 & D1 & Hd & Hr).
  rewrite (bind_eq _ _ _ _ _ R). pose proof (slot_next_inv _ _ _ _ _ Hw Hs) as Hnext.
  destruct (slot_try _ _ _ _ _ Hw Hs) as [Htry Hlast].
  assert (Hd1 : forall x, x ∈ D -> touched_by w (recent w) x = true).
  { intros x Hx. specialize (Hd x Hx). unfold touched_by, recent in *. destruct (timing _ _) as [[die u]|]; [|done]. breflect. lia. }
  destruct (slot_next _ _ _ _) as [[[is1 ie] iv]|].
  2: { exists (rm + r), D, w1. split_and!; try done. right. unfold recent. by rewrite <- Hlast. }
  destruct Hnext as (n' & Hs' & Hn'). pose proof (sp_ticks _ _ _ D1) as Etk.
  assert (Erec : recent w1 = recent w) by (unfold recent; by rewrite Etk). rewrite <- Etk in Hs', Hw.
  destruct (IH is1 ie iv (rm + r) n' w1 T1) as (m & D2 & w2 & R2 & T2 & D2' & Hd2 & He2); [by apply (fuel_removed F D w)|done|done|lia|].
  rewrite Erec in Hd2, He2. exists m, (D ++ D2), w2. split; [done|]. split; [done|]. split; [by eapply sp_trans|]. split; [|done].
  intros x Hx. destruct (decide (x ∈ D)) as [|Hn1]; [auto|]. rewrite <- (touched_by_gone _ _ _ _ _ D1 Hn1).
  apply Hd2. by apply elem_of_app in Hx as [?|?].
Qed.

(** What a table keeps of its entries when room is made from [w] on and [w'] is the result.
    The queue of closed connections is emptied; when there is room in the table that this
    gives, nothing else goes; what goes then was waiting for the end of TIME_WAIT or untouched for 30 seconds; and
    there is room in the end, unless the host has been up for less than 45 seconds or the
    entry at the front of each queue was touched within the last 30. *)
Record room_made (size low : Z) (w w' : W) : Prop := {
  rm_closed : forall l x, queue (tbl_heap w) (tq IPF_TCPS_CLOSED) l -> x ∈ l -> ~ here w' x;
  rm_enough : forall l, queue (tbl_heap w) (tq IPF_TCPS_CLOSED) l -> exists w1, ok w1 /\ gone l w w1 /\
    (u32 (tbl_active w1 * 100) / size <= low -> forall x, here w x -> x ∉ l -> here w' x);
  rm_others : forall l l' x, queue (tbl_heap w) (tq IPF_TCPS_CLOSED) l -> queue (tbl_heap w) (tq IPF_TCPS_TIME_WAIT) l' ->
    here w x -> x ∉ l -> x ∉ l' -> touched_by w (recent w) x = false -> here w' x;
  rm_room : u32 (tbl_active w' * 100) / size <= low \/ tbl_ticks w <= IPF_TTLVAL 45 \/ all_recent w' (recent w) }.

(** The entries [D] of the closed queue went, and then [D']. *)
Lemma room_made_intro size low (w w1 w' : W) D D' lw : ok w1 -> gone D w w1 -> gone (D ++ D') w w' ->
  queue (tbl_heap w) (tq IPF_TCPS_CLOSED) D -> queue (tbl_heap w) (tq IPF_TCPS_TIME_WAIT) lw ->
  (u32 (tbl_active w1 * 100) / size <= low -> D' = []) ->
  (forall x, x ∈ D' -> x ∈ D \/ x ∈ lw \/ touched_by w (recent w) x = true) ->
  u32 (tbl_active w' * 100) / size <= low \/ tbl_ticks w <= IPF_TTLVAL 45 \/ all_recent w' (recent w) -> room_made size low w w'.
Proof.
  intros T1 D1 G Hlc Hlw He Ho Hr. split; [..|done].
  - intros l x Hl Hx [_ Hn]%(sp_here _ _ _ _ G). rewrite (queue_fun _ _ _ _ Hl Hlc) in Hx. set_solver.
  - intros l Hl. rewrite (queue_fun _ _ _ _ Hl Hlc). exists w1. split_and!; [done..|]. intros Hu x Hx Hn.
    apply (sp_here _ _ _ _ G). by rewrite He, app_nil_r.
  - intros l l' x Hl Hl' Hx Hn Hn' Hx'. rewrite (queue_fun _ _ _ _ Hl Hlc) in Hn. rewrite (queue_fun _ _ _ _ Hl' Hlw) in Hn'.
    apply (sp_here _ _ _ _ G). split; [done|]. intros [?|[?|[?|?]]%Ho]%elem_of_app; try done. congruence.
Qed.
(** The queue of connections in TIME_WAIT goes when there is no room. *)
Lemma flush_wait_run size low (w : W) lw : ok w -> fuel_ok F w -> queue (tbl_heap w) (tq IPF_TCPS_TIME_WAIT) lw ->
  exists m D w', (if u32 (tbl_active w * 100) / size >? low then flush_queue del F (tq IPF_TCPS_TIME_WAIT) else mret 0) w = Some (m, w') /\
    ok w' /\ gone D w w' /\ (forall x, x ∈ D -> x ∈ lw) /\ (u32 (tbl_active w * 100) / size <= low -> D = [] /\ w' = w).
Proof.
  intros Ht HF Hlw. destruct (Z.gtb_spec (u32 (tbl_active w * 100) / size) low).
  2: { exists 0, [], w. split_and!; [done..|apply sp_refl|by intros x ?%elem_of_nil|done]. }
  destruct (flush_queue_run w (tq IPF_TCPS_TIME_WAIT) Ht HF Hwait) as (m & D & w' & R & T & Dr & Hq). exists m, D, w'.
  split_and!; try done; [|lia]. intros x. by rewrite (queue_fun _ _ _ _ Hq Hlw).
Qed.
(** [ipf_queueflush] completes, whatever the time is: the loop runs at most 92 times. *)
Lemma queueflush_run size low (w : W) :
  ok w -> fuel_ok F w -> (92 <= F)%nat -> 0 <= tbl_ticks w < 2 ^ 64 ->
  exists m D w', ipf_queueflush tq del F size low w = Some (m, w') /\ ok w' /\ gone D w w' /\ room_made size low w w'.
Proof.
  intros Ht HF HF2 Hw. unfold ipf_queueflush. rewrite (bind_eq _ _ _ _ _ eq_refl), (sp_users w Ht).
  destruct (queue_of w _ Ht Hwait) as [lw Hlw].
  destruct (flush_queue_run w (tq IPF_TCPS_CLOSED) Ht HF Hclosed) as (n & D & w1 & R1 & T1 & D1 & Hq1).
  rewrite (bind_eq _ _ _ _ _ R1), (bind_eq _ _ _ _ _ (usage_run _ _)). pose proof (fuel_removed _ _ _ _ Ht D1 HF) as HF1.
  destruct (flush_wait_run size low w1 _ T1 HF1 (sp_queue _ _ _ _ _ D1 Hwait Hlw)) as (m & D' & w2 & R2 & T2 & D2 & Hin & Henough).
  rewrite (bind_eq _ _ _ _ _ R2), (bind_eq _ _ _ _ _ (usage_run _ _)).
  pose proof (sp_trans _ _ _ _ _ D1 D2) as D3. pose proof (fuel_removed _ _ _ _ T1 D2 HF1) as HF2'.
  assert (Hd : forall x, x ∈ D' -> x ∈ D \/ x ∈ lw \/ touched_by w (recent w) x = true).
  { intros x [? _]%Hin%elem_minus. auto. }
  destruct (Z.leb_spec (u32 (tbl_active w2 * 100) / size) low) as [|Hfull].
  { exists (n + m), (D ++ D'), w2. split_and!; try done.
    apply (room_made_intro size low w w1 w2 D D' lw); try done; [by intros [? _]%Henough|by left]. }
  assert (Hno : u32 (tbl_active w1 * 100) / size <= low -> False) by (intros Hu; destruct (Henough Hu) as [_ ->]; lia).
  rewrite (bind_eq _ _ _ _ _ eq_refl). pose proof (sp_ticks _ _ _ D3) as Etk.
  destruct (slot_start _) as [[is1 iv]|] eqn:Es.
  2: { exists 0, (D ++ D'), w2. split_and!; try done.
       apply (room_made_intro size low w w1 w2 D D' lw); try done.
       right. left. rewrite <- Etk. by apply slot_start_none. }
  rewrite <- Etk in Hw. destruct (slot_first _ _ _ Hw Es) as (k & Hk & Hk92).
  destruct (flush_rounds_run size low F _ _ _ (n + m) k w2 T2 HF2' Hw Hk) as (r & D4 & w3 & R3 & T3 & D4' & Hd4 & He4); [lia|].
  assert (Erec : recent w2 = recent w) by (unfold recent; by rewrite Etk). rewrite Erec in Hd4, He4.
  exists r, (D ++ D' ++ D4), w3. pose proof (sp_trans _ _ _ _ _ D3 D4') as D5. rewrite <- app_assoc in D5. split_and!; try done.
  apply (room_made_intro size low w w1 w3 D (D' ++ D4) lw); try done; [|by destruct He4; auto].
  intros x Hx. destruct (decide (x ∈ D ++ D')) as [[?|?]%elem_of_app|Hn]; [auto..|]. right. right.
  rewrite <- (touched_by_gone _ _ _ _ _ D3 Hn). apply Hd4. apply elem_of_app in Hx as [?|?]; [|done].
  exfalso. apply Hn, elem_of_app. auto.
Qed.
End Flush.
End Sweepable.
