(* ===== verification/TcpWindow.v ===== *)
(** TCP window tracking (ip_state.c): the options of SYN packets, the window check
    [ipf_state_tcpinwindow], the rewriting of initial sequence numbers, and
    [ipf_state_tcp], which runs them and the state machine of TcpAge.v for one
    packet of a connection. *)
From S2P Require Import Prelude Packet Cksum Timeoutq TcpAge.

(** ** Definitions *)

Definition TCP_WSCALE_MAX : Z := 14.
Definition TCP_WSCALE_SEEN : Z := 1.
Definition TCP_WSCALE_FIRST : Z := 2.
Definition TCP_SACK_PERMIT : Z := 4.
Definition TCPOPT_EOL : Z := 0.
Definition TCPOPT_NOP : Z := 1.
Definition TCPOPT_MAXSEG : Z := 2.
Definition TCPOLEN_MAXSEG : Z := 4.
Definition TCPOPT_WINDOW : Z := 3.
Definition TCPOLEN_WINDOW : Z := 3.
Definition TCPOPT_SACK_PERMITTED : Z := 4.
Definition TCPOLEN_SACK_PERMITTED : Z := 2.
(** [sizeof(tcphdr_t)]. *)
Definition sizeof_tcphdr : Z := 20.

Record tcpdata := mk_tcpdata {
  td_end : Z; td_maxend : Z; td_maxwin : Z; td_winscale : Z; td_maxseg : Z; td_winflags : Z }.
#[export] Instance eta_tcpdata : Eta tcpdata := fun r =>
  mk_tcpdata (td_end r) (td_maxend r) (td_maxwin r) (td_winscale r) (td_maxseg r) (td_winflags r).

(** *** Options *)

(** The [switch (opt)] for one complete option; [s] points at its first byte, seen
    as a signed [char]. *)
Definition tcp_option (opt ol : Z) (s : list Z) (td : tcpdata) (retval : Z) : option (tcpdata * Z) :=
  if opt =? TCPOPT_WINDOW then
    if ol =? TCPOLEN_WINDOW then
      i ← s !! 2%nat;
      let i := if i >? TCP_WSCALE_MAX then TCP_WSCALE_MAX else if i <? 0 then 0 else i in
      Some (td <| td_winscale := u32 i |>
               <| td_winflags ::= fun x => Z.lor x (Z.lor TCP_WSCALE_SEEN TCP_WSCALE_FIRST) |>, retval)
    else Some (td, -1)
  else if opt =? TCPOPT_MAXSEG then
    if ol =? TCPOLEN_MAXSEG then
      hi ← s !! 2%nat;
      lo ← s !! 3%nat;
      Some (td <| td_maxseg := u32 (Z.shiftl hi 8 + lo) |>, retval)
    else Some (td, -1)
  else if opt =? TCPOPT_SACK_PERMITTED then
    if ol =? TCPOLEN_SACK_PERMITTED then
      Some (td <| td_winflags ::= fun x => Z.lor x TCP_SACK_PERMIT |>, retval)
    else Some (td, -1)
  else Some (td, retval).

(** [for (s = buf; len > 0; ) ...]; a byte outside [buf] has no value. *)
Fixpoint tcpoptions_loop (fuel : nat) (s : list Z) (len : Z) (td : tcpdata) (retval : Z) :
    option (tcpdata * Z) :=
  if len <=? 0 then Some (td, retval) else
  match fuel with
  | O => None
  | S fuel =>
      opt ← s !! 0%nat;
      if opt =? TCPOPT_EOL then Some (td, retval)
      else if opt =? TCPOPT_NOP then tcpoptions_loop fuel (drop 1 s) (len - 1) td retval
      else if len <? 2 then Some (td, retval)
      else
        ol ← s !! 1%nat;
        if (ol <? 2) || (ol >? len) then Some (td, retval)
        else
          '(td, retval) ← tcp_option opt ol s td retval;
          tcpoptions_loop fuel (drop (Z.to_nat ol) s) (len - ol) td retval
  end.

(** [COPYDATA(m, off, len, buf)] into the 64 bytes of [buf], seen as [char]. *)
Definition COPYDATA (m : list Z) (off len : Z) : option (list Z) :=
  if (off <? 0) || (len <? 0) || (64 <? len) || (Z.of_nat (length m) <? off + len) then None
  else Some (map i8 (take (Z.to_nat len) (drop (Z.to_nat off) m))).

(** [ipf_tcpoptions]; [m] holds the bytes of the message [fin->fin_m]. *)
Definition ipf_tcpoptions (fin : fr_info) (tcp : tcphdr) (m : list Z) (td : tcpdata) :
    option (Z * tcpdata) :=
  let len := Z.shiftl (th_off tcp) 2 in
  if fin_dlen fin <? len then Some (0, td) else
  let len := len - sizeof_tcphdr in
  let off := fin_plen fin - fin_dlen fin + sizeof_tcphdr + fin_ipoff fin in
  let mlen := Z.of_nat (length m) - off in
  let '(len, retval) := if len >? mlen then (mlen, 0) else (len, 1) in
  buf ← COPYDATA m off len;
  '(td, retval) ← tcpoptions_loop (Z.to_nat len) buf len td retval;
  Some (retval, td).

(** *** The window *)

Definition SEQ_GE (a b : Z) : bool := i32 (u32 (a - b)) >=? 0.
Definition SEQ_GT (a b : Z) : bool := i32 (u32 (a - b)) >? 0.
Definition MAXACKWINDOW : Z := 66000.

(** The window a packet offers ([win]) and the sequence space it uses
    ([dsize]). *)
Definition tcp_win (fdata : tcpdata) (tcp : tcphdr) : Z :=
  let win := if has (th_flags tcp) TH_SYN then th_win tcp
             else u32 (Z.shiftl (th_win tcp) (td_winscale fdata)) in
  if win =? 0 then 1 else win.
Definition tcp_dsize (fin : fr_info) (tcp : tcphdr) : Z :=
  fin_dlen fin - Z.shiftl (th_off tcp) 2 +
  b2z (has (th_flags tcp) TH_SYN) + b2z (has (th_flags tcp) TH_FIN).

(** The two updates of the sender's data that come before the check. *)
Definition tcp_first (flags win dend : Z) (tcp : tcphdr) (fdata : tcpdata) : tcpdata :=
  let fdata :=
    if negb (has (th_flags tcp) TH_SYN) && has (td_winflags fdata) TCP_WSCALE_FIRST
    then fdata <| td_winflags ::= fun x => clear x TCP_WSCALE_FIRST |> <| td_maxwin := win |>
    else fdata in
  if (td_end fdata =? 0) &&
     (negb (has flags IS_TCPFSM) || masked (th_flags tcp) TH_OPENING TH_OPENING)
  then fdata <| td_end := u32 (dend - 1) |> <| td_maxwin := 1 |> <| td_maxend := u32 (dend + win) |>
  else fdata.

(** The acknowledgement that is checked. *)
Definition tcp_ack (tdata : tcpdata) (tcp : tcphdr) : Z :=
  if negb (has (th_flags tcp) TH_ACK) then td_end tdata
  else if masked (th_flags tcp) (Z.lor TH_ACK TH_RST) (Z.lor TH_ACK TH_RST) && (th_ack tcp =? 0)
  then td_end tdata
  else th_ack tcp.

(** The condition that sets [inseq]. *)
Definition tcp_inseq (flags dend ackskew maxwin : Z) (tcp : tcphdr) (fdata tdata : tcpdata) : bool :=
  let seq := th_seq tcp in
  if SEQ_GE (td_maxend fdata) dend && SEQ_GE seq (u32 (td_end fdata - maxwin)) &&
     (i32 (- ackskew) <=? MAXACKWINDOW) &&
     (ackskew <=? i32 (Z.shiftl MAXACKWINDOW (td_winscale fdata)))
  then true
  else if (seq =? td_maxend fdata) && (ackskew =? 0) && has (td_winflags fdata) TCP_SACK_PERMIT &&
          has (td_winflags tdata) TCP_SACK_PERMIT
  then true
  else if (seq =? 0) && (th_flags tcp =? Z.lor TH_RST TH_ACK) && (ackskew >=? -1) && (ackskew <=? 1)
  then true
  else if negb (has flags IS_TCPFSM) then
    if negb (has (td_winflags fdata) (Z.lor TCP_WSCALE_SEEN TCP_WSCALE_FIRST)) then
      if (seq =? td_maxend fdata) && (ackskew =? 0) then true
      else SEQ_GE (u32 (seq + maxwin)) (u32 (td_end fdata - maxwin))
    else false
  else false.

(** [ipf_state_tcpinwindow]: the result and the packet and window data after it. *)
Definition ipf_state_tcpinwindow (fin : fr_info) (fdata tdata : tcpdata) (tcp : tcphdr) (flags : Z) :
    Z * fr_info * tcpdata * tcpdata :=
  let seq := th_seq tcp in
  let win := tcp_win fdata tcp in
  let dend := u32 (seq + tcp_dsize fin tcp) in
  let fdata := tcp_first flags win dend tcp fdata in
  let ack := tcp_ack tdata tcp in
  let maxwin := td_maxwin tdata in
  let ackskew := i32 (u32 (td_end tdata - ack)) in
  if has flags IS_STRICT && negb (seq =? td_end fdata) then (0, or_flx FI_OOW fin, fdata, tdata)
  else if tcp_inseq flags dend ackskew maxwin tcp fdata tdata then
    let tdata := if ackskew <? 0 then tdata <| td_end := ack |> else tdata in
    let fdata := if td_maxwin fdata <? win then fdata <| td_maxwin := win |> else fdata in
    let fdata := if SEQ_GT dend (td_end fdata) then fdata <| td_end := dend |> else fdata in
    let tdata := if SEQ_GE (u32 (ack + win)) (td_maxend tdata)
                 then tdata <| td_maxend := u32 (ack + win) |> else tdata in
    (1, fin, fdata, tdata)
  else (0, or_flx FI_OOW fin, fdata, tdata).

(** *** The state entry *)

(** The fields of [ipstate_t] that TCP tracking and the matching of entries use;
    [is_sti] is the location of the embedded timeout entry in the heap of queues;
    two-element arrays are pairs. *)
Record ipstate := mk_ipstate {
  is_flags : Z; is_pass : Z; is_sport : Z; is_sti : loc;
  is_tcp : tcpdata * tcpdata; is_s0 : Z * Z; is_isninc : Z * Z; is_sumd : Z * Z;
  is_src : i6addr; is_dst : i6addr; is_p : Z; is_v : Z; is_dport : Z }.
#[export] Instance eta_ipstate : Eta ipstate := fun r =>
  mk_ipstate (is_flags r) (is_pass r) (is_sport r) (is_sti r) (is_tcp r) (is_s0 r) (is_isninc r) (is_sumd r)
    (is_src r) (is_dst r) (is_p r) (is_v r) (is_dport r).

(** [a[i]] and [a[i] = v] for an array of two. *)
Definition idx {A} (i : Z) (a : A * A) : A := if i =? 0 then fst a else snd a.
Definition set_idx {A} (i : Z) (v : A) (a : A * A) : A * A := if i =? 0 then (v, snd a) else (fst a, v).

(** [ipf_checknewisn]; [newisn] is what [ipf_newisn(fin)] returns. *)
Definition ipf_checknewisn (newisn : Z) (fin : fr_info) (tcp : tcphdr) (ist : ipstate) : ipstate :=
  let i := fin_rev fin in
  if ((i =? 0) && negb (has (is_flags ist) IS_ISNSYN)) ||
     ((i =? 1) && negb (has (is_flags ist) IS_ISNACK))
  then
    let old := th_seq tcp in
    let ist := ist <| is_isninc ::= set_idx i (i32 (u32 (newisn - old))) |> in
    let sumd := CALC_SUMD u32 old newisn in
    ist <| is_sumd ::= set_idx i (u16 (u32 (Z.land sumd 0xffff + Z.shiftr sumd 16))) |>
       <| is_flags ::= fun x => Z.lor x (if i =? 0 then IS_ISNSYN else IS_ISNACK) |>
  else ist.

Section ByteOrder.
Context (be : bool).

(** One of the four adjustments of [ipf_fixoutisn] and [ipf_fixinisn]. *)
Definition adjust_seq (ist : ipstate) (i : Z) (tcp : tcphdr) : tcphdr :=
  tcp <| th_seq := u32 (th_seq tcp + idx i (is_isninc ist)) |>
      <| th_sum := ipf_fix_outcksum be 0 (th_sum tcp) (idx i (is_sumd ist)) 0 |>.
Definition adjust_ack (ist : ipstate) (i : Z) (tcp : tcphdr) : tcphdr :=
  tcp <| th_ack := u32 (th_ack tcp - idx i (is_isninc ist)) |>
      <| th_sum := ipf_fix_incksum be 0 (th_sum tcp) (idx i (is_sumd ist)) 0 |>.

Definition ipf_fixoutisn (fin : fr_info) (ist : ipstate) (tcp : tcphdr) : tcphdr :=
  let rev := fin_rev fin in
  let tcp := if has (is_flags ist) IS_ISNSYN then
               if (rev =? 0) && (fin_cksum fin <? FI_CK_L4PART) then adjust_seq ist 0 tcp else tcp
             else tcp in
  if has (is_flags ist) IS_ISNACK then
    if (rev =? 1) && (fin_cksum fin <? FI_CK_L4PART) then adjust_seq ist 1 tcp else tcp
  else tcp.

Definition ipf_fixinisn (fin : fr_info) (ist : ipstate) (tcp : tcphdr) : tcphdr :=
  let rev := fin_rev fin in
  let tcp := if has (is_flags ist) IS_ISNSYN then
               if (rev =? 1) && (fin_cksum fin <? FI_CK_L4PART) then adjust_ack ist 0 tcp else tcp
             else tcp in
  if has (is_flags ist) IS_ISNACK then
    if (rev =? 0) && (fin_cksum fin <? FI_CK_L4PART) then adjust_ack ist 1 tcp else tcp
  else tcp.

(** What [ipf_state_tcp] changes: the heap of queues, the state entry and the
    packet summary. *)
Record tcpworld := mk_tcpworld { w_heap : tqheap; w_is : ipstate; w_fin : fr_info }.
#[global] Instance eta_tcpworld : Eta tcpworld := fun r => mk_tcpworld (w_heap r) (w_is r) (w_fin r).

Definition on_heap {A} (m : ST tqheap A) : ST tcpworld A := fun w =>
  '(a, h) ← m (w_heap w); Some (a, w <| w_heap := h |>).

(** What a SYN or SYN-ACK adds: the options of the sender, stored in [fdata], and
    a new initial sequence number. *)
Definition tcp_syn_extras (newisn : Z) (tcp : tcphdr) (m : list Z) (source : Z) : ST tcpworld unit :=
  when_ (th_off tcp >? Z.shiftr sizeof_tcphdr 2)
    (w ← gets id;
     r ← need (ipf_tcpoptions (w_fin w) tcp m (idx (1 - source) (is_tcp (w_is w))));
     modify (fun w => w <| w_is ::= fun ist => ist <| is_tcp ::= set_idx (1 - source) (snd r) |> |>);;
     when_ (fst r =? -1) (modify (fun w => w <| w_fin ::= or_flx FI_BAD |>)));;
  w ← gets id;
  when_ (negb (fin_out (w_fin w) =? 0) && has (is_pass (w_is w)) FR_NEWISN)
    (modify (fun w => w <| w_is ::= ipf_checknewisn newisn (w_fin w) tcp |>)).

(** [ipf_state_tcp]; [tcptq s] and [deletetq] are the addresses of
    [softs->ipf_state_tcptq[s]] and [softs->ipf_state_deletetq]. *)
Definition ipf_state_tcp (ticks newisn : Z) (tcptq : Z -> loc) (deletetq : loc) (tcp : tcphdr) (m : list Z) :
    ST tcpworld Z :=
  w ← gets id;
  let ist := w_is w in
  let fin := w_fin w in
  let source := b2z (fin_rev fin =? 0) in
  let source := if has (is_flags ist) IS_TCPFSM && (source =? 1) && negb (ntohs be (is_sport ist) =? fin_sport fin)
                then 0 else source in
  s0 ← on_heap (ent tqe_state0 (is_sti ist));
  s1 ← on_heap (ent tqe_state1 (is_sti ist));
  if masked (th_flags tcp) TH_OPENING TH_SYN && (s0 >? IPF_TCPS_ESTABLISHED) && (s1 >? IPF_TCPS_ESTABLISHED)
  then
    on_heap (upd_ent (is_sti ist) (set_state (1 - source) IPF_TCPS_CLOSED));;
    q ← on_heap (ent tqe_ifq (is_sti ist));
    q ← need q;
    on_heap (ipf_movequeue ticks (is_sti ist) q deletetq);;
    mret 0
  else
    ret ← (if has (is_flags ist) IS_LOOSE then mret 1
           else
             let '(r, fin', fdata, tdata) :=
               ipf_state_tcpinwindow fin (idx (1 - source) (is_tcp ist)) (idx source (is_tcp ist)) tcp (is_flags ist) in
             modify (fun w => w <| w_fin := fin' |>
               <| w_is ::= fun ist => ist <| is_tcp := set_idx source tdata (set_idx (1 - source) fdata (is_tcp ist)) |> |>);;
             mret r);
    if ret >? 0 then
      fin ← gets w_fin;
      ret ← on_heap (ipf_tcp_age ticks (is_sti ist) fin tcp tcptq (is_flags ist) ret);
      if ret =? 0 then mret 0
      else
        let flags := clear (th_flags tcp) (Z.lor TH_FIN TH_ECNALL) in
        (if flags =? Z.lor TH_SYN TH_ACK then
           modify (fun w => w <| w_is ::= fun ist => ist <| is_s0 ::= set_idx source (th_ack tcp) |>
                                                  <| is_s0 ::= set_idx (1 - source) (u32 (th_seq tcp + 1)) |> |>);;
           tcp_syn_extras newisn tcp m source
         else if flags =? TH_SYN then
           modify (fun w => w <| w_is ::= fun ist => ist <| is_s0 ::= set_idx source (u32 (th_seq tcp + 1)) |> |>);;
           tcp_syn_extras newisn tcp m source
         else mret tt);;
        mret 1
    else mret 0.
End ByteOrder.

(** ** Options: safety and round trip *)

Definition schar (x : Z) : Prop := -128 <= x < 128.
Lemma i8_schar x : schar (i8 x).
Proof. unfold schar, i8. dlia. Qed.

(** A [switch] on a complete option stays inside it, and only touches the
    recorded options. *)
Definition same_window (td td' : tcpdata) : Prop :=
  td_end td' = td_end td /\ td_maxend td' = td_maxend td /\ td_maxwin td' = td_maxwin td.
Definition scale_ok (td td' : tcpdata) : Prop :=
  td_winscale td' = td_winscale td \/ 0 <= td_winscale td' <= TCP_WSCALE_MAX.

Lemma tcp_option_ok opt ol s td retval :
  2 <= ol <= Z.of_nat (length s) ->
  exists td' r, tcp_option opt ol s td retval = Some (td', r) /\ (r = retval \/ r = -1) /\
    same_window td td' /\ scale_ok td td'.
Proof.
  intros Hol. assert (Hget : forall i : nat, Z.of_nat i < ol -> exists v, s !! i = Some v).
  { intros i Hi. apply lookup_lt_is_Some. lia. }
  unfold tcp_option.
  destruct (opt =? TCPOPT_WINDOW).
  { destruct (Z.eqb_spec ol TCPOLEN_WINDOW) as [->|?].
    - destruct (Hget 2%nat) as [v ->]; [done|]. simpl. eexists _, _. split; [done|].
      split_and!; [by left|done|]. right. simpl. unfold TCP_WSCALE_MAX. split_ifs; breflect; unfold u32; dlia.
    - eexists _, _. split; [done|]. split_and!; [by right|done|by left]. }
  destruct (opt =? TCPOPT_MAXSEG).
  { destruct (Z.eqb_spec ol TCPOLEN_MAXSEG) as [->|?].
    - destruct (Hget 2%nat) as [v ->]; [done|]. destruct (Hget 3%nat) as [v' ->]; [done|].
      simpl. eexists _, _. split; [done|]. split_and!; [by left|done|by left].
    - eexists _, _. split; [done|]. split_and!; [by right|done|by left]. }
  split_ifs; (eexists _, _; split; [done|]; split_and!; [first [by left | by right]|done|by left]).
Qed.

Lemma tcpoptions_loop_ok fuel : forall s len td retval,
  len <= Z.of_nat fuel -> len = Z.of_nat (length s) ->
  exists td' r, tcpoptions_loop fuel s len td retval = Some (td', r) /\ (r = retval \/ r = -1) /\
    same_window td td' /\ scale_ok td td'.
Proof.
  assert (Hstop : forall td retval, exists td' r, Some (td, retval) = Some (td', r) /\ (r = retval \/ r = -1) /\
    same_window td td' /\ scale_ok td td').
  { intros. eexists _, _. split; [done|]. split_and!; [by left|done|by left]. }
  induction fuel as [|fuel IH]; intros s len td retval Hf Hl; cbn [tcpoptions_loop].
  { replace (len <=? 0) with true by (symmetry; apply Z.leb_le; lia). apply Hstop. }
  destruct (Z.leb_spec len 0); [apply Hstop|].
  destruct s as [|opt s]; [simpl in Hl; lia|]. cbn [lookup list_lookup mbind option_bind].
  destruct (opt =? TCPOPT_EOL); [apply Hstop|].
  destruct (opt =? TCPOPT_NOP); [apply IH; [lia|rewrite length_drop; simpl in *; lia]|].
  destruct (Z.ltb_spec len 2); [apply Hstop|].
  destruct s as [|ol s]; [simpl in Hl; lia|]. cbn [lookup list_lookup mbind option_bind].
  destruct ((ol <? 2) || (ol >? len)) eqn:E; [apply Hstop|]. breflect.
  destruct (tcp_option_ok opt ol (opt :: ol :: s) td retval) as (td1 & r1 & -> & Hr1 & Hw1 & Hs1); [simpl in *; lia|].
  cbn [mbind option_bind].
  destruct (IH (drop (Z.to_nat ol) (opt :: ol :: s)) (len - ol) td1 r1) as (td2 & r2 & -> & Hr2 & Hw2 & Hs2);
    [lia|rewrite length_drop; lia|].
  exists td2, r2. split; [done|]. split_and!; [intuition congruence| |].
  - unfold same_window in *. intuition congruence.
  - unfold scale_ok in *. destruct Hs2 as [->|?]; auto.
Qed.

(** A list of options, and the bytes it stands for. *)
Inductive tcpopt :=
  | OptNop | OptMss (mss : Z) | OptWscale (w : Z) | OptSackOk | OptOther (kind : Z) (data : list Z).

Definition encode_opt (o : tcpopt) : list Z :=
  match o with
  | OptNop => [1]
  | OptMss mss => [2; 4; mss / 256; mss mod 256]
  | OptWscale w => [3; 3; w]
  | OptSackOk => [4; 2]
  | OptOther kind data => kind :: (2 + Z.of_nat (length data)) :: data
  end.
Definition encode_opts (os : list tcpopt) : list Z := concat (map encode_opt os).

Definition opt_wf (o : tcpopt) : Prop :=
  match o with
  | OptNop | OptSackOk => True
  | OptMss mss => 0 <= mss < 65536
  | OptWscale w => 0 <= w < 256
  | OptOther kind data => 4 < kind < 256 /\ (length data < 126)%nat
  end.

(** What the code records for an option: bytes above 127 count as negative. *)
Definition mss_seen (mss : Z) : Z := u32 (256 * i8 (mss / 256) + i8 (mss mod 256)).
Definition wscale_seen (w : Z) : Z := if i8 w <? 0 then 0 else Z.min w TCP_WSCALE_MAX.
Definition opt_effect (td : tcpdata) (o : tcpopt) : tcpdata :=
  match o with
  | OptMss mss => td <| td_maxseg := mss_seen mss |>
  | OptWscale w => td <| td_winscale := wscale_seen w |>
                      <| td_winflags ::= fun x => Z.lor x (Z.lor TCP_WSCALE_SEEN TCP_WSCALE_FIRST) |>
  | OptSackOk => td <| td_winflags ::= fun x => Z.lor x TCP_SACK_PERMIT |>
  | OptNop | OptOther _ _ => td
  end.

Lemma mss_seen_faithful mss : 0 <= mss < 32768 -> mss_seen mss = mss <-> mss mod 256 < 128.
Proof. unfold mss_seen, i8, u32. intros. split; dlia. Qed.

Lemma encode_opt_length o : (0 < length (encode_opt o))%nat.
Proof. destruct o; simpl; lia. Qed.

Lemma i8_small x : 0 <= x < 128 -> i8 x = x.
Proof. unfold i8. intros. dlia. Qed.

Lemma loop_encode_one o rest fuel len td retval :
  opt_wf o -> len = Z.of_nat (length (map i8 (encode_opt o) ++ rest)) ->
  tcpoptions_loop (S fuel) (map i8 (encode_opt o) ++ rest) len td retval =
  tcpoptions_loop fuel rest (len - Z.of_nat (length (encode_opt o))) (opt_effect td o) retval.
Proof.
  intros Hw Hl. rewrite length_app, length_map in Hl. pose proof (encode_opt_length o) as He.
  cbn [tcpoptions_loop]. replace (len <=? 0) with false by (symmetry; apply Z.leb_gt; lia).
  destruct o as [|mss|w| |kind data]; cbn [encode_opt map app] in *.
  - done.
  - change (i8 2) with 2. change (i8 4) with 4. simpl in Hl. cbn [lookup list_lookup mbind option_bind].
    replace (len <? 2) with false by (symmetry; apply Z.ltb_ge; lia).
    replace (4 >? len) with false by (rewrite Z.gtb_ltb; symmetry; apply Z.ltb_ge; lia).
    cbn. do 2 f_equal. unfold opt_effect, mss_seen. simpl. f_equal. unfold field_set. f_equal.
    rewrite Z.shiftl_mul_pow2 by lia. lia.
  - change (i8 3) with 3. simpl in Hl. cbn [lookup list_lookup mbind option_bind].
    replace (len <? 2) with false by (symmetry; apply Z.ltb_ge; lia).
    replace (3 >? len) with false by (rewrite Z.gtb_ltb; symmetry; apply Z.ltb_ge; lia).
    cbn. do 2 f_equal. unfold opt_effect, wscale_seen, TCP_WSCALE_MAX. simpl in Hw.
    assert (E : u32 (if i8 w >? 14 then 14 else if i8 w <? 0 then 0 else i8 w) =
      (if i8 w <? 0 then 0 else Z.min w 14)); [|by rewrite <- E].
    destruct (Z.ltb_spec (i8 w) 0).
    + replace (i8 w >? 14) with false by (rewrite Z.gtb_ltb; symmetry; apply Z.ltb_ge; lia). done.
    + assert (i8 w = w) as -> by (unfold i8 in *; dlia). rewrite Z.gtb_ltb.
      destruct (Z.ltb_spec 14 w); rewrite u32_id by (unfold is_u32; lia); lia.
  - change (i8 4) with 4. change (i8 2) with 2. simpl in Hl. cbn [lookup list_lookup mbind option_bind].
    replace (len <? 2) with false by (symmetry; apply Z.ltb_ge; lia).
    replace (2 >? len) with false by (rewrite Z.gtb_ltb; symmetry; apply Z.ltb_ge; lia). done.
  - destruct Hw as [Hk Hd]. cbn [lookup list_lookup mbind option_bind].
    assert (Hk' : i8 kind <> 0 /\ i8 kind <> 1 /\ i8 kind <> 2 /\ i8 kind <> 3 /\ i8 kind <> 4) by (unfold i8; dlia).
    rewrite (i8_small (2 + _)) by lia. simpl length in *.
    unfold TCPOPT_EOL, TCPOPT_NOP, tcp_option, TCPOPT_WINDOW, TCPOPT_MAXSEG, TCPOPT_SACK_PERMITTED.
    repeat match goal with |- context [i8 kind =? ?c] => replace (i8 kind =? c) with false by (symmetry; apply Z.eqb_neq; tauto) end.
    replace (len <? 2) with false by (symmetry; apply Z.ltb_ge; lia).
    replace (2 + Z.of_nat (length data) <? 2) with false by (symmetry; apply Z.ltb_ge; lia).
    replace (2 + Z.of_nat (length data) >? len) with false by (rewrite Z.gtb_ltb; symmetry; apply Z.ltb_ge; lia).
    cbn [orb mbind option_bind opt_effect]. replace (Z.to_nat (2 + Z.of_nat (length data))) with (S (S (length data))) by lia.
    cbn [drop]. rewrite drop_app_length' by (by rewrite length_map). f_equal. lia.
Qed.

(** Where the padding begins the loop stops: an end-of-list byte, or nothing. *)
Definition padding (pad : list Z) : Prop := match pad with [] => True | b :: _ => b = 0 end.

Lemma loop_encode os : forall pad fuel len td retval,
  Forall opt_wf os -> padding pad -> len = Z.of_nat (length (encode_opts os ++ pad)) -> len <= Z.of_nat fuel ->
  tcpoptions_loop fuel (map i8 (encode_opts os ++ pad)) len td retval = Some (fold_left opt_effect os td, retval).
Proof.
  induction os as [|o os IH]; intros pad fuel len td retval Hw Hp Hl Hf.
  - destruct pad as [|b pad]; simpl in *; [subst; by destruct fuel|]. subst b.
    destruct fuel as [|fuel]; [lia|]. cbn [tcpoptions_loop]. by destruct (len <=? 0).
  - apply Forall_cons in Hw as [Ho Hw]. unfold encode_opts in *. cbn [map concat fold_left] in *.
    rewrite <- app_assoc in *. rewrite map_app. rewrite length_app in Hl.
    pose proof (encode_opt_length o) as He. destruct fuel as [|fuel]; [lia|].
    rewrite loop_encode_one; [|done|rewrite length_app, !length_map; lia].
    apply IH; [done|done|lia|lia].
Qed.

(** ** The window over unbounded sequence numbers *)

(** A side of the connection as a specification would keep it: sequence numbers
    that never wrap. *)
Record peer := mk_peer { p_end : Z; p_maxend : Z; p_maxwin : Z }.

(** [td] holds [p] modulo the width of the sequence space. *)
Definition holds (p : peer) (td : tcpdata) : Prop :=
  td_end td = u32 (p_end p) /\ td_maxend td = u32 (p_maxend p) /\ td_maxwin td = p_maxwin p.

(** A segment in sequence space [from, upto), acknowledging [ack], that offers
    [win]. *)
Record segment := mk_segment { g_from : Z; g_upto : Z; g_ack : Z; g_win : Z }.

(** It is inside the window: it does not go beyond what the receiver allowed, not
    further back than the receiver's window, and its acknowledgement is near. *)
Definition in_window (scale : Z) (snd rcv : peer) (g : segment) : bool :=
  (g_upto g <=? p_maxend snd) && (p_end snd - p_maxwin rcv <=? g_from g) &&
  (g_ack g - p_end rcv <=? MAXACKWINDOW) && (p_end rcv - g_ack g <=? MAXACKWINDOW * 2 ^ scale).

(** What an accepted segment teaches about its sender and about its receiver. *)
Definition advance_snd (snd : peer) (g : segment) : peer :=
  mk_peer (Z.max (p_end snd) (g_upto g)) (p_maxend snd) (Z.max (p_maxwin snd) (g_win g)).
Definition advance_rcv (rcv : peer) (g : segment) : peer :=
  mk_peer (Z.max (p_end rcv) (g_ack g)) (Z.max (p_maxend rcv) (g_ack g + g_win g)) (p_maxwin rcv).

(** No two numbers that are compared are half the sequence space apart. *)
Definition near (x y : Z) : Prop := - 2 ^ 31 < x - y < 2 ^ 31.
Record comparable (snd rcv : peer) (g : segment) : Prop := {
  cmp_end : near (p_maxend snd) (g_upto g);
  cmp_from : near (g_from g) (p_end snd - p_maxwin rcv);
  cmp_ack : near (p_end rcv) (g_ack g);
  cmp_upto : near (g_upto g) (p_end snd);
  cmp_maxend : near (g_ack g + g_win g) (p_maxend rcv) }.

Lemma i32_diff a b : near a b -> i32 (u32 (u32 a - u32 b)) = a - b.
Proof. unfold near, i32, u32. intros. dlia. Qed.
Lemma SEQ_GE_near a b : near a b -> SEQ_GE (u32 a) (u32 b) = (b <=? a).
Proof.
  intros Hn. unfold SEQ_GE. rewrite i32_diff by done. rewrite Z.geb_leb.
  destruct (Z.leb_spec b a), (Z.leb_spec 0 (a - b)); lia || done.
Qed.
Lemma SEQ_GT_near a b : near a b -> SEQ_GT (u32 a) (u32 b) = (b <? a).
Proof.
  intros Hn. unfold SEQ_GT. rewrite i32_diff by done. rewrite Z.gtb_ltb.
  destruct (Z.ltb_spec b a), (Z.ltb_spec 0 (a - b)); lia || done.
Qed.
Lemma ack_scale s : 0 <= s <= TCP_WSCALE_MAX -> i32 (Z.shiftl MAXACKWINDOW s) = MAXACKWINDOW * 2 ^ s.
Proof.
  intros Hs. rewrite Z.shiftl_mul_pow2 by lia. apply i32_id. unfold TCP_WSCALE_MAX in Hs.
  assert (0 < 2 ^ s <= 2 ^ 14) by (split; [apply Z.pow_pos_nonneg; lia|apply Z.pow_le_mono_r; lia]).
  unfold MAXACKWINDOW. lia.
Qed.

(** What the check of a packet of an established connection looks at: an ACK,
    neither SYN nor RST, for an entry that tracks the whole handshake and has
    seen the sender's window scale in use. *)
Record tracked (flags : Z) (tcp : tcphdr) (fdata : tcpdata) : Prop := {
  tr_fsm : has flags IS_TCPFSM = true;
  tr_lax : has flags IS_STRICT = false;
  tr_ack : has (th_flags tcp) TH_ACK = true;
  tr_syn : has (th_flags tcp) TH_SYN = false;
  tr_rst : has (th_flags tcp) TH_RST = false;
  tr_first : has (td_winflags fdata) TCP_WSCALE_FIRST = false;
  tr_sack : has (td_winflags fdata) TCP_SACK_PERMIT = false;
  tr_scale : 0 <= td_winscale fdata <= TCP_WSCALE_MAX }.

(** The packet is the segment [g]. *)
Record is_segment (fin : fr_info) (tcp : tcphdr) (fdata : tcpdata) (g : segment) : Prop := {
  sg_from : th_seq tcp = u32 (g_from g);
  sg_upto : g_upto g = g_from g + (fin_dlen fin - 4 * th_off tcp + b2z (has (th_flags tcp) TH_FIN));
  sg_ack : th_ack tcp = u32 (g_ack g);
  sg_win : g_win g = tcp_win fdata tcp }.

Lemma tracked_first flags win dend tcp fdata :
  tracked flags tcp fdata -> tcp_first flags win dend tcp fdata = fdata.
Proof.
  intros []. unfold tcp_first. rewrite tr_first0, andb_false_r, tr_fsm0. cbn [negb orb].
  unfold masked. replace (Z.land (th_flags tcp) TH_OPENING =? TH_OPENING) with false; [by rewrite andb_false_r|].
  symmetry. apply Z.eqb_neq. intros E. apply has_false in tr_syn0.
  assert (Z.land (Z.land (th_flags tcp) TH_OPENING) TH_SYN = TH_SYN) as E' by (by rewrite E).
  rewrite <- Z.land_assoc in E'. change (Z.land TH_OPENING TH_SYN) with TH_SYN in E'.
  rewrite tr_syn0 in E'. discriminate.
Qed.

Lemma tracked_ack flags tcp fdata tdata : tracked flags tcp fdata -> tcp_ack tdata tcp = th_ack tcp.
Proof.
  intros []. unfold tcp_ack. rewrite tr_ack0. cbn [negb].
  unfold masked. replace (Z.land (th_flags tcp) _ =? _) with false; [done|].
  symmetry. apply Z.eqb_neq. intros E. apply has_false in tr_rst0.
  assert (Z.land (Z.land (th_flags tcp) (Z.lor TH_ACK TH_RST)) TH_RST = TH_RST) as E' by (by rewrite E).
  rewrite <- Z.land_assoc in E'. change (Z.land (Z.lor TH_ACK TH_RST) TH_RST) with TH_RST in E'.
  rewrite tr_rst0 in E'. discriminate.
Qed.

Lemma tracked_not_rst flags tcp fdata : tracked flags tcp fdata -> (th_flags tcp =? Z.lor TH_RST TH_ACK) = false.
Proof.
  intros []. apply Z.eqb_neq. intros E. rewrite E in tr_rst0. discriminate.
Qed.

Lemma tracked_inseq flags fin tcp fdata tdata snd rcv g :
  tracked flags tcp fdata -> is_segment fin tcp fdata g -> holds snd fdata -> holds rcv tdata ->
  comparable snd rcv g ->
  tcp_inseq flags (u32 (g_upto g)) (p_end rcv - g_ack g) (p_maxwin rcv) tcp fdata tdata =
  in_window (td_winscale fdata) snd rcv g.
Proof.
  intros Ht [Hf Hu Ha Hw] (E1 & E2 & E3) (F1 & F2 & F3) [C1 C2 C3 C4 C5].
  pose proof (tracked_not_rst _ _ _ Ht) as Hr. pose proof Ht as [].
  unfold tcp_inseq, in_window. rewrite Hf, E1, E2, Hr, tr_sack0, tr_fsm0, andb_false_r, andb_false_r.
  cbn [andb negb]. rewrite SEQ_GE_near by done. autorewrite with ipf_wrap.
  rewrite SEQ_GE_near by done. rewrite ack_scale by done.
  rewrite i32_id by (unfold near in C3; lia).
  replace (- (p_end rcv - g_ack g)) with (g_ack g - p_end rcv) by lia.
  by destruct (_ && _ && _ && _).
Qed.

(** The check over machine words is the check over unbounded numbers. *)
Lemma tcpinwindow_run fin fdata tdata tcp flags snd rcv g :
  tracked flags tcp fdata -> is_segment fin tcp fdata g -> holds snd fdata -> holds rcv tdata ->
  comparable snd rcv g ->
  let ok := in_window (td_winscale fdata) snd rcv g in
  exists fdata' tdata',
    ipf_state_tcpinwindow fin fdata tdata tcp flags =
      (b2z ok, if ok then fin else or_flx FI_OOW fin, fdata', tdata') /\
    holds (if ok then advance_snd snd g else snd) fdata' /\
    holds (if ok then advance_rcv rcv g else rcv) tdata' /\
    td_winscale fdata' = td_winscale fdata /\ td_winflags fdata' = td_winflags fdata /\
    td_winscale tdata' = td_winscale tdata /\ td_winflags tdata' = td_winflags tdata.
Proof.
  intros Ht Hg Hs Hr Hc ok. pose proof Hg as [Hf Hu Ha Hw]. pose proof Hs as (E1 & E2 & E3).
  pose proof Hr as (F1 & F2 & F3). pose proof Hc as [C1 C2 C3 C4 C5]. pose proof Ht as [].
  unfold ipf_state_tcpinwindow. rewrite tracked_first, (tracked_ack _ _ _ _ Ht), tr_lax0, <- Hw by done.
  cbn [andb].
  assert (Ed : u32 (th_seq tcp + tcp_dsize fin tcp) = u32 (g_upto g)).
  { unfold tcp_dsize. rewrite tr_syn0, Hf, Hu, Z.shiftl_mul_pow2 by lia. autorewrite with ipf_wrap.
    f_equal. cbn [b2z]. lia. }
  rewrite Ed, Ha, F1, F3, i32_diff by done.
  rewrite (tracked_inseq flags fin tcp fdata tdata snd rcv g) by done. fold ok.
  destruct ok; cbn [b2z].
  2: { eexists _, _. split; [done|]. by split_and!. }
  autorewrite with ipf_wrap. eexists _, _. split; [done|].
  unfold advance_snd, advance_rcv, holds. cbn [p_end p_maxend p_maxwin].
  rewrite !E3.
  assert (G1 : td_maxend (if p_end rcv - g_ack g <? 0 then tdata <| td_end := u32 (g_ack g) |> else tdata)
               = u32 (p_maxend rcv)) by (by case_match).
  rewrite G1, SEQ_GE_near by done.
  assert (G2 : td_end (if p_maxwin snd <? g_win g then fdata <| td_maxwin := g_win g |> else fdata) = u32 (p_end snd))
    by (destruct (p_maxwin snd <? g_win g); exact E1).
  rewrite G2, SEQ_GT_near by done.
  destruct (Z.ltb_spec (p_end rcv - g_ack g) 0), (Z.ltb_spec (p_maxwin snd) (g_win g)),
    (Z.ltb_spec (p_end snd) (g_upto g)), (Z.leb_spec (p_maxend rcv) (g_ack g + g_win g));
    simpl; rewrite ?E1, ?E2, ?E3, ?F1, ?F2, ?F3; split_and!; try done; try (f_equal; lia); lia.
Qed.

(** ** Sequence number rewriting *)

(** The difference that [ipf_checknewisn] remembers fits its 16 bits. *)
Lemma sumd_kept old new : is_u32 old -> is_u32 new ->
  let sumd := CALC_SUMD u32 old new in
  let kept := u16 (u32 (Z.land sumd 0xffff + Z.shiftr sumd 16)) in
  is_u16 kept /\ kept ≡ₒ new - old.
Proof.
  intros Ho Hn sumd kept. split; [apply u16_range|].
  destruct (CALC_SUMD_spec old new Ho Hn) as [E Hb]. fold sumd in E, Hb.
  unfold kept. rewrite fold_step'.
  rewrite u32_id by (unfold is_u32; dlia). rewrite u16_id by (unfold is_u16; dlia). by rewrite fold_eqm.
Qed.

Lemma pow32_eqm k : k * 2 ^ 32 ≡ₒ k.
Proof. apply (eqm_of _ _ (k * 65537)). lia. Qed.

Lemma diff_mod_2_32 s d : is_u32 s -> exists k, u32 (s + d) - s = d + k * 2 ^ 32.
Proof.
  intros Hs. exists (- ((s + d) / 2 ^ 32)). unfold u32. pose proof (Z.div_mod (s + d) (2 ^ 32)). lia.
Qed.
Lemma i32_mod x : exists k, i32 (u32 x) = x + k * 2 ^ 32.
Proof.
  exists (- (x / 2 ^ 32) - ((x mod 2 ^ 32 + 2 ^ 31) / 2 ^ 32)). unfold i32, u32.
  pose proof (Z.div_mod x (2 ^ 32)). pose proof (Z.div_mod (x mod 2 ^ 32 + 2 ^ 31) (2 ^ 32)). lia.
Qed.

(** The entry after [ipf_checknewisn] saw the first packet of side 0. *)
Lemma checknewisn_run newisn fin tcp st :
  fin_rev fin = 0 -> has (is_flags st) IS_ISNSYN = false ->
  let st' := ipf_checknewisn newisn fin tcp st in
  fst (is_isninc st') = i32 (u32 (newisn - th_seq tcp)) /\
  fst (is_sumd st') = u16 (u32 (Z.land (CALC_SUMD u32 (th_seq tcp) newisn) 0xffff +
                                Z.shiftr (CALC_SUMD u32 (th_seq tcp) newisn) 16)) /\
  has (is_flags st') IS_ISNSYN = true.
Proof.
  intros Hr Hf. unfold ipf_checknewisn. rewrite Hr, Hf. cbn. split_and!; [done|done|].
  apply has_true. intros E. assert (E' : Z.testbit (Z.land (Z.lor (is_flags st) IS_ISNSYN) IS_ISNSYN) 18 = false)
    by (by rewrite E). rewrite Z.land_spec, Z.lor_spec in E'. change (Z.testbit IS_ISNSYN 18) with true in E'.
  by rewrite orb_true_r in E'.
Qed.

Lemma fixoutisn_run be fin st tcp :
  fin_rev fin = 0 -> has (is_flags st) IS_ISNSYN = true -> fin_cksum fin < FI_CK_L4PART ->
  ipf_fixoutisn be fin st tcp = adjust_seq be st 0 tcp.
Proof.
  intros Hr Hf Hc. unfold ipf_fixoutisn. rewrite Hr, Hf.
  replace (fin_cksum fin <? FI_CK_L4PART) with true by (symmetry; by apply Z.ltb_lt). cbn. by case_match.
Qed.
Lemma fixinisn_run be fin st tcp :
  fin_rev fin = 1 -> has (is_flags st) IS_ISNSYN = true -> fin_cksum fin < FI_CK_L4PART ->
  ipf_fixinisn be fin st tcp = adjust_ack be st 0 tcp.
Proof.
  intros Hr Hf Hc. unfold ipf_fixinisn. rewrite Hr, Hf.
  replace (fin_cksum fin <? FI_CK_L4PART) with true by (symmetry; by apply Z.ltb_lt). cbn. by case_match.
Qed.

(** How far the total over a segment is off after its sequence number changed and
    the remembered difference was taken off its checksum. *)
Lemma adjust_seq_total be rest sp s old new :
  is_u16 sp -> is_u32 s -> is_u32 old -> is_u32 new ->
  let s' := u32 (s + i32 (u32 (new - old))) in
  let kept := u16 (u32 (Z.land (CALC_SUMD u32 old new) 0xffff + Z.shiftr (CALC_SUMD u32 old new) 16)) in
  exists k, s' - s = new - old + k * 2 ^ 32 /\ -1 <= k <= 1 /\
    rest + field32 be s' + ipf_fix_outcksum be 0 sp kept 0 ≡ₒ rest + field32 be s + sp + unit_of be * k.
Proof.
  intros Hsp Hs Ho Hn s' kept. destruct (sumd_kept old new Ho Hn) as [Hk Ek]. fold kept in Hk, Ek.
  destruct (diff_mod_2_32 s (i32 (u32 (new - old))) Hs) as [k1 E1].
  destruct (i32_mod (new - old)) as [k2 E2]. fold s' in E1.
  assert (Hs' : is_u32 s') by apply u32_range.
  exists (k1 + k2). split; [lia|]. split; [unfold is_u32 in *; nia|].
  pose proof (fix_outcksum_u16 be sp kept Hsp) as Hf.
  pose proof (fix_outcksum_eqm be sp kept Hsp ltac:(unfold is_u16 in Hk; lia)) as Ef.
  set (sp' := ipf_fix_outcksum be 0 sp kept 0) in *. clearbody sp'.
  rewrite !field32_eqm by done. rewrite <- (unit_ntohs be sp'), <- (unit_ntohs be sp) by done.
  rewrite Ef, Ek.
  replace s' with (s + (new - old) + (k1 + k2) * 2 ^ 32) by lia. rewrite pow32_eqm.
  apply (eqm_of _ _ 0). lia.
Qed.

(** ** One packet of a connection *)

(** The message holds the TCP header, whose length field fits its 4 bits. *)
Definition opts_present (fin : fr_info) (tcp : tcphdr) (m : list Z) : Prop :=
  5 <= th_off tcp <= 15 /\
  0 <= fin_plen fin - fin_dlen fin + sizeof_tcphdr + fin_ipoff fin <= Z.of_nat (length m).

Lemma tcpoptions_run fin tcp m td :
  opts_present fin tcp m ->
  exists r td', ipf_tcpoptions fin tcp m td = Some (r, td') /\ (r = -1 \/ r = 0 \/ r = 1) /\
    same_window td td' /\ scale_ok td td'.
Proof.
  intros [Ho Hm]. unfold ipf_tcpoptions. rewrite Z.shiftl_mul_pow2 by lia. change (2 ^ 2) with 4.
  destruct (Z.ltb_spec (fin_dlen fin) (th_off tcp * 4)).
  { exists 0, td. split; [done|]. split_and!; [tauto|done|by left]. }
  set (off := _ + fin_ipoff fin) in *. set (len := th_off tcp * 4 - sizeof_tcphdr).
  set (mlen := Z.of_nat (length m) - off).
  assert (Hlen : 0 <= len <= 40) by (unfold len, sizeof_tcphdr; lia).
  assert (exists l r, (if len >? mlen then (mlen, 0) else (len, 1)) = (l, r) /\ 0 <= l <= 40 /\ l <= mlen /\ (r = 0 \/ r = 1))
    as (l & r & -> & Hl & Hlm & Hr).
  { rewrite Z.gtb_ltb. destruct (Z.ltb_spec mlen len).
    - exists mlen, 0. split_and!; [done|lia|lia|lia|tauto].
    - exists len, 1. split_and!; [done|lia|lia|lia|tauto]. }
  unfold COPYDATA.
  replace (off <? 0) with false by (symmetry; apply Z.ltb_ge; lia).
  replace (l <? 0) with false by (symmetry; apply Z.ltb_ge; lia).
  replace (64 <? l) with false by (symmetry; apply Z.ltb_ge; lia).
  replace (Z.of_nat (length m) <? off + l) with false by (symmetry; apply Z.ltb_ge; unfold mlen in Hlm; lia).
  cbn [orb mbind option_bind].
  destruct (tcpoptions_loop_ok (Z.to_nat l) (map i8 (take (Z.to_nat l) (drop (Z.to_nat off) m))) l td r)
    as (td' & r' & -> & Hr' & Hw & Hsc).
  - lia.
  - rewrite length_map, length_take, length_drop. unfold mlen in Hlm. lia.
  - exists r', td'. split; [done|]. split_and!; [|done|done]. destruct Hr' as [->|]; tauto.
Qed.

Lemma on_heap_bind {A B} (m : ST tqheap A) (k : A -> ST tcpworld B) w a h :
  m (w_heap w) = Some (a, h) -> (on_heap m ≫= k) w = k a (w <| w_heap := h |>).
Proof. intros E. unfold mbind, st_bind, on_heap. by rewrite E. Qed.

Lemma syn_extras_run newisn tcp m source w :
  opts_present (w_fin w) tcp m ->
  exists w', tcp_syn_extras newisn tcp m source w = Some (tt, w') /\ w_heap w' = w_heap w.
Proof.
  intros Hp. unfold tcp_syn_extras.
  assert (exists w1, when_ (th_off tcp >? Z.shiftr sizeof_tcphdr 2)
    (w ← gets id;
     r ← need (ipf_tcpoptions (w_fin w) tcp m (idx (1 - source) (is_tcp (w_is w))));
     modify (fun w => w <| w_is ::= fun ist => ist <| is_tcp ::= set_idx (1 - source) (snd r) |> |>);;
     when_ (fst r =? -1) (modify (fun w => w <| w_fin ::= or_flx FI_BAD |>))) w = Some (tt, w1) /\
    w_heap w1 = w_heap w) as (w1 & H1 & E1).
  { destruct (th_off tcp >? _); [|by exists w]. cbn [when_].
    destruct (tcpoptions_run (w_fin w) tcp m (idx (1 - source) (is_tcp (w_is w))) Hp) as (r & td' & Hr & _).
    rewrite (bind_eq _ _ _ w w) by done. rewrite Hr. rewrite (bind_eq _ _ _ (r, td') w) by done.
    erewrite bind_eq by done. destruct (fst (r, td') =? -1); by eexists. }
  rewrite (bind_eq _ _ _ _ _ H1). rewrite (bind_eq _ _ _ w1 w1) by done.
  destruct (negb _ && _); eexists; by split.
Qed.

(** The summary that the state machine sees after the window check. *)
Lemma tcpinwindow_fin fin fdata tdata tcp flags :
  let '(r, fin', _, _) := ipf_state_tcpinwindow fin fdata tdata tcp flags in
  (r = 1 /\ fin' = fin) \/ (r = 0 /\ fin' = or_flx FI_OOW fin).
Proof. unfold ipf_state_tcpinwindow. repeat case_match; simplify_eq; auto. Qed.

Definition tcp_source (be : bool) (fin : fr_info) (st : ipstate) : Z :=
  let source := b2z (fin_rev fin =? 0) in
  if has (is_flags st) IS_TCPFSM && (source =? 1) && negb (ntohs be (is_sport st) =? fin_sport fin)
  then 0 else source.
Lemma tcp_source_01 be fin st : tcp_source be fin st = 0 \/ tcp_source be fin st = 1.
Proof. unfold tcp_source. case_match; [by left|]. destruct (fin_rev fin =? 0); [by right|by left]. Qed.

(** A SYN on a connection both of whose sides are closing. *)
Definition reopens (tcp : tcphdr) (c : Z * Z) : bool :=
  masked (th_flags tcp) TH_OPENING TH_SYN && (fst c >? IPF_TCPS_ESTABLISHED) && (snd c >? IPF_TCPS_ESTABLISHED).

(** Whether the window lets the packet through. *)
Definition lets_through (be : bool) (fin : fr_info) (st : ipstate) (tcp : tcphdr) : bool :=
  has (is_flags st) IS_LOOSE ||
  (let source := tcp_source be fin st in
   fst (fst (fst (ipf_state_tcpinwindow fin (idx (1 - source) (is_tcp st)) (idx source (is_tcp st)) tcp (is_flags st)))) =? 1).

Section OnePacket.
Context (be : bool) (ticks newisn : Z) (tcptq : Z -> loc) (deletetq : loc) (tcp : tcphdr) (m : list Z).
Context (w : tcpworld) (Q : gmap loc (list loc)) (c : Z * Z) (fl : Z).
Local Abbreviation x := (is_sti (w_is w)).
Local Abbreviation fin := (w_fin w).
Context (Hc : conn_ok tcptq x (w_heap w) Q) (Hdel : is_Some (Q !! deletetq)).
Context (Hs : states (w_heap w) x = Some c) (Hf : flags_of (w_heap w) x = Some fl) (Hu : used_states c).
Context (Hrev : fin_rev fin = 0 \/ fin_rev fin = 1) (Hp : opts_present fin tcp m).
Local Abbreviation run := (ipf_state_tcp be ticks newisn tcptq deletetq tcp m w).
Local Abbreviation source := (tcp_source be fin (w_is w)).

Lemma state_tcp_entry : exists t, ents (w_heap w) !! x = Some t /\ tqe_state0 t = fst c /\ tqe_state1 t = snd c.
Proof. unfold states in Hs. destruct (ents (w_heap w) !! x) as [t|]; [|done]. injection Hs as <-. by exists t. Qed.

Lemma state_tcp_reopen :
  reopens tcp c = true ->
  exists w' Q', run = Some (0, w') /\ conn_ok tcptq x (w_heap w') Q' /\
    states (w_heap w') x = Some (set_side (1 - source) IPF_TCPS_CLOSED c) /\ on_queue Q' x deletetq.
Proof.
  intros Hr. destruct state_tcp_entry as (t & Et & E0 & E1).
  unfold ipf_state_tcp. rewrite (bind_eq _ _ _ w w) by done. fold (tcp_source be fin (w_is w)).
  rewrite (on_heap_bind _ _ w _ _ (ent_run _ _ _ _ Et)).
  rewrite (on_heap_bind _ _ _ (tqe_state1 t) (w_heap w)) by (by apply ent_run).
  rewrite E0, E1. unfold reopens in Hr. rewrite Hr.
  assert (Hsrc : 1 - source = 0 \/ 1 - source = 1) by (destruct (tcp_source_01 be fin (w_is w)); lia).
  set (h1 := set_ent x (set_state (1 - source) IPF_TCPS_CLOSED) (w_heap w)).
  rewrite (on_heap_bind _ _ _ tt h1) by (by apply (upd_ent_run _ _ _ t)).
  destruct (set_state_views (w_heap w) x (1 - source) IPF_TCPS_CLOSED c fl Hsrc Hs Hf) as (V1 & _ & _).
  pose proof (set_state_conn tcptq x (1 - source) IPF_TCPS_CLOSED _ _ Hc) as [Hr1 Ht (q & l & Hq & Hx)].
  fold h1 in V1, Hr1. destruct (queue_elem_ent _ _ _ _ (Hr1 _ _ Hq) Hx) as (t1 & Et1 & Hi & _).
  destruct Hdel as [ld Hld].
  destruct (movequeue_run ticks h1 Q x q deletetq l ld Hr1 Hq Hx Hld) as (h2 & Q' & l' & Hrun & HQ' & Hl' & Hx' & Hdom & Hown & _).
  rewrite (on_heap_bind _ _ _ (Some q) h1) by (simpl; rewrite <- Hi; by apply ent_run).
  rewrite (bind_eq _ _ _ q _) by done.
  rewrite (on_heap_bind _ _ _ tt h2) by exact Hrun. eexists _, Q'. split; [done|]. cbn [w_heap]. split_and!.
  - split; [done| |by exists deletetq, l']. intros s Hst. apply Hdom, Ht, Hst.
  - simpl. by rewrite (proj1 (owner_views _ _ x (Hown x))).
  - by exists l'.
Qed.

Lemma state_tcp_rejected :
  reopens tcp c = false -> lets_through be fin (w_is w) tcp = false ->
  exists w', run = Some (0, w') /\ w_heap w' = w_heap w /\ w_fin w' = or_flx FI_OOW fin.
Proof.
  intros Hr Hl. destruct state_tcp_entry as (t & Et & E0 & E1).
  unfold ipf_state_tcp. rewrite (bind_eq _ _ _ w w) by done. fold (tcp_source be fin (w_is w)).
  rewrite (on_heap_bind _ _ w _ _ (ent_run _ _ _ _ Et)).
  rewrite (on_heap_bind _ _ _ (tqe_state1 t) (w_heap w)) by (by apply ent_run).
  rewrite E0, E1. unfold reopens in Hr. rewrite Hr.
  unfold lets_through in Hl. apply orb_false_iff in Hl as [-> Hl].
  cbn [w_is w_fin field_set].
  pose proof (tcpinwindow_fin fin (idx (1 - source) (is_tcp (w_is w))) (idx source (is_tcp (w_is w))) tcp (is_flags (w_is w))) as Hv.
  destruct (ipf_state_tcpinwindow _ _ _ _ _) as [[[r fin'] fdata] tdata]. cbn [fst snd] in Hl.
  destruct Hv as [[-> ->]|[-> ->]]; [discriminate|].
  eexists. split; [reflexivity|]. by split.
Qed.

Lemma state_tcp_accepted :
  reopens tcp c = false -> lets_through be fin (w_is w) tcp = true ->
  let e := mk_event ticks fin tcp 1 in
  exists w' Q', run = Some (if snd (verdict (is_flags (w_is w)) e c) =? 0 then 0 else 1, w') /\
    conn_ok tcptq x (w_heap w') Q' /\ states (w_heap w') x = Some (age (is_flags (w_is w)) e c).
Proof.
  intros Hr Hl e. destruct state_tcp_entry as (t & Et & E0 & E1).
  unfold ipf_state_tcp. rewrite (bind_eq _ _ _ w w) by done. fold (tcp_source be fin (w_is w)).
  rewrite (on_heap_bind _ _ w _ _ (ent_run _ _ _ _ Et)).
  rewrite (on_heap_bind _ _ _ (tqe_state1 t) (w_heap w)) by (by apply ent_run).
  rewrite E0, E1. unfold reopens in Hr. rewrite Hr.
  set (k := fun ret : Z => if ret >? 0 then _ else _).
  match goal with |- context [(?m0 ≫= k) ?w0] => assert (exists w1, m0 w0 = Some (1, w1) /\ w_heap w1 = w_heap w /\
    w_fin w1 = fin) as (w1 & Hw1 & Eh & Ef) end.
  { unfold lets_through in Hl. destruct (has (is_flags (w_is w)) IS_LOOSE); [by eexists|]. cbn [orb] in Hl.
    cbn [w_is w_fin field_set].
    pose proof (tcpinwindow_fin fin (idx (1 - source) (is_tcp (w_is w))) (idx source (is_tcp (w_is w))) tcp (is_flags (w_is w))) as Hv.
    destruct (ipf_state_tcpinwindow _ _ _ _ _) as [[[r fin'] fdata] tdata]. cbn [fst snd] in Hl.
    destruct Hv as [[-> ->]|[-> ->]]; [|discriminate]. eexists. by split_and!. }
  rewrite (bind_eq _ _ _ _ _ Hw1). unfold k. cbn [Z.gtb Z.compare]. rewrite (bind_eq _ _ _ (w_fin w1) w1) by done.
  rewrite <- Eh in Hc, Hs, Hf.
  destruct (tcp_age_run x e tcptq (is_flags (w_is w)) (w_heap w1) Q c fl Hc Hrev Hs Hf Hu)
    as (h' & Q' & Hrun & Hc' & Hs' & _).
  rewrite Ef. cbn [ev_ticks ev_fin ev_tcp ev_ok e] in Hrun.
  erewrite on_heap_bind by exact Hrun.
  set (rv := snd (verdict _ _ _)). set (w2 := w1 <| w_heap := h' |>).
  assert (Er : ((if rv =? 2 then 1 else rv) =? 0) = (rv =? 0)) by (destruct (Z.eqb_spec rv 2) as [->|]; done).
  rewrite Er. destruct (rv =? 0); [by eexists _, _|].
  match goal with |- context [(?m1 ≫= _) w2] => assert (exists w3, m1 w2 = Some (tt, w3) /\ w_heap w3 = h')
    as (w3 & Hw3 & Eh3) end.
  { destruct (clear _ _ =? _); [|destruct (clear _ _ =? _); [|by eexists]].
    - erewrite bind_eq by done. edestruct syn_extras_run as (w3 & Hw3 & E3); [|exists w3; split; [exact Hw3|by rewrite E3]].
      simpl. by rewrite Ef.
    - erewrite bind_eq by done. edestruct syn_extras_run as (w3 & Hw3 & E3); [|exists w3; split; [exact Hw3|by rewrite E3]].
      simpl. by rewrite Ef. }
  rewrite (bind_eq _ _ _ _ _ Hw3). exists w3, Q'. split; [done|]. by rewrite Eh3.
Qed.
End OnePacket.

(** ** Properties *)

(** C30. The window check of an established connection ([tracked]): the segment has an ACK
    and neither SYN nor RST, the entry follows the whole handshake ([IS_TCPFSM]) and is not
    strict, selective acknowledgements were not agreed on, and the first segment under the
    window scale has been seen.  Then the check computes on 32-bit words what it would
    compute on sequence numbers that never wrap: as long as no two numbers that it compares
    are half the sequence space apart, it accepts exactly the segments inside the
    window; acceptance moves the sender's end, the largest window and the
    receiver's limits forward (never back), and rejection marks the packet
    out of window and leaves both sides as they were. *)
Theorem tcpinwindow_refines fin fdata tdata tcp flags snd rcv g :
  tracked flags tcp fdata -> is_segment fin tcp fdata g -> holds snd fdata -> holds rcv tdata ->
  comparable snd rcv g ->
  let ok := in_window (td_winscale fdata) snd rcv g in
  exists fdata' tdata',
    ipf_state_tcpinwindow fin fdata tdata tcp flags =
      (b2z ok, if ok then fin else or_flx FI_OOW fin, fdata', tdata') /\
    holds (if ok then advance_snd snd g else snd) fdata' /\
    holds (if ok then advance_rcv rcv g else rcv) tdata' /\
    td_winscale fdata' = td_winscale fdata /\ td_winflags fdata' = td_winflags fdata /\
    td_winscale tdata' = td_winscale tdata /\ td_winflags tdata' = td_winflags tdata.
Proof. apply tcpinwindow_run. Qed.

(** A sender whose sequence numbers are about to wrap. *)
Definition demo_snd : peer := mk_peer (2 ^ 32 - 100) (2 ^ 32 + 4000) 1024.
Definition demo_rcv : peer := mk_peer 5000 9000 2048.
Definition demo_fdata : tcpdata := mk_tcpdata (2 ^ 32 - 100) 4000 1024 0 1460 1.
Definition demo_tdata : tcpdata := mk_tcpdata 5000 9000 2048 0 1460 1.
Definition demo_seg : segment := mk_segment (2 ^ 32 - 100) (2 ^ 32 + 400) 5000 1024.
Definition demo_hdr : tcphdr := mk_tcphdr (2 ^ 32 - 100) 5000 5 TH_ACK 1024 0.
Definition demo_fin : fr_info := fin_zero <| fin_dlen := 520 |> <| fin_plen := 540 |>.

Lemma tcpinwindow_refines_witness :
  exists fdata' tdata', ipf_state_tcpinwindow demo_fin demo_fdata demo_tdata demo_hdr IS_TCPFSM =
      (1, demo_fin, fdata', tdata') /\ td_end fdata' = 400 /\ holds (advance_rcv demo_rcv demo_seg) tdata'.
Proof.
  destruct (tcpinwindow_refines demo_fin demo_fdata demo_tdata demo_hdr IS_TCPFSM demo_snd demo_rcv demo_seg)
    as (fdata' & tdata' & H1 & (H2 & _) & H3 & _).
  - split; vm_compute; intuition congruence.
  - split; vm_compute; reflexivity.
  - split_and!; vm_compute; reflexivity.
  - split_and!; vm_compute; reflexivity.
  - split; vm_compute; intuition congruence.
  - exists fdata', tdata'. split_and!; [exact H1|exact H2|exact H3].
Defined.

(** Parsing the options of a SYN gives back what was put in, option by
    option, for every list of well formed options padded with an end-of-list
    byte: scale, SACK permission, and the maximum segment size - the latter only
    if its low byte is below 128, because the bytes are read as signed [char]
    (1460 is recorded as 1204). *)
Theorem tcpoptions_roundtrip fin tcp hdr os pad td :
  Forall opt_wf os -> padding pad ->
  Z.of_nat (length hdr) = sizeof_tcphdr -> 4 * th_off tcp = sizeof_tcphdr + Z.of_nat (length (encode_opts os ++ pad)) ->
  th_off tcp <= 15 -> 4 * th_off tcp <= fin_dlen fin -> fin_plen fin = fin_dlen fin -> fin_ipoff fin = 0 ->
  ipf_tcpoptions fin tcp (hdr ++ encode_opts os ++ pad) td = Some (1, fold_left opt_effect os td) /\
  (forall mss, 0 <= mss < 32768 -> mss_seen mss = mss <-> mss mod 256 < 128).
Proof.
  intros Hw Hpad Hh Ho Ho' Hd Hp Hi. split; [|by apply mss_seen_faithful].
  set (body := encode_opts os ++ pad) in *.
  unfold ipf_tcpoptions. rewrite Z.shiftl_mul_pow2, Hp, Hi by lia. change (2 ^ 2) with 4.
  replace (fin_dlen fin <? th_off tcp * 4) with false by (symmetry; apply Z.ltb_ge; lia).
  replace (fin_dlen fin - fin_dlen fin + sizeof_tcphdr + 0) with sizeof_tcphdr by lia.
  replace (th_off tcp * 4 - sizeof_tcphdr) with (Z.of_nat (length body)) by lia.
  rewrite length_app, Nat2Z.inj_add, Hh, Z.gtb_ltb.
  replace (_ <? Z.of_nat (length body)) with false by (symmetry; apply Z.ltb_ge; lia).
  unfold COPYDATA. rewrite length_app, Nat2Z.inj_add, Hh.
  replace (sizeof_tcphdr <? 0) with false by done.
  replace (Z.of_nat (length body) <? 0) with false by (symmetry; apply Z.ltb_ge; lia).
  replace (64 <? Z.of_nat (length body)) with false by (symmetry; apply Z.ltb_ge; unfold sizeof_tcphdr in *; lia).
  rewrite Z.ltb_irrefl. cbn [orb mbind option_bind]. rewrite <- Hh, !Nat2Z.id, drop_app_length, firstn_all.
  unfold body. rewrite (loop_encode os pad) by (done || lia). done.
Qed.
Definition demo_opts : list tcpopt := [OptMss 1460; OptSackOk; OptOther 8 [0; 0; 0; 1; 0; 0; 0; 0]; OptNop; OptWscale 7].
Lemma tcpoptions_roundtrip_witness :
  ipf_tcpoptions (fin_zero <| fin_dlen := 40 |> <| fin_plen := 40 |>) (mk_tcphdr 1 0 10 TH_SYN 512 0)
    (repeat 0 20 ++ encode_opts demo_opts ++ []) (mk_tcpdata 0 0 0 0 0 0) =
  Some (1, mk_tcpdata 0 0 0 7 1204 7).
Proof.
  apply (tcpoptions_roundtrip (fin_zero <| fin_dlen := 40 |> <| fin_plen := 40 |>) (mk_tcphdr 1 0 10 TH_SYN 512 0)
           (repeat 0 20) demo_opts [] (mk_tcpdata 0 0 0 0 0 0));
    try reflexivity; try (vm_compute; congruence).
  unfold demo_opts. repeat (constructor; [simpl; lia || done|]). constructor.
Defined.

(** C33. Parsing the options of an arbitrary header stays inside the 64-byte
    buffer and the message and terminates, the window data proper is not
    touched, and the shift count that is recorded is at most 14. *)
Theorem tcpoptions_safe fin tcp m td :
  opts_present fin tcp m ->
  exists r td', ipf_tcpoptions fin tcp m td = Some (r, td') /\ (r = -1 \/ r = 0 \/ r = 1) /\
    same_window td td' /\ (td_winscale td' = td_winscale td \/ 0 <= td_winscale td' <= TCP_WSCALE_MAX).
Proof. apply tcpoptions_run. Qed.
Lemma tcpoptions_safe_witness :
  exists r td', ipf_tcpoptions (fin_zero <| fin_dlen := 28 |> <| fin_plen := 28 |>) (mk_tcphdr 1 0 7 TH_SYN 512 0)
    (repeat 0 20 ++ [3; 3; 255; 2; 200; 1; 1; 1]) demo_fdata = Some (r, td') /\ (r = -1 \/ r = 0 \/ r = 1).
Proof.
  destruct (tcpoptions_safe (fin_zero <| fin_dlen := 28 |> <| fin_plen := 28 |>) (mk_tcphdr 1 0 7 TH_SYN 512 0)
    (repeat 0 20 ++ [3; 3; 255; 2; 200; 1; 1; 1]) demo_fdata) as (r & td' & H1 & H2 & _).
  - split; vm_compute; intuition congruence.
  - by exists r, td'.
Defined.

(** C31. [ipf_state_tcp] always completes on a connection whose entry is queued.
    A SYN on a connection that is closing on both sides closes the sender's side
    and hands the entry to the queue of entries to delete; any other packet that
    the window (or a loose rule) lets through ages the connection by one step of
    the state machine and is refused exactly when that step is; every other
    packet is refused, marked out of window, and changes no queue and no state. *)
Theorem state_tcp_packet be ticks newisn tcptq deletetq tcp m w Q c fl :
  let x := is_sti (w_is w) in let fin := w_fin w in let e := mk_event ticks fin tcp 1 in
  conn_ok tcptq x (w_heap w) Q -> is_Some (Q !! deletetq) -> states (w_heap w) x = Some c ->
  flags_of (w_heap w) x = Some fl -> used_states c -> fin_rev fin = 0 \/ fin_rev fin = 1 ->
  opts_present fin tcp m ->
  exists r w' Q', ipf_state_tcp be ticks newisn tcptq deletetq tcp m w = Some (r, w') /\
    conn_ok tcptq x (w_heap w') Q' /\
    if reopens tcp c then
      r = 0 /\ on_queue Q' x deletetq /\
      states (w_heap w') x = Some (set_side (1 - tcp_source be fin (w_is w)) IPF_TCPS_CLOSED c)
    else if lets_through be fin (w_is w) tcp then
      r = (if snd (verdict (is_flags (w_is w)) e c) =? 0 then 0 else 1) /\
      states (w_heap w') x = Some (age (is_flags (w_is w)) e c)
    else r = 0 /\ w_heap w' = w_heap w /\ w_fin w' = or_flx FI_OOW fin.
Proof.
  intros x fin e Hc Hd Hs Hf Hu Hr Hp. destruct (reopens tcp c) eqn:Hro.
  - destruct (state_tcp_reopen be ticks newisn tcptq deletetq tcp m w Q c fl Hc Hd Hs Hf Hu Hro)
      as (w' & Q' & ? & ? & ? & ?). by exists 0, w', Q'.
  - destruct (lets_through be fin (w_is w) tcp) eqn:Hl.
    + destruct (state_tcp_accepted be ticks newisn tcptq deletetq tcp m w Q c fl Hc Hs Hf Hu Hr Hp Hro Hl)
        as (w' & Q' & ? & ? & ?). eexists _, w', Q'. by split_and!.
    + destruct (state_tcp_rejected be ticks newisn tcptq deletetq tcp m w c Hs Hu Hro Hl) as (w' & ? & Eh & ?).
      exists 0, w', Q. rewrite Eh. by split_and!.
Qed.
Definition demo_world : tcpworld :=
  mk_tcpworld demo_tcp
    (mk_ipstate IS_TCPFSM 0 0 10%positive (mk_tcpdata 1000 70000 65535 0 0 0, mk_tcpdata 0 65535 1 0 0 0) (0, 0) (0, 0) (0, 0)
       i6_zero i6_zero IPPROTO_TCP 4 0)
    (fin_zero <| fin_dlen := 20 |> <| fin_plen := 20 |>).
Lemma state_tcp_packet_witness :
  exists r w' Q', ipf_state_tcp false 5 77 demo_tab 1%positive (mk_tcphdr 1000 0 5 TH_SYN 512 0) (repeat 0 20) demo_world
      = Some (r, w') /\ r = 1 /\ states (w_heap w') 10%positive = Some (IPF_TCPS_SYN_SENT, IPF_TCPS_LISTEN) /\
    conn_ok demo_tab 10%positive (w_heap w') Q'.
Proof.
  destruct (state_tcp_packet false 5 77 demo_tab 1%positive (mk_tcphdr 1000 0 5 TH_SYN 512 0) (repeat 0 20) demo_world
    demo_tcp_queues (0, 0) 0 demo_tcp_ok) as (r & w' & Q' & H1 & H2 & H3 & H4).
  - by eexists.
  - reflexivity.
  - reflexivity.
  - vm_compute; intuition congruence.
  - by left.
  - split; vm_compute; intuition congruence.
  - exists r, w', Q'. split_and!; [exact H1|exact H3|exact H4|exact H2].
Defined.

(** C32. Rewriting initial sequence numbers.  Once a SYN with sequence number
    [old] was given the new number [newisn], every outgoing segment of that side
    moves by [newisn - old] and every acknowledgement that comes back moves back
    by it, modulo 2^32.  The TCP checksum of the rewritten segment stays valid
    exactly when the number wraps around as often as the first one did: past the
    wrap the correction, which was computed once, is off by one. *)
Theorem fixoutisn_checksum be newisn fin0 tcp0 st0 fin fin' tcp rest :
  fin_rev fin0 = 0 -> has (is_flags st0) IS_ISNSYN = false -> is_u32 (th_seq tcp0) -> is_u32 newisn ->
  fin_rev fin = 0 -> fin_cksum fin < FI_CK_L4PART -> is_u32 (th_seq tcp) -> is_u16 (th_sum tcp) ->
  fin_rev fin' = 1 -> fin_cksum fin' < FI_CK_L4PART ->
  verifies (rest + field32 be (th_seq tcp) + th_sum tcp) ->
  let st := ipf_checknewisn newisn fin0 tcp0 st0 in
  let out := ipf_fixoutisn be fin st tcp in
  th_seq out = u32 (th_seq tcp + (newisn - th_seq tcp0)) /\
  (forall back, th_ack back = th_seq out -> th_ack (ipf_fixinisn be fin' st back) = th_seq tcp) /\
  (verifies (rest + field32 be (th_seq out) + th_sum out) <->
   th_seq out - th_seq tcp = newisn - th_seq tcp0).
Proof.
  intros Hr0 Hf0 Ho Hn Hr Hc Hs Hsum Hr' Hc' Hv st out.
  destruct (checknewisn_run newisn fin0 tcp0 st0 Hr0 Hf0) as (Ei & Es & Ef). fold st in Ei, Es, Ef.
  assert (Eout : out = adjust_seq be st 0 tcp) by by apply fixoutisn_run.
  destruct (i32_mod (newisn - th_seq tcp0)) as [k2 E2].
  assert (Eseq : th_seq out = u32 (th_seq tcp + i32 (u32 (newisn - th_seq tcp0)))) by by rewrite Eout, <- Ei.
  split_and!.
  - rewrite Eseq, E2. unfold u32. rewrite Z.add_assoc. apply Z_mod_plus_full.
  - intros back Eb. rewrite fixinisn_run by done. simpl. unfold idx. simpl. rewrite Ei, Eb, Eseq, u32_sub_l.
    replace (_ - _) with (th_seq tcp) by lia. by apply u32_id.
  - destruct (adjust_seq_total be rest (th_sum tcp) (th_seq tcp) (th_seq tcp0) newisn Hsum Hs Ho Hn) as (k & Ek & Hk & Ev).
    rewrite <- Eseq in Ek.
    assert (Esum : th_sum out = ipf_fix_outcksum be 0 (th_sum tcp) (u16 (u32 (Z.land (CALC_SUMD u32 (th_seq tcp0) newisn) 0xffff +
       Z.shiftr (CALC_SUMD u32 (th_seq tcp0) newisn) 16))) 0) by by rewrite Eout, <- Es.
    rewrite <- Esum, <- Eseq in Ev. rewrite Ev, Ek. clear Ev.
    rewrite verifies_iff in Hv |- *. rewrite Hv, Z.add_0_l.
    split; [|intros Hz; replace k with 0 by lia; by rewrite Z.mul_0_r].
    intros [j Hj]%eqm_ex. assert (k = 0) by (destruct be; simpl in Hj; lia). lia.
Qed.

(** The fixed point of the example: a segment at sequence number 10 whose SYN had
    0xffffff00 and was given 16, so both moves wrap. *)
Lemma fixoutisn_checksum_witness :
  let st0 := w_is demo_world in
  let st := ipf_checknewisn 16 fin_zero (mk_tcphdr 0xffffff00 0 5 TH_SYN 512 0) st0 in
  let out := ipf_fixoutisn false fin_zero st (mk_tcphdr 0xffffffff 0 5 TH_ACK 512 0) in
  th_seq out = 271 /\ verifies (0 + field32 false 271 + th_sum out).
Proof.
  destruct (fixoutisn_checksum false 16 fin_zero (mk_tcphdr 0xffffff00 0 5 TH_SYN 512 0) (w_is demo_world) fin_zero
    (fin_zero <| fin_rev := 1 |>) (mk_tcphdr 0xffffffff 0 5 TH_ACK 512 0) 0) as (H1 & _ & H3);
    [vm_compute; intuition congruence..|].
  split; [exact H1|]. change 271 with (u32 (0xffffffff + (16 - 0xffffff00))) at 1.
  apply H3. vm_compute. reflexivity.
Defined.
