(* ===== verification/Frag.v ===== *)
(** The fragment cache of ip_frag.c: three tables (filter, NAT and IP ID
    fragments), each a hash table of chains and a list in order of age.

    Entries live on a heap; a chain or a list is the sequence of the entries met
    by following its links ([ipfr_hnext], [ipfr_next]).  The pointer-to-pointer
    idiom of the links is the one that Timeoutq.v treats link by link.  An entry
    that was freed while a chain still leads to it stays in the sequence and can
    no longer be read. *)
From Stdlib Require Import Sorted.
From S2P Require Import Prelude Packet.

(** ** State *)

(** The part of an entry between [ipfr_ifp] and [ipfr_pass], which is compared
    and copied as a block of bytes ([IPFR_CMPSZ]). *)
Record fkey := mk_fkey {
  ipfr_ifp : option loc; ipfr_source : i6addr; ipfr_dest : i6addr;
  ipfr_optmsk : Z; ipfr_secmsk : Z; ipfr_auth : Z; ipfr_id : Z }.
#[export] Instance fkey_eq_dec : EqDecision fkey.
Proof. solve_decision. Defined.

(** [ipfr_data]: null, a NAT entry or an IP ID, by table. *)
Inductive frag_data := NullData | NatData (nat : loc) | IdData (id : Z).
#[export] Instance frag_data_eq_dec : EqDecision frag_data.
Proof. solve_decision. Defined.

Record ipfr := mk_ipfr {
  ipfr_data : frag_data; ipfr_rule : option loc; ipfr_ttl : Z; ipfr_pkts : Z; ipfr_bytes : Z;
  ipfr_badorder : Z; ipfr_ref : Z; ipfr_off : Z; ipfr_firstend : Z; ipfr_p : Z; ipfr_seen0 : Z;
  ipfr_cmp : fkey; ipfr_pass : Z; ipfr_v : Z }.
#[export] Instance eta_ipfr : Eta ipfr := fun r =>
  mk_ipfr (ipfr_data r) (ipfr_rule r) (ipfr_ttl r) (ipfr_pkts r) (ipfr_bytes r) (ipfr_badorder r)
    (ipfr_ref r) (ipfr_off r) (ipfr_firstend r) (ipfr_p r) (ipfr_seen0 r) (ipfr_cmp r) (ipfr_pass r)
    (ipfr_v r).

Inductive ftab := Heads | Nattab | Ipidtab.
#[export] Instance ftab_eq_dec : EqDecision ftab.
Proof. solve_decision. Defined.

(** A filter rule, as the cache sees it. *)
Record frule := mk_frule { fr_flags : Z; fr_ref : Z }.
#[export] Instance eta_frule : Eta frule := fun r => mk_frule (fr_flags r) (fr_ref r).

(** The context [ipf_frag_softc_t], the tick counter, and the rules and NAT entries
    that the cache refers to ([nat_data] of each). *)
Record fragw := mk_fragw {
  frags : gmap loc ipfr; chain : ftab -> Z -> list loc; flist : ftab -> list loc;
  softf_size : Z; softf_ttl : Z; ipfr_lock : Z; ifs_inuse : Z; ipf_ticks : Z;
  rules : gmap loc frule; nat_data : gmap loc (option loc) }.
#[export] Instance eta_fragw : Eta fragw := fun r =>
  mk_fragw (frags r) (chain r) (flist r) (softf_size r) (softf_ttl r) (ipfr_lock r) (ifs_inuse r)
    (ipf_ticks r) (rules r) (nat_data r).

Definition IPF_OPTCOPY : Z := 0x07ff00.
(** [sizeof(struct ip6_frag)]. *)
Definition sizeof_ip6_frag : Z := 8.

(** ** Access *)

Definition frag {A} (f : ipfr -> A) (x : loc) : ST fragw A := fun w => e ← frags w !! x; Some (f e, w).
Definition upd_frag (x : loc) (f : ipfr -> ipfr) : ST fragw unit := fun w =>
  _ ← frags w !! x; Some (tt, w <| frags ::= alter f x |>).
Definition set_chain (t : ftab) (i : Z) (l : list loc) (w : fragw) : fragw :=
  w <| chain := fun t' i' => if decide (t' = t) then if i' =? i then l else chain w t' i' else chain w t' i' |>.
Definition set_flist (t : ftab) (l : list loc) (w : fragw) : fragw :=
  w <| flist := fun t' => if decide (t' = t) then l else flist w t' |>.
Definition upd_rule (r : loc) (f : frule -> frule) : ST fragw unit := fun w =>
  _ ← rules w !! r; Some (tt, w <| rules ::= alter f r |>).

(** ** Operations *)

(** The fields of the search key, and the hash of the packet. *)
Definition frag_key (fin : fr_info) : fkey :=
  mk_fkey (fin_ifp fin) (fin_src6 fin) (fin_dst6 fin) (Z.land (fi_optmsk (fin_fi fin)) IPF_OPTCOPY)
    (u16 (fi_secmsk (fin_fi fin))) (u16 (fi_auth (fin_fi fin))) (fin_id fin).
Definition frag_idx (size : Z) (fin : fr_info) : Z :=
  let idx := u32 (fin_v fin) in
  let idx := u32 (idx + fin_p fin) in
  let idx := u32 (idx + fin_id fin) in
  let idx := u32 (idx + fin_saddr fin) in
  let idx := u32 (idx + fin_daddr fin) in
  let idx := u32 (idx * 127) in
  idx mod size.

(** Where the data of the first fragment ends, in units of 8 bytes. *)
Definition frag_firstend (fin : fr_info) : Z :=
  if Z.shiftr (fin_off fin) 3 =? 0 then
    let ptr := if fin_v fin =? 6 then fin_fraghdr fin + sizeof_ip6_frag else fin_dp fin in
    u16 (Z.shiftr (fin_plen fin - ptr) 3)
  else 0.

(** [for (fra = table[idx]; ...) if (!bcmp(...))]: the first entry with the key;
    reading a freed entry is stuck. *)
Fixpoint find_key (k : fkey) (l : list loc) : ST fragw (option loc) :=
  match l with
  | [] => mret None
  | x :: l => k' ← frag ipfr_cmp x; if decide (k = k') then mret (Some x) else find_key k l
  end.

(** [ipfr_frag_new]; [alloc] is what [KMALLOC] returns: an unused location with
    arbitrary contents, or null. *)
Definition ipfr_frag_new (t : ftab) (fin : fr_info) (pass : Z) (alloc : option (loc * ipfr)) :
    ST fragw (option loc) :=
  w ← gets id;
  if ifs_inuse w >=? softf_size w then mret None else
  if negb (Z.land (fin_flx fin) (Z.lor FI_FRAG FI_BAD) =? FI_FRAG) then mret None else
  if has pass FR_FRSTRICT && negb (fin_off fin =? 0) then mret None else
  let idx := frag_idx (softf_size w) fin in
  let off := Z.shiftr (fin_off fin) 3 in
  match alloc with
  | None => mret None
  | Some (fran, junk) =>
      modify (fun w => w <| frags ::= <[fran := junk]> |>);;
      found ← find_key (frag_key fin) (chain w t idx);
      match found with
      | Some fra => modify (fun w => w <| frags ::= delete fra |>);; mret None   (* KFREE(fra) *)
      | None =>
          let fra := fran in
          upd_frag fra (fun e => e <| ipfr_rule := fin_fr fin |>);;
          match fin_fr fin with
          | Some fr => upd_rule fr (fun r => r <| fr_ref ::= fun x => x + 1 |>)
          | None => mret tt
          end;;
          upd_frag fra (fun e => e <| ipfr_data := NullData |>);;
          modify (set_chain t idx (fra :: chain w t idx));;
          upd_frag fra (fun e => e <| ipfr_cmp := frag_key fin |> <| ipfr_v := fin_v fin |>
                                   <| ipfr_ttl := ipf_ticks w + softf_ttl w |>
                                   <| ipfr_firstend := frag_firstend fin |>);;
          when_ (off =? 0) (upd_frag fra (fun e => e <| ipfr_seen0 := 1 |>));;
          upd_frag fra (fun e => e <| ipfr_off := u16 (off + Z.shiftr (fin_dlen fin) 3) |>
                                   <| ipfr_pass := pass |> <| ipfr_ref := 1 |> <| ipfr_pkts := 1 |>
                                   <| ipfr_bytes := u32 (fin_plen fin) |>);;
          modify (fun w => w <| ifs_inuse ::= fun x => x + 1 |>);;
          mret (Some fra)
      end
  end.

(** [*tail = fra; ...; tail = &fra->ipfr_next]. *)
Definition frag_append (t : ftab) (fra : loc) : ST fragw unit :=
  modify (fun w => set_flist t (flist w t ++ [fra]) w).

Definition ipf_frag_new (fin : fr_info) (pass : Z) (alloc : option (loc * ipfr)) : ST fragw Z :=
  lock ← gets ipfr_lock;
  if negb (lock =? 0) then mret (-1) else
  fra ← ipfr_frag_new Heads fin pass alloc;
  match fra with
  | Some fra => frag_append Heads fra;; mret 0
  | None => mret (-1)
  end.

Definition ipf_frag_natnew (fin : fr_info) (pass : Z) (nat : loc) (alloc : option (loc * ipfr)) : ST fragw Z :=
  lock ← gets ipfr_lock;
  if negb (lock =? 0) then mret 0 else
  fra ← ipfr_frag_new Nattab fin pass alloc;
  match fra with
  | Some fra =>
      upd_frag fra (fun e => e <| ipfr_data := NatData nat |>);;
      modify (fun w => w <| nat_data ::= <[nat := Some fra]> |>);;
      frag_append Nattab fra;; mret 0
  | None => mret (-1)
  end.

Definition ipf_frag_ipidnew (fin : fr_info) (ipid : Z) (alloc : option (loc * ipfr)) : ST fragw Z :=
  lock ← gets ipfr_lock;
  if negb (lock =? 0) then mret 0 else
  fra ← ipfr_frag_new Ipidtab fin 0 alloc;
  match fra with
  | Some fra =>
      upd_frag fra (fun e => e <| ipfr_data := IdData ipid |>);;
      frag_append Ipidtab fra;; mret 0
  | None => mret (-1)
  end.

(** Moving the entry found to the top of its chain; [rest] is what follows it.
    The result is what follows it afterwards. *)
Definition move_to_top (t : ftab) (idx : Z) (f : loc) (rest : list loc) : ST fragw (list loc) :=
  w ← gets id;
  if decide (head (chain w t idx) = Some f) then mret rest
  else
    modify (set_chain t idx (f :: without f (chain w t idx)));;
    mret (without f (chain w t idx)).

(** The loop of [ipf_frag_lookup] from the entry at the front of [l] on.  The
    result is the entry, if any, and whether the packet was found to overlap the
    first fragment ([FI_BAD]). *)
Fixpoint lookup_loop (fuel : nat) (t : ftab) (idx : Z) (fin : fr_info) (l : list loc) :
    ST fragw (option loc * bool) :=
  match l with
  | [] => mret (None, false)
  | f :: rest =>
      match fuel with
      | O => stuck
      | S fuel =>
          e ← frag id f;
          if negb (bool_decide (frag_key fin = ipfr_cmp e)) then lookup_loop fuel t idx fin rest
          else
            let off := u16 (Z.shiftr (fin_off fin) 3) in
            if negb (ipfr_seen0 e =? 0) && (off =? 0) then lookup_loop fuel t idx fin rest
            else if negb (ipfr_seen0 e =? 0) && negb (ipfr_firstend e =? 0) && (off <? ipfr_firstend e)
            then mret (None, true)
            else
              when_ ((ipfr_seen0 e =? 0) && (off =? 0)) (upd_frag f (fun e => e <| ipfr_seen0 := 1 |>));;
              rest ← move_to_top t idx f rest;
              if negb (off =? ipfr_off e) && has (ipfr_pass e) FR_FRSTRICT then
                upd_frag f (fun e => e <| ipfr_badorder ::= fun x => u32 (x + 1) |>);;
                lookup_loop fuel t idx fin rest
              else
                (if off =? ipfr_off e
                 then upd_frag f (fun e => e <| ipfr_off := u16 (Z.shiftr (fin_dlen fin) 3 + off) |>)
                 else upd_frag f (fun e => e <| ipfr_badorder ::= fun x => u32 (x + 1) |>));;
                upd_frag f (fun e => e <| ipfr_pkts ::= fun x => u32 (x + 1) |>
                                       <| ipfr_bytes ::= fun x => u32 (x + fin_plen fin) |>);;
                mret (Some f, false)
      end
  end.

(** [ipf_frag_lookup]: the entry and the packet summary. *)
Definition ipf_frag_lookup (fuel : nat) (t : ftab) (fin : fr_info) : ST fragw (option loc * fr_info) :=
  if has (fin_flx fin) FI_SHORT then mret (None, fin) else
  if has (fin_flx fin) FI_BAD then mret (None, fin) else
  w ← gets id;
  let idx := frag_idx (softf_size w) fin in
  r ← lookup_loop fuel t idx fin (chain w t idx);
  mret (fst r, if (snd r : bool) then or_flx FI_BAD fin else fin).

Definition ipf_frag_natknown (fuel : nat) (fin : fr_info) : ST fragw (option loc * fr_info) :=
  w ← gets id;
  if negb (ipfr_lock w =? 0) || bool_decide (flist w Nattab = []) then mret (None, fin) else
  r ← ipf_frag_lookup fuel Nattab fin;
  match fst r with
  | Some ipf =>
      e ← frag id ipf;
      match ipfr_data e with
      | NatData nat =>
          when_ (ipfr_ttl e =? ipf_ticks w + 1)
            (modify (fun w => w <| nat_data ::= <[nat := None]> |>);;
             upd_frag ipf (fun e => e <| ipfr_data := NullData |>));;
          mret (Some nat, snd r)
      | _ => mret (None, snd r)
      end
  | None => mret (None, snd r)
  end.

Definition ipf_frag_ipidknown (fuel : nat) (fin : fr_info) : ST fragw (Z * fr_info) :=
  w ← gets id;
  if negb (ipfr_lock w =? 0) || bool_decide (flist w Ipidtab = []) then mret (0xffffffff, fin) else
  r ← ipf_frag_lookup fuel Ipidtab fin;
  match fst r with
  | Some ipf =>
      d ← frag ipfr_data ipf;
      mret (match d with IdData id => id | _ => 0 end, snd r)
  | None => mret (0xffffffff, snd r)
  end.

(** The flags that a cached rule hands on, and the summary. *)
Definition frag_pass (pass : Z) (fin : fr_info) : Z * fr_info :=
  let '(pass, fin) := if has pass FR_KEEPSTATE then (clear pass FR_KEEPSTATE, or_flx FI_STATE fin)
                      else (pass, fin) in
  (if has pass FR_LOGFIRST then clear pass (Z.lor FR_LOGFIRST FR_LOG) else pass, fin).

(** [ipf_frag_known]; [ipfr_block] is the address of the static rule, [passp] the
    value the caller's variable holds. *)
Definition ipf_frag_known (ipfr_block : loc) (fuel : nat) (fin : fr_info) (passp : Z) :
    ST fragw (option loc * Z * fr_info) :=
  w ← gets id;
  if negb (ipfr_lock w =? 0) || bool_decide (flist w Heads = []) then mret (None, passp, fin) else
  r ← ipf_frag_lookup fuel Heads fin;
  let fin := snd r in
  match fst r with
  | Some fra =>
      rule ← frag ipfr_rule fra;
      let '(fr, fin) := if has (fin_flx fin) FI_BAD then (Some ipfr_block, fin <| fin_reason := FRB_BADFRAG |>)
                        else (rule, fin) in
      let fin := fin <| fin_fr := fr |> in
      match fr with
      | Some r =>
          w ← gets id;
          rl ← need (rules w !! r);
          let '(pass, fin) := frag_pass (fr_flags rl) fin in
          mret (fr, pass, fin)
      | None => mret (None, passp, fin)
      end
  | None => mret (None, passp, fin)
  end.

(** [for (fr = softf->ipfr_natlist; fr; fr = fr->ipfr_next)]. *)
Fixpoint natforget_loop (ptr : loc) (l : list loc) : ST fragw unit :=
  match l with
  | [] => mret tt
  | x :: l =>
      d ← frag ipfr_data x;
      when_ (bool_decide (d = NatData ptr)) (upd_frag x (fun e => e <| ipfr_data := NullData |>));;
      natforget_loop ptr l
  end.
Definition ipf_frag_natforget (ptr : loc) : ST fragw unit :=
  l ← gets (fun w => flist w Nattab); natforget_loop ptr l.

(** [ipf_derefrule]: a rule whose last reference goes is freed (what it owns is
    released with it and not modelled here). *)
Definition rule_deref (r : loc) : ST fragw unit :=
  upd_rule r (fun r => r <| fr_ref ::= fun x => x - 1 |>);;
  w ← gets id;
  rl ← need (rules w !! r);
  when_ (fr_ref rl =? 0) (modify (fun w => w <| rules ::= delete r |>)).

Definition ipf_frag_free (fra : loc) : ST fragw unit :=
  _ ← frag id fra;
  modify (fun w => w <| frags ::= delete fra |> <| ifs_inuse ::= fun x => x - 1 |>).

(** [ipf_frag_delete]: the entry leaves its list and its chain, wherever it is on
    them. *)
Definition ipf_frag_delete (t : ftab) (fra : loc) : ST fragw unit :=
  modify (fun w => set_flist t (without fra (flist w t)) w);;
  modify (fun w => w <| chain := fun t' i => if decide (t' = t) then without fra (chain w t' i) else chain w t' i |>);;
  rule ← frag ipfr_rule fra;
  match rule with
  | Some r => rule_deref r;; upd_frag fra (fun e => e <| ipfr_rule := None |>)
  | None => mret tt
  end;;
  ref ← frag ipfr_ref fra;
  when_ (ref <=? 0) (ipf_frag_free fra).

(** A NAT entry that points at the dying entry forgets it. *)
Definition nat_unlink (fra : loc) : ST fragw unit :=
  d ← frag ipfr_data fra;
  match d with
  | NatData nat =>
      w ← gets id;
      nd ← need (nat_data w !! nat);
      when_ (bool_decide (nd = Some fra)) (modify (fun w => w <| nat_data ::= <[nat := None]> |>))
  | _ => mret tt
  end.

(** The removal loops: [while ((fra = list) != NULL)] of [ipf_frag_clear] removes
    everything, the loops of [ipf_frag_expire] stop at the first entry whose time
    has not come. *)
Fixpoint frag_purge (fuel : nat) (t : ftab) (expire : bool) : ST fragw unit :=
  w ← gets id;
  match flist w t with
  | [] => mret tt
  | fra :: _ =>
      match fuel with
      | O => stuck
      | S fuel =>
          ttl ← frag ipfr_ttl fra;
          if expire && (ttl >? ipf_ticks w) then mret tt
          else
            when_ (bool_decide (t = Nattab)) (nat_unlink fra);;
            upd_frag fra (fun e => e <| ipfr_ref ::= fun x => x - 1 |>);;
            ipf_frag_delete t fra;;
            frag_purge fuel t expire
      end
  end.

Definition ipf_frag_clear (fuel : nat) : ST fragw unit :=
  frag_purge fuel Heads false;;
  modify (set_flist Heads []);;
  frag_purge fuel Nattab false;;
  modify (set_flist Nattab []).

Definition ipf_frag_expire (fuel : nat) : ST fragw unit :=
  lock ← gets ipfr_lock;
  if negb (lock =? 0) then mret tt else
  frag_purge fuel Heads true;;
  frag_purge fuel Ipidtab true;;
  l ← gets (fun w => flist w Nattab);
  when_ (negb (bool_decide (l = []))) (frag_purge fuel Nattab true).

(** ** Well-formed caches *)

Definition key_of (w : fragw) (x : loc) : option fkey := ipfr_cmp <$> frags w !! x.
Definition rule_of (w : fragw) (x : loc) : option (option loc) := ipfr_rule <$> frags w !! x.

Record frag_wf (w : fragw) : Prop := {
  wf_nodup : forall t, NoDup (flist w t);
  wf_alloc : forall t x, x ∈ flist w t -> is_Some (frags w !! x);
  wf_one_list : forall t t' x, x ∈ flist w t -> x ∈ flist w t' -> t = t';
  wf_chain_nodup : forall t i, NoDup (chain w t i);
  wf_chain_list : forall t i x, x ∈ chain w t i -> x ∈ flist w t;
  wf_list_chain : forall t x, x ∈ flist w t -> exists i, x ∈ chain w t i;
  wf_one_chain : forall t i j x, x ∈ chain w t i -> x ∈ chain w t j -> i = j;
  wf_keys : forall t i x y, x ∈ chain w t i -> y ∈ chain w t i -> key_of w x = key_of w y -> x = y }.

(** Two caches that differ in the contents of the entry [f] and in the order of
    its chain. *)
Record touches (f : loc) (e' : ipfr) (t : ftab) (idx : Z) (w w' : fragw) : Prop := {
  to_frags : frags w' = <[f := e']> (frags w);
  to_chain : chain w' t idx ≡ₚ chain w t idx;
  to_others : forall t' i, (t', i) <> (t, idx) -> chain w' t' i = chain w t' i;
  to_flist : flist w' = flist w;
  to_rest : softf_size w' = softf_size w /\ softf_ttl w' = softf_ttl w /\ ipfr_lock w' = ipfr_lock w /\
            ifs_inuse w' = ifs_inuse w /\ ipf_ticks w' = ipf_ticks w /\ rules w' = rules w /\
            nat_data w' = nat_data w }.

Lemma touches_wf f e e' t idx w w' :
  frag_wf w -> frags w !! f = Some e -> ipfr_cmp e' = ipfr_cmp e -> touches f e' t idx w w' -> frag_wf w'.
Proof.
  intros [W1 W2 W3 W4 W5 W6 W7 W8] Hf Hk [T1 T2 T3 T4 T5].
  assert (Hin : forall t' i x, x ∈ chain w' t' i <-> x ∈ chain w t' i).
  { intros t' i x. destruct (decide ((t', i) = (t, idx))) as [[= -> ->]|Hne]; [by rewrite T2|by rewrite T3]. }
  assert (Hky : forall x, key_of w' x = key_of w x).
  { intros x. unfold key_of. rewrite T1. destruct (decide (f = x)) as [<-|];
      [rewrite lookup_insert_eq, Hf; simpl; by rewrite Hk|by rewrite lookup_insert_ne]. }
  split; rewrite ?T4; try done.
  - intros t' x Hx. rewrite T1. destruct (decide (f = x)) as [<-|]; [rewrite lookup_insert_eq; by eexists|].
    rewrite lookup_insert_ne by done. by eapply W2.
  - intros t' i. destruct (decide ((t', i) = (t, idx))) as [[= -> ->]|Hne]; [rewrite T2; apply W4|rewrite T3; done].
  - intros t' i x. rewrite Hin. apply W5.
  - intros t' x Hx. destruct (W6 t' x Hx) as [i Hi]. exists i. by rewrite Hin.
  - intros t' i j x. rewrite !Hin. apply W7.
  - intros t' i x y. rewrite !Hin, !Hky. apply W8.
Qed.

Lemma touches_refl f e t idx w : frags w !! f = Some e -> touches f e t idx w w.
Proof. intros Hf. split; try done. by rewrite insert_id. Qed.
Lemma touches_trans f e1 e2 t idx w1 w2 w3 :
  touches f e1 t idx w1 w2 -> touches f e2 t idx w2 w3 -> touches f e2 t idx w1 w3.
Proof.
  intros [A1 A2 A3 A4 A5] [B1 B2 B3 B4 B5]. split.
  - by rewrite B1, A1, insert_insert_eq.
  - by rewrite B2, A2.
  - intros. by rewrite B3, A3.
  - by rewrite B4, A4.
  - decompose [and] A5. decompose [and] B5. split_and!; congruence.
Qed.

(** *** Primitive steps *)

Lemma frag_run {A} (f : ipfr -> A) x w e : frags w !! x = Some e -> frag f x w = Some (f e, w).
Proof. intros E. unfold frag. by rewrite E. Qed.
Lemma upd_frag_run x f w e t idx : frags w !! x = Some e ->
  exists w', upd_frag x f w = Some (tt, w') /\ touches x (f e) t idx w w' /\ chain w' = chain w.
Proof.
  intros E. unfold upd_frag. rewrite E. eexists. split; [done|]. split; [|done]. split; try done.
  simpl. apply map_eq. intros i. rewrite lookup_alter. case_decide; subst.
  - by rewrite lookup_insert_eq, E.
  - by rewrite lookup_insert_ne.
Qed.

(** *** The search *)

Lemma lookup_loop_miss t idx fin w l : forall fuel,
  (forall x, x ∈ l -> exists e, frags w !! x = Some e /\ ipfr_cmp e <> frag_key fin) ->
  (length l <= fuel)%nat -> lookup_loop fuel t idx fin l w = Some ((None, false), w).
Proof.
  induction l as [|x l IH]; intros fuel Hl Hf; [by destruct fuel|].
  destruct fuel as [|fuel]; [simpl in Hf; lia|]. cbn [lookup_loop].
  destruct (Hl x ltac:(by left)) as (e & He & Hk).
  rewrite (bind_eq _ _ _ e w) by by apply (frag_run id).
  rewrite bool_decide_eq_false_2 by congruence. cbn [negb]. apply IH; [|simpl in Hf; lia].
  intros y Hy. apply Hl. by right.
Qed.

Lemma lookup_loop_skip t idx fin w pre l : forall fuel,
  (forall x, x ∈ pre -> exists e, frags w !! x = Some e /\ ipfr_cmp e <> frag_key fin) ->
  lookup_loop (length pre + fuel) t idx fin (pre ++ l) w = lookup_loop fuel t idx fin l w.
Proof.
  induction pre as [|x pre IH]; intros fuel Hl; [done|]. cbn [length app Nat.add lookup_loop].
  destruct (Hl x ltac:(by left)) as (e & He & Hk).
  rewrite (bind_eq _ _ _ e w) by by apply (frag_run id).
  rewrite bool_decide_eq_false_2 by congruence. cbn [negb]. apply IH.
  intros y Hy. apply Hl. by right.
Qed.

(** What a fragment is to the entry of its datagram. *)
Inductive outcome := Retrans | Overlap | OutOfOrder | Hit.
#[export] Instance outcome_eq_dec : EqDecision outcome.
Proof. solve_decision. Defined.

Definition frag_off (fin : fr_info) : Z := u16 (Z.shiftr (fin_off fin) 3).
Definition classify (fin : fr_info) (e : ipfr) : outcome :=
  if negb (ipfr_seen0 e =? 0) && (frag_off fin =? 0) then Retrans
  else if negb (ipfr_seen0 e =? 0) && negb (ipfr_firstend e =? 0) && (frag_off fin <? ipfr_firstend e) then Overlap
  else if negb (frag_off fin =? ipfr_off e) && has (ipfr_pass e) FR_FRSTRICT then OutOfOrder
  else Hit.

Definition see0 (fin : fr_info) (e : ipfr) : ipfr :=
  if (ipfr_seen0 e =? 0) && (frag_off fin =? 0) then e <| ipfr_seen0 := 1 |> else e.
Definition entry_after (fin : fr_info) (e : ipfr) : ipfr :=
  match classify fin e with
  | Retrans | Overlap => e
  | OutOfOrder => see0 fin e <| ipfr_badorder ::= fun x => u32 (x + 1) |>
  | Hit =>
      let e := see0 fin e in
      let e := if frag_off fin =? ipfr_off e then e <| ipfr_off := u16 (Z.shiftr (fin_dlen fin) 3 + frag_off fin) |>
               else e <| ipfr_badorder ::= fun x => u32 (x + 1) |> in
      e <| ipfr_pkts ::= fun x => u32 (x + 1) |> <| ipfr_bytes ::= fun x => u32 (x + fin_plen fin) |>
  end.

Lemma see0_same fin e : ipfr_off (see0 fin e) = ipfr_off e /\ ipfr_pass (see0 fin e) = ipfr_pass e /\
  ipfr_cmp (see0 fin e) = ipfr_cmp e /\ ipfr_rule (see0 fin e) = ipfr_rule e /\ ipfr_ttl (see0 fin e) = ipfr_ttl e /\
  ipfr_ref (see0 fin e) = ipfr_ref e /\ ipfr_data (see0 fin e) = ipfr_data e.
Proof. unfold see0. by case_match. Qed.
Lemma entry_after_same fin e : ipfr_cmp (entry_after fin e) = ipfr_cmp e /\ ipfr_rule (entry_after fin e) = ipfr_rule e /\
  ipfr_ttl (entry_after fin e) = ipfr_ttl e /\ ipfr_ref (entry_after fin e) = ipfr_ref e /\
  ipfr_data (entry_after fin e) = ipfr_data e /\ ipfr_pass (entry_after fin e) = ipfr_pass e.
Proof.
  unfold entry_after. pose proof (see0_same fin e) as (? & ? & ? & ? & ? & ? & ?).
  destruct (classify fin e); [done|done|by split_and!|]. case_match; by split_and!.
Qed.

Lemma move_to_top_run t idx f pre post w e :
  NoDup (chain w t idx) -> chain w t idx = pre ++ f :: post -> frags w !! f = Some e ->
  exists w' rest, move_to_top t idx f post w = Some (rest, w') /\ touches f e t idx w w' /\
    (forall x, x ∈ rest -> x ∈ pre ++ post) /\ (length rest <= length (pre ++ post))%nat.
Proof.
  intros Hnd Hc He. unfold move_to_top. rewrite (bind_eq _ _ _ w w) by done. rewrite Hc in Hnd |- *.
  case_decide as Hh.
  - exists w, post. split; [done|]. split; [by apply touches_refl|]. split; [set_solver|rewrite length_app; lia].
  - rewrite without_mid by (by apply mid_notin). eexists _, (pre ++ post). split; [done|]. split; [|by split].
    split; try done.
    + simpl. by rewrite insert_id.
    + simpl. rewrite decide_True, Z.eqb_refl, Hc by done. apply Permutation_middle.
    + intros t' i Hne. simpl. case_decide; [|done]. subst. destruct (Z.eqb_spec i idx); [congruence|done].
Qed.

Lemma touches_miss f e' t idx w w' fin (l : list loc) :
  touches f e' t idx w w' -> (f ∉ l) ->
  (forall x, x ∈ l -> exists e, frags w !! x = Some e /\ ipfr_cmp e <> frag_key fin) ->
  forall x, x ∈ l -> exists e, frags w' !! x = Some e /\ ipfr_cmp e <> frag_key fin.
Proof.
  intros [T1 _ _ _ _] Hf Hl x Hx. rewrite T1, lookup_insert_ne by (by intros ->). by apply Hl.
Qed.

Lemma lookup_loop_hit t idx fin w pre f post e fuel :
  NoDup (chain w t idx) -> chain w t idx = pre ++ f :: post ->
  (forall x, x ∈ pre ++ post -> exists e, frags w !! x = Some e /\ ipfr_cmp e <> frag_key fin) ->
  frags w !! f = Some e -> ipfr_cmp e = frag_key fin -> (2 * length (chain w t idx) <= fuel)%nat ->
  exists w', lookup_loop fuel t idx fin (chain w t idx) w
      = Some ((if decide (classify fin e = Hit) then Some f else None, bool_decide (classify fin e = Overlap)), w') /\
    touches f (entry_after fin e) t idx w w'.
Proof.
  intros Hnd Hc Hmiss He Hk Hfuel. rewrite Hc in Hnd, Hfuel. pose proof (mid_notin _ _ _ Hnd) as Hnf.
  rewrite length_app in Hfuel. simpl in Hfuel. rewrite Hc.
  replace fuel with (length pre + (fuel - length pre))%nat by lia.
  rewrite lookup_loop_skip by (intros; apply Hmiss; set_solver).
  destruct (fuel - length pre)%nat as [|n] eqn:En; [lia|]. cbn [lookup_loop].
  rewrite (bind_eq _ _ _ e w) by by apply (frag_run id).
  rewrite bool_decide_eq_true_2 by done. cbn [negb].
  assert (Hpost : lookup_loop n t idx fin post w = Some ((None, false), w)).
  { apply lookup_loop_miss; [intros; apply Hmiss; set_solver|lia]. }
  unfold classify, entry_after, classify, frag_off. set (off := u16 (Z.shiftr (fin_off fin) 3)).
  destruct (negb (ipfr_seen0 e =? 0) && (off =? 0)) eqn:E1.
  { rewrite Hpost. exists w. split; [done|by apply touches_refl]. }
  destruct (negb (ipfr_seen0 e =? 0) && negb (ipfr_firstend e =? 0) && (off <? ipfr_firstend e)) eqn:E2.
  { exists w. split; [done|by apply touches_refl]. }
  assert (exists w1, when_ ((ipfr_seen0 e =? 0) && (off =? 0)) (upd_frag f (fun e => e <| ipfr_seen0 := 1 |>)) w = Some (tt, w1) /\
    touches f (see0 fin e) t idx w w1 /\ chain w1 = chain w) as (w1 & Hw1 & Ht1 & Hc1).
  { unfold see0, frag_off. fold off. destruct ((ipfr_seen0 e =? 0) && (off =? 0)); [by apply upd_frag_run|].
    exists w. split; [done|]. split; [by apply touches_refl|done]. }
  rewrite (bind_eq _ _ _ _ _ Hw1).
  assert (He1 : frags w1 !! f = Some (see0 fin e)) by (rewrite (to_frags _ _ _ _ _ _ Ht1); apply lookup_insert_eq).
  destruct (move_to_top_run t idx f pre post w1 (see0 fin e)) as (w2 & rest & Hw2 & Ht2 & Hr & Hlen);
    [by rewrite Hc1, Hc|by rewrite Hc1|done|].
  rewrite (bind_eq _ _ _ _ _ Hw2).
  assert (Ht12 := touches_trans _ _ _ _ _ _ _ _ Ht1 Ht2).
  assert (He2 : frags w2 !! f = Some (see0 fin e)) by (rewrite (to_frags _ _ _ _ _ _ Ht12); apply lookup_insert_eq).
  destruct (negb (off =? ipfr_off e) && has (ipfr_pass e) FR_FRSTRICT) eqn:E3.
  - destruct (upd_frag_run f (fun e => e <| ipfr_badorder ::= fun x => u32 (x + 1) |>) w2 _ t idx He2) as (w3 & Hw3 & Ht3 & _).
    rewrite (bind_eq _ _ _ _ _ Hw3). pose proof (touches_trans _ _ _ _ _ _ _ _ Ht12 Ht3) as Ht.
    rewrite (lookup_loop_miss t idx fin w3 rest n); [by exists w3| |rewrite length_app in Hlen; lia].
    apply (touches_miss _ _ _ _ _ _ _ _ Ht); [intros Hf; by apply Hnf, Hr|]. intros x Hx. by apply Hmiss, Hr.
  - destruct (see0_same fin e) as (Eo & _). rewrite Eo.
    assert (exists w3 e3, (if off =? ipfr_off e
        then upd_frag f (fun e => e <| ipfr_off := u16 (Z.shiftr (fin_dlen fin) 3 + off) |>)
        else upd_frag f (fun e => e <| ipfr_badorder ::= fun x => u32 (x + 1) |>)) w2 = Some (tt, w3) /\
      touches f e3 t idx w w3 /\ frags w3 !! f = Some e3 /\
      e3 = if off =? ipfr_off e then see0 fin e <| ipfr_off := u16 (Z.shiftr (fin_dlen fin) 3 + off) |>
           else see0 fin e <| ipfr_badorder ::= fun x => u32 (x + 1) |>) as (w3 & e3 & Hw3 & Ht3 & He3 & E3').
    { destruct (off =? ipfr_off e).
      - destruct (upd_frag_run f (fun e => e <| ipfr_off := u16 (Z.shiftr (fin_dlen fin) 3 + off) |>) w2 _ t idx He2) as (w3 & Hw3 & Ht3 & _).
        eexists w3, _. split; [done|]. split; [by eapply touches_trans|]. split; [|done].
        rewrite (to_frags _ _ _ _ _ _ Ht3). apply lookup_insert_eq.
      - destruct (upd_frag_run f (fun e => e <| ipfr_badorder ::= fun x => u32 (x + 1) |>) w2 _ t idx He2) as (w3 & Hw3 & Ht3 & _).
        eexists w3, _. split; [done|]. split; [by eapply touches_trans|]. split; [|done].
        rewrite (to_frags _ _ _ _ _ _ Ht3). apply lookup_insert_eq. }
    rewrite (bind_eq _ _ _ _ _ Hw3).
    destruct (upd_frag_run f (fun e => e <| ipfr_pkts ::= fun x => u32 (x + 1) |> <| ipfr_bytes ::= fun x => u32 (x + fin_plen fin) |>)
                w3 _ t idx He3) as (w4 & Hw4 & Ht4 & _).
    rewrite (bind_eq _ _ _ _ _ Hw4). exists w4. split; [done|]. subst e3. eapply touches_trans; [exact Ht3|exact Ht4].
Qed.

(** The entry of a chain that has the packet's key. *)
Definition matching (w : fragw) (t : ftab) (fin : fr_info) : option loc :=
  head (filter (fun x => key_of w x = Some (frag_key fin)) (chain w t (frag_idx (softf_size w) fin))).

Lemma filter_head_split {A} (P : A -> Prop) `{forall x, Decision (P x)} (l : list A) x :
  head (filter P l) = Some x -> exists l1 l2, l = l1 ++ x :: l2 /\ P x /\ (forall y, y ∈ l1 -> ~ P y).
Proof.
  induction l as [|y l IH]; [done|]. rewrite filter_cons. case_decide as Hp.
  - simpl. intros [= ->]. exists [], l. split_and!; [done|done|set_solver].
  - intros Hh. destruct (IH Hh) as (l1 & l2 & -> & Hx & Hl). exists (y :: l1), l2. split_and!; [done|done|].
    intros z [->|?]%elem_of_cons; auto.
Qed.
Lemma filter_head_none {A} (P : A -> Prop) `{forall x, Decision (P x)} (l : list A) :
  head (filter P l) = None -> forall x, x ∈ l -> ~ P x.
Proof.
  intros Hh x Hx Hp. assert (x ∈ filter P l) as Hin by by apply list_elem_of_filter.
  destruct (filter P l); [set_solver|done].
Qed.

Lemma matching_split w t fin f :
  frag_wf w -> matching w t fin = Some f ->
  exists pre post e, chain w t (frag_idx (softf_size w) fin) = pre ++ f :: post /\
    frags w !! f = Some e /\ ipfr_cmp e = frag_key fin /\
    (forall x, x ∈ pre ++ post -> exists e, frags w !! x = Some e /\ ipfr_cmp e <> frag_key fin).
Proof.
  intros Hwf Hm. destruct (filter_head_split _ _ _ Hm) as (pre & post & Hc & Hk & _).
  set (idx := frag_idx _ _) in *.
  unfold key_of in Hk. destruct (frags w !! f) as [e|] eqn:He; [|done]. injection Hk as Hk.
  exists pre, post, e. split_and!; try done. intros x Hx.
  assert (Hin : x ∈ chain w t idx) by (rewrite Hc; apply elem_of_app; apply elem_of_app in Hx as [?|?]; [by left|right; by right]).
  destruct (wf_alloc w Hwf t x) as [ex Hex]; [by eapply (wf_chain_list w Hwf)|].
  exists ex. split; [done|]. intros Ek.
  assert (x = f) as ->.
  { apply (wf_keys w Hwf t idx); [done|rewrite Hc; apply elem_mid|].
    unfold key_of. rewrite He, Hex. simpl. by rewrite Ek, Hk. }
  pose proof (wf_chain_nodup w Hwf t idx) as Hnd. rewrite Hc in Hnd. by apply mid_notin in Hnd.
Qed.

Lemma matching_none w t fin :
  frag_wf w -> matching w t fin = None ->
  forall x, x ∈ chain w t (frag_idx (softf_size w) fin) -> exists e, frags w !! x = Some e /\ ipfr_cmp e <> frag_key fin.
Proof.
  intros Hwf Hm x Hx. destruct (wf_alloc w Hwf t x) as [e He]; [by eapply (wf_chain_list w Hwf)|].
  exists e. split; [done|]. pose proof (filter_head_none _ _ Hm x Hx) as Hn. unfold key_of in Hn.
  rewrite He in Hn. simpl in Hn. congruence.
Qed.

(** [ipf_frag_lookup] of a packet that is neither short nor bad, on every branch. *)
Lemma frag_lookup_run fuel t fin w :
  frag_wf w -> has (fin_flx fin) FI_SHORT = false -> has (fin_flx fin) FI_BAD = false ->
  (2 * length (chain w t (frag_idx (softf_size w) fin)) <= fuel)%nat ->
  match matching w t fin with
  | None => ipf_frag_lookup fuel t fin w = Some ((None, fin), w)
  | Some f => exists e w', frags w !! f = Some e /\
      ipf_frag_lookup fuel t fin w =
        Some ((if decide (classify fin e = Hit) then Some f else None,
               if decide (classify fin e = Overlap) then or_flx FI_BAD fin else fin), w') /\
      touches f (entry_after fin e) t (frag_idx (softf_size w) fin) w w' /\ frag_wf w'
  end.
Proof.
  intros Hwf Hs Hb Hf. unfold ipf_frag_lookup. rewrite Hs, Hb. rewrite (bind_eq _ _ _ w w) by done.
  destruct (matching w t fin) as [f|] eqn:Hm.
  - destruct (matching_split _ _ _ _ Hwf Hm) as (pre & post & e & Hc & He & Hk & Hmiss).
    destruct (lookup_loop_hit t _ fin w pre f post e fuel (wf_chain_nodup w Hwf t _) Hc Hmiss He Hk Hf) as (w' & Hrun & Ht).
    exists e, w'. rewrite (bind_eq _ _ _ _ _ Hrun). split_and!; [done| |done|].
    + cbn [fst snd]. destruct (classify fin e); done.
    + eapply touches_wf; [done|done|apply (entry_after_same fin e)|done].
  - rewrite (bind_eq _ _ _ _ _ (lookup_loop_miss t _ fin w _ fuel (matching_none _ _ _ Hwf Hm) ltac:(lia))). done.
Qed.

(** *** Adding *)

(** The entry that [ipfr_frag_new] builds in the memory [junk]: what it does not
    assign keeps its old value. *)
Definition new_entry (w : fragw) (fin : fr_info) (pass : Z) (junk : ipfr) : ipfr :=
  mk_ipfr NullData (fin_fr fin) (ipf_ticks w + softf_ttl w) 1 (u32 (fin_plen fin)) (ipfr_badorder junk) 1
    (u16 (Z.shiftr (fin_off fin) 3 + Z.shiftr (fin_dlen fin) 3)) (frag_firstend fin) (ipfr_p junk)
    (if Z.shiftr (fin_off fin) 3 =? 0 then 1 else ipfr_seen0 junk) (frag_key fin) pass (fin_v fin).

(** The packets that may make an entry. *)
Definition addable (w : fragw) (fin : fr_info) (pass : Z) : Prop :=
  ifs_inuse w < softf_size w /\ Z.land (fin_flx fin) (Z.lor FI_FRAG FI_BAD) = FI_FRAG /\
  (has pass FR_FRSTRICT = true -> fin_off fin = 0) /\
  (forall r, fin_fr fin = Some r -> is_Some (rules w !! r)).

Definition take_ref (r : option loc) (m : gmap loc frule) : gmap loc frule :=
  match r with Some r => alter (fun r => r <| fr_ref ::= fun x => x + 1 |>) r m | None => m end.

Lemma find_key_miss k l w :
  (forall x, x ∈ l -> exists e, frags w !! x = Some e /\ ipfr_cmp e <> k) -> find_key k l w = Some (None, w).
Proof.
  induction l as [|x l IH]; intros Hl; [done|]. cbn [find_key]. destruct (Hl x ltac:(by left)) as (e & He & Hk).
  rewrite (bind_eq _ _ _ _ _ (frag_run ipfr_cmp x w e He)). rewrite decide_False by congruence. apply IH.
  intros y Hy. apply Hl. by right.
Qed.
Lemma find_key_hit k pre f post w e :
  (forall x, x ∈ pre -> exists e, frags w !! x = Some e /\ ipfr_cmp e <> k) ->
  frags w !! f = Some e -> ipfr_cmp e = k -> find_key k (pre ++ f :: post) w = Some (Some f, w).
Proof.
  intros Hl He Hk. induction pre as [|x pre IH]; cbn [app find_key].
  - rewrite (bind_eq _ _ _ _ _ (frag_run ipfr_cmp f w e He)). by rewrite decide_True.
  - destruct (Hl x ltac:(by left)) as (ex & Hex & Hkx).
    rewrite (bind_eq _ _ _ _ _ (frag_run ipfr_cmp x w ex Hex)). rewrite decide_False by congruence. apply IH.
    intros y Hy. apply Hl. by right.
Qed.

(** Entries of chains are not affected by memory that was not in use. *)
Lemma frags_insert_other w x junk (l : list loc) k :
  (x ∉ l) -> (forall y, y ∈ l -> exists e, frags w !! y = Some e /\ ipfr_cmp e <> k) ->
  forall y, y ∈ l -> exists e, frags (w <| frags ::= <[x := junk]> |>) !! y = Some e /\ ipfr_cmp e <> k.
Proof. intros Hx Hl y Hy. simpl. rewrite lookup_insert_ne by (by intros ->). by apply Hl. Qed.

(** The tests at the head of [ipfr_frag_new]. *)
Lemma addable_guards {A} w fin pass (m1 m2 m3 m4 : A) : addable w fin pass ->
  (if ifs_inuse w >=? softf_size w then m1 else
   if negb (Z.land (fin_flx fin) (Z.lor FI_FRAG FI_BAD) =? FI_FRAG) then m2 else
   if has pass FR_FRSTRICT && negb (fin_off fin =? 0) then m3 else m4) = m4.
Proof.
  intros (Hi & Hf & Hs & _).
  replace (ifs_inuse w >=? softf_size w) with false by (rewrite Z.geb_leb; symmetry; apply Z.leb_gt; lia).
  rewrite Hf. cbn [Z.eqb Pos.eqb negb]. destruct (has pass FR_FRSTRICT); [|done]. by rewrite Hs.
Qed.

Lemma frag_new_run t fin pass x junk w :
  frag_wf w -> addable w fin pass -> frags w !! x = None -> matching w t fin = None ->
  ipfr_frag_new t fin pass (Some (x, junk)) w = Some (Some x,
    (set_chain t (frag_idx (softf_size w) fin) (x :: chain w t (frag_idx (softf_size w) fin)) w)
      <| frags ::= <[x := new_entry w fin pass junk]> |>
      <| rules ::= take_ref (fin_fr fin) |> <| ifs_inuse ::= fun x => x + 1 |>).
Proof.
  intros Hwf Ha Hx Hm. unfold ipfr_frag_new. rewrite (bind_eq _ _ _ w w) by done.
  rewrite (addable_guards w fin pass) by done. destruct Ha as (_ & _ & _ & Hr).
  set (idx := frag_idx (softf_size w) fin). set (w1 := w <| frags ::= <[x := junk]> |>).
  rewrite (bind_eq _ _ _ tt w1) by done.
  assert (Hxc : x ∉ chain w t idx).
  { intros Hin. destruct (wf_alloc w Hwf t x) as [e He]; [by eapply (wf_chain_list w Hwf)|congruence]. }
  rewrite (bind_eq _ _ _ None w1); [|apply find_key_miss, frags_insert_other; [done|by apply matching_none]].
  destruct w as [F C L sz ttl lk inu tk R N]. cbn [frags] in Hx.
  assert (E : forall g e (F' : gmap loc ipfr), F' !! x = Some e -> alter g x F' = <[x := g e]> F').
  { intros g e F' He. apply map_eq. intros i. rewrite lookup_alter. case_decide; subst;
      [by rewrite lookup_insert_eq, He|by rewrite lookup_insert_ne]. }
  assert (Ex : forall f e w0, frags w0 = <[x := e]> F -> upd_frag x f w0 = Some (tt, w0 <| frags := <[x := f e]> F |>)).
  { intros f e w0 E0. unfold upd_frag. rewrite E0, lookup_insert_eq. cbn. do 2 f_equal. unfold field_set.
    destruct w0; simpl in *; subst. rewrite (E _ e) by apply lookup_insert_eq. by rewrite insert_insert_eq. }
  assert (exists w2, (match fin_fr fin with
          | Some fr => upd_rule fr (fun r => r <| fr_ref ::= fun x => x + 1 |>) | None => mret tt end)
      (w1 <| frags := <[x := junk <| ipfr_rule := fin_fr fin |>]> F |>) = Some (tt, w2) /\
      w2 = w1 <| frags := <[x := junk <| ipfr_rule := fin_fr fin |>]> F |> <| rules ::= take_ref (fin_fr fin) |>)
    as (w2 & Hw2 & E2).
  { destruct (fin_fr fin) as [r|] eqn:Er; [|by eexists]. destruct (Hr r eq_refl) as [rl Hrl].
    eexists. split; [|done]. unfold upd_rule. simpl in *. by rewrite Hrl. }
  rewrite (bind_eq _ _ _ _ _ (Ex (fun e => e <| ipfr_rule := fin_fr fin |>) junk w1 eq_refl)), (bind_eq _ _ _ _ _ Hw2). subst w2.
  erewrite bind_eq by (apply Ex; reflexivity). erewrite bind_eq by reflexivity.
  erewrite bind_eq by (apply Ex; reflexivity).
  unfold new_entry. destruct (Z.shiftr (fin_off fin) 3 =? 0); cbn [when_].
  - erewrite bind_eq by (apply Ex; reflexivity). erewrite bind_eq by (apply Ex; reflexivity). reflexivity.
  - erewrite bind_eq by reflexivity. erewrite bind_eq by (apply Ex; reflexivity). reflexivity.
Qed.

(** The cache after a successful [ipf_frag_new]. *)
Definition after_new (w : fragw) (fin : fr_info) (pass : Z) (x : loc) (junk : ipfr) : fragw :=
  set_flist Heads (flist w Heads ++ [x])
    ((set_chain Heads (frag_idx (softf_size w) fin) (x :: chain w Heads (frag_idx (softf_size w) fin)) w)
      <| frags ::= <[x := new_entry w fin pass junk]> |>
      <| rules ::= take_ref (fin_fr fin) |> <| ifs_inuse ::= fun x => x + 1 |>).

Lemma ipf_frag_new_run fin pass x junk w :
  frag_wf w -> addable w fin pass -> frags w !! x = None -> matching w Heads fin = None -> ipfr_lock w = 0 ->
  ipf_frag_new fin pass (Some (x, junk)) w = Some (0, after_new w fin pass x junk).
Proof.
  intros Hwf Ha Hx Hm Hl. unfold ipf_frag_new. rewrite (bind_eq _ _ _ (ipfr_lock w) w) by done. rewrite Hl.
  cbn [Z.eqb negb]. rewrite (bind_eq _ _ _ _ _ (frag_new_run Heads fin pass x junk w Hwf Ha Hx Hm)). done.
Qed.

Lemma after_new_wf w fin pass x junk :
  frag_wf w -> frags w !! x = None -> matching w Heads fin = None -> frag_wf (after_new w fin pass x junk).
Proof.
  intros Hwf Hx Hm. pose proof (matching_none _ _ _ Hwf Hm) as Hmiss. pose proof Hwf as [W1 W2 W3 W4 W5 W6 W7 W8].
  set (idx := frag_idx (softf_size w) fin) in *. set (w' := after_new w fin pass x junk).
  assert (Hnl : forall t, x ∉ flist w t) by (intros t Hin; destruct (W2 t x Hin); congruence).
  assert (Hnc : forall t i, x ∉ chain w t i) by (intros t i Hin; by apply (Hnl t), (W5 t i)).
  assert (Hfl : forall t y, y ∈ flist w' t <-> y ∈ flist w t \/ (t = Heads /\ y = x)).
  { intros t y. unfold w', after_new, set_flist. simpl. case_decide; [subst; rewrite elem_of_app, list_elem_of_singleton; tauto|tauto]. }
  assert (Hch : forall t i y, y ∈ chain w' t i <-> y ∈ chain w t i \/ (t = Heads /\ i = idx /\ y = x)).
  { intros t i y. unfold w', after_new, set_flist, set_chain. simpl. fold idx. case_decide; [subst|naive_solver].
    destruct (Z.eqb_spec i idx); [subst; rewrite elem_of_cons; naive_solver|naive_solver]. }
  assert (Hfr : forall y, frags w' !! y = if decide (x = y) then Some (new_entry w fin pass junk) else frags w !! y).
  { intros y. unfold w', after_new, set_flist. simpl. case_decide; [subst; apply lookup_insert_eq|by apply lookup_insert_ne]. }
  split.
  - intros t. unfold w', after_new, set_flist. simpl. case_decide; [subst|apply W1].
    apply NoDup_app. split_and!; [apply W1| |apply NoDup_singleton]. intros y Hy ->%list_elem_of_singleton. by apply (Hnl Heads).
  - intros t y Hy%Hfl. rewrite Hfr. case_decide; [by eexists|]. destruct Hy as [Hy|[_ ->]]; [by apply (W2 t)|done].
  - intros t t' y Hy%Hfl Hy'%Hfl. destruct Hy as [Hy|[-> ->]], Hy' as [Hy'|[-> Hy'']]; subst; try done; [by eapply W3|exfalso; by eapply Hnl..].
  - intros t i. unfold w', after_new, set_flist, set_chain. simpl. fold idx. case_decide; [subst|apply W4].
    destruct (Z.eqb_spec i idx); [subst|apply W4]. apply NoDup_cons. by split.
  - intros t i y. rewrite Hch, Hfl. intros [?|(-> & -> & ->)]; [left; by eapply W5|by right].
  - intros t y [Hy|[-> ->]]%Hfl; [destruct (W6 t y Hy) as [i Hi]; exists i; rewrite Hch; by left|].
    exists idx. rewrite Hch. by right.
  - intros t i j y. rewrite !Hch. intros [?|(-> & -> & ->)] [?|(? & ? & ?)]; subst; try done; [by eapply W7|exfalso; by eapply Hnc..].
  - intros t i y z. rewrite !Hch. unfold key_of. rewrite !Hfr.
    assert (Hk : forall u, u ∈ chain w Heads idx -> ipfr_cmp <$> frags w !! u <> Some (frag_key fin)).
    { intros u Hu. destruct (Hmiss u Hu) as (e & -> & He). simpl. congruence. }
    intros [Hy|(-> & -> & ->)] [Hz|(Ht & Hi & ->)]; subst; repeat case_decide; subst; try done;
      try (exfalso; by eapply Hnc).
    + intros E. eapply W8; [exact Hy|exact Hz|exact E].
    + intros E. exfalso. by apply (Hk y).
    + intros E. exfalso. by apply (Hk z).
Qed.

(** Two fragments of one datagram. *)
Definition same_datagram (fin fin' : fr_info) : Prop :=
  frag_key fin' = frag_key fin /\ fin_v fin' = fin_v fin /\ fin_p fin' = fin_p fin.
Lemma same_datagram_idx size fin fin' : same_datagram fin fin' -> frag_idx size fin' = frag_idx size fin.
Proof.
  intros (Hk & Hv & Hp). unfold frag_key in Hk. injection Hk as _ Es Ed _ _ _ Ei.
  unfold frag_idx, fin_saddr, fin_daddr. unfold fin_src6, fin_dst6 in *. by rewrite Hv, Hp, Ei, Es, Ed.
Qed.

Lemma matching_after_new w fin fin' pass x junk :
  frag_wf w -> frags w !! x = None -> same_datagram fin fin' ->
  matching (after_new w fin pass x junk) Heads fin' = Some x.
Proof.
  intros Hwf Hx Hs. unfold matching.
  change (softf_size (after_new w fin pass x junk)) with (softf_size w). rewrite (same_datagram_idx _ _ _ Hs).
  unfold after_new, set_flist, set_chain. cbn [chain field_set]. rewrite decide_True, Z.eqb_refl by done.
  rewrite filter_cons. unfold key_of. cbn [frags field_set]. rewrite decide_True; [done|].
  rewrite lookup_insert_eq. simpl. f_equal. symmetry. apply Hs.
Qed.

(** *** Asking *)

(** [ipf_frag_known] after a hit. *)
Lemma frag_known_run blk fuel fin w passp :
  frag_wf w -> ipfr_lock w = 0 -> has (fin_flx fin) FI_SHORT = false -> has (fin_flx fin) FI_BAD = false ->
  (2 * length (chain w Heads (frag_idx (softf_size w) fin)) <= fuel)%nat ->
  (forall x e r, frags w !! x = Some e -> ipfr_rule e = Some r -> is_Some (rules w !! r)) ->
  exists fr pass' fin' w', ipf_frag_known blk fuel fin passp w = Some ((fr, pass', fin'), w') /\ frag_wf w' /\
    match matching w Heads fin with
    | Some f => exists e, frags w !! f = Some e /\
        if decide (classify fin e = Hit) then
          fr = ipfr_rule e /\ touches f (entry_after fin e) Heads (frag_idx (softf_size w) fin) w w' /\
          match ipfr_rule e with
          | Some r => exists rl, rules w !! r = Some rl /\
              (pass', fin') = frag_pass (fr_flags rl) (fin <| fin_fr := Some r |>)
          | None => pass' = passp /\ fin' = fin <| fin_fr := None |>
          end
        else
          fr = None /\ pass' = passp /\ fin' = (if decide (classify fin e = Overlap) then or_flx FI_BAD fin else fin)
    | None => fr = None /\ pass' = passp /\ fin' = fin /\ w' = w
    end.
Proof.
  intros Hwf Hl Hs Hb Hf Hrules. unfold ipf_frag_known. rewrite (bind_eq _ _ _ w w) by done. rewrite Hl.
  cbn [Z.eqb negb orb]. case_bool_decide as Hnil.
  { assert (Hm : matching w Heads fin = None).
    { unfold matching. destruct (chain w Heads _) as [|y l] eqn:Hc; [done|].
      exfalso. assert (Hin : y ∈ flist w Heads) by (eapply (wf_chain_list w Hwf); rewrite Hc; by left).
      rewrite Hnil in Hin. set_solver. }
    rewrite Hm. exists None, passp, fin, w. by split_and!. }
  pose proof (frag_lookup_run fuel Heads fin w Hwf Hs Hb Hf) as Hrun.
  destruct (matching w Heads fin) as [f|] eqn:Hm.
  2: { rewrite (bind_eq _ _ _ _ _ Hrun). exists None, passp, fin, w. by split_and!. }
  destruct Hrun as (e & w' & He & Hrun & Ht & Hwf'). rewrite (bind_eq _ _ _ _ _ Hrun). cbn [fst snd].
  destruct (entry_after_same fin e) as (_ & Er & _).
  assert (He' : frags w' !! f = Some (entry_after fin e)) by (rewrite (to_frags _ _ _ _ _ _ Ht); apply lookup_insert_eq).
  case_decide as Hh.
  - rewrite decide_False by congruence. rewrite (bind_eq _ _ _ _ _ (frag_run ipfr_rule f w' _ He')), Er, Hb.
    destruct (ipfr_rule e) as [r|] eqn:Ee.
    + destruct (Hrules f e r He Ee) as [rl Hrl].
      rewrite (bind_eq _ _ _ w' w') by done.
      assert (Hrl' : rules w' !! r = Some rl) by (destruct (to_rest _ _ _ _ _ _ Ht) as (_&_&_&_&_&->&_); done).
      rewrite Hrl'. rewrite (bind_eq _ _ _ rl w') by done.
      destruct (frag_pass (fr_flags rl) (fin <| fin_fr := Some r |>)) as [pass' fin'] eqn:Ep.
      exists (Some r), pass', fin', w'. split; [done|]. split; [done|]. exists e. split; [done|].
      rewrite decide_True, Ee by done. split_and!; [done|done|]. exists rl. by split.
    + exists None, passp, (fin <| fin_fr := None |>), w'. split; [done|]. split; [done|]. exists e. split; [done|].
      rewrite decide_True, Ee by done. by split_and!.
  - exists None, passp, (if decide (classify fin e = Overlap) then or_flx FI_BAD fin else fin), w'.
    split; [done|]. split; [done|]. exists e. split; [done|]. rewrite decide_False by done. by split_and!.
Qed.

(** *** Removing *)

Definition drop_rule_ref (r : option loc) (m : gmap loc frule) : gmap loc frule :=
  match r with
  | Some r => match m !! r with
              | Some rl => if fr_ref rl - 1 =? 0 then delete r m else <[r := rl <| fr_ref ::= fun x => x - 1 |>]> m
              | None => m
              end
  | None => m
  end.

Lemma rule_deref_run r rl w : rules w !! r = Some rl ->
  rule_deref r w = Some (tt, w <| rules := drop_rule_ref (Some r) (rules w) |>).
Proof.
  intros Hr. unfold rule_deref, upd_rule. unfold mbind at 1, st_bind at 1. rewrite Hr.
  set (g := fun r : frule => r <| fr_ref ::= fun x => x - 1 |>).
  assert (Ea : alter g r (rules w) = <[r := g rl]> (rules w)).
  { apply map_eq. intros i. rewrite lookup_alter. case_decide; subst;
      [by rewrite lookup_insert_eq, Hr|by rewrite lookup_insert_ne]. }
  change (@mbind option option_bind frule (unit * fragw) (fun _ => Some (tt, w <| rules ::= alter g r |>)) (Some rl))
    with (Some (tt, w <| rules ::= alter g r |>)). cbv iota.
  set (w1 := w <| rules ::= alter g r |>). rewrite (bind_eq _ _ _ w1 w1) by done.
  assert (E1 : rules w1 !! r = Some (g rl)) by (simpl; rewrite Ea; apply lookup_insert_eq).
  rewrite E1. rewrite (bind_eq _ _ _ (g rl) w1) by done. simpl drop_rule_ref. rewrite Hr.
  change (fr_ref (g rl)) with (fr_ref rl - 1). destruct (fr_ref rl - 1 =? 0); cbn [when_].
  - unfold modify. do 2 f_equal. unfold w1, field_set. simpl. f_equal. rewrite Ea. apply delete_insert_eq.
  - unfold mret, st_ret. do 2 f_equal. unfold w1, field_set. simpl. f_equal. exact Ea.
Qed.

Lemma bind_assoc3 {A B C D} (m : ST fragw A) (f : ST fragw B) (g : ST fragw C) (h : ST fragw D) w :
  ((m;; f;; g);; h) w = (m;; f;; g;; h) w.
Proof.
  unfold mbind, st_bind. destruct (m w) as [[? w1]|]; [|done]. by destruct (f w1) as [[? w2]|].
Qed.

(** One turn of a removal loop, as a function on caches. *)
Definition nat_after (t : ftab) (x : loc) (e : ipfr) (m : gmap loc (option loc)) : gmap loc (option loc) :=
  if decide (t = Nattab) then
    match ipfr_data e with
    | NatData n => if decide (m !! n = Some (Some x)) then <[n := None]> m else m
    | _ => m
    end
  else m.
Definition purge_one (t : ftab) (x : loc) (e : ipfr) (w : fragw) : fragw :=
  let gone := ipfr_ref e - 1 <=? 0 in
  mk_fragw
    (if gone then delete x (frags w)
     else <[x := e <| ipfr_ref ::= fun r => r - 1 |> <| ipfr_rule := None |>]> (frags w))
    (fun t' i => if decide (t' = t) then without x (chain w t' i) else chain w t' i)
    (fun t' => if decide (t' = t) then without x (flist w t) else flist w t')
    (softf_size w) (softf_ttl w) (ipfr_lock w) (if gone then ifs_inuse w - 1 else ifs_inuse w) (ipf_ticks w)
    (drop_rule_ref (ipfr_rule e) (rules w)) (nat_after t x e (nat_data w)).

(** What the cache needs for its entries to be removable: the rules hold the
    references of the entries in [l], and NAT entries that are pointed at exist. *)
Definition rule_refs (w : fragw) (l : list loc) : list loc := omap (fun x => mjoin (rule_of w x)) l.
Definition rules_cover (w : fragw) (l : list loc) : Prop :=
  forall r, r ∈ rule_refs w l -> exists rl, rules w !! r = Some rl /\
    Z.of_nat (count_occ Pos.eq_dec (rule_refs w l) r) <= fr_ref rl.
Definition nats_known (w : fragw) (l : list loc) : Prop :=
  forall x e n, x ∈ l -> frags w !! x = Some e -> ipfr_data e = NatData n -> is_Some (nat_data w !! n).

Lemma upd_frag_eq x f w e : frags w !! x = Some e ->
  upd_frag x f w = Some (tt, w <| frags := <[x := f e]> (frags w) |>).
Proof.
  intros E. unfold upd_frag. rewrite E. cbn. do 2 f_equal. unfold field_set. f_equal.
  apply map_eq. intros i. rewrite lookup_alter. case_decide; subst;
    [by rewrite lookup_insert_eq, E|by rewrite lookup_insert_ne].
Qed.

Lemma purge_body_run t x e w :
  frags w !! x = Some e ->
  (forall r, ipfr_rule e = Some r -> is_Some (rules w !! r)) ->
  (t = Nattab -> forall n, ipfr_data e = NatData n -> is_Some (nat_data w !! n)) ->
  (when_ (bool_decide (t = Nattab)) (nat_unlink x);;
   upd_frag x (fun e => e <| ipfr_ref ::= fun x => x - 1 |>);;
   ipf_frag_delete t x) w = Some (tt, purge_one t x e w).
Proof.
  intros He Hr Hn. destruct w as [F C L sz tl lk inu tk R N]. cbn [frags rules nat_data] in *.
  assert (E1 : when_ (bool_decide (t = Nattab)) (nat_unlink x) (mk_fragw F C L sz tl lk inu tk R N)
    = Some (tt, mk_fragw F C L sz tl lk inu tk R (nat_after t x e N))).
  { unfold nat_after. case_bool_decide; [rewrite decide_True by done|by rewrite decide_False]. cbn [when_]. unfold nat_unlink.
    rewrite (bind_eq _ _ _ _ _ (frag_run ipfr_data x (mk_fragw F C L sz tl lk inu tk R N) e He)).
    destruct (ipfr_data e) as [|n|] eqn:Ed; [done| |done]. destruct (Hn H n eq_refl) as [nd Hnd].
    rewrite (bind_eq _ _ _ (mk_fragw F C L sz tl lk inu tk R N) _) by done. cbn [nat_data]. rewrite Hnd.
    rewrite (bind_eq _ _ _ nd _) by done. destruct (decide (nd = Some x)) as [->|Hne].
    - by rewrite bool_decide_eq_true_2, decide_True.
    - rewrite bool_decide_eq_false_2, decide_False by congruence. done. }
  rewrite (bind_eq _ _ _ _ _ E1).
  set (e1 := e <| ipfr_ref ::= fun x => x - 1 |>).
  rewrite (bind_eq _ _ _ _ _ (upd_frag_eq x _ (mk_fragw F C L sz tl lk inu tk R (nat_after t x e N)) e He)). fold e1.
  cbn [chain flist softf_size softf_ttl ipfr_lock ifs_inuse ipf_ticks rules nat_data].
  unfold ipf_frag_delete. rewrite (bind_eq _ _ _ tt _ eq_refl), (bind_eq _ _ _ tt _ eq_refl).
  unfold set_flist. cbn [field_set frags chain flist softf_size softf_ttl ipfr_lock ifs_inuse ipf_ticks rules nat_data].
  set (C' := fun t' i => if decide (t' = t) then _ else _). set (L' := fun t' => if decide (t' = t) then _ else _).
  set (w2 := mk_fragw _ _ _ _ _ _ _ _ _ _).
  assert (He2 : frags w2 !! x = Some e1) by apply lookup_insert_eq.
  rewrite (bind_eq _ _ _ _ _ (frag_run ipfr_rule x w2 e1 He2)). change (ipfr_rule e1) with (ipfr_rule e).
  assert (exists w3 e3, (match ipfr_rule e with
      | Some r => rule_deref r;; upd_frag x (fun e => e <| ipfr_rule := None |>) | None => mret tt end) w2 = Some (tt, w3) /\
      w3 = mk_fragw (<[x := e3]> F) C' L' sz tl lk inu tk (drop_rule_ref (ipfr_rule e) R) (nat_after t x e N) /\
      e3 = e1 <| ipfr_rule := None |>) as (w3 & e3 & Hw3 & E3 & Ee3).
  { destruct (ipfr_rule e) as [r|] eqn:Er.
    - destruct (Hr r eq_refl) as [rl Hrl]. rewrite (bind_eq _ _ _ _ _ (rule_deref_run r rl w2 Hrl)).
      erewrite upd_frag_eq by (cbn [frags field_set]; exact He2).
      eexists _, _. split; [reflexivity|]. split; [|reflexivity]. unfold w2, field_set. cbn. f_equal. apply insert_insert_eq.
    - exists w2, e1. split_and!; [done|done|]. unfold e1. destruct e; simpl in *; by subst. }
  rewrite (bind_eq _ _ _ _ _ Hw3).
  assert (He3 : frags w3 !! x = Some e3) by (rewrite E3; apply lookup_insert_eq).
  rewrite (bind_eq _ _ _ _ _ (frag_run ipfr_ref x w3 e3 He3)). rewrite Ee3.
  change (ipfr_ref (e1 <| ipfr_rule := None |>)) with (ipfr_ref e - 1).
  unfold purge_one. cbn [frags chain flist softf_size softf_ttl ipfr_lock ifs_inuse ipf_ticks rules nat_data].
  destruct (ipfr_ref e - 1 <=? 0); cbn [when_].
  - unfold ipf_frag_free. rewrite (bind_eq _ _ _ _ _ (frag_run id x w3 e3 He3)). subst w3. cbn.
    unfold modify. do 2 f_equal. f_equal. apply delete_insert_eq.
  - subst w3 e3. done.
Qed.

Lemma purge_one_frags t x e w y : y <> x -> frags (purge_one t x e w) !! y = frags w !! y.
Proof. intros. unfold purge_one. simpl. case_match; [by apply lookup_delete_ne|by apply lookup_insert_ne]. Qed.

Lemma purge_one_wf t x e w : frag_wf w -> frags w !! x = Some e -> (x ∈ flist w t) -> frag_wf (purge_one t x e w).
Proof.
  intros Hwf He Hxt. pose proof Hwf as [W1 W2 W3 W4 W5 W6 W7 W8].
  assert (Hfl : forall t' y, y ∈ flist (purge_one t x e w) t' <-> y ∈ flist w t' /\ y <> x).
  { intros t' y. simpl. case_decide; [subst; rewrite elem_without; tauto|]. split; [|tauto]. intros Hy. split; [done|].
    intros ->. by apply H, (W3 t' t x). }
  assert (Hch : forall t' i y, y ∈ chain (purge_one t x e w) t' i <-> y ∈ chain w t' i /\ y <> x).
  { intros t' i y. simpl. case_decide; [rewrite elem_without; tauto|]. split; [|tauto]. intros Hy. split; [done|].
    intros ->. apply H, (W3 t' t x); [by eapply W5|done]. }
  split.
  - intros t'. simpl. case_decide; [by apply without_NoDup|done].
  - intros t' y [Hy Hne]%Hfl. rewrite purge_one_frags by done. by eapply W2.
  - intros t' t'' y [Hy _]%Hfl [Hy' _]%Hfl. by eapply W3.
  - intros t' i. simpl. case_decide; [by apply without_NoDup|done].
  - intros t' i y [Hy ?]%Hch. apply Hfl. split; [by eapply W5|done].
  - intros t' y [Hy ?]%Hfl. destruct (W6 t' y Hy) as [i Hi]. exists i. by apply Hch.
  - intros t' i j y [Hy _]%Hch [Hy' _]%Hch. by eapply W7.
  - intros t' i y z [Hy Hny]%Hch [Hz Hnz]%Hch. unfold key_of. rewrite !purge_one_frags by done. by eapply W8.
Qed.

(** The references that remain are still covered. *)
Lemma rule_refs_ext w w' l : (forall x, x ∈ l -> frags w' !! x = frags w !! x) -> rule_refs w' l = rule_refs w l.
Proof.
  intros E. unfold rule_refs. induction l as [|x l IH]; [done|]. simpl. unfold rule_of at 1 3. rewrite E by set_solver.
  destruct (mjoin _); [f_equal|]; apply IH; intros; apply E; set_solver.
Qed.
Lemma rule_refs_cons w x l e : frags w !! x = Some e ->
  rule_refs w (x :: l) = match ipfr_rule e with Some r => r :: rule_refs w l | None => rule_refs w l end.
Proof. intros He. unfold rule_refs. simpl. unfold rule_of at 1. rewrite He. simpl. by destruct (ipfr_rule e). Qed.

Lemma purge_one_cover t x e w l :
  frags w !! x = Some e -> (x ∉ l) -> rules_cover w (x :: l) -> rules_cover (purge_one t x e w) l.
Proof.
  intros He Hx Hc r Hr.
  rewrite (rule_refs_ext w) in Hr |- * by (intros y Hy; apply purge_one_frags; by intros ->).
  unfold rules_cover in Hc. rewrite (rule_refs_cons _ _ _ _ He) in Hc.
  change (rules (purge_one t x e w)) with (drop_rule_ref (ipfr_rule e) (rules w)).
  destruct (ipfr_rule e) as [r0|]; [|by apply Hc].
  destruct (Hc r) as (rl & Hrl & Hn); [by right|]. simpl in Hn.
  assert (Hpos : (0 < count_occ Pos.eq_dec (rule_refs w l) r)%nat) by (apply count_occ_In; by apply list_elem_of_In).
  destruct (Pos.eq_dec r0 r) as [->|Hne].
  - simpl. rewrite Hrl. destruct (Z.eqb_spec (fr_ref rl - 1) 0); [lia|]. eexists. split; [apply lookup_insert_eq|]. simpl. lia.
  - exists rl. split; [|lia]. simpl. destruct (Hc r0) as (rl0 & Hrl0 & _); [by left|]. rewrite Hrl0.
    case_match; [by rewrite lookup_delete_ne|by rewrite lookup_insert_ne].
Qed.

Lemma purge_one_nats t x e w l :
  (x ∉ l) -> nats_known w l -> nats_known (purge_one t x e w) l.
Proof.
  intros Hx Hn y ey n Hy Hey Hd. rewrite purge_one_frags in Hey by (by intros ->).
  destruct (Hn y ey n Hy Hey Hd) as [v Hv]. simpl. unfold nat_after.
  assert (Hins : forall k, is_Some (<[k := @None loc]> (nat_data w) !! n)).
  { intros k. rewrite lookup_insert. case_decide; by eexists. }
  repeat case_match; (apply Hins || by exists v).
Qed.

(** The prefix of a list that a loop removes, and what is left. *)
Fixpoint purged (w : fragw) (expire : bool) (l : list loc) : list loc :=
  match l with
  | [] => []
  | x :: l => match frags w !! x with
              | Some e => if expire && (ipfr_ttl e >? ipf_ticks w) then [] else x :: purged w expire l
              | None => []
              end
  end.
Definition kept (w : fragw) (expire : bool) (l : list loc) : list loc := drop (length (purged w expire l)) l.

Lemma purged_ext w w' b l : (forall x, x ∈ l -> frags w' !! x = frags w !! x) -> ipf_ticks w' = ipf_ticks w ->
  purged w' b l = purged w b l.
Proof.
  intros E Et. induction l as [|x l IH]; [done|]. simpl. rewrite E, Et by set_solver.
  rewrite IH by (intros; apply E; set_solver). done.
Qed.

Lemma without_head x l : NoDup (x :: l) -> without x (x :: l) = l.
Proof. intros H. by apply (without_mid x []), (mid_notin []). Qed.

(** What a removal loop over the list of [t] does: the entries of [gone] leave the
    cache, [left] is what stays on the list. *)
Record purge_effect (t : ftab) (gone left : list loc) (w w' : fragw) : Prop := {
  pe_wf : frag_wf w';
  pe_list : flist w' t = left;
  pe_lists : forall t', t' <> t -> flist w' t' = flist w t';
  pe_frags : forall y, y ∉ gone -> frags w' !! y = frags w !! y;
  pe_chain : forall t' i y, y ∈ chain w' t' i <-> y ∈ chain w t' i /\ (y ∉ gone);
  pe_gone : forall x e, x ∈ gone -> frags w !! x = Some e -> ipfr_ref e <= 1 -> frags w' !! x = None;
  pe_same : ipf_ticks w' = ipf_ticks w /\ ipfr_lock w' = ipfr_lock w }.

Lemma purge_effect_none t w : frag_wf w -> purge_effect t [] (flist w t) w w.
Proof. intros Hwf. split; try done; set_solver. Qed.

Lemma purge_effect_cons t x e gone left w w' :
  frag_wf w -> frags w !! x = Some e -> (x ∈ flist w t) -> (x ∉ gone) ->
  purge_effect t gone left (purge_one t x e w) w' -> purge_effect t (x :: gone) left w w'.
Proof.
  intros Hwf He Hx Hxp [P1 P2 P3 P4 P5 P6 P7]. split; try done.
  - intros t' Ht'. rewrite P3 by done. simpl. by rewrite decide_False.
  - intros y [Hyx Hy]%not_elem_of_cons. rewrite P4 by done. by apply purge_one_frags.
  - intros t' i y. rewrite P5, not_elem_of_cons. simpl. case_decide as Ht'.
    + rewrite elem_without. tauto.
    + split; [|tauto]. intros [Hy Hp]. split_and!; try done. intros ->.
      apply Ht', (wf_one_list w Hwf t' t x); [by eapply (wf_chain_list w Hwf)|done].
  - intros y ey [->|Hy]%elem_of_cons Hey Href.
    + rewrite P4 by done. unfold purge_one. simpl. rewrite He in Hey. injection Hey as <-.
      rewrite (proj2 (Z.leb_le _ _)) by lia. apply lookup_delete_eq.
    + apply (P6 y ey); [done| |done]. rewrite purge_one_frags; [done|]. by intros ->.
Qed.

Lemma purged_subset w b l x : x ∈ purged w b l -> x ∈ l.
Proof.
  induction l as [|y l IH]; simpl; [done|]. destruct (frags w !! y); [|set_solver].
  destruct (_ && _); [set_solver|]. intros [->|?]%elem_of_cons; [by left|right; auto].
Qed.

(** The loop removes the prefix, entry by entry. *)
Lemma frag_purge_run t expire others l : forall fuel w,
  frag_wf w -> flist w t = l -> (forall x, x ∈ others -> x ∉ l) -> rules_cover w (l ++ others) -> nats_known w (l ++ others) ->
  (length l <= fuel)%nat ->
  exists w', frag_purge fuel t expire w = Some (tt, w') /\
    purge_effect t (purged w expire l) (kept w expire l) w w' /\
    rules_cover w' (kept w expire l ++ others) /\ nats_known w' (kept w expire l ++ others).
Proof.
  induction l as [|x l IH]; intros fuel w Hwf Hl Ho Hc Hn Hf.
  { exists w. split_and!; try done; [|pose proof (purge_effect_none t w Hwf) as P; by rewrite Hl in P].
    destruct fuel; cbn [frag_purge]; rewrite (bind_eq _ _ _ w w) by done; by rewrite Hl. }
  destruct fuel as [|fuel]; [simpl in Hf; lia|]. cbn [frag_purge]. rewrite (bind_eq _ _ _ w w) by done. rewrite Hl.
  assert (Hx : x ∈ flist w t) by (rewrite Hl; by left).
  destruct (wf_alloc w Hwf t x Hx) as [e He].
  pose proof (wf_nodup w Hwf t) as Hnd. rewrite Hl in Hnd. pose proof Hnd as [Hxl Hnd']%NoDup_cons.
  rewrite (bind_eq _ _ _ _ _ (frag_run ipfr_ttl x w e He)). unfold kept. simpl purged. rewrite He.
  destruct (expire && (ipfr_ttl e >? ipf_ticks w)) eqn:Ex.
  { exists w. simpl. split_and!; try done. rewrite <- Hl. by apply purge_effect_none. }
  assert (Hr : forall r, ipfr_rule e = Some r -> is_Some (rules w !! r)).
  { intros r Er. destruct (Hc r) as (rl & ? & _); [|by exists rl].
    rewrite <- app_comm_cons, (rule_refs_cons _ _ _ _ He), Er. by left. }
  pose proof (purge_body_run t x e w He Hr (fun _ n En => Hn x e n ltac:(by left) He En)) as Hrun.
  set (w1 := purge_one t x e w) in *.
  assert (Hxo : x ∉ l ++ others) by (intros [?|Hx2]%elem_of_app; [done|]; apply (Ho x Hx2); by left).
  assert (Ep : purged w1 expire l = purged w expire l).
  { apply purged_ext; [|done]. intros y Hy. apply purge_one_frags. by intros ->. }
  destruct (IH fuel w1) as (w' & Hw' & Heff & Hcov & Hnat).
  - by apply purge_one_wf.
  - simpl. rewrite decide_True, Hl by done. by apply without_head.
  - intros y Hy Hyl. apply (Ho y Hy). by right.
  - by apply purge_one_cover.
  - apply purge_one_nats; [done|]. intros y ey n Hy. apply Hn. by right.
  - simpl in Hf. lia.
  - unfold kept in Heff, Hcov, Hnat. rewrite Ep in *. exists w'. split_and!; try done.
    + rewrite <- Hw'. rewrite <- (bind_eq _ (fun _ => frag_purge fuel t expire) w tt w1 Hrun).
      by rewrite bind_assoc3.
    + apply (purge_effect_cons t x e); try done. by intros ?%purged_subset.
Qed.

(** ** Properties *)

(** A cache with no entry, and a first and a second fragment for the examples:
    1480 bytes of a UDP datagram over IPv4, then 100 more. *)
Definition empty_cache (rs : gmap loc frule) : fragw :=
  mk_fragw ∅ (fun _ _ => []) (fun _ => []) 257 120 0 0 1000 rs ∅.
Lemma empty_cache_wf rs : frag_wf (empty_cache rs).
Proof. split; simpl; intros; try (by apply NoDup_nil); set_solver. Qed.
Definition demo_fi : fr_ip :=
  fi_zero <| fi_v := 4 |> <| fi_p := IPPROTO_UDP |> <| fi_flx := FI_FRAG |>
    <| fi_src := mk_i6addr 0x0a000001 0 0 0 |> <| fi_dst := mk_i6addr 0x0a000002 0 0 0 |>.
Definition demo_frag (off len : Z) : fr_info :=
  fin_zero <| fin_fi := demo_fi |> <| fin_fr := Some 7%positive |> <| fin_off := off |> <| fin_dlen := len |>
    <| fin_plen := len + 20 |> <| fin_dp := 20 |> <| fin_id := 4711 |>.
Definition demo_junk (seen0 : Z) : ipfr :=
  mk_ipfr NullData None 0 0 0 0 0 0 0 0 seen0 (mk_fkey None i6_zero i6_zero 0 0 0 0) 0 0.
Definition demo_rules : gmap loc frule := {[7%positive := mk_frule (Z.lor FR_PASS FR_KEEPSTATE) 1]}.

(** Every rule that an entry refers to exists. *)
Definition rules_live (w : fragw) : Prop :=
  forall x e r, frags w !! x = Some e -> ipfr_rule e = Some r -> is_Some (rules w !! r).
Lemma after_new_live w fin pass x junk :
  rules_live w -> addable w fin pass -> rules_live (after_new w fin pass x junk).
Proof.
  intros Hr (_ & _ & _ & Ha) y e r He Er.
  assert (Hk : forall r, is_Some (rules w !! r) -> is_Some (take_ref (fin_fr fin) (rules w) !! r)).
  { intros r' [rl Hrl]. unfold take_ref. destruct (fin_fr fin) as [r0|]; [|by exists rl].
    rewrite lookup_alter. case_decide; subst; rewrite Hrl; by eexists. }
  apply (Hk r). unfold after_new, set_flist in He. cbn in He.
  destruct (decide (x = y)) as [<-|Hne].
  - rewrite lookup_insert_eq in He. injection He as <-. by apply Ha.
  - rewrite lookup_insert_ne in He by done. by eapply Hr.
Qed.

(** The first fragment of an IPv4 datagram, whose data runs from [fin_dp] to the
    end of the packet, and the fragment that carries on where it ends. *)
Record first_fragment (fin : fr_info) : Prop := {
  ff_v : fin_v fin = 4; ff_off : 0 <= fin_off fin < 8; ff_len : fin_plen fin = fin_dp fin + fin_dlen fin;
  ff_data : 8 <= fin_dlen fin < 2 ^ 16 }.
Definition follows (fin fin' : fr_info) : Prop :=
  same_datagram fin fin' /\ frag_off fin' = Z.shiftr (fin_dlen fin) 3 /\
  has (fin_flx fin') FI_SHORT = false /\ has (fin_flx fin') FI_BAD = false.

Lemma follows_hit w fin fin' pass junk :
  first_fragment fin -> follows fin fin' ->
  let e := new_entry w fin pass junk in
  classify fin' e = Hit /\ ipfr_off (entry_after fin' e) = u16 (Z.shiftr (fin_dlen fin') 3 + Z.shiftr (fin_dlen fin) 3).
Proof.
  intros [Hv Ho Hl Hd] (Hs & Hoff & _) e.
  assert (E0 : Z.shiftr (fin_off fin) 3 = 0) by (rewrite Z.shiftr_div_pow2 by lia; apply Z.div_small; simpl; lia).
  assert (E1 : 1 <= Z.shiftr (fin_dlen fin) 3 < 2 ^ 13) by (rewrite Z.shiftr_div_pow2 by lia; simpl; dlia).
  assert (Ef : ipfr_firstend e = Z.shiftr (fin_dlen fin) 3).
  { change (ipfr_firstend e) with (frag_firstend fin). unfold frag_firstend. rewrite E0, Hv, Hl. cbn [Z.eqb Pos.eqb].
    replace (fin_dp fin + fin_dlen fin - fin_dp fin) with (fin_dlen fin) by lia. apply u16_id. unfold is_u16. lia. }
  assert (Eo : ipfr_off e = Z.shiftr (fin_dlen fin) 3).
  { change (ipfr_off e) with (u16 (Z.shiftr (fin_off fin) 3 + Z.shiftr (fin_dlen fin) 3)). rewrite E0, Z.add_0_l.
    apply u16_id. unfold is_u16. lia. }
  assert (Es : ipfr_seen0 e = 1) by (unfold e, new_entry; cbn; by rewrite E0).
  assert (Hh : classify fin' e = Hit).
  { unfold classify. rewrite Es, Ef, Eo, Hoff. rewrite (proj2 (Z.eqb_neq (Z.shiftr (fin_dlen fin) 3) 0)) by lia.
    by rewrite Z.ltb_irrefl, Z.eqb_refl, !andb_false_r. }
  split; [done|]. unfold entry_after. rewrite Hh. destruct (see0_same fin' e) as (E2 & _).
  cbv zeta. rewrite E2, Eo, Hoff, Z.eqb_refl. done.
Qed.

(** A datagram whose first fragment was let through by a rule that keeps
    fragments: the fragment that follows it gets the same rule, with the keep-state
    and log-first flags of the rule turned off and the summary marked as state,
    and the entry expects the data after that fragment next. *)
Theorem new_then_known w fin fin' pass x junk blk fuel passp r rl :
  frag_wf w -> ipfr_lock w = 0 -> rules_live w -> frags w !! x = None -> matching w Heads fin = None ->
  addable w fin pass -> fin_fr fin = Some r -> rules w !! r = Some rl ->
  first_fragment fin -> follows fin fin' ->
  (2 + 2 * length (chain w Heads (frag_idx (softf_size w) fin)) <= fuel)%nat ->
  exists w1 w2 e pass' fin'', ipf_frag_new fin pass (Some (x, junk)) w = Some (0, w1) /\
    ipf_frag_known blk fuel fin' passp w1 = Some ((Some r, pass', fin''), w2) /\
    (pass', fin'') = frag_pass (fr_flags rl) (fin' <| fin_fr := Some r |>) /\ frag_wf w2 /\
    frags w2 !! x = Some e /\ ipfr_off e = u16 (Z.shiftr (fin_dlen fin') 3 + Z.shiftr (fin_dlen fin) 3).
Proof.
  intros Hwf Hl Hlive Hx Hm Ha Hfr Hrl Hff Hfo Hfuel. set (w1 := after_new w fin pass x junk).
  destruct (follows_hit w fin fin' pass junk Hff Hfo) as [Hh Hoff]. destruct Hfo as (Hs & _ & Hsh & Hbad).
  assert (He1 : frags w1 !! x = Some (new_entry w fin pass junk)) by apply lookup_insert_eq.
  destruct (frag_known_run blk fuel fin' w1 passp) as (fr & pass' & fin'' & w2 & Hk & Hwf2 & Hres);
    [by apply after_new_wf|done|done|done| |by apply after_new_live|].
  { change (softf_size w1) with (softf_size w). rewrite (same_datagram_idx _ _ _ Hs).
    unfold w1, after_new, set_flist, set_chain. cbn [chain field_set]. rewrite decide_True, Z.eqb_refl by done. simpl length. lia. }
  pose proof (matching_after_new w fin fin' pass x junk Hwf Hx Hs : matching w1 Heads fin' = Some x) as Hm'.
  rewrite Hm' in Hres. destruct Hres as (e & He & Hres). rewrite He1 in He. injection He as <-.
  rewrite decide_True in Hres by done. destruct Hres as (-> & Ht & Hres).
  assert (He2 : frags w2 !! x = Some (entry_after fin' (new_entry w fin pass junk)))
    by (rewrite (to_frags _ _ _ _ _ _ Ht); apply lookup_insert_eq).
  change (ipfr_rule (new_entry w fin pass junk)) with (fin_fr fin) in Hk, Hres. rewrite Hfr in Hk, Hres.
  destruct Hres as (rl' & Hrl' & Hp). exists w1, w2, (entry_after fin' (new_entry w fin pass junk)), pass', fin''.
  split; [by apply ipf_frag_new_run|]. split; [done|]. split; [|by split_and!].
  assert (E : fr_flags rl' = fr_flags rl); [|by rewrite <- E].
  unfold w1, after_new, set_flist in Hrl'. cbn in Hrl'. rewrite Hfr in Hrl'. simpl in Hrl'.
  rewrite lookup_alter_eq, Hrl in Hrl'. by injection Hrl' as <-.
Qed.
Lemma new_then_known_witness : exists w1 w2 e pass' fin'',
  ipf_frag_new (demo_frag 0 1480) FR_KEEPFRAG (Some (1%positive, demo_junk 0)) (empty_cache demo_rules) = Some (0, w1) /\
  ipf_frag_known 9%positive 2 (demo_frag 1480 100) 0 w1 = Some ((Some 7%positive, pass', fin''), w2) /\
  (pass', fin'') = frag_pass (Z.lor FR_PASS FR_KEEPSTATE) (demo_frag 1480 100 <| fin_fr := Some 7%positive |>) /\ frag_wf w2 /\
  frags w2 !! 1%positive = Some e /\ ipfr_off e = u16 (Z.shiftr (fin_dlen (demo_frag 1480 100)) 3 + Z.shiftr (fin_dlen (demo_frag 0 1480)) 3).
Proof.
  apply (new_then_known (empty_cache demo_rules) (demo_frag 0 1480) (demo_frag 1480 100) FR_KEEPFRAG 1%positive (demo_junk 0)
           9%positive 2 0 7%positive (mk_frule (Z.lor FR_PASS FR_KEEPSTATE) 1)); try reflexivity.
  - apply empty_cache_wf.
  - intros x e r He. done.
  - split; [reflexivity|]. split; [reflexivity|]. split; [done|]. intros r [= <-]. by eexists.
  - split; vm_compute; repeat split; discriminate.
  - split; [|repeat split]. by split_and!.
Defined.

(** C37. A rule is only handed on to a fragment that has an entry with its key, that once
    the first fragment was seen is not that fragment again and does not start in front of
    the end recorded for it, [ipfr_firstend], and that is the next in order when the rule
    asked for strict order.  (The end is recorded when the first fragment makes the entry;
    when a later one makes it, [ipfr_firstend] stays 0 and every start is allowed.)  The search comes back after at most two
    rounds of the chain, whatever the packet, and leaves the cache well formed. *)
Theorem known_sound w fin blk fuel passp :
  frag_wf w -> ipfr_lock w = 0 -> rules_live w ->
  has (fin_flx fin) FI_SHORT = false -> has (fin_flx fin) FI_BAD = false ->
  (2 * length (chain w Heads (frag_idx (softf_size w) fin)) <= fuel)%nat ->
  exists fr pass' fin' w', ipf_frag_known blk fuel fin passp w = Some ((fr, pass', fin'), w') /\ frag_wf w' /\
    forall r, fr = Some r -> exists f e, (f ∈ flist w Heads) /\ frags w !! f = Some e /\
      ipfr_rule e = Some r /\ ipfr_cmp e = frag_key fin /\
      (ipfr_seen0 e <> 0 -> frag_off fin <> 0 /\ ipfr_firstend e <= frag_off fin) /\
      (has (ipfr_pass e) FR_FRSTRICT = true -> frag_off fin = ipfr_off e).
Proof.
  intros Hwf Hl Hlive Hs Hb Hf.
  destruct (frag_known_run blk fuel fin w passp Hwf Hl Hs Hb Hf Hlive) as (fr & pass' & fin' & w' & Hk & Hwf' & Hres).
  exists fr, pass', fin', w'. split; [done|]. split; [done|]. intros r ->.
  destruct (matching w Heads fin) as [f|] eqn:Hm; [|by destruct Hres as (? & _)].
  destruct Hres as (e & He & Hres). case_decide as Hh; [|by destruct Hres as (? & _)]. destruct Hres as (Er & _ & _).
  destruct (matching_split w Heads fin f Hwf Hm) as (pre & post & e' & Hc & He' & Hkey & _). rewrite He in He'. injection He' as <-.
  assert (Hin : f ∈ chain w Heads (frag_idx (softf_size w) fin)) by (rewrite Hc; apply elem_mid).
  exists f, e. split; [by eapply (wf_chain_list w Hwf)|]. split_and!; try done.
  - unfold classify in Hh. intros Hs0%Z.eqb_neq. rewrite Hs0 in Hh. cbn [negb andb] in Hh.
    destruct (Z.eqb_spec (frag_off fin) 0); [done|]. split; [done|].
    destruct (Z.eqb_spec (ipfr_firstend e) 0) as [->|]; [apply u16_range|]. cbn [negb andb] in Hh.
    destruct (Z.ltb_spec (frag_off fin) (ipfr_firstend e)); [done|lia].
  - unfold classify in Hh. intros Hst. rewrite Hst, andb_true_r in Hh.
    destruct (_ && _) in Hh; [done|]. destruct (_ && _) in Hh; [done|].
    by destruct (Z.eqb_spec (frag_off fin) (ipfr_off e)).
Qed.
(** A cache that holds the entry of [demo_frag 0 1480]. *)
Definition demo_cache : fragw :=
  after_new (empty_cache demo_rules) (demo_frag 0 1480) FR_KEEPFRAG 1%positive (demo_junk 0).
Lemma demo_addable : addable (empty_cache demo_rules) (demo_frag 0 1480) FR_KEEPFRAG.
Proof. split; [reflexivity|]. split; [reflexivity|]. split; [done|]. intros r [= <-]. by eexists. Qed.
Lemma demo_cache_wf : frag_wf demo_cache.
Proof. apply after_new_wf; [apply empty_cache_wf|done|reflexivity]. Qed.
Lemma demo_cache_live : rules_live demo_cache.
Proof. apply after_new_live; [by intros ? ? ? ?|apply demo_addable]. Qed.
Lemma known_sound_witness : exists fr pass' fin' w',
  ipf_frag_known 9%positive 2 (demo_frag 1480 100) 0 demo_cache = Some ((fr, pass', fin'), w') /\ frag_wf w' /\
  forall r, fr = Some r -> exists f e, (f ∈ flist demo_cache Heads) /\ frags demo_cache !! f = Some e /\
      ipfr_rule e = Some r /\ ipfr_cmp e = frag_key (demo_frag 1480 100) /\
      (ipfr_seen0 e <> 0 -> frag_off (demo_frag 1480 100) <> 0 /\ ipfr_firstend e <= frag_off (demo_frag 1480 100)) /\
      (has (ipfr_pass e) FR_FRSTRICT = true -> frag_off (demo_frag 1480 100) = ipfr_off e).
Proof.
  apply (known_sound demo_cache (demo_frag 1480 100) 9%positive 2 0);
    [apply demo_cache_wf|reflexivity|apply demo_cache_live|reflexivity|reflexivity|].
  vm_compute. repeat constructor.
Defined.

(** The entry that a packet finds, from where it is. *)
Lemma matching_here w t fin f e : frag_wf w -> f ∈ chain w t (frag_idx (softf_size w) fin) -> frags w !! f = Some e ->
  ipfr_cmp e = frag_key fin -> matching w t fin = Some f.
Proof.
  intros Hwf Hf He Hk. destruct (matching w t fin) as [g|] eqn:Hm.
  - destruct (matching_split w t fin g Hwf Hm) as (pre & post & e' & Hc & He' & Hk' & _). f_equal.
    eapply (wf_keys w Hwf t); [rewrite Hc; apply elem_mid|exact Hf|]. unfold key_of. rewrite He, He'. cbn. by rewrite Hk, Hk'.
  - destruct (matching_none w t fin Hwf Hm f Hf) as (e' & He' & Hk'). rewrite He in He'. by injection He' as <-.
Qed.
(** What one hit leaves for the next packet of the datagram. *)
Lemma hit_leaves w w' fin fin' f e : frag_wf w' -> f ∈ chain w Heads (frag_idx (softf_size w) fin) -> frags w !! f = Some e ->
  ipfr_cmp e = frag_key fin -> same_datagram fin fin' -> rules_live w ->
  touches f (entry_after fin e) Heads (frag_idx (softf_size w) fin) w w' ->
  matching w' Heads fin' = Some f /\ frags w' !! f = Some (entry_after fin e) /\ ipfr_lock w' = ipfr_lock w /\ rules_live w' /\
  length (chain w' Heads (frag_idx (softf_size w') fin')) = length (chain w Heads (frag_idx (softf_size w) fin)).
Proof.
  intros Hwf Hf He Hk Hs Hl [T1 T2 _ _ (Es & _ & El & _ & _ & Er & _)]. destruct (entry_after_same fin e) as (Ec & Erule & _).
  assert (He' : frags w' !! f = Some (entry_after fin e)) by (rewrite T1; apply lookup_insert_eq).
  rewrite Es, (same_datagram_idx _ _ _ Hs). split; [|split; [done|split; [done|split]]].
  - eapply (matching_here w' Heads fin' f); [done| |exact He'|by rewrite Ec, Hk, (proj1 Hs)].
    rewrite Es, (same_datagram_idx _ _ _ Hs). by rewrite T2.
  - intros x e' r. rewrite T1, Er. intros [[<- <-]|[_ Hx]]%lookup_insert_Some; [rewrite Erule|]; by eapply Hl.
  - by rewrite T2.
Qed.

(** The entry that a later fragment makes. *)
Lemma late_new_entry w late pass junk : addable w late pass -> frag_off late <> 0 -> let e := new_entry w late pass junk in
  ipfr_seen0 e = ipfr_seen0 junk /\ ipfr_firstend e = 0 /\ has (ipfr_pass e) FR_FRSTRICT = false.
Proof.
  intros (_ & _ & Hst & _) Hlate. assert (Hne : Z.shiftr (fin_off late) 3 <> 0) by (intros E0; apply Hlate; unfold frag_off; by rewrite E0).
  unfold new_entry, frag_firstend. cbn. rewrite (proj2 (Z.eqb_neq _ _) Hne). split_and!; [done..|].
  destruct (has pass FR_FRSTRICT); [|done]. exfalso. apply Hne. by rewrite Hst.
Qed.

(** C38. When a later fragment makes the entry of a datagram, the end of the first fragment
    is never recorded: once the first one has come, which gets the rule, every fragment of
    the datagram that does not start at 0 gets the rule as well, also one that lies inside
    the first fragment, and it is not marked as bad. *)
Theorem late_entry_unguarded w late first lap pass x junk blk fuel passp r :
  frag_wf w -> ipfr_lock w = 0 -> rules_live w -> frags w !! x = None -> matching w Heads late = None ->
  addable w late pass -> fin_fr late = Some r -> frag_off late <> 0 -> ipfr_seen0 junk = 0 ->
  same_datagram late first -> frag_off first = 0 -> has (fin_flx first) FI_SHORT = false -> has (fin_flx first) FI_BAD = false ->
  same_datagram late lap -> frag_off lap <> 0 -> has (fin_flx lap) FI_SHORT = false -> has (fin_flx lap) FI_BAD = false ->
  (2 + 2 * length (chain w Heads (frag_idx (softf_size w) late)) <= fuel)%nat ->
  exists w1 w2 w3 p1 f1 p2 f2, ipf_frag_new late pass (Some (x, junk)) w = Some (0, w1) /\
    ipf_frag_known blk fuel first passp w1 = Some ((Some r, p1, f1), w2) /\
    ipf_frag_known blk fuel lap passp w2 = Some ((Some r, p2, f2), w3) /\
    (exists fl, (p2, f2) = frag_pass fl (lap <| fin_fr := Some r |>)) /\
    exists e, frags w2 !! x = Some e /\ ipfr_seen0 e = 1 /\ ipfr_firstend e = 0.
Proof.
  intros Hwf Hl Hlive Hx Hm Ha Hfr Hlate Hj Hs1 Ho1 Hsh1 Hb1 Hs2 Ho2 Hsh2 Hb2 Hfuel. set (w1 := after_new w late pass x junk).
  set (e := new_entry w late pass junk).
  assert (Hwf1 : frag_wf w1) by by apply after_new_wf. assert (Hl1 : rules_live w1) by by apply after_new_live.
  assert (He1 : frags w1 !! x = Some e) by apply lookup_insert_eq.
  destruct (late_new_entry w late pass junk Ha Hlate) as (Es & Ef & Est). fold e in Es, Ef, Est. rewrite Hj in Es.
  assert (Hch : chain w1 Heads (frag_idx (softf_size w1) first) = x :: chain w Heads (frag_idx (softf_size w) late)).
  { change (softf_size w1) with (softf_size w). rewrite (same_datagram_idx _ _ _ Hs1).
    unfold w1, after_new, set_flist, set_chain. cbn [chain field_set]. by rewrite decide_True, Z.eqb_refl. }
  destruct (frag_known_run blk fuel first w1 passp) as (fr & p1 & f1 & w2 & R1 & Hwf2 & H1); [done..|rewrite Hch; cbn [length]; lia|done|].
  rewrite (matching_after_new w late first pass x junk Hwf Hx Hs1 : matching w1 Heads first = Some x) in H1.
  destruct H1 as (e' & He' & H1). rewrite He1 in He'. injection He' as <-.
  assert (Hh1 : classify first e = Hit) by (unfold classify; by rewrite Es, Est, andb_false_r).
  rewrite decide_True in H1 by done. destruct H1 as (-> & T1 & _).
  assert (Hk : ipfr_cmp e = frag_key first) by (symmetry; apply Hs1).
  assert (Hs12 : same_datagram first lap) by (destruct Hs1 as (? & ? & ?), Hs2 as (? & ? & ?); split_and!; congruence).
  destruct (hit_leaves w1 w2 first lap x e) as (Hm2 & He2 & Hlk & Hl2 & Hlen); [done|rewrite Hch; by left|done..|].
  destruct (frag_known_run blk fuel lap w2 passp) as (fr & p2 & f2 & w3 & R2 & _ & H2);
    [done|by rewrite Hlk|done|done|rewrite Hlen, Hch; cbn [length]; lia|done|].
  rewrite Hm2 in H2. destruct H2 as (e' & He' & H2). rewrite He2 in He'. injection He' as <-.
  assert (Ea : ipfr_seen0 (entry_after first e) = 1 /\ ipfr_firstend (entry_after first e) = 0).
  { assert (E0 : see0 first e = e <| ipfr_seen0 := 1 |>) by (unfold see0; by rewrite Es, Ho1).
    unfold entry_after. rewrite Hh1, E0. destruct (frag_off first =? _); (split; [reflexivity|exact Ef]). }
  destruct (entry_after_same first e) as (_ & Er & _ & _ & _ & Ep).
  assert (Hh2 : classify lap (entry_after first e) = Hit).
  { unfold classify. destruct Ea as [-> ->]. by rewrite Ep, Est, (proj2 (Z.eqb_neq _ _) Ho2), !andb_false_r. }
  rewrite decide_True, Er in H2 by done. change (ipfr_rule e) with (fin_fr late) in *. rewrite Hfr in *. destruct H2 as (-> & _ & rl & _ & Hp2).
  exists w1, w2, w3, p1, f1, p2, f2. split; [by apply ipf_frag_new_run|]. split; [done|]. split; [done|]. split; [by eexists|].
  by exists (entry_after first e).
Qed.
Lemma late_entry_unguarded_witness : exists w1 w2 w3 p1 f1 p2 f2,
  ipf_frag_new (demo_frag 1480 100) FR_KEEPFRAG (Some (1%positive, demo_junk 0)) (empty_cache demo_rules) = Some (0, w1) /\
  ipf_frag_known 9%positive 2 (demo_frag 0 1480) 0 w1 = Some ((Some 7%positive, p1, f1), w2) /\
  ipf_frag_known 9%positive 2 (demo_frag 8 100) 0 w2 = Some ((Some 7%positive, p2, f2), w3).
Proof.
  destruct (late_entry_unguarded (empty_cache demo_rules) (demo_frag 1480 100) (demo_frag 0 1480) (demo_frag 8 100) FR_KEEPFRAG
    1%positive (demo_junk 0) 9%positive 2 0 7%positive) as (w1 & w2 & w3 & p1 & f1 & p2 & f2 & R1 & R2 & R3 & _); try reflexivity.
  - apply empty_cache_wf.
  - intros y e r He. done.
  - split; [reflexivity|]. split; [reflexivity|]. split; [done|]. intros r [= <-]. by eexists.
  - discriminate.
  - repeat split.
  - repeat split.
  - discriminate.
  - by exists w1, w2, w3, p1, f1, p2, f2.
Defined.

(** A fragment that lies inside the first fragment of its datagram is marked bad
    but gets no rule: the blocking rule that [ipf_frag_known] keeps for bad
    fragments and its reason code are never used, since the search that marks
    the packet returns no entry. *)
Theorem overlap_gets_no_rule w fin blk fuel passp f e :
  frag_wf w -> ipfr_lock w = 0 -> rules_live w -> has (fin_flx fin) FI_SHORT = false -> has (fin_flx fin) FI_BAD = false ->
  (2 * length (chain w Heads (frag_idx (softf_size w) fin)) <= fuel)%nat ->
  matching w Heads fin = Some f -> frags w !! f = Some e -> ipfr_seen0 e <> 0 ->
  0 < frag_off fin < ipfr_firstend e ->
  exists w', ipf_frag_known blk fuel fin passp w = Some ((None, passp, or_flx FI_BAD fin), w') /\ frag_wf w' /\
    fin_reason (or_flx FI_BAD fin) = fin_reason fin.
Proof.
  intros Hwf Hl Hlive Hs Hb Hf Hm He Hs0 Ho.
  destruct (frag_known_run blk fuel fin w passp Hwf Hl Hs Hb Hf Hlive) as (fr & pass' & fin' & w' & Hk & Hwf' & Hres).
  rewrite Hm in Hres. destruct Hres as (e' & He' & Hres). rewrite He in He'. injection He' as <-.
  assert (Hc : classify fin e = Overlap).
  { unfold classify. rewrite (proj2 (Z.eqb_neq _ _) Hs0), (proj2 (Z.eqb_neq (frag_off fin) 0)),
      (proj2 (Z.eqb_neq (ipfr_firstend e) 0)), (proj2 (Z.ltb_lt _ _)) by lia. done. }
  rewrite decide_False in Hres by congruence. destruct Hres as (-> & -> & ->). rewrite decide_True in Hk by done.
  exists w'. by split_and!.
Qed.
Lemma overlap_gets_no_rule_witness : exists w',
  ipf_frag_known 9%positive 2 (demo_frag 8 100) 0 demo_cache = Some ((None, 0, or_flx FI_BAD (demo_frag 8 100)), w') /\ frag_wf w' /\
  fin_reason (or_flx FI_BAD (demo_frag 8 100)) = fin_reason (demo_frag 8 100).
Proof.
  apply (overlap_gets_no_rule demo_cache (demo_frag 8 100) 9%positive 2 0 1%positive
           (new_entry (empty_cache demo_rules) (demo_frag 0 1480) FR_KEEPFRAG (demo_junk 0)));
    try reflexivity; try apply demo_cache_wf; try apply demo_cache_live; vm_compute; try done; repeat constructor.
Defined.

(** The search never comes back from a chain that leads to a freed entry. *)
Lemma lookup_loop_freed t idx fin w f pre post : forall fuel,
  (forall x, x ∈ pre -> exists e, frags w !! x = Some e /\ ipfr_cmp e <> frag_key fin) -> frags w !! f = None ->
  lookup_loop fuel t idx fin (pre ++ f :: post) w = None.
Proof.
  induction pre as [|x pre IH]; intros [|fuel] Hl Hf; cbn [app lookup_loop]; try done.
  - unfold mbind, st_bind, frag. by rewrite Hf.
  - destruct (Hl x ltac:(by left)) as (e & He & Hk). rewrite (bind_eq _ _ _ e w) by by apply (frag_run id).
    rewrite bool_decide_eq_false_2 by congruence. apply IH; [|done]. intros y Hy. apply Hl. by right.
Qed.

(** A second [ipf_frag_new] for a datagram that has an entry frees that entry,
    which the chain and the list still lead to, and loses the memory it
    allocated: the next fragment of the datagram reads freed memory. *)
Theorem duplicate_new_frees_entry w fin pass x junk f :
  frag_wf w -> ipfr_lock w = 0 -> addable w fin pass -> frags w !! x = None -> matching w Heads fin = Some f ->
  exists w', ipf_frag_new fin pass (Some (x, junk)) w = Some (-1, w') /\
    frags w' !! f = None /\ (f ∈ chain w' Heads (frag_idx (softf_size w') fin)) /\ (f ∈ flist w' Heads) /\
    frags w' !! x = Some junk /\ (forall t, x ∉ flist w' t) /\
    forall blk fuel fin' passp, same_datagram fin fin' -> has (fin_flx fin') FI_SHORT = false ->
      has (fin_flx fin') FI_BAD = false -> ipf_frag_known blk fuel fin' passp w' = None.
Proof.
  intros Hwf Hl Ha Hx Hm. destruct (matching_split w Heads fin f Hwf Hm) as (pre & post & e & Hc & He & Hk & Hmiss).
  set (idx := frag_idx (softf_size w) fin) in *.
  assert (Hin : f ∈ chain w Heads idx) by (rewrite Hc; apply elem_mid).
  assert (Hfl : f ∈ flist w Heads) by (by eapply (wf_chain_list w Hwf)).
  assert (Hxf : x <> f) by congruence.
  assert (Hxl : forall t, x ∉ flist w t) by (intros t Hin'; destruct (wf_alloc w Hwf t x Hin'); congruence).
  set (w' := w <| frags ::= <[x := junk]> |> <| frags ::= delete f |>).
  assert (Hother : forall y, y ∈ pre ++ post -> frags w' !! y = frags w !! y).
  { intros y Hy. pose proof (wf_chain_nodup w Hwf Heads idx) as Hnd. rewrite Hc in Hnd. apply mid_notin in Hnd.
    assert (Hyx : y <> x) by (intros ->; destruct (Hmiss x Hy) as (? & ? & _); congruence).
    simpl. rewrite lookup_delete_ne, lookup_insert_ne; [done|done|by intros ->]. }
  exists w'. split_and!; try done.
  - unfold ipf_frag_new. rewrite (bind_eq _ _ _ (ipfr_lock w) w) by done. rewrite Hl. cbn [Z.eqb negb].
    unfold ipfr_frag_new. rewrite (bind_eq _ _ _ None w'); [done|]. rewrite (bind_eq _ _ _ w w) by done.
    rewrite (addable_guards w fin pass) by done. fold idx.
    set (w1 := w <| frags ::= <[x := junk]> |>). rewrite (bind_eq _ _ _ tt w1) by done.
    rewrite Hc. rewrite (bind_eq _ _ _ (Some f) w1); [done|].
    apply (find_key_hit _ _ _ _ _ e); [|simpl; by rewrite lookup_insert_ne|done].
    intros y Hy. destruct (Hmiss y ltac:(set_solver)) as (ey & Hey & Hky). exists ey. split; [|done].
    simpl. rewrite lookup_insert_ne; [done|by intros ->; congruence].
  - simpl. apply lookup_delete_eq.
  - simpl. by rewrite lookup_delete_ne, lookup_insert_eq.
  - intros blk fuel fin' passp Hs Hsh Hb. unfold ipf_frag_known. rewrite (bind_eq _ _ _ w' w') by done.
    change (ipfr_lock w') with (ipfr_lock w). rewrite Hl. cbn [Z.eqb negb orb].
    rewrite bool_decide_eq_false_2 by (change (flist w Heads <> []); intros E; rewrite E in Hfl; by apply not_elem_of_nil in Hfl).
    unfold ipf_frag_lookup. rewrite Hsh, Hb. unfold mbind, st_bind, gets.
    change (softf_size (id w')) with (softf_size w). rewrite (same_datagram_idx _ _ _ Hs). fold idx.
    change (chain (id w') Heads idx) with (chain w Heads idx). rewrite Hc.
    rewrite lookup_loop_freed; [done| |simpl; apply lookup_delete_eq].
    intros y Hy. rewrite Hother by set_solver. destruct Hs as (-> & _). apply Hmiss. set_solver.
Qed.
Lemma duplicate_new_frees_entry_witness : exists w',
  ipf_frag_new (demo_frag 0 1480) FR_KEEPFRAG (Some (2%positive, demo_junk 0)) demo_cache = Some (-1, w') /\
    frags w' !! 1%positive = None /\ (1%positive ∈ chain w' Heads (frag_idx (softf_size w') (demo_frag 0 1480))) /\
    (1%positive ∈ flist w' Heads) /\
    frags w' !! 2%positive = Some (demo_junk 0) /\ (forall t, 2%positive ∉ flist w' t) /\
    forall blk fuel fin' passp, same_datagram (demo_frag 0 1480) fin' -> has (fin_flx fin') FI_SHORT = false ->
      has (fin_flx fin') FI_BAD = false -> ipf_frag_known blk fuel fin' passp w' = None.
Proof.
  apply (duplicate_new_frees_entry demo_cache (demo_frag 0 1480) FR_KEEPFRAG 2%positive (demo_junk 0) 1%positive);
    [apply demo_cache_wf|reflexivity| |reflexivity|vm_compute; reflexivity].
  split; [reflexivity|]. split; [reflexivity|]. split; [done|]. intros r [= <-]. by eexists.
Defined.

(** When the fragment that made the entry was not the first of its datagram, what
    the first fragment then gets depends on what the allocated memory held: the
    rule when [ipfr_seen0] happened to be zero, nothing otherwise. *)
Theorem late_first_fragment w fin fin' pass x junk blk fuel passp r :
  frag_wf w -> ipfr_lock w = 0 -> rules_live w -> frags w !! x = None -> matching w Heads fin = None ->
  addable w fin pass -> fin_fr fin = Some r -> Z.shiftr (fin_off fin) 3 <> 0 ->
  same_datagram fin fin' -> frag_off fin' = 0 -> has (fin_flx fin') FI_SHORT = false -> has (fin_flx fin') FI_BAD = false ->
  (2 + 2 * length (chain w Heads (frag_idx (softf_size w) fin)) <= fuel)%nat ->
  exists w1 w2 pass' fin'', ipf_frag_new fin pass (Some (x, junk)) w = Some (0, w1) /\
    ipf_frag_known blk fuel fin' passp w1 =
      Some ((if ipfr_seen0 junk =? 0 then Some r else None, pass', fin''), w2).
Proof.
  intros Hwf Hl Hlive Hx Hm Ha Hfr Hoff Hs Hoff' Hsh Hbad Hfuel. set (w1 := after_new w fin pass x junk).
  destruct (frag_known_run blk fuel fin' w1 passp) as (fr & pass' & fin'' & w2 & Hk & Hwf2 & Hres);
    [by apply after_new_wf|done|done|done| |by apply after_new_live|].
  { change (softf_size w1) with (softf_size w). rewrite (same_datagram_idx _ _ _ Hs).
    unfold w1, after_new, set_flist, set_chain. cbn [chain field_set]. rewrite decide_True, Z.eqb_refl by done. simpl length. lia. }
  exists w1, w2, pass', fin''. split; [by apply ipf_frag_new_run|]. rewrite Hk. do 4 f_equal.
  pose proof (matching_after_new w fin fin' pass x junk Hwf Hx Hs : matching w1 Heads fin' = Some x) as Hm'.
  rewrite Hm' in Hres. destruct Hres as (e & He & Hres).
  assert (He1 : frags w1 !! x = Some (new_entry w fin pass junk)) by apply lookup_insert_eq.
  rewrite He1 in He. injection He as <-. set (e := new_entry w fin pass junk) in *.
  assert (Es : ipfr_seen0 e = ipfr_seen0 junk).
  { unfold e, new_entry. cbn. by rewrite (proj2 (Z.eqb_neq _ _) Hoff). }
  assert (Hns : has (ipfr_pass e) FR_FRSTRICT = false).
  { change (ipfr_pass e) with pass. destruct Ha as (_ & _ & Hst & _). destruct (has pass FR_FRSTRICT); [|done].
    by rewrite Hst in Hoff. }
  assert (Hc : classify fin' e = if ipfr_seen0 junk =? 0 then Hit else Retrans).
  { unfold classify. rewrite Es, Hoff', Hns, andb_false_r. by destruct (ipfr_seen0 junk =? 0). }
  rewrite Hc in Hres. destruct (ipfr_seen0 junk =? 0).
  - rewrite decide_True in Hres by done. destruct Hres as (-> & _). exact Hfr.
  - rewrite decide_False in Hres by done. by destruct Hres as (-> & _).
Qed.
Lemma late_first_fragment_witness : exists w1 w2 pass' fin'',
  ipf_frag_new (demo_frag 1480 100) FR_KEEPFRAG (Some (1%positive, demo_junk 0xdead)) (empty_cache demo_rules) = Some (0, w1) /\
    ipf_frag_known 9%positive 2 (demo_frag 0 1480) 0 w1 = Some ((None, pass', fin''), w2).
Proof.
  apply (late_first_fragment (empty_cache demo_rules) (demo_frag 1480 100) (demo_frag 0 1480) FR_KEEPFRAG 1%positive
           (demo_junk 0xdead) 9%positive 2 0 7%positive);
    [apply empty_cache_wf|reflexivity|by intros ? ? ? ?|reflexivity|reflexivity| |reflexivity|vm_compute; discriminate
    |by split_and!|reflexivity|reflexivity|reflexivity|simpl; lia].
  split; [reflexivity|]. split; [reflexivity|]. split; [done|]. intros r [= <-]. by eexists.
Defined.

Lemma rule_refs_perm w l l' : l ≡ₚ l' -> rule_refs w l ≡ₚ rule_refs w l'.
Proof. intros H. unfold rule_refs. by rewrite H. Qed.
Lemma rules_cover_perm w l l' : l ≡ₚ l' -> rules_cover w l -> rules_cover w l'.
Proof.
  intros Hp Hc r Hr. pose proof (rule_refs_perm w _ _ Hp) as Hpr. destruct (Hc r) as (rl & Hrl & Hn); [by rewrite Hpr|].
  exists rl. split; [done|]. rewrite <- (proj1 (Permutation_count_occ Pos.eq_dec _ _) Hpr). done.
Qed.
Lemma nats_known_perm w l l' : l ≡ₚ l' -> nats_known w l -> nats_known w l'.
Proof. intros Hp Hn x e n Hx. apply Hn. by rewrite Hp. Qed.

Lemma purge_effect_elem t gone left w w' x : purge_effect t gone left w w' -> (forall y, y ∈ left -> y ∈ flist w t) ->
  forall t', x ∈ flist w' t' -> x ∈ flist w t'.
Proof.
  intros Hp Hl t' Hx. destruct (decide (t' = t)) as [->|Hne].
  - rewrite (pe_list _ _ _ _ _ Hp) in Hx. by apply Hl.
  - by rewrite (pe_lists _ _ _ _ _ Hp) in Hx.
Qed.

(** Running the removal loop on one table leaves the others as they were. *)
Lemma purge_other t gone left w w' t' :
  frag_wf w -> (forall y, y ∈ gone -> y ∈ flist w t) -> purge_effect t gone left w w' -> t' <> t ->
  flist w' t' = flist w t' /\ (forall b, purged w' b (flist w t') = purged w b (flist w t')) /\
  (forall y, y ∈ flist w t' -> frags w' !! y = frags w !! y).
Proof.
  intros Hwf Hg Hp Ht.
  assert (Hfr : forall y, y ∈ flist w t' -> frags w' !! y = frags w !! y).
  { intros y Hy. apply (pe_frags _ _ _ _ _ Hp). intros Hyg. apply Ht. by apply (wf_one_list w Hwf t' t y); [|apply Hg]. }
  split; [by apply (pe_lists _ _ _ _ _ Hp)|]. split; [|done]. intros b. apply purged_ext; [done|].
  apply (pe_same _ _ _ _ _ Hp).
Qed.

(** What [ipf_frag_expire] does: per table, the prefix of entries whose time has
    come is removed. *)
Definition due (w : fragw) (t : ftab) : list loc := purged w true (flist w t).

Record expire_effect (w w' : fragw) : Prop := {
  ee_wf : frag_wf w';
  ee_list : forall t, flist w' t = drop (length (due w t)) (flist w t);
  ee_frags : forall y, (forall t, y ∉ due w t) -> frags w' !! y = frags w !! y;
  ee_chain : forall t i y, y ∈ chain w' t i <-> y ∈ chain w t i /\ (y ∉ due w t);
  ee_gone : forall t x e, x ∈ due w t -> frags w !! x = Some e -> ipfr_ref e <= 1 -> frags w' !! x = None }.

Lemma due_list w t x : x ∈ due w t -> x ∈ flist w t.
Proof. apply purged_subset. Qed.

Lemma purge_step t others w fuel :
  frag_wf w -> (forall x, x ∈ others -> x ∉ flist w t) -> rules_cover w (flist w t ++ others) ->
  nats_known w (flist w t ++ others) -> (length (flist w t) <= fuel)%nat ->
  exists w', frag_purge fuel t true w = Some (tt, w') /\
    purge_effect t (due w t) (drop (length (due w t)) (flist w t)) w w' /\
    rules_cover w' (drop (length (due w t)) (flist w t) ++ others) /\
    nats_known w' (drop (length (due w t)) (flist w t) ++ others).
Proof. intros. by apply (frag_purge_run t true others (flist w t) fuel w). Qed.

Lemma elem_drop {A} (n : nat) (l : list A) x : x ∈ drop n l -> x ∈ l.
Proof. intros H. rewrite <- (take_drop n l). apply elem_of_app. by right. Qed.

Lemma expire_run w fuel :
  let all := flist w Heads ++ flist w Ipidtab ++ flist w Nattab in
  frag_wf w -> ipfr_lock w = 0 -> rules_cover w all -> nats_known w all -> (length all <= fuel)%nat ->
  exists w', ipf_frag_expire fuel w = Some (tt, w') /\ expire_effect w w'.
Proof.
  intros all Hwf Hl Hc Hn Hf. unfold all in *. rewrite !length_app in Hf.
  assert (Hdis : forall t t' x, t <> t' -> x ∈ flist w t -> x ∉ flist w t').
  { intros t t' x Hne Hx Hx'. by apply Hne, (wf_one_list w Hwf t t' x). }
  unfold ipf_frag_expire. rewrite (bind_eq _ _ _ (ipfr_lock w) w) by done. rewrite Hl. cbn [Z.eqb negb].
  destruct (purge_step Heads (flist w Ipidtab ++ flist w Nattab) w fuel) as (w1 & R1 & P1 & C1 & N1); try done; [|lia|].
  { intros x [Hx|Hx]%elem_of_app; by eapply Hdis; [|exact Hx]. }
  rewrite (bind_eq _ _ _ _ _ R1).
  destruct (purge_other _ _ _ _ _ Ipidtab Hwf (due_list w Heads) P1 ltac:(done)) as (L1i & D1i & F1i).
  destruct (purge_other _ _ _ _ _ Nattab Hwf (due_list w Heads) P1 ltac:(done)) as (L1n & D1n & F1n).
  set (kh := drop (length (due w Heads)) (flist w Heads)) in *.
  assert (Hkh : forall x, x ∈ kh -> x ∈ flist w Heads) by (intros; by eapply elem_drop).
  assert (Hp1 : kh ++ flist w Ipidtab ++ flist w Nattab ≡ₚ flist w1 Ipidtab ++ flist w Nattab ++ kh).
  { rewrite L1i, (app_assoc (flist w Ipidtab)), Permutation_app_comm. done. }
  destruct (purge_step Ipidtab (flist w Nattab ++ kh) w1 fuel) as (w2 & R2 & P2 & C2 & N2);
    [apply (pe_wf _ _ _ _ _ P1)| |by eapply rules_cover_perm|by eapply nats_known_perm|rewrite L1i; lia|].
  { rewrite L1i. intros x [Hx|Hx%Hkh]%elem_of_app; by eapply Hdis; [|exact Hx]. }
  rewrite (bind_eq _ _ _ _ _ R2).
  assert (Hd2 : due w1 Ipidtab = due w Ipidtab) by (unfold due; by rewrite L1i, D1i).
  destruct (purge_other _ _ _ _ _ Nattab (pe_wf _ _ _ _ _ P1) (due_list w1 Ipidtab) P2 ltac:(done)) as (L2n & D2n & F2n).
  destruct (purge_other _ _ _ _ _ Heads (pe_wf _ _ _ _ _ P1) (due_list w1 Ipidtab) P2 ltac:(done)) as (L2h & D2h & F2h).
  rewrite Hd2, L1i in *. set (ki := drop (length (due w Ipidtab)) (flist w Ipidtab)) in *.
  rewrite L1n in *. rewrite (pe_list _ _ _ _ _ P1) in *. fold kh in L2h.
  assert (exists w3, (l ← gets (fun w => flist w Nattab);
      when_ (negb (bool_decide (l = []))) (frag_purge fuel Nattab true)) w2 = Some (tt, w3) /\
      purge_effect Nattab (due w Nattab) (drop (length (due w Nattab)) (flist w Nattab)) w2 w3) as (w3 & R3 & P3).
  { assert (Hd3 : due w2 Nattab = due w Nattab) by (unfold due; rewrite L2n, D2n, D1n; done).
    rewrite (bind_eq _ _ _ (flist w2 Nattab) w2) by done.
    case_bool_decide as Hnil; cbn [negb when_].
    - exists w2. split; [done|]. rewrite <- Hd3, <- L2n. unfold due. rewrite Hnil. simpl.
      pose proof (purge_effect_none Nattab w2 (pe_wf _ _ _ _ _ P2)) as P. by rewrite Hnil in P.
    - destruct (purge_step Nattab (kh ++ ki) w2 fuel) as (w3 & R3 & P3 & _);
        [apply (pe_wf _ _ _ _ _ P2)| | | |rewrite L2n; lia|exists w3; split; [done|by rewrite Hd3, L2n in P3]].
      + rewrite L2n. intros x [Hx%Hkh|Hx%elem_drop]%elem_of_app; by eapply Hdis; [|exact Hx].
      + eapply rules_cover_perm; [|exact C2]. rewrite L2n, Permutation_app_comm, <- app_assoc. done.
      + eapply nats_known_perm; [|exact N2]. rewrite L2n, Permutation_app_comm, <- app_assoc. done. }
  exists w3. split; [done|].
  assert (Hall : forall t, t = Heads \/ t = Ipidtab \/ t = Nattab) by (intros []; tauto).
  split.
  - apply (pe_wf _ _ _ _ _ P3).
  - intros t. destruct t.
    + by rewrite (pe_lists _ _ _ _ _ P3), L2h by done.
    + apply (pe_list _ _ _ _ _ P3).
    + by rewrite (pe_lists _ _ _ _ _ P3), (pe_list _ _ _ _ _ P2) by done.
  - intros y Hy. by rewrite (pe_frags _ _ _ _ _ P3), (pe_frags _ _ _ _ _ P2), (pe_frags _ _ _ _ _ P1).
  - intros t i y. rewrite (pe_chain _ _ _ _ _ P3), (pe_chain _ _ _ _ _ P2), (pe_chain _ _ _ _ _ P1).
    split.
    + intros [[[Hy ?] ?] ?]. split; [done|]. by destruct t.
    + intros [Hy Hd]. assert (Hyt : y ∈ flist w t) by (by eapply (wf_chain_list w Hwf)).
      assert (Ho : forall t', y ∉ due w t').
      { intros t' Hin. pose proof (due_list _ _ _ Hin) as Hin'. by rewrite (wf_one_list w Hwf t t' y Hyt Hin') in Hd. }
      split_and!; [done|apply Ho..].
  - intros t x e Hx He Hr. pose proof (due_list _ _ _ Hx) as Hxt.
    assert (Ho : forall t', t' <> t -> x ∉ due w t') by (intros t' Hne Hin%due_list; by eapply Hdis).
    destruct t.
    + rewrite (pe_frags _ _ _ _ _ P3), (pe_frags _ _ _ _ _ P2) by (by apply Ho). by eapply (pe_gone _ _ _ _ _ P1).
    + eapply (pe_gone _ _ _ _ _ P3); [done| |done]. by rewrite F2n, F1n.
    + rewrite (pe_frags _ _ _ _ _ P3) by (by apply Ho). eapply (pe_gone _ _ _ _ _ P2); [done| |done]. by rewrite F1i.
Qed.

(** A list in order of age: entries that expire first come first. *)
Definition ttl_of (w : fragw) (x : loc) : Z := default 0 (ipfr_ttl <$> frags w !! x).
Definition by_age (w : fragw) (l : list loc) : Prop := StronglySorted (fun x y => ttl_of w x <= ttl_of w y) l.

Lemma purged_by_age w l x : by_age w l -> (forall y, y ∈ l -> is_Some (frags w !! y)) -> x ∈ l ->
  x ∈ purged w true l <-> ttl_of w x <= ipf_ticks w.
Proof.
  intros Hs Ha. induction l as [|y l IH]; [set_solver|]. intros Hx. apply StronglySorted_inv in Hs as [Hs Hy].
  rewrite List.Forall_forall in Hy. simpl. destruct (Ha y ltac:(by left)) as [e He]. rewrite He.
  assert (Et : ttl_of w y = ipfr_ttl e) by (unfold ttl_of; by rewrite He). cbn [andb].
  destruct (ipfr_ttl e >? ipf_ticks w) eqn:Eg; breflect.
  - split; [set_solver|]. apply elem_of_cons in Hx as [->|Hx]; [lia|].
    specialize (Hy x (proj1 (list_elem_of_In _ _) Hx)). lia.
  - destruct (decide (x = y)) as [->|Hne]; [split; [lia|by left]|]. apply elem_of_cons in Hx as [->|Hx]; [done|].
    rewrite elem_of_cons, IH; [naive_solver|done| |done]. intros z Hz. apply Ha. by right.
Qed.

Lemma purged_prefix w b l : purged w b l ++ drop (length (purged w b l)) l = l.
Proof.
  induction l as [|x l IH]; [done|]. simpl. destruct (frags w !! x); [|done]. destruct (_ && _); [done|].
  simpl. by rewrite IH.
Qed.

(** C39. When the lists are in order of age, [ipf_frag_expire] removes exactly the
    entries whose time has come, from their list and from their hash chain, in
    all three tables; what the others hold is unchanged, entries with no other
    reference are freed, the rules' counts suffice for the references that are
    dropped, and the loops come to an end. *)
Theorem expire_exactly_due w fuel :
  let all := flist w Heads ++ flist w Ipidtab ++ flist w Nattab in
  frag_wf w -> ipfr_lock w = 0 -> rules_cover w all -> nats_known w all -> (length all <= fuel)%nat ->
  (forall t, by_age w (flist w t)) ->
  exists w', ipf_frag_expire fuel w = Some (tt, w') /\ frag_wf w' /\
    (forall t x, x ∈ flist w' t <-> x ∈ flist w t /\ ipf_ticks w < ttl_of w x) /\
    (forall t i x, x ∈ chain w' t i <-> x ∈ chain w t i /\ ipf_ticks w < ttl_of w x) /\
    (forall t x, x ∈ flist w' t -> frags w' !! x = frags w !! x) /\
    (forall t x e, x ∈ flist w t -> frags w !! x = Some e -> ipfr_ttl e <= ipf_ticks w -> ipfr_ref e <= 1 -> frags w' !! x = None).
Proof.
  intros all Hwf Hl Hc Hn Hf Hs. destruct (expire_run w fuel Hwf Hl Hc Hn Hf) as (w' & Hrun & [E1 E2 E3 E4 E5]).
  assert (Hdue : forall t x, x ∈ flist w t -> x ∈ due w t <-> ttl_of w x <= ipf_ticks w).
  { intros t x Hx. apply purged_by_age; [done|apply (wf_alloc w Hwf)|done]. }
  assert (Hlist : forall t x, x ∈ flist w' t <-> x ∈ flist w t /\ (x ∉ due w t)).
  { intros t x. rewrite E2. pose proof (purged_prefix w true (flist w t)) as Hp. fold (due w t) in Hp.
    pose proof (wf_nodup w Hwf t) as Hnd. rewrite <- Hp in Hnd. apply NoDup_app in Hnd as (_ & Hd & _).
    rewrite <- Hp at 2. rewrite elem_of_app. naive_solver. }
  exists w'. split; [done|]. split; [done|]. split_and!.
  - intros t x. rewrite Hlist. split; intros [Hx Hd]; (split; [done|]).
    + apply Z.nle_gt. by rewrite <- (Hdue t x Hx).
    + rewrite (Hdue t x Hx). lia.
  - intros t i x. rewrite E4. split; intros [Hx Hd]; (split; [done|]);
      assert (Hxl : x ∈ flist w t) by (by eapply (wf_chain_list w Hwf)).
    + apply Z.nle_gt. by rewrite <- (Hdue t x Hxl).
    + rewrite (Hdue t x Hxl). lia.
  - intros t x [Hx Hd]%Hlist. apply E3. intros t' Hin. pose proof (due_list _ _ _ Hin) as Hin'.
    by rewrite (wf_one_list w Hwf t t' x Hx Hin') in Hd.
  - intros t x e Hx He Ht Hr. apply (E5 t x e); [|done|done]. rewrite (Hdue t x Hx). unfold ttl_of. by rewrite He.
Qed.

Lemma frag_wf_ticks w n : frag_wf w -> frag_wf (w <| ipf_ticks := n |>).
Proof. destruct w. intros [W1 W2 W3 W4 W5 W6 W7 W8]. by split. Qed.

(** The demonstration cache, when the entry's time has come. *)
Definition demo_expired : fragw := demo_cache <| ipf_ticks := 1120 |>.
Lemma expire_exactly_due_witness :
  exists w', ipf_frag_expire 1 demo_expired = Some (tt, w') /\ frag_wf w' /\
    (forall t x, x ∈ flist w' t <-> x ∈ flist demo_expired t /\ ipf_ticks demo_expired < ttl_of demo_expired x) /\
    (forall t i x, x ∈ chain w' t i <-> x ∈ chain demo_expired t i /\ ipf_ticks demo_expired < ttl_of demo_expired x) /\
    (forall t x, x ∈ flist w' t -> frags w' !! x = frags demo_expired !! x) /\
    (forall t x e, x ∈ flist demo_expired t -> frags demo_expired !! x = Some e -> ipfr_ttl e <= ipf_ticks demo_expired ->
       ipfr_ref e <= 1 -> frags w' !! x = None).
Proof.
  apply (expire_exactly_due demo_expired 1).
  - apply frag_wf_ticks, demo_cache_wf.
  - reflexivity.
  - intros r Hr. vm_compute in Hr. apply list_elem_of_singleton in Hr as ->.
    exists (mk_frule (Z.lor FR_PASS FR_KEEPSTATE) 2). split; [reflexivity|vm_compute; discriminate].
  - intros x e n Hx He Hd. vm_compute in Hx. apply list_elem_of_singleton in Hx as ->.
    vm_compute in He. injection He as <-. discriminate.
  - vm_compute. repeat constructor.
  - intros []; vm_compute; repeat constructor.
Defined.

(** *** NAT entries *)

Lemma natforget_loop_run ptr l : forall w, (forall x, x ∈ l -> is_Some (frags w !! x)) ->
  exists w', natforget_loop ptr l w = Some (tt, w') /\
    (forall x e', frags w' !! x = Some e' -> x ∈ l -> ipfr_data e' <> NatData ptr) /\
    (forall x, key_of w' x = key_of w x) /\ (forall x, is_Some (frags w' !! x) <-> is_Some (frags w !! x)) /\
    (forall x e, frags w !! x = Some e -> ipfr_data e <> NatData ptr -> frags w' !! x = Some e) /\
    chain w' = chain w /\ flist w' = flist w /\ ipfr_lock w' = ipfr_lock w /\ softf_size w' = softf_size w.
Proof.
  induction l as [|x l IH]; intros w Ha; [exists w; split_and!; try done; set_solver|]. cbn [natforget_loop].
  destruct (Ha x ltac:(by left)) as [e He]. rewrite (bind_eq _ _ _ _ _ (frag_run ipfr_data x w e He)).
  set (e1 := if bool_decide (ipfr_data e = NatData ptr) then e <| ipfr_data := NullData |> else e).
  assert (exists w1, when_ (bool_decide (ipfr_data e = NatData ptr)) (upd_frag x (fun e => e <| ipfr_data := NullData |>)) w = Some (tt, w1) /\
    w1 = w <| frags := <[x := e1]> (frags w) |>) as (w1 & Hw1 & E1).
  { unfold e1. case_bool_decide; cbn [when_]; [eexists; split; [by apply upd_frag_eq|done]|].
    exists w. split; [done|]. destruct w. unfold field_set. cbn in *. by rewrite insert_id. }
  rewrite (bind_eq _ _ _ _ _ Hw1). assert (Hx1 : frags w1 !! x = Some e1) by (subst w1; apply lookup_insert_eq).
  assert (Hne : forall y, y <> x -> frags w1 !! y = frags w !! y) by (intros; subst w1; simpl; by apply lookup_insert_ne).
  assert (Hsome : forall y, is_Some (frags w1 !! y) <-> is_Some (frags w !! y)).
  { intros y. destruct (decide (y = x)) as [->|]; [rewrite Hx1, He; by split; eexists|by rewrite Hne]. }
  assert (Hd1 : ipfr_data e1 <> NatData ptr) by (unfold e1; by case_bool_decide).
  assert (Hk1 : ipfr_cmp e1 = ipfr_cmp e) by (unfold e1; by case_bool_decide).
  destruct (IH w1) as (w' & Hw' & Hno & Hkey & Hs & Hsame & Hrest); [intros y Hy; apply Hsome, Ha; by right|].
  exists w'. split; [done|]. split_and!.
  - intros y e' He' [->|Hy]%elem_of_cons; [|by eapply Hno]. rewrite (Hsame x e1 Hx1 Hd1) in He'. by injection He' as <-.
  - intros y. rewrite Hkey. unfold key_of. destruct (decide (y = x)) as [->|]; [rewrite Hx1, He; simpl; by rewrite Hk1|by rewrite Hne].
  - intros y. by rewrite Hs.
  - intros y ey Hy Hd. apply Hsame; [|done]. destruct (decide (y = x)) as [->|]; [|by rewrite Hne].
    rewrite He in Hy. injection Hy as <-. rewrite Hx1. unfold e1. by rewrite bool_decide_eq_false_2.
  - subst w1. apply Hrest.
  - subst w1. apply Hrest.
  - subst w1. apply Hrest.
  - subst w1. apply Hrest.
Qed.

(** After [ipf_frag_natforget] of a NAT entry, no fragment is attributed to it:
    the cache stays well formed, every search of the NAT table still comes to an
    end, and none answers with the forgotten entry. *)
Theorem natforget_forgets ptr w :
  frag_wf w ->
  exists w', ipf_frag_natforget ptr w = Some (tt, w') /\ frag_wf w' /\
    (forall x e, frags w !! x = Some e -> ipfr_data e <> NatData ptr -> frags w' !! x = Some e) /\
    forall fin fuel, has (fin_flx fin) FI_SHORT = false -> has (fin_flx fin) FI_BAD = false ->
      (2 * length (chain w Nattab (frag_idx (softf_size w) fin)) <= fuel)%nat ->
      exists nat fin' w'', ipf_frag_natknown fuel fin w' = Some ((nat, fin'), w'') /\ nat <> Some ptr.
Proof.
  intros Hwf. destruct (natforget_loop_run ptr (flist w Nattab) w (wf_alloc w Hwf Nattab))
    as (w' & Hw' & Hno & Hkey & Hs & Hsame & Hch & Hfl & Hlk & Hsz).
  assert (Hwf' : frag_wf w').
  { destruct Hwf as [W1 W2 W3 W4 W5 W6 W7 W8]. split; rewrite ?Hch, ?Hfl; try done.
    - intros t x Hx. apply Hs. by eapply W2.
    - intros t i x y. rewrite !Hkey. apply W8. }
  exists w'. split; [by unfold ipf_frag_natforget; rewrite (bind_eq _ _ _ (flist w Nattab) w) by done|].
  split; [done|]. split; [done|]. intros fin fuel Hsh Hb Hf.
  unfold ipf_frag_natknown. rewrite (bind_eq _ _ _ w' w') by done.
  destruct (_ || _); [by exists None, fin, w'|].
  pose proof (frag_lookup_run fuel Nattab fin w' Hwf' Hsh Hb ltac:(by rewrite Hsz, Hch)) as Hrun.
  destruct (matching w' Nattab fin) as [f|] eqn:Hm; [|rewrite (bind_eq _ _ _ _ _ Hrun); by eexists None, _, _].
  destruct Hrun as (e & w2 & He & Hrun & Ht & Hwf2). rewrite (bind_eq _ _ _ _ _ Hrun). cbn [fst snd].
  case_decide; [|by eexists None, _, _].
  assert (He2 : frags w2 !! f = Some (entry_after fin e)) by (rewrite (to_frags _ _ _ _ _ _ Ht); apply lookup_insert_eq).
  rewrite (bind_eq _ _ _ _ _ (frag_run id f w2 _ He2)). cbn [id].
  destruct (entry_after_same fin e) as (_ & _ & _ & _ & -> & _).
  assert (Hd : ipfr_data e <> NatData ptr).
  { destruct (matching_split w' Nattab fin f Hwf' Hm) as (pre & post & e' & Hc & He' & _).
    apply (Hno f e He). rewrite <- Hfl. eapply (wf_chain_list w' Hwf'). rewrite Hc. apply elem_mid. }
  destruct (ipfr_data e) as [|n|]; [by eexists None, _, _| |by eexists None, _, _].
  assert (exists w3, when_ (ipfr_ttl (entry_after fin e) =? ipf_ticks w' + 1)
            (modify (fun w => w <| nat_data ::= <[n := None]> |>);;
             upd_frag f (fun e => e <| ipfr_data := NullData |>)) w2 = Some (tt, w3)) as (w3 & Hw3).
  { destruct (_ =? _); cbn [when_]; [|by eexists]. erewrite bind_eq by done. eexists. by apply upd_frag_eq. }
  eexists (Some n), _, w3. split; [by erewrite bind_eq by exact Hw3|congruence].
Qed.
Lemma natforget_forgets_witness :
  exists w', ipf_frag_natforget 3%positive demo_cache = Some (tt, w') /\ frag_wf w' /\
    (forall x e, frags demo_cache !! x = Some e -> ipfr_data e <> NatData 3%positive -> frags w' !! x = Some e) /\
    forall fin fuel, has (fin_flx fin) FI_SHORT = false -> has (fin_flx fin) FI_BAD = false ->
      (2 * length (chain demo_cache Nattab (frag_idx (softf_size demo_cache) fin)) <= fuel)%nat ->
      exists nat fin' w'', ipf_frag_natknown fuel fin w' = Some ((nat, fin'), w'') /\ nat <> Some 3%positive.
Proof. apply (natforget_forgets 3%positive demo_cache). apply demo_cache_wf. Defined.
