(* ===== verification/Matcharray.v ===== *)
(** Matching arrays: the compiled form of expressions such as
    ["ip.src=10.0.0.0/8;tcp.dport=22;"], loaded and checked by fil.c, applied to
    packets there and to state entries by ip_state.c, and laid out by
    lib/parseipfexpr.c.

    An array is a list of C [int]s; reading outside it is an outcome of its own,
    distinct from running out of fuel. *)
From S2P Require Import Prelude Packet Timeoutq TcpWindow.

(** ** Results *)
Inductive res (A : Type) :=
  | Ok (a : A)
  | Outside      (* an access outside the array *)
  | NoFuel.
Arguments Ok {_} _.
Arguments Outside {_}.
Arguments NoFuel {_}.
#[export] Instance res_ret : MRet res := @Ok.
#[export] Instance res_bind : MBind res := fun A B k m =>
  match m with Ok a => k a | Outside => Outside | NoFuel => NoFuel end.

(** [a[i]]. *)
Definition at_ (a : list Z) (i : Z) : res Z :=
  if i <? 0 then Outside else match a !! Z.to_nat i with Some v => Ok v | None => Outside end.

Definition EINVAL : Z := 22.
Definition ENOMEM : Z := 12.
Definition EFAULT : Z := 14.
Definition IPFOBJ_IPFEXPR : Z := 20.

Definition IPF_EXP_IP_PR : Z := 0x00000001.
Definition IPF_EXP_IP_ADDR : Z := 0x00000002.
Definition IPF_EXP_IP_SRCADDR : Z := 0x00000003.
Definition IPF_EXP_IP_DSTADDR : Z := 0x00000004.
Definition IPF_EXP_IP6_ADDR : Z := 0x00000005.
Definition IPF_EXP_IP6_SRCADDR : Z := 0x00000006.
Definition IPF_EXP_IP6_DSTADDR : Z := 0x00000007.
Definition IPF_EXP_TCP_FLAGS : Z := 0x00060001.
Definition IPF_EXP_TCP_PORT : Z := 0x00060002.
Definition IPF_EXP_TCP_SPORT : Z := 0x00060003.
Definition IPF_EXP_TCP_DPORT : Z := 0x00060004.
Definition IPF_EXP_UDP_PORT : Z := 0x00110002.
Definition IPF_EXP_UDP_SPORT : Z := 0x00110003.
Definition IPF_EXP_UDP_DPORT : Z := 0x00110004.
Definition IPF_EXP_IDLE_GT : Z := 0x01000001.
Definition IPF_EXP_TCP_STATE : Z := 0x01060002.
Definition IPF_EXP_END : Z := 0xffffffff.

(** The fields of the [ipfexp_t] that starts at [array + x]. *)
Definition ipfe_cmd (a : list Z) (x : Z) : res Z := at_ a x.
Definition ipfe_not (a : list Z) (x : Z) : res Z := at_ a (x + 1).
Definition ipfe_narg (a : list Z) (x : Z) : res Z := at_ a (x + 2).
Definition ipfe_size (a : list Z) (x : Z) : res Z := at_ a (x + 3).
Definition ipfe_arg0 (a : list Z) (x i : Z) : res Z := at_ a (x + 4 + i).

(** ** Loading and checking *)

(** The loop of [ipf_matcharray_verify]; the sums are of C [int]s and wrap around. *)
Fixpoint verify_loop (fuel : nat) (a : list Z) (i maxidx : Z) : res Z :=
  if i <? maxidx then
    match fuel with
    | O => NoFuel
    | S fuel =>
        size ← ipfe_size a i;
        if (size <? 1) || (i32 (size + i) >? maxidx) then Ok (-1) else verify_loop fuel a (i32 (i + size)) maxidx
    end
  else Ok 0.

Definition ipf_matcharray_verify (fuel : nat) (a : list Z) (arraysize : Z) : res Z :=
  let nelem := arraysize / 4 in
  a0 ← at_ a 0;
  if (a0 <? 6) || (arraysize <? 24) || (arraysize >? 4096) then Ok (-1) else
  if negb (a0 * 4 =? arraysize) then Ok (-1) else
  let maxidx := nelem - 1 in
  last ← at_ a maxidx;
  if negb (u32 last =? IPF_EXP_END) then Ok (-1) else
  verify_loop fuel a 1 maxidx.

(** The part of [ipfobj_t] that is used. *)
Record ipfobj := mk_ipfobj { ipfo_type : Z; ipfo_size : Z; ipfo_retval : Z }.
#[export] Instance eta_ipfobj : Eta ipfobj := fun r => mk_ipfobj (ipfo_type r) (ipfo_size r) (ipfo_retval r).

(** [ipf_matcharray_load].  [obj] is what copying in the object yields (nothing on
    a fault), [mem] tells whether memory is available, [copyin n] copies [n] bytes
    of the array in.  The result is the error and the array. *)
Definition ipf_matcharray_load (fuel : nat) (obj : option ipfobj) (mem : bool) (copyin : Z -> option (list Z)) :
    res (Z * option (list Z)) :=
  match obj with
  | None => Ok (EFAULT, None)
  | Some obj =>
      if negb (ipfo_type obj =? IPFOBJ_IPFEXPR) then Ok (EINVAL, None) else
      if negb (Z.land (ipfo_size obj) 3 =? 0) || (ipfo_size obj =? 0) || (ipfo_size obj >? 1024)
      then Ok (EINVAL, None) else
      let arraysize := ipfo_size obj * 4 in
      if negb mem then Ok (ENOMEM, None) else
      match copyin arraysize with
      | None => Ok (EFAULT, None)
      | Some array =>
          v ← ipf_matcharray_verify fuel array arraysize;
          if negb (v =? 0) then Ok (EINVAL, None) else Ok (0, Some array)
      end
  end.

(** ** Applying *)

(** [for (i = 0; !rv && i < n; i++) rv |= test(i)], from [i] on. *)
Fixpoint any_arg (n : nat) (i : Z) (test : Z -> res bool) (rv : Z) : res Z :=
  match n with
  | O => Ok rv
  | S n =>
      if negb (rv =? 0) then Ok rv
      else b ← test i; any_arg n (i + 1) test (Z.lor rv (b2z b))
  end.
Definition for_args (n : Z) (test : Z -> res bool) (rv : Z) : res Z := any_arg (Z.to_nat n) 0 test rv.

(** [(v & arg0[i * 2 + 1]) == arg0[i * 2]], for an unsigned [v]. *)
Definition arg_mask (a : list Z) (x v i : Z) : res bool :=
  m ← ipfe_arg0 a x (i * 2 + 1);
  b ← ipfe_arg0 a x (i * 2);
  mret (Z.land v (u32 m) =? u32 b).
(** [IP6_MASKEQ(addr, &arg0[i * 8 + 4], &arg0[i * 8])]: the words are compared in
    turn, and only as long as they agree. *)
Fixpoint maskeq_words (a : list Z) (m b : Z) (ws : list Z) (k : Z) : res bool :=
  match ws with
  | [] => mret true
  | w :: ws =>
      mw ← at_ a (m + k);
      bw ← at_ a (b + k);
      if Z.land w (u32 mw) =? u32 bw then maskeq_words a m b ws (k + 1) else mret false
  end.
Definition arg_mask6 (a : list Z) (x : Z) (addr : i6addr) (i : Z) : res bool :=
  maskeq_words a (x + 4 + (i * 8 + 4)) (x + 4 + i * 8) (i6_words addr) 0.
(** [v == arg0[i]]. *)
Definition arg_eq (a : list Z) (x v i : Z) : res bool := b ← ipfe_arg0 a x i; mret (v =? b).
Definition arg_eq32 (a : list Z) (x v i : Z) : res bool := b ← ipfe_arg0 a x i; mret (v =? u32 b).
(** [t || u], the second test only when the first fails, and [rv |= t; rv |= u]. *)
Definition either (t u : res bool) : res bool := b ← t; if (b : bool) then mret true else u.
Definition both_or (t u : res bool) : res bool := b ← t; c ← u; mret (b || c).

(** The [switch] of [ipf_fr_matcharray]. *)
Definition fr_command (fin : fr_info) (a : list Z) (x cmd narg rv : Z) : res Z :=
  if cmd =? IPF_EXP_IP_PR then for_args narg (arg_eq a x (fin_p fin)) rv
  else if cmd =? IPF_EXP_IP_SRCADDR then
    if negb (fin_v fin =? 4) then Ok rv else for_args narg (arg_mask a x (fin_saddr fin)) rv
  else if cmd =? IPF_EXP_IP_DSTADDR then
    if negb (fin_v fin =? 4) then Ok rv else for_args narg (arg_mask a x (fin_daddr fin)) rv
  else if cmd =? IPF_EXP_IP_ADDR then
    if negb (fin_v fin =? 4) then Ok rv
    else for_args narg (fun i => both_or (arg_mask a x (fin_saddr fin) i) (arg_mask a x (fin_daddr fin) i)) rv
  else if cmd =? IPF_EXP_IP6_SRCADDR then
    if negb (fin_v fin =? 6) then Ok rv else for_args narg (arg_mask6 a x (fin_src6 fin)) rv
  else if cmd =? IPF_EXP_IP6_DSTADDR then
    if negb (fin_v fin =? 6) then Ok rv else for_args narg (arg_mask6 a x (fin_dst6 fin)) rv
  else if cmd =? IPF_EXP_IP6_ADDR then
    if negb (fin_v fin =? 6) then Ok rv
    else for_args narg (fun i => both_or (arg_mask6 a x (fin_src6 fin) i) (arg_mask6 a x (fin_dst6 fin) i)) rv
  else if (cmd =? IPF_EXP_UDP_PORT) || (cmd =? IPF_EXP_TCP_PORT) then
    for_args narg (fun i => either (arg_eq32 a x (fin_sport fin) i) (arg_eq32 a x (fin_dport fin) i)) rv
  else if (cmd =? IPF_EXP_UDP_SPORT) || (cmd =? IPF_EXP_TCP_SPORT) then
    for_args narg (arg_eq32 a x (fin_sport fin)) rv
  else if (cmd =? IPF_EXP_UDP_DPORT) || (cmd =? IPF_EXP_TCP_DPORT) then
    for_args narg (arg_eq32 a x (fin_dport fin)) rv
  else if cmd =? IPF_EXP_TCP_FLAGS then for_args narg (arg_mask a x (fin_tcpf fin)) rv
  else Ok rv.

(** The loop of [ipf_fr_matcharray]; [n] counts down the size, [x] is the position
    of the expression. *)
Fixpoint fr_match_loop (fuel : nat) (fin : fr_info) (a : list Z) (n x rv : Z) : res Z :=
  if n >? 0 then
    match fuel with
    | O => NoFuel
    | S fuel =>
        cmd ← ipfe_cmd a x;
        if u32 cmd =? IPF_EXP_END then Ok rv else
        size ← ipfe_size a x;
        let n := i32 (n - size) in
        let p := Z.shiftr cmd 16 in
        if negb (p =? 0) && negb (p =? fin_p fin) then Ok rv else
        narg ← ipfe_narg a x;
        rv ← fr_command fin a x cmd narg rv;
        ne ← ipfe_not a x;
        let rv := Z.lxor rv ne in
        if rv =? 0 then Ok rv else
        step ← at_ a (x + 3);
        fr_match_loop fuel fin a n (x + i32 (3 + step)) 0
    end
  else Ok rv.

Definition ipf_fr_matcharray (fuel : nat) (fin : fr_info) (a : list Z) : res Z :=
  n ← at_ a 0;
  fr_match_loop fuel fin a n 1 0.

(** The [switch] of [ipf_state_matcharray], for the entry [ist] with the timeout
    entry [t]; the loops over IPv6 addresses are bounded by the size of the
    expression. *)
Definition state_command (ist : ipstate) (t : ipftqent) (ticks : Z) (a : list Z) (x cmd narg rv : Z) : res Z :=
  if cmd =? IPF_EXP_IP_PR then for_args narg (arg_eq a x (is_p ist)) rv
  else if cmd =? IPF_EXP_IP_SRCADDR then
    if negb (is_v ist =? 4) then Ok rv else for_args narg (arg_mask a x (i60 (is_src ist))) rv
  else if cmd =? IPF_EXP_IP_DSTADDR then
    if negb (is_v ist =? 4) then Ok rv else for_args narg (arg_mask a x (i60 (is_dst ist))) rv
  else if cmd =? IPF_EXP_IP_ADDR then
    if negb (is_v ist =? 4) then Ok rv
    else for_args narg (fun i => either (arg_mask a x (i60 (is_src ist)) i) (arg_mask a x (i60 (is_dst ist)) i)) rv
  else if cmd =? IPF_EXP_IP6_SRCADDR then
    if negb (is_v ist =? 6) then Ok rv
    else n ← at_ a (x + 3); for_args n (arg_mask6 a x (is_src ist)) rv
  else if cmd =? IPF_EXP_IP6_DSTADDR then
    if negb (is_v ist =? 6) then Ok rv
    else n ← at_ a (x + 3); for_args n (arg_mask6 a x (is_dst ist)) rv
  else if cmd =? IPF_EXP_IP6_ADDR then
    if negb (is_v ist =? 6) then Ok rv
    else n ← at_ a (x + 3);
         for_args n (fun i => either (arg_mask6 a x (is_src ist) i) (arg_mask6 a x (is_dst ist) i)) rv
  else if (cmd =? IPF_EXP_UDP_PORT) || (cmd =? IPF_EXP_TCP_PORT) then
    for_args narg (fun i => either (arg_eq a x (is_sport ist) i) (arg_eq a x (is_dport ist) i)) rv
  else if (cmd =? IPF_EXP_UDP_SPORT) || (cmd =? IPF_EXP_TCP_SPORT) then
    for_args narg (arg_eq a x (is_sport ist)) rv
  else if (cmd =? IPF_EXP_UDP_DPORT) || (cmd =? IPF_EXP_TCP_DPORT) then
    for_args narg (arg_eq a x (is_dport ist)) rv
  else if cmd =? IPF_EXP_TCP_STATE then
    for_args narg (fun i => either (arg_eq a x (tqe_state0 t) i) (arg_eq a x (tqe_state1 t) i)) rv
  else if cmd =? IPF_EXP_IDLE_GT then
    b ← ipfe_arg0 a x 0;
    mret (Z.lor rv (b2z (u64 (ticks - tqe_touched t) >? u64 b)))
  else Ok rv.

(** [ipf_state_matcharray]. *)
Fixpoint state_match_loop (fuel : nat) (ist : ipstate) (t : ipftqent) (ticks : Z) (a : list Z) (n x rv : Z) : res Z :=
  if n >? 0 then
    match fuel with
    | O => NoFuel
    | S fuel =>
        size ← ipfe_size a x;
        let n := i32 (n - size) in
        cmd ← at_ a x;
        if u32 cmd =? IPF_EXP_END then Ok rv else
        let p := Z.shiftr cmd 16 in
        if negb (p =? 0) && negb (p =? is_p ist) then Ok rv else
        narg ← ipfe_narg a x;
        rv ← state_command ist t ticks a x cmd narg rv;
        ne ← ipfe_not a x;
        let rv := Z.lxor rv ne in
        if rv =? 0 then Ok rv else
        step ← at_ a (x + 3);
        state_match_loop fuel ist t ticks a n (x + i32 (3 + step)) 0
    end
  else Ok rv.

Definition ipf_state_matcharray (fuel : nat) (ist : ipstate) (t : ipftqent) (a : list Z) (ticks : Z) : res Z :=
  n ← at_ a 0;
  state_match_loop fuel ist t ticks a n 1 0.

(** The loop of [ipf_state_matchflush] over the list of entries; the result is the
    entries handed to [ipf_state_del] and their number. *)
Fixpoint matchflush_loop (fuel : nat) (a : list Z) (ticks : Z) (l : list (ipstate * ipftqent)) (flushed : Z) :
    res (list (ipstate * ipftqent) * Z) :=
  match l with
  | [] => Ok ([], flushed)
  | (ist, t) :: l =>
      r ← ipf_state_matcharray fuel ist t a ticks;
      if r =? 0 then
        d ← matchflush_loop fuel a ticks l (i32 (flushed + 1));
        mret ((ist, t) :: fst d, snd d)
      else matchflush_loop fuel a ticks l flushed
  end.

(** [ipf_state_matchflush]: the error, the entries deleted and the object that is
    copied out ([copyout] is the error of that). *)
Definition ipf_state_matchflush (fuel : nat) (obj : option ipfobj) (mem : bool) (copyin : Z -> option (list Z))
    (copyout : Z) (ticks : Z) (l : list (ipstate * ipftqent)) : res (Z * list (ipstate * ipftqent) * option ipfobj) :=
  ld ← ipf_matcharray_load fuel obj mem copyin;
  match ld with
  | (error, None) => Ok (error, [], None)
  | (_, Some array) =>
      d ← matchflush_loop fuel array ticks l 0;
      mret (copyout, fst d, (fun o => o <| ipfo_retval := snd d |>) <$> obj)
  end.

(** ** The layout of parseipfexpr

    [opwords] gives, per keyword, the command and how many integers an argument
    takes; an operand is a keyword, whether it is negated, and for each item of
    its argument list the integers it was translated to. *)
Record ipfopentry := mk_ipfopentry {
  ipoe_cmd : Z; ipoe_nbasearg : Z; ipoe_maxarg : Z; ipoe_argsize : Z }.
Definition op_ip_addr := mk_ipfopentry IPF_EXP_IP_ADDR 2 0 1.
Definition op_ip6_addr := mk_ipfopentry IPF_EXP_IP6_ADDR 2 0 4.
Definition op_ip_p := mk_ipfopentry IPF_EXP_IP_PR 1 0 1.
Definition op_ip_src := mk_ipfopentry IPF_EXP_IP_SRCADDR 2 0 1.
Definition op_ip_dst := mk_ipfopentry IPF_EXP_IP_DSTADDR 2 0 1.
Definition op_ip6_src := mk_ipfopentry IPF_EXP_IP6_SRCADDR 2 0 4.
Definition op_ip6_dst := mk_ipfopentry IPF_EXP_IP6_DSTADDR 2 0 4.
Definition op_tcp_port := mk_ipfopentry IPF_EXP_TCP_PORT 1 0 1.
Definition op_tcp_dport := mk_ipfopentry IPF_EXP_TCP_DPORT 1 0 1.
Definition op_tcp_sport := mk_ipfopentry IPF_EXP_TCP_SPORT 1 0 1.
Definition op_tcp_flags := mk_ipfopentry IPF_EXP_TCP_FLAGS 2 0 1.
Definition op_udp_port := mk_ipfopentry IPF_EXP_UDP_PORT 1 0 1.
Definition op_udp_dport := mk_ipfopentry IPF_EXP_UDP_DPORT 1 0 1.
Definition op_udp_sport := mk_ipfopentry IPF_EXP_UDP_SPORT 1 0 1.
Definition op_tcp_state := mk_ipfopentry IPF_EXP_TCP_STATE 1 0 1.
Definition op_idle_gt := mk_ipfopentry IPF_EXP_IDLE_GT 1 1 1.

Record operand := mk_operand { op_entry : ipfopentry; op_not : bool; op_items : list (list Z) }.

Definition ipfexp_ints (o : operand) : list Z :=
  let e := op_entry o in
  let items := Z.of_nat (length (op_items o)) in
  [ipoe_cmd e; b2z (op_not o); items * ipoe_nbasearg e; items * ipoe_nbasearg e * ipoe_argsize e + 4]
  ++ concat (op_items o).

(** The array for the operands of a line: the size in front, [IPF_EXP_END] behind;
    null when an operand has too many items. *)
Definition parseipfexpr_layout (ops : list operand) : option (list Z) :=
  if existsb (fun o => negb (ipoe_maxarg (op_entry o) =? 0) &&
                       (Z.of_nat (length (op_items o)) >? ipoe_maxarg (op_entry o))) ops
  then None
  else let body := concat (map ipfexp_ints ops) in
       Some ([Z.of_nat (length body) + 2] ++ body ++ [i32 IPF_EXP_END]).

(** ** Facts about reading *)

Lemma res_bind_ok {A B} (m : res A) (k : A -> res B) b : (m ≫= k) = Ok b <-> exists a, m = Ok a /\ k a = Ok b.
Proof. destruct m; simpl; split; [eauto|by intros (? & [= ->] & ?)|done|by intros (? & ? & ?)|done|by intros (? & ? & ?)]. Qed.

Lemma at_nth a i v : at_ a i = Ok v <-> 0 <= i /\ a !! Z.to_nat i = Some v.
Proof.
  unfold at_. destruct (Z.ltb_spec i 0); [split; [done|lia]|]. destruct (a !! Z.to_nat i); split; try done.
  - by intros [= ->].
  - by intros [_ [= ->]].
  - by intros [_ ?].
Qed.
Lemma at_outside a i : Z.of_nat (length a) <= i -> at_ a i = Outside.
Proof.
  intros Hl. unfold at_. destruct (Z.ltb_spec i 0); [done|]. by rewrite lookup_ge_None_2 by lia.
Qed.
Lemma at_not_nofuel a i : at_ a i <> NoFuel.
Proof. unfold at_. by repeat case_match. Qed.
Lemma at_app_r pre l i : 0 <= i -> at_ (pre ++ l) (Z.of_nat (length pre) + i) = at_ l i.
Proof.
  intros Hi. unfold at_. rewrite (proj2 (Z.ltb_ge _ _)), (proj2 (Z.ltb_ge i 0)) by lia.
  rewrite lookup_app_r by lia. by replace (Z.to_nat (Z.of_nat (length pre) + i) - length pre)%nat with (Z.to_nat i) by lia.
Qed.
Lemma at_app_l l post i v : at_ l i = Ok v -> at_ (l ++ post) i = Ok v.
Proof. rewrite !at_nth. intros [? H]. split; [done|]. by apply lookup_app_l_Some. Qed.

(** The loop over arguments is a disjunction over the values it reads. *)
Lemma any_arg_run {A} (f : A -> bool) test m (vs : list A) : forall i b,
  (forall k v, vs !! k = Some v -> test (i + Z.of_nat k) = Ok (f v)) ->
  any_arg (length vs + m) i test (b2z b) =
    if b || existsb f vs then Ok 1 else any_arg m (i + Z.of_nat (length vs)) test 0.
Proof.
  induction vs as [|v vs IH]; intros i b Ht.
  { simpl. rewrite orb_false_r, Z.add_0_r. destruct b; [|done]. by destruct m. }
  cbn [length Nat.add any_arg existsb]. destruct b; [done|]. cbn [b2z Z.eqb negb orb].
  pose proof (Ht 0%nat v eq_refl) as H0. rewrite Z.add_0_r in H0. rewrite H0. cbn [mbind res_bind].
  replace (Z.lor 0 (b2z (f v))) with (b2z (f v)) by (by destruct (f v)).
  rewrite IH; [by replace (i + 1 + Z.of_nat (length vs)) with (i + Z.of_nat (S (length vs))) by lia|].
  intros k w Hw. replace (i + 1 + Z.of_nat k) with (i + Z.of_nat (S k)) by lia. by apply Ht.
Qed.
Lemma for_args_run {A} (f : A -> bool) test (vs : list A) :
  (forall k v, vs !! k = Some v -> test (Z.of_nat k) = Ok (f v)) ->
  for_args (Z.of_nat (length vs)) test 0 = Ok (b2z (existsb f vs)).
Proof.
  intros Ht. unfold for_args. rewrite Nat2Z.id, <- (Nat.add_0_r (length vs)).
  pose proof (any_arg_run f test 0 vs 0 false ltac:(intros; by apply Ht)) as H. cbn [b2z] in H. rewrite H.
  cbn [orb]. by destruct (existsb f vs).
Qed.

(** ** Checking *)

(** From [i] the sizes lead to [j] in steps that stay at [maxidx] or below it. *)
Inductive size_chain (a : list Z) (maxidx : Z) : Z -> Z -> Prop :=
  | chain_end i : size_chain a maxidx i i
  | chain_step i s j : i < maxidx -> at_ a (i + 3) = Ok s -> 1 <= s -> i + s <= maxidx ->
      size_chain a maxidx (i + s) j -> size_chain a maxidx i j.
(** The size of the expression at [j] lies outside the array, or is so large that the sum
    with [j] is not an [int]. *)
Definition size_faults (a : list Z) (j : Z) : Prop :=
  at_ a (j + 3) = Outside \/ exists s, at_ a (j + 3) = Ok s /\ 2 ^ 31 <= j + s.
Definition chain_faults (a : list Z) (maxidx i : Z) : Prop :=
  exists j, size_chain a maxidx i j /\ j < maxidx /\ size_faults a j.
(** An array of C [int]s. *)
Definition ints (a : list Z) : Prop := Forall (fun v => - 2 ^ 31 <= v < 2 ^ 31) a.

Lemma at_int a i v : ints a -> at_ a i = Ok v -> - 2 ^ 31 <= v < 2 ^ 31.
Proof. intros Ha [_ Hv]%at_nth. exact (proj1 (Forall_lookup _ _) Ha _ _ Hv). Qed.
(** The first step of a chain is determined by the size. *)
Lemma chain_inv a maxidx i s j : i < maxidx -> at_ a (i + 3) = Ok s -> size_chain a maxidx i j -> i <> j ->
  1 <= s /\ i + s <= maxidx /\ size_chain a maxidx (i + s) j.
Proof. intros Hi Es Hc Hij. inversion Hc as [|? s' ? ? Es' ? ? Hr]; subst; [done|]. rewrite Es in Es'. by injection Es' as <-. Qed.
Lemma chain_faults_step a maxidx i s : i < maxidx -> at_ a (i + 3) = Ok s -> 1 <= s -> i + s <= maxidx -> maxidx < 2 ^ 31 ->
  (chain_faults a maxidx i <-> chain_faults a maxidx (i + s)).
Proof.
  intros Hi Es Hs Hm Hb. split; intros (j & Hc & Hj & Hf).
  - destruct (decide (i = j)) as [<-|Hij].
    + destruct Hf as [Hf|(s' & Es' & Hf)]; rewrite Es in *; [done|]. injection Es' as <-. lia.
    + exists j. split; [|done]. by apply (chain_inv _ _ _ s) in Hc as (? & ? & ?).
  - exists j. split; [|done]. by econstructor.
Qed.
Lemma verify_loop_spec a maxidx fuel : ints a -> maxidx <= 1023 -> forall i, 1 <= i <= maxidx -> maxidx - i < Z.of_nat fuel ->
  (verify_loop fuel a i maxidx = Ok 0 <-> size_chain a maxidx i maxidx) /\
  (verify_loop fuel a i maxidx = Outside <-> chain_faults a maxidx i) /\ verify_loop fuel a i maxidx <> NoFuel.
Proof.
  intros Ha Hmax. induction fuel as [|fuel IH]; intros i Hi Hf; [lia|]. cbn [verify_loop].
  destruct (Z.ltb_spec i maxidx) as [Hlt|].
  2: { assert (i = maxidx) as -> by lia. split_and!; try done; [split; [constructor|done]|]. split; [done|].
       intros (j & Hc & Hj & _). inversion Hc; subst; lia. }
  unfold ipfe_size. destruct (at_ a (i + 3)) as [s| |] eqn:Es; cbn [mbind res_bind].
  3: by apply at_not_nofuel in Es.
  2: { split_and!; [|split; [|done]; intros _; exists i; split_and!; [constructor|done|by left]|done].
       split; [done|]. intros Hc. inversion Hc as [|? s' ? ? Es']; subst; [lia|]. by rewrite Es in Es'. }
  pose proof (at_int _ _ _ Ha Es) as Hs.
  assert (Hno : s < 1 \/ maxidx < i + s -> ~ size_chain a maxidx i maxidx).
  { intros Hbad Hc. apply (chain_inv _ _ _ s) in Hc as (? & ? & _); try done; lia. }
  assert (Hnf : s < 1 \/ maxidx < i + s < 2 ^ 31 -> ~ chain_faults a maxidx i).
  { intros Hbad (j & Hc & Hj & Hf'). destruct (decide (i = j)) as [<-|Hij].
    - destruct Hf' as [Hf'|(s' & Es' & Hf')]; rewrite Es in *; [done|]. injection Es' as <-. lia.
    - apply (chain_inv _ _ _ s) in Hc as (? & ? & _); try done; lia. }
  destruct (Z.ltb_spec s 1) as [H1|H1]; cbn [orb]; [split_and!; [split; [done|]..|done]; naive_solver|].
  rewrite (Z.add_comm s i). destruct (Z.le_gt_cases (2 ^ 31) (i + s)) as [Hw|Hw].
  - assert (Ew : i32 (i + s) = i + s - 2 ^ 32).
    { unfold i32. replace (i + s + 2 ^ 31) with (i + s - 2 ^ 31 + 1 * 2 ^ 32) by lia. rewrite Z.mod_add, Z.mod_small by lia. lia. }
    rewrite Ew. destruct (Z.gtb_spec (i + s - 2 ^ 32) maxidx); [lia|].
    destruct fuel as [|fuel]; [lia|]. cbn [verify_loop]. rewrite (proj2 (Z.ltb_lt _ _)) by lia.
    replace (ipfe_size a (i + s - 2 ^ 32)) with (@Outside Z) by (unfold ipfe_size, at_; by rewrite (proj2 (Z.ltb_lt _ _)) by lia).
    cbn [mbind res_bind]. split_and!; [split; [done|]; intros Hc; destruct Hno; [lia|done]| |done]. split; [|done].
    intros _. exists i. split_and!; [constructor|done|right; by exists s].
  - rewrite i32_id by lia. destruct (Z.gtb_spec (i + s) maxidx) as [H2|H2].
    + split_and!; [split; [done|]..|done]; [intros Hc; destruct Hno; [lia|done]|intros Hc; destruct Hnf; [lia|done]].
    + destruct (IH (i + s)) as (IH1 & IH2 & IH3); [lia|lia|]. rewrite IH1, IH2. split_and!; [| |done].
      * split; [intros; by econstructor|]. intros Hc. apply (chain_inv _ _ _ s) in Hc as (_ & _ & ?); try done; lia.
      * symmetry. apply chain_faults_step; try done; lia.
Qed.

(** A chain to the end is accepted, whatever else is in the array. *)
Lemma verify_loop_chain a maxidx fuel : maxidx < 2 ^ 31 -> forall i, 1 <= i <= maxidx -> maxidx - i < Z.of_nat fuel ->
  size_chain a maxidx i maxidx -> verify_loop fuel a i maxidx = Ok 0.
Proof.
  intros Hm. induction fuel as [|fuel IH]; intros i Hi Hf Hc; [lia|]. cbn [verify_loop].
  destruct (Z.ltb_spec i maxidx); [|done]. inversion Hc as [|? s ? ? Es ? ? Hr]; subst; [lia|].
  unfold ipfe_size. rewrite Es. cbn [mbind res_bind]. rewrite (Z.add_comm s i), i32_id by lia.
  destruct (Z.ltb_spec s 1); [lia|]. destruct (Z.gtb_spec (i + s) maxidx); [lia|]. cbn [orb]. apply IH; [lia|lia|done].
Qed.

(** What [ipf_matcharray_verify] asks of the first and the last element. *)
Definition array_framed (a : list Z) : Prop :=
  (6 <= length a <= 1024)%nat /\ at_ a 0 = Ok (Z.of_nat (length a)) /\
  exists l, at_ a (Z.of_nat (length a) - 1) = Ok l /\ u32 l = IPF_EXP_END.
Lemma verify_framed a fuel : a <> [] ->
  (array_framed a /\ ipf_matcharray_verify fuel a (Z.of_nat (length a) * 4) = verify_loop fuel a 1 (Z.of_nat (length a) - 1)) \/
  (~ array_framed a /\ ipf_matcharray_verify fuel a (Z.of_nat (length a) * 4) = Ok (-1)).
Proof.
  intros Hne. unfold ipf_matcharray_verify, array_framed. rewrite Z.div_mul by lia.
  assert (Hlen : (1 <= length a)%nat) by (destruct a; [done|simpl; lia]).
  assert (Hread : forall i, 0 <= i < Z.of_nat (length a) -> exists v, at_ a i = Ok v).
  { intros i Hi. destruct (lookup_lt_is_Some_2 a (Z.to_nat i)) as [v Hv]; [lia|]. exists v. apply at_nth. split; [lia|done]. }
  set (n := length a) in *. destruct (Hread 0) as [a0 E0]; [lia|]. destruct (Hread (Z.of_nat n - 1)) as [l El]; [lia|].
  rewrite E0, El. cbn [mbind res_bind].
  destruct ((a0 <? 6) || (Z.of_nat n * 4 <? 24) || (Z.of_nat n * 4 >? 4096)) eqn:Eb.
  { right. split; [|done]. intros (Hn & [= ->] & _). apply orb_true_iff in Eb as [[Eb|Eb]%orb_true_iff|Eb]; breflect; lia. }
  breflect. destruct (Z.eqb_spec (a0 * 4) (Z.of_nat n * 4)); cbn [negb]; [|right; split; [|done]; intros (_ & [= ->] & _); lia].
  destruct (Z.eqb_spec (u32 l) IPF_EXP_END) as [He|He]; cbn [negb].
  - left. split; [|done]. split_and!; [lia|lia|f_equal; lia|by exists l].
  - right. split; [|done]. by intros (_ & _ & l' & [= <-] & ?).
Qed.
(** The check of a framed array is that of its sizes. *)
Lemma verify_spec a fuel : ints a -> a <> [] -> (length a <= fuel)%nat -> let maxidx := Z.of_nat (length a) - 1 in
  (ipf_matcharray_verify fuel a (Z.of_nat (length a) * 4) = Ok 0 <-> array_framed a /\ size_chain a maxidx 1 maxidx) /\
  (ipf_matcharray_verify fuel a (Z.of_nat (length a) * 4) = Outside <-> array_framed a /\ chain_faults a maxidx 1) /\
  ipf_matcharray_verify fuel a (Z.of_nat (length a) * 4) <> NoFuel.
Proof.
  intros Ha Hne Hf maxidx. destruct (verify_framed a fuel Hne) as [[Hfr ->]|[Hfr ->]].
  - destruct (verify_loop_spec a maxidx fuel Ha ltac:(destruct Hfr; lia) 1) as (H1 & H2 & H3); [destruct Hfr; lia|lia|].
    fold maxidx. tauto.
  - split_and!; [split; [done|]..|done]; tauto.
Qed.

(** C40. [ipf_matcharray_verify] on an array of [int]s comes to an end.  It accepts exactly
    the arrays from 6 to 1024 integers long that start with their own length, end with
    [IPF_EXP_END] and whose sizes lead from the second element to the last one.  It reads
    outside the array exactly when such a chain of sizes comes to an expression so close to
    the end that it has no size, or to one whose size overflows the [int] that the check
    adds it in: of sizes near [INT_MAX] it does not protect. *)
Theorem verify_iff a fuel : ints a -> a <> [] -> (length a <= fuel)%nat -> let maxidx := Z.of_nat (length a) - 1 in
  let framed := (6 <= length a <= 1024)%nat /\ at_ a 0 = Ok (Z.of_nat (length a)) /\
    exists l, at_ a maxidx = Ok l /\ u32 l = IPF_EXP_END in
  let verified := ipf_matcharray_verify fuel a (Z.of_nat (length a) * 4) in
  (verified = Ok 0 <-> framed /\ size_chain a maxidx 1 maxidx) /\
  (verified = Outside <-> framed /\ exists j, size_chain a maxidx 1 j /\ j < maxidx /\
     (at_ a (j + 3) = Outside \/ exists s, at_ a (j + 3) = Ok s /\ 2 ^ 31 <= j + s)) /\
  verified <> NoFuel.
Proof. intros Ha Hne Hf. exact (verify_spec a fuel Ha Hne Hf). Qed.
(** ["ip.p=6;"], and the same with a size of 2147483647. *)
Definition demo_array : list Z := [7; IPF_EXP_IP_PR; 0; 1; 5; 6; -1].
Definition huge_array : list Z := [7; IPF_EXP_IP_PR; 0; 1; 2147483647; 6; -1].
Lemma verify_iff_witness :
  ipf_matcharray_verify 7 demo_array 28 = Ok 0 /\ ipf_matcharray_verify 7 huge_array 28 = Outside.
Proof.
  split.
  - apply (verify_iff demo_array 7); [repeat constructor; done|done|simpl; lia|].
    split; [split_and!; [simpl; lia|simpl; lia|done|by exists (-1)]|].
    apply (chain_step _ _ _ 5); [by vm_compute|by vm_compute|lia|by vm_compute|]. apply chain_end.
  - apply (verify_iff huge_array 7); [repeat constructor; done|done|simpl; lia|].
    split; [split_and!; [simpl; lia|simpl; lia|done|by exists (-1)]|].
    exists 1. split_and!; [apply chain_end|by vm_compute|]. right. exists 2147483647. split; [by vm_compute|lia].
Defined.

(** An operand whose items have the number of integers its keyword takes. *)
Definition operand_ok (o : operand) : Prop :=
  op_items o <> [] /\ 0 < ipoe_nbasearg (op_entry o) * ipoe_argsize (op_entry o) /\
  Forall (fun it => Z.of_nat (length it) = ipoe_nbasearg (op_entry o) * ipoe_argsize (op_entry o)) (op_items o).

Lemma operand_size o : operand_ok o ->
  Z.of_nat (length (ipfexp_ints o)) = Z.of_nat (length (op_items o)) * ipoe_nbasearg (op_entry o) * ipoe_argsize (op_entry o) + 4
  /\ 5 <= Z.of_nat (length (ipfexp_ints o)).
Proof.
  intros (Hne & Hpos & Hall). unfold ipfexp_ints. rewrite length_app. cbn [length].
  set (w := ipoe_nbasearg _ * ipoe_argsize _) in *.
  assert (E : Z.of_nat (length (concat (op_items o))) = Z.of_nat (length (op_items o)) * w).
  { clear Hne. induction Hall as [|it its Hit _ IH]; [done|]. cbn [concat length]. rewrite length_app. lia. }
  rewrite <- Z.mul_assoc. fold w. rewrite Nat2Z.inj_add, E. split; [lia|].
  destruct (op_items o); [done|]. cbn [length]. nia.
Qed.

Lemma operand_at pre o post i : 0 <= i < 4 ->
  at_ (pre ++ ipfexp_ints o ++ post) (Z.of_nat (length pre) + i) = at_ (ipfexp_ints o) i.
Proof.
  intros Hi. rewrite at_app_r by lia. destruct (at_ (ipfexp_ints o) i) as [v| |] eqn:E.
  - by apply at_app_l.
  - unfold at_ in E. destruct (Z.ltb_spec i 0); [lia|]. unfold ipfexp_ints in E.
    rewrite lookup_app_l in E by (simpl; lia). destruct (lookup_lt_is_Some_2 [ipoe_cmd (op_entry o); b2z (op_not o);
      Z.of_nat (length (op_items o)) * ipoe_nbasearg (op_entry o);
      Z.of_nat (length (op_items o)) * ipoe_nbasearg (op_entry o) * ipoe_argsize (op_entry o) + 4] (Z.to_nat i)) as [v Hv];
      [simpl; lia|]. by rewrite Hv in E.
  - by apply at_not_nofuel in E.
Qed.

Lemma layout_chain ops : Forall operand_ok ops -> forall pre post,
  let maxidx := Z.of_nat (length (pre ++ concat (map ipfexp_ints ops))) in
  size_chain (pre ++ concat (map ipfexp_ints ops) ++ post) maxidx (Z.of_nat (length pre)) maxidx.
Proof.
  induction 1 as [|o ops Ho Hops IH]; intros pre post; cbn [map concat].
  { rewrite app_nil_r. constructor. }
  destruct (operand_size o Ho) as [Hs H5]. specialize (IH (pre ++ ipfexp_ints o) post). cbv zeta in *.
  rewrite <- !app_assoc in IH |- *.
  apply (chain_step _ _ _ (Z.of_nat (length (ipfexp_ints o)))); rewrite ?length_app; try lia.
  - rewrite operand_at by lia. by rewrite Hs.
  - rewrite !length_app, !Nat2Z.inj_add in IH. rewrite !Nat2Z.inj_add, Z.add_assoc. exact IH.
Qed.

(** Whatever parseipfexpr lays out for operands with the right number of integers,
    up to the 1024 integers that may be loaded, passes the kernel's check. *)
Theorem parsed_arrays_verify ops a :
  ops <> [] -> Forall operand_ok ops -> parseipfexpr_layout ops = Some a -> (length a <= 1024)%nat ->
  ipf_matcharray_verify (length a) a (Z.of_nat (length a) * 4) = Ok 0.
Proof.
  intros Hne Hops Hl Hlen. unfold parseipfexpr_layout in Hl. destruct (existsb _ _); [done|].
  set (body := concat (map ipfexp_ints ops)) in *. injection Hl as Hl.
  assert (Ha : a = [Z.of_nat (length body) + 2] ++ body ++ [i32 IPF_EXP_END]) by done.
  assert (En : length a = (length body + 2)%nat) by (rewrite Ha; cbn [app length]; rewrite length_app; cbn [length]; lia).
  assert (H5 : (5 <= length body)%nat).
  { destruct Hops as [|o ops Ho _]; [done|]. unfold body. cbn [map concat]. rewrite length_app.
    destruct (operand_size o Ho) as [_ ?]. lia. }
  assert (Hf : array_framed a).
  { split_and!; [lia|lia| |].
    - rewrite En, Ha. cbn [app at_ Z.ltb Z.compare]. unfold at_. cbn. f_equal. lia.
    - exists (i32 IPF_EXP_END). split; [|reflexivity]. rewrite En, Ha, app_assoc.
      replace (Z.of_nat (length body + 2) - 1) with (Z.of_nat (length ([Z.of_nat (length body) + 2] ++ body)) + 0)
        by (rewrite length_app; simpl; lia). by rewrite at_app_r. }
  destruct (verify_framed a (length a)) as [[_ ->]|[? _]]; [by rewrite Ha| |done].
  apply verify_loop_chain; [lia|lia|lia|].
  pose proof (layout_chain ops Hops [Z.of_nat (length body) + 2] [i32 IPF_EXP_END]) as Hc. cbv zeta in Hc. fold body in Hc.
  rewrite <- Ha in Hc. rewrite length_app in Hc. cbn [length] in Hc.
  replace (Z.of_nat (length a) - 1) with (Z.of_nat (1 + length body)) by lia. exact Hc.
Qed.
Definition demo_ops : list operand :=
  [mk_operand op_ip_src false [[0x0a000000; 0xff000000]]; mk_operand op_tcp_dport true [[22]; [80]]].
Lemma parsed_arrays_verify_witness :
  ipf_matcharray_verify 14 [14; IPF_EXP_IP_SRCADDR; 0; 2; 6; 0x0a000000; 0xff000000; IPF_EXP_TCP_DPORT; 1; 2; 6; 22; 80; -1]
    (14 * 4) = Ok 0.
Proof.
  apply (parsed_arrays_verify demo_ops); [discriminate| |reflexivity|simpl; lia].
  repeat constructor; discriminate.
Defined.

(** ** What a matching array answers *)

Lemma fr_match_loop_zero fuel fin a : forall n x r, fr_match_loop fuel fin a n x 0 = Ok r -> r = 0.
Proof.
  induction fuel as [|fuel IH]; intros n x r; cbn [fr_match_loop]; destruct (n >? 0); try done; try by intros [= <-].
  intros (cmd & _ & H)%res_bind_ok. destruct (_ =? _) in H; [by injection H as <-|].
  apply res_bind_ok in H as (size & _ & H). destruct (_ && _) in H; [by injection H as <-|].
  apply res_bind_ok in H as (narg & _ & H). apply res_bind_ok in H as (rv & _ & H).
  apply res_bind_ok in H as (ne & _ & H). destruct (Z.eqb_spec (Z.lxor rv ne) 0) as [->|]; [by injection H as <-|].
  apply res_bind_ok in H as (step & _ & H). by apply IH in H.
Qed.
Lemma state_match_loop_zero fuel ist t ticks a : forall n x r,
  state_match_loop fuel ist t ticks a n x 0 = Ok r -> r = 0.
Proof.
  induction fuel as [|fuel IH]; intros n x r; cbn [state_match_loop]; destruct (n >? 0); try done; try by intros [= <-].
  intros (size & _ & H)%res_bind_ok. apply res_bind_ok in H as (cmd & _ & H).
  destruct (_ =? _) in H; [by injection H as <-|]. destruct (_ && _) in H; [by injection H as <-|].
  apply res_bind_ok in H as (narg & _ & H). apply res_bind_ok in H as (rv & _ & H).
  apply res_bind_ok in H as (ne & _ & H). destruct (Z.eqb_spec (Z.lxor rv ne) 0) as [->|]; [by injection H as <-|].
  apply res_bind_ok in H as (step & _ & H). by apply IH in H.
Qed.

Lemma matchflush_loop_all fuel a ticks l : forall k d n,
  matchflush_loop fuel a ticks l k = Ok (d, n) -> d = l.
Proof.
  induction l as [|[ist t] l IH]; intros k d n; cbn [matchflush_loop]; [by intros [= <- _]|].
  intros (r & Hr & H)%res_bind_ok. apply res_bind_ok in Hr as (n0 & _ & Hr). apply state_match_loop_zero in Hr as ->.
  cbn [Z.eqb] in H. apply res_bind_ok in H as ([d' n'] & Hd & H). apply IH in Hd as ->. by injection H as <- _.
Qed.

(** A matching array never answers that a packet or an entry matches: the result
    is reset before the loop looks at [IPF_EXP_END], so every way out of either
    routine, whatever the array, returns zero; and since the flush deletes the
    entries for which the result is zero, every flush that completes deletes
    every entry. *)
Theorem matcharray_never_matches :
  (forall fuel fin a r, ipf_fr_matcharray fuel fin a = Ok r -> r = 0) /\
  (forall fuel ist t a ticks r, ipf_state_matcharray fuel ist t a ticks = Ok r -> r = 0) /\
  (forall fuel obj mem copyin copyout ticks l d o error,
     ipf_state_matchflush fuel obj mem copyin copyout ticks l = Ok (error, d, Some o) -> d = l).
Proof.
  split_and!.
  - intros fuel fin a r (n & _ & H)%res_bind_ok. by eapply fr_match_loop_zero.
  - intros fuel ist t a ticks r (n & _ & H)%res_bind_ok. by eapply state_match_loop_zero.
  - intros fuel obj mem copyin copyout ticks l d o error (ld & _ & H)%res_bind_ok.
    destruct ld as [e [array|]]; [|by injection H]. apply res_bind_ok in H as ([d' n] & Hd & H).
    apply matchflush_loop_all in Hd as ->. by injection H as _ <- _.
Qed.
(** An entry of a UDP flow, for the array ["ip.p=6;"]. *)
Definition demo_entry : ipstate * ipftqent :=
  (mk_ipstate 0 0 0 10%positive (mk_tcpdata 0 0 0 0 0 0, mk_tcpdata 0 0 0 0 0 0) (0, 0) (0, 0) (0, 0)
     i6_zero i6_zero IPPROTO_UDP 4 0, mk_tqent None None None None 0 0 0 0 0).
Lemma matcharray_never_matches_witness :
  (exists r, ipf_fr_matcharray 1 fin_zero demo_array = Ok r /\ r = 0) /\
  (exists r, ipf_state_matcharray 1 (fst demo_entry) (snd demo_entry) demo_array 0 = Ok r /\ r = 0) /\
  (exists d n, ipf_state_matchflush 7 (Some (mk_ipfobj IPFOBJ_IPFEXPR 8 0)) true
     (fun _ => Some [8; IPF_EXP_IP_PR; 0; 2; 6; 6; 1; -1]) 0 0 [demo_entry] = Ok (0, d, Some (mk_ipfobj IPFOBJ_IPFEXPR 8 n)) /\
     d = [demo_entry]).
Proof.
  destruct matcharray_never_matches as (H1 & H2 & H3). split_and!.
  - exists 0. split; [vm_compute; reflexivity|]. by apply (H1 1%nat fin_zero demo_array).
  - exists 0. split; [vm_compute; reflexivity|]. by apply (H2 1%nat (fst demo_entry) (snd demo_entry) demo_array 0).
  - exists [demo_entry], 1. split; [vm_compute; reflexivity|].
    by apply (H3 7%nat (Some (mk_ipfobj IPFOBJ_IPFEXPR 8 0)) true (fun _ => Some [8; IPF_EXP_IP_PR; 0; 2; 6; 6; 1; -1])
      0 0 [demo_entry] [demo_entry] (mk_ipfobj IPFOBJ_IPFEXPR 8 1) 0).
Defined.

(** *** One operand

    The meaning of the commands whose arguments are single integers, and of those
    whose arguments are an address and a mask, for packets. *)
Definition single_ops : list ipfopentry :=
  [op_ip_p; op_tcp_port; op_tcp_dport; op_tcp_sport; op_udp_port; op_udp_dport; op_udp_sport].
Definition fr_single (fin : fr_info) (cmd v : Z) : bool :=
  if cmd =? IPF_EXP_IP_PR then fin_p fin =? v
  else if (cmd =? IPF_EXP_UDP_SPORT) || (cmd =? IPF_EXP_TCP_SPORT) then fin_sport fin =? u32 v
  else if (cmd =? IPF_EXP_UDP_DPORT) || (cmd =? IPF_EXP_TCP_DPORT) then fin_dport fin =? u32 v
  else (fin_sport fin =? u32 v) || (fin_dport fin =? u32 v).
Definition pair_ops : list ipfopentry := [op_ip_addr; op_ip_src; op_ip_dst].
Definition fr_pair (fin : fr_info) (cmd : Z) (am : Z * Z) : bool :=
  let hit v := Z.land v (u32 (snd am)) =? u32 (fst am) in
  if cmd =? IPF_EXP_IP_SRCADDR then hit (fin_saddr fin)
  else if cmd =? IPF_EXP_IP_DSTADDR then hit (fin_daddr fin)
  else hit (fin_saddr fin) || hit (fin_daddr fin).

(** The array of one operand. *)
Lemma layout_one o a : parseipfexpr_layout [o] = Some a ->
  a = [Z.of_nat (length (concat (op_items o))) + 6; ipoe_cmd (op_entry o); b2z (op_not o);
       Z.of_nat (length (op_items o)) * ipoe_nbasearg (op_entry o);
       Z.of_nat (length (op_items o)) * ipoe_nbasearg (op_entry o) * ipoe_argsize (op_entry o) + 4]
      ++ concat (op_items o) ++ [i32 IPF_EXP_END].
Proof.
  unfold parseipfexpr_layout. destruct (existsb _ _); [done|]. cbn [map concat]. rewrite app_nil_r.
  unfold ipfexp_ints at 1. rewrite length_app. cbn [length]. intros [= <-]. cbn [app]. f_equal. lia.
Qed.

(** One pass over an array of one operand: a result that is not zero makes the loop
    read what lies behind the array. *)
Lemma fr_one_run fuel fin c ne na sz args e r :
  sz = Z.of_nat (length args) + 4 -> Z.of_nat (length args) < 1024 -> u32 c <> IPF_EXP_END ->
  let a := [Z.of_nat (length args) + 6; c; ne; na; sz] ++ args ++ [e] in
  fr_command fin a 1 c na 0 = r ->
  ipf_fr_matcharray (S (S fuel)) fin a =
    if negb (Z.shiftr c 16 =? 0) && negb (Z.shiftr c 16 =? fin_p fin) then Ok 0
    else rv ← r; if Z.lxor rv ne =? 0 then Ok 0 else Outside.
Proof.
  intros Hs Hl Hc a Hr. unfold ipf_fr_matcharray. change (at_ a 0) with (@Ok Z (Z.of_nat (length args) + 6)).
  cbn [mbind res_bind fr_match_loop]. rewrite Z.gtb_ltb, (proj2 (Z.ltb_lt _ _)) by lia.
  unfold ipfe_cmd, ipfe_size, ipfe_narg, ipfe_not.
  change (at_ a 1) with (@Ok Z c). change (at_ a (1 + 3)) with (@Ok Z sz).
  change (at_ a (1 + 2)) with (@Ok Z na). change (at_ a (1 + 1)) with (@Ok Z ne).
  cbn [mbind res_bind]. rewrite (proj2 (Z.eqb_neq _ _) Hc). destruct (_ && _); [done|].
  rewrite Hr. destruct r as [rv| |]; [|done|done]. cbn [mbind res_bind]. destruct (Z.eqb_spec (Z.lxor rv ne) 0) as [->|]; [done|].
  rewrite !i32_id by lia. rewrite Z.gtb_ltb, (proj2 (Z.ltb_lt _ _)) by lia.
  rewrite (at_outside a (1 + (3 + sz))); [done|]. unfold a. rewrite !length_app. cbn [length]. lia.
Qed.

Lemma arg_at a0 c ne na sz args e k v : args !! k = Some v ->
  ipfe_arg0 ([a0; c; ne; na; sz] ++ args ++ [e]) 1 (Z.of_nat k) = Ok v.
Proof.
  intros Hk. unfold ipfe_arg0. replace (1 + 4 + Z.of_nat k) with (Z.of_nat (length [a0; c; ne; na; sz]) + Z.of_nat k) by (simpl; lia).
  rewrite at_app_r by lia. apply at_app_l, at_nth. split; [lia|]. by rewrite Nat2Z.id.
Qed.

Lemma concat_singles (vs : list Z) : concat (map (fun v => [v]) vs) = vs.
Proof. induction vs; simpl; by f_equal. Qed.

Lemma fr_single_run fin entry a0 ne sz vs e : In entry single_ops ->
  let a := [a0; ipoe_cmd entry; ne; Z.of_nat (length vs); sz] ++ vs ++ [e] in
  fr_command fin a 1 (ipoe_cmd entry) (Z.of_nat (length vs)) 0 = Ok (b2z (existsb (fr_single fin (ipoe_cmd entry)) vs)).
Proof.
  intros Hin a.
  assert (Hv : forall k v, vs !! k = Some v -> ipfe_arg0 a 1 (Z.of_nat k) = Ok v) by (intros; by apply arg_at).
  clearbody a. repeat destruct Hin as [<-|Hin]; try done; unfold fr_command; cbn -[for_args fr_single existsb];
    apply for_args_run; intros k v Hk; unfold arg_eq, arg_eq32, either; rewrite !(Hv k v Hk); cbn; try done;
    by destruct (fin_sport fin =? u32 v).
Qed.

(** A parsed line with one operand on protocols or ports: a packet that does not
    satisfy it is answered with zero, and for a packet that satisfies it the
    kernel reads behind the end of the array. *)
Theorem port_operand_result fin entry ne vs a fuel :
  In entry single_ops -> vs <> [] -> (length vs < 1024)%nat ->
  parseipfexpr_layout [mk_operand entry ne (map (fun v => [v]) vs)] = Some a ->
  let p := Z.shiftr (ipoe_cmd entry) 16 in
  ipf_fr_matcharray (S (S fuel)) fin a =
    if ((p =? 0) || (p =? fin_p fin)) && xorb (existsb (fr_single fin (ipoe_cmd entry)) vs) ne then Outside else Ok 0.
Proof.
  intros Hin Hvs Hlen Hl p. apply layout_one in Hl. cbn [op_items op_entry op_not] in Hl.
  rewrite concat_singles, length_map in Hl.
  assert (Ha : a = [Z.of_nat (length vs) + 6; ipoe_cmd entry; b2z ne; Z.of_nat (length vs); Z.of_nat (length vs) + 4]
                   ++ vs ++ [i32 IPF_EXP_END]).
  { rewrite Hl. repeat destruct Hin as [<-|Hin]; try done; cbn [ipoe_nbasearg ipoe_argsize]; by rewrite !Z.mul_1_r. }
  rewrite Ha. rewrite (fr_one_run fuel fin _ _ _ _ _ _ (Ok (b2z (existsb (fr_single fin (ipoe_cmd entry)) vs))));
    [|done|lia|by repeat destruct Hin as [<-|Hin]|by apply fr_single_run].
  fold p. destruct (p =? 0), (p =? fin_p fin); cbn [negb andb orb]; try done;
    by destruct (existsb _ vs), ne.
Qed.
Lemma port_operand_result_witness :
  ipf_fr_matcharray 2 (fin_zero <| fin_fi := fi_zero <| fi_p := IPPROTO_TCP |> |>) demo_array = Outside.
Proof.
  refine (eq_trans (port_operand_result (fin_zero <| fin_fi := fi_zero <| fi_p := IPPROTO_TCP |> |>) op_ip_p false [6]
    demo_array 0 _ _ _ _) _); [by left|discriminate|simpl; lia|reflexivity|reflexivity].
Defined.

Lemma pair_at (ams : list (Z * Z)) k am : ams !! k = Some am ->
  concat (map (fun am => [fst am; snd am]) ams) !! (2 * k)%nat = Some (fst am) /\
  concat (map (fun am => [fst am; snd am]) ams) !! (2 * k + 1)%nat = Some (snd am).
Proof.
  revert k. induction ams as [|am' ams IH]; intros k Hk; [done|]. destruct k as [|k]; [by injection Hk as <-|].
  replace (2 * S k)%nat with (S (S (2 * k))) by lia. apply (IH k Hk).
Qed.
Lemma length_pairs (ams : list (Z * Z)) : length (concat (map (fun am => [fst am; snd am]) ams)) = (length ams + length ams)%nat.
Proof. induction ams; simpl; lia. Qed.

Lemma fr_pair_run fin entry a0 ne sz ams e : In entry pair_ops -> fin_v fin = 4 -> ams <> [] ->
  let args := concat (map (fun am => [fst am; snd am]) ams) in
  let a := [a0; ipoe_cmd entry; ne; Z.of_nat (length args); sz] ++ args ++ [e] in
  fr_command fin a 1 (ipoe_cmd entry) (Z.of_nat (length args)) 0 =
    if existsb (fr_pair fin (ipoe_cmd entry)) ams then Ok 1 else Outside.
Proof.
  intros Hin Hv4 Hne args a.
  assert (Hv : forall k am, ams !! k = Some am -> ipfe_arg0 a 1 (Z.of_nat k * 2) = Ok (fst am) /\
                 ipfe_arg0 a 1 (Z.of_nat k * 2 + 1) = Ok (snd am)).
  { intros k am Hk. destruct (pair_at ams k am Hk) as [H1 H2].
    replace (Z.of_nat k * 2) with (Z.of_nat (2 * k)) by lia. split; [by apply arg_at|].
    replace (Z.of_nat (2 * k) + 1) with (Z.of_nat (2 * k + 1)) by lia. by apply arg_at. }
  assert (Ho : ipfe_arg0 a 1 (Z.of_nat (length ams) * 2 + 1) = Outside).
  { apply at_outside. unfold a, args. rewrite !length_app, length_pairs. cbn [length]. lia. }
  assert (Hrun : forall test, (forall k am, ams !! k = Some am -> test (Z.of_nat k) = Ok (fr_pair fin (ipoe_cmd entry) am)) ->
     test (Z.of_nat (length ams)) = Outside ->
     for_args (Z.of_nat (length args)) test 0 = if existsb (fr_pair fin (ipoe_cmd entry)) ams then Ok 1 else Outside).
  { intros test Ht Hto. unfold for_args, args. rewrite Nat2Z.id, length_pairs.
    pose proof (any_arg_run (fr_pair fin (ipoe_cmd entry)) test (length ams) ams 0 false ltac:(intros; by apply Ht)) as H.
    cbn [b2z orb] in H. rewrite H. destruct (existsb _ ams); [done|]. rewrite Z.add_0_l.
    destruct ams as [|am ams']; [done|]. cbn [length any_arg Z.eqb negb] in Hto |- *. by rewrite Hto. }
  clearbody a. repeat destruct Hin as [<-|Hin]; try done; unfold fr_command; rewrite Hv4;
    cbn -[for_args fr_pair existsb] in Hrun |- *; apply Hrun;
    try (intros k am Hk; destruct (Hv k am Hk) as [E1 E2]);
    unfold both_or, arg_mask; rewrite ?E1, ?E2, ?Ho; done.
Qed.

(** A parsed line with one operand on IPv4 addresses: the argument count that
    parseipfexpr stores counts integers and the kernel takes it to count pairs, so
    a packet that does not match any of the addresses makes the kernel read behind
    the array, whether the operand is negated or not; so does a match of an operand
    that is not negated, and only a match of a negated one is answered, with zero. *)
Theorem address_operand_result fin entry ne ams a fuel :
  In entry pair_ops -> ams <> [] -> (length ams < 512)%nat -> fin_v fin = 4 ->
  parseipfexpr_layout [mk_operand entry ne (map (fun am => [fst am; snd am]) ams)] = Some a ->
  ipf_fr_matcharray (S (S fuel)) fin a =
    if existsb (fr_pair fin (ipoe_cmd entry)) ams && ne then Ok 0 else Outside.
Proof.
  intros Hin Hne Hlen Hv Hl. apply layout_one in Hl. cbn [op_items op_entry op_not] in Hl. rewrite length_map in Hl.
  set (args := concat (map (fun am => [fst am; snd am]) ams)) in *.
  assert (El : Z.of_nat (length args) = Z.of_nat (length ams) * 2) by (unfold args; rewrite length_pairs; lia).
  assert (Ha : a = [Z.of_nat (length args) + 6; ipoe_cmd entry; b2z ne; Z.of_nat (length args); Z.of_nat (length args) + 4]
                   ++ args ++ [i32 IPF_EXP_END]).
  { rewrite Hl, El. repeat destruct Hin as [<-|Hin]; try done; cbn [ipoe_nbasearg ipoe_argsize]; by rewrite !Z.mul_1_r. }
  rewrite Ha. rewrite (fr_one_run fuel fin _ _ _ _ _ _ (if existsb (fr_pair fin (ipoe_cmd entry)) ams then Ok 1 else Outside));
    [|done|lia|by repeat destruct Hin as [<-|Hin]|by apply fr_pair_run].
  assert (Z.shiftr (ipoe_cmd entry) 16 = 0) as -> by (by repeat destruct Hin as [<-|Hin]).
  cbn [Z.eqb negb andb]. by destruct (existsb _ ams), ne.
Qed.
Definition demo_v4 : fr_info := fin_zero <| fin_fi := fi_zero <| fi_v := 4 |> <| fi_src := mk_i6addr 0x0a000001 0 0 0 |> |>.
Lemma address_operand_result_witness :
  ipf_fr_matcharray 2 demo_v4 [8; IPF_EXP_IP_SRCADDR; 0; 2; 6; 0x0b000000; 0xff000000; -1] = Outside.
Proof.
  refine (eq_trans (address_operand_result demo_v4 op_ip_src false [(0x0b000000, 0xff000000)] _ 0 _ _ _ _ _) _);
    [right; by left|discriminate|simpl; lia|reflexivity|reflexivity|reflexivity].
Defined.
