(* ===== verification/Filter.v ===== *)
(** The rule engine of fil.c: the checks of one rule ([ipf_portcheck],
    [ipf_tcpudpchk], [ipf_check_ipf], [ipf_matchtag]), the walk over a list of rules
    with its groups ([ipf_scanlist]), accounting, the firewall stage and the
    packet rate limit. *)
From S2P Require Import Prelude Packet Matcharray.

(** ** Rules *)

Inductive fr_ctypes :=
  | FR_NONE | FR_EQUAL | FR_NEQUAL | FR_LESST | FR_GREATERT | FR_LESSTE | FR_GREATERTE
  | FR_OUTRANGE | FR_INRANGE | FR_INCRANGE.
#[export] Instance fr_ctypes_eq_dec : EqDecision fr_ctypes.
Proof. solve_decision. Defined.

Record frpcmp := mk_frpcmp { frp_cmp : fr_ctypes; frp_port : Z; frp_top : Z }.
Record frtuc := mk_frtuc { ftu_tcpfm : Z; ftu_tcpf : Z; ftu_src : frpcmp; ftu_dst : frpcmp }.

(** How an address is compared: with a mask, or by a lookup function and the table
    it is called with ([fr_srcfunc] and [fr_srcptr]). *)
Inductive addr_match := FRI_NORMAL | FRI_LOOKUP (table : loc).

(** [fripf_t], with the lookups resolved at load time. *)
Record fripf := mk_fripf {
  fri_ip : fr_ip; fri_mip : fr_ip; fri_icmpm : Z; fri_icmp : Z; fri_tuc : frtuc;
  fri_satype : addr_match; fri_datype : addr_match }.

(** [fr_rtypes_t]; the builtin variants behave like the ones loaded. *)
Inductive fr_rtypes := FR_T_NONE | FR_T_IPF | FR_T_CALLFUNC | FR_T_CALLFUNC_BUILTIN | FR_T_COMPIPF | FR_T_IPFEXPR.

(** The functions a rule can name: the group maps of this file, others, and the
    invalid pointer -1. *)
Inductive ipfunc := FnBad | FnSrcGrpMap | FnDstGrpMap | FnOther (id : Z).
#[export] Instance ipfunc_eq_dec : EqDecision ipfunc.
Proof. solve_decision. Defined.

(** [fd_ptr] of an [frdest_t]: where packets are sent.  It is [(void * )-1] when the
    interface is not there. *)
Inductive fdest := FdNull | FdFailed | FdIfp (ifp : loc).

(** [frentry_t]: [fr_group] is the name of the rule's group, if it has one,
    [fr_grphead] the group that it heads, [fr_data] a matching array. *)
Record frentry := mk_frentry {
  fr_next : option loc; fr_grphead : option loc; fr_ifa : option loc; fr_type : fr_rtypes;
  fr_ipf : fripf; fr_data : list Z; fr_family : Z; fr_func : option ipfunc; fr_ptr : loc; fr_flags : Z;
  fr_nattag : list Z; fr_group : option (list Z); fr_icode : Z;
  fr_pps : Z; fr_lastpkt : Z * Z; fr_curpps : Z; fr_hits : Z; fr_bytes : Z;
  fr_tifs : list fdest; fr_dif : fdest }.
#[export] Instance eta_frentry : Eta frentry := fun r =>
  mk_frentry (fr_next r) (fr_grphead r) (fr_ifa r) (fr_type r) (fr_ipf r) (fr_data r) (fr_family r) (fr_func r)
    (fr_ptr r) (fr_flags r) (fr_nattag r) (fr_group r) (fr_icode r) (fr_pps r) (fr_lastpkt r) (fr_curpps r)
    (fr_hits r) (fr_bytes r) (fr_tifs r) (fr_dif r).

(** ** What the engine calls

    The tables, the state table, logging, decapsulation, authentication and the
    fragment cache, over a state [E] of their own. *)
Class filter_env (E : Type) := {
  (** [( *fr->fr_srcfunc)(softc, ptr, v, addr, plen)]: 0 match, 1 no match, -1 error. *)
  env_lookup : E -> loc -> Z -> i6addr -> Z -> Z;
  (** [ipf_iphmfindgroup]. *)
  env_findgroup : E -> loc -> Z -> option loc;
  env_func : Z -> fr_info -> Z -> E -> option loc * fr_info * Z * E;
  env_log_pkt : fr_info -> Z -> E -> Z * E;
  env_state_add : fr_info -> E -> Z * fr_info * E;
  env_decaps : fr_info -> Z -> E -> Z * fr_info * E;
  env_auth_new : fr_info -> E -> Z * fr_info * E;
  env_auth_pre_scanlist : fr_info -> Z -> E -> Z * fr_info * E;
  env_frag_new : fr_info -> Z -> E -> Z * E;
  env_time : E -> Z * Z }.

(** ** One rule *)

Definition ipf_portcheck (frp : frpcmp) (pop : Z) : bool :=
  let po := frp_port frp in
  match frp_cmp frp with
  | FR_EQUAL => negb (negb (pop =? po))
  | FR_NEQUAL => negb (pop =? po)
  | FR_LESST => negb (pop >=? po)
  | FR_GREATERT => negb (pop <=? po)
  | FR_LESSTE => negb (pop >? po)
  | FR_GREATERTE => negb (pop <? po)
  | FR_OUTRANGE => negb ((pop >=? po) && (pop <=? frp_top frp))
  | FR_INRANGE => negb ((pop <=? po) || (pop >=? frp_top frp))
  | FR_INCRANGE => negb ((pop <? po) || (pop >? frp_top frp))
  | FR_NONE => true
  end.

Definition ipf_tcpudpchk (fi : fr_ip) (ft : frtuc) : bool :=
  let err := if decide (frp_cmp (ftu_dst ft) = FR_NONE) then true else ipf_portcheck (ftu_dst ft) (fi_ports1 fi) in
  let err := if err && negb (bool_decide (frp_cmp (ftu_src ft) = FR_NONE))
             then ipf_portcheck (ftu_src ft) (fi_ports0 fi) else err in
  if err && (fi_p fi =? IPPROTO_TCP) then
    if has (fi_flx fi) FI_SHORT then Z.lor (ftu_tcpf ft) (ftu_tcpfm ft) =? 0
    else if negb (ftu_tcpfm ft =? 0) && negb (ftu_tcpf ft =? Z.land (fi_tcpf fi) (ftu_tcpfm ft)) then false
    else err
  else err.

(** The 32-bit words of [fr_ip_t] that a rule compares; how the bit fields share a
    word does not matter to a masked comparison. *)
Definition fi_word0 (fi : fr_ip) : Z :=
  Z.lor (Z.shiftl (fi_v fi) 28) (Z.lor (Z.shiftl (fi_xx fi) 24)
    (Z.lor (Z.shiftl (fi_tos fi) 16) (Z.lor (Z.shiftl (fi_ttl fi) 8) (fi_p fi)))).
Definition fi_ipso (fi : fr_ip) : Z := Z.lor (fi_secmsk fi) (Z.shiftl (fi_auth fi) 16).

(** [( *lip & *lm) != *ld]. *)
Definition word_ne (lip lm ld : Z) : Z := b2z (negb (Z.land lip lm =? ld)).

(** One address: nothing when the lookup fails (the rule does not match), else
    non-zero for a mismatch, before the [!] of the rule is applied. *)
Definition check_addr (v : Z) (lookup : loc -> Z) (how : addr_match) (lip lm ld : i6addr) : option Z :=
  match how with
  | FRI_LOOKUP table => let i := lookup table in if i =? -1 then None else Some i
  | FRI_NORMAL =>
      let i := word_ne (i60 lip) (i60 lm) (i60 ld) in
      Some (if v =? 6 then
              Z.lor (Z.lor (Z.lor i (word_ne (i61 lip) (i61 lm) (i61 ld))) (word_ne (i62 lip) (i62 lm) (i62 ld)))
                (word_ne (i63 lip) (i63 lm) (i63 ld))
            else i)
  end.

(** The ICMP and port part at the end. *)
Definition check_l4 (fin : fr_info) (fri : fripf) (portcmp : bool) : Z :=
  let tuc := fri_tuc fri in
  if portcmp then b2z (negb (ipf_tcpudpchk (fin_fi fin) tuc))
  else
    let i := b2z (negb (bool_decide (frp_cmp (ftu_dst tuc) = FR_NONE)) ||
                  negb (bool_decide (frp_cmp (ftu_src tuc) = FR_NONE)) ||
                  negb (ftu_tcpf tuc =? 0) || negb (ftu_tcpfm tuc =? 0)) in
    if negb (fri_icmpm fri =? 0) || negb (fri_icmp fri =? 0) then
      if (negb (fin_p fin =? IPPROTO_ICMP) && negb (fin_p fin =? IPPROTO_ICMPV6)) || negb (fin_off fin =? 0)
         || (fin_dlen fin <? 2) then 1
      else if negb (Z.land (fin_sport fin) (fri_icmpm fri) =? fri_icmp fri) then 1
      else i
    else i.

(** [ipf_check_ipf]: 0 when the rule matches. *)
Definition ipf_check_ipf {E} `{filter_env E} (ext : E) (fin : fr_info) (r : frentry) (portcmp : bool) : Z :=
  let fi := fin_fi fin in
  let fri := fr_ipf r in
  let lookup addr table := env_lookup ext table (fi_v fi) addr (fin_plen fin) in
  if negb (word_ne (fi_word0 fi) (fi_word0 (fri_mip fri)) (fi_word0 (fri_ip fri)) =? 0) then 1
  else if negb (word_ne (fi_optmsk fi) (fi_optmsk (fri_mip fri)) (fi_optmsk (fri_ip fri)) =? 0) then 1
  else match check_addr (fi_v fi) (lookup (fi_src fi)) (fri_satype fri) (fi_src fi) (fi_src (fri_mip fri)) (fi_src (fri_ip fri)) with
       | None => 1
       | Some i =>
           if negb (Z.lxor i (Z.shiftr (Z.land (fr_flags r) FR_NOTSRCIP) 6) =? 0) then 1
           else match check_addr (fi_v fi) (lookup (fi_dst fi)) (fri_datype fri) (fi_dst fi) (fi_dst (fri_mip fri))
                        (fi_dst (fri_ip fri)) with
                | None => 1
                | Some i =>
                    if negb (Z.lxor i (Z.shiftr (Z.land (fr_flags r) FR_NOTDSTIP) 7) =? 0) then 1
                    else
                      let i := i32 (u32 (fi_ipso (fri_ip fri) - Z.land (fi_ipso fi) (fi_ipso (fri_mip fri)))) in
                      let i := Z.lor i (i32 (u32 (fi_flx (fri_ip fri) - Z.land (fi_flx fi) (fi_flx (fri_mip fri))))) in
                      if i =? 0 then check_l4 fin fri portcmp else i
                end
       end.

(** [ipf_matchtag], on two tag objects. *)
Definition ipf_matchtag (tag1 tag2 : list Z) : bool :=
  if (nth 0 tag1 0 =? 0) && (nth 0 tag2 0 =? 0) then true
  else (nth 0 tag1 0 =? nth 0 tag2 0) && (nth 1 tag1 0 =? nth 1 tag2 0) &&
       (nth 2 tag1 0 =? nth 2 tag2 0) && (nth 3 tag1 0 =? nth 3 tag2 0).

(** ** Lists of rules *)

(** The packet summary, whether [fin_m] and [*fin_mp] are not null, the rules, the
    first rules of the groups, and the state of the rest. *)
Record filterw (E : Type) := mk_filterw {
  w_fin : fr_info; w_m : bool; w_mp : bool;
  w_rules : gmap loc frentry; w_groups : gmap loc (option loc); w_ext : E }.
Arguments mk_filterw {_}.
Arguments w_fin {_}.
Arguments w_m {_}.
Arguments w_mp {_}.
Arguments w_rules {_}.
Arguments w_groups {_}.
Arguments w_ext {_}.
#[export] Instance eta_filterw {E} : Eta (filterw E) := fun r =>
  mk_filterw (w_fin r) (w_m r) (w_mp r) (w_rules r) (w_groups r) (w_ext r).

(** [strncpy(dst, name, strlen(name))]: no terminator is written. *)
Definition strncpy_len (name dst : list Z) : list Z := name ++ drop (length name) dst.
Definition first_nul (dst : list Z) : list Z := match dst with [] => [] | _ :: t => 0 :: t end.

Section Scan.
Context {E : Type} `{filter_env E}.
Abbreviation W := (filterw E).

Definition upd_fin (f : fr_info -> fr_info) : ST W unit := modify (fun w => w <| w_fin ::= f |>).
Definition rule (x : loc) : ST W frentry := fun w => r ← w_rules w !! x; Some (r, w).
Definition upd_rule (x : loc) (f : frentry -> frentry) : ST W unit := fun w =>
  _ ← w_rules w !! x; Some (tt, w <| w_rules ::= alter f x |>).
(** A call into the rest. *)
Definition call {A} (f : fr_info -> E -> A * fr_info * E) : ST W A := fun w =>
  let '(a, fin, ext) := f (w_fin w) (w_ext w) in Some (a, w <| w_fin := fin |> <| w_ext := ext |>).

(** [ipf_srcgrpmap] and [ipf_dstgrpmap]. *)
Definition grpmap (scanlist : Z -> ST W Z) (addr : fr_info -> Z) (pass : Z) : ST W (option loc) :=
  w ← gets id;
  cur ← need (fin_fr (w_fin w));
  r ← rule cur;
  match env_findgroup (w_ext w) (fr_ptr r) (addr (w_fin w)) with
  | None => mret None
  | Some fg =>
      start ← need (w_groups w !! fg);
      upd_fin (fun fin => fin <| fin_fr := start |>);;
      scanlist pass;;
      gets (fun w => fin_fr (w_fin w))
  end.
Definition ipf_srcgrpmap (scanlist : Z -> ST W Z) (pass : Z) : ST W (option loc) := grpmap scanlist fin_saddr pass.
Definition ipf_dstgrpmap (scanlist : Z -> ST W Z) (pass : Z) : ST W (option loc) := grpmap scanlist fin_daddr pass.

(** [( *fr->fr_func)(fin, &pass)]. *)
Definition call_func (scanlist : Z -> ST W Z) (f : ipfunc) (pass : Z) : ST W (option loc * Z) :=
  match f with
  | FnBad => stuck
  | FnSrcGrpMap => x ← ipf_srcgrpmap scanlist pass; mret (x, pass)
  | FnDstGrpMap => x ← ipf_dstgrpmap scanlist pass; mret (x, pass)
  | FnOther id => call (fun fin ext => let '(x, fin, pass, ext) := env_func id fin pass ext in ((x, pass), fin, ext))
  end.

(** The tests that decide whether the rule [x] applies: the rule that stands for it
    ([fr = f] for functions) and the decision so far. *)
Definition match_type (scanlist : Z -> ST W Z) (x : loc) (pass : Z) (portcmp : bool) : ST W (option loc * Z) :=
  w ← gets id;
  r ← rule x;
  match fr_type r with
  | FR_T_IPF => mret (if negb (ipf_check_ipf (w_ext w) (w_fin w) r portcmp =? 0) then None else Some x, pass)
  | FR_T_CALLFUNC_BUILTIN => f ← need (fr_func r); call_func scanlist f pass
  | FR_T_IPFEXPR =>
      if negb (fin_family (w_fin w) =? fr_family r) then mret (None, pass) else
      match ipf_fr_matcharray (length (fr_data r)) (w_fin w) (fr_data r) with
      | Ok rv => mret (if rv =? 0 then None else Some x, pass)
      | _ => stuck
      end
  | _ => mret (Some x, pass)
  end.
Definition match_tag (x : loc) : ST W bool :=
  w ← gets id;
  r ← rule x;
  mret (if (fin_out (w_fin w) =? 0) && negb (nth 0 (fr_nattag r) 0 =? 0) then
          match fin_nattag (w_fin w) with None => false | Some tag => ipf_matchtag (fr_nattag r) tag end
        else true).

(** "Call now": the rule that the function returns replaces the rule; [None] means
    that the rule is passed over. *)
Definition call_now (scanlist : Z -> ST W Z) (x : loc) : ST W (option (loc * Z)) :=
  r ← rule x;
  let passt := fr_flags r in
  if negb (has passt FR_CALLNOW) then mret (Some (x, passt)) else
  upd_rule x (fun r => r <| fr_hits ::= fun n => u64 (n + 1) |>);;
  match fr_func r with
  | None | Some FnBad => mret None
  | Some f =>
      frs ← gets (fun w => fin_fr (w_fin w));
      upd_fin (fun fin => fin <| fin_fr := Some x |>);;
      y ← call_func scanlist f passt;
      match fst y with
      | None => upd_fin (fun fin => fin <| fin_fr := frs |>);; mret None
      | Some y => r ← rule y; mret (Some (y, fr_flags r))
      end
  end.

(** Logging a [log] rule. *)
Definition log_rule (passt : Z) : ST W Z :=
  if negb (Z.land passt FR_LOGMASK =? FR_LOG) then mret passt else
  rv ← call (fun fin ext => let '(rv, ext) := env_log_pkt fin passt ext in (rv, fin, ext));
  if (rv =? -1) && has passt FR_LOGORBLOCK then
    upd_fin (fun fin => fin <| fin_reason := FRB_LOGFAIL |>);;
    mret (Z.lor (clear passt FR_CMDMASK) (Z.lor FR_BLOCK FR_QUICK))
  else mret passt.

Definition set_group (r : frentry) (fin : fr_info) : fr_info :=
  fin <| fin_group ::= match fr_group r with Some name => strncpy_len name | None => first_nul end |>.
Definition set_group_if (r : frentry) (fin : fr_info) : fr_info :=
  match fr_group r with Some name => fin <| fin_group ::= strncpy_len name |> | None => fin end.

(** The rule [x] has matched: counters, the decision, the rule's return code and
    group. *)
Definition account (x : loc) (rulen passt : Z) : ST W Z :=
  r ← rule x;
  upd_fin (fun fin => fin <| fin_fr := Some x |>);;
  passt ← log_rule passt;
  w ← gets id;
  upd_rule x (fun r => r <| fr_bytes ::= fun n => u64 (n + u64 (fin_plen (w_fin w))) |> <| fr_hits ::= fun n => u64 (n + 1) |>);;
  upd_fin (fun fin => fin <| fin_rule := u32 rulen |>);;
  when_ (has passt (Z.lor FR_RETICMP FR_FAKEICMP)) (upd_fin (fun fin => fin <| fin_icode := fr_icode r |>));;
  upd_fin (set_group r);;
  mret passt.
Definition new_pass (passt pass : Z) : Z :=
  if negb (Z.land passt FR_LOGMASK =? FR_LOG) && negb (Z.land passt FR_LOGMASK =? FR_DECAPSULATE) then passt else pass.

(** Descending into the group that the rule heads. *)
Definition descend (scanlist : Z -> ST W Z) (x : loc) (rulen passt pass : Z) : ST W Z :=
  r ← rule x;
  match fr_grphead r with
  | None => mret pass
  | Some g =>
      w ← gets id;
      start ← need (w_groups w !! g);
      upd_fin (fun fin => fin <| fin_fr := start |>);;
      passt ← (if FR_ISDECAPS passt then call (fun fin ext => env_decaps fin pass ext) else scanlist pass);
      fr ← gets (fun w => fin_fr (w_fin w));
      if bool_decide (fr = None) then
        upd_fin (fun fin => set_group_if r (fin <| fin_rule := u32 rulen |>) <| fin_fr := Some x |>);;
        mret pass
      else mret passt
  end.

(** "Quick": the decision stands, unless the state that it asks for cannot be
    added. *)
Definition quick_done (x : loc) (pass : Z) : ST W bool :=
  w ← gets id;
  if has pass FR_KEEPSTATE && negb (FR_ISAUTH pass) && negb (has (fin_flx (w_fin w)) FI_STATE) then
    upd_fin (fun fin => fin <| fin_fr := Some x |>);;
    rv ← call env_state_add;
    mret (rv =? 0)
  else mret true.

(** [ipf_scanlist] around the loop over the rules. *)
Definition scanlist_with (loop : option loc -> Z -> Z -> bool -> ST W Z) (pass : Z) : ST W Z :=
  fin ← gets w_fin;
  if fin_depth fin >=? 16 then mret pass else
  match fin_fr fin with
  | None => mret pass
  | Some fr =>
      let portcmp := has (fin_flx fin) FI_TCPUDP && (fin_dlen fin >? 3) && (fin_off fin =? 0) in
      upd_fin (fun fin => fin <| fin_depth ::= fun d => d + 1 |> <| fin_fr := None |>);;
      pass ← loop (Some fr) 0 pass portcmp;
      upd_fin (fun fin => fin <| fin_depth ::= fun d => d - 1 |>);;
      mret pass
  end.

(** The loop: [fr] is the rule at hand, [rulen] its number. *)
Fixpoint scan_loop (fuel : nat) (fr : option loc) (rulen pass : Z) (portcmp : bool) : ST W Z :=
  match fr with
  | None => mret pass
  | Some x =>
      match fuel with
      | O => stuck
      | S fuel =>
          let scanlist := scanlist_with (scan_loop fuel) in
          r ← rule x;
          let continue pass := scan_loop fuel (fr_next r) (rulen + 1) pass portcmp in
          fin ← gets w_fin;
          if bool_decide (fr_ifa r <> None) && negb (bool_decide (fr_ifa r = fin_ifp fin)) then continue pass else
          m ← match_type scanlist x pass portcmp;
          let pass := snd m in
          match fst m with
          | None => continue pass
          | Some x =>
              tag ← match_tag x;
              if negb tag then continue pass else
              c ← call_now scanlist x;
              match c with
              | None => continue pass
              | Some (x, passt) =>
                  passt ← account x rulen passt;
                  let passo := pass in
                  let pass := new_pass passt pass in
                  pass ← descend scanlist x rulen passt pass;
                  if has pass FR_QUICK then
                    done ← quick_done x pass;
                    if (done : bool) then mret pass else continue passo
                  else continue pass
              end
          end
      end
  end.

Definition ipf_scanlist (fuel : nat) (pass : Z) : ST W Z := scanlist_with (scan_loop fuel) pass.

(** [ipf_acctpkt]; [acct] is [ipf_acct[out][active]]. *)
Definition ipf_acctpkt (fuel : nat) (acct : option loc) : ST W unit :=
  match acct with
  | None => mret tt
  | Some _ =>
      fin ← gets w_fin;
      upd_fin (fun fin => fin <| fin_fr := acct |>);;
      ipf_scanlist fuel FR_NOMATCH;;
      upd_fin (fun fin' => fin' <| fin_fr := fin_fr fin |> <| fin_group := fin_group fin |> <| fin_rule := fin_rule fin |>)
  end.

(** ** The firewall stage *)

(** [ppsratecheck]: the verdict, the time of the last reset and the count. *)
Definition ppsratecheck (tv lasttime : Z * Z) (curpps maxpps : Z) : bool * (Z * Z) * Z :=
  let sec := fst tv - fst lasttime in
  let usec := snd tv - snd lasttime in
  let '(sec, usec) := if usec <? 0 then (sec - 1, usec + 1000000) else (sec, usec) in
  let '(rv, lasttime, curpps) :=
    if ((fst lasttime =? 0) && (snd lasttime =? 0)) || (sec >=? 1) then (true, tv, 0)
    else if maxpps <? 0 then (true, lasttime, curpps)
    else if curpps <? maxpps then (true, lasttime, curpps)
    else (false, lasttime, curpps) in
  (rv, lasttime, i32 (curpps + 1)).

(** The rate limit of the rule, if it has one. *)
Definition rate_limit (fr : option loc) (pass : Z) : ST W Z :=
  match fr with
  | None => mret pass
  | Some x =>
      r ← rule x;
      if fr_pps r =? 0 then mret pass else
      w ← gets id;
      let '(ok, lastpkt, curpps) := ppsratecheck (env_time (w_ext w)) (fr_lastpkt r) (fr_curpps r) (fr_pps r) in
      upd_rule x (fun r => r <| fr_lastpkt := lastpkt |> <| fr_curpps := curpps |>);;
      if (ok : bool) then mret pass
      else
        upd_fin (fun fin => fin <| fin_reason := FRB_PPSRATE |>);;
        mret (Z.lor (clear pass (Z.lor FR_CMDMASK (Z.lor FR_RETICMP FR_RETRST))) FR_BLOCK)
  end.

Definition ENOSPC : Z := 28.

(** [ipf_firewall]; [rules] is [ipf_rules[out][active]], [ipf_pass] the default
    policy.  The result is the rule and the decision. *)
Definition ipf_firewall (fuel : nat) (rules : option loc) (ipf_pass passp : Z) : ST W (option loc * Z) :=
  upd_fin (fun fin => fin <| fin_fr := rules |>);;
  pass ← match rules with None => mret passp | Some _ => ipf_scanlist fuel ipf_pass end;
  fr ← gets (fun w => fin_fr (w_fin w));
  pass ← rate_limit fr pass;
  (if FR_ISAUTH pass then
     rv ← call env_auth_new;
     if negb (rv =? 0) then
       modify (fun w => w <| w_m := false |> <| w_mp := false |>);;
       upd_fin (fun fin => fin <| fin_reason := FRB_AUTHNEW |> <| fin_error := 0 |>)
     else upd_fin (fun fin => fin <| fin_error := ENOSPC |>)
   else mret tt);;
  pass ← match fr with
         | Some x =>
             r ← rule x;
             match fr_func r with
             | None | Some FnBad => mret pass
             | Some f => if has pass FR_CALLNOW then mret pass
                         else y ← call_func (ipf_scanlist fuel) f pass; mret (snd y)
             end
         | None => mret pass
         end;
  pass ← (if FR_ISPREAUTH pass then call (fun fin ext => env_auth_pre_scanlist fin pass ext) else mret pass);
  when_ ((Z.land pass (Z.lor FR_KEEPFRAG FR_KEEPSTATE) =? FR_KEEPFRAG))
    (w ← gets id;
     when_ (has (fin_flx (w_fin w)) FI_FRAG)
       (_ ← call (fun fin ext => let '(rv, ext) := env_frag_new fin pass ext in (rv, fin, ext)); mret tt));;
  fr ← gets (fun w => fin_fr (w_fin w));
  mret (fr, pass).
End Scan.

(** ** A reference semantics

    Rules without side calls, seen as a tree: a rule, and for the head of a group
    the rules of the group. *)
#[warnings="-register-all"]
Inductive rtree := RNode (x : loc) (r : frentry) (sub : option (list rtree)).
Definition first_rule (l : list rtree) : option loc := match l with [] => None | RNode x _ _ :: _ => Some x end.

(** The decision and the last rule that matched: the last match stands, the first
    quick one ends the walk; a group refines the decision of its head; [n] is the
    number of further levels that may be entered. *)
Fixpoint eval_list (matches : frentry -> bool) (n : nat) : list rtree -> Z -> option loc -> Z * option loc :=
  fix go (l : list rtree) (pass : Z) (cur : option loc) : Z * option loc :=
    match l with
    | [] => (pass, cur)
    | RNode x r sub :: l =>
        if matches r then
          let inner := match sub with
                       | None => (fr_flags r, None)
                       | Some ts => match n with
                                    | O => (fr_flags r, first_rule ts)
                                    | S n => eval_list matches n ts (fr_flags r) None
                                    end
                       end in
          let '(p, c) := match snd inner with Some y => (fst inner, Some y) | None => (fr_flags r, Some x) end in
          if has p FR_QUICK then (p, c) else go l p c
        else go l pass cur
    end.

(** What a rule that matches contributes. *)
Definition eval_match (matches : frentry -> bool) (n : nat) (x : loc) (r : frentry) (sub : option (list rtree)) : Z * option loc :=
  let inner := match sub with
               | None => (fr_flags r, None)
               | Some ts => match n with
                            | O => (fr_flags r, first_rule ts)
                            | S n => eval_list matches n ts (fr_flags r) None
                            end
               end in
  match snd inner with Some y => (fst inner, Some y) | None => (fr_flags r, Some x) end.
Lemma eval_nil matches n pass cur : eval_list matches n [] pass cur = (pass, cur).
Proof. by destruct n. Qed.
Lemma eval_cons matches n x r sub l pass cur :
  eval_list matches n (RNode x r sub :: l) pass cur =
    if matches r then
      let pc := eval_match matches n x r sub in
      if has (fst pc) FR_QUICK then pc else eval_list matches n l (fst pc) (snd pc)
    else eval_list matches n l pass cur.
Proof.
  destruct n; cbn [eval_list]; unfold eval_match; destruct (matches r); try done;
    by destruct (match snd _ with Some y => _ | None => _ end).
Qed.

(** What the walk may not change in a rule, and in the packet. *)
Definition static (r : frentry) : frentry := r <| fr_hits := 0 |> <| fr_bytes := 0 |>.
Definition scan_frame (fin : fr_info) : fr_info :=
  fin <| fin_fr := None |> <| fin_rule := 0 |> <| fin_group := [] |> <| fin_icode := 0 |> <| fin_depth := 0 |>.

Definition stateless (p : Z) : Prop := has p FR_KEEPSTATE && negb (FR_ISAUTH p) = false.
(** A rule on header fields alone: no function, no tag, no logging or
    decapsulation as its action; and one that keeps no state either. *)
Record header_rule (r : frentry) : Prop := {
  pl_type : fr_type r = FR_T_IPF;
  pl_tag : nth 0 (fr_nattag r) 0 = 0;
  pl_call : has (fr_flags r) FR_CALLNOW = false;
  pl_log : Z.land (fr_flags r) FR_LOGMASK <> FR_LOG;
  pl_decaps : FR_ISDECAPS (fr_flags r) = false;
  pl_logdecaps : Z.land (fr_flags r) FR_LOGMASK <> FR_DECAPSULATE }.
Record plain (r : frentry) : Prop := {
  pl_header : header_rule r;
  pl_state : stateless (fr_flags r) }.

(** The rules reachable from [start] in the store, as a tree. *)
Inductive ruleset (rs : gmap loc frentry) (gs : gmap loc (option loc)) : option loc -> list rtree -> Prop :=
  | rs_nil : ruleset rs gs None []
  | rs_rule x r l :
      rs !! x = Some r -> plain r -> fr_grphead r = None -> ruleset rs gs (fr_next r) l ->
      ruleset rs gs (Some x) (RNode x r None :: l)
  | rs_head x r g start ts l :
      rs !! x = Some r -> plain r -> fr_grphead r = Some g -> gs !! g = Some start -> ruleset rs gs start ts ->
      ruleset rs gs (fr_next r) l -> ruleset rs gs (Some x) (RNode x r (Some ts) :: l).

Fixpoint rsize (t : rtree) : nat :=
  match t with
  | RNode _ _ None => 1
  | RNode _ _ (Some ts) => S ((fix go l := match l with [] => O | t :: l => (rsize t + go l)%nat end) ts)
  end.
Fixpoint rsizes (l : list rtree) : nat := match l with [] => O | t :: l => (rsize t + rsizes l)%nat end.
Lemma rsize_head x r ts : rsize (RNode x r (Some ts)) = S (rsizes ts).
Proof. done. Qed.

Lemma ruleset_first rs gs start l : ruleset rs gs start l -> start = first_rule l.
Proof. by destruct 1. Qed.

Lemma eval_stateless matches rs gs start l : ruleset rs gs start l -> forall n pass cur,
  stateless pass -> stateless (fst (eval_list matches n l pass cur)).
Proof.
  induction 1 as [|x r l Hx Hp Hg _ IH|x r g st ts l Hx Hp Hg Hgs _ IHts _ IH]; intros n pass cur Hs;
    [by rewrite eval_nil|..]; rewrite eval_cons; pose proof (pl_state r Hp) as Hr;
    (destruct (matches r); [|by apply IH]); cbv zeta.
  - cbn [eval_match fst snd]. destruct (has _ FR_QUICK); [done|by apply IH].
  - assert (Hm : stateless (fst (eval_match matches n x r (Some ts)))).
    { unfold eval_match. destruct n as [|n]; [by destruct (first_rule ts)|].
      pose proof (IHts n (fr_flags r) None Hr). by destruct (snd _). }
    destruct (has _ FR_QUICK); [done|by apply IH].
Qed.
Lemma match_stateless matches rs gs start ts n x r :
  ruleset rs gs start ts -> plain r -> stateless (fst (eval_match matches n x r (Some ts))).
Proof.
  intros Hs Hp. pose proof (pl_state r Hp) as Hr. unfold eval_match.
  destruct n as [|n]; [by destruct (first_rule ts)|].
  pose proof (eval_stateless matches rs gs start ts Hs n (fr_flags r) None Hr). by destruct (snd _).
Qed.

Section Refine.
Context {E : Type} `{filter_env E}.
Abbreviation W := (filterw E).

(** What every step of the walk over plain rules keeps. *)
Record kept (w w' : W) : Prop := {
  k_rules : static <$> w_rules w' = static <$> w_rules w;
  k_groups : w_groups w' = w_groups w;
  k_ext : w_ext w' = w_ext w;
  k_frame : scan_frame (w_fin w') = scan_frame (w_fin w);
  k_depth : fin_depth (w_fin w') = fin_depth (w_fin w) }.
Lemma kept_refl w : kept w w.
Proof. done. Qed.
Lemma kept_trans w1 w2 w3 : kept w1 w2 -> kept w2 w3 -> kept w1 w3.
Proof. intros [] []. split; congruence. Qed.
(** Changes to the fields outside the frame. *)
Lemma kept_fin w fin : scan_frame fin = scan_frame (w_fin w) -> fin_depth fin = fin_depth (w_fin w) ->
  kept w (w <| w_fin := fin |>).
Proof. intros. by split. Qed.

(** Whether the rule applies to the packet. *)
Definition portcmp_of (fin : fr_info) : bool := has (fin_flx fin) FI_TCPUDP && (fin_dlen fin >? 3) && (fin_off fin =? 0).
Definition rule_matches (ext : E) (fin : fr_info) (r : frentry) : bool :=
  negb (bool_decide (fr_ifa r <> None) && negb (bool_decide (fr_ifa r = fin_ifp fin))) &&
  (ipf_check_ipf ext fin r (portcmp_of fin) =? 0).

Lemma check_ipf_frame ext fin r p : ipf_check_ipf ext fin r p = ipf_check_ipf ext (scan_frame fin) (static r) p.
Proof. reflexivity. Qed.
Lemma portcmp_frame fin : portcmp_of fin = portcmp_of (scan_frame fin).
Proof. reflexivity. Qed.
Lemma rule_matches_kept w w' r : kept w w' -> rule_matches (w_ext w') (w_fin w') r = rule_matches (w_ext w) (w_fin w) r.
Proof.
  intros [_ _ -> Hf _]. unfold rule_matches. rewrite (portcmp_frame (w_fin w')), (portcmp_frame (w_fin w)).
  rewrite (check_ipf_frame _ (w_fin w')), (check_ipf_frame _ (w_fin w)), Hf.
  change (fin_ifp (w_fin w')) with (fin_ifp (scan_frame (w_fin w'))). by rewrite Hf.
Qed.

Lemma rule_run (w : W) x r : w_rules w !! x = Some r -> rule x w = Some (r, w).
Proof. intros Hr. unfold rule. by rewrite Hr. Qed.
Lemma static_lookup (w : W) x r : (static <$> w_rules w) !! x = Some r ->
  exists r0, w_rules w !! x = Some r0 /\ static r0 = r.
Proof. rewrite lookup_fmap, fmap_Some. intros (r0 & ? & ->). by exists r0. Qed.

Lemma match_type_run scan (w : W) x r pass p : w_rules w !! x = Some r -> fr_type r = FR_T_IPF ->
  match_type scan x pass p w =
    Some ((if negb (ipf_check_ipf (w_ext w) (w_fin w) r p =? 0) then None else Some x, pass), w).
Proof.
  intros Hr Ht. unfold match_type. rewrite (bind_eq _ _ _ w w) by done.
  rewrite (bind_eq _ _ _ _ _ (rule_run w x r Hr)). by rewrite Ht.
Qed.
Lemma match_tag_run (w : W) x r : w_rules w !! x = Some r -> nth 0 (fr_nattag r) 0 = 0 -> match_tag x w = Some (true, w).
Proof.
  intros Hr Ht. unfold match_tag. rewrite (bind_eq _ _ _ w w) by done.
  rewrite (bind_eq _ _ _ _ _ (rule_run w x r Hr)). rewrite Ht. cbn [Z.eqb negb]. by rewrite andb_false_r.
Qed.
Lemma call_now_run scan (w : W) x r : w_rules w !! x = Some r -> has (fr_flags r) FR_CALLNOW = false ->
  call_now scan x w = Some (Some (x, fr_flags r), w).
Proof. intros Hr Hc. unfold call_now. rewrite (bind_eq _ _ _ _ _ (rule_run w x r Hr)). by rewrite Hc. Qed.

Lemma static_alter (m : gmap loc frentry) f x : (forall r, static (f r) = static r) -> static <$> alter f x m = static <$> m.
Proof.
  intros Hf. apply map_eq. intros i. rewrite !lookup_fmap, lookup_alter. case_decide; [subst|done].
  destruct (m !! i); [simpl; by rewrite Hf|done].
Qed.

Lemma account_run (w : W) x r rulen passt : w_rules w !! x = Some r -> Z.land passt FR_LOGMASK <> FR_LOG ->
  exists w', account x rulen passt w = Some (passt, w') /\ kept w w' /\ fin_fr (w_fin w') = Some x.
Proof.
  intros Hr Hl. unfold account. rewrite (bind_eq _ _ _ _ _ (rule_run w x r Hr)).
  rewrite (bind_eq _ _ _ tt (w <| w_fin ::= fun fin => fin <| fin_fr := Some x |> |>)) by done.
  unfold log_rule. rewrite (proj2 (Z.eqb_neq _ _) Hl). cbn [negb]. set (w1 := w <| w_fin ::= _ |>).
  rewrite (bind_eq _ _ _ passt w1), (bind_eq _ _ _ w1 w1) by done.
  set (bump := fun r : frentry => _).
  assert (Eu : upd_rule x bump w1 = Some (tt, w1 <| w_rules ::= alter bump x |>)).
  { unfold upd_rule. cbn [w_rules field_set w1]. by rewrite Hr. }
  rewrite (bind_eq _ _ _ _ _ Eu). set (w2 := w1 <| w_rules ::= _ |>).
  rewrite (bind_eq _ _ _ tt (w2 <| w_fin ::= fun fin => fin <| fin_rule := u32 rulen |> |>)) by done.
  set (w3 := w2 <| w_fin ::= _ |>).
  assert (Hs : static <$> w_rules w2 = static <$> w_rules w) by (by apply static_alter).
  assert (exists w4, when_ (has passt (Z.lor FR_RETICMP FR_FAKEICMP))
      (upd_fin (fun fin => fin <| fin_icode := fr_icode r |>)) w3 = Some (tt, w4) /\
    kept w w4 /\ fin_fr (w_fin w4) = Some x) as (w4 & Hw4 & Hk & Hfr).
  { destruct (has passt _); cbn [when_]; eexists; (split; [reflexivity|]); (split; [|done]); by split. }
  rewrite (bind_eq _ _ _ _ _ Hw4). eexists. split; [reflexivity|]. split; [|done].
  eapply kept_trans; [exact Hk|]. apply kept_fin; done.
Qed.

Lemma plain_new_pass r pass : header_rule r -> new_pass (fr_flags r) pass = fr_flags r.
Proof.
  intros Hp. unfold new_pass. by rewrite (proj2 (Z.eqb_neq _ _) (pl_log r Hp)), (proj2 (Z.eqb_neq _ _) (pl_logdecaps r Hp)).
Qed.
Lemma quick_run x p (w : W) : stateless p -> quick_done x p w = Some (true, w).
Proof.
  intros Hs. unfold quick_done. rewrite (bind_eq _ _ _ w w) by done. unfold stateless in Hs. by rewrite Hs.
Qed.
Lemma plain_static r : plain (static r) -> plain r.
Proof. intros [[? ? ? ? ? ?] ?]. split; [by split|done]. Qed.
Lemma static_fields r : fr_next (static r) = fr_next r /\ fr_flags (static r) = fr_flags r /\
  fr_grphead (static r) = fr_grphead r /\ forall ext fin, rule_matches ext fin (static r) = rule_matches ext fin r.
Proof. by split_and!. Qed.

Lemma scan_step_miss fuel x r rulen pass (w : W) :
  w_rules w !! x = Some r -> header_rule r -> rule_matches (w_ext w) (w_fin w) r = false ->
  scan_loop (S fuel) (Some x) rulen pass (portcmp_of (w_fin w)) w =
  scan_loop fuel (fr_next r) (rulen + 1) pass (portcmp_of (w_fin w)) w.
Proof.
  intros Hr Hp Hm. cbn [scan_loop]. rewrite (bind_eq _ _ _ _ _ (rule_run w x r Hr)).
  rewrite (bind_eq _ _ _ (w_fin w) w) by done. unfold rule_matches in Hm.
  set (ia := bool_decide (fr_ifa r <> None) && negb (bool_decide (fr_ifa r = fin_ifp (w_fin w)))) in *. destruct ia; [done|].
  cbn [negb andb] in Hm. rewrite (bind_eq _ _ _ _ _ (match_type_run _ w x r pass _ Hr (pl_type r Hp))).
  cbn [fst snd]. by rewrite Hm.
Qed.

Lemma scan_step_hit fuel x r rulen pass (w : W) :
  w_rules w !! x = Some r -> header_rule r -> rule_matches (w_ext w) (w_fin w) r = true ->
  exists w1, kept w w1 /\ fin_fr (w_fin w1) = Some x /\
    scan_loop (S fuel) (Some x) rulen pass (portcmp_of (w_fin w)) w =
    (p ← descend (scanlist_with (scan_loop fuel)) x rulen (fr_flags r) (fr_flags r);
     if has p FR_QUICK then done ← quick_done x p; if (done : bool) then mret p
       else scan_loop fuel (fr_next r) (rulen + 1) pass (portcmp_of (w_fin w))
     else scan_loop fuel (fr_next r) (rulen + 1) p (portcmp_of (w_fin w))) w1.
Proof.
  intros Hr Hp Hm. destruct (account_run w x r rulen (fr_flags r) Hr (pl_log r Hp)) as (w1 & Ha & Hk & Hf).
  exists w1. split_and!; [done|done|]. cbn [scan_loop]. rewrite (bind_eq _ _ _ _ _ (rule_run w x r Hr)).
  rewrite (bind_eq _ _ _ (w_fin w) w) by done. unfold rule_matches in Hm. apply andb_true_iff in Hm as [Hi Hm].
  apply negb_true_iff in Hi. rewrite Hi. cbv iota. rewrite (bind_eq _ _ _ _ _ (match_type_run _ w x r pass _ Hr (pl_type r Hp))).
  cbn [fst snd]. rewrite Hm. cbn [negb]. rewrite (bind_eq _ _ _ _ _ (match_tag_run w x r Hr (pl_tag r Hp))). cbn [negb].
  rewrite (bind_eq _ _ _ _ _ (call_now_run _ w x r Hr (pl_call r Hp))). cbv beta iota.
  rewrite (bind_eq _ _ _ _ _ Ha). by rewrite plain_new_pass.
Qed.

(** Entering a list of rules at depth [d]. *)
Lemma scanlist_with_run (loop : option loc -> Z -> Z -> bool -> ST W Z) pass (w w2 : W) x p :
  fin_depth (w_fin w) < 16 -> fin_fr (w_fin w) = Some x ->
  let w1 := w <| w_fin ::= fun fin => fin <| fin_depth ::= fun d => d + 1 |> <| fin_fr := None |> |> in
  loop (Some x) 0 pass (portcmp_of (w_fin w1)) w1 = Some (p, w2) -> kept w1 w2 ->
  exists w', scanlist_with loop pass w = Some (p, w') /\ kept w w' /\ fin_fr (w_fin w') = fin_fr (w_fin w2).
Proof.
  intros Hd Hfr w1 Hl Hk. unfold scanlist_with. rewrite (bind_eq _ _ _ (w_fin w) w) by done.
  rewrite Z.geb_leb, (proj2 (Z.leb_gt _ _)) by lia. rewrite Hfr. rewrite (bind_eq _ _ _ tt w1) by done.
  change (has (fin_flx (w_fin w)) FI_TCPUDP && (fin_dlen (w_fin w) >? 3) && (fin_off (w_fin w) =? 0))
    with (portcmp_of (w_fin w1)).
  rewrite (bind_eq _ _ _ _ _ Hl).
  exists (w2 <| w_fin ::= fun fin => fin <| fin_depth ::= fun d => d - 1 |> |>). split; [done|]. split; [|done].
  destruct Hk as [K1 K2 K3 K4 K5]. split; try done. simpl. rewrite K5. simpl. lia.
Qed.

(** What descending into a group contributes, given what the walk over it does. *)
Lemma descend_run loop x r rulen n m ts (w w2 : W) g start p :
  w_rules w !! x = Some r -> header_rule r -> fr_grphead r = Some g -> w_groups w !! g = Some start ->
  (let wg := w <| w_fin ::= fun fin => fin <| fin_fr := start |> |> in
   scanlist_with loop (fr_flags r) wg = Some (p, w2) /\ kept wg w2 /\
   (p, fin_fr (w_fin w2)) = match n with O => (fr_flags r, first_rule ts) | S n => eval_list m n ts (fr_flags r) None end) ->
  exists w', descend (scanlist_with loop) x rulen (fr_flags r) (fr_flags r) w = Some (fst (eval_match m n x r (Some ts)), w') /\
    kept w w' /\ fin_fr (w_fin w') = snd (eval_match m n x r (Some ts)).
Proof.
  intros Hr Hp Hg Hgs (Hrun & Hk & Hev). unfold descend. rewrite (bind_eq _ _ _ _ _ (rule_run w x r Hr)). rewrite Hg.
  rewrite (bind_eq _ _ _ w w) by done. rewrite Hgs. rewrite (bind_eq _ _ _ start w) by done.
  set (wg := w <| w_fin ::= _ |>) in *. rewrite (bind_eq _ _ _ tt wg) by done. rewrite (pl_decaps r Hp).
  rewrite (bind_eq _ _ _ _ _ Hrun). rewrite (bind_eq _ _ _ (fin_fr (w_fin w2)) w2) by done.
  assert (Hkw : kept w w2) by (eapply kept_trans; [|exact Hk]; by apply kept_fin).
  unfold eval_match. rewrite <- Hev. cbn [fst snd]. destruct (fin_fr (w_fin w2)) as [y|] eqn:Ey.
  - rewrite bool_decide_eq_false_2 by done. by exists w2.
  - rewrite bool_decide_eq_true_2 by done. eexists. split; [reflexivity|]. split; [|done].
    eapply kept_trans; [exact Hkw|]. unfold set_group_if. destruct (fr_group r); by split.
Qed.

Lemma eval_ext m m' n l : (forall r, m r = m' r) -> forall pass cur,
  (forall k l pass cur, (k < n)%nat -> eval_list m k l pass cur = eval_list m' k l pass cur) ->
  eval_list m n l pass cur = eval_list m' n l pass cur.
Proof.
  intros Hm pass cur Hlow. revert pass cur. induction l as [|[x r sub] l IH]; intros pass cur; [by rewrite !eval_nil|].
  rewrite !eval_cons, Hm. assert (Ee : eval_match m n x r sub = eval_match m' n x r sub).
  { unfold eval_match. destruct sub as [ts|], n as [|n]; try done. by rewrite Hlow by lia. }
  rewrite Ee. destruct (m' r); [|apply IH]. cbv zeta. destruct (has _ FR_QUICK); [done|apply IH].
Qed.
Lemma eval_list_ext m m' n : (forall r, m r = m' r) -> forall l pass cur,
  eval_list m n l pass cur = eval_list m' n l pass cur.
Proof.
  intros Hm. induction (lt_wf n) as [n _ IH]. intros l pass cur. apply eval_ext; [done|].
  intros k l' p c Hk. by apply IH.
Qed.

Lemma eval_list_kept (w w' : W) n l p c : kept w w' ->
  eval_list (rule_matches (w_ext w') (w_fin w')) n l p c = eval_list (rule_matches (w_ext w) (w_fin w)) n l p c.
Proof. intros Hk. apply eval_list_ext. intros. by apply rule_matches_kept. Qed.

(** The loop from [start] on computes the reference on [l], at every depth. *)
Definition loop_ok (srs : gmap loc frentry) (gs : gmap loc (option loc)) (start : option loc) (l : list rtree) : Prop :=
  forall fuel rulen pass (w : W) n,
    static <$> w_rules w = srs -> w_groups w = gs -> (rsizes l <= fuel)%nat ->
    fin_depth (w_fin w) = 16 - Z.of_nat n ->
    let ev := eval_list (rule_matches (w_ext w) (w_fin w)) n l pass (fin_fr (w_fin w)) in
    exists w', scan_loop fuel start rulen pass (portcmp_of (w_fin w)) w = Some (fst ev, w') /\ kept w w' /\
      fin_fr (w_fin w') = snd ev.

(** What remains of the loop after a match. *)
Lemma rest_run srs gs next l fuel rulen pass x p (w w2 : W) n :
  loop_ok srs gs next l -> static <$> w_rules w = srs -> w_groups w = gs -> (rsizes l <= fuel)%nat ->
  fin_depth (w_fin w) = 16 - Z.of_nat n -> kept w w2 -> stateless p ->
  let ev := if has p FR_QUICK then (p, fin_fr (w_fin w2))
            else eval_list (rule_matches (w_ext w) (w_fin w)) n l p (fin_fr (w_fin w2)) in
  exists w', (if has p FR_QUICK then done ← quick_done x p; if (done : bool) then mret p
                else scan_loop fuel next (rulen + 1) pass (portcmp_of (w_fin w))
              else scan_loop fuel next (rulen + 1) p (portcmp_of (w_fin w))) w2 = Some (fst ev, w') /\
    kept w w' /\ fin_fr (w_fin w') = snd ev.
Proof.
  intros IH Hs Hg Hf Hd Hk Hst ev. unfold ev. pose proof Hk as [L1 L2 L3 L4 L5]. destruct (has p FR_QUICK) eqn:Eq.
  { rewrite (bind_eq _ _ _ _ _ (quick_run x p w2 Hst)). by exists w2. }
  destruct (IH fuel (rulen + 1) p w2 n) as (w' & Hw' & Hk' & Hf'); [congruence|congruence|done|congruence|].
  rewrite (eval_list_kept w w2) in Hw', Hf' by done. rewrite (portcmp_frame (w_fin w2)), L4, <- portcmp_frame in Hw'.
  exists w'. split; [exact Hw'|]. split; [by eapply kept_trans|done].
Qed.

(** Walking the rules of a group from its head. *)
Lemma group_run srs gs start ts fuel pass (w : W) n :
  ruleset srs gs start ts -> loop_ok srs gs start ts -> static <$> w_rules w = srs -> w_groups w = gs ->
  (rsizes ts <= fuel)%nat -> fin_depth (w_fin w) = 16 - Z.of_nat n -> fin_fr (w_fin w) = start ->
  exists p w2, scanlist_with (scan_loop fuel) pass w = Some (p, w2) /\ kept w w2 /\
    (p, fin_fr (w_fin w2)) = match n with
                             | O => (pass, first_rule ts)
                             | S n => eval_list (rule_matches (w_ext w) (w_fin w)) n ts pass None
                             end.
Proof.
  intros Hrs IH Hs Hg Hf Hd Hfr. destruct n as [|n].
  { exists pass, w. rewrite Hfr, (ruleset_first _ _ _ _ Hrs). split_and!; [|apply kept_refl|done].
    unfold scanlist_with. rewrite (bind_eq _ _ _ (w_fin w) w) by done. by rewrite Hd. }
  destruct start as [x|].
  2: { exists pass, w. inversion Hrs; subst. rewrite eval_nil. split_and!; [|apply kept_refl|by rewrite Hfr].
       unfold scanlist_with. rewrite (bind_eq _ _ _ (w_fin w) w) by done. rewrite Hfr. by destruct (_ >=? _). }
  set (w1 := w <| w_fin ::= fun fin => fin <| fin_depth ::= fun d => d + 1 |> <| fin_fr := None |> |>).
  destruct (IH fuel 0 pass w1 n) as (w2 & Hrun & Hk & Hfin); [done|done|done|simpl; lia|].
  change (eval_list (rule_matches (w_ext w1) (w_fin w1)) n ts pass (fin_fr (w_fin w1)))
    with (eval_list (rule_matches (w_ext w) (w_fin w)) n ts pass None) in *.
  destruct (scanlist_with_run (scan_loop fuel) pass w w2 x _ ltac:(lia) Hfr Hrun Hk) as (w' & Hw' & Hk' & Hf').
  eexists _, w'. split; [exact Hw'|]. split; [done|]. rewrite Hf', Hfin. by destruct (eval_list _ _ _ _ _).
Qed.

Lemma scan_run srs gs start l : ruleset srs gs start l -> loop_ok srs gs start l.
Proof.
  induction 1 as [|x r l Hx Hp Hg _ IH|x r g st ts l Hx Hp Hg Hgs Hrs IHts _ IH];
    intros fuel rulen pass w n Hs Hgr Hf Hd ev.
  { exists w. unfold ev. rewrite eval_nil. split; [by destruct fuel|]. split; [apply kept_refl|done]. }
  all: unfold ev; rewrite eval_cons; rewrite <- Hs in Hx; destruct (static_lookup w x r Hx) as (r0 & Hr0 & <-);
    pose proof (plain_static _ Hp) as Hp0; destruct (static_fields r0) as (En & Ef & Eg & Em); rewrite Em;
    rewrite En in IH; rewrite Eg in Hg.
  all: destruct fuel as [|fuel]; [rewrite ?rsize_head in Hf; simpl in Hf; lia|].
  all: assert (Hfl : (rsizes l <= fuel)%nat) by (cbn [rsizes] in Hf; rewrite ?rsize_head in Hf; simpl in Hf; lia).
  all: destruct (rule_matches (w_ext w) (w_fin w) r0) eqn:Em0;
    [|rewrite (scan_step_miss fuel x r0) by (done || apply Hp0); by apply IH].
  all: destruct (scan_step_hit fuel x r0 rulen pass w Hr0 (pl_header _ Hp0) Em0) as (w1 & Hk1 & Hf1 & ->); cbv zeta;
    pose proof Hk1 as [K1 K2 K3 K4 K5];
    (destruct (static_lookup w1 x (static r0)) as (r1 & Hr1 & Er1); [by rewrite K1|]);
    (assert (Hp1 : plain r1) by (apply plain_static; by rewrite Er1));
    destruct (static_fields r1) as (_ & Ef1 & Eg1 & _); rewrite Er1 in Ef1, Eg1; rewrite Ef in Ef1; rewrite Eg in Eg1.
  - assert (Hde : descend (scanlist_with (scan_loop fuel)) x rulen (fr_flags r0) (fr_flags r0) w1 = Some (fr_flags r0, w1)).
    { unfold descend. rewrite (bind_eq _ _ _ _ _ (rule_run w1 x r1 Hr1)). by rewrite <- Eg1, Hg. }
    rewrite (bind_eq _ _ _ _ _ Hde).
    destruct (rest_run srs gs _ l fuel rulen pass x (fr_flags r0) w w1 n IH Hs Hgr Hfl Hd Hk1 (pl_state _ Hp0)) as (w' & Hw').
    rewrite Hf1 in Hw'. exists w'. exact Hw'.
  - set (wg := w1 <| w_fin ::= fun fin => fin <| fin_fr := st |> |>).
    assert (Hkg : kept w wg) by (eapply kept_trans; [exact Hk1|by apply kept_fin]).
    destruct (group_run srs gs st ts fuel (fr_flags r0) wg n Hrs IHts) as (p & w2 & Hrun & Hk2 & Hev);
      [by rewrite (k_rules _ _ Hkg)|by rewrite (k_groups _ _ Hkg)|cbn [rsizes] in Hf; rewrite rsize_head in Hf; lia|rewrite (k_depth _ _ Hkg); done|done|].
    assert (Hev' : (p, fin_fr (w_fin w2)) = match n with O => (fr_flags r0, first_rule ts)
        | S n => eval_list (rule_matches (w_ext w) (w_fin w)) n ts (fr_flags r0) None end).
    { rewrite Hev. destruct n; [done|]. by apply eval_list_kept. }
    destruct (descend_run (scan_loop fuel) x r1 rulen n (rule_matches (w_ext w) (w_fin w)) ts w1 w2 g st p)
      as (w3 & Hd3 & Hk3 & Hf3); [done|by apply Hp1|by rewrite <- Eg1|congruence|by rewrite <- Ef1|].
    rewrite <- Ef1 in Hd3. rewrite (bind_eq _ _ _ _ _ Hd3).
    assert (Hm : eval_match (rule_matches (w_ext w) (w_fin w)) n x r1 (Some ts) =
                 eval_match (rule_matches (w_ext w) (w_fin w)) n x (static r0) (Some ts)) by (unfold eval_match; by rewrite <- Ef1, <- Ef).
    rewrite Hm in *. set (ev' := eval_match _ _ _ _ _) in *.
    destruct (rest_run srs gs _ l fuel rulen pass x (fst ev') w w3 n IH Hs Hgr Hfl Hd (kept_trans _ _ _ Hk1 Hk3)
                (match_stateless _ _ _ _ _ _ _ _ Hrs Hp)) as (w' & Hw').
    rewrite Hf3, <- surjective_pairing in Hw'. exists w'. exact Hw'.
Qed.
End Refine.

(** ** Properties of the walk *)

(** An environment without tables, functions or caches, for the examples. *)
#[export] Instance bare_env : filter_env unit := {
  env_lookup _ _ _ _ _ := 1; env_findgroup _ _ _ := None;
  env_func _ fin pass ext := (None, fin, pass, ext); env_log_pkt _ _ ext := (0, ext);
  env_state_add fin ext := (-1, fin, ext); env_decaps fin pass ext := (pass, fin, ext);
  env_auth_new fin ext := (0, fin, ext); env_auth_pre_scanlist fin pass ext := (pass, fin, ext);
  env_frag_new _ _ ext := (-1, ext); env_time _ := (5, 0) }.
Definition any_port : frpcmp := mk_frpcmp FR_NONE 0 0.
(** A rule for TCP packets from [src]/[mask] to the port [port] (any if 0). *)
Definition demo_rule (next grphead : option loc) (src mask port flags : Z) : frentry :=
  mk_frentry next grphead None FR_T_IPF
    (mk_fripf (fi_zero <| fi_v := 4 |> <| fi_p := IPPROTO_TCP |> <| fi_src := mk_i6addr src 0 0 0 |>)
       (fi_zero <| fi_v := 15 |> <| fi_p := 255 |> <| fi_src := mk_i6addr mask 0 0 0 |>) 0 0
       (mk_frtuc 0 0 any_port (if port =? 0 then any_port else mk_frpcmp FR_EQUAL port 0)) FRI_NORMAL FRI_NORMAL)
    [] 0 None 1%positive flags [0; 0; 0; 0] None 0 0 (0, 0) 0 0 0 [FdNull; FdNull] FdNull.
Definition demo_packet : fr_info :=
  fin_zero <| fin_fr := Some 1%positive |> <| fin_dlen := 20 |> <| fin_plen := 40 |>
    <| fin_fi := fi_zero <| fi_v := 4 |> <| fi_p := IPPROTO_TCP |> <| fi_src := mk_i6addr 0x0a000001 0 0 0 |>
                   <| fi_ports1 := 80 |> <| fi_flx := FI_TCPUDP |> |>.
(** Block all; a group for 10/8 that passes port 22 quickly and, after it, port 80;
    pass port 443. *)
Definition demo_filter : filterw unit :=
  mk_filterw demo_packet true true
    {[ 1%positive := demo_rule (Some 2%positive) None 0 0 0 FR_BLOCK;
       2%positive := demo_rule (Some 5%positive) (Some 1%positive) 0x0a000000 0xff000000 0 FR_BLOCK;
       3%positive := demo_rule (Some 4%positive) None 0 0 22 (Z.lor FR_PASS FR_QUICK);
       4%positive := demo_rule None None 0 0 80 FR_PASS;
       5%positive := demo_rule None None 0 0 443 FR_PASS ]}
    {[ 1%positive := Some 3%positive ]} tt.
Definition demo_tree : list rtree :=
  [ RNode 1 (demo_rule (Some 2%positive) None 0 0 0 FR_BLOCK) None;
    RNode 2 (demo_rule (Some 5%positive) (Some 1%positive) 0x0a000000 0xff000000 0 FR_BLOCK)
      (Some [ RNode 3 (demo_rule (Some 4%positive) None 0 0 22 (Z.lor FR_PASS FR_QUICK)) None;
              RNode 4 (demo_rule None None 0 0 80 FR_PASS) None ]);
    RNode 5 (demo_rule None None 0 0 443 FR_PASS) None ].
Lemma demo_plain next g src mask port flags :
  has flags FR_CALLNOW = false -> Z.land flags FR_LOGMASK <> FR_LOG -> FR_ISDECAPS flags = false ->
  Z.land flags FR_LOGMASK <> FR_DECAPSULATE -> stateless flags -> plain (demo_rule next g src mask port flags).
Proof. split; [by split|done]. Qed.
Lemma demo_ruleset : ruleset (static <$> w_rules demo_filter) (w_groups demo_filter) (Some 1%positive) demo_tree.
Proof.
  apply rs_rule; [by vm_compute|by apply demo_plain|done|].
  eapply rs_head; [by vm_compute|by apply demo_plain|done|by vm_compute| |].
  - apply rs_rule; [by vm_compute|by apply demo_plain|done|].
    apply rs_rule; [by vm_compute|by apply demo_plain|done|constructor].
  - apply rs_rule; [by vm_compute|by apply demo_plain|done|constructor].
Qed.

(** C19. Over rules on header fields, with groups to any depth, [ipf_scanlist] comes
    to an end and computes the reference semantics: the last rule that matches
    decides, a quick match ends the walk, and the rules of a group refine the
    decision of its head.  It leaves the nesting depth, the packet and everything
    about the rules except their counters as they were. *)
Theorem scanlist_refines {E} `{filter_env E} (w : filterw E) l fuel pass :
  ruleset (static <$> w_rules w) (w_groups w) (fin_fr (w_fin w)) l -> (rsizes l <= fuel)%nat ->
  0 <= fin_depth (w_fin w) < 16 ->
  let ev := eval_list (rule_matches (w_ext w) (w_fin w)) (Z.to_nat (15 - fin_depth (w_fin w))) l pass None in
  exists w', ipf_scanlist fuel pass w = Some (fst ev, w') /\ kept w w' /\ fin_fr (w_fin w') = snd ev.
Proof.
  intros Hrs Hf Hd ev. unfold ev.
  destruct (group_run _ _ _ l fuel pass w (S (Z.to_nat (15 - fin_depth (w_fin w)))) Hrs (scan_run _ _ _ _ Hrs))
    as (p & w' & Hw' & Hk & Hev); [done|done|done|lia|done|].
  exists w'. rewrite <- Hev. by split_and!.
Qed.
Lemma scanlist_refines_witness :
  exists w', ipf_scanlist 5 FR_NOMATCH demo_filter = Some (FR_PASS, w') /\ kept demo_filter w' /\
    fin_fr (w_fin w') = Some 4%positive.
Proof.
  destruct (scanlist_refines demo_filter demo_tree 5 FR_NOMATCH) as (w' & Hw' & Hk & Hf);
    [exact demo_ruleset|vm_compute; lia|vm_compute; by split|].
  exists w'. split; [|split]; [|exact Hk|].
  - rewrite Hw'. vm_compute. reflexivity.
  - rewrite Hf. vm_compute. reflexivity.
Defined.

(** *** Lists without groups *)
Definition flat (xs : list (loc * frentry)) : list rtree := map (fun xr => RNode (fst xr) (snd xr) None) xs.
(** The first quick rule that matches, or else the last one that matches. *)
Definition flat_decision (matches : frentry -> bool) (xs : list (loc * frentry)) (pass : Z) (cur : option loc) : Z * option loc :=
  let hits := List.filter (fun xr => matches (snd xr)) xs in
  match List.find (fun xr => has (fr_flags (snd xr)) FR_QUICK) hits with
  | Some (x, r) => (fr_flags r, Some x)
  | None => match last hits with Some (x, r) => (fr_flags r, Some x) | None => (pass, cur) end
  end.
Lemma eval_flat matches n xs : forall pass cur, eval_list matches n (flat xs) pass cur = flat_decision matches xs pass cur.
Proof.
  induction xs as [|[x r] xs IH]; intros pass cur; [apply eval_nil|].
  unfold flat_decision. cbn [flat map fst snd List.filter]. rewrite eval_cons. destruct (matches r); [|by rewrite IH].
  cbv zeta. cbn [eval_match fst snd List.find]. destruct (has (fr_flags r) FR_QUICK); [done|]. rewrite IH.
  unfold flat_decision. destruct (List.find _ _) as [[y s]|]; [done|].
  rewrite last_cons. by destruct (last _) as [[y s]|].
Qed.

(** On a list without groups, the decision of [ipf_scanlist] is that of the first
    quick rule that matches the packet, if there is one; else that of the last
    rule that matches, if there is one; else the one it was called with, and the
    packet is left without a rule. *)
Theorem scanlist_last_match {E} `{filter_env E} (w : filterw E) xs fuel pass :
  ruleset (static <$> w_rules w) (w_groups w) (fin_fr (w_fin w)) (flat xs) -> (length xs <= fuel)%nat ->
  0 <= fin_depth (w_fin w) < 16 ->
  exists p fr w', ipf_scanlist fuel pass w = Some (p, w') /\ fin_fr (w_fin w') = fr /\
    (p, fr) = flat_decision (rule_matches (w_ext w) (w_fin w)) xs pass None.
Proof.
  intros Hrs Hf Hd. assert (Hs : rsizes (flat xs) = length xs).
  { clear. induction xs as [|[x r] xs IH]; [done|]. cbn. by f_equal. }
  destruct (scanlist_refines w (flat xs) fuel pass Hrs) as (w' & Hw' & Hk & Hfr); [by rewrite Hs|done|].
  rewrite eval_flat in Hw', Hfr. eexists _, _, w'. split; [exact Hw'|]. split; [exact Hfr|]. by destruct (flat_decision _ _ _ _).
Qed.
Lemma scanlist_last_match_witness :
  exists p fr w', ipf_scanlist 2 FR_NOMATCH
      (mk_filterw demo_packet true true
         {[ 1%positive := demo_rule (Some 2%positive) None 0 0 0 FR_BLOCK;
            2%positive := demo_rule None None 0 0 443 FR_PASS ]} ∅ tt) = Some (p, w') /\ fin_fr (w_fin w') = fr /\
    (p, fr) = (FR_BLOCK, Some 1%positive).
Proof.
  set (w := mk_filterw demo_packet true true _ _ _).
  destruct (scanlist_last_match w [(1%positive, demo_rule (Some 2%positive) None 0 0 0 FR_BLOCK);
    (2%positive, demo_rule None None 0 0 443 FR_PASS)] 2 FR_NOMATCH) as (p & fr & w' & H1 & H2 & H3).
  - apply rs_rule; [by vm_compute|by apply demo_plain|done|].
    apply rs_rule; [by vm_compute|by apply demo_plain|done|constructor].
  - simpl. lia.
  - vm_compute. by split.
  - exists p, fr, w'. split_and!; [done|done|]. rewrite H3. vm_compute. reflexivity.
Defined.

(** ** What one rule compares *)

(** Fields that share a word. *)
Lemma land_range k b d : 0 <= k -> 0 <= b < 2 ^ k -> 0 <= Z.land b d < 2 ^ k.
Proof.
  intros Hk Hb. assert (E : Z.land b d = Z.land b d mod 2 ^ k).
  { rewrite <- Z.land_ones by done. rewrite <- Z.land_assoc, (Z.land_comm d), Z.land_assoc, Z.land_ones by done.
    by rewrite Z.mod_small. }
  rewrite E. apply Z.mod_pos_bound. lia.
Qed.
Lemma pack_add k a b : 0 <= k -> 0 <= b < 2 ^ k -> Z.lor (Z.shiftl a k) b = a * 2 ^ k + b.
Proof.
  intros Hk Hb. rewrite <- Z.add_nocarry_lor; [by rewrite Z.shiftl_mul_pow2|]. apply Z.bits_inj'. intros i Hi.
  rewrite Z.land_spec, Z.bits_0. destruct (Z.lt_ge_cases i k).
  - by rewrite Z.shiftl_spec_low.
  - rewrite <- (Z.mod_small b (2 ^ k)) by done. by rewrite Z.mod_pow2_bits_high, andb_false_r by lia.
Qed.
Lemma pack_eq k a b c d : 0 <= k -> 0 <= b < 2 ^ k -> 0 <= d < 2 ^ k ->
  Z.lor (Z.shiftl a k) b = Z.lor (Z.shiftl c k) d <-> a = c /\ b = d.
Proof.
  intros Hk Hb Hd. rewrite !pack_add by done. split; [|by intros [-> ->]]. intros E.
  assert (a = c); [|subst; lia].
  assert (Hdiv : forall x y, 0 <= y < 2 ^ k -> (x * 2 ^ k + y) / 2 ^ k = x).
  { intros x y Hy. rewrite Z.div_add_l by lia. rewrite Z.div_small by done. lia. }
  by rewrite <- (Hdiv a b Hb), E, Hdiv.
Qed.
Lemma pack_land k a b c d : 0 <= k -> 0 <= b < 2 ^ k -> 0 <= d < 2 ^ k ->
  Z.land (Z.lor (Z.shiftl a k) b) (Z.lor (Z.shiftl c k) d) = Z.lor (Z.shiftl (Z.land a c) k) (Z.land b d).
Proof.
  intros Hk Hb Hd. apply Z.bits_inj'. intros i Hi. rewrite !Z.land_spec, !Z.lor_spec, !Z.land_spec.
  destruct (Z.lt_ge_cases i k).
  - rewrite !Z.shiftl_spec_low by done. done.
  - rewrite <- (Z.mod_small b (2 ^ k)), <- (Z.mod_small d (2 ^ k)) by done.
    rewrite !Z.mod_pow2_bits_high by lia. rewrite !Z.shiftl_spec by lia. by rewrite Z.land_spec, !orb_false_r.
Qed.
(** A masked comparison of two packed fields is a comparison of each. *)
Lemma pack_masked k a b ma mb da db : 0 <= k -> 0 <= b < 2 ^ k -> 0 <= mb < 2 ^ k -> 0 <= db < 2 ^ k ->
  Z.land (Z.lor (Z.shiftl a k) b) (Z.lor (Z.shiftl ma k) mb) = Z.lor (Z.shiftl da k) db <->
  Z.land a ma = da /\ Z.land b mb = db.
Proof. intros. rewrite pack_land, pack_eq by (try done; by apply land_range). done. Qed.

(** The widths of the fields. *)
Record fi_ok (fi : fr_ip) : Prop := {
  ok_v : 0 <= fi_v fi < 2 ^ 4; ok_xx : 0 <= fi_xx fi < 2 ^ 4; ok_tos : is_u8 (fi_tos fi); ok_ttl : is_u8 (fi_ttl fi);
  ok_p : is_u8 (fi_p fi); ok_secmsk : is_u16 (fi_secmsk fi); ok_auth : is_u16 (fi_auth fi); ok_flx : is_u32 (fi_flx fi) }.

Lemma pack_range j k a b : 0 <= j -> 0 <= k -> 0 <= a < 2 ^ j -> 0 <= b < 2 ^ k -> 0 <= Z.lor (Z.shiftl a k) b < 2 ^ (j + k).
Proof. intros. rewrite pack_add, Z.pow_add_r by done. nia. Qed.

Lemma word0_masked fi m d : fi_ok fi -> fi_ok m -> fi_ok d ->
  Z.land (fi_word0 fi) (fi_word0 m) = fi_word0 d <->
  Z.land (fi_v fi) (fi_v m) = fi_v d /\ Z.land (fi_xx fi) (fi_xx m) = fi_xx d /\ Z.land (fi_tos fi) (fi_tos m) = fi_tos d /\
  Z.land (fi_ttl fi) (fi_ttl m) = fi_ttl d /\ Z.land (fi_p fi) (fi_p m) = fi_p d.
Proof.
  assert (R : forall f, fi_ok f -> 0 <= Z.lor (Z.shiftl (fi_ttl f) 8) (fi_p f) < 2 ^ 16 /\
    0 <= Z.lor (Z.shiftl (fi_tos f) 16) (Z.lor (Z.shiftl (fi_ttl f) 8) (fi_p f)) < 2 ^ 24 /\
    0 <= Z.lor (Z.shiftl (fi_xx f) 24) (Z.lor (Z.shiftl (fi_tos f) 16) (Z.lor (Z.shiftl (fi_ttl f) 8) (fi_p f))) < 2 ^ 28).
  { intros f [? ? ? ? ? ? ? ?]. pose proof (pack_range 8 8 (fi_ttl f) (fi_p f) ltac:(lia) ltac:(lia) ok_ttl0 ok_p0) as H1.
    pose proof (pack_range 8 16 (fi_tos f) _ ltac:(lia) ltac:(lia) ok_tos0 H1) as H2.
    pose proof (pack_range 4 24 (fi_xx f) _ ltac:(lia) ltac:(lia) ok_xx0 H2) as H3. done. }
  intros Hf Hm Hd. destruct (R _ Hf) as (F1 & F2 & F3), (R _ Hm) as (M1 & M2 & M3), (R _ Hd) as (D1 & D2 & D3).
  unfold fi_word0. rewrite pack_masked, pack_masked, pack_masked, pack_masked; try done; try lia; apply ok_p; done.
Qed.

Lemma ipso_masked fi m d : fi_ok fi -> fi_ok m -> fi_ok d ->
  Z.land (fi_ipso fi) (fi_ipso m) = fi_ipso d <->
  Z.land (fi_secmsk fi) (fi_secmsk m) = fi_secmsk d /\ Z.land (fi_auth fi) (fi_auth m) = fi_auth d.
Proof.
  intros [] [] []. unfold fi_ipso. rewrite (Z.lor_comm (fi_secmsk fi)), (Z.lor_comm (fi_secmsk m)), (Z.lor_comm (fi_secmsk d)).
  rewrite pack_masked by done. tauto.
Qed.
Lemma ipso_range f : fi_ok f -> is_u32 (fi_ipso f).
Proof. intros []. unfold fi_ipso. rewrite Z.lor_comm. by apply (pack_range 16 16). Qed.

(** The difference that is tested for zero. *)
Lemma diff_zero d x m : is_u32 d -> is_u32 x -> is_u32 m -> i32 (u32 (d - Z.land x m)) = 0 <-> Z.land x m = d.
Proof.
  intros Hd Hx Hm. pose proof (land_range 32 x m ltac:(lia) Hx) as Hr. unfold is_u32 in *. unfold i32, u32.
  split; [|intros ->; by rewrite Z.sub_diag]. intros E. dlia.
Qed.

(** [(flags & FR_NOTSRCIP) >> 6]. *)
Lemma flag_bit f n : 0 <= n -> Z.shiftr (Z.land f (2 ^ n)) n = b2z (has f (2 ^ n)).
Proof.
  intros Hn. assert (E : Z.land f (2 ^ n) = if Z.testbit f n then 2 ^ n else 0).
  { apply Z.bits_inj'. intros i Hi. rewrite Z.land_spec, Z.pow2_bits_eqb by done. destruct (Z.eqb_spec n i) as [<-|].
    - rewrite andb_true_r. destruct (Z.testbit f n); [by rewrite Z.pow2_bits_true|by rewrite Z.bits_0].
    - rewrite andb_false_r. destruct (Z.testbit f n); [by rewrite Z.pow2_bits_false|by rewrite Z.bits_0]. }
  unfold has. rewrite E. destruct (Z.testbit f n).
  - rewrite (proj2 (Z.eqb_neq _ _)) by lia. rewrite Z.shiftr_div_pow2, Z.div_same by lia. done.
  - by rewrite Z.shiftr_0_l.
Qed.

(** The address part: agreement under the mask in all the words of the version, or
    the answer of the lookup, against the [!] of the rule. *)
Definition addr_agrees (v : Z) (a m d : i6addr) : bool :=
  if v =? 6 then IP6_MASKEQ a m d else Z.land (i60 a) (i60 m) =? i60 d.
Definition addr_passes (v : Z) (lookup : loc -> Z) (how : addr_match) (a m d : i6addr) (neg : bool) : Prop :=
  match how with
  | FRI_NORMAL => addr_agrees v a m d = negb neg
  | FRI_LOOKUP t => lookup t = b2z neg
  end.

Lemma check_addr_spec v lookup how a m d flags n : 0 <= n ->
  (exists i, check_addr v lookup how a m d = Some i /\ Z.lxor i (Z.shiftr (Z.land flags (2 ^ n)) n) = 0) <->
  addr_passes v lookup how a m d (has flags (2 ^ n)).
Proof.
  intros Hn. rewrite (flag_bit flags n Hn). set (neg := has flags (2 ^ n)). destruct how as [|t]; cbn [check_addr addr_passes].
  - assert (E : (if v =? 6 then Z.lor (Z.lor (Z.lor (word_ne (i60 a) (i60 m) (i60 d)) (word_ne (i61 a) (i61 m) (i61 d)))
        (word_ne (i62 a) (i62 m) (i62 d))) (word_ne (i63 a) (i63 m) (i63 d)) else word_ne (i60 a) (i60 m) (i60 d))
      = b2z (negb (addr_agrees v a m d))).
    { unfold addr_agrees, IP6_MASKEQ, word_ne. destruct (v =? 6); [|done].
      destruct (Z.land (i60 a) _ =? _), (Z.land (i61 a) _ =? _), (Z.land (i62 a) _ =? _), (Z.land (i63 a) _ =? _); done. }
    rewrite E. split; [intros (i & [= <-] & Hx)|intros ->; eexists; split; [done|by destruct neg]].
    by destruct (addr_agrees v a m d), neg.
  - destruct (Z.eqb_spec (lookup t) (-1)) as [->|Hne].
    + split; [by intros (i & ? & _)|]. by destruct neg.
    + split; [intros (i & [= <-] & Hx); by apply Z.lxor_eq in Hx|intros ->; eexists; split; [done|apply Z.lxor_nilpotent]].
Qed.

(** C20. [ipf_check_ipf] answers zero exactly when every field of the packet, masked,
    is the rule's (version, spare bits, TOS, TTL and protocol each on its own
    although they are compared as one word), both addresses agree or are found,
    except under [!] where they must not, the security options and the packet
    flags agree under their masks, and the ports or the ICMP type do. *)
Theorem check_ipf_spec {E} `{filter_env E} (ext : E) fin r p :
  let fi := fin_fi fin in let m := fri_mip (fr_ipf r) in let d := fri_ip (fr_ipf r) in
  let lookup addr t := env_lookup ext t (fi_v fi) addr (fin_plen fin) in
  fi_ok fi -> fi_ok m -> fi_ok d ->
  ipf_check_ipf ext fin r p = 0 <->
    (Z.land (fi_v fi) (fi_v m) = fi_v d /\ Z.land (fi_xx fi) (fi_xx m) = fi_xx d /\ Z.land (fi_tos fi) (fi_tos m) = fi_tos d /\
     Z.land (fi_ttl fi) (fi_ttl m) = fi_ttl d /\ Z.land (fi_p fi) (fi_p m) = fi_p d) /\
    Z.land (fi_optmsk fi) (fi_optmsk m) = fi_optmsk d /\
    addr_passes (fi_v fi) (lookup (fi_src fi)) (fri_satype (fr_ipf r)) (fi_src fi) (fi_src m) (fi_src d)
      (has (fr_flags r) FR_NOTSRCIP) /\
    addr_passes (fi_v fi) (lookup (fi_dst fi)) (fri_datype (fr_ipf r)) (fi_dst fi) (fi_dst m) (fi_dst d)
      (has (fr_flags r) FR_NOTDSTIP) /\
    (Z.land (fi_secmsk fi) (fi_secmsk m) = fi_secmsk d /\ Z.land (fi_auth fi) (fi_auth m) = fi_auth d) /\
    Z.land (fi_flx fi) (fi_flx m) = fi_flx d /\
    check_l4 fin (fr_ipf r) p = 0.
Proof.
  intros fi m d lookup Hf Hm Hd. rewrite <- word0_masked, <- ipso_masked by done.
  rewrite <- (diff_zero (fi_ipso d)), <- (diff_zero (fi_flx d)) by (try (by apply ipso_range); by apply ok_flx).
  change FR_NOTSRCIP with (2 ^ 6). change FR_NOTDSTIP with (2 ^ 7).
  rewrite <- !check_addr_spec by lia. unfold ipf_check_ipf. fold fi m d lookup.
  change FR_NOTSRCIP with (2 ^ 6). change FR_NOTDSTIP with (2 ^ 7).
  unfold word_ne. rewrite !b2z_eqb_0, !negb_involutive.
  destruct (Z.eqb_spec (Z.land (fi_word0 fi) (fi_word0 m)) (fi_word0 d)) as [E1|E1]; cbn [negb]; [|split; [done|by intros (? & _)]].
  destruct (Z.eqb_spec (Z.land (fi_optmsk fi) (fi_optmsk m)) (fi_optmsk d)) as [E2|E2]; cbn [negb]; [|split; [done|by intros (_ & ? & _)]].
  destruct (check_addr _ _ (fri_satype _) _ _ _) as [i|]; [|split; [done|intros (_ & _ & (? & ? & _) & _); done]].
  destruct (Z.eqb_spec (Z.lxor i (Z.shiftr (Z.land (fr_flags r) (2 ^ 6)) 6)) 0) as [E3|E3]; cbn [negb];
    [|split; [done|intros (_ & _ & (? & [= <-] & ?) & _); done]].
  destruct (check_addr _ _ (fri_datype _) _ _ _) as [j|]; [|split; [done|intros (_ & _ & _ & (? & ? & _) & _); done]].
  destruct (Z.eqb_spec (Z.lxor j (Z.shiftr (Z.land (fr_flags r) (2 ^ 7)) 7)) 0) as [E4|E4]; cbn [negb];
    [|split; [done|intros (_ & _ & _ & (? & [= <-] & ?) & _); done]].
  set (a := i32 (u32 (fi_ipso d - _))). set (b := i32 (u32 (fi_flx d - _))).
  pose proof (Z.lor_eq_0_iff a b) as Hab.
  destruct (Z.eqb_spec (Z.lor a b) 0) as [E5|E5].
  - apply Hab in E5 as [-> ->]. split; [|tauto]. intros ?. split_and!; eauto.
  - split; [done|]. intros (_ & _ & _ & _ & Ha & Hb & _). exfalso. apply E5, Hab. by split.
Qed.
Lemma demo_fi_ok fi : fi_v fi = 4 \/ fi_v fi = 15 -> fi_xx fi = 0 -> fi_tos fi = 0 -> fi_ttl fi = 0 -> is_u8 (fi_p fi) ->
  fi_secmsk fi = 0 -> fi_auth fi = 0 -> is_u32 (fi_flx fi) -> fi_ok fi.
Proof. intros. split; try done; unfold is_u8, is_u16; lia. Qed.
Lemma check_ipf_spec_witness :
  ipf_check_ipf tt demo_packet (demo_rule None None 0x0a000000 0xff000000 80 FR_PASS) true = 0 /\
  addr_passes 4 (fun t => env_lookup tt t 4 (mk_i6addr 0x0a000001 0 0 0) 40) FRI_NORMAL
    (mk_i6addr 0x0a000001 0 0 0) (mk_i6addr 0xff000000 0 0 0) (mk_i6addr 0x0a000000 0 0 0) false.
Proof.
  assert (E : ipf_check_ipf tt demo_packet (demo_rule None None 0x0a000000 0xff000000 80 FR_PASS) true = 0) by reflexivity.
  split; [exact E|].
  apply (check_ipf_spec tt demo_packet (demo_rule None None 0x0a000000 0xff000000 80 FR_PASS) true) in E;
    [apply E|..]; apply demo_fi_ok;
    first [reflexivity|left; reflexivity|right; reflexivity|vm_compute; split; [discriminate|reflexivity]].
Defined.

(** ** Corners of the walk *)

(** A quick rule that asks for state which cannot be added is passed over as far
    as the decision goes, but the packet keeps it as its rule: on a list whose
    only matching rule it is, [ipf_scanlist] returns the decision it was called
    with and a rule that was meant not to match. *)
Theorem failed_state_keeps_rule {E} `{filter_env E} (w : filterw E) x r pass fuel :
  fin_fr (w_fin w) = Some x -> w_rules w !! x = Some r -> header_rule r -> fr_next r = None -> fr_grphead r = None ->
  has (fr_flags r) FR_QUICK = true -> has (fr_flags r) FR_KEEPSTATE = true -> FR_ISAUTH (fr_flags r) = false ->
  has (fin_flx (w_fin w)) FI_STATE = false -> 0 <= fin_depth (w_fin w) < 16 ->
  rule_matches (w_ext w) (w_fin w) r = true -> (forall fin ext, env_state_add fin ext = (-1, fin, ext)) ->
  exists w', ipf_scanlist (S fuel) pass w = Some (pass, w') /\ fin_fr (w_fin w') = Some x.
Proof.
  intros Hfr Hr Hh Hn Hg Hq Hks Ha Hst Hd Hm Hadd.
  set (w1 := w <| w_fin ::= fun fin => fin <| fin_depth ::= fun d => d + 1 |> <| fin_fr := None |> |>).
  destruct (scan_step_hit fuel x r 0 pass w1 Hr Hh Hm) as (w2 & Hk & Hf & Hrun). pose proof Hk as [K1 K2 K3 K4 K5].
  destruct (static_lookup w2 x (static r)) as (r2 & Hr2 & Er2); [rewrite K1, lookup_fmap; change (w_rules w1) with (w_rules w); by rewrite Hr|].
  assert (Hg2 : fr_grphead r2 = None) by (change (fr_grphead (static r2) = None); rewrite Er2; exact Hg).
  assert (Hde : descend (scanlist_with (scan_loop fuel)) x 0 (fr_flags r) (fr_flags r) w2 = Some (fr_flags r, w2)).
  { unfold descend. rewrite (bind_eq _ _ _ _ _ (rule_run w2 x r2 Hr2)). by rewrite Hg2. }
  rewrite (bind_eq _ _ _ _ _ Hde), Hq in Hrun.
  assert (Hflx : has (fin_flx (w_fin w2)) FI_STATE = false).
  { change (fin_flx (w_fin w2)) with (fin_flx (scan_frame (w_fin w2))). by rewrite K4. }
  set (w3 := w2 <| w_fin ::= fun fin => fin <| fin_fr := Some x |> |>).
  assert (Hqd : quick_done x (fr_flags r) w2 = Some (false, w3)).
  { unfold quick_done. rewrite (bind_eq _ _ _ w2 w2) by done. rewrite Hks, Ha, Hflx. cbn [negb andb].
    rewrite (bind_eq _ _ _ tt w3) by done. rewrite (bind_eq _ _ _ (-1) w3); [done|]. unfold call. by rewrite Hadd. }
  rewrite (bind_eq _ _ _ _ _ Hqd), Hn in Hrun.
  assert (Hk3 : kept w1 w3) by (eapply kept_trans; [exact Hk|by apply kept_fin]).
  assert (Hrun3 : scan_loop (S fuel) (Some x) 0 pass (portcmp_of (w_fin w1)) w1 = Some (pass, w3)).
  { rewrite Hrun. by destruct fuel. }
  destruct (scanlist_with_run (scan_loop (S fuel)) pass w w3 x pass ltac:(lia) Hfr Hrun3 Hk3) as (w' & Hw' & _ & Hf').
  by exists w'.
Qed.
Definition demo_state_rule : frentry := demo_rule None None 0 0 80 (Z.lor FR_PASS (Z.lor FR_QUICK FR_KEEPSTATE)).
Lemma failed_state_keeps_rule_witness :
  exists w', ipf_scanlist 1 FR_NOMATCH (mk_filterw demo_packet true true {[ 1%positive := demo_state_rule ]} ∅ tt) = Some (FR_NOMATCH, w') /\
    fin_fr (w_fin w') = Some 1%positive.
Proof.
  apply (failed_state_keeps_rule (mk_filterw demo_packet true true {[ 1%positive := demo_state_rule ]} ∅ tt) 1%positive
           demo_state_rule FR_NOMATCH 0); try reflexivity; vm_compute; by split.
Defined.

(** At the sixteenth level a group is not entered, but its first rule becomes the
    packet's rule all the same: the head's decision is returned together with a
    rule that was never compared with the packet, whether it matches or not. *)
Theorem deep_group_reports_first_rule {E} `{filter_env E} (w : filterw E) x r y ry sub ts fuel pass :
  let l := [RNode x r (Some (RNode y ry sub :: ts))] in
  ruleset (static <$> w_rules w) (w_groups w) (fin_fr (w_fin w)) l -> (rsizes l <= fuel)%nat ->
  fin_depth (w_fin w) = 15 -> rule_matches (w_ext w) (w_fin w) r = true ->
  exists w', ipf_scanlist fuel pass w = Some (fr_flags r, w') /\ fin_fr (w_fin w') = Some y.
Proof.
  intros l Hrs Hf Hd Hm. destruct (scanlist_refines w l fuel pass Hrs Hf ltac:(lia)) as (w' & Hw' & _ & Hfr).
  rewrite Hd in Hw', Hfr. change (Z.to_nat (15 - 15)) with 0%nat in *. unfold l in Hw', Hfr.
  rewrite eval_cons, Hm in Hw', Hfr. cbn [eval_match first_rule fst snd] in Hw', Hfr.
  exists w'. rewrite Hw', Hfr. by destruct (has (fr_flags r) FR_QUICK).
Qed.
Lemma deep_group_reports_first_rule_witness :
  exists w', ipf_scanlist 2 FR_NOMATCH
    (mk_filterw (demo_packet <| fin_depth := 15 |>) true true
       {[ 1%positive := demo_rule None (Some 1%positive) 0 0 0 FR_BLOCK; 3%positive := demo_rule None None 0 0 22 FR_PASS ]}
       {[ 1%positive := Some 3%positive ]} tt) = Some (FR_BLOCK, w') /\ fin_fr (w_fin w') = Some 3%positive.
Proof.
  set (w := mk_filterw _ _ _ _ _ _).
  destruct (deep_group_reports_first_rule w 1 (demo_rule None (Some 1%positive) 0 0 0 FR_BLOCK) 3
    (demo_rule None None 0 0 22 FR_PASS) None [] 2 FR_NOMATCH) as (w' & H1 & H2).
  - eapply rs_head; [by vm_compute|by apply demo_plain|done|by vm_compute| |constructor].
    apply rs_rule; [by vm_compute|by apply demo_plain|done|constructor].
  - simpl. lia.
  - reflexivity.
  - vm_compute. reflexivity.
  - by exists w'.
Defined.

(** ** The rate limit *)

Definition micros (t : Z * Z) : Z := fst t * 1000000 + snd t.
Definition tv_ok (t : Z * Z) : Prop := 0 <= snd t < 1000000.
Definition pps_step (maxpps : Z) (s : (Z * Z) * Z) (tv : Z * Z) : bool * ((Z * Z) * Z) :=
  let '(ok, last, cur) := ppsratecheck tv (fst s) (snd s) maxpps in (ok, (last, cur)).
(** How many of the packets that arrive at the given times are let through. *)
Fixpoint pps_passed (maxpps : Z) (s : (Z * Z) * Z) (ts : list (Z * Z)) : Z :=
  match ts with
  | [] => 0
  | tv :: ts => let r := pps_step maxpps s tv in b2z (fst r) + pps_passed maxpps (snd r) ts
  end.

Lemma pps_window maxpps t0 ts : 0 < maxpps < 2 ^ 31 -> tv_ok t0 -> 0 < micros t0 ->
  Forall (fun tv => tv_ok tv /\ micros t0 <= micros tv < micros t0 + 1000000) ts ->
  forall cur, 0 <= cur -> cur + Z.of_nat (length ts) < 2 ^ 31 ->
  pps_passed maxpps (t0, cur) ts = Z.min (Z.of_nat (length ts)) (Z.max 0 (maxpps - cur)).
Proof.
  intros Hm Ht0 Hp Hall. induction Hall as [|tv ts [Htv Hw] _ IH]; intros cur Hc Hl; [simpl; lia|].
  cbn [length] in Hl |- *. cbn [pps_passed]. unfold pps_step, ppsratecheck. cbn [fst snd].
  unfold micros, tv_ok in *. destruct t0 as [s0 u0], tv as [s u]. cbn [fst snd] in *.
  set (d := if u - u0 <? 0 then (s - s0 - 1, u - u0 + 1000000) else (s - s0, u - u0)).
  assert (Ed : fst d = 0) by (unfold d; destruct (Z.ltb_spec (u - u0) 0); cbn [fst]; lia).
  destruct d as [ds du]. cbn [fst] in Ed. subst ds.
  replace ((s0 =? 0) && (u0 =? 0)) with false by (symmetry; apply andb_false_iff;
    destruct (Z.eqb_spec s0 0); [right; apply Z.eqb_neq; lia|by left]).
  cbn [orb Z.geb Z.compare]. rewrite (proj2 (Z.ltb_ge maxpps 0)) by lia.
  destruct (Z.ltb_spec cur maxpps); cbn [fst snd b2z]; rewrite i32_id by lia; rewrite IH by lia; lia.
Qed.

(** In the second after a reset of its counter, a rule with a limit of [maxpps]
    lets exactly [maxpps] of the packets that it matches through, or all of them
    if there are fewer. *)
Theorem pps_limit maxpps last cur t0 ts :
  0 < maxpps < 2 ^ 31 -> tv_ok t0 -> 0 < micros t0 -> tv_ok last -> micros last + 1000000 <= micros t0 ->
  Forall (fun tv => tv_ok tv /\ micros t0 <= micros tv < micros t0 + 1000000) ts ->
  Z.of_nat (length ts) + 1 < 2 ^ 31 ->
  pps_passed maxpps (last, cur) (t0 :: ts) = Z.min (Z.of_nat (length (t0 :: ts))) maxpps.
Proof.
  intros Hm Ht0 Hp Hlast Hgap Hall Hl. cbn [pps_passed]. unfold pps_step, ppsratecheck. cbn [fst snd].
  set (d := if snd t0 - snd last <? 0 then (fst t0 - fst last - 1, snd t0 - snd last + 1000000)
            else (fst t0 - fst last, snd t0 - snd last)).
  assert (Ed : 1 <= fst d).
  { unfold d, micros, tv_ok in *. destruct (Z.ltb_spec (snd t0 - snd last) 0); cbn [fst]; lia. }
  destruct d as [ds du]. cbn [fst] in Ed. rewrite (Z.geb_leb ds), (proj2 (Z.leb_le 1 ds)) by done. rewrite orb_true_r.
  cbn [fst snd b2z]. change (i32 (0 + 1)) with 1. rewrite (pps_window maxpps t0 ts) by (try done; lia).
  cbn [length]. lia.
Qed.
Lemma pps_limit_witness : pps_passed 2 ((3, 0), 9) [(5, 10); (5, 11); (5, 999999); (6, 0)] = 2.
Proof.
  refine (eq_trans (pps_limit 2 (3, 0) 9 (5, 10) [(5, 11); (5, 999999); (6, 0)] _ _ _ _ _ _ _) _);
    unfold tv_ok, micros; simpl; try lia; repeat constructor; simpl; lia.
Defined.

(** ** Termination

    The groups may form cycles: a rule of a group may head the group.  What ends the
    walk is the depth limit, and that the list of each group is finite. *)
Section Total.
Context {E : Type} `{filter_env E}.
Abbreviation W := (filterw E).
(** The rules that exist, the groups that exist, the distance of a rule from the end
    of its list, and a bound on it. *)
Variables (valid group_valid : loc -> Prop) (rank : loc -> nat) (R : nat).

Definition rule_ok (x : loc) (r : frentry) : Prop :=
  (forall y, fr_next r = Some y -> valid y /\ (rank y < rank x)%nat) /\
  (forall g, fr_grphead r = Some g -> group_valid g) /\
  fr_type r <> FR_T_CALLFUNC_BUILTIN /\ fr_type r <> FR_T_IPFEXPR.
Record store_ok (w : W) : Prop := {
  so_rule : forall x, valid x -> exists r, w_rules w !! x = Some r /\ rule_ok x r;
  so_group : forall g, group_valid g -> exists start, w_groups w !! g = Some start /\ forall x, start = Some x -> valid x }.
(** The functions that rules call answer with existing rules, and like the rest of
    the system leave the depth and the rule of the packet alone. *)
Record env_ok : Prop := {
  eo_group : forall ext t a g, env_findgroup ext t a = Some g -> group_valid g;
  eo_func : forall id fin pass ext, let '(x, fin', _, _) := env_func id fin pass ext in
    (forall y, x = Some y -> valid y) /\ fin_depth fin' = fin_depth fin /\ fin_fr fin' = fin_fr fin;
  eo_state : forall fin ext, let '(_, fin', _) := env_state_add fin ext in
    fin_depth fin' = fin_depth fin /\ fin_fr fin' = fin_fr fin;
  eo_decaps : forall fin pass ext, let '(_, fin', _) := env_decaps fin pass ext in
    fin_depth fin' = fin_depth fin /\ (forall y, fin_fr fin' = Some y -> fin_fr fin = Some y \/ valid y) }.
Hypothesis Henv : env_ok.
Hypothesis Hrank : forall x, valid x -> (rank x <= R)%nat.

(** The states of the walk at depth [d]. *)
Definition at_depth (d : Z) (w : W) : Prop :=
  store_ok w /\ fin_depth (w_fin w) = d /\ (forall x, fin_fr (w_fin w) = Some x -> valid x).
(** A step that has a result and stays at depth [d]. *)
Definition total {A} (d : Z) (m : ST W A) (P : A -> Prop) : Prop :=
  forall w, at_depth d w -> exists a w', m w = Some (a, w') /\ at_depth d w' /\ P a.

Lemma total_bind {A B} d (m : ST W A) (k : A -> ST W B) P Q :
  total d m P -> (forall a, P a -> total d (k a) Q) -> total d (m ≫= k) Q.
Proof.
  intros Hm Hk w Hw. destruct (Hm w Hw) as (a & w1 & E1 & Hw1 & Ha). rewrite (bind_eq _ _ _ _ _ E1). by apply (Hk a Ha).
Qed.
Lemma total_ret {A} d (a : A) (P : A -> Prop) : P a -> total d (mret a) P.
Proof. intros Ha w Hw. by exists a, w. Qed.
Lemma total_gets {A} d (f : W -> A) (P : A -> Prop) : (forall w, at_depth d w -> P (f w)) -> total d (gets f) P.
Proof. intros Hf w Hw. exists (f w), w. split_and!; try done; try apply Hw. by apply Hf. Qed.
Lemma total_rule d x : valid x -> total d (rule x) (rule_ok x).
Proof.
  intros Hx w Hw. destruct Hw as (Hs & Hd & Hf). destruct (so_rule w Hs x Hx) as (r & Hr & Hok). exists r, w.
  split; [by apply rule_run|]. by split_and!.
Qed.
Lemma total_fin d f : (forall fin, fin_depth (f fin) = fin_depth fin) ->
  (forall fin x, fin_fr (f fin) = Some x -> fin_fr fin = Some x \/ valid x) -> total d (upd_fin f) (fun _ => True).
Proof.
  intros Hfd Hff w (Hs & Hd & Hf). eexists tt, _. split; [reflexivity|]. split; [|done]. split_and!.
  - destruct Hs. by split.
  - simpl. by rewrite Hfd.
  - simpl. intros x Hx. destruct (Hff _ _ Hx); [by apply Hf|done].
Qed.
Lemma total_upd_rule d x f : valid x -> (forall r, static (f r) = static r) -> total d (upd_rule x f) (fun _ => True).
Proof.
  intros Hx Hf w (Hs & Hd & Hfr). destruct (so_rule w Hs x Hx) as (r & Hr & _). unfold upd_rule. rewrite Hr.
  eexists tt, _. split; [reflexivity|]. split; [|done]. split_and!; [|done|done]. destruct Hs as [S1 S2]. split; [|done].
  intros y Hy. destruct (S1 y Hy) as (ry & Hry & Hok). simpl. rewrite lookup_alter. case_decide; [subst|by exists ry].
  rewrite Hry. exists (f ry). split; [done|]. pose proof (Hf ry) as Ef.
  assert (En : fr_next (f ry) = fr_next ry /\ fr_grphead (f ry) = fr_grphead ry /\ fr_type (f ry) = fr_type ry).
  { change (fr_next (static (f ry)) = fr_next (static ry) /\ fr_grphead (static (f ry)) = fr_grphead (static ry) /\
      fr_type (static (f ry)) = fr_type (static ry)). by rewrite Ef. }
  destruct En as (E1 & E2 & E3). unfold rule_ok in *. by rewrite E1, E2, E3.
Qed.
Lemma total_call {A} d (f : fr_info -> E -> A * fr_info * E) P :
  (forall fin ext, let '(a, fin', _) := f fin ext in
     P a /\ fin_depth fin' = fin_depth fin /\ (forall y, fin_fr fin' = Some y -> fin_fr fin = Some y \/ valid y)) ->
  total d (call f) P.
Proof.
  intros Hf w (Hs & Hd & Hfr). unfold call. pose proof (Hf (w_fin w) (w_ext w)) as Hfw.
  destruct (f (w_fin w) (w_ext w)) as [[a fin'] ext']. destruct Hfw as (Ha & Hd' & Hf'). eexists a, _. split; [done|].
  split; [|done]. split_and!; [destruct Hs; by split|simpl; congruence|]. simpl. intros x Hx.
  destruct (Hf' x Hx); [by apply Hfr|done].
Qed.
Lemma total_group d g : group_valid g ->
  total d (w ← gets id; need (w_groups w !! g)) (fun start => forall x, start = Some x -> valid x).
Proof.
  intros Hg w Hw. pose proof Hw as (Hs & _). destruct (so_group w Hs g Hg) as (start & Hst & Hv). exists start, w.
  rewrite (bind_eq _ _ _ w w) by done. by rewrite Hst.
Qed.
Lemma total_weaken {A} d (m : ST W A) (P Q : A -> Prop) : total d m P -> (forall a, P a -> Q a) -> total d m Q.
Proof. intros Hm HPQ w Hw. destruct (Hm w Hw) as (a & w' & ? & ? & ?). exists a, w'. split_and!; auto. Qed.

Definition opt_valid (o : option loc) : Prop := forall x, o = Some x -> valid x.
Definition scan_total (d : Z) (scanlist : Z -> ST W Z) : Prop := forall pass, total d (scanlist pass) (fun _ => True).

(** Functions, once the packet has a rule. *)
Lemma call_func_total d scanlist f pass : scan_total d scanlist -> f <> FnBad ->
  forall w x, at_depth d w -> fin_fr (w_fin w) = Some x ->
  exists a w', call_func scanlist f pass w = Some (a, w') /\ at_depth d w' /\ opt_valid (fst a).
Proof.
  intros Hscan Hf w x Hw Hx.
  assert (Hgrp : forall addr, exists a w', grpmap scanlist addr pass w = Some (a, w') /\ at_depth d w' /\ opt_valid a).
  { intros addr. unfold grpmap. rewrite (bind_eq _ _ _ w w) by done. rewrite Hx, (bind_eq _ _ _ x w) by done.
    pose proof Hw as (Hs & Hd & Hv). destruct (so_rule w Hs x (Hv x Hx)) as (r & Hr & _).
    rewrite (bind_eq _ _ _ _ _ (rule_run w x r Hr)). destruct (env_findgroup _ _ _) as [g|] eqn:Eg; [|by exists None, w].
    destruct (so_group w Hs g (eo_group Henv _ _ _ _ Eg)) as (start & Hst & Hstv). rewrite Hst, (bind_eq _ _ _ start w) by done.
    set (w1 := w <| w_fin ::= fun fin => fin <| fin_fr := start |> |>). rewrite (bind_eq _ _ _ tt w1) by done.
    assert (Hw1 : at_depth d w1) by (split_and!; [destruct Hs; by split|done|done]).
    destruct (Hscan pass w1 Hw1) as (p & w2 & E2 & Hw2 & _). rewrite (bind_eq _ _ _ _ _ E2).
    exists (fin_fr (w_fin w2)), w2. split; [done|]. split; [exact Hw2|]. exact (proj2 (proj2 Hw2)). }
  destruct f; [done|..]; cbn [call_func].
  - destruct (Hgrp fin_saddr) as (a & w' & E1 & Hw' & Ha). exists (a, pass), w'.
    unfold ipf_srcgrpmap. by rewrite (bind_eq _ _ _ _ _ E1).
  - destruct (Hgrp fin_daddr) as (a & w' & E1 & Hw' & Ha). exists (a, pass), w'.
    unfold ipf_dstgrpmap. by rewrite (bind_eq _ _ _ _ _ E1).
  - revert w Hw Hx Hgrp. intros w Hw _ _. apply total_call with (P := fun a => opt_valid (fst a)); [|done]. intros fin ext.
    pose proof (eo_func Henv id fin pass ext) as Hfn. destruct (env_func id fin pass ext) as [[[y fin'] p'] ext'].
    destruct Hfn as (H1 & H2 & H3). split_and!; [done|done|]. intros z Hz. left. congruence.
Qed.

Lemma match_type_total d scanlist x pass p : valid x ->
  total d (match_type scanlist x pass p) (fun m => opt_valid (fst m)).
Proof.
  intros Hx w Hw. pose proof Hw as (Hs & _). destruct (so_rule w Hs x Hx) as (r & Hr & Hok). unfold match_type.
  rewrite (bind_eq _ _ _ w w) by done. rewrite (bind_eq _ _ _ _ _ (rule_run w x r Hr)).
  assert (Hv : opt_valid (Some x)) by (intros y [= <-]; done).
  destruct Hok as (_ & _ & H1 & H2). destruct (fr_type r); try done; eexists _, w; split_and!; try done.
  by destruct (negb _).
Qed.
Lemma match_tag_total d x : valid x -> total d (match_tag x) (fun _ => True).
Proof.
  intros Hx. unfold match_tag. apply total_bind with (P := fun _ => True); [by apply total_gets|]. intros w _.
  eapply total_bind; [by apply total_rule|]. intros r _. by apply total_ret.
Qed.

Lemma call_now_total d scanlist x : scan_total d scanlist -> valid x ->
  total d (call_now scanlist x) (fun c => forall y p, c = Some (y, p) -> valid y).
Proof.
  intros Hscan Hx. unfold call_now. eapply total_bind; [by apply total_rule|]. intros r _.
  destruct (has (fr_flags r) FR_CALLNOW); cbn [negb]; [|apply total_ret; intros y p [= <- _]; done].
  eapply total_bind; [by apply total_upd_rule|]. intros [] _.
  destruct (fr_func r) as [f|]; [|by apply total_ret]. destruct (decide (f = FnBad)) as [->|Hf]; [by apply total_ret|].
  assert (Hgo : total d (frs ← gets (fun w => fin_fr (w_fin w));
      upd_fin (fun fin => fin <| fin_fr := Some x |>);;
      y ← call_func scanlist f (fr_flags r);
      match fst y with
      | None => upd_fin (fun fin => fin <| fin_fr := frs |>);; mret None
      | Some y => r ← rule y; mret (Some (y, fr_flags r))
      end) (fun c => forall y p, c = Some (y, p) -> valid y)); [|by destruct f].
  apply total_bind with (P := opt_valid); [apply total_gets; intros w Hw; exact (proj2 (proj2 Hw))|]. intros frs Hfrs w Hw.
  set (w1 := w <| w_fin ::= fun fin => fin <| fin_fr := Some x |> |>). rewrite (bind_eq _ _ _ tt w1) by done.
  assert (Hw1 : at_depth d w1).
  { destruct Hw as (Hs & Hd & _). split_and!; [destruct Hs; by split|done|]. by intros y [= <-]. }
  destruct (call_func_total d scanlist f (fr_flags r) Hscan Hf w1 x Hw1 eq_refl) as (a & w2 & E2 & Hw2 & Ha).
  rewrite (bind_eq _ _ _ _ _ E2). revert w2 Hw2 E2. intros w2 Hw2 _. destruct (fst a) as [y|] eqn:Ey.
  - apply total_bind with (d := d) (P := rule_ok y); [by apply total_rule, Ha| |done]. intros ry _.
    apply total_ret. intros z q [= <- _]. by apply Ha.
  - apply total_bind with (d := d) (P := fun _ => True); [|by intros [] _; apply total_ret|done].
    apply total_fin; [done|]. intros fin z Hz. right. by apply Hfrs.
Qed.

Lemma account_total d x rulen passt : valid x -> total d (account x rulen passt) (fun _ => True).
Proof.
  intros Hx. unfold account. eapply total_bind; [by apply total_rule|]. intros r _.
  apply total_bind with (P := fun _ => True). { apply total_fin; [done|]. intros fin y [= <-]. by right. } intros [] _.
  apply total_bind with (P := fun _ => True).
  { unfold log_rule. destruct (negb _); [by apply total_ret|].
    apply total_bind with (P := fun _ => True).
    - apply total_call. intros fin ext. destruct (env_log_pkt fin passt ext). split_and!; auto.
    - intros rv _. destruct (_ && _); [|by apply total_ret].
      apply total_bind with (P := fun _ => True); [|by intros [] _; apply total_ret]. apply total_fin; auto. }
  intros p _. apply total_bind with (P := fun _ => True); [by apply total_gets|]. intros w _.
  apply total_bind with (P := fun _ => True); [by apply total_upd_rule|]. intros [] _.
  apply total_bind with (P := fun _ => True); [apply total_fin; auto|]. intros [] _.
  apply total_bind with (P := fun _ => True).
  { destruct (has p _); cbn [when_]; [apply total_fin; auto|by apply total_ret]. } intros [] _.
  apply total_bind with (P := fun _ => True); [apply total_fin; auto|]. intros [] _. by apply total_ret.
Qed.

Lemma descend_total d scanlist x rulen passt pass : scan_total d scanlist -> valid x ->
  total d (descend scanlist x rulen passt pass) (fun _ => True).
Proof.
  intros Hscan Hx. unfold descend. eapply total_bind; [by apply total_rule|]. intros r (_ & Hg & _).
  destruct (fr_grphead r) as [g|]; [|by apply total_ret]. specialize (Hg g eq_refl).
  intros w Hw. destruct (so_group w (proj1 Hw) g Hg) as (start & Hst & Hv).
  rewrite (bind_eq _ _ _ w w) by done. rewrite Hst, (bind_eq _ _ _ start w) by done. revert w Hw Hst. intros w Hw _.
  revert w Hw. apply total_bind with (P := fun _ => True).
  { apply total_fin; [done|]. intros fin y Hy. right. by apply Hv. } intros [] _.
  apply total_bind with (P := fun _ => True).
  { destruct (FR_ISDECAPS passt); [|apply Hscan]. apply total_call. intros fin ext.
    pose proof (eo_decaps Henv fin pass ext) as Hd. destruct (env_decaps fin pass ext) as [[a fin'] ext'].
    destruct Hd. split_and!; auto. }
  intros p _. apply total_bind with (P := fun _ => True); [by apply total_gets|]. intros fr _.
  destruct (bool_decide _); [|by apply total_ret].
  apply total_bind with (P := fun _ => True); [|by intros [] _; apply total_ret].
  apply total_fin; [intros fin; unfold set_group_if; by destruct (fr_group r)|]. intros fin y [= <-]. by right.
Qed.

Lemma quick_total d x pass : valid x -> total d (quick_done x pass) (fun _ => True).
Proof.
  intros Hx. unfold quick_done. apply total_bind with (P := fun _ => True); [by apply total_gets|]. intros w _.
  destruct (_ && _); [|by apply total_ret]. apply total_bind with (P := fun _ => True).
  { apply total_fin; [done|]. intros fin y [= <-]. by right. } intros [] _.
  apply total_bind with (P := fun _ => True); [|intros rv _; by apply total_ret].
  apply total_call. intros fin ext. pose proof (eo_state Henv fin ext) as Hst.
  destruct (env_state_add fin ext) as [[a fin'] ext']. destruct Hst as [? ->]. split_and!; auto.
Qed.

Lemma scanlist_with_total d loop : d <= 16 ->
  (forall x pass p, valid x -> d < 16 -> total (d + 1) (loop (Some x) 0 pass p) (fun _ => True)) ->
  scan_total d (scanlist_with loop).
Proof.
  intros Hd Hloop pass w Hw. pose proof Hw as (Hs & Hdw & Hf). unfold scanlist_with.
  rewrite (bind_eq _ _ _ (w_fin w) w) by done. rewrite Hdw. rewrite Z.geb_leb. destruct (Z.leb_spec 16 d); [by exists pass, w|].
  destruct (fin_fr (w_fin w)) as [x|] eqn:Ex; [|by exists pass, w].
  set (w1 := w <| w_fin ::= fun fin => fin <| fin_depth ::= fun d => d + 1 |> <| fin_fr := None |> |>).
  rewrite (bind_eq _ _ _ tt w1) by done.
  destruct (Hloop x pass (has (fin_flx (w_fin w)) FI_TCPUDP && (fin_dlen (w_fin w) >? 3) && (fin_off (w_fin w) =? 0))
    (Hf x eq_refl) ltac:(lia) w1) as (p & w2 & E2 & (Hs2 & Hd2 & Hf2) & _).
  { split_and!; [destruct Hs; by split|simpl; lia|done]. }
  rewrite (bind_eq _ _ _ _ _ E2). eexists p, _. split; [reflexivity|]. split; [|done].
  split_and!; [destruct Hs2; by split|simpl; lia|exact Hf2].
Qed.

(** One list at depth [d]: each rule costs one unit of fuel, each level below a list. *)
Lemma scan_loop_total fuel : forall d start rulen pass p, 1 <= d <= 16 -> opt_valid start ->
  (match start with Some x => rank x + 1 | None => 0 end + Z.to_nat (16 - d) * (R + 1) <= fuel)%nat ->
  total d (scan_loop fuel start rulen pass p) (fun _ => True).
Proof.
  induction fuel as [|fuel IH]; intros d [x|] rulen pass p Hd Hv Hf; try (by apply total_ret); [lia|].
  specialize (Hv x eq_refl). cbn [scan_loop]. eapply total_bind; [by apply total_rule|]. intros r (Hn & _ & _).
  assert (Hnext : forall q, total d (scan_loop fuel (fr_next r) (rulen + 1) q p) (fun _ => True)).
  { intros q. apply IH; [done| |].
    - intros y Hy. by apply (Hn y Hy).
    - destruct (fr_next r) as [y|] eqn:Ey; [|lia]. destruct (Hn y eq_refl). lia. }
  assert (Hscan : scan_total d (scanlist_with (scan_loop fuel))).
  { apply scanlist_with_total; [lia|]. intros y q b Hy Hd'. apply IH; [lia|by intros z [= <-]|].
    pose proof (Hrank y Hy) as Hry.
    replace (Z.to_nat (16 - d)) with (S (Z.to_nat (16 - (d + 1)))) in Hf by lia. lia. }
  apply total_bind with (P := fun _ => True); [by apply total_gets|]. intros fin _.
  destruct (_ && _); [apply Hnext|]. eapply total_bind; [by apply match_type_total|]. intros m Hm.
  destruct (fst m) as [y|] eqn:Ey; [|apply Hnext]. assert (Hy : valid y) by (by apply Hm).
  eapply total_bind; [by apply match_tag_total|]. intros tag _. destruct (negb tag); [apply Hnext|].
  eapply total_bind; [by apply call_now_total|]. intros [[z passt]|] Hc; [|apply Hnext]. specialize (Hc z passt eq_refl).
  eapply total_bind; [by apply account_total|]. intros passt' _.
  eapply total_bind; [by apply descend_total|]. intros q _. destruct (has q FR_QUICK); [|apply Hnext].
  eapply total_bind; [by apply quick_total|]. intros [] _; [by apply total_ret|apply Hnext].
Qed.
End Total.

(** C21. [ipf_scanlist] comes to an end on every packet, for rules whose lists are finite,
    whatever groups they head, even a group that contains its own head: sixteen levels of
    lists of at most [R + 1] rules bound the walk.  It comes back at the nesting depth at
    which it was called.  The rules are of the kinds that carry no code or expression of
    their own (not [FR_T_CALLFUNC_BUILTIN], not [FR_T_IPFEXPR]).  The functions that rules
    call ([fr_func]) and the other components may do anything but change the depth or the
    rule of the packet, and they answer with rules that exist. *)
Theorem scanlist_terminates {E} `{filter_env E} valid group_valid rank R (w : filterw E) fuel pass :
  env_ok (E := E) valid group_valid -> (forall x, valid x -> (rank x <= R)%nat) -> store_ok valid group_valid rank w ->
  opt_valid valid (fin_fr (w_fin w)) -> 0 <= fin_depth (w_fin w) <= 16 -> (16 * (R + 1) <= fuel)%nat ->
  exists p w', ipf_scanlist fuel pass w = Some (p, w') /\ fin_depth (w_fin w') = fin_depth (w_fin w) /\
    store_ok valid group_valid rank w'.
Proof.
  intros Henv Hrank Hs Hv Hd Hf. set (d := fin_depth (w_fin w)) in *.
  destruct (scanlist_with_total valid group_valid rank d (scan_loop fuel) ltac:(lia)) with (pass := pass) (w := w)
    as (p & w' & Hrun & (Hs' & Hd' & _) & _).
  - intros x q b Hx Hlt. apply (scan_loop_total valid group_valid rank R Henv Hrank); [lia|by intros y [= <-]|].
    pose proof (Hrank x Hx). replace 16%nat with (S (Z.to_nat (16 - (d + 1)) + Z.to_nat d)) in Hf by lia. lia.
  - by split_and!.
  - by exists p, w'.
Qed.
(** A group whose only rule heads the group itself. *)
Definition demo_cycle : filterw unit :=
  mk_filterw demo_packet true true {[ 1%positive := demo_rule None (Some 1%positive) 0 0 0 FR_BLOCK ]} {[ 1%positive := Some 1%positive ]} tt.
Lemma scanlist_terminates_witness :
  exists p w', ipf_scanlist 16 FR_NOMATCH demo_cycle = Some (p, w') /\ fin_depth (w_fin w') = 0 /\
    store_ok (eq 1%positive) (eq 1%positive) (fun _ => O) w'.
Proof.
  apply (scanlist_terminates (eq 1%positive) (eq 1%positive) (fun _ => O) 0 demo_cycle 16 FR_NOMATCH).
  - split; simpl; try done. intros fin pass ext. split; [done|]. intros y Hy. by left.
  - intros. lia.
  - split.
    + intros x <-. eexists. split; [reflexivity|]. split_and!; [done|by intros g [= <-]|done|done].
    + intros g <-. eexists. split; [reflexivity|]. by intros x [= <-].
  - by intros x [= <-].
  - simpl. lia.
  - lia.
Defined.
