(* ===== verification/Check.v ===== *)
(** The packet entry point: [ipf_check] of fil.c, the order in which a packet goes
    through address translation, authentication, accounting, the fragment and
    state tables, the rules, logging and the answers to its sender, with
    [ipf_dolog] and [ipf_updateipid].

    Parsing (Parse.v), the rules and accounting (Filter.v) are the modelled
    components; the others are operations of the class [check_env].  Every call of
    a stage is recorded in a trace, which the theorems speak about. *)
From S2P Require Import Prelude Packet Cksum Parse Filter.
From Stdlib Require Import Sorted.

Definition FR_ISPASS (x : Z) : bool := Z.land x FR_CMDMASK =? FR_PASS.
Definition FR_ISBLOCK (x : Z) : bool := Z.land x FR_CMDMASK =? FR_BLOCK.
Definition FR_FASTROUTE : Z := 0x00800.
Definition FR_RETMASK : Z := Z.lor (Z.lor FR_RETICMP FR_RETRST) FR_FAKEICMP.
Definition FR_LOGB : Z := Z.lor FR_LOG FR_BLOCK.
Definition FR_LOGP : Z := Z.lor FR_LOG FR_PASS.
Definition FF_LOGPASS : Z := 0x10000000.
Definition FF_LOGBLOCK : Z := 0x20000000.
Definition FF_LOGNOMATCH : Z := 0x40000000.
Definition FF_LOGGING : Z := Z.lor (Z.lor FF_LOGPASS FF_LOGBLOCK) FF_LOGNOMATCH.
Definition ENETUNREACH : Z := 51.
Definition ECONNRESET : Z := 54.
Definition AF_INET : Z := 2.
Definition AF_INET6 : Z := 28.
Definition FR_GROUPLEN : nat := 16.

(** [pass &= ~FR_CMDMASK; pass |= FR_BLOCK]. *)
Definition to_block (pass : Z) : Z := Z.lor (clear pass FR_CMDMASK) FR_BLOCK.

(** ** State *)

(** What [fin_dif] and [fin_tif] point to: a field of a rule, or an [frdest_t] of
    another table. *)
Inductive fdref := RuleDif (x : loc) | RuleTif (x : loc) (rev : Z) | Elsewhere (fd : fdest).

(** The packet with its summary, whether [*mp] is not null, the destinations, and
    the rules and the rest as in Filter.v. *)
Record sys (E : Type) := mk_sys {
  y_pst : pst; y_mp : bool; y_dif : option fdref; y_tif : option fdref;
  y_rules : gmap loc frentry; y_groups : gmap loc (option loc); y_ext : E }.
Arguments mk_sys {_}.
Arguments y_pst {_}.
Arguments y_mp {_}.
Arguments y_dif {_}.
Arguments y_tif {_}.
Arguments y_rules {_}.
Arguments y_groups {_}.
Arguments y_ext {_}.
#[export] Instance eta_sys {E} : Eta (sys E) := fun y =>
  mk_sys (y_pst y) (y_mp y) (y_dif y) (y_tif y) (y_rules y) (y_groups y) (y_ext y).
Definition y_fin {E} (y : sys E) : fr_info := ps_fin (y_pst y).

(** The stages. *)
Inductive event :=
  | VerifySrc | NatIn | AuthCheck | AcctIn | FragKnown | StateCheck | Firewall | StateAdd
  | AcctOut | NatOut | UpdateIpid | Log | SendIcmp (dst : Z) | SendReset | AuthCapture
  | NatUncreate | Copy | Fastroute (copy : bool) (to : option fdref) | Free.

Record ckw (E : Type) := mk_ckw { k_sys : sys E; k_trace : list event }.
Arguments mk_ckw {_}.
Arguments k_sys {_}.
Arguments k_trace {_}.
#[export] Instance eta_ckw {E} : Eta (ckw E) := fun w => mk_ckw (k_sys w) (k_trace w).

(** The components called.  A result of type [Z * Z] is the result of the function
    and the new [pass]. *)
Class check_env (E : Type) := {
  k_verifysrc : ST (sys E) bool;
  k_nat_checkin : Z -> ST (sys E) (Z * Z);
  k_nat6_checkin : Z -> ST (sys E) (Z * Z);
  k_auth_check : Z -> ST (sys E) (option loc * Z);
  k_frag_known : Z -> ST (sys E) (option loc * Z);
  k_state_check : Z -> ST (sys E) (option loc * Z);
  k_state_add : ST (sys E) Z;
  k_nat_checkout : Z -> ST (sys E) (Z * Z);
  k_nat6_checkout : Z -> ST (sys E) (Z * Z);
  k_frag_ipidknown : ST (sys E) Z;
  k_frag_ipidnew : Z -> ST (sys E) Z;
  k_nextipid : ST (sys E) Z;
  k_log_pkt : Z -> ST (sys E) Z;
  k_send_icmp_err : Z -> ST (sys E) Z;
  k_send_reset : ST (sys E) Z;
  k_nat_uncreate : ST (sys E) unit;
  (** [M_COPY] of a buffer that is there: whether there is a copy. *)
  k_copy : ST (sys E) bool;
  (** [ipf_fastroute], of the copy or of the packet. *)
  k_fastroute : bool -> option fdref -> ST (sys E) unit }.

(** The variables of [ipf_main_softc_t] that are read; the lists of rules are those
    of the active set, by direction. *)
Record softc := mk_softc {
  ipf_running : Z; ipf_pass : Z; ipf_chksrc : Z; ipf_minttl : Z; ipf_update_ipid : Z;
  ipf_flags : Z; ipf_icmpminfragmtu : Z; ipf_rules : Z -> option loc; ipf_acct : Z -> option loc }.

(** How the packet came: the flags of its buffer. *)
Record linkinfo := mk_linkinfo { M_BCAST : bool; M_MCAST : bool; M_MLOOP : bool }.

Section Check.
Context {E : Type} `{filter_env E} `{check_env E} (be : bool) {B : build}.
Abbreviation S := (sys E).
Abbreviation K := (ckw E).

(** ** Running the components *)

(** A reading or writing of the packet and its summary. *)
Definition buf {A} (m : ST pst A) : ST S A := fun y =>
  match m (y_pst y) with
  | Some (a, s) => Some (a, y <| y_pst := s |>)
  | None => None
  end.

(** A step of Filter.v. *)
Definition filt {A} (m : ST (filterw E) A) : ST S A := fun y =>
  match m (mk_filterw (y_fin y) (ps_m (y_pst y)) (y_mp y) (y_rules y) (y_groups y) (y_ext y)) with
  | Some (a, w) =>
      Some (a, mk_sys (y_pst y <| ps_fin := w_fin w |> <| ps_m := w_m w |>) (w_mp w)
                 (y_dif y) (y_tif y) (w_rules w) (w_groups w) (w_ext w))
  | None => None
  end.

Definition on {A} (m : ST S A) : ST K A := fun w =>
  match m (k_sys w) with
  | Some (a, y) => Some (a, w <| k_sys := y |>)
  | None => None
  end.
Definition note (ev : event) : ST K unit := modify (fun w => w <| k_trace ::= fun t => t ++ [ev] |>).
(** A stage. *)
Definition stage {A} (ev : event) (m : ST S A) : ST K A := note ev;; on m.
Definition look {A} (f : S -> A) : ST K A := on (gets f).
Definition set_fin (g : fr_info -> fr_info) : ST K unit := on (buf (upd g)).

(** ** [ipf_updateipid] *)

Definition write16 (i v : Z) : ST pst unit :=
  read16 be i;;
  let '(b0, b1) := store16 be v in
  modify (fun s => s <| ps_bytes ::= fun l => <[Z.to_nat (i + 1) := b1]> (<[Z.to_nat i := b0]> l) |>).

(** The new identifier, [None] when there is none. *)
Definition new_ipid : ST S (option Z) :=
  fin ← gets y_fin;
  if negb (fin_off fin =? 0) then
    sum ← k_frag_ipidknown;
    mret (if sum =? 0xffffffff then None else Some (Z.land sum 0xffff))
  else
    id ← k_nextipid;
    fin ← gets y_fin;
    when_ ((fin_off fin =? 0) && has (fin_flx fin) FI_FRAG) (k_frag_ipidnew id;; mret tt);;
    mret (Some id).

(** The header with the identifier [id] and its checksum corrected. *)
Definition put_ipid (id : Z) : ST pst unit :=
  ip_id ← read16 be 4;
  let ido := ntohs be ip_id in
  if id =? ido then mret tt else
  write16 4 (htons be id);;
  let sumd := CALC_SUMD u16 ido id in
  ip_sum ← read16 be 10;
  let sum := Z.land (Z.lnot (ntohs be ip_sum)) 0xffff in
  let sum := u32 (sum + sumd) in
  let sum := u32 (Z.shiftr sum 16 + Z.land sum 0xffff) in
  let sum := u32 (Z.shiftr sum 16 + Z.land sum 0xffff) in
  let sums := u16 (Z.lnot (u16 sum)) in
  write16 10 (htons be sums).

Definition ipf_updateipid : ST S Z :=
  id ← new_ipid;
  match id with
  | None => mret (-1)
  | Some id => buf (put_ipid id);; mret 0
  end.

(** ** [ipf_dolog] *)

(** What [ipf_dolog] makes of [pass] before logging, [None] when nothing is to be
    logged. *)
Definition log_pass (flags pass : Z) : option Z :=
  if has flags FF_LOGNOMATCH && has pass FR_NOMATCH then Some (Z.lor pass FF_LOGNOMATCH)
  else if (Z.land pass FR_LOGMASK =? FR_LOGP) || (FR_ISPASS pass && has flags FF_LOGPASS) then
    Some (if negb (Z.land pass FR_LOGMASK =? FR_LOGP) then Z.lor pass FF_LOGPASS else pass)
  else if (Z.land pass FR_LOGMASK =? FR_LOGB) || (FR_ISBLOCK pass && has flags FF_LOGBLOCK) then
    Some (if negb (Z.land pass FR_LOGMASK =? FR_LOGB) then Z.lor pass FF_LOGBLOCK else pass)
  else None.

Definition ipf_dolog (flags pass : Z) : ST S Z :=
  match log_pass flags pass with
  | None => mret pass
  | Some pass =>
      r ← k_log_pkt pass;
      if (r =? -1) && has pass FR_LOGORBLOCK && FR_ISPASS pass then
        buf (upd (fun fin => fin <| fin_reason := FRB_LOGFAIL2 |>));;
        mret (to_block pass)
      else mret pass
  end.

(** ** [ipf_check] *)

Context (fuel : nat) (c : softc).

(** The flags that the link layer gives. *)
Definition link_flx (l : linkinfo) : Z :=
  Z.lor (if M_MCAST l || (is_kernel && M_MLOOP l) then Z.lor FI_MBCAST FI_MULTICAST else 0)
        (if M_BCAST l then Z.lor FI_MBCAST FI_BROADCAST else 0).

(** The summary before parsing; [v] is [IP_V(ip)]. *)
Definition first_fin (l : linkinfo) (ifp : option loc) (v ipoff hlen out : Z) : fr_info :=
  fin_zero <| fin_fi := fi_zero <| fi_v := v |> <| fi_flx := link_flx l |> |>
    <| fin_group := repeat 0 FR_GROUPLEN |> <| fin_out := out |> <| fin_ifp := ifp |>
    <| fin_error := ENETUNREACH |> <| fin_hlen := u16 hlen |> <| fin_dp := hlen |>
    <| fin_ipoff := ipoff |>.

Definition set_reason (r : Z) : ST K unit := set_fin (fun fin => fin <| fin_reason := r |>).
(** [fin_m] and [*fin_mp] are set to null together. *)
Definition drop_packet : ST K unit :=
  on (modify (fun y => y <| y_pst ::= (fun s => s <| ps_m := false |>) |> <| y_mp := false |>)).
Definition makefrip (hlen : Z) : ST S Z :=
  r ← buf (ipf_makefrip be (ipf_icmpminfragmtu c) hlen);
  modify (fun y => y <| y_mp := ps_m (y_pst y) |>);;
  mret r.

(** Parsing; a result is the [pass] with which to go to [finished]. *)
Definition check_entry (v hlen : Z) : ST K (option Z) :=
  jumbo ← (if v =? 6 then plen ← on (buf (read16 be 4)); mret (plen =? 0) else mret false);
  if jumbo : bool then set_reason FRB_JUMBO;; mret (Some (Z.lor FR_BLOCK FR_NOMATCH)) else
  set_fin (fun fin => fin <| fin_family := if v =? 6 then AF_INET6 else AF_INET |>);;
  r ← on (makefrip hlen);
  if r =? -1 then set_reason FRB_MAKEFRIP;; mret (Some (Z.lor FR_BLOCK FR_NOMATCH)) else
  mp ← look y_mp;
  mret (if mp : bool then None else Some (ipf_pass c)).

(** The source address and time to live of a packet that comes in. *)
Definition check_source (v out : Z) : ST K unit :=
  when_ (out =? 0)
    (if v =? 4 then
       when_ (negb (ipf_chksrc c =? 0))
         (ok ← stage VerifySrc k_verifysrc; when_ (negb ok) (set_fin (or_flx FI_BADSRC)));;
       ttl ← on (buf (read8 8));
       when_ (ttl <? ipf_minttl c) (set_fin (or_flx FI_LOWTTL))
     else when_ (v =? 6)
       (hlim ← on (buf (read8 7));
        when_ (hlim <? ipf_minttl c) (set_fin (or_flx FI_LOWTTL)))).

Definition acctpkt : ST S unit :=
  fin ← gets y_fin; filt (ipf_acctpkt fuel (ipf_acct c (fin_out fin))).
Definition firewall (pass : Z) : ST S (option loc * Z) :=
  fin ← gets y_fin; filt (ipf_firewall fuel (ipf_rules c (fin_out fin)) (ipf_pass c) pass).

Definition nat_in (out pass : Z) : ST K (Z * Z) :=
  fin ← look y_fin;
  if negb (out =? 0) then mret (0, pass)
  else if fin_v fin =? 4 then stage NatIn (k_nat_checkin pass)
  else if fin_v fin =? 6 then stage NatIn (k_nat6_checkin pass)
  else mret (0, pass).

(** What is known of the packet: its authentication, the datagram it is a fragment
    of, its connection. *)
Definition known (out pass : Z) : ST K (option loc * Z) :=
  '(fr, pass) ← stage AuthCheck (k_auth_check pass);
  match fr with
  | Some fr => mret (Some fr, pass)
  | None =>
      when_ (out =? 0) (stage AcctIn acctpkt);;
      fin ← look y_fin;
      '(fr, pass) ← (if has (fin_flx fin) FI_FRAG then stage FragKnown (k_frag_known pass)
                     else mret (None, pass));
      match fr with
      | Some fr => mret (Some fr, pass)
      | None => stage StateCheck (k_state_check pass)
      end
  end.

Definition rules (fr : option loc) (pass : Z) : ST K (option loc * Z) :=
  if has pass FR_NOMATCH || bool_decide (fr = None) then stage Firewall (firewall pass)
  else mret (fr, pass).

(** A state that is asked for and cannot be added blocks the packet. *)
Definition keep_state (pass : Z) : ST K Z :=
  y ← look id;
  if has pass FR_KEEPSTATE && ps_m (y_pst y) && negb (has (fin_flx (y_fin y)) FI_STATE) then
    r ← stage StateAdd k_state_add;
    if (r =? 0) || negb (FR_ISPASS pass) then mret pass
    else set_reason FRB_STATEADD;; mret (to_block pass)
  else mret pass.

Definition set_dests (fr : option loc) : ST K unit :=
  set_fin (fun fin => fin <| fin_fr := fr |>);;
  fin ← look y_fin;
  match fr with
  | Some x =>
      when_ (negb (has (fin_flx fin) FI_STATE))
        (on (modify (fun y => y <| y_dif := Some (RuleDif x) |> <| y_tif := Some (RuleTif x (fin_rev fin)) |>)))
  | None => mret tt
  end.

(** Accounting and translation of a packet that goes out. *)
Definition nat_out (v out pass : Z) : ST K Z :=
  if (out =? 0) || negb (FR_ISPASS pass) then mret pass else
  stage AcctOut acctpkt;;
  fin ← look y_fin;
  if fin_v fin =? 4 then
    '(rv, pass) ← stage NatOut (k_nat_checkout pass);
    if rv =? -1 then mret pass
    else if negb (ipf_update_ipid c =? 0) && (v =? 4) then
      r ← stage UpdateIpid ipf_updateipid;
      if r =? -1 then set_reason FRB_UPDATEIPID;; mret (to_block pass) else mret pass
    else mret pass
  else if fin_v fin =? 6 then '(_, pass) ← stage NatOut (k_nat6_checkout pass); mret pass
  else mret pass.

(** From address translation to [filterdone]: the rule and the decision. *)
Definition check_decide (v out : Z) : ST K (option loc * Z) :=
  '(rv, pass) ← nat_in out (ipf_pass c);
  if rv =? -1 then mret (None, pass) else
  '(fr, pass) ← known out pass;
  '(fr, pass) ← rules fr pass;
  pass ← keep_state pass;
  set_dests fr;;
  pass ← nat_out v out pass;
  mret (fr, pass).

(** The answer to the sender of a packet that came in. *)
Definition answer (pass : Z) : ST K unit :=
  fin ← look y_fin;
  (if has pass FR_RETICMP then
     let dst := if Z.land pass FR_RETMASK =? FR_FAKEICMP then 1 else 0 in
     stage (SendIcmp dst) (k_send_icmp_err dst);; mret tt
   else when_ ((Z.land pass FR_RETMASK =? FR_RETRST) && negb (has (fin_flx fin) FI_SHORT))
     (when_ (negb (has (fin_flx fin) FI_OOW)) (stage SendReset k_send_reset;; mret tt)));;
  y ← look id;
  when_ (FR_ISAUTH pass && ps_m (y_pst y))
    (note AuthCapture;; drop_packet;; set_reason FRB_AUTHCAPTURE).

(** From [filterdone]: logging and the answers. *)
Definition check_log (pass : Z) : ST K Z :=
  if has (ipf_flags c) FF_LOGGING || has pass FR_LOGMASK
  then stage Log (ipf_dolog (ipf_flags c) pass) else mret pass.
Definition check_answer (out pass : Z) : ST K unit :=
  set_fin (fun fin => fin <| fin_fi ::= fun fi => fi <| fi_flx ::= fun x => clear x FI_STATE |> |>);;
  when_ (has pass FR_RETMASK)
    (if out =? 0 then answer pass
     else when_ (has pass FR_RETRST) (set_fin (fun fin => fin <| fin_error := ECONNRESET |>)));;
  fin ← look y_fin;
  when_ (FR_ISBLOCK pass && has (fin_flx fin) FI_NEWNAT) (stage NatUncreate k_nat_uncreate).

(** The destination that [fin_dif] or [fin_tif] leads to. *)
Definition dest (d : option fdref) : ST S fdest := fun y =>
  match d with
  | None => Some (FdNull, y)
  | Some (RuleDif x) => r ← y_rules y !! x; Some (fr_dif r, y)
  | Some (RuleTif x rev) =>
      r ← y_rules y !! x;
      fd ← (if rev <? 0 then None else fr_tifs r !! Z.to_nat rev); Some (fd, y)
  | Some (Elsewhere fd) => Some (fd, y)
  end.
Definition usable (fd : fdest) : bool := match fd with FdIfp _ => true | _ => false end.

Definition duplicate : ST K unit :=
  dif ← look y_dif;
  fd ← on (dest dif);
  when_ (usable fd)
    (y ← look id;
     if ps_m (y_pst y) then
       mc ← stage Copy k_copy;
       when_ mc (stage (Fastroute true dif) (k_fastroute true dif))
     else stuck).

Definition reroute (out pass : Z) : ST K unit :=
  tif ← look y_tif;
  let send to :=
    stage (Fastroute false to) (k_fastroute false to);;
    on (modify (fun y => y <| y_mp := false |>)) in
  if (out =? 0) && has pass FR_FASTROUTE then send None
  else fd ← on (dest tif); when_ (usable fd) (send tif).

(** From [finished]: a packet that is not passed is freed. *)
Definition check_finish (pass : Z) : ST K unit :=
  mp ← look y_mp;
  when_ (negb (FR_ISPASS pass) && mp)
    (when_ is_kernel (note Free);;
     on (modify (fun y => y <| y_mp := false |>))).

(** From [filterdone] to [finished]. *)
Definition check_done (out : Z) (fr : option loc) (pass : Z) : ST K Z :=
  pass ← check_log pass;
  check_answer out pass;;
  when_ (bool_decide (fr <> None)) (duplicate;; reroute out pass);;
  mret pass.

Definition check_body (v out : Z) : ST K Z :=
  check_source v out;;
  '(fr, pass) ← check_decide v out;
  check_done out fr pass.

Definition ipf_check (l : linkinfo) (ifp : option loc) (ipoff hlen out : Z) : ST K Z :=
  if is_kernel && (ipf_running c <=? 0) then mret 0 else
  on (modify (fun y => y <| y_dif := None |> <| y_tif := None |>));;
  set_fin (fun _ => first_fin l ifp 0 ipoff hlen out);;
  b ← on (buf (read8 0));
  let v := Z.shiftr b 4 in
  set_fin (fun _ => first_fin l ifp v ipoff hlen out);;
  stop ← check_entry v hlen;
  pass ← match stop with Some pass => mret pass | None => check_body v out end;
  check_finish pass;;
  mret pass.
End Check.

(** ** The order of the stages *)

(** The place of a stage in the order of the code; the answers to the sender share
    one. *)
Definition rank (e : event) : Z :=
  match e with
  | VerifySrc => 1 | NatIn => 2 | AuthCheck => 3 | AcctIn => 4 | FragKnown => 5 | StateCheck => 6
  | Firewall => 7 | StateAdd => 8 | AcctOut => 9 | NatOut => 10 | UpdateIpid => 11 | Log => 12
  | SendIcmp _ | SendReset => 13 | AuthCapture => 14 | NatUncreate => 15 | Copy => 16
  | Fastroute true _ => 17 | Fastroute false _ => 18 | Free => 19
  end.
Definition before (a b : event) : Prop := rank a < rank b.
Definition in_order (t : list event) : Prop := StronglySorted before t.

Lemma in_order_snoc t e : in_order t -> Forall (fun a => rank a < rank e) t -> in_order (t ++ [e]).
Proof.
  intros Hs. induction Hs as [|a t Ht IH Ha]; intros Hb; cbn [app].
  - repeat constructor.
  - inversion_clear Hb. constructor; [by apply IH|]. apply Forall_app. by repeat constructor.
Qed.

Section Order.
Context {E : Type} `{filter_env E} `{check_env E} (be : bool) {B : build} (fuel : nat) (c : softc).
Abbreviation K := (ckw E).

(** The trace is in order and has reached at most the place [n]. *)
Definition up_to (n : Z) (w : K) : Prop :=
  in_order (k_trace w) /\ Forall (fun e => rank e <= n) (k_trace w).
Lemma up_to_le n n' w : n <= n' -> up_to n w -> up_to n' w.
Proof. intros Hn [Hs Hf]. split; [done|]. eapply Forall_impl; [exact Hf|]. intros e He. cbn in *. lia. Qed.

(** [m] takes the trace from [n] to [n'] at most. *)
Definition moves {A} (n n' : Z) (m : ST K A) : Prop :=
  forall w, up_to n w -> wlp m (fun _ => up_to n') w.

Lemma moves_ret {A} n n' (a : A) : n <= n' -> moves n n' (mret a).
Proof. intros Hn w Hw. by apply (up_to_le n). Qed.
Lemma moves_bind {A A'} n k n' (m : ST K A) (f : A -> ST K A') :
  moves n k m -> (forall a, moves k n' (f a)) -> moves n n' (m ≫= f).
Proof.
  intros Hm Hf w Hw. rewrite wp_bind. eapply wp_mono; [by apply Hm|]. intros a w' Hw'. by apply Hf.
Qed.
Lemma moves_weaken {A} n k k' n' (m : ST K A) : moves k k' m -> n <= k -> k' <= n' -> moves n n' m.
Proof.
  intros Hm H1 H2 w Hw. eapply wp_mono; [apply Hm, (up_to_le n); done|]. intros a w'. by apply up_to_le.
Qed.
Lemma moves_on {A} n (m : ST (sys E) A) : moves n n (on m).
Proof. intros w Hw. unfold wpg, on. by destruct (m (k_sys w)) as [[a y]|]. Qed.
Lemma moves_note n e : n < rank e -> moves n (rank e) (note e).
Proof.
  intros Hn w [Hs Hf]. unfold note. rewrite wp_modify. unfold up_to. cbn. split.
  - apply in_order_snoc; [done|]. eapply Forall_impl; [exact Hf|]. intros x Hx. cbn in *. lia.
  - apply Forall_app. split; [|by repeat constructor]. eapply Forall_impl; [exact Hf|]. intros x Hx. cbn in *. lia.
Qed.
Lemma moves_stage {A} n e (m : ST (sys E) A) : n < rank e -> moves n (rank e) (stage e m).
Proof. intros Hn. eapply moves_bind; [by apply moves_note|]. intros []. apply moves_on. Qed.
Lemma moves_when n n' b (m : ST K unit) : n <= n' -> moves n n' m -> moves n n' (when_ b m).
Proof. intros Hn Hm. destruct b; [done|]. by apply moves_ret. Qed.
Lemma moves_stuck {A} n n' : moves n n' (@stuck K A).
Proof. by intros w Hw. Qed.
Lemma moves_look {A} n (f : sys E -> A) : moves n n (look f).
Proof. apply moves_on. Qed.
Lemma moves_set_fin n g : moves n n (set_fin (E := E) g).
Proof. apply moves_on. Qed.
End Order.

(** Walks through a routine; stops at a step in the middle whose place is not
    plain. *)
Ltac walk :=
  lazymatch goal with
  | |- moves _ _ (mret _) => apply moves_ret; lia
  | |- moves _ _ stuck => apply moves_stuck
  | |- moves ?n ?n' (on _) => apply (moves_weaken n n n n'); [apply moves_on|lia|lia]
  | |- moves ?n ?n' (set_fin _) => apply (moves_weaken n n n n'); [apply moves_set_fin|lia|lia]
  | |- moves ?n ?n' (stage ?e _) =>
      apply (moves_weaken n n (rank e) n'); [apply moves_stage; cbn [rank]; lia|lia|cbn [rank]; lia]
  | |- moves ?n ?n' (note ?e) =>
      apply (moves_weaken n n (rank e) n'); [apply moves_note; cbn [rank]; lia|lia|cbn [rank]; lia]
  | |- moves ?n _ (stage ?e _ ≫= _) => apply (moves_bind n (rank e)); [walk|intros ?; cbn [rank]; walk]
  | |- moves ?n _ (note ?e ≫= _) => apply (moves_bind n (rank e)); [walk|intros ?; cbn [rank]; walk]
  | |- moves ?n _ (on _ ≫= _) => apply (moves_bind n n); [walk|intros ?; walk]
  | |- moves ?n _ (look _ ≫= _) => apply (moves_bind n n); [apply moves_look|intros ?; walk]
  | |- moves ?n _ (set_fin _ ≫= _) => apply (moves_bind n n); [walk|intros ?; walk]
  | |- moves _ _ (when_ _ _) => apply moves_when; [lia|]; walk
  | |- moves _ _ (match ?x with _ => _ end) => destruct x; walk
  | |- _ => idtac
  end.

Section Stages.
Context {E : Type} `{filter_env E} `{check_env E} (be : bool) {B : build} (fuel : nat) (c : softc).

Lemma moves_entry v hlen : moves (E := E) 0 0 (check_entry be c v hlen).
Proof.
  unfold check_entry, set_reason. apply (moves_bind 0 0); [walk|]. intros jumbo. walk.
Qed.
Lemma moves_source v out : moves (E := E) 0 1 (check_source c v out).
Proof.
  unfold check_source. walk. apply (moves_bind 0 1); [walk|]. intros ?. walk.
Qed.
Lemma moves_nat_in out pass : moves (E := E) 1 2 (nat_in out pass).
Proof. unfold nat_in. walk. Qed.
Lemma moves_known out pass : moves (E := E) 2 6 (known fuel c out pass).
Proof.
  unfold known. walk. apply (moves_bind 3 4); [walk|]. intros ?. walk.
  apply (moves_bind 4 5); [walk|]. intros ?. walk.
Qed.
Lemma moves_rules fr pass : moves (E := E) 6 7 (rules fuel c fr pass).
Proof. unfold rules. walk. Qed.
Lemma moves_keep_state pass : moves (E := E) 7 8 (keep_state pass).
Proof. unfold keep_state, set_reason. walk. Qed.
Lemma moves_set_dests fr : moves (E := E) 8 8 (set_dests fr).
Proof. unfold set_dests. walk. Qed.
Lemma moves_nat_out v out pass : moves (E := E) 8 11 (nat_out be fuel c v out pass).
Proof. unfold nat_out, set_reason. walk. Qed.
Lemma moves_decide v out : moves (E := E) 1 11 (check_decide be fuel c v out).
Proof.
  unfold check_decide. apply (moves_bind 1 2); [apply moves_nat_in|]. intros [rv p]. walk.
  apply (moves_bind 2 6); [apply moves_known|]. intros [fr p'].
  apply (moves_bind 6 7); [apply moves_rules|]. intros [fr' p''].
  apply (moves_bind 7 8); [apply moves_keep_state|]. intros q.
  apply (moves_bind 8 8); [apply moves_set_dests|]. intros ?.
  apply (moves_bind 8 11); [apply moves_nat_out|]. intros ?. walk.
Qed.
Lemma moves_answer pass : moves (E := E) 12 14 (answer pass).
Proof.
  unfold answer, drop_packet, set_reason. walk. apply (moves_bind 12 13); [walk|]. intros ?. walk.
Qed.
Lemma moves_log pass : moves (E := E) 11 12 (check_log c pass).
Proof. unfold check_log. walk. Qed.
Lemma moves_check_answer out pass : moves (E := E) 12 15 (check_answer out pass).
Proof.
  unfold check_answer. walk. apply (moves_bind 12 14).
  { apply moves_when; [lia|]. destruct (out =? 0); [apply moves_answer|walk]. }
  intros ?. walk.
Qed.
Lemma moves_duplicate : moves (E := E) 15 17 duplicate.
Proof. unfold duplicate. walk. Qed.
Lemma moves_reroute out pass : moves (E := E) 17 18 (reroute out pass).
Proof. unfold reroute. walk. Qed.
Lemma moves_done out fr pass : moves (E := E) 11 18 (check_done c out fr pass).
Proof.
  unfold check_done. apply (moves_bind 11 12); [apply moves_log|]. intros p.
  apply (moves_bind 12 15); [apply moves_check_answer|]. intros ?.
  apply (moves_bind 15 18); [|intros ?; walk]. apply moves_when; [lia|].
  apply (moves_bind 15 17); [apply moves_duplicate|]. intros ?. apply moves_reroute.
Qed.
Lemma moves_finish pass : moves (E := E) 18 19 (check_finish pass).
Proof.
  unfold check_finish. walk. apply (moves_bind 18 19); [|intros ?; walk]. walk.
Qed.
Lemma moves_check l ifp ipoff hlen out : moves (E := E) 0 19 (ipf_check be fuel c l ifp ipoff hlen out).
Proof.
  unfold ipf_check. walk. apply (moves_bind 0 0); [apply moves_entry|]. intros stop.
  apply (moves_bind 0 18); [|intros p; apply (moves_bind 18 19); [apply moves_finish|intros ?; walk]].
  destruct stop as [p|]; [walk|]. unfold check_body.
  apply (moves_bind 0 1); [apply moves_source|]. intros ?.
  apply (moves_bind 1 11); [apply moves_decide|]. intros [fr p]. 
  eapply moves_weaken; [apply moves_done|lia|lia].
Qed.
End Stages.

(** ** What each direction runs *)

Section Emits.
Context {E : Type} `{filter_env E} `{check_env E} (be : bool) {B : build} (fuel : nat) (c : softc).
Context (P : event -> Prop).
Abbreviation K := (ckw E).

(** Every stage that ran is of [P]. *)
Definition only (w : K) : Prop := Forall P (k_trace w).
Definition emits {A} (m : ST K A) : Prop := keeps only m.

Lemma emits_on {A} (m : ST (sys E) A) : emits (on m).
Proof. intros w Hw. unfold wpg, on. by destruct (m (k_sys w)) as [[a y]|]. Qed.
Lemma emits_note e : P e -> emits (note e).
Proof. intros He w Hw. unfold note. rewrite wp_modify. apply Forall_app. by repeat constructor. Qed.
Lemma emits_stage {A} e (m : ST (sys E) A) : P e -> emits (stage e m).
Proof. intros He. apply keeps_bind; [by apply emits_note|]. intros []. apply emits_on. Qed.
End Emits.
#[export] Hint Resolve emits_on : keeps.

Ltac emit :=
  unfold emits;
  lazymatch goal with
  | |- keeps _ (mret _) => apply keeps_ret
  | |- keeps _ stuck => apply keeps_stuck
  | |- keeps _ (on _) => apply emits_on
  | |- keeps _ (look _) => apply emits_on
  | |- keeps _ (set_fin _) => apply emits_on
  | |- keeps _ (stage _ _) => apply emits_stage; cbn; try done
  | |- keeps _ (note _) => apply emits_note; cbn; try done
  | |- keeps _ (_ ≫= _) => apply keeps_bind; [|intros ?]; emit
  | |- keeps _ (when_ _ _) => apply keeps_when; emit
  | |- keeps _ (match ?x with _ => _ end) => destruct x; emit
  | |- _ => idtac
  end.

(** A run of [ipf_check] from what holds of its parts: [P] of the stages before the
    decision, [D] after it, [Q] before the packet is freed, [R] at the end. *)
Section Rule.
Context {E : Type} `{filter_env E} `{check_env E} (be : bool) {B : build} (fuel : nat) (c : softc).
Context (P : event -> Prop) (D Q R : Z -> ckw E -> Prop).
Context (p_source : P VerifySrc).
Context (q_stop : forall p w, only P w -> Q p w).
Context (q_decide : forall v out w, only P w -> wlp (check_decide be fuel c v out) (fun r => D (snd r)) w).
Context (q_done : forall out fr p w, D p w -> wlp (check_done c out fr p) Q w).
Context (r_finish : forall p w, Q p w -> wlp (check_finish p) (fun _ => R p) w).

Lemma check_rule l ifp ipoff hlen out w :
  is_kernel && (ipf_running c <=? 0) = false -> only P w ->
  wlp (ipf_check be fuel c l ifp ipoff hlen out) R w.
Proof.
  intros Hon Hw. unfold ipf_check. rewrite Hon.
  do 3 (rewrite wp_bind; eapply wp_mono; [apply (emits_on _ _ _ Hw)|]; clear w Hw; intros ? w Hw).
  rewrite wp_bind; eapply wp_mono; [apply (emits_on _ _ _ Hw)|]. intros ? w1 H1. rewrite wp_bind.
  assert (He : forall v, keeps (only (E := E) P) (check_entry be c v hlen))
    by (intros v; unfold check_entry, set_reason; emit).
  eapply wp_mono; [by apply He|]. intros stop w2 H2. rewrite wp_bind. eapply wp_mono with (Q := Q).
  - destruct stop as [p|]; [by apply q_stop|]. unfold check_body. rewrite wp_bind.
    assert (Hs : forall v, keeps (only (E := E) P) (check_source c v out))
      by (intros v; unfold check_source, when_; emit).
    eapply wp_mono; [by apply Hs|]. intros [] w3 H3. rewrite wp_bind.
    eapply wp_mono; [by apply q_decide|]. intros [fr p] w4 H4. by apply q_done.
  - intros p w3 H3. rewrite wp_bind. eapply wp_mono; [by apply r_finish|]. intros [] w4 H4. by rewrite wp_ret.
Qed.
End Rule.

(** The stages of a packet that comes in ([out] is 0) or goes out. *)
Definition of_direction (out : Z) (e : event) : Prop :=
  match e with
  | VerifySrc | NatIn | AcctIn | SendIcmp _ | SendReset | AuthCapture | Fastroute false None => out = 0
  | AcctOut | NatOut | UpdateIpid => out <> 0
  | _ => True
  end.

Section Directions.
Context {E : Type} `{filter_env E} `{check_env E} (be : bool) {B : build} (fuel : nat) (c : softc).
Context (out : Z).
Local Abbreviation D := (emits (E := E) (of_direction out)).

Ltac direction := unfold when_; destruct (Z.eqb_spec out 0) as [?|?]; cbn [negb andb orb]; emit.

Lemma dir_entry v hlen : D (check_entry be c v hlen).
Proof. unfold check_entry, set_reason. emit. Qed.
Lemma dir_source v : D (check_source c v out).
Proof. unfold check_source. direction. Qed.
Lemma dir_nat_in pass : D (nat_in out pass).
Proof. unfold nat_in. direction. Qed.
Lemma dir_known pass : D (known fuel c out pass).
Proof. unfold known. direction. Qed.
Lemma dir_nat_out v pass : D (nat_out be fuel c v out pass).
Proof. unfold nat_out, set_reason. direction. Qed.
Lemma dir_decide v : D (check_decide be fuel c v out).
Proof.
  unfold check_decide. pose proof dir_nat_in as H1. pose proof dir_known as H2.
  pose proof (dir_nat_out v) as H3. emit; first [apply H1|apply H2|apply H3|idtac].
  - unfold rules. emit.
  - unfold keep_state, set_reason. emit.
  - unfold set_dests. emit.
Qed.
Lemma dir_reroute pass : D (reroute out pass).
Proof.
  unfold reroute. apply keeps_bind; [apply emits_on|]. intros tif.
  destruct (Z.eqb_spec out 0) as [?|?]; cbn [negb andb orb].
  { destruct tif; emit. }
  destruct tif as [tif|]; [emit|]. intros w Hw. by rewrite wp_bind.
Qed.
Lemma dir_done fr pass : D (check_done c out fr pass).
Proof.
  unfold check_done. apply keeps_bind.
  { unfold check_log. emit. }
  intros p. apply keeps_bind.
  { unfold check_answer, answer, drop_packet, set_reason. direction. }
  intros ?. unfold duplicate. emit. apply dir_reroute.
Qed.
Lemma dir_check l ifp ipoff hlen : D (ipf_check be fuel c l ifp ipoff hlen out).
Proof.
  unfold ipf_check, check_body, check_finish. emit;
    first [apply dir_entry|apply dir_source|apply dir_decide|apply dir_done].
Qed.
End Directions.

(** C3. The order in which [ipf_check] asks the other components, for every packet,
    every configuration and whatever they answer: no stage runs twice, and they
    run in the order source check, inbound translation, authentication, inbound
    accounting, fragments, states, rules, new state, outbound accounting and
    translation, identifier, log, answer to the sender, hand-over to the
    authentication queue, undoing of a translation, copy, routing of the copy,
    routing of the packet, and freeing it.  What belongs to one direction runs in
    that direction only; in particular no ICMP error or TCP reset is sent for a
    packet that goes out, as the warning in the code asks. *)
Theorem check_stage_order {E} `{filter_env E} `{check_env E} be {B : build} fuel c l ifp ipoff hlen out y pass w' :
  ipf_check be fuel c l ifp ipoff hlen out (mk_ckw y []) = Some (pass, w') ->
  in_order (k_trace w') /\ Forall (of_direction out) (k_trace w').
Proof.
  intros Hrun. split.
  - assert (H1 : up_to 0 (mk_ckw y [])) by (split; constructor).
    by destruct (wlp_run _ _ _ _ _ (moves_check be fuel c l ifp ipoff hlen out _ H1) Hrun).
  - exact (wlp_run _ _ _ _ _ (dir_check be fuel c out l ifp ipoff hlen (mk_ckw y []) (List.Forall_nil _)) Hrun).
Qed.

(** ** Who gets the packet *)

(** The stages that take the packet away from the caller. *)
Definition takes (e : event) : bool :=
  match e with AuthCapture | Fastroute false _ | Free => true | _ => false end.
Definition untaken {E} (w : ckw E) : Prop := only (fun e => takes e = false) w.
Definition taken (t : list event) : nat := length (List.filter takes t).

Arguments taken : simpl never.
Lemma taken_app t e : taken (t ++ [e]) = (taken t + if takes e then 1 else 0)%nat.
Proof.
  unfold taken. rewrite List.filter_app, length_app. cbn [List.filter]. by destruct (takes e).
Qed.
Lemma untaken_0 {E} (w : ckw E) : untaken w -> taken (k_trace w) = O.
Proof.
  unfold untaken, only, taken. induction 1 as [|e t He _ IH]; [done|]. cbn. by rewrite He.
Qed.

Section Owner.
Context {E : Type} `{filter_env E} `{check_env E} (be : bool) {B : build} (fuel : nat) (c : softc).
Local Abbreviation U := (keeps (untaken (E := E))).

Lemma untaken_entry v hlen : U (check_entry be c v hlen).
Proof. unfold check_entry, set_reason, untaken. emit. Qed.
Lemma untaken_source v out : U (check_source c v out).
Proof. unfold check_source, when_, untaken. emit. Qed.
Lemma untaken_decide v out : U (check_decide be fuel c v out).
Proof.
  unfold check_decide, nat_in, known, rules, keep_state, set_dests, nat_out, set_reason, untaken. emit.
Qed.
Lemma untaken_answer out pass : FR_ISAUTH pass = false -> U (check_answer out pass).
Proof.
  intros Ha. unfold check_answer, answer, untaken. rewrite Ha. cbn [andb when_]. emit.
Qed.
Lemma untaken_duplicate : U duplicate.
Proof. unfold duplicate, untaken. emit. Qed.

(** Nothing took the packet, or rerouting did and [*mp] is null. *)
Definition held_or_sent (w : ckw E) : Prop :=
  untaken w \/ (taken (k_trace w) = 1%nat /\ y_mp (k_sys w) = false /\ Free ∉ k_trace w).

Lemma untaken_no_free (w : ckw E) : untaken w -> Free ∉ k_trace w.
Proof. intros Hw Hin. unfold untaken, only in Hw. rewrite Forall_forall in Hw. by specialize (Hw _ Hin). Qed.

Lemma wlp_send (to : option fdref) w : untaken w ->
  wlp (stage (Fastroute false to) (k_fastroute false to);;
       on (modify (fun y => y <| y_mp := false |>))) (fun _ => held_or_sent) w.
Proof.
  intros Hw. unfold stage, note. rewrite !wp_bind, wp_modify. unfold on at 1, wpg at 1. cbn.
  destruct (k_fastroute false to (k_sys w)) as [[[] y]|]; [|done]. cbn. right. cbn.
  rewrite taken_app, untaken_0 by done. split_and!; [done|done|].
  intros [Hin|Hin]%elem_of_app; [by apply (untaken_no_free w)|]. by apply list_elem_of_singleton in Hin.
Qed.

Lemma wlp_reroute out pass w : untaken w -> wlp (reroute out pass) (fun _ => held_or_sent) w.
Proof.
  intros Hw. unfold reroute, look. rewrite wp_bind. unfold on at 1, gets, wpg at 1.
  destruct ((out =? 0) && has pass FR_FASTROUTE); [by apply wlp_send|].
  rewrite wp_bind. unfold on at 1, wpg at 1. cbn.
  destruct (dest (y_tif (k_sys w)) (k_sys w)) as [[fd y]|]; [|done].
  destruct (usable fd); [by apply wlp_send|by left].
Qed.

Lemma wlp_done out fr pass w : untaken w ->
  wlp (check_done c out fr pass) (fun p w' => FR_ISAUTH p = false -> held_or_sent w') w.
Proof.
  intros Hw. unfold check_done. rewrite wp_bind.
  eapply wp_mono with (Q := fun _ => untaken).
  { revert w Hw. change (U (check_log c pass)). unfold check_log, untaken. emit. }
  clear w Hw. intros p w Hw. rewrite wp_bind. destruct (FR_ISAUTH p) eqn:Ha.
  { eapply wp_mono; [apply wlp_any|]. intros ? ? _. rewrite wp_bind.
    eapply wp_mono; [apply wlp_any|]. intros ? ? _. by rewrite wp_ret, Ha. }
  eapply wp_mono; [by apply untaken_answer|]. intros [] w1 H1. rewrite wp_bind.
  apply wp_when; intros _; [|by left].
  rewrite wp_bind. eapply wp_mono; [by apply untaken_duplicate|]. intros [] w2 H2.
  eapply wp_mono; [by apply wlp_reroute|]. intros [] w3 H3. by rewrite wp_ret.
Qed.

(** How [ipf_check] leaves the packet. *)
Definition disposed (pass : Z) (w : ckw E) : Prop :=
  (taken (k_trace w) <= 1)%nat /\ (y_mp (k_sys w) = true -> FR_ISPASS pass = true /\ taken (k_trace w) = O) /\
  (FR_ISPASS pass = true -> Free ∉ k_trace w).

Lemma wlp_finish pass w : held_or_sent w -> wlp (check_finish pass) (fun _ => disposed pass) w.
Proof.
  intros Hw. unfold check_finish. rewrite wp_bind. unfold look, on, gets. unfold wpg at 1.
  assert (He : w <| k_sys := k_sys w |> = w) by (by destruct w). rewrite He.
  assert (Hfree : Free ∉ k_trace w).
  { destruct Hw as [Hw|(_ & _ & Hw)]; [by apply untaken_no_free|done]. }
  apply wp_when; intros Hc.
  - breflect. destruct Hw as [Hw|(_ & Hm & _)]; [|congruence]. rewrite wp_bind. unfold wpg, when_.
    destruct is_kernel; cbn; unfold disposed; cbn; rewrite ?taken_app, untaken_0 by done; cbn;
      (split_and!; [lia|done|congruence]).
  - apply andb_false_iff in Hc. destruct Hw as [Hw|(Ht & Hm & Hf)].
    + split_and!; [rewrite untaken_0 by done; lia| |done]. intros Hm. split; [|by apply untaken_0].
      destruct Hc as [Hc|Hc]; [by apply negb_false_iff|congruence].
    + split_and!; [lia|congruence|done].
Qed.
End Owner.

(** C4. What becomes of the packet that [ipf_check] is called with, unless it is to be
    authorised by a user ([FR_AUTH]), for every configuration and whatever the
    other components answer.  At most one of rerouting and freeing takes it; the
    caller gets it back ([*mp] is not null) only when the decision is to pass it
    and nothing took it; and a packet that is passed is never freed. *)
Theorem check_disposes_once {E} `{filter_env E} `{check_env E} be {B : build} fuel c l ifp ipoff hlen out y pass w' :
  is_kernel && (ipf_running c <=? 0) = false ->
  ipf_check be fuel c l ifp ipoff hlen out (mk_ckw y []) = Some (pass, w') ->
  FR_ISAUTH pass = false ->
  (taken (k_trace w') <= 1)%nat /\
  (y_mp (k_sys w') = true -> FR_ISPASS pass = true /\ taken (k_trace w') = O) /\
  (FR_ISPASS pass = true -> Free ∉ k_trace w').
Proof.
  intros Hon. apply (wlp_run _ (fun pass w' => FR_ISAUTH pass = false -> disposed pass w')).
  apply (check_rule _ _ _ (fun e => takes e = false) (fun _ => untaken)
    (fun p w => FR_ISAUTH p = false -> held_or_sent w)); [done|by left| | | |done|constructor].
  - intros v out' w Hw. by apply untaken_decide.
  - intros out' fr p w Hw. by apply wlp_done.
  - intros p w Hw. destruct (FR_ISAUTH p).
    + eapply wp_mono; [apply wlp_any|done].
    + eapply wp_mono; [by apply wlp_finish, Hw|done].
Qed.

(** ** Failing closed *)

Lemma to_block_cmd p : Z.land (to_block p) FR_CMDMASK = FR_BLOCK.
Proof.
  unfold to_block, clear. by rewrite Z.land_lor_distr_l, Z.land_ldiff.
Qed.
Lemma to_block_not_pass p : FR_ISPASS (to_block p) = false.
Proof. unfold FR_ISPASS. by rewrite to_block_cmd. Qed.

Lemma cmd_lor p m : Z.land m FR_CMDMASK = 0 -> Z.land (Z.lor p m) FR_CMDMASK = Z.land p FR_CMDMASK.
Proof. intros Hm. by rewrite Z.land_lor_distr_l, Hm, Z.lor_0_r. Qed.
Lemma log_pass_cmd flags p p' : log_pass flags p = Some p' -> Z.land p' FR_CMDMASK = Z.land p FR_CMDMASK.
Proof.
  unfold log_pass. intros Hl. split_ifs; simplify_eq; try done; by apply cmd_lor.
Qed.
Lemma log_pass_pass flags p p' : log_pass flags p = Some p' -> FR_ISPASS p' = FR_ISPASS p.
Proof. intros Hl. unfold FR_ISPASS. by rewrite (log_pass_cmd _ _ _ Hl). Qed.
Lemma pass_logmask p : FR_ISPASS p = true -> has p FR_LOGMASK = true.
Proof.
  unfold FR_ISPASS. intros Hp%Z.eqb_eq. unfold FR_LOGMASK. apply has_true. intros E0.
  rewrite Z.land_lor_distr_r in E0. apply Z.lor_eq_0_iff in E0 as [_ E0]. by rewrite E0 in Hp.
Qed.

Section Closed.
Context {E : Type} `{filter_env E} `{check_env E} (be : bool) {B : build} (fuel : nat) (c : softc).

(** No state was asked for, or the packet is not to pass. *)
Definition not_added (w : ckw E) : Prop := only (fun e => e <> StateAdd) w.
Definition closed (p : Z) (w : ckw E) : Prop := FR_ISPASS p = true -> not_added w.
Context (no_state : forall y r y', k_state_add y = Some (r, y') -> r <> 0).

Lemma closed_then {A} (m : ST (ckw E) A) p w : keeps not_added m -> closed p w -> wlp m (fun _ => closed p) w.
Proof.
  intros Hm Hc. unfold closed in *. destruct (FR_ISPASS p); [|eapply wp_mono; [apply wlp_any|done]].
  eapply wp_mono; [apply Hm, Hc; done|]. done.
Qed.

Lemma closed_keep_state p w : not_added w -> wlp (keep_state p) closed w.
Proof.
  intros Hw. unfold keep_state. rewrite wp_bind. eapply wp_mono; [apply (emits_on _ _ _ Hw)|]. intros y w1 H1.
  destruct (_ && _); [|rewrite wp_ret; intros _; exact H1]. rewrite wp_bind. unfold stage. rewrite wp_bind. unfold note.
  rewrite wp_modify. unfold wpg at 1, on. cbn.
  destruct (k_state_add (k_sys w1)) as [[r y']|] eqn:Ea; [|done]. apply no_state in Ea.
  rewrite (proj2 (Z.eqb_neq _ _) Ea). cbn [orb]. destruct (FR_ISPASS p) eqn:Hp; cbn [negb].
  - rewrite wp_bind. eapply wp_mono; [apply wlp_any|]. intros ? ? _. rewrite wp_ret. unfold closed.
    by rewrite to_block_not_pass.
  - rewrite wp_ret. unfold closed. by rewrite Hp.
Qed.

Lemma closed_nat_out v out p w : closed p w -> wlp (nat_out be fuel c v out p) closed w.
Proof.
  intros Hw. destruct (FR_ISPASS p) eqn:Hp.
  - assert (Hk : keeps not_added (nat_out be fuel c v out p))
      by (unfold nat_out, set_reason, not_added; emit).
    eapply wp_mono; [apply Hk; auto|]. by intros p' w' Hn _.
  - unfold nat_out. by rewrite Hp, orb_true_r, wp_ret.
Qed.

Lemma unadded_nat_in out p : keeps not_added (nat_in out p).
Proof. unfold nat_in, not_added. emit. Qed.
Lemma unadded_known out p : keeps not_added (known fuel c out p).
Proof. unfold known, not_added. emit. Qed.
Lemma unadded_rules fr p : keeps not_added (rules fuel c fr p).
Proof. unfold rules, not_added. emit. Qed.

Lemma closed_decide v out w : not_added w ->
  wlp (check_decide be fuel c v out) (fun r => closed (snd r)) w.
Proof.
  intros Hw. unfold check_decide. rewrite wp_bind.
  eapply wp_mono; [by apply unadded_nat_in|].
  intros [rv p] w1 H1. destruct (rv =? -1); [rewrite wp_ret; intros _; exact H1|]. rewrite wp_bind.
  eapply wp_mono; [by apply unadded_known|].
  intros [fr p1] w2 H2. rewrite wp_bind.
  eapply wp_mono; [by apply unadded_rules|].
  intros [fr' p2] w3 H3. rewrite wp_bind. eapply wp_mono; [by apply closed_keep_state|].
  intros p3 w4 H4. rewrite wp_bind. eapply wp_mono.
  { apply (closed_then _ p3); [unfold set_dests, not_added; emit|done]. }
  intros [] w5 H5. rewrite wp_bind. eapply wp_mono; [by apply closed_nat_out|].
  intros p4 w6 H6. by rewrite wp_ret.
Qed.

Lemma closed_log p w : closed p w -> wlp (check_log c p) closed w.
Proof.
  intros Hw. destruct (FR_ISPASS p) eqn:Hp.
  { assert (Hk : keeps not_added (check_log c p)) by (unfold check_log, not_added; emit).
    eapply wp_mono; [apply Hk; auto|]. by intros p' w' Hn _. }
  unfold check_log. destruct (_ || _); [|by rewrite wp_ret]. unfold stage. rewrite wp_bind. unfold note.
  rewrite wp_modify. unfold on, ipf_dolog. destruct (log_pass (ipf_flags c) p) as [p'|] eqn:El; cycle 1.
  { unfold closed. cbn. by rewrite Hp. }
  apply log_pass_pass in El. rewrite Hp in El. unfold wpg. cbn [k_sys]. unfold mbind, st_bind.
  destruct (k_log_pkt p' _) as [[r y']|]; [|done]. rewrite El, andb_false_r. cbn. unfold closed. by rewrite El.
Qed.

Lemma closed_done out fr p w : closed p w -> wlp (check_done c out fr p) closed w.
Proof.
  intros Hw. unfold check_done. rewrite wp_bind. eapply wp_mono; [by apply closed_log|].
  intros p' w1 H1. rewrite wp_bind. eapply wp_mono.
  { apply (closed_then _ p'); [unfold check_answer, answer, drop_packet, set_reason, not_added; emit|done]. }
  intros [] w2 H2. rewrite wp_bind. eapply wp_mono.
  { apply (closed_then _ p'); [unfold duplicate, reroute, not_added; emit|done]. }
  intros [] w3 H3. by rewrite wp_ret.
Qed.

Lemma closed_finish p w : closed p w -> wlp (check_finish p) (fun _ => closed p) w.
Proof. apply closed_then. unfold check_finish, not_added. emit. Qed.
End Closed.

Section Logged.
Context {E : Type} `{filter_env E} `{check_env E} (be : bool) {B : build} (fuel : nat) (c : softc).
Context (log_fails : forall p y r y', k_log_pkt p y = Some (r, y') -> r = -1).

(** The packet was not logged, or there was nothing to log, or "or-block" is not
    asked for. *)
Definition or_block (p : Z) : Prop :=
  FR_ISPASS p = true -> has p FR_LOGORBLOCK = true -> log_pass (ipf_flags c) p = None.
Definition unlogged (w : ckw E) : Prop := only (fun e => e <> Log) w.

Lemma or_block_log p w : unlogged w -> wlp (check_log c p) (fun p w => unlogged w \/ or_block p) w.
Proof.
  intros Hw. unfold check_log. destruct (_ || _); [|by left]. unfold stage. rewrite wp_bind. unfold note.
  rewrite wp_modify. unfold on, ipf_dolog. destruct (log_pass (ipf_flags c) p) as [p'|] eqn:El; cycle 1.
  { cbn. right. intros _ _. exact El. }
  unfold wpg. cbn [k_sys]. unfold mbind, st_bind.
  destruct (k_log_pkt p' _) as [[r y']|] eqn:Er; [|done]. apply log_fails in Er as ->. cbn [Z.eqb].
  destruct (has p' FR_LOGORBLOCK) eqn:Ho, (FR_ISPASS p') eqn:Hp; cbn; right; intros Hp' Ho'; try congruence.
  by rewrite to_block_not_pass in Hp'.
Qed.

(** What follows the log. *)
Definition logged (p : Z) (w : ckw E) : Prop := unlogged w \/ or_block p.
Lemma logged_then {A} (m : ST (ckw E) A) p w : keeps unlogged m -> logged p w -> wlp m (fun _ => logged p) w.
Proof.
  intros Hm [Hu|Ho].
  - eapply wp_mono; [by apply Hm|]. intros; by left.
  - eapply wp_mono; [apply wlp_any|]. intros; by right.
Qed.
Lemma logged_done out fr p w : unlogged w -> wlp (check_done c out fr p) logged w.
Proof.
  intros Hw. unfold check_done. rewrite wp_bind. eapply wp_mono; [by apply or_block_log|].
  intros p' w1 H1. rewrite wp_bind. eapply wp_mono.
  { apply (logged_then _ p'); [unfold check_answer, answer, drop_packet, set_reason, unlogged; emit|exact H1]. }
  intros [] w2 H2. rewrite wp_bind. eapply wp_mono.
  { apply (logged_then _ p'); [unfold duplicate, reroute, unlogged; emit|exact H2]. }
  intros [] w3 H3. by rewrite wp_ret.
Qed.
Lemma logged_finish p w : logged p w -> wlp (check_finish p) (fun _ => logged p) w.
Proof. apply logged_then. unfold check_finish, unlogged. emit. Qed.
Lemma unlogged_decide v out : keeps unlogged (check_decide be fuel c v out).
Proof.
  unfold check_decide, nat_in, known, rules, keep_state, set_dests, nat_out, set_reason, unlogged. emit.
Qed.
End Logged.

(** C5. Two promises that [ipf_check] keeps when another component fails.  When the
    state table takes no entry, a packet that passes is one for which [ipf_check] itself
    asked for none: after the rules it asks for every packet whose deciding rule keeps
    state and that has no state yet, and blocks it when that fails.  (A quick rule that
    keeps state asks during the scan; when that fails [ipf_scanlist] skips the rule, and a
    later one may pass the packet.)  When the log takes no record, a packet that is logged under
    "or-block" is never passed: a result that passes it is one for which nothing
    was to be logged. *)
Theorem check_fails_closed {E} `{filter_env E} `{check_env E} be {B : build} fuel c l ifp ipoff hlen out y pass w' :
  ipf_check be fuel c l ifp ipoff hlen out (mk_ckw y []) = Some (pass, w') -> FR_ISPASS pass = true ->
  ((forall y r y', k_state_add y = Some (r, y') -> r <> 0) -> StateAdd ∉ k_trace w') /\
  ((forall p y r y', k_log_pkt p y = Some (r, y') -> r = -1) ->
    Log ∈ k_trace w' -> has pass FR_LOGORBLOCK = true -> log_pass (ipf_flags c) pass = None).
Proof.
  intros Hrun Hp. destruct (is_kernel && (ipf_running c <=? 0)) eqn:Hon.
  { unfold ipf_check in Hrun. rewrite Hon in Hrun. by injection Hrun as <- _. }
  split.
  - intros Hadd. assert (Hc : closed pass w').
    { apply (wlp_run _ _ _ _ _ (check_rule be fuel c (fun e => e <> StateAdd) closed closed closed
        ltac:(done) ltac:(by intros ?? Hw _) (fun v o => closed_decide be fuel c Hadd v o)
        (closed_done c) closed_finish l ifp ipoff hlen out (mk_ckw y []) Hon ltac:(constructor)) Hrun). }
    specialize (Hc Hp). unfold not_added, only in Hc. rewrite Forall_forall in Hc. intros Hin. by apply (Hc _ Hin).
  - intros Hlog Hin Ho. assert (Hc : logged c pass w').
    { apply (wlp_run _ _ _ _ _ (check_rule be fuel c (fun e => e <> Log) (fun _ => unlogged) (logged c) (logged c)
        ltac:(done) ltac:(by left) (fun v o => unlogged_decide be fuel c v o)
        (logged_done c Hlog) (logged_finish c) l ifp ipoff hlen out (mk_ckw y []) Hon ltac:(constructor)) Hrun). }
    destruct Hc as [Hu|Hc]; [|by apply Hc].
    unfold unlogged, only in Hu. rewrite Forall_forall in Hu. by destruct (Hu _ Hin).
Qed.

(** ** The identifier *)

(** [CALC_SUMD] on two [u_short]: also when the first is larger and the second 0,
    where the macro's decrement wraps at 16 bits. *)
Lemma CALC_SUMD_u16 s1 s2 : is_u16 s1 -> is_u16 s2 ->
  CALC_SUMD u16 s1 s2 ≡ₒ s2 - s1 /\ 0 <= CALC_SUMD u16 s1 s2 <= 131069.
Proof.
  intros H1 H2. unfold CALC_SUMD.
  assert (Hf : forall s, is_u16 s -> u16 (Z.land s 65535 + Z.shiftr s 16) = s).
  { intros s Hs. rewrite fold_step'. unfold is_u16, u16 in *. dlia. }
  rewrite !Hf by (done || apply u16_range). rewrite fold_step'. unfold is_u16 in *. destruct (Z.gtb_spec s1 s2).
  - destruct (Z.eqb_spec s2 0) as [->|].
    + change (u16 (0 - 1)) with 65535. rewrite (u32_id (65535 - s1)) by (unfold is_u32; lia).
      rewrite u32_id by (unfold is_u32; dlia). split; [apply (eqm_of _ _ 1); dlia|dlia].
    + rewrite u16_id by (unfold is_u16; lia).
      assert (E : u32 (s2 - 1 - s1) = s2 - 1 - s1 + 2 ^ 32).
      { unfold u32. rewrite <- (Z_mod_plus_full _ 1), Z.mod_small; lia. }
      rewrite E, u32_id by (unfold is_u32; dlia). split; [apply (eqm_of _ _ 2); dlia|dlia].
  - rewrite (u32_id (s2 - s1)) by (unfold is_u32; lia). rewrite u32_id by (unfold is_u32; dlia).
    split; [apply (eqm_of _ _ 0); dlia|dlia].
Qed.

(** The new checksum in place of the old. *)
Definition ipid_sum (be : bool) (sp ido id : Z) : Z :=
  fix_tail be (u32 (Z.land (Z.lnot (ntohs be sp)) 0xffff + CALC_SUMD u16 ido id)).

Lemma ipid_sum_sound be rest sp ido id : is_u16 sp -> is_u16 ido -> is_u16 id ->
  rest + htons be id + ipid_sum be sp ido id ≡ₒ rest + htons be ido + sp.
Proof.
  intros Hs Ho Hi. destruct (CALC_SUMD_u16 ido id Ho Hi) as [Ed Hd]. unfold ipid_sum.
  pose proof (ntohs_u16 be sp) as Hu. rewrite land_lnot_u16 by done. unfold is_u16 in Hu.
  set (x := 65535 - ntohs be sp + CALC_SUMD u16 ido id). assert (Hx : is_u32 x) by (unfold is_u32, x; lia).
  rewrite (u32_id x) by done. unfold htons. rewrite !ntohs_eqm by done.
  rewrite <- (unit_ntohs be (fix_tail be x)) by apply fix_tail_u16.
  rewrite <- (unit_ntohs be sp) by done. rewrite fix_tail_spec by done.
  rewrite eqm_lnot, fold2_eqm. unfold x. rewrite Ed. apply (eqm_of _ _ (- unit_of be)). lia.
Qed.

Lemma store16_htons be x : is_u16 x -> store16 be (htons be x) = (x / 256, x mod 256).
Proof.
  unfold is_u16, store16, htons, ntohs, swap16. intros Hx. rewrite u16_id by done.
  destruct be; f_equal; dlia.
Qed.
Lemma load_store16 be x : is_u16 x ->
  exists b0 b1, store16 be x = (b0, b1) /\ is_u8 b0 /\ is_u8 b1 /\ load16 be b0 b1 = x.
Proof.
  unfold is_u16, is_u8, store16, load16. intros Hx. destruct be; do 2 eexists; split_and!; try done; dlia.
Qed.

(** The first twelve bytes of a header of IPv4 in reach. *)
Definition ip_start (s : pst) (h : list Z) : Prop :=
  ps_freed s = false /\ 12 + fin_ipoff (ps_fin s) <= ps_len s /\ ps_bytes s = h.
Lemma start_read16 be s h i b0 b1 : ip_start s h -> Forall is_u8 h -> 0 <= i <= 10 ->
  h !! Z.to_nat i = Some b0 -> h !! Z.to_nat (i + 1) = Some b1 -> read16 be i s = Some (load16 be b0 b1, s).
Proof.
  intros (Hf & Hl & Hb) Hu Hi E0 E1.
  assert (Hr : forall j b, 0 <= j <= 11 -> h !! Z.to_nat j = Some b -> read8 j s = Some (b, s)).
  { intros j b Hj E. unfold read8, rd8. rewrite Hf, Hb, (proj2 (Z.leb_gt _ _)) by lia. cbn [orb].
    rewrite (proj2 (Z.ltb_ge _ _)) by lia. rewrite E. rewrite u8_id; [done|]. by eapply Forall_lookup_1. }
  unfold read16. rewrite (bind_eq _ _ _ b0 s) by (apply Hr; [lia|done]).
  by rewrite (bind_eq _ _ _ b1 s) by (apply Hr; [lia|done]).
Qed.
Lemma start_write16 be s h i b0 b1 x c0 c1 : ip_start s h -> Forall is_u8 h -> 0 <= i <= 10 ->
  h !! Z.to_nat i = Some b0 -> h !! Z.to_nat (i + 1) = Some b1 -> store16 be x = (c0, c1) ->
  write16 be i x s = Some (tt, s <| ps_bytes := <[Z.to_nat (i + 1) := c1]> (<[Z.to_nat i := c0]> h) |>).
Proof.
  intros Hs Hu Hi E0 E1 Ex. unfold write16.
  rewrite (bind_eq _ _ _ _ _ (start_read16 be s h i b0 b1 Hs Hu Hi E0 E1)), Ex.
  destruct Hs as (_ & _ & <-). done.
Qed.

Section PutIpid.
Context (be : bool) (v t l0 l1 i0 i1 o0 o1 ttl p c0 c1 : Z) (opts rest : list Z) (id : Z).
(** The packet with the two fields [j] and [k]. *)
Definition ip_packet (j k : Z * Z) : list Z :=
  [v; t; l0; l1; fst j; snd j; o0; o1; ttl; p; fst k; snd k] ++ opts ++ rest.
(** The 16-bit words of its header. *)
Definition ip_header (j k : Z * Z) : list Z :=
  words_of be ([v; t; l0; l1; fst j; snd j; o0; o1; ttl; p; fst k; snd k] ++ opts).
Local Abbreviation j := (i0, i1).
Local Abbreviation k := (c0, c1).
Context (Hbytes : Forall is_u8 (ip_packet j k)) (Hid : is_u16 id).

Lemma ip_bytes : is_u8 i0 /\ is_u8 i1 /\ is_u8 c0 /\ is_u8 c1.
Proof.
  unfold ip_packet in Hbytes. cbn [app fst snd] in Hbytes.
  split_and!; (eapply Forall_lookup_1; [exact Hbytes|]);
    [by instantiate (1 := 4%nat)|by instantiate (1 := 5%nat)|by instantiate (1 := 10%nat)|by instantiate (1 := 11%nat)].
Qed.

Lemma header_total j' k' : wsum (ip_header j' k') =
  (load16 be v t + load16 be l0 l1 + load16 be o0 o1 + load16 be ttl p + wsum (words_of be opts)) +
  load16 be (fst j') (snd j') + load16 be (fst k') (snd k').
Proof. unfold ip_header. cbn [app words_of wsum fold_right]. unfold wsum. lia. Qed.

Lemma put_ipid_run s : ip_start s (ip_packet j k) ->
  exists k', put_ipid be id s = Some (tt, s <| ps_bytes := ip_packet (id / 256, id mod 256) k' |>) /\
    is_u8 (fst k') /\ is_u8 (snd k') /\
    (verifies (wsum (ip_header j k)) -> verifies (wsum (ip_header (id / 256, id mod 256) k'))).
Proof.
  intros Hs. destruct ip_bytes as (Hi0 & Hi1 & Hc0 & Hc1). unfold put_ipid.
  rewrite (bind_eq _ _ _ _ _ (start_read16 be s _ 4 i0 i1 Hs Hbytes ltac:(lia) eq_refl eq_refl)).
  rewrite ntohs_load16 by done. destruct (Z.eqb_spec id (i0 * 256 + i1)) as [E|Hne].
  - exists k. unfold is_u8 in Hi0, Hi1. replace (id / 256) with i0 by dlia. replace (id mod 256) with i1 by dlia.
    split_and!; [|done..]. destruct Hs as (_ & _ & Hb). unfold mret, st_ret. do 2 f_equal. rewrite <- Hb. by destruct s.
  - rewrite (bind_eq _ _ _ _ _ (start_write16 be s _ 4 i0 i1 (htons be id) _ _ Hs Hbytes ltac:(lia) eq_refl eq_refl
      (store16_htons be id Hid))).
    set (s1 := s <| ps_bytes := _ |>).
    assert (H1 : ip_start s1 (ip_packet (id / 256, id mod 256) k)).
    { destruct Hs as (? & ? & ?). by split_and!. }
    assert (Hu1 : Forall is_u8 (ip_packet (id / 256, id mod 256) k)).
    { change (Forall is_u8 (<[5%nat := id mod 256]> (<[4%nat := id / 256]> (ip_packet j k)))).
      unfold is_u16 in Hid.
      apply Forall_insert; [apply Forall_insert; [exact Hbytes|]|]; unfold is_u8; dlia. }
    rewrite (bind_eq _ _ _ _ _ (start_read16 be s1 _ 10 c0 c1 H1 Hu1 ltac:(lia) eq_refl eq_refl)).
    set (sp := load16 be c0 c1). set (ido := i0 * 256 + i1) in *.
    change (exists k', write16 be 10 (ipid_sum be sp ido id) s1 =
      Some (tt, s <| ps_bytes := ip_packet (id / 256, id mod 256) k' |>) /\ is_u8 (fst k') /\ is_u8 (snd k') /\
      (verifies (wsum (ip_header j k)) -> verifies (wsum (ip_header (id / 256, id mod 256) k')))).
    destruct (load_store16 be (ipid_sum be sp ido id)) as (c0' & c1' & Ec & Hc0' & Hc1' & El); [apply fix_tail_u16|].
    exists (c0', c1'). rewrite (start_write16 be s1 _ 10 c0 c1 _ _ _ H1 Hu1 ltac:(lia) eq_refl eq_refl Ec).
    split_and!; [done..|]. cbn [fst snd]. rewrite !header_total. cbn [fst snd]. rewrite El.
    assert (Eo : load16 be i0 i1 = htons be ido).
    { unfold htons, ido. rewrite <- (ntohs_load16 be) by done. rewrite ntohs_ntohs; [done|]. by apply load16_u16. }
    assert (En : load16 be (id / 256) (id mod 256) = htons be id).
    { unfold is_u16 in Hid. unfold htons. rewrite <- (ntohs_ntohs be (load16 be _ _)) by (apply load16_u16; unfold is_u8; dlia).
      rewrite ntohs_load16 by (unfold is_u8; dlia). f_equal. dlia. }
    rewrite Eo, En. unfold sp. rewrite ipid_sum_sound; [done|by apply load16_u16| |done].
    unfold ido, is_u16, is_u8 in *. lia.
Qed.
End PutIpid.

(** [ipf_updateipid] on an IPv4 packet for which there is an identifier: exactly the
    identifier and the checksum of the header change, the identifier becomes the
    new one in network byte order, and the header checksum stays valid, with or
    without options, in either byte order of the host.  When there is none, which
    is the case of a later fragment whose first one is not in the cache, the
    packet stays as it is and the result is -1. *)
Theorem updateipid_checksum {E} `{check_env E} be v t l0 l1 i0 i1 o0 o1 ttl p c0 c1 opts rest y r y1 :
  let packet := ip_packet v t l0 l1 o0 o1 ttl p opts rest in
  let header := ip_header be v t l0 l1 o0 o1 ttl p opts in
  new_ipid y = Some (r, y1) -> ip_start (y_pst y1) (packet (i0, i1) (c0, c1)) ->
  Forall is_u8 (packet (i0, i1) (c0, c1)) ->
  match r with
  | None => ipf_updateipid be y = Some (-1, y1)
  | Some id => is_u16 id ->
      exists k', ipf_updateipid be y =
        Some (0, y1 <| y_pst ::= fun s => s <| ps_bytes := packet (id / 256, id mod 256) k' |> |>) /\
        is_u8 (fst k') /\ is_u8 (snd k') /\
        (verifies (wsum (header (i0, i1) (c0, c1))) -> verifies (wsum (header (id / 256, id mod 256) k')))
  end.
Proof.
  intros packet header Er Hs Hu. unfold ipf_updateipid. rewrite (bind_eq _ _ _ _ _ Er).
  destruct r as [id|]; [|done]. intros Hid.
  destruct (put_ipid_run be v t l0 l1 i0 i1 o0 o1 ttl p c0 c1 opts rest id Hu Hid _ Hs) as (k' & Hr & Hk).
  exists k'. split; [|exact Hk]. unfold buf, mbind, st_bind. by rewrite Hr.
Qed.

(** ** Examples *)

(** Components that know nothing; [add] and [logged] are what adding a state and
    logging give. *)
Definition demo_components (add logged : Z) : check_env unit := {|
  k_verifysrc := mret true;
  k_nat_checkin pass := mret (0, pass); k_nat6_checkin pass := mret (0, pass);
  k_auth_check pass := mret (None, pass); k_frag_known pass := mret (None, pass);
  k_state_check pass := mret (None, pass);
  k_state_add := mret add;
  k_nat_checkout pass := mret (0, pass); k_nat6_checkout pass := mret (0, pass);
  k_frag_ipidknown := mret 0xffffffff; k_frag_ipidnew _ := mret 0; k_nextipid := mret 0x1234;
  k_log_pkt _ := mret logged;
  k_send_icmp_err _ := mret 0; k_send_reset := mret 0; k_nat_uncreate := mret tt;
  k_copy := mret true; k_fastroute _ _ := mret tt |}.

(** A TCP SYN from 10.0.0.1 to port 80 of 10.0.0.2. *)
Definition demo_syn : list Z :=
  [0x45; 0; 0; 40; 0; 1; 0; 0; 64; 6; 0x66; 0xcd; 10; 0; 0; 1; 10; 0; 0; 2;
   4; 0; 0; 80; 0; 0; 0; 1; 0; 0; 0; 0; 0x50; 2; 0x20; 0; 0x77; 0x8f; 0; 0].
(** Rule 1 decides on TCP to port 80. *)
Definition demo_sys (flags : Z) (dif : fdest) : sys unit :=
  mk_sys (mk_pst fin_zero true true false 40 demo_syn) true None None
    {[ 1%positive := demo_rule None None 0 0 80 flags <| fr_dif := dif |> ]} ∅ tt.
Definition demo_conf (flags : Z) : softc :=
  mk_softc 1 (Z.lor FR_PASS FR_NOMATCH) 0 4 1 flags 68 (fun _ => Some 1%positive) (fun _ => None).
Abbreviation demo_check add logged out flags dif :=
  (ipf_check (H0 := demo_components add logged) (B := user_build) false 16 (demo_conf 0)
    (mk_linkinfo false false false) None 0 20 out (mk_ckw (demo_sys flags dif) [])).

(** The run of a packet that is allowed in with state, logged and copied. *)
Definition demo_flags : Z := foldl Z.lor FR_PASS [FR_LOG; FR_KEEPSTATE; FR_LOGORBLOCK].
Example demo_in :
  (fun r => (fst r, k_trace (snd r), y_mp (k_sys (snd r)))) <$>
    demo_check 0 0 0 demo_flags (FdIfp 9%positive) =
  Some (demo_flags, [NatIn; AuthCheck; AcctIn; StateCheck; Firewall; StateAdd; Log; Copy;
                     Fastroute true (Some (RuleDif 1%positive))], true).
Proof. vm_compute. reflexivity. Qed.

Lemma check_stage_order_witness :
  match demo_check 0 0 0 demo_flags (FdIfp 9%positive) with
  | Some (_, w') => length (k_trace w') = 9%nat /\ in_order (k_trace w') /\ Forall (of_direction 0) (k_trace w')
  | None => False
  end.
Proof.
  pose proof demo_in as Hr. destruct (ipf_check _ _ _ _ _ _ _ _ _) as [[pass w']|] eqn:E; [|done].
  injection Hr as -> Ht _. split; [by rewrite Ht|].
  exact (check_stage_order (H0 := demo_components 0 0) (B := user_build) _ _ _ _ _ _ _ _ _ _ _ E).
Defined.

(** A packet that the rule sends to another interface: it is not freed as well. *)
Definition demo_block : Z := foldl Z.lor FR_BLOCK [FR_LOG; FR_FASTROUTE].
Lemma check_disposes_once_witness :
  match demo_check 0 0 0 demo_block FdNull with
  | Some (pass, w') =>
      k_trace w' = [NatIn; AuthCheck; AcctIn; StateCheck; Firewall; Log; Fastroute false None] /\
      (taken (k_trace w') <= 1)%nat /\
      (y_mp (k_sys w') = true -> FR_ISPASS pass = true /\ taken (k_trace w') = O) /\
      (FR_ISPASS pass = true -> Free ∉ k_trace w')
  | None => False
  end.
Proof.
  assert (Hr : (fun r => (fst r, k_trace (snd r))) <$> demo_check 0 0 0 demo_block FdNull =
    Some (demo_block, [NatIn; AuthCheck; AcctIn; StateCheck; Firewall; Log; Fastroute false None]))
    by (vm_compute; reflexivity).
  destruct (ipf_check _ _ _ _ _ _ _ _ _) as [[pass w']|] eqn:E; [|done]. injection Hr as -> Ht. split; [exact Ht|].
  exact (check_disposes_once (H0 := demo_components 0 0) (B := user_build) _ _ _ _ _ _ _ _ _ _ _ eq_refl E eq_refl).
Defined.

(** The state table is full, and nothing can be logged: the packet would pass. *)
Lemma check_fails_closed_witness :
  match demo_check (-1) (-1) 0 (Z.lor FR_PASS FR_LOGORBLOCK) FdNull with
  | Some (pass, w') => FR_ISPASS pass = true /\ StateAdd ∉ k_trace w' /\
      log_pass 0 pass = None
  | None => False
  end /\
  (fun r => FR_ISPASS (fst r)) <$> demo_check (-1) 0 0 (Z.lor FR_PASS FR_KEEPSTATE) FdNull = Some false /\
  (fun r => FR_ISPASS (fst r)) <$> demo_check 0 (-1) 0 demo_flags FdNull = Some false.
Proof.
  split; [|split; vm_compute; reflexivity].
  assert (Hr : (fun r => (fst r, k_trace (snd r))) <$> demo_check (-1) (-1) 0 (Z.lor FR_PASS FR_LOGORBLOCK) FdNull =
    Some (Z.lor FR_PASS FR_LOGORBLOCK, [NatIn; AuthCheck; AcctIn; StateCheck; Firewall; Log])) by (vm_compute; reflexivity).
  destruct (ipf_check _ _ _ _ _ _ _ _ _) as [[pass w']|] eqn:E; [|done]. injection Hr as -> Ht.
  destruct (check_fails_closed (H0 := demo_components (-1) (-1)) (B := user_build) _ _ _ _ _ _ _ _ _ _ _ E eq_refl)
    as [Hadd Hlog].
  split_and!; [done| |].
  - apply Hadd. by intros y' r y'' [= <- _].
  - apply Hlog; [by intros p y' r y'' [= <- _]| |done]. rewrite Ht. by do 5 right; left.
Defined.

Lemma updateipid_checksum_witness :
  let h := ip_packet 0x45 0 0 40 0 0 64 6 [10; 0; 0; 1; 10; 0; 0; 2] (drop 20 demo_syn) in
  verifies (wsum (ip_header false 0x45 0 0 40 0 0 64 6 [10; 0; 0; 1; 10; 0; 0; 2] (0, 1) (0x66, 0xcd))) /\
  exists k', ipf_updateipid (H0 := demo_components 0 0) false (demo_sys 0 FdNull) =
    Some (0, demo_sys 0 FdNull <| y_pst ::= fun s => s <| ps_bytes := h (0x12, 0x34) k' |> |>) /\
    verifies (wsum (ip_header false 0x45 0 0 40 0 0 64 6 [10; 0; 0; 1; 10; 0; 0; 2] (0x12, 0x34) k')).
Proof.
  intros h. split; [by vm_compute|].
  destruct (updateipid_checksum (H := demo_components 0 0) false 0x45 0 0 40 0 1 0 0 64 6 0x66 0xcd
    [10; 0; 0; 1; 10; 0; 0; 2] (drop 20 demo_syn) (demo_sys 0 FdNull) (Some 0x1234) (demo_sys 0 FdNull))
    as (k' & Hr & _ & _ & Hv); [reflexivity| |by apply bytes_ok| |].
  - split_and!; [done|vm_compute; congruence|done].
  - vm_compute. split; congruence.
  - exists k'. split; [exact Hr|]. apply Hv. by vm_compute.
Defined.

(** ** Packets handed over for authorisation *)

Lemma cmd_auth p : FR_ISAUTH p = true -> FR_ISPASS p = false /\ FR_ISBLOCK p = false.
Proof. unfold FR_ISAUTH, FR_ISPASS, FR_ISBLOCK. intros ->%Z.eqb_eq. done. Qed.

Lemma log_pass_auth flags p p' : log_pass flags p = Some p' -> FR_ISAUTH p = true -> has p FR_RETMASK = false ->
  FR_ISAUTH p' = true /\ has p' FR_RETMASK = false.
Proof.
  intros Hl Ha Hr. split; [unfold FR_ISAUTH in *; by rewrite (log_pass_cmd _ _ _ Hl)|].
  unfold log_pass in Hl. split_ifs; simplify_eq; try done; by rewrite has_lor, Hr.
Qed.

Section Auth.
Context {E : Type} `{check_env E} (c : softc).
(** Logging reads only. *)
Context (log_reads : forall p y r y', k_log_pkt p y = Some (r, y') -> y' = y).

Lemma auth_log p w p' w' : check_log c p w = Some (p', w') -> FR_ISAUTH p = true -> has p FR_RETMASK = false ->
  FR_ISAUTH p' = true /\ has p' FR_RETMASK = false /\ k_sys w' = k_sys w.
Proof.
  unfold check_log. destruct (_ || _); [|by intros [= <- <-]]. unfold stage, note, on, ipf_dolog, mbind, st_bind.
  cbn [modify]. intros Hrun Ha Hr. destruct (log_pass (ipf_flags c) p) as [p1|] eqn:El; [|by injection Hrun as <- <-].
  cbn in Hrun. destruct (k_log_pkt p1 (k_sys w)) as [[r y']|] eqn:Ek; [|done]. apply log_reads in Ek as ->.
  destruct (log_pass_auth _ _ _ El Ha Hr) as [Ha' Hr']. destruct (cmd_auth p1 Ha') as [Hp _].
  rewrite Hp, andb_false_r in Hrun. by injection Hrun as <- <-.
Qed.
End Auth.

(** A packet that [ipf_firewall] handed to the authentication queue ([fin_m] is
    null then) by a rule with "dup-to": [ipf_check] goes on to copy the packet
    for the second interface and applies [M_COPY] to the null pointer.  The
    comment says that such a packet is to be treated as dropped already. *)
Theorem auth_dup_faults {E} `{check_env E} c out x r pass w :
  (forall p y r y', k_log_pkt p y = Some (r, y') -> y' = y) ->
  ps_m (y_pst (k_sys w)) = false -> FR_ISAUTH pass = true -> has pass FR_RETMASK = false ->
  y_dif (k_sys w) = Some (RuleDif x) -> y_rules (k_sys w) !! x = Some r -> usable (fr_dif r) = true ->
  check_done c out (Some x) pass w = None.
Proof.
  intros Hlog Hm Ha Hr Hdif Hx Hu. unfold check_done, mbind at 1, st_bind at 1.
  destruct (check_log c pass w) as [[p' w']|] eqn:El; [|done].
  destruct (auth_log c Hlog _ _ _ _ El Ha Hr) as (Ha' & Hr' & Hk). destruct (cmd_auth p' Ha') as [_ Hb].
  destruct w' as [y' t']. cbn in Hk. subst y'. destruct w as [y t]. cbn [k_sys] in *.
  unfold check_answer. rewrite Hr', Hb. cbn [andb when_].
  rewrite bool_decide_eq_true_2 by done. cbn [when_].
  unfold duplicate, look, set_fin, on, buf, upd, modify, gets, mbind, st_bind, mret, st_ret. cbn.
  unfold dest, mbind, option_bind. cbn. rewrite Hdif, Hx, Hu. cbn. by rewrite Hm.
Qed.

(** The authentication queue takes the packet. *)
Definition auth_env : filter_env unit := {|
  env_lookup _ _ _ _ _ := -1; env_findgroup _ _ _ := None;
  env_func _ fin pass ext := (None, fin, pass, ext); env_log_pkt _ _ ext := (0, ext);
  env_state_add fin ext := (-1, fin, ext); env_decaps fin pass ext := (pass, fin, ext);
  env_auth_new fin ext := (1, fin, ext); env_auth_pre_scanlist fin pass ext := (pass, fin, ext);
  env_frag_new _ _ ext := (-1, ext); env_time _ := (5, 0) |}.
Abbreviation auth_check dif :=
  (ipf_check (H := auth_env) (H0 := demo_components 0 0) (B := user_build) false 16 (demo_conf 0)
    (mk_linkinfo false false false) None 0 20 0 (mk_ckw (demo_sys FR_AUTH dif) [])).
Definition auth_world : ckw unit :=
  mk_ckw (demo_sys FR_AUTH (FdIfp 9%positive) <| y_pst ::= fun s => s <| ps_m := false |> |> <| y_mp := false |>
    <| y_dif := Some (RuleDif 1%positive) |>) [Firewall].
Lemma auth_dup_faults_witness :
  check_done (H0 := demo_components 0 0) (demo_conf 0) 0 (Some 1%positive) FR_AUTH auth_world = None /\
  auth_check (FdIfp 9%positive) = None /\
  (fun r => (fst r, y_mp (k_sys (snd r)))) <$> auth_check FdNull = Some (FR_AUTH, false).
Proof.
  split; [|split; vm_compute; reflexivity].
  apply (auth_dup_faults (H := demo_components 0 0) (demo_conf 0) 0 1%positive
    (demo_rule None None 0 0 80 FR_AUTH <| fr_dif := FdIfp 9%positive |>) FR_AUTH auth_world); try reflexivity.
  by intros p y r y' [= _ <-].
Defined.
