(* ===== verification/State.v ===== *)
(** The state table of ip_state.c: the entries with their hash chains and list, how
    an entry enters and leaves the table, its timeout queue, expiry and flushing.
    Finding the entry of a packet is in StateLookup.v.

    Entries live on a heap.  A hash chain, or the list of all entries, is the
    sequence met by following [is_hnext] or [is_next]; that the back links
    [is_phnext] and [is_pnext] are not null is kept in a field of the entry.  The
    timeout entry inside a state entry has the location of the state entry, on the
    heap of Timeoutq.v.  Counters that only statistics read are left out. *)
From S2P Require Import Prelude Packet Cksum Timeoutq TcpAge Queues Sweeps TcpWindow.

(** ** Constants *)

Definition SI_W_SPORT : Z := 0x00000100.
Definition SI_W_DPORT : Z := 0x00000200.
Definition SI_WILDP : Z := Z.lor SI_W_SPORT SI_W_DPORT.
Definition SI_W_SADDR : Z := 0x00000400.
Definition SI_W_DADDR : Z := 0x00000800.
Definition SI_WILDA : Z := Z.lor SI_W_SADDR SI_W_DADDR.
Definition SI_NEWFR : Z := 0x00001000.
Definition SI_CLONE : Z := 0x00002000.
Definition SI_CLONED : Z := 0x00004000.
Definition IS_STATESYNC : Z := 0x100000.
Definition IS_INHERITED : Z := 0x0fffff00.

Definition ISL_NEW : Z := 0.
Definition ISL_CLONE : Z := 1.
Definition ISL_EXPIRE : Z := 0xffff.
Definition ISL_FLUSH : Z := 0xfffe.
Definition ISL_REMOVE : Z := 0xfffd.
Definition ISL_ORPHAN : Z := 0xfffa.
Definition ISL_UNLOAD : Z := 0xfff9.

(** ** Data *)

(** [icmpinfo_t]; the identifier and the sequence number as they are in the packet. *)
Record icmpinfo := mk_icmpinfo { ici_id : Z; ici_seq : Z; ici_type : Z }.
#[export] Instance tcpdata_eq_dec : EqDecision tcpdata.
Proof. solve_decision. Defined.
#[export] Instance icmpinfo_eq_dec : EqDecision icmpinfo.
Proof. solve_decision. Defined.
#[export] Instance eta_icmpinfo : Eta icmpinfo := fun r => mk_icmpinfo (ici_id r) (ici_seq r) (ici_type r).

(** [frdest_t]: empty, an interface, or a list of destinations. *)
Inductive frdest := FdNone | FdIf (ifp : loc) | FdDstlist (list : loc).

(** [ipstate_t].  [s_is] holds the fields that TcpWindow.v uses; the protocols of
    the union [is_ps] that overlay the ports are never used by one entry together.
    [is_hashed] and [is_listed] say that [is_phnext] and [is_pnext] are not null;
    [is_me] is the variable that [is_me] points at; [is_flx] is by direction and
    side; names are arrays of characters. *)
Record ips := mk_ips {
  s_is : ipstate; is_hashed : bool; is_listed : bool; is_me : option loc;
  is_ifp : list (option loc); is_ifname : list (list Z); is_sync : option loc; is_rule : option loc;
  is_tqehead : option loc * option loc;
  is_pkts : list Z; is_bytes : list Z; is_icmppkts : list Z;
  is_ref : Z; is_family : Z; is_hv : Z; is_tag : Z; is_opt : Z * Z; is_optmsk : Z * Z;
  is_sec : Z; is_secmsk : Z; is_auth : Z; is_authmsk : Z; is_icmp : icmpinfo;
  is_flx : (Z * Z) * (Z * Z); is_rulen : Z; is_group : list Z; is_dif : frdest; is_tifs : frdest * frdest }.
#[export] Instance eta_ips : Eta ips := fun r =>
  mk_ips (s_is r) (is_hashed r) (is_listed r) (is_me r) (is_ifp r) (is_ifname r) (is_sync r) (is_rule r)
    (is_tqehead r) (is_pkts r) (is_bytes r) (is_icmppkts r) (is_ref r) (is_family r) (is_hv r) (is_tag r)
    (is_opt r) (is_optmsk r) (is_sec r) (is_secmsk r) (is_auth r) (is_authmsk r) (is_icmp r) (is_flx r)
    (is_rulen r) (is_group r) (is_dif r) (is_tifs r).

(** The part of a rule that the state table uses.  [sr_ifnames] has, for each of
    [fr_ifnames], whether it is not -1 and the string found at that index of
    [fr_names]; [sr_group] is the string at [FR_NAME(fr, fr_group)]. *)
Record strule := mk_strule {
  sr_flags : Z; sr_ref : Z; sr_statemax : Z; sr_statecnt : Z; sr_age : Z * Z; sr_logtag : Z;
  sr_ifnames : list (bool * list Z); sr_ifas : list (option loc); sr_group : list Z; sr_icode : Z;
  sr_nattag : list Z; sr_icmpgrp : option (option loc); sr_max_nodes : Z; sr_tifs : frdest * frdest; sr_dif : frdest }.
#[export] Instance eta_strule : Eta strule := fun r =>
  mk_strule (sr_flags r) (sr_ref r) (sr_statemax r) (sr_statecnt r) (sr_age r) (sr_logtag r) (sr_ifnames r)
    (sr_ifas r) (sr_group r) (sr_icode r) (sr_nattag r) (sr_icmpgrp r) (sr_max_nodes r) (sr_tifs r)
    (sr_dif r).

(** What follows the IP header: the TCP header and the bytes after it, and what the
    first fields hold when the packet is UDP or ICMP; the ports and the identifier
    are in network order. *)
Record l4hdr := mk_l4hdr {
  l4_tcp : tcphdr; l4_opts : list Z; th_sport : Z; th_dport : Z; icmp_type : Z; icmp_id : Z }.
#[export] Instance eta_l4hdr : Eta l4hdr := fun r =>
  mk_l4hdr (l4_tcp r) (l4_opts r) (th_sport r) (th_dport r) (icmp_type r) (icmp_id r).

(** What [fin_dif] and [fin_tif] point to. *)
Inductive stdest := StDif (x : loc) | StTif (x : loc) (rev : Z).

(** The variables of [ipf_state_softc_t] that packets do not change, the addresses
    of its timeout queues, and [softc->ipf_flags]. *)
Record stconf := mk_stconf {
  ipf_state_size : Z; ipf_state_max : Z; ipf_state_maxbucket : Z; ipf_state_seed : Z -> Z;
  ipf_state_wm_freq : Z; ipf_state_wm_high : Z; ipf_state_wm_low : Z; ipf_state_logging : Z;
  ipf_state_tcptq : Z -> loc; ipf_state_deletetq : loc; ipf_state_pending : loc;
  ipf_state_udptq : loc; ipf_state_udpacktq : loc; ipf_state_iptq : loc;
  ipf_state_icmptq : loc; ipf_state_icmpacktq : loc; softc_ipf_flags : Z }.

(** The rest: the entries, the table, the counters that decisions depend on, the
    variables in which others keep pointers to entries ([is_me]), the rules, the
    packet under consideration, the state of what is called, and what the calls of
    [KMALLOC] for entries will return. *)
Record stw (E : Type) := mk_stw {
  sw_heap : tqheap; sw_states : gmap loc ips; sw_table : Z -> list loc; sw_list : list loc;
  sw_lock : Z; sw_doflush : Z; sw_wm_last : Z;
  iss_active : Z; iss_inuse : Z; iss_wild : Z; iss_orphan : Z; iss_bucketlen : Z -> Z; iss_active_proto : Z -> Z;
  sw_saved : gmap loc (option loc); sw_rules : gmap loc strule; sw_ticks : Z;
  sw_fin : fr_info; sw_pktnum : Z; sw_dif : option stdest; sw_tif : option stdest; sw_l4 : l4hdr; sw_ext : E;
  sw_allocs : list (option loc) }.
Arguments mk_stw {_}.
Arguments sw_heap {_}.
Arguments sw_states {_}.
Arguments sw_table {_}.
Arguments sw_list {_}.
Arguments sw_lock {_}.
Arguments sw_doflush {_}.
Arguments sw_wm_last {_}.
Arguments iss_active {_}.
Arguments iss_inuse {_}.
Arguments iss_wild {_}.
Arguments iss_orphan {_}.
Arguments iss_bucketlen {_}.
Arguments iss_active_proto {_}.
Arguments sw_saved {_}.
Arguments sw_rules {_}.
Arguments sw_ticks {_}.
Arguments sw_fin {_}.
Arguments sw_pktnum {_}.
Arguments sw_dif {_}.
Arguments sw_tif {_}.
Arguments sw_l4 {_}.
Arguments sw_ext {_}.
Arguments sw_allocs {_}.
#[export] Instance eta_stw {E} : Eta (stw E) := fun w =>
  mk_stw (sw_heap w) (sw_states w) (sw_table w) (sw_list w) (sw_lock w) (sw_doflush w) (sw_wm_last w)
    (iss_active w) (iss_inuse w) (iss_wild w) (iss_orphan w) (iss_bucketlen w) (iss_active_proto w) (sw_saved w)
    (sw_rules w) (sw_ticks w) (sw_fin w) (sw_pktnum w) (sw_dif w) (sw_tif w) (sw_l4 w) (sw_ext w) (sw_allocs w).

(** What the state table calls, over a state [E] of its own: interfaces, host
    tracking, synchronisation, logging, the fragment cache, lists of destinations,
    sequence numbers and lists of rules. *)
Class state_env (E : Type) := {
  env_resolvenic : E -> list Z -> Z -> option loc;
  (** [COPYIFNAME]: the name of an interface. *)
  env_ifname : E -> loc -> list Z;
  (** [ipf_ht_node_add] succeeds or not. *)
  env_ht_node_add : loc -> Z -> i6addr -> E -> bool * E;
  env_ht_node_del : loc -> Z -> i6addr -> E -> E;
  env_sync_new : loc -> fr_info -> E -> option loc * E;
  env_sync_update : loc -> fr_info -> E -> E;
  env_sync_del : loc -> E -> E;
  env_state_log : loc -> Z -> E -> E;
  env_frag_new : fr_info -> Z -> E -> E;
  (** [ipf_dstlist_select_node]: the destination chosen, if any. *)
  env_dstlist : loc -> fr_info -> E -> option frdest * E;
  env_newisn : E -> fr_info -> Z;
  env_scanlist : option loc -> fr_info -> E -> Z * fr_info * E }.

(** ** Arrays *)

Definition at4 {A} (d : A) (i : Z) (l : list A) : A := nth (Z.to_nat i) l d.
Definition set4 {A} (i : Z) (v : A) (l : list A) : list A := <[Z.to_nat i := v]> l.
(** [strncpy(dst, src, n)] for a string without its terminator. *)
Definition strncpy (n : nat) (src dst : list Z) : list Z := take n (src ++ replicate n 0) ++ drop n dst.

Definition hp {E A} (m : ST tqheap A) : ST (stw E) A := fun w =>
  '(a, h) ← m (sw_heap w); Some (a, w <| sw_heap := h |>).
#[export] Instance queued_state {E} : queued (stw E) := {
  on_queues := @hp E; tbl_heap := sw_heap; tbl_ticks := sw_ticks; tbl_active := iss_active }.

Section State.
Context {E : Type} `{state_env E} (cf : stconf).
Abbreviation W := (stw E).

(** ** Access *)

Definition st (x : loc) : ST W ips := fun w => e ← sw_states w !! x; Some (e, w).
Definition upd_st (x : loc) (f : ips -> ips) : ST W unit := fun w =>
  _ ← sw_states w !! x; Some (tt, w <| sw_states ::= alter f x |>).
Definition upd_is (x : loc) (f : ipstate -> ipstate) : ST W unit := upd_st x (fun e => e <| s_is ::= f |>).
Definition srule (r : loc) : ST W strule := fun w => e ← sw_rules w !! r; Some (e, w).
Definition upd_srule (r : loc) (f : strule -> strule) : ST W unit := fun w =>
  _ ← sw_rules w !! r; Some (tt, w <| sw_rules ::= alter f r |>).
Definition ext {A} (f : E -> A * E) : ST W A := fun w =>
  let '(a, e) := f (sw_ext w) in Some (a, w <| sw_ext := e |>).
Definition ext_ (f : E -> E) : ST W unit := modify (fun w => w <| sw_ext ::= f |>).
(** [KMALLOC] of an entry. *)
Definition kmalloc : ST W (option loc) := fun w =>
  match sw_allocs w with
  | [] => Some (None, w)
  | a :: l => Some (a, w <| sw_allocs := l |>)
  end.
Definition upd_sfin (f : fr_info -> fr_info) : ST W unit := modify (fun w => w <| sw_fin ::= f |>).

(** ** Entering the table *)

(** [ipf_state_setqueue]. *)
Definition default_queue (x : loc) (p rev : Z) : ST W loc :=
  if (p =? IPPROTO_ICMPV6) || (p =? IPPROTO_ICMP) then
    mret (if rev =? 1 then ipf_state_icmpacktq cf else ipf_state_icmptq cf)
  else if p =? IPPROTO_TCP then s ← hp (ent (tqe_state rev) x); mret (ipf_state_tcptq cf s)
  else if p =? IPPROTO_UDP then mret (if rev =? 1 then ipf_state_udpacktq cf else ipf_state_udptq cf)
  else mret (ipf_state_iptq cf).
Definition ipf_state_setqueue (x : loc) (rev : Z) : ST W unit :=
  e ← st x;
  fl ← hp (ent tqe_flags x);
  nifq ← match (if has fl TQE_RULEBASED then idx rev (is_tqehead e) else None) with
         | Some q => mret q
         | None => default_queue x (is_p (s_is e)) rev
         end;
  oifq ← hp (ent tqe_ifq x);
  ticks ← gets sw_ticks;
  match oifq with
  | Some o => hp (ipf_movequeue ticks x o nifq)
  | None => hp (ipf_queueappend ticks x nifq (Some x))
  end.

(** The interface names that have no interface yet are looked up. *)
Definition resolve_ifp (ex : E) (v : Z) (i : Z) (e : ips) : ips :=
  match at4 None i (is_ifp e) with
  | Some _ => e
  | None => e <| is_ifp ::= set4 i (env_resolvenic ex (at4 [] i (is_ifname e)) v) |>
  end.
Definition resolve_ifps (ex : E) (e : ips) : ips :=
  foldl (fun e i => resolve_ifp ex (is_v (s_is e)) i e) e [0; 1; 2; 3].

(** Links into the list of entries and into bucket [hv]. *)
Definition link_state (x : loc) (hv : Z) : ST W unit :=
  upd_st x (fun e => e <| is_listed := true |>);;
  modify (fun w => w <| sw_list ::= cons x |>);;
  t ← gets (fun w => sw_table w hv);
  when_ (bool_decide (t = [])) (modify (fun w => w <| iss_inuse ::= fun n => n + 1 |>));;
  upd_st x (fun e => e <| is_hashed := true |>);;
  modify (fun w => w <| sw_table ::= upd_at hv (cons x) |>);;
  modify (fun w => w <| iss_bucketlen ::= upd_at hv (fun n => n + 1) |>);;
  modify (fun w => w <| iss_active ::= fun n => n + 1 |>).

(** [ipf_state_insert]: 0, or -1 when the host tracking of the rule refuses. *)
Definition ipf_state_insert (x : loc) (rev : Z) : ST W Z :=
  w ← gets id;
  upd_st x (resolve_ifps (sw_ext w));;
  upd_st x (fun e => e <| is_hv ::= fun hv => hv mod ipf_state_size cf |>);;
  e ← st x;
  ok ← match is_rule e with
       | None => mret true
       | Some fr =>
           r ← srule fr;
           ok ← (if sr_max_nodes r =? 0 then mret true
                 else ext (env_ht_node_add fr (is_family e) (is_src (s_is e))));
           when_ ok (upd_srule fr (fun r => r <| sr_ref ::= fun n => n + 1 |> <| sr_statecnt ::= fun n => n + 1 |>));;
           mret ok
       end;
  if negb ok then mret (-1) else
  when_ (has (is_flags (s_is e)) (Z.lor SI_WILDP SI_WILDA)) (modify (fun w => w <| iss_wild ::= fun n => n + 1 |>));;
  modify (fun w => w <| iss_active_proto ::= upd_at (is_p (s_is e)) (fun n => n + 1) |>);;
  link_state x (is_hv e);;
  ipf_state_setqueue x rev;;
  mret 0.

(** ** Leaving the table *)

(** [ipf_derefrule]: a rule whose last reference goes is freed (what it owns is
    released with it and not modelled). *)
Definition ipf_derefrule (r : loc) : ST W unit :=
  upd_srule r (fun r => r <| sr_ref ::= fun x => x - 1 |>);;
  rl ← srule r;
  when_ (sr_ref rl =? 0) (modify (fun w => w <| sw_rules ::= delete r |>)).

(** Out of the hash chain. *)
Definition unhash_state (x : loc) : ST W unit :=
  modify (fun w => w <| sw_table := fun i => without x (sw_table w i) |>);;
  e ← st x;
  t ← gets (fun w => sw_table w (is_hv e));
  when_ (bool_decide (t = [])) (modify (fun w => w <| iss_inuse ::= fun n => n - 1 |>));;
  modify (fun w => w <| iss_bucketlen ::= upd_at (is_hv e) (fun n => n - 1) |>);;
  upd_st x (fun e => e <| is_hashed := false |>).

(** [if (ipf_deletetimeoutqueue(q) == 0) ipf_freetimeoutqueue(softc, q)]. *)
Definition drop_queue (q : option loc) : ST W unit :=
  match q with
  | Some q => n ← hp (ipf_deletetimeoutqueue q); when_ (n =? 0) (hp (ipf_freetimeoutqueue q))
  | None => mret tt
  end.

(** What is left to do when nobody refers to the entry any more. *)
Definition free_state (x : loc) (why : Z) (orphan : bool) : ST W unit :=
  e ← st x;
  let fr := is_rule e in
  upd_st x (fun e => e <| is_rule := None |>);;
  match fr with
  | Some r =>
      rl ← srule r;
      when_ (negb (sr_max_nodes rl =? 0)) (ext_ (env_ht_node_del r (is_family e) (is_src (s_is e))))
  | None => mret tt
  end;;
  drop_queue (fst (is_tqehead e));;
  drop_queue (snd (is_tqehead e));;
  match is_sync e with Some s => ext_ (env_sync_del s) | None => mret tt end;;
  when_ (is_listed e) (modify (fun w => w <| sw_list ::= without x |>);; upd_st x (fun e => e <| is_listed := false |>));;
  when_ (negb (ipf_state_logging cf =? 0) && negb (why =? 0)) (ext_ (env_state_log x why));;
  when_ orphan (modify (fun w => w <| iss_orphan ::= fun n => n - 1 |>));;
  match fr with
  | Some r => upd_srule r (fun r => r <| sr_statecnt ::= fun n => n - 1 |>);; ipf_derefrule r
  | None => mret tt
  end;;
  modify (fun w => w <| iss_active_proto ::= upd_at (is_p (s_is e)) (fun n => n - 1) |>);;
  modify (fun w => w <| sw_states ::= delete x |> <| sw_heap ::= (fun h => h <| ents ::= delete x |>) |>);;
  modify (fun w => w <| iss_active ::= fun n => n - 1 |>).

(** The variable that refers to the entry is cleared, and its reference given up. *)
Definition forget_me (x : loc) : ST W unit :=
  e ← st x;
  match is_me e with
  | Some v =>
      w ← gets id;
      _ ← need (sw_saved w !! v);
      modify (fun w => w <| sw_saved ::= <[v := None]> |>);;
      upd_st x (fun e => e <| is_me := None |> <| is_ref ::= fun n => n - 1 |>)
  | None => mret tt
  end.

(** [ipf_state_del]: 0 when the entry is gone, else how many references remain. *)
Definition ipf_state_del (x : loc) (why : Z) : ST W Z :=
  e ← st x;
  let orphan := negb (is_hashed e) in
  when_ (is_hashed e) (unhash_state x);;
  when_ (has (is_flags (s_is e)) (Z.lor SI_WILDP SI_WILDA))
    (when_ (negb (has (is_flags (s_is e)) SI_CLONED)) (modify (fun w => w <| iss_wild ::= fun n => n - 1 |>));;
     upd_is x (fun i => i <| is_flags ::= fun f => clear f (Z.lor SI_WILDP SI_WILDA) |>));;
  q ← hp (ent tqe_ifq x);
  match q with Some _ => hp (ipf_deletequeueentry x) | None => mret tt end;;
  forget_me x;;
  upd_st x (fun e => e <| is_ref ::= fun n => n - 1 |>);;
  e ← st x;
  if is_ref e >? 0 then
    when_ (negb orphan) (modify (fun w => w <| iss_orphan ::= fun n => n + 1 |>));;
    mret (is_ref e)
  else free_state x why orphan;; mret 0.

(** [ipf_state_deref] of a variable that holds [x]. *)
Definition ipf_state_deref (x : loc) : ST W unit :=
  e ← st x;
  if is_ref e >? 1 then upd_st x (fun e => e <| is_ref ::= fun n => n - 1 |>)
  else _ ← ipf_state_del x ISL_ORPHAN; mret tt.

(** [ipf_state_iter]: the token [tok] moves to the next entry, on which it takes a
    reference. *)
Fixpoint next_of (x : loc) (l : list loc) : option loc :=
  match l with
  | [] => None
  | y :: l => if decide (y = x) then head l else next_of x l
  end.
Definition ipf_state_iter (tok : loc) : ST W (option loc) :=
  w ← gets id;
  cur ← need (sw_saved w !! tok);
  next ← match cur with
         | None => mret (head (sw_list w))
         | Some x => e ← st x; mret (if is_listed e then next_of x (sw_list w) else None)
         end;
  match next with
  | Some n => upd_st n (fun e => e <| is_ref ::= fun r => r + 1 |>)
  | None => mret tt
  end;;
  modify (fun w => w <| sw_saved ::= <[tok := next]> |>);;
  match cur with Some x => ipf_state_deref x | None => mret tt end;;
  mret next.

(** [ipf_state_setpending]. *)
Definition ipf_state_setpending (x : loc) : ST W unit :=
  oifq ← hp (ent tqe_ifq x);
  ticks ← gets sw_ticks;
  match oifq with
  | Some o => hp (ipf_movequeue ticks x o (ipf_state_pending cf))
  | None => hp (ipf_queueappend ticks x (ipf_state_pending cf) (Some x))
  end;;
  forget_me x.

(** ** Expiry and flushing *)

(** *** Flushing *)

(** The loop over the list of all entries; deleting one leaves the links of the
    others' sequence as they are. *)
Fixpoint flush_list (victim : loc -> ips -> ST W bool) (l : list loc) : ST W Z :=
  match l with
  | [] => mret 0
  | x :: l =>
      e ← st x;
      v ← victim x e;
      r ← (if (v : bool) then ipf_state_del x ISL_FLUSH else mret 1);
      n ← flush_list victim l;
      mret (b2z (v && (r =? 0)) + n)
  end.

Definition is_closing (which : Z) : bool :=
  (which =? IPF_TCPS_CLOSE_WAIT) || (which =? IPF_TCPS_FIN_WAIT_1) || (which =? IPF_TCPS_CLOSING) ||
  (which =? IPF_TCPS_LAST_ACK) || (which =? IPF_TCPS_FIN_WAIT_2) || (which =? IPF_TCPS_TIME_WAIT) ||
  (which =? IPF_TCPS_CLOSED).
(** The walk over a user queue: entries of closing TCP connections. *)
Definition del_closing (x : loc) : ST W Z :=
  e ← st x;
  if negb (is_p (s_is e) =? IPPROTO_TCP) then mret 1 else
  s0 ← hp (ent tqe_state0 x);
  s1 ← hp (ent tqe_state1 x);
  if (s0 >? IPF_TCPS_ESTABLISHED) && (s1 >? IPF_TCPS_ESTABLISHED) then ipf_state_del x ISL_FLUSH else mret 1.

Definition ipf_state_flush (F : nat) (which proto : Z) : ST W Z :=
  if which =? 0 then
    l ← gets sw_list;
    flush_list (fun _ e => mret (negb (negb (proto =? 0) && negb (is_v (s_is e) =? proto)))) l
  else if which =? 1 then
    let not_tcp tqe := par ← hp (ent tqe_parent tqe); par ← need par; e ← st par;
                       mret (negb (is_p (s_is e) =? IPPROTO_TCP)) in
    n ← sweep_queues (sweep (fun x => ipf_state_del x ISL_FLUSH) not_tcp F) false F
          (Some (ipf_state_tcptq cf IPF_TCPS_CLOSE_WAIT));
    us ← gets (fun w => parent_var (sw_heap w));
    m ← sweep_queues (sweep del_closing (fun _ => mret false) F) false F us;
    mret (n + m)
  else if which =? 2 then
    w ← gets id;
    if u64 (sw_ticks w - sw_wm_last w) >? ipf_state_wm_freq cf then
      n ← ipf_queueflush (ipf_state_tcptq cf) (fun x => ipf_state_del x ISL_FLUSH) F (ipf_state_size cf) (ipf_state_wm_low cf);
      modify (fun w => w <| sw_wm_last := sw_ticks w |>);;
      mret n
    else mret 0
  else if is_closing which then flush_queue (fun x => ipf_state_del x ISL_FLUSH) F (ipf_state_tcptq cf which)
  else if which <? 30 then mret 0
  else
    let idle := idle_limit which in
    l ← gets sw_list;
    flush_list (fun x e =>
      if (proto =? 0) || (is_v (s_is e) =? proto) then
        t ← hp (ent tqe_touched x); w ← gets id; mret (u64 (sw_ticks w - t) >? idle)
      else mret false) l.

(** [ipf_state_expire]. *)
Definition ipf_state_expire (F : nat) : ST W unit :=
  let expire := sweep (fun x => ipf_state_del x ISL_EXPIRE) not_due F in
  _ ← sweep_queues expire false F (Some (ipf_state_tcptq cf 0));
  us ← gets (fun w => parent_var (sw_heap w));
  _ ← sweep_queues expire true F us;
  us ← gets (fun w => parent_var (sw_heap w));
  free_queues F us;;
  fl ← gets sw_doflush;
  when_ (negb (fl =? 0))
    (_ ← ipf_state_flush F 2 0;
     modify (fun w => w <| sw_doflush := 0 |> <| sw_wm_last := sw_ticks w |>)).

(** *** Other operations of the administrator *)

Definition ipf_state_setlock (v : Z) : ST W unit := modify (fun w => w <| sw_lock := v |>).

(** The entry that [ipf_state_remove] looks for: [d] is what the caller passes; [is_ps] is
    compared as bytes. *)
Definition same_session (d e : ips) : bool :=
  let i := s_is e in
  let j := s_is d in
  (is_p i =? is_p j) && (is_v i =? is_v j) && IP6_EQ (is_src i) (is_src j) && IP6_EQ (is_dst i) (is_dst j) &&
  bool_decide (is_tcp i = is_tcp j) && (is_sport i =? is_sport j) && (is_dport i =? is_dport j) &&
  bool_decide (is_icmp e = is_icmp d).
Fixpoint find_session (d : ips) (l : list loc) : ST W (option loc) :=
  match l with
  | [] => mret None
  | x :: l => e ← st x; if same_session d e then mret (Some x) else find_session d l
  end.
Definition ESRCH : Z := 3.
Definition ipf_state_remove (d : ips) : ST W Z :=
  l ← gets sw_list;
  y ← find_session d l;
  match y with
  | Some x => _ ← ipf_state_del x ISL_REMOVE; mret 0
  | None => mret ESRCH
  end.

(** [ipf_state_sync]: an interface, or all of them for [None], came or went; [running]
    is [softc->ipf_running]. *)
Definition sync_ifp (ex : E) (ifp : option loc) (e : ips) (i : Z) : ips :=
  if bool_decide (ifp = None) || bool_decide (ifp = at4 None i (is_ifp e)) then
    e <| is_ifp ::= set4 i (env_resolvenic ex (at4 [] i (is_ifname e)) (is_v (s_is e))) |>
  else e.
Fixpoint sync_list (ifp : option loc) (l : list loc) : ST W unit :=
  match l with
  | [] => mret tt
  | x :: l =>
      ex ← gets sw_ext;
      upd_st x (fun e => foldl (sync_ifp ex ifp) e [0; 1; 2; 3]);;
      sync_list ifp l
  end.
Definition ipf_state_sync (running : Z) (ifp : option loc) : ST W unit :=
  if running <=? 0 then mret tt else l ← gets sw_list; sync_list ifp l.

(** [ipf_state_soft_fini]: everything is deleted, and the base reference of the user
    queues given up. *)
Fixpoint unload_states (fuel : nat) : ST W unit :=
  l ← gets sw_list;
  match l with
  | [] => mret tt
  | x :: _ =>
      match fuel with
      | O => stuck
      | S fuel => _ ← ipf_state_del x ISL_UNLOAD; unload_states fuel
      end
  end.
Fixpoint unload_queues (fuel : nat) (ifq : option loc) : ST W unit :=
  match ifq with
  | None => mret tt
  | Some q =>
      match fuel with
      | O => stuck
      | S fuel => nx ← hp (que ifq_next q); drop_queue (Some q);; unload_queues fuel nx
      end
  end.
Definition ipf_state_soft_fini (F : nat) : ST W unit :=
  unload_states F;;
  us ← gets (fun w => parent_var (sw_heap w));
  unload_queues F us;;
  modify (fun w => w <| iss_inuse := 0 |> <| iss_active := 0 |>).

(** ** The queues at the start *)

(** The timeouts of [ipf_main_softc_t]. *)
Record timeouts := mk_timeouts {
  ipf_tcpclosed : Z; ipf_tcptimeout : Z; ipf_tcpsynsent : Z; ipf_tcpsynrecv : Z; ipf_tcpidletimeout : Z;
  ipf_tcphalfclosed : Z; ipf_tcplastack : Z; ipf_tcpclosewait : Z; ipf_tcptimewait : Z;
  ipf_udptimeout : Z; ipf_udpacktimeout : Z; ipf_icmptimeout : Z; ipf_icmpacktimeout : Z; ipf_iptimeout : Z }.

Definition init_queue (q : loc) (ttl : Z) (next : option loc) : ST tqheap unit :=
  upd_que q (IPFTQ_INIT q ttl);; upd_que q (fun t => t <| ifq_next := next |>).
(** [ipf_sttab_init]: [for (i = IPF_TCP_NSTATES - 1; i >= 0; i--)], then the times. *)
Fixpoint sttab_loop (tqp : Z -> loc) (n : nat) : ST tqheap unit :=
  match n with
  | O => mret tt
  | S n => init_queue (tqp (Z.of_nat n)) 0 (Some (tqp (Z.of_nat n + 1)));; sttab_loop tqp n
  end.
Definition set_ttl (q : loc) (ttl : Z) : ST tqheap unit := upd_que q (fun t => t <| ifq_ttl := ttl |>).
Definition ipf_sttab_init (c : timeouts) (tqp : Z -> loc) : ST tqheap unit :=
  sttab_loop tqp (Z.to_nat IPF_TCP_NSTATES);;
  upd_que (tqp (IPF_TCP_NSTATES - 1)) (fun t => t <| ifq_next := None |>);;
  set_ttl (tqp IPF_TCPS_CLOSED) (ipf_tcpclosed c);;
  set_ttl (tqp IPF_TCPS_LISTEN) (ipf_tcptimeout c);;
  set_ttl (tqp IPF_TCPS_SYN_SENT) (ipf_tcpsynsent c);;
  set_ttl (tqp IPF_TCPS_SYN_RECEIVED) (ipf_tcpsynrecv c);;
  set_ttl (tqp IPF_TCPS_ESTABLISHED) (ipf_tcpidletimeout c);;
  set_ttl (tqp IPF_TCPS_CLOSE_WAIT) (ipf_tcphalfclosed c);;
  set_ttl (tqp IPF_TCPS_FIN_WAIT_1) (ipf_tcphalfclosed c);;
  set_ttl (tqp IPF_TCPS_CLOSING) (ipf_tcptimeout c);;
  set_ttl (tqp IPF_TCPS_LAST_ACK) (ipf_tcplastack c);;
  set_ttl (tqp IPF_TCPS_FIN_WAIT_2) (ipf_tcpclosewait c);;
  set_ttl (tqp IPF_TCPS_TIME_WAIT) (ipf_tcptimewait c);;
  set_ttl (tqp IPF_TCPS_HALF_ESTAB) (ipf_tcptimeout c).
(** The queues of [ipf_state_soft_init]. *)
Definition init_queues (c : timeouts) : ST tqheap unit :=
  ipf_sttab_init c (ipf_state_tcptq cf);;
  upd_que (ipf_state_tcptq cf (IPF_TCP_NSTATES - 1)) (fun t => t <| ifq_next := Some (ipf_state_udptq cf) |>);;
  init_queue (ipf_state_udptq cf) (ipf_udptimeout c) (Some (ipf_state_udpacktq cf));;
  init_queue (ipf_state_udpacktq cf) (ipf_udpacktimeout c) (Some (ipf_state_icmptq cf));;
  init_queue (ipf_state_icmptq cf) (ipf_icmptimeout c) (Some (ipf_state_icmpacktq cf));;
  init_queue (ipf_state_icmpacktq cf) (ipf_icmpacktimeout c) (Some (ipf_state_iptq cf));;
  init_queue (ipf_state_iptq cf) (ipf_iptimeout c) (Some (ipf_state_pending cf));;
  init_queue (ipf_state_pending cf) IPF_HZ_DIVIDE (Some (ipf_state_deletetq cf));;
  init_queue (ipf_state_deletetq cf) 1 None.
(** [ipf_state_soft_init], on the empty table. *)
Definition ipf_state_soft_init (c : timeouts) : ST W unit :=
  modify (fun w => w <| sw_table := fun _ => [] |> <| iss_bucketlen := fun _ => 0 |>);;
  hp (init_queues c);;
  modify (fun w => w <| sw_wm_last := sw_ticks w |>).

(** ** The values at the start *)

Definition ONE_DAY : Z := IPF_TTLVAL (1 * 86400).
Definition FIVE_DAYS : Z := u32 (5 * ONE_DAY).
Definition TCP_MSL : Z := 120.
(** The timeouts of [ipf_main_soft_create]. *)
Definition default_timeouts : timeouts := {|
  ipf_tcpidletimeout := FIVE_DAYS; ipf_tcpclosewait := IPF_TTLVAL (2 * TCP_MSL); ipf_tcplastack := IPF_TTLVAL 30;
  ipf_tcptimewait := IPF_TTLVAL (2 * TCP_MSL); ipf_tcptimeout := IPF_TTLVAL (2 * TCP_MSL);
  ipf_tcpsynsent := IPF_TTLVAL (2 * TCP_MSL); ipf_tcpsynrecv := IPF_TTLVAL (2 * TCP_MSL);
  ipf_tcpclosed := IPF_TTLVAL 30; ipf_tcphalfclosed := IPF_TTLVAL (2 * 3600); ipf_udptimeout := IPF_TTLVAL 120;
  ipf_udpacktimeout := IPF_TTLVAL 12; ipf_icmptimeout := IPF_TTLVAL 60; ipf_icmpacktimeout := IPF_TTLVAL 6;
  ipf_iptimeout := IPF_TTLVAL 60 |}.
Definition IPSTATE_SIZE : Z := 5737.
Definition IPSTATE_MAX : Z := 4013.
(** [for (i = size; i > 0; i >>= 1) maxbucket++; maxbucket *= 2]. *)
Fixpoint bits_of (fuel : nat) (i : Z) : Z :=
  match fuel with
  | O => 0
  | S fuel => if i >? 0 then 1 + bits_of fuel (Z.shiftr i 1) else 0
  end.
Definition default_maxbucket (size : Z) : Z := 2 * bits_of 32 size.
(** The variables of [ipf_state_soft_create] and [ipf_state_soft_init]; [seed] is drawn
    at random, the queues are parts of the structure. *)
Definition ipf_state_soft_create (seed : Z -> Z) (tcptq : Z -> loc) (deletetq pending udptq udpacktq iptq icmptq
    icmpacktq : loc) (flags : Z) : stconf := {|
  ipf_state_size := IPSTATE_SIZE; ipf_state_max := IPSTATE_MAX; ipf_state_maxbucket := default_maxbucket IPSTATE_SIZE;
  ipf_state_seed := seed; ipf_state_wm_freq := IPF_TTLVAL 10; ipf_state_wm_high := 99; ipf_state_wm_low := 90;
  ipf_state_logging := 1; ipf_state_tcptq := tcptq; ipf_state_deletetq := deletetq; ipf_state_pending := pending;
  ipf_state_udptq := udptq; ipf_state_udpacktq := udpacktq; ipf_state_iptq := iptq; ipf_state_icmptq := icmptq;
  ipf_state_icmpacktq := icmpacktq; softc_ipf_flags := flags |}.
End State.
