(* ===== verification/StateLookup.v ===== *)
(** Finding the state of a packet (ip_state.c): hashing, comparing a packet with an
    entry, cloning, adding an entry for a packet, the lookup with its retries for
    wildcards, ICMP errors, and [ipf_state_check]. *)
From S2P Require Import Prelude Packet Cksum Filter Timeoutq TcpAge Queues Sweeps TcpWindow Parse State.

(** ** Constants *)

Definition FI_CMP : Z := 0x5cfe3.
Definition FI_ICMPCMP : Z := 0x0003.
Definition FI_NOCKSUM : Z := 0x20000000.
Definition FI_NOWILD : Z := 0x40000000.
Definition FI_IGNORE : Z := 0x80000000.
Definition FR_STLOOSE : Z := 0x80000.
Definition FR_STSTRICT : Z := 0x200000.
Definition FR_NOICMPERR : Z := 0x800000.
Definition FR_STATESYNC : Z := 0x1000000.
Definition FR_ISBLOCK (x : Z) : bool := Z.land x FR_CMDMASK =? FR_BLOCK.
Definition FR_ISPASS (x : Z) : bool := Z.land x FR_CMDMASK =? FR_PASS.

Definition ICMP_ECHOREPLY : Z := 0.
Definition ICMP_ECHO : Z := 8.
Definition ICMP_TSTAMP : Z := 13.
Definition ICMP_TSTAMPREPLY : Z := 14.
Definition ICMP_IREQ : Z := 15.
Definition ICMP_IREQREPLY : Z := 16.
Definition ICMP_MASKREQ : Z := 17.
Definition ICMP_MASKREPLY : Z := 18.
Definition ICMP_MAXTYPE : Z := 18.
Definition ICMP6_ECHO_REQUEST : Z := 128.
Definition ICMP6_ECHO_REPLY : Z := 129.
Definition ICMP6_MEMBERSHIP_QUERY : Z := 130.
Definition ICMP6_MEMBERSHIP_REPORT : Z := 131.
Definition ND_ROUTER_SOLICIT : Z := 133.
Definition ND_ROUTER_ADVERT : Z := 134.
Definition ND_NEIGHBOR_SOLICIT : Z := 135.
Definition ND_NEIGHBOR_ADVERT : Z := 136.
Definition ICMP6_NI_QUERY : Z := 139.
Definition ICMP6_NI_REPLY : Z := 140.
Definition ICMP6_MAXTYPE : Z := 205.
Definition ICMP6_INFOMSG_MASK : Z := 0x80.
Definition ICMPERR_ICMPHLEN : Z := 8.
Definition ICMPERR_MINPKTLEN : Z := 20 + 8 + 20.
Definition ICMPERR_MAXPKTLEN : Z := 20 + 8 + 20 + 8.
Definition ICMP6ERR_MINPKTLEN : Z := 40 + 8.
Definition sizeof_ip : Z := 20.
Definition sizeof_ip6 : Z := 40.
Definition EAGAIN : Z := 11.

(** ** Two entries of one session *)

Definition ipf_state_matchipv4addrs (is1 is2 : ipstate) : Z :=
  if (i60 (is_src is1) =? i60 (is_src is2)) && (i60 (is_dst is1) =? i60 (is_dst is2)) then 2
  else if (i60 (is_src is1) =? i60 (is_dst is2)) && (i60 (is_dst is1) =? i60 (is_src is2)) then
    if is_p is1 =? IPPROTO_ICMP then 2 else 1
  else 0.
Definition ipf_state_matchipv6addrs (is1 is2 : ipstate) : Z :=
  if IP6_EQ (is_src is1) (is_src is2) && IP6_EQ (is_dst is1) (is_dst is2) then 2
  else if IP6_EQ (is_src is1) (is_dst is2) && IP6_EQ (is_dst is1) (is_src is2) then
    if is_p is1 =? IPPROTO_ICMPV6 then 2 else 1
  else 0.
Definition ipf_state_matchaddresses (is1 is2 : ipstate) : Z :=
  if is_v is1 =? 4 then ipf_state_matchipv4addrs is1 is2 else ipf_state_matchipv6addrs is1 is2.
Definition ipf_state_matchports (is1 is2 : ipstate) : Z :=
  if (is_sport is1 =? is_sport is2) && (is_dport is1 =? is_dport is2) then 2
  else if (is_sport is1 =? is_dport is2) && (is_dport is1 =? is_sport is2) then 1
  else 0.
Definition ipf_state_matchisps (e1 e2 : ips) : Z :=
  let p := is_p (s_is e1) in
  if p =? is_p (s_is e2) then
    if (p =? IPPROTO_TCP) || (p =? IPPROTO_UDP) || (p =? IPPROTO_GRE) then ipf_state_matchports (s_is e1) (s_is e2)
    else if (p =? IPPROTO_ICMP) || (p =? IPPROTO_ICMPV6) then if decide (is_icmp e1 = is_icmp e2) then 2 else 0
    else 0
  else 0.
(** The fields from [is_pass] up to [is_authmsk] are compared as bytes. *)
Definition same_block (e1 e2 : ips) : bool :=
  (is_pass (s_is e1) =? is_pass (s_is e2)) && (is_p (s_is e1) =? is_p (s_is e2)) &&
  (is_v (s_is e1) =? is_v (s_is e2)) && (is_family e1 =? is_family e2) && (is_hv e1 =? is_hv e2) &&
  (is_tag e1 =? is_tag e2) && bool_decide (is_opt e1 = is_opt e2) && bool_decide (is_optmsk e1 = is_optmsk e2) &&
  (is_sec e1 =? is_sec e2) && (is_secmsk e1 =? is_secmsk e2) && (is_auth e1 =? is_auth e2).
Definition ipf_state_match (e1 e2 : ips) : bool :=
  if same_block e1 e2 then
    let pomatch := ipf_state_matchisps e1 e2 in
    let amatch := ipf_state_matchaddresses (s_is e1) (s_is e2) in
    negb (amatch =? 0) && (amatch =? pomatch)
  else false.

(** ** ICMP queries and replies *)

(** [icmpreplytype4] and [icmpreplytype6], as [ipf_main_load] fills them; an index
    outside the array has no value. *)
Definition icmpreplytype4 (t : Z) : option Z :=
  if (t <? 0) || (ICMP_MAXTYPE <? t) then None
  else Some (if t =? ICMP_ECHO then ICMP_ECHOREPLY else if t =? ICMP_TSTAMP then ICMP_TSTAMPREPLY
             else if t =? ICMP_IREQ then ICMP_IREQREPLY else if t =? ICMP_MASKREQ then ICMP_MASKREPLY else -1).
Definition icmpreplytype6 (t : Z) : option Z :=
  if (t <? 0) || (ICMP6_MAXTYPE <? t) then None
  else Some (if t =? ICMP6_ECHO_REQUEST then ICMP6_ECHO_REPLY
             else if t =? ICMP6_MEMBERSHIP_QUERY then ICMP6_MEMBERSHIP_REPORT
             else if t =? ICMP6_NI_QUERY then ICMP6_NI_REPLY
             else if t =? ND_ROUTER_SOLICIT then ND_ROUTER_ADVERT
             else if t =? ND_NEIGHBOR_SOLICIT then ND_NEIGHBOR_ADVERT else -1).

(** [ipf_matchicmpqueryreply]; [None] when an array is read outside its bounds. *)
Definition query_reply (table : Z -> option Z) (echoreply : Z) (ic : icmpinfo) (l4 : l4hdr) (rev : Z) : option bool :=
  hit ← (if rev =? 0 then Some (icmp_type l4 =? ici_type ic)
         else t ← table (ici_type ic); Some (t =? icmp_type l4));
  Some (hit && (negb (icmp_type l4 =? echoreply) || (icmp_id l4 =? ici_id ic))).
Definition ipf_matchicmpqueryreply (v : Z) (ic : icmpinfo) (l4 : l4hdr) (rev : Z) : option bool :=
  if v =? 4 then query_reply icmpreplytype4 ICMP_ECHOREPLY ic l4 rev
  else if v =? 6 then query_reply icmpreplytype6 ICMP6_ECHO_REPLY ic l4 rev
  else Some false.

(** ** Hash values *)

(** [DOUBLE_HASH]; the seeds are [u_long]. *)
Definition DOUBLE_HASH (cf : stconf) (x : Z) : Z :=
  u64 (x + ipf_state_seed cf (x mod ipf_state_size cf)) mod ipf_state_size cf.
(** [hv += x] for each [x]. *)
Definition sum32 (hv : Z) (l : list Z) : Z := foldl (fun a x => u32 (a + x)) hv l.
Definition low_words (a : i6addr) : list Z := [i61 a; i62 a; i63 a].

Section Lookup.
Context {E : Type} `{state_env E} (cf : stconf) (be : bool).
Abbreviation W := (stw E).

(** [IN6_IS_ADDR_MULTICAST]: the first byte of the address. *)
Definition IN6_IS_ADDR_MULTICAST (a : i6addr) : bool :=
  (if be then Z.shiftr (i60 a) 24 else Z.land (i60 a) 0xff) =? 0xff.
Definition v4_multi (fin : fr_info) : bool :=
  (fin_v fin =? 4) && has (fin_flx fin) (Z.lor (Z.lor FI_MULTICAST FI_BROADCAST) FI_MBCAST).

(** The part of the hash value that [ipf_state_add] takes from the addresses, and
    the flags it adds. *)
Definition add_hash (fin : fr_info) (flags : Z) : Z * Z :=
  let src := fin_src6 fin in
  let dst := fin_dst6 fin in
  let hv := sum32 (u32 (fin_p fin)) [i60 src; i60 dst] in
  let '(hv, flags) :=
    if fin_v fin =? 6 then
      let '(hv, flags) := if (fin_p fin =? IPPROTO_ICMPV6) && IN6_IS_ADDR_MULTICAST dst
                          then (u32 (hv - i60 dst), Z.lor flags SI_W_DADDR)
                          else (sum32 hv (low_words dst), flags) in
      (sum32 hv (low_words src), flags)
    else (hv, flags) in
  if v4_multi fin then (u32 (hv - i60 dst), Z.lor flags SI_W_DADDR) else (hv, flags).

(** The same for [ipf_state_lookup]. *)
Definition lookup_hash (fin : fr_info) : Z :=
  let src := fin_src6 fin in
  let dst := fin_dst6 fin in
  let hv := sum32 (u32 (fin_p fin)) [i60 src; i60 dst] in
  let hv := if fin_v fin =? 6 then
              let hv := sum32 hv (low_words src) in
              if (fin_p fin =? IPPROTO_ICMPV6) && IN6_IS_ADDR_MULTICAST dst then u32 (hv - i60 dst)
              else sum32 hv (low_words dst)
            else hv in
  if v4_multi fin then u32 (hv - (if fin_out fin =? 0 then i60 src else i60 dst)) else hv.

(** ** A packet against an entry *)

(** The interface of an entry, or a name that stands for any. *)
Definition any_name (name : list Z) : bool :=
  let c := nth 0 name 0 in (c =? 0) || (c =? 45) || (c =? 42).
Definition ifp_matches (mine ifp : option loc) (name : list Z) : bool :=
  bool_decide (mine = ifp) || (bool_decide (mine = None) && any_name name).
(** The ports of the packet, [sp] and [dp]. *)
Definition ports_of (fin : fr_info) (tcp : option l4hdr) : Z * Z :=
  match tcp with Some _ => (htons be (fin_sport fin), ntohs be (fin_dport fin)) | None => (0, 0) end.
(** Which way the packet goes, by destination and then by ports. *)
Definition match_rev (i : ipstate) (dst : i6addr) (tcp : bool) (sp dp : Z) : bool :=
  let flags := is_flags i in
  negb (IP6_EQ (is_dst i) dst) ||
  (tcp && ((negb (has flags SI_W_SPORT) && negb (sp =? is_sport i)) ||
           (negb (has flags SI_W_DPORT) && negb (dp =? is_dport i)))).
(** Addresses and ports, in that direction. *)
Definition match_ends (i : ipstate) (a b : i6addr) (tcp : bool) (pa pb : Z) : bool :=
  let flags := is_flags i in
  (IP6_EQ (is_dst i) b || has flags SI_W_DADDR) && (IP6_EQ (is_src i) a || has flags SI_W_SADDR) &&
  (negb tcp || ((pa =? is_sport i) || has flags SI_W_SPORT) && ((pb =? is_dport i) || has flags SI_W_DPORT)).
Definition match_conn (i : ipstate) (rev : bool) (src dst : i6addr) (tcp : bool) (sp dp : Z) : bool :=
  if rev then match_ends i dst src tcp dp sp else match_ends i src dst tcp sp dp.

(** A wildcard address is bound, unless it is an IPv6 multicast address. *)
Definition fill_addr (flags : Z) (rev : bool) (fi : fr_ip) (i : ipstate) : ipstate :=
  let multi a := (is_v i =? 6) && IN6_IS_ADDR_MULTICAST a in
  if has flags SI_W_SADDR then
    let a := if rev then fi_dst fi else fi_src fi in
    if multi a then i else i <| is_src := a |> <| is_flags ::= fun f => clear f SI_W_SADDR |>
  else if has flags SI_W_DADDR then
    let a := if rev then fi_src fi else fi_dst fi in
    if multi a then i else i <| is_dst := a |> <| is_flags ::= fun f => clear f SI_W_DADDR |>
  else i.
(** IP options and the like agree with those recorded for the direction. *)
Definition opts_match (fin : fr_info) (e : ips) (rev cmask : Z) : bool :=
  let cflx := idx rev (idx (fin_out fin) (is_flx e)) in
  let fi := fin_fi fin in
  negb ((negb (cflx =? 0) && negb (Z.land (fin_flx fin) cmask =? Z.land cflx cmask)) ||
        negb (Z.land (fi_optmsk fi) (idx rev (is_optmsk e)) =? idx rev (is_opt e)) ||
        negb (Z.land (fi_secmsk fi) (is_secmsk e) =? is_sec e) ||
        negb (Z.land (fi_auth fi) (is_authmsk e) =? is_auth e)).

(** A wildcard port is bound. *)
Definition fill_port (flags : Z) (rev : bool) (sp dp : Z) (tcp : tcphdr) (i : ipstate) : ipstate :=
  let i :=
    if has flags SI_W_SPORT then
      let n := if rev then th_ack tcp else th_seq tcp in
      i <| is_sport := if rev then dp else sp |>
        <| is_tcp ::= fun t => (fst t <| td_end := n |> <| td_maxend := u32 (n + 1) |>, snd t) |>
    else if has flags SI_W_DPORT then
      let n := if rev then th_seq tcp else th_ack tcp in
      i <| is_dport := if rev then sp else dp |>
        <| is_tcp ::= fun t => (fst t, snd t <| td_end := n |> <| td_maxend := u32 (n + 1) |>) |>
    else i in
  i <| is_flags ::= fun f => clear f SI_WILDP |>.
(** What a direction's first packet leaves in the entry. *)
Definition note_opts (fin : fr_info) (rev : Z) (flx : Z) (e : ips) : ips :=
  if idx rev (idx (fin_out fin) (is_flx e)) =? 0 then
    let e := e <| is_flx ::= fun t => set_idx (fin_out fin) (set_idx rev flx (idx (fin_out fin) t)) t |> in
    if (rev =? 1) && (idx 1 (is_optmsk e) =? 0) then
      let e := e <| is_opt ::= set_idx 1 (fi_optmsk (fin_fi fin)) |> <| is_optmsk ::= set_idx 1 0xffffffff |> in
      if is_v (s_is e) =? 6 then e <| is_opt ::= (fun t => set_idx 1 (clear (idx 1 t) 0x8) t) |>
                                   <| is_optmsk ::= (fun t => set_idx 1 (clear (idx 1 t) 0x8) t) |>
      else e
    else e
  else e.
(** An interface that was left open is filled in; [COPYIFNAME] reads the interface's
    name. *)
Definition fill_ifp (fin : fr_info) (k : Z) (y : loc) : ST W unit :=
  e ← st y;
  let c := nth 0 (at4 [] k (is_ifname e)) 0 in
  when_ (bool_decide (at4 None k (is_ifp e) = None) && ((c =? 0) || (c =? 42)))
    (p ← need (fin_ifp fin);
     w ← gets id;
     upd_st y (fun e => e <| is_ifp ::= set4 k (Some p) |>
       <| is_ifname ::= fun l => set4 k (strncpy 16 (env_ifname (sw_ext w) p) (at4 [] k l)) l |>)).

(** The end of the sender's window after a segment. *)
Definition seg_end (fin : fr_info) (tcp : tcphdr) : Z :=
  u32 (th_seq tcp + fin_dlen fin - Z.shiftl (th_off tcp) 2 + b2z (has (th_flags tcp) TH_SYN) +
       b2z (has (th_flags tcp) TH_FIN)).
Definition win1 (tcp : tcphdr) : Z := if th_win tcp =? 0 then 1 else th_win tcp.
Definition clone_tcp (fin : fr_info) (tcp : tcphdr) (t : tcpdata * tcpdata) : tcpdata * tcpdata :=
  let send := seg_end fin tcp in
  let '(s, d) := t in
  if fin_rev fin =? 1 then
    (s <| td_end := 0 |> <| td_maxwin := 1 |>,
     d <| td_end := send |> <| td_maxend := send |> <| td_maxwin := win1 tcp |>)
  else
    (s <| td_end := send |> <| td_maxend := send |> <| td_maxwin := win1 tcp |>,
     d <| td_end := 0 |> <| td_maxwin := 1 |>).

(** [ipf_state_clone]. *)
Definition ipf_state_clone (fin : fr_info) (tcp : l4hdr) (x : loc) : ST W (option loc) :=
  w ← gets id;
  if iss_active w =? ipf_state_max cf then modify (fun w => w <| sw_doflush := 1 |>);; mret None else
  alloc ← kmalloc;
  match alloc with
  | None => mret None
  | Some c =>
      e ← st x;
      t ← hp (ent id x);
      modify (fun w => w <| sw_states ::= <[c := e]> |>
        <| sw_heap ::= fun h => h <| ents ::= <[c := t <| tqe_pnext := None |> <| tqe_next := None |> <| tqe_ifq := None |>
             <| tqe_parent := Some c |> <| tqe_die := u32 (ONE_DAY + sw_ticks w) |>
             <| tqe_state0 := 0 |> <| tqe_state1 := 0 |>]> |> |>);;
      upd_is c (fun i => i <| is_sti := c |> <| is_tcp ::= clone_tcp fin (l4_tcp tcp) |>
                           <| is_flags ::= fun f => Z.lor (clear f SI_CLONE) SI_CLONED |>);;
      r ← ipf_state_insert cf c (fin_rev fin);
      if r =? -1 then
        modify (fun w => w <| sw_states ::= delete c |> <| sw_heap ::= fun h => h <| ents ::= delete c |> |>);; mret None
      else
        upd_st c (fun e => e <| is_ref := 1 |>);;
        e ← st c;
        when_ (is_p (s_is e) =? IPPROTO_TCP)
          (ticks ← gets sw_ticks;
           _ ← hp (ipf_tcp_age ticks c fin (l4_tcp tcp) (ipf_state_tcptq cf) (is_flags (s_is e)) 2); mret tt);;
        m ← st x;
        when_ (has (is_flags (s_is m)) IS_STATESYNC)
          (s ← ext (env_sync_new c fin); upd_st c (fun e => e <| is_sync := s |>));;
        mret (Some c)
  end.

(** [ipf_matchsrcdst]: the entry, if it matches, and the summary. *)
Definition ipf_matchsrcdst (fin : fr_info) (x : loc) (src dst : i6addr) (tcp : option l4hdr)
    (cmask : Z) : ST W (option loc * fr_info) :=
  q ← hp (ent tqe_ifq x);
  if bool_decide (q = Some (ipf_state_deletetq cf)) then mret (None, fin) else
  e ← st x;
  let i := s_is e in
  let has_tcp := bool_decide (is_Some tcp) in
  let '(sp, dp) := ports_of fin tcp in
  let rev := match_rev i dst has_tcp sp dp in
  let r := b2z rev in
  let k := Z.shiftl (fin_out fin) 1 + r in
  if negb (ifp_matches (at4 None k (is_ifp e)) (fin_ifp fin) (at4 [] k (is_ifname e))) then mret (None, fin) else
  if negb (match_conn i rev src dst has_tcp sp dp) then mret (None, fin) else
  let flags := if has_tcp then is_flags i
               else clear (is_flags i) (Z.lor (Z.lor (Z.lor SI_WILDP SI_NEWFR) SI_CLONE) SI_CLONED) in
  when_ (has flags SI_WILDA)
    (upd_is x (fill_addr flags rev (fin_fi fin));;
     e ← st x;
     when_ (negb (has (is_flags (s_is e)) (Z.lor SI_WILDA SI_WILDP)))
       (modify (fun w => w <| iss_wild ::= fun n => n - 1 |>)));;
  if negb (opts_match fin e r cmask) then mret (None, fin) else
  if has (fin_flx fin) FI_IGNORE then mret (Some x, fin <| fin_rev := r |>) else
  y ← (if has flags SI_WILDP then
         t ← need tcp;
         y ← (if has flags SI_CLONE then ipf_state_clone fin t x
              else modify (fun w => w <| iss_wild ::= fun n => n - 1 |>);; mret (Some x));
         match y with
         | None => mret None
         | Some y =>
             upd_is y (fill_port flags rev sp dp (l4_tcp t));;
             when_ (has flags SI_CLONED && negb (ipf_state_logging cf =? 0)) (ext_ (env_state_log y ISL_CLONE));;
             mret (Some y)
         end
       else mret (Some x));
  match y with
  | None => mret (None, fin)
  | Some y =>
      upd_st y (note_opts fin r (Z.land (fin_flx fin) cmask));;
      fill_ifp fin k y;;
      mret (Some y, fin <| fin_rev := r |>)
  end.

(** On the summary of the packet under consideration. *)
Definition match_packet (x : loc) (src dst : i6addr) (tcp : option l4hdr) (cmask : Z) :
    ST W (option loc) :=
  fin ← gets sw_fin;
  r ← ipf_matchsrcdst fin x src dst tcp cmask;
  modify (fun w => w <| sw_fin := snd r |>);;
  mret (fst r).

(** ** Adding an entry *)

(** What the switch on the protocol leaves: the draft, the hash value and the flags,
    or the result with which [ipf_state_add] ends. *)
Definition add_icmp6 (l4 : l4hdr) (e : ips) (hv : Z) : Z + ips * Z :=
  let t := icmp_type l4 in
  if t =? ICMP6_ECHO_REQUEST then
    inr (e <| is_icmp := mk_icmpinfo (icmp_id l4) 0 t |>, u32 (hv + icmp_id l4))
  else if (t =? ICMP6_MEMBERSHIP_QUERY) || (t =? ND_ROUTER_SOLICIT) || (t =? ND_NEIGHBOR_SOLICIT) ||
          (t =? ICMP6_NI_QUERY) then inr (e <| is_icmp := mk_icmpinfo 0 0 t |>, hv)
  else inl (-2).
Definition add_icmp (l4 : l4hdr) (e : ips) (hv : Z) : Z + ips * Z :=
  let t := icmp_type l4 in
  if (t =? ICMP_ECHO) || (t =? ICMP_TSTAMP) || (t =? ICMP_IREQ) || (t =? ICMP_MASKREQ) then
    inr (e <| is_icmp := mk_icmpinfo (icmp_id l4) 0 t |>, u32 (hv + icmp_id l4))
  else inl (-3).
Definition set_ports (fin : fr_info) (i : ipstate) : ipstate :=
  i <| is_sport := htons be (fin_sport fin) |> <| is_dport := htons be (fin_dport fin) |>.
Definition hash_ports (flags hv p q : Z) : Z := if has flags SI_WILDP then hv else sum32 hv [p; q].

(** The draft of a TCP entry: windows, options of a SYN, a new sequence number. *)
Definition syn_only (tcp : tcphdr) : bool := clear (th_flags tcp) (Z.lor (Z.lor TH_FIN TH_ACK) TH_ECNALL) =? TH_SYN.
Definition add_tcp (pass flags : Z) (i : ipstate) : ST W (ipstate * Z) :=
  w ← gets id;
  let tcp := l4_tcp (sw_l4 w) in
  let win := win1 tcp in
  let i := i <| is_tcp ::= fun t => (fst t <| td_maxwin := win |>, snd t <| td_maxwin := 1 |>) |> in
  if has (fin_flx (sw_fin w)) FI_IGNORE then mret (i, flags) else
  let send := seg_end (sw_fin w) tcp in
  let i := i <| is_tcp ::= fun t => (fst t <| td_end := send |> <| td_maxend := send |>, snd t) |> in
  i ← (if syn_only tcp && (th_off tcp >? Z.shiftr sizeof_tcphdr 2) then
         r ← need (ipf_tcpoptions (sw_fin w) tcp (l4_opts (sw_l4 w)) (fst (is_tcp i)));
         when_ (fst r =? -1) (upd_sfin (or_flx FI_BAD));;
         mret (i <| is_tcp ::= fun t => (snd r, snd t) |>)
       else mret i);
  i ← (if negb (fin_out (sw_fin w) =? 0) && has pass FR_NEWISN then
         w ← gets id;
         let i := ipf_checknewisn (env_newisn (sw_ext w) (sw_fin w)) (sw_fin w) (l4_tcp (sw_l4 w)) i in
         modify (fun w => w <| sw_l4 ::= fun l => l <| l4_tcp := ipf_fixoutisn be (sw_fin w) i (l4_tcp l) |> |>);;
         mret i
       else mret i);
  if masked (th_flags tcp) TH_OPENING TH_SYN then mret (i, Z.lor flags IS_TCPFSM)
  else
    w ← gets id;
    let ack := th_ack (l4_tcp (sw_l4 w)) in
    mret (i <| is_tcp ::= fun t => (fst t, snd t <| td_maxwin := u32 (win * 2 * 2) |> <| td_end := ack |>
                                             <| td_maxend := ack |>) |>, flags).

(** The draft of the entry ([ips]), from the packet alone; its [is_sti] is not an entry
    of a queue, and replaced when the draft is copied. *)
Definition empty_td : tcpdata := mk_tcpdata 0 0 0 0 0 0.
Definition draft (fin : fr_info) (pass : Z) : ips :=
  let opt := fi_optmsk (fin_fi fin) in
  let v6 := fin_v fin =? 6 in
  mk_ips (mk_ipstate 0 pass 0 1%positive (empty_td, empty_td) (0, 0) (0, 0) (0, 0) (fin_src6 fin) (fin_dst6 fin)
            (fin_p fin) (fin_v fin) 0)
    false false None (replicate 4 None) (replicate 4 (replicate 16 0)) None None (None, None)
    (replicate 4 0) (replicate 4 0) (replicate 4 0) 0 (fin_family fin) 0 0
    (if v6 then clear opt 0x8 else opt, 0) (if v6 then clear 0xffffffff 0x8 else 0xffffffff, 0)
    (fi_secmsk (fin_fi fin)) 0xffff (fi_auth (fin_fi fin)) 0xffff (mk_icmpinfo 0 0 0) ((0, 0), (0, 0)) 0
    (replicate 16 0) FdNone (FdNone, FdNone).

(** The switch: an error, or the draft with its hash value and the flags. *)
Definition add_l4 (pass flags hv : Z) : ST W (Z + ips * Z * Z) :=
  w ← gets id;
  let fin := sw_fin w in
  let l4 := sw_l4 w in
  let e := draft fin pass in
  let p := fin_p fin in
  let with_flags (r : Z + ips * Z) : Z + ips * Z * Z := match r with inl n => inl n | inr d => inr (d, flags) end in
  if p =? IPPROTO_ICMPV6 then mret (with_flags (add_icmp6 l4 e hv))
  else if p =? IPPROTO_ICMP then mret (with_flags (add_icmp l4 e hv))
  else if p =? IPPROTO_TCP then
    if has (th_flags (l4_tcp l4)) TH_RST then mret (inl (-4)) else
    let i := set_ports fin (s_is e) in
    let hv := hash_ports flags hv (is_sport i) (is_dport i) in
    '(i, flags) ← add_tcp pass flags i;
    mret (inr (e <| s_is := i |>, hv, flags))
  else if p =? IPPROTO_UDP then
    mret (inr (e <| s_is ::= set_ports fin |>, hash_ports flags hv (th_dport l4) (th_sport l4), flags))
  else mret (inr (e, hv, flags)).

(** Timeout queues named by the rule; [qallocs] is what [KMALLOC] returns for them. *)
Definition rule_queue (F : nat) (x : loc) (k : Z) (age : Z) (qalloc : option (loc * ipftq)) : ST W unit :=
  when_ (negb (age =? 0))
    (tq ← hp (ipf_addtimeoutqueue F qalloc age);
     upd_st x (fun e => e <| is_tqehead ::= set_idx k tq |>);;
     hp (upd_ent x (fun t => t <| tqe_flags ::= fun f => Z.lor f TQE_RULEBASED |>))).

(** Interfaces of the entry, from the rule and from the packet. *)
Definition rule_name (r : strule) (k : Z) : bool * list Z := at4 (false, []) k (sr_ifnames r).
Definition is_dash (n : bool * list Z) : bool := fst n && bool_decide (snd n = [45]).
Definition packet_ifp (ex : E) (p : loc) (k : Z) (e : ips) : ips :=
  e <| is_ifp ::= set4 k (Some p) |>
    <| is_ifname ::= fun l => set4 k (strncpy 16 (env_ifname ex p) (at4 [] k l)) l |>.
Definition rule_ifname (r : strule) (j k : Z) (e : ips) : ips :=
  e <| is_ifname ::= fun l => set4 k (strncpy 4 (snd (rule_name r j)) (at4 [] k l)) l |>.
Definition rule_ifp (r : strule) (j k : Z) (e : ips) : ips :=
  let e := e <| is_ifp ::= set4 k (at4 None j (sr_ifas r)) |> in
  if fst (rule_name r j) then rule_ifname r j k e else e.
Definition set_ifps (ex : E) (fin : fr_info) (r : strule) (e : ips) : ips :=
  let out := fin_out fin in
  let e := match fin_ifp fin with
           | Some p => if is_dash (rule_name r (Z.shiftl out 1))
                       then rule_ifname r 0 (Z.shiftl out 1) (e <| is_ifp ::= set4 (Z.shiftl out 1) (at4 None 0 (sr_ifas r)) |>)
                       else packet_ifp ex p (Z.shiftl out 1) e
           | None => rule_ifname r 0 (Z.shiftl out 1) (e <| is_ifp ::= set4 (Z.shiftl out 1) (at4 None 0 (sr_ifas r)) |>)
           end in
  let e := rule_ifp r 1 (Z.shiftl out 1 + 1) e in
  let e := rule_ifp r 2 (Z.shiftl (1 - out) 1) e in
  rule_ifp r 3 (Z.shiftl (1 - out) 1 + 1) e.

(** What the rule gives to the new entry. *)
Definition from_rule (F : nat) (x fr : loc) (qalloc0 qalloc1 : option (loc * ipftq)) : ST W unit :=
  r ← srule fr;
  upd_st x (fun e => e <| is_group := strncpy 16 (sr_group r) (is_group e) |>);;
  rule_queue F x 0 (fst (sr_age r)) qalloc0;;
  rule_queue F x 1 (snd (sr_age r)) qalloc1;;
  upd_st x (fun e => e <| is_tag := sr_logtag r |>);;
  w ← gets id;
  upd_st x (set_ifps (sw_ext w) (sw_fin w) r).

(** The flags of the rule, and the first packet. *)
Definition first_packet (fin : fr_info) (e : ips) : ips :=
  let out := fin_out fin in
  if has (fin_flx fin) FI_IGNORE then e
  else e <| is_pkts ::= set4 out 1 |> <| is_bytes ::= set4 out (fin_plen fin) |>
         <| is_flx ::= fun t => set_idx out (set_idx 0 (clear (Z.land (fin_flx fin) FI_CMP) FI_OOW) (idx out t)) t |>.
Definition pass_flags (pass : Z) (e : ips) : ips :=
  let e := if has pass FR_STLOOSE then e <| s_is ::= fun i => i <| is_flags ::= Z.lor IS_LOOSE |> |> else e in
  let e := if has pass FR_STSTRICT then e <| s_is ::= fun i => i <| is_flags ::= Z.lor IS_STRICT |> |> else e in
  let e := if has pass FR_STATESYNC then e <| s_is ::= fun i => i <| is_flags ::= Z.lor IS_STATESYNC |> |> else e in
  if has pass FR_LOGFIRST then e <| s_is ::= fun i => i <| is_pass ::= fun p => clear p (Z.lor FR_LOGFIRST FR_LOG) |> |>
  else e.

(** A destination of the rule, chosen from a list when it is one. *)
Definition choose_dest (fd : frdest) (set : frdest -> ips -> ips) (listset : frdest -> ips -> ips) (x : loc) : ST W unit :=
  match fd with
  | FdDstlist l =>
      w ← gets id;
      r ← ext (env_dstlist l (sw_fin w));
      match r with Some d => upd_st x (listset d) | None => mret tt end
  | _ => upd_st x (set fd)
  end.

(** Once the entry is in the table. *)
Definition after_insert (x : loc) (pass : Z) : ST W unit :=
  w ← gets id;
  e ← st x;
  when_ (fin_p (sw_fin w) =? IPPROTO_TCP)
    (_ ← hp (ipf_tcp_age (sw_ticks w) x (sw_fin w) (l4_tcp (sw_l4 w)) (ipf_state_tcptq cf) (is_flags (s_is e)) 2); mret tt);;
  when_ (has (is_flags (s_is e)) IS_STATESYNC && negb (has (is_flags (s_is e)) SI_CLONE))
    (s ← ext (env_sync_new x (sw_fin w)); upd_st x (fun e => e <| is_sync := s |>));;
  when_ (negb (ipf_state_logging cf =? 0)) (ext_ (env_state_log x ISL_NEW));;
  upd_sfin (or_flx FI_STATE);;
  fin ← gets sw_fin;
  when_ (has (fin_flx fin) FI_FRAG) (ext_ (env_frag_new fin pass)).
Definition set_dests (x fr : loc) : ST W unit :=
  let tif k d e := e <| is_tifs ::= set_idx k d |> in
  r ← srule fr;
  choose_dest (fst (sr_tifs r)) (tif 0) (tif 0) x;;
  choose_dest (snd (sr_tifs r)) (tif 1) (tif 1) x;;
  modify (fun w => w <| sw_tif := Some (StTif x (fin_rev (sw_fin w))) |>);;
  choose_dest (sr_dif r) (fun d e => e <| is_dif := d |>) (tif 1) x;;
  modify (fun w => w <| sw_dif := Some (StDif x) |>).

(** The limits on the number of entries. *)
Definition add_limits : ST W Z :=
  w ← gets id;
  when_ (u32 (iss_active w * 100) / ipf_state_max cf >? ipf_state_wm_high cf) (modify (fun w => w <| sw_doflush := 1 |>));;
  match fin_fr (sw_fin w) with
  | None => mret 0
  | Some fr =>
      r ← srule fr;
      mret (if (iss_active w >=? ipf_state_max cf) && (sr_statemax r =? 0) then 1
            else if negb (sr_statemax r =? 0) && (sr_statecnt r >=? sr_statemax r) then 2 else 0)
  end.
(** The entry is undone when it cannot be inserted. *)
Definition add_undo (x : loc) : ST W unit :=
  e ← st x;
  drop_queue (fst (is_tqehead e));;
  drop_queue (snd (is_tqehead e));;
  modify (fun w => w <| sw_states ::= delete x |> <| sw_heap ::= fun h => h <| ents ::= delete x |> |>).

(** [for (is = table[hv % size]; ...) if (ipf_state_match(&ips, is) == 1)]. *)
Fixpoint find_dup (e : ips) (l : list loc) : ST W bool :=
  match l with
  | [] => mret false
  | x :: l => e' ← st x; if ipf_state_match e e' then mret true else find_dup e l
  end.

(** The entry [x] is made from the draft and inserted. *)
Definition add_entry (F : nat) (x : loc) (e : ips) (pass flags : Z) (stsave : option loc)
    (qalloc0 qalloc1 : option (loc * ipftq)) : ST W Z :=
  w ← gets id;
  let fr := fin_fr (sw_fin w) in
  modify (fun w => w
    <| sw_states ::= <[x := e <| s_is ::= (fun i => i <| is_sti := x |> <| is_flags := Z.land flags IS_INHERITED |>) |>
                              <| is_rulen := fin_rule (sw_fin w) |> <| is_rule := fr |>]> |>
    <| sw_heap ::= fun h => h <| ents ::= <[x := mk_tqent None None None None (u32 (1 + sw_ticks w)) 0 0 0 0]> |> |>);;
  match fr with
  | Some fr => from_rule F x fr qalloc0 qalloc1
  | None => match fin_ifp (sw_fin w) with
            | Some p => upd_st x (packet_ifp (sw_ext w) p (Z.shiftl (fin_out (sw_fin w)) 1))
            | None => mret tt
            end
  end;;
  match stsave with
  | Some v => modify (fun w => w <| sw_saved ::= <[v := Some x]> |>)
  | None => mret tt
  end;;
  upd_st x (fun e => e <| is_me := stsave |> <| is_ref := match stsave with Some _ => 2 | None => 1 end |>);;
  fin ← gets sw_fin;
  when_ (negb (has (fin_flx fin) FI_IGNORE)) (modify (fun w => w <| sw_pktnum := 1 |>));;
  upd_st x (fun e => pass_flags pass (first_packet fin e));;
  r ← ipf_state_insert cf x (fin_rev fin);
  if r =? -1 then add_undo x;; mret (-1)
  else
    after_insert x pass;;
    fr ← need fr;
    set_dests x fr;;
    mret 0.

(** [ipf_state_add]; [qalloc0] and [qalloc1] are what [KMALLOC] returns for the timeout
    queues, [F] bounds the search for a queue. *)
Definition ipf_state_add (F : nat) (qalloc0 qalloc1 : option (loc * ipftq))
    (stsave : option loc) (flags : Z) : ST W Z :=
  w ← gets id;
  let flx := fin_flx (sw_fin w) in
  if negb (sw_lock w =? 0) then upd_sfin (fun fin => fin <| fin_error := EAGAIN |>);; mret (-1) else
  if has flx (Z.lor (Z.lor (Z.lor FI_SHORT FI_STATE) FI_FRAGBODY) FI_BAD) then mret (-1) else
  if has flx FI_OOW && negb (has (fin_tcpf (sw_fin w)) TH_SYN) then mret (-1) else
  lim ← add_limits;
  if negb (lim =? 0) then mret lim else
  pass ← match fin_fr (sw_fin w) with
         | None => mret (softc_ipf_flags cf)
         | Some fr => r ← srule fr; mret (sr_flags r)
         end;
  upd_sfin (fun fin => fin <| fin_rev := b2z (IP6_EQ i6_zero (fin_dst6 fin)) |>);;
  let '(hv, flags) := add_hash (sw_fin w) flags in
  r ← add_l4 pass flags hv;
  match r with
  | inl n => mret n
  | inr (e, hv, flags) =>
      let hv := DOUBLE_HASH cf hv in
      let e := e <| is_hv := hv |> in
      chain ← gets (fun w => sw_table w (hv mod ipf_state_size cf));
      dup ← find_dup e chain;
      if dup : bool then mret 3 else
      w ← gets id;
      if iss_bucketlen w hv >=? ipf_state_maxbucket cf then mret 4 else
      alloc ← kmalloc;
      match alloc with
      | None => mret 5
      | Some x => add_entry F x e pass flags stsave qalloc0 qalloc1
      end
  end.

(** ** The lookup *)

(** [ipf_ipsmove]: to the bucket of [hv]. *)
Definition ipf_ipsmove (x : loc) (hv : Z) : ST W unit :=
  e ← st x;
  modify (fun w => w <| sw_table := fun i => without x (sw_table w i) |>);;
  t ← gets (fun w => sw_table w (is_hv e));
  when_ (bool_decide (t = [])) (modify (fun w => w <| iss_inuse ::= fun n => n - 1 |>));;
  modify (fun w => w <| iss_bucketlen ::= upd_at (is_hv e) (fun n => n - 1) |>);;
  let hvm := DOUBLE_HASH cf hv in
  upd_st x (fun e => e <| is_hv := hvm |>);;
  t ← gets (fun w => sw_table w hvm);
  when_ (bool_decide (t = [])) (modify (fun w => w <| iss_inuse ::= fun n => n + 1 |>));;
  modify (fun w => w <| iss_bucketlen ::= upd_at hvm (fun n => n + 1) |>);;
  modify (fun w => w <| sw_table ::= upd_at hvm (cons x) |>).

(** The loop over a chain: [try] says whether an entry is the one, after the test
    of protocol and version that every loop starts with. *)
Fixpoint find_state (pr v : Z) (try : loc -> ST W (option loc)) (l : list loc) : ST W (option loc) :=
  match l with
  | [] => mret None
  | x :: l =>
      e ← st x;
      if negb (is_p (s_is e) =? pr) || negb (is_v (s_is e) =? v) then find_state pr v try l
      else
        r ← try x;
        match r with Some y => mret (Some y) | None => find_state pr v try l end
  end.
Definition search (hv pr v : Z) (try : loc -> ST W (option loc)) : ST W (option loc) :=
  l ← gets (fun w => sw_table w (DOUBLE_HASH cf hv)); find_state pr v try l.

(** An ICMP packet and an entry. *)
Definition try_icmp (id : bool) (x : loc) : ST W (option loc) :=
  w ← gets (fun w => w);
  let fin := sw_fin w in
  let l4 := sw_l4 w in
  r ← match_packet x (fin_src6 fin) (fin_dst6 fin) None FI_CMP;
  match r with
  | None => mret None
  | Some y =>
      e ← st y;
      fin ← gets sw_fin;
      if id && negb (icmp_id l4 =? ici_id (is_icmp e)) then mret None else
      ok ← need (ipf_matchicmpqueryreply (fin_v fin) (is_icmp e) l4 (fin_rev fin));
      mret (if (ok : bool) then Some y else None)
  end.
Definition icmp_queue : ST W loc :=
  fin ← gets sw_fin;
  mret (if fin_rev fin =? 0 then ipf_state_icmptq cf else ipf_state_icmpacktq cf).

(** [ipf_state_tcp] on entry [y] and the packet. *)
Definition on_tcp {A} (y : loc) (m : ST tcpworld A) : ST W A := fun w =>
  e ← sw_states w !! y;
  '(a, t) ← m (mk_tcpworld (sw_heap w) (s_is e) (sw_fin w));
  Some (a, w <| sw_heap := w_heap t |> <| sw_states ::= alter (fun e => e <| s_is := w_is t |>) y |>
             <| sw_fin := w_fin t |>).
(** A TCP or UDP packet and an entry; [FI_OOW] of a TCP entry that refuses the
    packet is collected in [oow]. *)
Definition try_tcpudp (x : loc) : ST W (option loc) :=
  upd_sfin (fun fin => fin <| fin_fi ::= fun fi => fi <| fi_flx ::= fun f => clear f FI_OOW |> |>);;
  w ← gets (fun w => w);
  let fin := sw_fin w in
  let l4 := sw_l4 w in
  match_packet x (fin_src6 fin) (fin_dst6 fin) (Some l4) FI_CMP.
Fixpoint find_tcpudp (pr v : Z) (l : list loc) (oow : Z) : ST W (option loc * Z) :=
  match l with
  | [] => mret (None, oow)
  | x :: l =>
      e ← st x;
      if negb (is_p (s_is e) =? pr) || negb (is_v (s_is e) =? v) then find_tcpudp pr v l oow
      else
        r ← try_tcpudp x;
        match r with
        | None => find_tcpudp pr v l oow
        | Some y =>
            if pr =? IPPROTO_TCP then
              w ← gets (fun w => w);
              let tcp := l4_tcp (sw_l4 w) in
              ok ← on_tcp y (ipf_state_tcp be (sw_ticks w) (env_newisn (sw_ext w) (sw_fin w)) (ipf_state_tcptq cf)
                               (ipf_state_deletetq cf) tcp (l4_opts (sw_l4 w)));
              if ok =? 0 then
                fin ← gets sw_fin;
                find_tcpudp pr v l (Z.lor oow (Z.land (fin_flx fin) FI_OOW))
              else mret (Some y, oow)
            else mret (Some y, oow)
        end
  end.

(** The retries for entries with wildcards: without the ports, then as the reply to
    a broadcast. *)
Definition may_retry : ST W bool :=
  w ← gets (fun w => w); mret (negb (iss_wild w =? 0) && negb (has (fin_flx (sw_fin w)) FI_NOWILD)).
Definition retry_hash (fin : fr_info) (tryagain hv sport dport : Z) : Z :=
  if tryagain =? 0 then u32 (u32 (hv - dport) - sport)
  else if tryagain =? 1 then
    sum32 (u32 (fin_p fin)) [if fin_out fin =? 0 then i60 (fin_src6 fin) else i60 (fin_dst6 fin); dport; sport]
  else hv.
Fixpoint lookup_tcpudp (n : nat) (tryagain hv oow : Z) : ST W (option loc) :=
  fin ← gets sw_fin;
  let sport := htons be (fin_sport fin) in
  let dport := htons be (fin_dport fin) in
  l ← gets (fun w => sw_table w (DOUBLE_HASH cf hv));
  r ← find_tcpudp (fin_p fin) (fin_v fin) l oow;
  match r with
  | (Some y, _) =>
      e ← st y;
      when_ (negb (tryagain =? 0) && negb (has (is_flags (s_is e)) (Z.lor SI_CLONE (Z.lor SI_WILDP SI_WILDA))))
        (ipf_ipsmove y (sum32 hv [dport; sport]));;
      mret (Some y)
  | (None, oow) =>
      again ← may_retry;
      match n with
      | S n => if again : bool then lookup_tcpudp n (tryagain + 1) (retry_hash fin tryagain hv sport dport) oow
               else upd_sfin (or_flx oow);; mret None
      | O => upd_sfin (or_flx oow);; mret None
      end
  end.

(** The retry of ICMPv6: the address of the sender may not be part of the hash value. *)
Definition sub_src (hv : Z) (a : i6addr) : Z := foldl (fun h x => u32 (h - x)) hv (i6_words a).
Definition lookup_icmp6 (hv : Z) : ST W (option loc) :=
  fin ← gets sw_fin;
  r ← search hv (fin_p fin) (fin_v fin) (try_icmp false);
  match r with
  | Some y => mret (Some y)
  | None =>
      again ← may_retry;
      if again && (fin_v fin =? 6) && negb (IN6_IS_ADDR_MULTICAST (fin_src6 fin)) then
        let hv := sub_src hv (fin_src6 fin) in
        r ← search hv (fin_p fin) (fin_v fin) (try_icmp false);
        match r with
        | Some y =>
            e ← st y;
            when_ (negb (has (is_flags (s_is e)) SI_W_DADDR)) (ipf_ipsmove y (sum32 hv (i6_words (fin_src6 fin))));;
            mret (Some y)
        | None => mret None
        end
      else mret None
  end.

(** The end of [ipf_state_lookup]: the queue is the rule's own, or [ifq]; it is stored
    for some protocols only. *)
Definition lookup_finish (y : option loc) (ifq : option loc) (keep : bool) : ST W (option loc * option loc) :=
  match y with
  | None => mret (None, None)
  | Some y =>
      e ← st y;
      fl ← hp (ent tqe_flags y);
      fin ← gets sw_fin;
      let own := if has fl TQE_RULEBASED then idx (fin_rev fin) (is_tqehead e) else None in
      let ifq := match own with Some q => Some q | None => ifq end in
      mret (Some y, if keep then ifq else None)
  end.

(** [ipf_state_lookup]: the entry, and the queue stored through [ifqp] if one is.
    [icmp6err] is [ipf_checkicmp6matchingstate]. *)
Definition ipf_state_lookup (icmp6err : ST W (option loc)) : ST W (option loc * option loc) :=
  w ← gets (fun w => w);
  let fin := sw_fin w in
  let l4 := sw_l4 w in
  let pr := fin_p fin in
  let v := fin_v fin in
  let hv := lookup_hash fin in
  if pr =? IPPROTO_ICMPV6 then
    let echo := (icmp_type l4 =? ICMP6_ECHO_REQUEST) || (icmp_type l4 =? ICMP6_ECHO_REPLY) in
    r ← lookup_icmp6 (if (v =? 6) && echo then u32 (hv + icmp_id l4) else hv);
    match r with
    | Some y => q ← icmp_queue; lookup_finish (Some y) (Some q) true
    | None => y ← icmp6err; mret (y, None)
    end
  else if pr =? IPPROTO_ICMP then
    r ← search (if v =? 4 then u32 (hv + icmp_id l4) else hv) pr v (try_icmp true);
    q ← icmp_queue;
    lookup_finish r (Some q) true
  else if (pr =? IPPROTO_TCP) || (pr =? IPPROTO_UDP) then
    r ← lookup_tcpudp 2 0 (sum32 hv [htons be (fin_sport fin); htons be (fin_dport fin)]) 0;
    lookup_finish r None false
  else
    r ← search hv pr v (fun x => match_packet x (fin_src6 fin) (fin_dst6 fin) None FI_CMP);
    lookup_finish r (Some (ipf_state_iptq cf)) false.

(** ** ICMP errors *)

(** [ipf_allowstateicmp]: true when the packet is denied. *)
Definition ipf_allowstateicmp (x : loc) (src : i6addr) : ST W bool :=
  e ← st x;
  group ← match is_rule e with None => mret None | Some fr => r ← srule fr; mret (sr_icmpgrp r) end;
  blocked ← match group with
            | None => mret false
            | Some start =>
                w ← gets (fun w => w);
                let savefr := fin_fr (sw_fin w) in
                let '(ipass, fin, ex) := env_scanlist start (sw_fin w <| fin_fr := start |>) (sw_ext w) in
                modify (fun w => w <| sw_fin := fin <| fin_fr := savefr |> |> <| sw_ext := ex |>);;
                mret (FR_ISBLOCK ipass)
            end;
  if (blocked : bool) then mret true else
  e ← st x;
  let backward := negb (IP6_EQ (is_src (s_is e)) src) in
  upd_sfin (fun fin => fin <| fin_rev := b2z (negb backward) |>);;
  fin ← gets sw_fin;
  let i := Z.shiftl (b2z (negb backward)) 1 + fin_out fin in
  let oi := Z.shiftl (b2z backward) 1 + b2z (fin_out fin =? 0) in
  if has (is_pass (s_is e)) FR_NOICMPERR then mret true
  else if at4 0 i (is_icmppkts e) >? at4 0 oi (is_pkts e) then mret true
  else upd_st x (fun e => e <| is_icmppkts ::= fun l => set4 i (at4 0 i l + 1) l |>);; mret false.

(** The loop over the chain of the quoted packet: the entry must match it, and the
    error be allowed.  [want] is the test before [ipf_matchsrcdst], [also] the one
    after it; [ofin] is the summary of the quoted packet. *)
Fixpoint find_quoted (want also : ips -> bool) (src dst : i6addr) (tcp : option l4hdr)
    (l : list loc) (ofin : fr_info) : ST W (option loc) :=
  match l with
  | [] => mret None
  | x :: l =>
      e ← st x;
      if negb (want e) then find_quoted want also src dst tcp l ofin
      else
        '(y, ofin) ← ipf_matchsrcdst ofin x src dst tcp FI_ICMPCMP;
        match y with
        | None => find_quoted want also src dst tcp l ofin
        | Some y =>
            if negb (also e) then find_quoted want also src dst tcp l ofin
            else
              denied ← ipf_allowstateicmp y src;
              if (denied : bool) then find_quoted want also src dst tcp l ofin else mret (Some y)
        end
  end.
Definition search_quoted (hv : Z) (want also : ips -> bool) (src dst : i6addr) (tcp : option l4hdr)
    (ofin : fr_info) : ST W (option loc) :=
  l ← gets (fun w => sw_table w (DOUBLE_HASH cf hv)); find_quoted want also src dst tcp l ofin.

Section Quoted.
Context {B : build} (minfragmtu : Z).
(** The packet, as header parsing left it. *)
Variable pkt : pst.
Definition rd {A} (m : ST pst A) : ST W A := fun w => '(a, _) ← m pkt; Some (a, w).

(** The summary of the packet quoted at offset [o]; its length field, at [at_], is
    replaced by [len] for the time of [ipf_makefrip]. *)
Definition quoted (o at_ len hl : Z) (ofin : fr_info) : ST W fr_info := fun w =>
  let '(b0, b1) := store16 be (htons be (u16 len)) in
  let bs := drop (Z.to_nat o) (ps_bytes pkt) in
  let bs := <[Z.to_nat (at_ + 1) := b1]> (<[Z.to_nat at_ := b0]> bs) in
  let s := pkt <| ps_fin := ofin |> <| ps_m := false |> <| ps_ip := true |> <| ps_len ::= (fun n => n - o) |>
               <| ps_bytes := bs |> in
  match ipf_makefrip be minfragmtu hl s with
  | Some (_, s) => Some (ps_fin s, w)
  | None => None
  end.
Definition quoted_fin (fin : fr_info) (v : Z) : fr_info :=
  fin <| fin_fi ::= fun fi => fi <| fi_flx := FI_NOCKSUM |> <| fi_v := v |> |>.
(** The quoted TCP or UDP header.  The ports are there; what lies behind the buffer
    is taken as zero, and looked at only to bind a wildcard port ([read32 true] is
    [ntohl] of what is read). *)
Definition or_zero (m : ST pst Z) : ST pst Z := fun s => match m s with Some r => Some r | None => Some (0, s) end.
Definition rd_l4 (t : Z) : ST pst l4hdr :=
  sp ← read16 be t; dp ← read16 be (t + 2);
  seq ← or_zero (read32 true (t + 4)); ack ← or_zero (read32 true (t + 8));
  off ← or_zero (read8 (t + 12)); fl ← or_zero (read8 (t + 13));
  win ← or_zero (read16 true (t + 14)); sum ← or_zero (read16 be (t + 16));
  mret (mk_l4hdr (mk_tcphdr seq ack (Z.shiftr off 4) fl win sum) [] sp dp 0 0).

(** [ipf_checkicmpmatchingstate]. *)
Definition ipf_checkicmpmatchingstate : ST W (option loc) :=
  fin ← gets sw_fin;
  if negb (fin_v fin =? 4) || negb (fin_hlen fin =? sizeof_ip) || (fin_plen fin <? ICMPERR_MINPKTLEN) ||
     negb (has (fin_flx fin) FI_ICMPERR) then mret None else
  let o := fin_dp fin + ICMPERR_ICMPHLEN in
  b0 ← rd (read8 o);
  let hl := Z.land b0 0xf in
  if fin_plen fin <? ICMPERR_MAXPKTLEN + Z.shiftl (hl - 5) 2 then mret None else
  let len := fin_dlen fin - ICMPERR_ICMPHLEN in
  if (len <=? 0) || (Z.shiftl hl 2 >? len) then mret None else
  if is_kernel && (ps_len pkt <? o + len) then mret None else
  ofin ← quoted o 2 len (Z.shiftl hl 2) (quoted_fin fin 4);
  let ofin := ofin <| fin_ifp := fin_ifp fin |> <| fin_out := b2z (fin_out fin =? 0) |> in
  pr ← rd (read8 (o + 9));
  s ← rd (read32 be (o + 12));
  d ← rd (read32 be (o + 16));
  let src := mk_i6addr s 0 0 0 in
  let dst := mk_i6addr d 0 0 0 in
  let hv := sum32 pr [s; d] in
  let ofin := ofin <| fin_fi ::= fun fi => fi <| fi_flx ::= fun f => clear f (Z.lor FI_BAD FI_SHORT) |> |> in
  let t := o + Z.shiftl hl 2 in
  if pr =? IPPROTO_ICMP then
    if has (fin_flx ofin) FI_ICMPERR then mret None else
    id ← rd (read16 be (t + 4));
    search_quoted (u32 (hv + id))
      (fun e => (is_p (s_is e) =? pr) && (is_v (s_is e) =? 4) && negb (has (is_pass (s_is e)) FR_NOICMPERR))
      (fun _ => true) src dst None ofin
  else if (pr =? IPPROTO_TCP) || (pr =? IPPROTO_UDP) then
    l4 ← rd (rd_l4 t);
    search_quoted (sum32 hv [th_dport l4; th_sport l4])
      (fun e => (is_p (s_is e) =? pr) && (is_v (s_is e) =? 4)) (fun _ => true) src dst (Some l4) ofin
  else mret None.

(** [ipf_checkicmp6matchingstate]. *)
Definition ipf_checkicmp6matchingstate : ST W (option loc) :=
  fin ← gets sw_fin;
  if negb (fin_v fin =? 6) || (fin_plen fin <? ICMP6ERR_MINPKTLEN) || negb (has (fin_flx fin) FI_ICMPERR)
  then mret None else
  let o := fin_dp fin + ICMPERR_ICMPHLEN in
  if fin_plen fin <? sizeof_ip6 then mret None else
  ofin ← quoted o 4 (fin_dlen fin - ICMPERR_ICMPHLEN) sizeof_ip6
            (quoted_fin fin 6 <| fin_out := b2z (fin_out fin =? 0) |>);
  let ofin := ofin <| fin_fi ::= fun fi => fi <| fi_flx ::= fun f => clear f (Z.lor FI_BAD FI_SHORT) |> |> in
  if has (fin_flx ofin) FI_ICMPERR then mret None else
  nxt ← rd (read8 (o + 6));
  src ← rd (read_in6 be (o + 8));
  dst ← rd (read_in6 be (o + 24));
  if nxt =? IPPROTO_ICMPV6 then
    let oic := o + fin_dp ofin in
    ty ← rd (read8 oic);
    if negb (has ty ICMP6_INFOMSG_MASK) then mret None else
    id ← rd (read16 be (oic + 4));
    seq ← rd (read16 be (oic + 6));
    search_quoted (sum32 nxt [i60 src; i60 dst; id; seq])
      (fun e => (is_p (s_is e) =? nxt) && negb (has (is_pass (s_is e)) FR_NOICMPERR) &&
                (id =? ici_id (is_icmp e)) && (seq =? ici_seq (is_icmp e)))
      (fun e => ((ici_type (is_icmp e) =? ICMP6_ECHO_REPLY) && (ty =? ICMP6_ECHO_REQUEST)) ||
                (ici_type (is_icmp e) - 1 =? ty))
      src dst None ofin
  else
    let hv := sum32 nxt (i6_words src ++ i6_words dst) in
    let want e := (is_p (s_is e) =? nxt) && (is_v (s_is e) =? 6) && negb (has (is_pass (s_is e)) FR_NOICMPERR) in
    if (nxt =? IPPROTO_TCP) || (nxt =? IPPROTO_UDP) then
      l4 ← rd (rd_l4 (o + sizeof_ip6));
      search_quoted (sum32 hv [th_dport l4; th_sport l4]) want (fun _ => true) src dst (Some l4) ofin
    else
      search_quoted hv want (fun _ => true) src dst None ofin.

(** ** [ipf_state_check] *)

(** The tag of the rule, and what the packet takes from the rule: true when the
    packet is refused.  The result of [ipf_matchtag] is used as the code uses it. *)
Definition tag_refused (fin : fr_info) (r : strule) : bool :=
  (fin_out fin =? 0) && negb (nth 0 (sr_nattag r) 0 =? 0) &&
  match fin_nattag fin with
  | None => true
  | Some tag => ipf_matchtag (sr_nattag r) tag
  end.

(** The entry that was found takes the packet: counters, timeout queue, decision. *)
Definition check_hit (x : loc) (ifq : option loc) (passp : Z) : ST W (option loc * Z) :=
  e ← st x;
  fin ← gets sw_fin;
  refused ← match is_rule e with
            | None => mret false
            | Some fr =>
                r ← srule fr;
                if tag_refused fin r then mret true
                else upd_sfin (fun fin => fin <| fin_group ::= strncpy 16 (sr_group r) |> <| fin_icode := sr_icode r |>);;
                     mret false
            end;
  if (refused : bool) then mret (None, passp) else
  upd_sfin (fun fin => fin <| fin_rule := is_rulen e |> <| fin_fr := is_rule e |>);;
  fin ← gets sw_fin;
  when_ (has (fin_flx fin) FI_FRAG && FR_ISPASS (is_pass (s_is e))) (ext_ (env_frag_new fin (is_pass (s_is e))));;
  fl ← hp (ent tqe_flags x);
  let ifq := if has fl TQE_RULEBASED then idx (fin_rev fin) (is_tqehead e) else ifq in
  match ifq with
  | Some q => o ← hp (ent tqe_ifq x); o ← need o; ticks ← gets sw_ticks; hp (ipf_movequeue ticks x o q)
  | None => mret tt
  end;;
  let inout := Z.shiftl (fin_rev fin) 1 + fin_out fin in
  upd_st x (fun e => e <| is_pkts ::= (fun l => set4 inout (at4 0 inout l + 1) l) |>
                       <| is_bytes ::= (fun l => set4 inout (at4 0 inout l + fin_plen fin) l) |>);;
  e ← st x;
  modify (fun w => w <| sw_pktnum := u32 (at4 0 inout (is_pkts e) + at4 0 inout (is_icmppkts e)) |>);;
  when_ (has (is_flags (s_is e)) IS_STATESYNC) (ext_ (env_sync_update x fin));;
  modify (fun w => w <| sw_dif := Some (StDif x) |> <| sw_tif := Some (StTif x (fin_rev fin)) |>);;
  upd_sfin (or_flx FI_STATE);;
  let pass := is_pass (s_is e) in
  mret (is_rule e, if has pass FR_LOGFIRST then clear pass (Z.lor FR_LOGFIRST FR_LOG) else pass).

Definition ipf_state_check (passp : Z) : ST W (option loc * Z) :=
  w ← gets (fun w => w);
  let fin := sw_fin w in
  if negb (sw_lock w =? 0) || bool_decide (sw_list w = []) then mret (None, passp) else
  if has (fin_flx fin) (Z.lor (Z.lor FI_SHORT FI_FRAGBODY) FI_BAD) then mret (None, passp) else
  '(x, ifq) ← ipf_state_lookup ipf_checkicmp6matchingstate;
  fin ← gets sw_fin;
  let p := fin_p fin in
  '(x, ifq) ←
    (if p =? IPPROTO_ICMPV6 then
       match x with
       | Some _ => mret (x, ifq)
       | None => if fin_v fin =? 6 then x ← ipf_checkicmp6matchingstate; mret (x, ifq) else mret (None, ifq)
       end
     else if p =? IPPROTO_ICMP then
       match x with
       | Some _ => mret (x, ifq)
       | None => x ← ipf_checkicmpmatchingstate; mret (x, ifq)
       end
     else if p =? IPPROTO_TCP then
       match x with
       | Some y =>
           e ← st y;
           when_ (has (is_pass (s_is e)) FR_NEWISN)
             (let fix_ f := modify (fun w => w <| sw_l4 ::= fun l => l <| l4_tcp := f be fin (s_is e) (l4_tcp l) |> |>) in
              if fin_out fin =? 0 then fix_ ipf_fixinisn
              else if fin_out fin =? 1 then fix_ ipf_fixoutisn else mret tt);;
           mret (x, ifq)
       | None => mret (None, ifq)
       end
     else mret (x, Some (if fin_rev fin =? 0 then ipf_state_udptq cf else ipf_state_udpacktq cf)));
  match x with
  | None => mret (None, passp)
  | Some x => check_hit x ifq passp
  end.
End Quoted.
End Lookup.
