(* ===== verification/StateInv.v ===== *)
(** Well-formed state tables (State.v): each entry of the table is in one hash chain,
    in the list of entries and on one timeout queue, and the counters count what they
    are said to count.  The operations of State.v complete and preserve this. *)
From S2P Require Import Prelude Packet Cksum Timeoutq TcpAge Queues Sweeps TcpWindow State.

(** ** Well-formed tables *)

Section Inv.
Context {E : Type} `{state_env E} (cf : stconf).
Abbreviation W := (stw E).

(** The queues of the table, in the order of their chain. *)
Definition all_queues : list loc :=
  map (fun s => ipf_state_tcptq cf (Z.of_nat s)) (seq 0 12) ++
  [ipf_state_udptq cf; ipf_state_udpacktq cf; ipf_state_icmptq cf; ipf_state_icmpacktq cf; ipf_state_iptq cf;
   ipf_state_pending cf; ipf_state_deletetq cf].
Definition table_queue (q : loc) : Prop := q ∈ all_queues.

Definition in_table (w : W) (x : loc) : Prop := exists i, x ∈ sw_table w i.
Definition orphaned (w : W) (x : loc) : bool :=
  match sw_states w !! x with Some e => negb (is_hashed e) | None => true end.
Definition rule_held (w : W) (r : loc) (x : loc) : bool :=
  match sw_states w !! x with Some e => bool_decide (is_rule e = Some r) | None => false end.
Definition holders (w : W) (r : loc) : Z := count (rule_held w r) (sw_list w).
Definition busy (w : W) (i : Z) : bool := negb (bool_decide (sw_table w i = [])).

(** What [KMALLOC] will return is not in use. *)
Definition fresh_allocs (w : W) : Prop :=
  NoDup (omap id (sw_allocs w)) /\
  forall x, Some x ∈ sw_allocs w -> sw_states w !! x = None /\ ents (sw_heap w) !! x = None.

(** [fr] is an entry that is not inserted yet, [K] are the queued entries, and [d] is
    how far the count
    of orphans lags behind, [a] how far the count of entries is ahead. *)
Record entry_ok (fr : option loc) (w : W) (x : loc) (e : ips) : Prop := {
  en_sti : is_sti (s_is e) = x;
  en_tqehead : is_tqehead e = (None, None);
  en_me : forall v, is_me e = Some v -> is_Some (sw_saved w !! v);
  en_listed : fr <> Some x -> is_listed e = true;
  en_hashed : fr <> Some x -> is_hashed e = true <-> x ∈ sw_table w (is_hv e) }.
Record tok (fr : option loc) (K : loc -> Prop) (d a : Z) (w : W) : Prop := {
  tk_size : 0 < ipf_state_size cf;
  tk_queues : queues_ok table_queue (sw_ticks w) K (sw_heap w);
  tk_user : parent_var (sw_heap w) = None;
  tk_qchain : queue_chain (sw_heap w) (Some (ipf_state_tcptq cf 0)) all_queues;
  tk_ents : forall x, is_Some (sw_states w !! x) -> is_Some (ents (sw_heap w) !! x);
  tk_entry : forall x e, sw_states w !! x = Some e -> entry_ok fr w x e;
  tk_nodup : NoDup (sw_list w);
  tk_list : forall x, x ∈ sw_list w <-> is_Some (sw_states w !! x) /\ fr <> Some x;
  tk_chain_nodup : forall i, NoDup (sw_table w i);
  tk_chain : forall i x, x ∈ sw_table w i ->
    0 <= i < ipf_state_size cf /\ fr <> Some x /\ exists e, sw_states w !! x = Some e /\ is_hv e = i;
  tk_bucketlen : forall i, iss_bucketlen w i = Z.of_nat (length (sw_table w i));
  tk_active : iss_active w = Z.of_nat (length (sw_list w)) + a;
  tk_orphan : iss_orphan w + d = count (orphaned w) (sw_list w);
  tk_inuse : iss_inuse w = count (busy w) (seqZ 0 (ipf_state_size cf));
  tk_ages : forall r rl, sw_rules w !! r = Some rl -> sr_age rl = (0, 0);
  tk_holders : forall r, 0 < holders w r -> exists rl, sw_rules w !! r = Some rl /\ holders w r <= sr_ref rl;
  tk_allocs : fresh_allocs w }.

(** A table between two operations. *)
Definition table_ok (w : W) : Prop := tok None (in_table w) 0 0 w.
(** An entry was allocated and waits to be inserted. *)
Definition fresh_ok (x : loc) (w : W) : Prop := tok (Some x) (in_table w) 0 0 w /\ is_Some (sw_states w !! x).

(** *** Parts of the state that the invariant does not see *)
Record same_core (w w' : W) : Prop := {
  sc_heap : sw_heap w' = sw_heap w; sc_states : sw_states w' = sw_states w; sc_table : sw_table w' = sw_table w;
  sc_list : sw_list w' = sw_list w; sc_active : iss_active w' = iss_active w; sc_inuse : iss_inuse w' = iss_inuse w;
  sc_orphan : iss_orphan w' = iss_orphan w; sc_bucketlen : iss_bucketlen w' = iss_bucketlen w;
  sc_ticks : sw_ticks w' = sw_ticks w; sc_doflush : sw_doflush w' = sw_doflush w;
  sc_allocs : sw_allocs w' = sw_allocs w;
  sc_saved : forall v, is_Some (sw_saved w !! v) -> is_Some (sw_saved w' !! v);
  sc_rules : forall r rl', sw_rules w' !! r = Some rl' -> exists rl, sw_rules w !! r = Some rl /\ sr_age rl' = sr_age rl;
  sc_refs : forall r rl, sw_rules w !! r = Some rl -> exists rl', sw_rules w' !! r = Some rl' /\ sr_ref rl <= sr_ref rl' }.

Lemma same_core_refl w : same_core w w.
Proof. split; try done; intros r rl Hr; exists rl; by split. Qed.
Lemma same_core_in_table w w' : same_core w w' -> in_table w' = in_table w.
Proof. intros Hs. unfold in_table. by rewrite (sc_table _ _ Hs). Qed.

Lemma entry_ok_same fr w w' x e : same_core w w' -> entry_ok fr w x e -> entry_ok fr w' x e.
Proof.
  intros Hs [? ? Hm ? ?]. split; [done|done|intros v Hv; by apply Hs, Hm|done|by rewrite (sc_table _ _ Hs)].
Qed.
Lemma tok_same fr K d a w w' : same_core w w' -> tok fr K d a w -> tok fr K d a w'.
Proof.
  intros Hs Ht. pose proof Hs as [E1 E2 E3 E4 E5 E6 E7 E8 E9 _ E10 _ Hr Hf].
  assert (Ho : forall x, orphaned w' x = orphaned w x) by (intros x; unfold orphaned; by rewrite E2).
  assert (Hb : forall x, busy w' x = busy w x) by (intros x; unfold busy; by rewrite E3).
  assert (Hh : forall r, holders w' r = holders w r).
  { intros r. unfold holders. rewrite E4. apply count_ext. intros x _. unfold rule_held. by rewrite E2. }
  destruct Ht. split; rewrite ?E1, ?E2, ?E3, ?E4, ?E5, ?E6, ?E7, ?E8, ?E9; try done.
  - intros x e He. eapply entry_ok_same; [done|auto].
  - rewrite tk_orphan0. by apply count_ext.
  - rewrite tk_inuse0. by apply count_ext.
  - intros r rl' Hrl. destruct (Hr _ _ Hrl) as (rl & ? & ->). eauto.
  - intros r Hr0. rewrite Hh in *. destruct (tk_holders0 r Hr0) as (rl & Hrl & ?). destruct (Hf _ _ Hrl) as (rl' & ? & ?).
    exists rl'. split; [done|lia].
  - unfold fresh_allocs. by rewrite E10, E1, E2.
Qed.
Lemma table_ok_same w w' : same_core w w' -> table_ok w -> table_ok w'.
Proof. intros Hs Ht. unfold table_ok. rewrite (same_core_in_table _ _ Hs). by eapply tok_same. Qed.
Lemma fresh_ok_same x w w' : same_core w w' -> fresh_ok x w -> fresh_ok x w'.
Proof.
  intros Hs [Ht Hx]. split; [rewrite (same_core_in_table _ _ Hs); by eapply tok_same|by rewrite (sc_states _ _ Hs)].
Qed.

(** *** Queue operations *)
Definition queue_op {A} (m : ST tqheap A) : Prop := forall I, stable (fun _ => True) I -> keeps I m.
Definition queue_step (h h' : tqheap) : Prop := forall I, stable (fun _ => True) I -> I h -> I h'.
Lemma tok_heap fr K K' d a w h' :
  tok fr K d a w -> queue_step (sw_heap w) h' -> queues_ok table_queue (sw_ticks w) K' h' ->
  tok fr K' d a (w <| sw_heap := h' |>).
Proof.
  intros Ht Hk Hq. destruct Ht. split; try done.
  - by apply (Hk _ (stable_parent _)).
  - by apply (Hk _ (stable_chain _ _)).
  - intros x Hx. apply (Hk _ (stable_present x)). by apply tk_ents0.
  - intros x e Hx. destruct (tk_entry0 x e Hx). by split.
  - split; [apply tk_allocs0|]. intros x Hx. cbn. split; [by apply tk_allocs0|].
    apply (Hk _ (stable_absent x)). by apply tk_allocs0.
Qed.
Lemma tok_hp {A} (m : ST tqheap A) fr K K' d a w r h' :
  tok fr K d a w -> queue_op m -> m (sw_heap w) = Some (r, h') -> queues_ok table_queue (sw_ticks w) K' h' ->
  tok fr K' d a (w <| sw_heap := h' |>).
Proof.
  intros Ht Hm Hrun Hq. apply (tok_heap _ K); [done| |done]. intros I HI Hw.
  by apply (wlp_run _ _ _ _ _ (Hm I HI _ Hw) Hrun).
Qed.

(** *** Updates of an entry *)
Lemma fresh_alter (w : W) f x : fresh_allocs w -> fresh_allocs (w <| sw_states ::= alter f x |>).
Proof.
  intros [Hn Hf]. split; [done|]. intros y Hy. destruct (Hf y Hy) as [Hs ?]. split; [|done]. cbn.
  by rewrite lookup_alter_None.
Qed.
Record same_links (e e' : ips) : Prop := {
  sl_sti : is_sti (s_is e') = is_sti (s_is e); sl_tqehead : is_tqehead e' = is_tqehead e;
  sl_me : is_me e' = is_me e \/ is_me e' = None; sl_listed : is_listed e' = is_listed e;
  sl_hashed : is_hashed e' = is_hashed e; sl_hv : is_hv e' = is_hv e;
  sl_rule : is_rule e' = is_rule e \/ is_rule e' = None }.

Lemma tok_upd_st fr K d a w x f :
  (forall e, sw_states w !! x = Some e -> same_links e (f e)) -> tok fr K d a w ->
  tok fr K d a (w <| sw_states ::= alter f x |>).
Proof.
  intros Hf Ht. set (w' := w <| sw_states ::= alter f x |>).
  assert (Ho : forall y, orphaned w' y = orphaned w y).
  { intros y. unfold orphaned, w'. cbn. destruct (decide (x = y)) as [->|]; [|by rewrite lookup_alter_ne].
    rewrite lookup_alter_eq. destruct (sw_states w !! y) as [e|] eqn:Ee; [|done]. cbn. by rewrite (sl_hashed _ _ (Hf e eq_refl)). }
  assert (Hh : forall r, holders w' r <= holders w r).
  { intros r. unfold holders. change (sw_list w') with (sw_list w). induction (sw_list w) as [|y l IH]; [done|].
    rewrite !count_cons. enough (b2z (rule_held w' r y) <= b2z (rule_held w r y)) by lia.
    unfold rule_held, w'. cbn. destruct (decide (x = y)) as [->|]; [|by rewrite lookup_alter_ne].
    rewrite lookup_alter_eq. destruct (sw_states w !! y) as [e|] eqn:Ee; [|done]. cbn.
    destruct (sl_rule _ _ (Hf e eq_refl)) as [-> | ->]; [done|]. rewrite bool_decide_false by done. apply b2z_range. }
  destruct Ht. split; try done.
  - intros y Hy. apply alter_some in Hy. auto.
  - intros y e' He'. cbn in He'. apply lookup_alter_cases in He' as [(-> & e & He & ->)|[Hne He]].
    + destruct (Hf e He) as [E1 E2 Hm Hl Hhs Hv _]. destruct (tk_entry0 x e He) as [? ? Hme ? ?].
      split; [by rewrite E1|by rewrite E2| |by rewrite Hl|by rewrite Hhs, Hv].
      intros v Hv'. apply Hme. destruct Hm as [Hm|Hm]; congruence.
    + destruct (tk_entry0 y e' He). by split.
  - intros y. cbn. by rewrite alter_some.
  - intros i y Hy. destruct (tk_chain0 i y Hy) as (? & ? & e & He & Hi). split_and!; [lia|lia|done|].
    cbn. destruct (decide (x = y)) as [->|]; [|exists e; by rewrite lookup_alter_ne].
    exists (f e). rewrite lookup_alter_eq, He. split; [done|]. by rewrite (sl_hv _ _ (Hf e He)).
  - cbn. rewrite tk_orphan0. apply count_ext. intros y _. by rewrite Ho.
  - intros r Hr. destruct (tk_holders0 r) as (rl & ? & ?); [specialize (Hh r); lia|]. exists rl. split; [done|].
    specialize (Hh r). lia.
  - by apply fresh_alter.
Qed.

(** *** Linking and unlinking *)
Definition linked (x : loc) (hv : Z) (w : W) : W :=
  w <| sw_states ::= alter (fun e => e <| is_listed := true |> <| is_hashed := true |>) x |>
    <| sw_list ::= cons x |>
    <| iss_inuse := iss_inuse w + b2z (bool_decide (sw_table w hv = [])) |>
    <| sw_table ::= upd_at hv (cons x) |>
    <| iss_bucketlen ::= upd_at hv (fun n => n + 1) |>
    <| iss_active := iss_active w + 1 |>.
Lemma upd_st_run x f (w : W) e : sw_states w !! x = Some e -> upd_st x f w = Some (tt, w <| sw_states ::= alter f x |>).
Proof. intros E0. unfold upd_st. by rewrite E0. Qed.
Lemma st_run x (w : W) e : sw_states w !! x = Some e -> st x w = Some (e, w).
Proof. intros E0. unfold st. by rewrite E0. Qed.

Lemma link_run x hv w e : sw_states w !! x = Some e -> link_state x hv w = Some (tt, linked x hv w).
Proof.
  intros E0. unfold link_state.
  rewrite (bind_eq _ _ _ _ _ (upd_st_run _ _ _ _ E0)).
  rewrite (bind_eq _ _ _ tt _ eq_refl), (bind_eq _ _ _ _ _ eq_refl).
  rewrite (bind_eq _ _ _ tt (w <| sw_states ::= alter (fun e => e <| is_listed := true |>) x |>
    <| sw_list ::= cons x |> <| iss_inuse := iss_inuse w + b2z (bool_decide (sw_table w hv = [])) |>)).
  2: { cbn. unfold when_, modify. destruct (bool_decide (sw_table w hv = [])); cbn; [done|]. by rewrite Z.add_0_r. }
  erewrite bind_eq by (eapply upd_st_run; cbn; by apply lookup_alter_Some_eq).
  cbn. unfold linked. cbn. rewrite alter_twice. done.
Qed.

Lemma seqZ_mem i n : i ∈ seqZ 0 n <-> 0 <= i < n.
Proof. rewrite elem_of_seqZ. lia. Qed.

Lemma tok_link K d a w x e hv :
  tok (Some x) K d a w -> sw_states w !! x = Some e -> is_hv e = hv -> 0 <= hv < ipf_state_size cf ->
  (forall r, is_rule e = Some r -> exists rl, sw_rules w !! r = Some rl /\ holders w r < sr_ref rl) ->
  tok None K d a (linked x hv w).
Proof.
  intros Ht He Hhv Hsz Hr. set (w' := linked x hv w).
  set (f := fun e : ips => e <| is_listed := true |> <| is_hashed := true |>).
  assert (Es : sw_states w' = alter f x (sw_states w)) by done.
  assert (Hx : x ∉ sw_list w) by (intros [_ Hn]%(tk_list _ _ _ _ _ Ht); done).
  assert (Htb : forall i, x ∉ sw_table w i) by (intros i (_ & Hn & _)%(tk_chain _ _ _ _ _ Ht); done).
  assert (Hne : forall y, y ∈ sw_list w -> x <> y) by (intros y Hy ->; done).
  destruct Ht. split; try done.
  - intros y Hy. rewrite Es in Hy. apply alter_some in Hy. auto.
  - intros y e' He'. rewrite Es in He'. apply lookup_alter_cases in He' as [(-> & e0 & He0 & ->)|[Hyx He']].
    + rewrite He in He0. injection He0 as <-. destruct (tk_entry0 x e He) as [? ? ? _ _]. split; try done.
      intros _. cbn. rewrite Hhv, upd_at_eq. split; [by left|done].
    + destruct (tk_entry0 y e' He') as [? ? ? Hl Hh]. split; try done; intros _; [apply Hl; congruence|].
      rewrite Hh by congruence. cbn. destruct (decide (is_hv e' = hv)) as [->|Hn]; [|by rewrite upd_at_ne].
      rewrite upd_at_eq. set_solver.
  - by apply NoDup_cons.
  - intros y. rewrite Es, alter_some. cbn. rewrite elem_of_cons, tk_list0. split.
    + intros [->|[? ?]]; by eauto.
    + intros [Hy _]. destruct (decide (y = x)) as [->|]; [by left|right]. split; [done|congruence].
  - intros i. cbn. unfold upd_at. case_match; [|done]. apply NoDup_cons. split; [apply Htb|apply tk_chain_nodup0].
  - intros i y Hy. rewrite Es. assert (Hold : y ∈ sw_table w i -> 0 <= i < ipf_state_size cf /\ None <> Some y /\
        exists e', alter f x (sw_states w) !! y = Some e' /\ is_hv e' = i).
    { intros Hy'. destruct (tk_chain0 i y Hy') as (? & Hyx & e' & He' & Hi). split; [done|]. split; [done|].
      exists e'. split; [|done]. rewrite lookup_alter_ne; congruence. }
    cbn in Hy. destruct (decide (i = hv)) as [->|]; [|rewrite upd_at_ne in Hy by done; auto].
    rewrite upd_at_eq in Hy. apply elem_of_cons in Hy as [->|Hy]; [|auto].
    split; [done|]. split; [done|]. exists (f e). split; [by apply lookup_alter_Some_eq|done].
  - intros i. cbn. destruct (decide (i = hv)) as [->|]; [|by rewrite !upd_at_ne].
    rewrite !upd_at_eq, tk_bucketlen0. cbn. lia.
  - cbn. rewrite tk_active0. lia.
  - cbn [sw_list w' linked field_set]. cbn. rewrite tk_orphan0, count_cons.
    replace (orphaned w' x) with false by (unfold orphaned; rewrite Es, (lookup_alter_Some_eq _ _ _ _ He); done).
    cbn [b2z]. rewrite Z.add_0_l. apply count_ext. intros y Hy.
    unfold orphaned. rewrite Es. by rewrite lookup_alter_ne by auto.
  - cbn. rewrite tk_inuse0.
    rewrite (count_upd (busy w) (busy w') _ hv); [|apply NoDup_seqZ|by apply seqZ_mem|].
    + assert (busy w' hv = true) as -> by (unfold busy; cbn; by rewrite upd_at_eq).
      assert (b2z (busy w hv) = 1 - b2z (bool_decide (sw_table w hv = []))) by (unfold busy; by case_bool_decide).
      cbn [b2z]. lia.
    + intros i Hi. unfold busy. cbn. by rewrite upd_at_ne.
  - intros r. unfold holders. cbn [sw_list w' linked field_set]. cbn. rewrite count_cons.
    assert (Ec : count (rule_held w' r) (sw_list w) = holders w r).
    { apply count_ext. intros y Hy. unfold rule_held. rewrite Es. by rewrite lookup_alter_ne by auto. }
    rewrite Ec. assert (Eh : rule_held w' r x = bool_decide (is_rule e = Some r)).
    { unfold rule_held. by rewrite Es, (lookup_alter_Some_eq _ _ _ _ He). }
    rewrite Eh. case_bool_decide as Hre; cbn [b2z]; intros Hpos.
    + destruct (Hr r Hre) as (rl & ? & ?). exists rl. split; [done|lia].
    + destruct (tk_holders0 r) as (rl & ? & ?); [lia|]. exists rl. split; [done|lia].
  - by apply (fresh_alter w).
Qed.
Lemma in_table_linked w x hv y : in_table (linked x hv w) y <-> in_table w y \/ y = x.
Proof.
  unfold in_table. cbn. split.
  - intros [i Hi]. destruct (decide (i = hv)) as [->|]; [|rewrite upd_at_ne in Hi by done; left; eauto].
    rewrite upd_at_eq in Hi. apply elem_of_cons in Hi as [->|Hi]; [by right|left; eauto].
  - intros [[i Hi]| ->]; [|exists hv; rewrite upd_at_eq; apply elem_of_cons; by left].
    exists i. destruct (decide (i = hv)) as [->|]; [rewrite upd_at_eq; apply elem_of_cons; by right|by rewrite upd_at_ne].
Qed.

(** Out of the hash chain: the entry is an orphan until it is counted or freed. *)
Definition unhashed (x : loc) (hv : Z) (w : W) : W :=
  w <| sw_table := fun i => without x (sw_table w i) |>
    <| iss_inuse := iss_inuse w - b2z (bool_decide (without x (sw_table w hv) = [])) |>
    <| iss_bucketlen ::= upd_at hv (fun n => n - 1) |>
    <| sw_states ::= alter (fun e => e <| is_hashed := false |>) x |>.
Lemma unhash_run x w e : sw_states w !! x = Some e -> unhash_state x w = Some (tt, unhashed x (is_hv e) w).
Proof.
  intros E0. unfold unhash_state. rewrite (bind_eq _ _ _ tt _ eq_refl).
  erewrite bind_eq by (by apply st_run). rewrite (bind_eq _ _ _ _ _ eq_refl).
  rewrite (bind_eq _ _ _ tt (w <| sw_table := fun i => without x (sw_table w i) |>
    <| iss_inuse := iss_inuse w - b2z (bool_decide (without x (sw_table w (is_hv e)) = [])) |>)).
  2: { cbn. unfold when_, modify. destruct (bool_decide _); cbn; [done|]. by rewrite Z.sub_0_r. }
  rewrite (bind_eq _ _ _ tt _ eq_refl). erewrite upd_st_run by done. done.
Qed.

Lemma tok_unhash K d a w x e :
  tok None K d a w -> sw_states w !! x = Some e -> is_hashed e = true -> tok None K (d + 1) a (unhashed x (is_hv e) w).
Proof.
  intros Ht He Hh. set (hv := is_hv e). set (w' := unhashed x hv w).
  set (f := fun e : ips => e <| is_hashed := false |>).
  assert (Es : sw_states w' = alter f x (sw_states w)) by done.
  assert (Hx : x ∈ sw_table w hv) by by apply (en_hashed _ _ _ _ (tk_entry _ _ _ _ _ Ht x e He)).
  assert (Hxl : x ∈ sw_list w) by (apply (tk_list _ _ _ _ _ Ht); split; [by eexists|done]).
  assert (Hother : forall i, i <> hv -> x ∉ sw_table w i).
  { intros i Hi Hxi. destruct (tk_chain _ _ _ _ _ Ht _ _ Hxi) as (_ & _ & e0 & He0 & Ei). unfold hv in Hi. congruence. }
  assert (Hsz : 0 <= hv < ipf_state_size cf) by by apply (tk_chain _ _ _ _ _ Ht hv x Hx).
  destruct Ht. split; try done.
  - intros y Hy. rewrite Es in Hy. apply alter_some in Hy. auto.
  - intros y e' He'. rewrite Es in He'. apply lookup_alter_cases in He' as [(-> & e0 & He0 & ->)|[Hyx He']].
    + rewrite He in He0. injection He0 as <-. destruct (tk_entry0 x e He) as [? ? ? ? _]. split; try done.
      intros _. cbn. rewrite elem_without. naive_solver.
    + destruct (tk_entry0 y e' He') as [? ? ? ? Hh']. split; try done. intros _. cbn. rewrite elem_without, Hh' by done. tauto.
  - intros y. rewrite Es, alter_some. apply tk_list0.
  - intros i. cbn. by apply without_NoDup.
  - intros i y. cbn. rewrite elem_without. intros [Hy Hyx]. destruct (tk_chain0 i y Hy) as (? & ? & e' & He' & ?).
    split; [done|]. split; [done|]. exists e'. split; [|done]. fold f. by rewrite lookup_alter_ne by congruence.
  - intros i. cbn. destruct (decide (i = hv)) as [->|Hi].
    + rewrite upd_at_eq, tk_bucketlen0. symmetry. by apply length_without.
    + rewrite upd_at_ne by done. rewrite without_notin by auto. auto.
  - cbn [sw_list w' unhashed field_set]. cbn.
    rewrite (count_upd (orphaned w) (orphaned w') _ x); [|done|done|].
    + assert (orphaned w' x = true) as -> by (unfold orphaned; by rewrite Es, (lookup_alter_Some_eq _ _ _ _ He)).
      assert (orphaned w x = false) as -> by (unfold orphaned; by rewrite He, Hh). cbn [b2z]. lia.
    + intros y Hy. unfold orphaned. rewrite Es. by rewrite lookup_alter_ne by congruence.
  - cbn. rewrite tk_inuse0. rewrite (count_upd (busy w) (busy w') _ hv); [|apply NoDup_seqZ|by apply seqZ_mem|].
    + assert (busy w hv = true) as ->.
      { unfold busy. rewrite bool_decide_false; [done|]. intros En. rewrite En in Hx. by apply elem_of_nil in Hx. }
      assert (b2z (busy w' hv) = 1 - b2z (bool_decide (without x (sw_table w hv) = []))) by (unfold busy; cbn; by case_bool_decide).
      cbn [b2z]. lia.
    + intros i Hi. unfold busy. cbn. by rewrite without_notin by auto.
  - intros r. cbn. change (holders w' r) with (count (rule_held w' r) (sw_list w)).
    rewrite (count_ext (rule_held w' r) (rule_held w r)); [apply tk_holders0|].
    intros y _. unfold rule_held. rewrite Es. destruct (decide (x = y)) as [->|]; [|by rewrite lookup_alter_ne].
    by rewrite (lookup_alter_Some_eq _ _ _ _ He), He.
  - by apply (fresh_alter w).
Qed.
Lemma in_table_unhashed w x hv y : in_table (unhashed x hv w) y <-> in_table w y /\ y <> x.
Proof. unfold in_table. cbn. setoid_rewrite elem_without. naive_solver. Qed.

(** *** Freeing *)

(** Off the list of entries. *)
Lemma tok_unlist K d a w x e :
  tok None K d a w -> sw_states w !! x = Some e -> is_hashed e = false -> is_rule e = None ->
  tok (Some x) K (d - 1) (a + 1) (w <| sw_list ::= without x |> <| sw_states ::= alter (fun e => e <| is_listed := false |>) x |>).
Proof.
  intros Ht He Hh Hr. set (f := fun e : ips => e <| is_listed := false |>).
  set (w' := w <| sw_list ::= without x |> <| sw_states ::= alter f x |>).
  assert (Es : sw_states w' = alter f x (sw_states w)) by done.
  assert (Hx : x ∉ sw_table w (is_hv e)).
  { intros Hx. by rewrite (proj2 (en_hashed _ _ _ _ (tk_entry _ _ _ _ _ Ht x e He) ltac:(done)) Hx) in Hh. }
  assert (Htb : forall i, x ∉ sw_table w i).
  { intros i Hxi. destruct (tk_chain _ _ _ _ _ Ht _ _ Hxi) as (_ & _ & e0 & He0 & <-). congruence. }
  assert (Hxl : x ∈ sw_list w) by (apply (tk_list _ _ _ _ _ Ht); split; [by eexists|done]).
  assert (Ho : forall y, orphaned w' y = orphaned w y).
  { intros y. unfold orphaned. rewrite Es. destruct (decide (x = y)) as [->|]; [|by rewrite lookup_alter_ne].
    by rewrite (lookup_alter_Some_eq _ _ _ _ He), He. }
  assert (Hw : forall r y, rule_held w' r y = rule_held w r y).
  { intros r y. unfold rule_held. rewrite Es. destruct (decide (x = y)) as [->|]; [|by rewrite lookup_alter_ne].
    by rewrite (lookup_alter_Some_eq _ _ _ _ He), He. }
  pose proof (tk_nodup _ _ _ _ _ Ht) as Hn.
  assert (Hc : forall P, count P (without x (sw_list w)) = count P (sw_list w) - b2z (P x)).
  { intros P. apply list_elem_of_split in Hxl as (l1 & l2 & El). rewrite El in *.
    rewrite without_mid by (by apply mid_notin). rewrite !count_app, count_cons. lia. }
  destruct Ht. split; try done.
  - intros y Hy. rewrite Es in Hy. apply alter_some in Hy. auto.
  - intros y e' He'. rewrite Es in He'. apply lookup_alter_cases in He' as [(-> & e0 & He0 & ->)|[Hyx He']].
    + rewrite He in He0. injection He0 as <-. by destruct (tk_entry0 x e He).
    + destruct (tk_entry0 y e' He') as [? ? ? Hl Hh']. split; try done; intros _; auto.
  - cbn. by apply without_NoDup.
  - intros y. rewrite Es, alter_some. cbn. rewrite elem_without, tk_list0. naive_solver.
  - intros i y Hy. destruct (tk_chain0 i y Hy) as (? & _ & e' & He' & ?). assert (x <> y) by (intros ->; by eapply Htb).
    split; [done|]. split; [congruence|]. exists e'. rewrite Es, lookup_alter_ne; done.
  - cbn. rewrite tk_active0, length_without by done. lia.
  - assert (Ex : orphaned w x = true) by (unfold orphaned; by rewrite He, Hh).
    pose proof (Hc (orphaned w)) as Hcx. rewrite Ex in Hcx. cbn [b2z] in Hcx.
    change (sw_list w') with (without x (sw_list w)). change (iss_orphan w') with (iss_orphan w).
    rewrite (count_ext _ (orphaned w)) by auto. lia.
  - intros r. unfold holders. cbn. rewrite (count_ext _ (rule_held w r)) by auto. rewrite Hc.
    replace (rule_held w r x) with false by (unfold rule_held; rewrite He, Hr; done). cbn [b2z]. rewrite Z.sub_0_r. apply tk_holders0.
  - by apply (fresh_alter w).
Qed.

(** The counters. *)
Lemma tok_orphan_dec fr K d a w n : tok fr K d a w -> tok fr K (d - n) a (w <| iss_orphan ::= fun o => o + n |>).
Proof.
  intros []. split; try done; [intros x e He; by destruct (tk_entry0 x e He)|].
  transitivity (count (orphaned w) (sw_list w)); [rewrite <- tk_orphan0; cbn; lia|done].
Qed.
Lemma tok_active_dec fr K d a w n : tok fr K d a w -> tok fr K d (a - n) (w <| iss_active ::= fun o => o - n |>).
Proof. intros []. split; try done; [intros x e He; by destruct (tk_entry0 x e He)|]. cbn. rewrite tk_active0. lia. Qed.

(** A reference on a rule is given up; a rule without references goes. *)
Lemma tok_rule fr K d a w m :
  tok fr K d a w -> (forall r rl', m !! r = Some rl' -> exists rl, sw_rules w !! r = Some rl /\ sr_age rl' = sr_age rl) ->
  (forall r, 0 < holders w r -> exists rl, m !! r = Some rl /\ holders w r <= sr_ref rl) ->
  tok fr K d a (w <| sw_rules := m |>).
Proof.
  intros [] Hm Hh. split; try done.
  - intros x e He. by destruct (tk_entry0 x e He).
  - intros r rl' Hrl. destruct (Hm r rl' Hrl) as (rl & ? & ->). eauto.
Qed.
(** The rules are changed. *)
Lemma tok_rule_ages fr K d a w m :
  tok fr K d a w -> (forall r rl, m !! r = Some rl -> sr_age rl = (0, 0)) ->
  (forall r, 0 < holders w r -> exists rl, m !! r = Some rl /\ holders w r <= sr_ref rl) ->
  tok fr K d a (w <| sw_rules := m |>).
Proof. intros [] Hm Hh. split; try done. intros x e He. by destruct (tk_entry0 x e He). Qed.
Lemma derefrule_run fr K d a w r rl :
  tok fr K d a w -> sw_rules w !! r = Some rl -> holders w r < sr_ref rl ->
  exists m, ipf_derefrule r w = Some (tt, w <| sw_rules := m |>) /\ tok fr K d a (w <| sw_rules := m |>).
Proof.
  intros Ht Hr Hh. unfold ipf_derefrule.
  assert (Eu : forall f, upd_srule r f w = Some (tt, w <| sw_rules ::= alter f r |>)) by (intros f; unfold upd_srule; by rewrite Hr).
  rewrite (bind_eq _ _ _ _ _ (Eu _)). set (f := fun r : strule => r <| sr_ref ::= fun x => x - 1 |>).
  set (m1 := alter f r (sw_rules w)). change (w <| sw_rules ::= alter f r |>) with (w <| sw_rules := m1 |>).
  assert (Em : m1 !! r = Some (f rl)) by (by apply lookup_alter_Some_eq).
  assert (Es : srule r (w <| sw_rules := m1 |>) = Some (f rl, w <| sw_rules := m1 |>)).
  { unfold srule. change (sw_rules (w <| sw_rules := m1 |>)) with m1. by rewrite Em. }
  rewrite (bind_eq _ _ _ _ _ Es). clear Es Eu.
  assert (Hk : forall s, 0 < holders w s -> s <> r -> exists rl0, sw_rules w !! s = Some rl0 /\ m1 !! s = Some rl0 /\ holders w s <= sr_ref rl0).
  { intros s Hs Hne. destruct (tk_holders _ _ _ _ _ Ht s Hs) as (rl0 & ? & ?). exists rl0. split; [done|]. split; [|done].
    unfold m1. by rewrite lookup_alter_ne by congruence. }
  assert (Ha : forall s rl', m1 !! s = Some rl' -> exists rl0, sw_rules w !! s = Some rl0 /\ sr_age rl' = sr_age rl0).
  { intros s rl' [(-> & rl0 & ? & ->)|[? ?]]%lookup_alter_cases; eauto. }
  destruct (Z.eqb_spec (sr_ref (f rl)) 0) as [E0|E0].
  - exists (delete r m1). split; [done|]. apply (tok_rule _ _ _ _ w); [done| |].
    + intros s rl' [? Hs]%lookup_delete_Some. eauto.
    + intros s Hs. assert (s <> r). { intros ->. cbn in E0. lia. }
      destruct (Hk s Hs) as (rl0 & ? & ? & ?); [done|]. exists rl0. by rewrite lookup_delete_ne by congruence.
  - exists m1. split; [done|]. apply (tok_rule _ _ _ _ w); [done|done|].
    intros s Hs. destruct (decide (s = r)) as [->|Hne]; [|destruct (Hk s Hs Hne) as (rl0 & ? & ? & ?); eauto].
    exists (f rl). split; [done|]. cbn. lia.
Qed.

(** The memory of the entry. *)
Lemma tok_delete K d a w x :
  tok (Some x) K d a w -> ~ K x ->
  tok None K d a (w <| sw_states ::= delete x |> <| sw_heap ::= (fun h => h <| ents ::= delete x |>) |>).
Proof.
  intros [] HK. split; try done.
  - by apply qok_free.
  - intros y. cbn. intros [e [Hne He]%lookup_delete_Some]. rewrite lookup_delete_ne by done. apply tk_ents0. by eexists.
  - intros y e. cbn. intros [Hne He]%lookup_delete_Some. destruct (tk_entry0 y e He) as [? ? ? Hl Hh].
    split; try done; intros _; [apply Hl|apply Hh]; congruence.
  - intros y. cbn. rewrite tk_list0. unfold is_Some. setoid_rewrite lookup_delete_Some. naive_solver.
  - intros i y Hy. destruct (tk_chain0 i y Hy) as (? & Hne & e & He & ?). split; [done|]. split; [done|].
    exists e. split; [|done]. cbn. by rewrite lookup_delete_ne by congruence.
  - cbn. rewrite tk_orphan0. apply count_ext. intros y [_ Hy]%tk_list0. unfold orphaned. cbn.
    by rewrite lookup_delete_ne by congruence.
  - intros r. unfold holders. cbn. rewrite (count_ext _ (rule_held w r)); [apply tk_holders0|].
    intros y [_ Hy]%tk_list0. unfold rule_held. cbn. by rewrite lookup_delete_ne by congruence.
  - split; [apply tk_allocs0|]. intros y Hy. apply tk_allocs0 in Hy as [? ?]. cbn. by rewrite !lookup_delete_None; auto.
Qed.

(** Updates the invariant does not see, one after the other. *)
Lemma same_core_trans w1 w2 w3 : same_core w1 w2 -> same_core w2 w3 -> same_core w1 w3.
Proof.
  intros [] []. split; try congruence; [auto|..].
  - intros r rl Hr. destruct (sc_rules1 r rl Hr) as (rl1 & Hr1 & ->). by apply sc_rules0.
  - intros r rl Hr. destruct (sc_refs0 r rl Hr) as (rl1 & Hr1 & ?). destruct (sc_refs1 r rl1 Hr1) as (rl2 & ? & ?).
    exists rl2. split; [done|lia].
Qed.
Ltac same_core := by (split; try done; intros r0 rl0 Hr0; exists rl0; by split).
Lemma same_core_ext w e : same_core w (w <| sw_ext := e |>).
Proof. same_core. Qed.
Lemma same_core_rule w r f : (forall rl, sr_age (f rl) = sr_age rl /\ sr_ref rl <= sr_ref (f rl)) ->
  same_core w (w <| sw_rules ::= alter f r |>).
Proof.
  intros Hf. split; try done; cbn.
  - intros s rl' [(-> & rl & ? & ->)|[? ?]]%lookup_alter_cases; [|by exists rl']. exists rl. split; [done|]. apply Hf.
  - intros s rl Hs. destruct (decide (r = s)) as [->|]; [|exists rl; by rewrite lookup_alter_ne].
    exists (f rl). rewrite (lookup_alter_Some_eq _ _ _ _ Hs). split; [done|]. apply Hf.
Qed.

(** What a step leaves alone. *)
Record quiet (x : loc) (w w' : W) : Prop := {
  qt_ticks : sw_ticks w' = sw_ticks w;
  qt_doflush : sw_doflush w' = sw_doflush w;
  qt_states : forall y, y <> x -> sw_states w' !! y = sw_states w !! y;
  qt_timing : forall y, y <> x -> timing (sw_heap w') y = timing (sw_heap w) y }.
Lemma quiet_refl x w : quiet x w w.
Proof. done. Qed.
Lemma same_links_refl e : same_links e e.
Proof. split; auto. Qed.
Lemma quiet_trans x w1 w2 w3 : quiet x w1 w2 -> quiet x w2 w3 -> quiet x w1 w3.
Proof. intros [E1 E0 E2 E3] [F1 F0 F2 F3]. split; [congruence|congruence|..]; intros y Hy; [by rewrite F2, E2|by rewrite F3, E3]. Qed.
Lemma quiet_core x w w' : same_core w w' -> quiet x w w'.
Proof. intros Hs. split; intros; [apply Hs|apply Hs|by rewrite (sc_states _ _ Hs)|by rewrite (sc_heap _ _ Hs)]. Qed.

(** What only the flush reads. *)
Lemma tok_forget fr K d a w f l : tok fr K d a w -> tok fr K d a (w <| sw_doflush := f |> <| sw_wm_last := l |>).
Proof. intros []. split; try done. intros x e He. by destruct (tk_entry0 x e He). Qed.

(** The variable that refers to the entry. *)
Lemma forget_me_run fr K d a w x e :
  tok fr K d a w -> sw_states w !! x = Some e ->
  exists w' e', forget_me x w = Some (tt, w') /\ tok fr K d a w' /\ sw_states w' !! x = Some e' /\ same_links e e' /\
    s_is e' = s_is e /\ is_rule e' = is_rule e /\ quiet x w w' /\ sw_heap w' = sw_heap w /\
    sw_table w' = sw_table w /\ sw_list w' = sw_list w.
Proof.
  intros Ht He. unfold forget_me. rewrite (bind_eq _ _ _ _ _ (st_run _ _ _ He)).
  destruct (is_me e) as [v|] eqn:Ev.
  2: { exists w, e. split; [done|]. auto 20 using same_links_refl, quiet_refl. }
  rewrite (bind_eq _ _ _ _ _ eq_refl).
  destruct (en_me _ _ _ _ (tk_entry _ _ _ _ _ Ht x e He) v Ev) as [o Ho].
  assert (En : need (sw_saved w !! v) w = Some (o, w)) by (unfold need; by rewrite Ho).
  rewrite (bind_eq _ _ _ _ _ En), (bind_eq _ _ _ tt _ eq_refl).
  set (w1 := w <| sw_saved ::= <[v := None]> |>). set (f := fun e : ips => e <| is_me := None |> <| is_ref ::= fun n => n - 1 |>).
  assert (Hs : same_core w w1).
  { split; try done; [|by intros r rl Hr; exists rl..]. intros u Hu. apply lookup_insert_is_Some'. by right. }
  assert (Hl : forall e, same_links e (f e)) by (intros; split; auto).
  exists (w1 <| sw_states ::= alter f x |>), (f e).
  split; [by apply upd_st_run with e|]. split; [apply tok_upd_st; [auto|by eapply tok_same]|].
  split; [by apply lookup_alter_Some_eq|]. split; [auto|]. split_and!; try done.
  split; try done. intros y Hy. cbn. by rewrite lookup_alter_ne by congruence.
Qed.

(** The last reference goes. *)
Lemma holders_in K d a w x e r :
  tok None K d a w -> sw_states w !! x = Some e -> is_rule e = Some r -> 0 < holders w r.
Proof.
  intros Ht He Hr. assert (Hx : x ∈ sw_list w) by (apply (tk_list _ _ _ _ _ Ht); split; [by eexists|done]).
  unfold holders. apply list_elem_of_split in Hx as (l1 & l2 & ->). rewrite count_app, count_cons.
  replace (rule_held w r x) with true by (unfold rule_held; rewrite He, Hr; by rewrite bool_decide_true).
  pose proof (count_nonneg (rule_held w r) l1). pose proof (count_nonneg (rule_held w r) l2). cbn [b2z]. lia.
Qed.
Lemma holders_drop K d a w x e r :
  tok None K d a w -> sw_states w !! x = Some e -> is_rule e = Some r ->
  holders (w <| sw_states ::= alter (fun e => e <| is_rule := None |>) x |>) r = holders w r - 1.
Proof.
  intros Ht He Hr. set (w' := w <| sw_states ::= _ |>).
  assert (Hx : x ∈ sw_list w) by (apply (tk_list _ _ _ _ _ Ht); split; [by eexists|done]).
  unfold holders. change (sw_list w') with (sw_list w).
  rewrite (count_upd (rule_held w r) (rule_held w' r) _ x); [|by eapply tk_nodup|done|].
  - replace (rule_held w r x) with true by (unfold rule_held; rewrite He, Hr; by rewrite bool_decide_true).
    replace (rule_held w' r x) with false; [cbn [b2z]; lia|].
    unfold rule_held, w'. cbn. by rewrite (lookup_alter_Some_eq _ _ _ _ He).
  - intros y Hy. unfold rule_held, w'. cbn. by rewrite lookup_alter_ne by congruence.
Qed.

Definition release_rule (fr : option loc) : ST W unit :=
  match fr with
  | Some r => upd_srule r (fun r => r <| sr_statecnt ::= fun n => n - 1 |>);; ipf_derefrule r
  | None => mret tt
  end.
Lemma upd_srule_run r f (w : W) rl : sw_rules w !! r = Some rl ->
  upd_srule r f w = Some (tt, w <| sw_rules ::= alter f r |>).
Proof. intros Hr. unfold upd_srule. by rewrite Hr. Qed.
Lemma release_run y K d a w fr :
  tok y K d a w -> (forall r, fr = Some r -> exists rl, sw_rules w !! r = Some rl /\ holders w r < sr_ref rl) ->
  exists m, release_rule fr w = Some (tt, w <| sw_rules := m |>) /\ tok y K d a (w <| sw_rules := m |>).
Proof.
  intros Ht Hr. destruct fr as [r|]; [|by exists (sw_rules w); destruct w].
  destruct (Hr r eq_refl) as (rl & Hrl & Hh). cbn [release_rule].
  rewrite (bind_eq _ _ _ _ _ (upd_srule_run _ _ _ _ Hrl)).
  set (f := fun r : strule => r <| sr_statecnt ::= fun n => n - 1 |>).
  set (w1 := w <| sw_rules ::= alter f r |>).
  assert (Hs : same_core w w1) by (apply same_core_rule; intros; split; [done|cbn; lia]).
  destruct (derefrule_run y K d a w1 r (f rl)) as (m & Hm & Ht');
    [by eapply tok_same|by apply lookup_alter_Some_eq|done|].
  exists m. by split.
Qed.

Lemma free_state_run K d w x e why orphan :
  tok None K d 0 w -> sw_states w !! x = Some e -> is_hashed e = false -> ~ K x -> d + b2z orphan = 1 ->
  exists w', free_state cf x why orphan w = Some (tt, w') /\ tok None K 0 0 w' /\ sw_states w' !! x = None /\
    sw_table w' = sw_table w /\ sw_list w' = without x (sw_list w) /\ quiet x w w' /\
    sw_heap w' = sw_heap w <| ents ::= delete x |>.
Proof.
  intros Ht He Hh HK Hd. unfold free_state. cbv zeta.
  rewrite (bind_eq _ _ _ _ _ (st_run _ _ _ He)), (bind_eq _ _ _ _ _ (upd_st_run _ _ _ _ He)).
  set (f1 := fun e : ips => e <| is_rule := None |>). set (w1 := w <| sw_states ::= alter f1 x |>).
  assert (T1 : tok None K d 0 w1) by (apply tok_upd_st; [split; auto|done]).
  assert (Hfr : forall r, is_rule e = Some r -> exists rl, sw_rules w1 !! r = Some rl /\ holders w1 r < sr_ref rl).
  { intros r Hr. destruct (tk_holders _ _ _ _ _ Ht r) as (rl & Hrl & ?); [by eapply holders_in|].
    exists rl. split; [done|]. unfold w1. erewrite holders_drop by done. lia. }
  assert (X1 : exists ex, match is_rule e with
    | Some r => rl ← srule r;
        when_ (negb (sr_max_nodes rl =? 0)) (ext_ (env_ht_node_del r (is_family e) (is_src (s_is e))))
    | None => mret tt
    end w1 = Some (tt, w1 <| sw_ext := ex |>)).
  { destruct (is_rule e) as [r|] eqn:Er; [|by exists (sw_ext w1)]. destruct (Hfr r eq_refl) as (rl & Hrl & _).
    erewrite bind_eq by (unfold srule; by rewrite Hrl). destruct (negb (sr_max_nodes rl =? 0)); [by eexists|by exists (sw_ext w1)]. }
  destruct X1 as [ex1 X1]. rewrite (bind_eq _ _ _ _ _ X1). clear X1.
  rewrite (en_tqehead _ _ _ _ (tk_entry _ _ _ _ _ Ht x e He)). cbn [fst snd drop_queue].
  do 2 rewrite (bind_eq _ _ _ tt _ eq_refl).
  set (w2 := w1 <| sw_ext := ex1 |>).
  assert (X2 : exists ex, match is_sync e with Some s => ext_ (env_sync_del s) | None => mret tt end w2 =
    Some (tt, w1 <| sw_ext := ex |>)) by (destruct (is_sync e); by eexists).
  destruct X2 as [ex2 X2]. rewrite (bind_eq _ _ _ _ _ X2). clear X2 w2 ex1.
  rewrite (en_listed _ _ _ _ (tk_entry _ _ _ _ _ Ht x e He)) by done. cbn [when_].
  rewrite st_bind_assoc. rewrite (bind_eq _ _ _ tt _ eq_refl).
  erewrite bind_eq by (eapply upd_st_run; by apply lookup_alter_Some_eq).
  set (f2 := fun e : ips => e <| is_listed := false |>).
  set (w3 := w1 <| sw_ext := ex2 |> <| sw_list ::= without x |> <| sw_states ::= alter f2 x |>).
  assert (T3 : tok (Some x) K (d - 1) (0 + 1) w3).
  { apply tok_unlist with (f1 e); [eapply tok_same; [apply same_core_ext|done]|by apply lookup_alter_Some_eq|done|done]. }
  assert (X4 : exists ex, when_ (negb (ipf_state_logging cf =? 0) && negb (why =? 0)) (ext_ (env_state_log x why)) w3 =
    Some (tt, w3 <| sw_ext := ex |>)).
  { destruct (_ && _); [by eexists|by exists (sw_ext w3)]. }
  destruct X4 as [ex4 X4]. rewrite (bind_eq _ _ _ _ _ X4). clear X4. set (w4 := w3 <| sw_ext := ex4 |>).
  rewrite (bind_eq _ _ _ tt (w4 <| iss_orphan ::= fun n => n + - b2z orphan |>)).
  2: { destruct orphan; [done|]. clearbody w4. by destruct w4; cbn; rewrite Z.add_0_r. }
  set (w5 := w4 <| iss_orphan ::= _ |>).
  assert (T5 : tok (Some x) K 0 (0 + 1) w5).
  { replace 0 with (d - 1 - - b2z orphan) at 1 by lia. apply tok_orphan_dec. eapply tok_same; [apply same_core_ext|done]. }
  destruct (release_run (Some x) K 0 (0 + 1) w5 (is_rule e) T5) as (m & Hm & T6).
  { intros r Hr. destruct (Hfr r Hr) as (rl & Hrl & Hlt). exists rl. split; [done|].
    enough (holders w5 r <= holders w1 r) by lia.
    assert (Ex : x ∈ sw_list w1) by (apply (tk_list _ _ _ _ _ T1); split; [eexists; by apply lookup_alter_Some_eq|done]).
    unfold holders. transitivity (count (rule_held w1 r) (sw_list w5)).
    - rewrite (count_ext _ (rule_held w1 r)); [done|]. intros y [_ Hy]%elem_without. unfold rule_held. cbn.
      by rewrite lookup_alter_ne by congruence.
    - change (sw_list w5) with (without x (sw_list w1)). apply list_elem_of_split in Ex as (l1 & l2 & Ex).
      rewrite Ex, without_mid by (apply mid_notin; rewrite <- Ex; by eapply tk_nodup).
      rewrite !count_app, count_cons. pose proof (b2z_range (rule_held w1 r x)). lia. }
  fold (release_rule (is_rule e)). rewrite (bind_eq _ _ _ _ _ Hm). do 2 rewrite (bind_eq _ _ _ tt _ eq_refl). clear Hm.
  set (w6 := w5 <| sw_rules := m |>) in *. set (g := upd_at (is_p (s_is e)) (fun n => n - 1)).
  set (w7 := w6 <| iss_active_proto ::= g |>).
  assert (T7 : tok (Some x) K 0 (0 + 1) w7) by (eapply tok_same; [|exact T6]; same_core).
  apply tok_delete in T7; [|done].
  eexists. split; [done|]. split; [apply (tok_active_dec _ _ _ _ _ 1) in T7; exact T7|].
  split; [cbn; by rewrite lookup_delete_eq|]. split_and!; try done. split; [done|done|..].
  - intros y Hy. cbn. by rewrite lookup_delete_ne, !lookup_alter_ne by congruence.
  - intros y Hy. unfold timing. cbn. by rewrite lookup_delete_ne by congruence.
Qed.

(** What deleting [x] does to the rest of the table. *)
Record deleted (x : loc) (w w' : W) : Prop := {
  dl_quiet : quiet x w w';
  dl_table : forall i, sw_table w' i = without x (sw_table w i);
  dl_list : forall y, y <> x -> y ∈ sw_list w' <-> y ∈ sw_list w;
  dl_queue : forall q l, table_queue q -> queue (sw_heap w) q l -> queue (sw_heap w') q (without x l) }.

Lemma unhash_when w x e :
  table_ok w -> sw_states w !! x = Some e ->
  exists w1 e1, when_ (is_hashed e) (unhash_state x) w = Some (tt, w1) /\
    tok None (in_table w) (b2z (is_hashed e)) 0 w1 /\ sw_states w1 !! x = Some e1 /\
    is_hashed e1 = false /\ s_is e1 = s_is e /\ is_rule e1 = is_rule e /\ quiet x w w1 /\ sw_heap w1 = sw_heap w /\
    sw_list w1 = sw_list w /\ (forall i, sw_table w1 i = without x (sw_table w i)).
Proof.
  intros Ht He. destruct (is_hashed e) eqn:Eh.
  - exists (unhashed x (is_hv e) w), (e <| is_hashed := false |>). split; [by apply unhash_run|].
    split; [by apply (tok_unhash _ 0)|]. split; [by apply lookup_alter_Some_eq|]. split_and!; try done.
    split; try done. intros y Hy. cbn. by rewrite lookup_alter_ne by congruence.
  - exists w, e. split; [done|]. split; [done|]. split_and!; try done. intros i. symmetry. apply without_notin.
    intros Hx. destruct (tk_chain _ _ _ _ _ Ht _ _ Hx) as (_ & _ & e0 & He0 & <-). rewrite He in He0. injection He0 as <-.
    apply (en_hashed _ _ _ _ (tk_entry _ _ _ _ _ Ht x e He)) in Hx; [congruence|done].
Qed.

(** Off its queue. *)
Lemma queue_op_delete x : queue_op (ipf_deletequeueentry x).
Proof. intros I HI. by apply (keeps_deletequeueentry (fun _ => True)). Qed.
Lemma unqueue_run K d a w x :
  tok None K d a w -> is_Some (ents (sw_heap w) !! x) ->
  exists h', (q ← hp (ent tqe_ifq x); match q with Some _ => hp (ipf_deletequeueentry x) | None => mret tt end) w =
      Some (tt, w <| sw_heap := h' |>) /\
    tok None (fun y => K y /\ y <> x) d a (w <| sw_heap := h' |>) /\ (forall y, timing h' y = timing (sw_heap w) y) /\
    (forall q l, table_queue q -> queue (sw_heap w) q l -> queue h' q (without x l)).
Proof.
  intros Ht [t Hx]. pose proof (tk_queues _ _ _ _ _ Ht) as HQ.
  assert (E1 : hp (ent tqe_ifq x) w = Some (tqe_ifq t, w)) by (unfold hp, ent; rewrite Hx; by destruct w).
  rewrite (bind_eq _ _ _ _ _ E1). clear E1. destruct (tqe_ifq t) as [o|] eqn:Eo.
  - destruct (qok_delete _ _ _ _ _ _ _ HQ Hx Eo) as (h' & Hrun & HQ' & _ & _ & Hv & Hq). exists h'.
    split; [unfold hp; by rewrite Hrun|]. split; [|done]. by eapply tok_hp; [..|exact Hrun|]; auto using queue_op_delete.
  - assert (HK : ~ K x).
    { destruct HQ as [Q HQ]. intros (q & l & Hl & Hxl)%(qr_members _ _ _ _ _ HQ).
      destruct (on_queue_ent (sw_heap w) Q x q) as (t' & ? & ?); [apply HQ|by exists l|congruence]. }
    exists (sw_heap w). split; [by destruct w|]. split.
    + replace (w <| sw_heap := sw_heap w |>) with w by (by destruct w). destruct Ht. split; try done.
      eapply queues_ok_ext; [|done]. naive_solver.
    + split; [done|]. intros q l Hq Hl. rewrite without_notin; [done|]. intros Hxl.
      destruct (queue_elem_ent _ _ _ _ Hl Hxl) as (t' & Ht' & Ho & _). congruence.
Qed.

Lemma same_core_wild w n : same_core w (w <| iss_wild := n |>).
Proof. same_core. Qed.
Definition unwild (x : loc) (fl : Z) : ST W unit :=
  when_ (has fl (Z.lor SI_WILDP SI_WILDA))
    (when_ (negb (has fl SI_CLONED)) (modify (fun w => w <| iss_wild ::= fun n => n - 1 |>));;
     upd_is x (fun i => i <| is_flags ::= fun f => clear f (Z.lor SI_WILDP SI_WILDA) |>)).
Lemma unwild_run fr K d a w x e fl :
  tok fr K d a w -> sw_states w !! x = Some e ->
  exists n e1, let w1 := w <| iss_wild := n |> <| sw_states ::= <[x := e1]> |> in
    unwild x fl w = Some (tt, w1) /\ tok fr K d a w1 /\ same_links e e1 /\ is_rule e1 = is_rule e.
Proof.
  intros Ht He. unfold unwild. destruct (has fl (Z.lor _ _)); cbn [when_].
  2: { exists (iss_wild w), e. cbv zeta. replace (w <| iss_wild := iss_wild w |> <| sw_states ::= <[x := e]> |>) with w.
       - split_and!; try done. by apply same_links_refl.
       - destruct w; cbn in *. f_equal. by rewrite insert_id. }
  set (f := fun e : ips => e <| s_is ::= (fun i => i <| is_flags ::= fun f => clear f (Z.lor SI_WILDP SI_WILDA) |>) |>).
  set (n := if has fl SI_CLONED then iss_wild w else iss_wild w - 1).
  assert (Ei : alter f x (sw_states w) = <[x := f e]> (sw_states w)).
  { apply map_eq. intros y. rewrite lookup_alter, lookup_insert. case_decide as E1; subst; [|done]. by rewrite He. }
  exists n, (f e). cbv zeta. split_and!; [| | |done].
  - rewrite (bind_eq _ _ _ tt (w <| iss_wild := n |>)).
    2: { unfold n. destruct (has fl SI_CLONED); [|done]. by destruct w. }
    unfold upd_is. fold f. rewrite (upd_st_run _ _ _ e) by done. cbn. by rewrite Ei.
  - enough (T : tok fr K d a (w <| iss_wild := n |> <| sw_states ::= alter f x |>)) by (cbn in *; by rewrite <- Ei).
    apply tok_upd_st; [intros; split; auto|].
    by eapply tok_same; [apply same_core_wild|].
  - split; auto.
Qed.

Lemma tok_K_ext fr K K' d a w : (forall y, K y <-> K' y) -> tok fr K d a w -> tok fr K' d a w.
Proof. intros HK []. split; try done. by eapply queues_ok_ext. Qed.
Lemma deleted_notin x w w' : (forall i, sw_table w' i = without x (sw_table w i)) ->
  forall y, (in_table w y /\ y <> x) <-> in_table w' y.
Proof. intros Hi y. unfold in_table. setoid_rewrite Hi. setoid_rewrite elem_without. naive_solver. Qed.

(** [ipf_state_del] completes: the entry leaves the table, and stays on the list of
    entries only while it is referred to. *)
Lemma state_del_run w x e why :
  table_ok w -> sw_states w !! x = Some e ->
  exists r w', ipf_state_del cf x why w = Some (r, w') /\ table_ok w' /\ deleted x w w' /\
    (if r =? 0 then sw_states w' !! x = None /\ sw_list w' = without x (sw_list w)
     else is_Some (sw_states w' !! x) /\ sw_list w' = sw_list w).
Proof.
  intros Ht He. unfold ipf_state_del. rewrite (bind_eq _ _ _ _ _ (st_run _ _ _ He)). cbv zeta.
  destruct (unhash_when w x e Ht He) as (w1 & e1 & R1 & T1 & S1 & Hh1 & Hs1 & Hr1 & Q1 & P1 & L1 & B1).
  rewrite (bind_eq _ _ _ _ _ R1). clear R1.
  destruct (unwild_run None _ _ _ w1 x e1 (is_flags (s_is e)) T1 S1) as (n & e2 & R2 & T2 & K2 & Hr2).
  fold (unwild x (is_flags (s_is e))). rewrite (bind_eq _ _ _ _ _ R2). clear R2.
  set (w2 := w1 <| iss_wild := n |> <| sw_states ::= <[x := e2]> |>) in *.
  assert (S2 : sw_states w2 !! x = Some e2) by apply lookup_insert_eq.
  assert (Q2 : quiet x w w2).
  { eapply quiet_trans; [done|]. split; try done. intros y Hy. cbn. by rewrite lookup_insert_ne by congruence. }
  destruct (unqueue_run _ _ _ w2 x T2) as (h3 & R3 & T3 & V3 & Hq3); [by eapply tk_ents; [|eexists]|].
  rewrite <- st_bind_assoc, (bind_eq _ _ _ _ _ R3). clear R3. set (w3 := w2 <| sw_heap := h3 |>) in *.
  assert (Q3 : quiet x w w3) by (eapply quiet_trans; [exact Q2|]; by split; intros; try apply V3).
  destruct (forget_me_run None _ _ _ w3 x e2 T3 S2) as (w4 & e4 & R4 & T4 & S4 & K4 & _ & Hr4 & Q4 & P4 & B4 & L4).
  rewrite (bind_eq _ _ _ _ _ R4). clear R4. rewrite (bind_eq _ _ _ _ _ (upd_st_run _ _ _ _ S4)).
  set (f := fun e : ips => e <| is_ref ::= fun n => n - 1 |>). set (w5 := w4 <| sw_states ::= alter f x |>).
  assert (T5 : tok None (fun y => in_table w y /\ y <> x) (b2z (is_hashed e)) 0 w5)
    by (apply tok_upd_st; [split; auto|done]).
  assert (S5 : sw_states w5 !! x = Some (f e4)) by by apply lookup_alter_Some_eq.
  assert (Q5 : quiet x w w5).
  { eapply quiet_trans; [exact Q3|]. eapply quiet_trans; [exact Q4|]. split; try done. intros y Hy. cbn.
    by rewrite lookup_alter_ne by congruence. }
  rewrite (bind_eq _ _ _ _ _ (st_run _ _ _ S5)).
  assert (B5 : forall i, sw_table w5 i = without x (sw_table w i)) by (intros i; cbn; rewrite B4; apply B1).
  assert (L5 : sw_list w5 = sw_list w) by (cbn; rewrite L4; apply L1).
  assert (Hq5 : forall q l, table_queue q -> queue (sw_heap w) q l -> queue (sw_heap w5) q (without x l)).
  { intros q l Hq Hl. change (sw_heap w5) with (sw_heap w4). rewrite P4. apply Hq3; [done|]. cbn. by rewrite P1. }
  assert (T6 : forall w6, (forall i, sw_table w6 i = without x (sw_table w i)) ->
    tok None (fun y => in_table w y /\ y <> x) 0 0 w6 -> table_ok w6).
  { intros w6 B6 T6. eapply tok_K_ext; [|exact T6]. by apply deleted_notin. }
  destruct (is_ref (f e4) >? 0) eqn:Eref.
  - rewrite (bind_eq _ _ _ tt (w5 <| iss_orphan ::= fun n => n + b2z (is_hashed e) |>)).
    2: { destruct (is_hashed e); cbn [negb when_]; [done|]. clearbody w5. by destruct w5; cbn; rewrite Z.add_0_r. }
    eexists _, _. split; [done|]. split; [|split].
    + apply T6; [done|]. replace 0 with (b2z (is_hashed e) - b2z (is_hashed e)) at 1 by lia. by apply tok_orphan_dec.
    + split; [by eapply quiet_trans; [exact Q5|]|exact B5|intros y _; by rewrite <- L5|exact Hq5].
    + replace (is_ref (f e4) =? 0) with false by (symmetry; breflect; lia). split; [by eexists|exact L5].
  - assert (Hh5 : is_hashed (f e4) = false).
    { change (is_hashed (f e4)) with (is_hashed e4). by rewrite (sl_hashed _ _ K4), (sl_hashed _ _ K2). }
    destruct (free_state_run _ _ w5 x (f e4) why (negb (is_hashed e)) T5 S5 Hh5) as (w6 & R6 & T7 & D6 & B6 & L6 & Q6 & P6);
      [tauto|by destruct (is_hashed e)|].
    rewrite (bind_eq _ _ _ _ _ R6). eexists _, _. split; [done|]. split; [|split].
    + apply T6; [|done]. intros i. by rewrite B6.
    + split; [by eapply quiet_trans|intros i; by rewrite B6| |].
      * intros y Hy. rewrite L6, L5, elem_without. tauto.
      * intros q l Hq Hl. rewrite P6. apply (Hq5 q l Hq) in Hl.
        eapply queue_frame; [exact Hl|done|]. intros y [_ Hy]%elem_without. cbn. by rewrite lookup_delete_ne by congruence.
    + cbn. split; [done|]. by rewrite L6, L5.
Qed.

(** *** Joining the table *)
Definition rule_ok (w : W) (r : loc) : Prop := exists rl, sw_rules w !! r = Some rl /\ holders w r <= sr_ref rl.

Lemma tcptq_queue s : is_state s -> table_queue (ipf_state_tcptq cf s).
Proof.
  intros [? Hs]. apply elem_of_app. left. apply list_elem_of_fmap. exists (Z.to_nat s).
  split; [by rewrite Z2Nat.id|]. apply elem_of_seq. unfold IPF_TCP_NSTATES in Hs. lia.
Qed.
Lemma table_queues : Forall table_queue [ipf_state_udptq cf; ipf_state_udpacktq cf; ipf_state_icmptq cf;
  ipf_state_icmpacktq cf; ipf_state_iptq cf; ipf_state_pending cf; ipf_state_deletetq cf].
Proof. apply Forall_forall. intros q Hq. apply elem_of_app. by right. Qed.
Ltac table_queue := (apply (proj1 (Forall_forall _ _) table_queues); set_solver).

Lemma hp_ent {A} (f : ipftqent -> A) x (w : W) t : ents (sw_heap w) !! x = Some t -> hp (ent f x) w = Some (f t, w).
Proof. intros Ht. unfold hp, ent. rewrite Ht. by destruct w. Qed.

Lemma default_queue_run x p rev (w : W) t :
  ents (sw_heap w) !! x = Some t -> used_states (tqe_state0 t, tqe_state1 t) ->
  exists q, default_queue cf x p rev w = Some (q, w) /\ table_queue q.
Proof.
  intros Ht [[Hu0 _] [Hu1 _]]. unfold default_queue. repeat case_match; try (eexists; split; [done|table_queue]).
  erewrite bind_eq by (by apply hp_ent). eexists. split; [done|]. apply tcptq_queue. unfold tqe_state. by case_match.
Qed.

Lemma queue_op_move ticks x o n : queue_op (ipf_movequeue ticks x o n).
Proof. intros I HI. by apply (keeps_movequeue (fun _ => True)). Qed.
Lemma queue_op_append ticks x n p : queue_op (ipf_queueappend ticks x n p).
Proof. intros I HI. by apply (keeps_queueappend (fun _ => True)). Qed.
Lemma hp_run {A} (m : ST tqheap A) (w : W) a h' : m (sw_heap w) = Some (a, h') -> hp m w = Some (a, w <| sw_heap := h' |>).
Proof. intros Hm. unfold hp. by rewrite Hm. Qed.

(** To the end of queue [q], from another one or from none. *)
Definition enqueue (x : loc) (o : option loc) (q : loc) (ticks : Z) : ST W unit :=
  match o with
  | Some o => hp (ipf_movequeue ticks x o q)
  | None => hp (ipf_queueappend ticks x q (Some x))
  end.
Lemma enqueue_run fr K d a w x t q :
  tok fr K d a w -> ents (sw_heap w) !! x = Some t -> table_queue q ->
  exists h', enqueue x (tqe_ifq t) q (sw_ticks w) w = Some (tt, w <| sw_heap := h' |>) /\
    tok fr (fun y => K y \/ y = x) d a (w <| sw_heap := h' |>) /\ (tqe_ifq t = None -> ifq_of h' x = Some (Some q)).
Proof.
  intros Ht Hx Hq. pose proof (tk_queues _ _ _ _ _ Ht) as HQ. unfold enqueue. destruct (tqe_ifq t) as [o|] eqn:Eo.
  - destruct (qok_move _ _ _ _ _ _ _ _ HQ Hx Eo Hq) as (h' & Hr & HQ' & _). exists h'.
    split; [by apply hp_run|]. split; [|done]. eapply tok_hp; [exact Ht|apply queue_op_move|exact Hr|].
    eapply queues_ok_ext; [|exact HQ']. intros y. split; [by left|]. intros [?| ->]; [done|].
    destruct HQ as [Q HQ]. apply (eo_free K x t); [by eapply qr_ents|congruence].
  - destruct (qok_append _ _ _ _ _ _ _ HQ Hx Eo Hq) as (h' & Hr & HQ' & _ & _ & Hi). exists h'.
    split; [by apply hp_run|]. split; [|done]. by eapply tok_hp; [exact Ht|apply queue_op_append|exact Hr|].
Qed.

Lemma setqueue_run fr K d a w x e rev :
  tok fr K d a w -> sw_states w !! x = Some e ->
  exists h', ipf_state_setqueue cf x rev w = Some (tt, w <| sw_heap := h' |>) /\
    tok fr (fun y => K y \/ y = x) d a (w <| sw_heap := h' |>) /\
    (~ K x -> exists q, default_queue cf x (is_p (s_is e)) rev w = Some (q, w) /\ ifq_of h' x = Some (Some q)).
Proof.
  intros Ht He. destruct (tk_ents _ _ _ _ _ Ht x) as [t Hx]; [by eexists|].
  pose proof (tk_queues _ _ _ _ _ Ht) as [Q HQ]. destruct (qr_ents _ _ _ _ _ HQ x t Hx) as [Hu Hp _ _].
  unfold ipf_state_setqueue. rewrite (bind_eq _ _ _ _ _ (st_run _ _ _ He)). erewrite bind_eq by (by apply hp_ent). rewrite Hp.
  destruct (default_queue_run x (is_p (s_is e)) rev w t Hx Hu) as (q & Hq & Hqt).
  rewrite (bind_eq _ _ _ _ _ Hq). erewrite bind_eq by (by apply hp_ent). rewrite (bind_eq _ _ _ _ _ eq_refl).
  destruct (enqueue_run fr K d a w x t q Ht Hx Hqt) as (h' & R & T & Hi). exists h'. split; [done|]. split; [done|].
  intros HK. exists q. split; [done|]. apply Hi. destruct (tqe_ifq t) eqn:Eo; [|done]. exfalso. apply HK.
  apply (eo_free K x t); [by eapply qr_ents|congruence].
Qed.

Definition prepared (w : W) (e : ips) : ips :=
  (resolve_ifps (sw_ext w) e) <| is_hv ::= fun hv => hv mod ipf_state_size cf |>.
Lemma resolve_is ex e : s_is (resolve_ifps ex e) = s_is e.
Proof.
  unfold resolve_ifps. generalize ([0; 1; 2; 3]). intros l. revert e. induction l as [|i l IH]; intros e; cbn [foldl]; [done|].
  rewrite IH. unfold resolve_ifp. by case_match.
Qed.
Lemma same_links_trans e1 e2 e3 : same_links e1 e2 -> same_links e2 e3 -> same_links e1 e3.
Proof. intros [? ? [] ? ? ? []] [? ? [] ? ? ? []]. all: split; first [congruence|left; congruence|right; congruence]. Qed.
Lemma resolve_links ex e : same_links e (resolve_ifps ex e) /\ is_rule (resolve_ifps ex e) = is_rule e.
Proof.
  unfold resolve_ifps. generalize ([0; 1; 2; 3]). intros l. revert e. induction l as [|i l IH]; intros e; cbn [foldl].
  - split; [apply same_links_refl|done].
  - destruct (IH (resolve_ifp ex (is_v (s_is e)) i e)) as [IH1 ->].
    assert (Hl : same_links e (resolve_ifp ex (is_v (s_is e)) i e) /\ is_rule (resolve_ifp ex (is_v (s_is e)) i e) = is_rule e).
    { unfold resolve_ifp. case_match; [split; [apply same_links_refl|done]|]. split; [split; auto|done]. }
    destruct Hl. split; [by eapply same_links_trans|done].
Qed.

(** An entry that is not inserted yet can be filled in. *)
Lemma tok_fresh_st K d a w x f :
  (forall e, sw_states w !! x = Some e -> is_sti (s_is (f e)) = is_sti (s_is e) /\ is_tqehead (f e) = is_tqehead e /\
    (forall v, is_me (f e) = Some v -> is_me e = Some v \/ is_Some (sw_saved w !! v))) ->
  tok (Some x) K d a w -> tok (Some x) K d a (w <| sw_states ::= alter f x |>).
Proof.
  intros Hf Ht. set (w' := w <| sw_states ::= alter f x |>).
  assert (Hne : forall y, y ∈ sw_list w -> x <> y) by (intros y [_ Hy]%(tk_list _ _ _ _ _ Ht) ->; done).
  assert (Hl : forall y, y ∈ sw_list w -> sw_states w' !! y = sw_states w !! y)
    by (intros y Hy; cbn; by rewrite lookup_alter_ne by auto).
  destruct Ht. split; try done.
  - intros y Hy. apply alter_some in Hy. auto.
  - intros y e' He'. cbn in He'. apply lookup_alter_cases in He' as [(-> & e & He & ->)|[Hyx He]].
    + destruct (Hf e He) as (E1 & E2 & E3). destruct (tk_entry0 x e He) as [? ? Hme _ _].
      split; [by rewrite E1|by rewrite E2| |done|done].
      intros v Hv. destruct (E3 v Hv); auto.
    + destruct (tk_entry0 y e' He) as [? ? ? ? ?]. by split.
  - intros y. cbn. by rewrite alter_some.
  - intros i y Hy. destruct (tk_chain0 i y Hy) as (? & Hyx & e & He & Hi). split; [done|]. split; [done|].
    exists e. split; [|done]. cbn. by rewrite lookup_alter_ne by congruence.
  - transitivity (count (orphaned w) (sw_list w)); [exact tk_orphan0|]. apply count_ext. intros y Hy. unfold orphaned. by rewrite Hl.
  - intros r. replace (holders w' r) with (holders w r); [apply tk_holders0|].
    apply count_ext. intros y Hy. unfold rule_held. by rewrite Hl.
  - by apply fresh_alter.
Qed.

Lemma holders_fresh K d a w x f r : tok (Some x) K d a w ->
  holders (w <| sw_states ::= alter f x |>) r = holders w r.
Proof.
  intros Ht. apply count_ext. intros y [_ Hy]%(tk_list _ _ _ _ _ Ht). unfold rule_held. cbn.
  by rewrite lookup_alter_ne by congruence.
Qed.

(** The reference that an entry holds on its rule. *)
Definition take_rule (fr : option loc) (fam : Z) (src : i6addr) : ST W bool :=
  match fr with
  | None => mret true
  | Some fr =>
      r ← srule fr;
      ok ← (if sr_max_nodes r =? 0 then mret true else ext (env_ht_node_add fr fam src));
      when_ ok (upd_srule fr (fun r => r <| sr_ref ::= fun n => n + 1 |> <| sr_statecnt ::= fun n => n + 1 |>));;
      mret ok
  end.
Lemma take_rule_run w fr fam src : (forall r, fr = Some r -> rule_ok w r) ->
  exists ok w1, take_rule fr fam src w = Some (ok, w1) /\ same_core w w1 /\ sw_fin w1 = sw_fin w /\
    (ok = true -> forall r, fr = Some r -> exists rl, sw_rules w1 !! r = Some rl /\ holders w1 r < sr_ref rl).
Proof.
  intros Hr. destruct fr as [r|]; [|exists true, w; split; [done|]; split; [apply same_core_refl|by split]].
  destruct (Hr r eq_refl) as (rl & Hrl & Hh). cbn [take_rule]. erewrite bind_eq by (unfold srule; by rewrite Hrl).
  assert (X : exists ok ex, (if sr_max_nodes rl =? 0 then mret true else ext (env_ht_node_add r fam src)) w =
    Some (ok, w <| sw_ext := ex |>)).
  { case_match; [exists true, (sw_ext w); by destruct w|]. unfold ext. destruct (env_ht_node_add _ _ _ _) as [ok ex]. eauto. }
  destruct X as (ok & ex & X). rewrite (bind_eq _ _ _ _ _ X). destruct ok; cbn [when_].
  - erewrite bind_eq by (by eapply upd_srule_run). set (f := fun r : strule => r <| sr_ref ::= fun n => n + 1 |> <| sr_statecnt ::= fun n => n + 1 |>).
    set (w1 := _ <| sw_rules ::= _ |>). exists true, w1. split; [done|]. split.
    + eapply same_core_trans; [apply same_core_ext|]. apply same_core_rule. intros rl'. split; [done|cbn; lia].
    + split; [done|]. intros _ r0 [= <-]. exists (f rl). split; [by apply lookup_alter_Some_eq|]. cbn. change (holders w1 r) with (holders w r). lia.
  - eexists false, _. split; [done|]. split; [apply same_core_ext|done].
Qed.

Lemma states_twice f g x (w : W) :
  w <| sw_states ::= alter g x |> <| sw_states ::= alter f x |> = w <| sw_states ::= alter (fun e => f (g e)) x |>.
Proof. cbn. by rewrite alter_twice. Qed.

(** [ipf_state_insert] completes; the entry is in the table, or refused and as it was. *)
Lemma state_insert_run w x e rev :
  fresh_ok x w -> sw_states w !! x = Some e -> (forall r, is_rule e = Some r -> rule_ok w r) ->
  exists r w', ipf_state_insert cf x rev w = Some (r, w') /\ (r = 0 \/ r = -1) /\ sw_states w' !! x = Some (
      let e' := prepared w e in if r =? 0 then e' <| is_listed := true |> <| is_hashed := true |> else e') /\
    (forall y, y <> x -> sw_states w' !! y = sw_states w !! y) /\
    (if r =? 0 then table_ok w' /\ sw_fin w' = sw_fin w /\ sw_list w' = x :: sw_list w /\
        sw_table w' = upd_at (is_hv e mod ipf_state_size cf) (cons x) (sw_table w) /\
        exists q, ifq_of (sw_heap w') x = Some (Some q) /\
          (is_p (s_is e) = IPPROTO_UDP -> q = ipf_state_udptq cf \/ q = ipf_state_udpacktq cf)
     else fresh_ok x w' /\ sw_list w' = sw_list w /\ sw_table w' = sw_table w).
Proof.
  intros [Ht _] He Hr. unfold ipf_state_insert. rewrite (bind_eq _ _ _ w w eq_refl).
  rewrite (bind_eq _ _ _ _ _ (upd_st_run _ _ _ _ He)).
  erewrite bind_eq by (eapply upd_st_run; by apply lookup_alter_Some_eq).
  set (w1 := w <| sw_states ::= _ |> <| sw_states ::= _ |>).
  assert (E1 : w1 = w <| sw_states ::= alter (prepared w) x |>) by (unfold w1; rewrite states_twice; reflexivity).
  clearbody w1. subst w1. set (w1 := w <| sw_states ::= _ |>).
  destruct (resolve_links (sw_ext w) e) as [Hle Hre].
  assert (Hp : forall e, same_links e (resolve_ifps (sw_ext w) e)) by (intros; apply resolve_links).
  assert (T1 : tok (Some x) (in_table w) 0 0 w1).
  { apply tok_fresh_st; [|done]. intros e0 _. destruct (Hp e0) as [? ? Hm _ _ _ _]. split_and!; [done|done|].
    intros v Hv. left. destruct Hm as [<-|Hm]; [done|]. change (is_me (resolve_ifps (sw_ext w) e0) = Some v) in Hv. congruence. }
  assert (S1 : sw_states w1 !! x = Some (prepared w e)) by by apply lookup_alter_Some_eq.
  rewrite (bind_eq _ _ _ _ _ (st_run _ _ _ S1)).
  assert (Hh1 : forall r, holders w1 r = holders w r) by (intros r; by eapply holders_fresh).
  assert (O1 : forall y, y <> x -> sw_states w1 !! y = sw_states w !! y) by (intros y Hy; cbn; by rewrite lookup_alter_ne by congruence).
  replace (is_rule (prepared w e)) with (is_rule e) by (symmetry; exact Hre).
  fold (take_rule (is_rule e) (is_family (prepared w e)) (is_src (s_is (prepared w e)))).
  destruct (take_rule_run w1 (is_rule e) (is_family (prepared w e)) (is_src (s_is (prepared w e)))) as (ok & w2 & R2 & C2 & F2 & Hok).
  { intros r Hre'. destruct (Hr r Hre') as (rl & Hrl & ?). exists rl. split; [done|]. by rewrite Hh1. }
  rewrite (bind_eq _ _ _ _ _ R2). clear R2. destruct ok; cbn [negb].
  2: { exists (-1), w2. change (-1 =? 0) with false. cbv iota. rewrite (sc_states _ _ C2), (sc_list _ _ C2), (sc_table _ _ C2). split_and!; try done; [by right|].
       apply (fresh_ok_same x w1); [done|]. split; [exact T1|by eexists]. }
  set (h := is_hv e mod ipf_state_size cf).
  assert (Hh : is_hv (prepared w e) = h) by exact (f_equal (fun z => z mod ipf_state_size cf) (sl_hv _ _ Hle)).
  rewrite (bind_eq _ _ _ tt (w2 <| iss_wild := iss_wild w2 + b2z (has (is_flags (s_is (prepared w e))) (Z.lor SI_WILDP SI_WILDA)) |>)).
  2: { destruct (has _ (Z.lor _ _)); cbn [when_]; [done|]. destruct w2. cbn. by rewrite Z.add_0_r. }
  rewrite (bind_eq _ _ _ tt _ eq_refl), Hh. set (w3 := _ <| iss_active_proto ::= _ |>).
  assert (C3 : same_core w1 w3) by (eapply same_core_trans; [exact C2|]; same_core).
  assert (S3 : sw_states w3 !! x = Some (prepared w e)) by by rewrite (sc_states _ _ C3).
  rewrite (bind_eq _ _ _ _ _ (link_run x h w3 _ S3)).
  assert (T4 : tok None (in_table w) 0 0 (linked x h w3)).
  { eapply tok_link; [by eapply tok_same|done|done|apply Z.mod_pos_bound, Ht|].
    intros r Hre'. rewrite (Hre : is_rule (prepared w e) = _) in Hre'. destruct (Hok eq_refl r Hre') as (rl & ? & ?). by exists rl. }
  assert (S4 : sw_states (linked x h w3) !! x = Some (prepared w e <| is_listed := true |> <| is_hashed := true |>))
    by exact (lookup_alter_Some_eq _ _ _ _ S3).
  destruct (setqueue_run _ _ _ _ _ x _ rev T4 S4) as (h5 & R5 & T5 & Hq5). rewrite (bind_eq _ _ _ _ _ R5).
  exists 0. eexists. split; [done|]. change (0 =? 0) with true. cbv iota zeta. split; [by left|]. split; [exact S4|]. split.
  { intros y Hy. cbn. rewrite lookup_alter_ne by congruence. rewrite <- O1 by done. exact (f_equal (.!! y) (sc_states _ _ C2)). }
  cbv iota. split; [|split; [exact F2|split]].
  - eapply tok_K_ext; [|exact T5]. intros y. transitivity (in_table w3 y \/ y = x).
    + by rewrite (same_core_in_table _ _ C3).
    + symmetry. apply (in_table_linked w3 x h y).
  - cbn. by rewrite (sc_list _ _ C2).
  - split; [cbn; by rewrite (sc_table _ _ C2)|].
    assert (HK : ~ in_table w x) by (intros [i Hi]; by destruct (tk_chain _ _ _ _ _ Ht _ _ Hi) as (_ & ? & _)).
    destruct (Hq5 HK) as (q & Hq & Hi). exists q. split; [done|]. intros Hp1.
    replace (is_p (s_is _)) with IPPROTO_UDP in Hq by (rewrite <- Hp1; symmetry; exact (f_equal is_p (resolve_is (sw_ext w) e))).
    cbn in Hq. unfold mret, st_ret in Hq. injection Hq as <-. case_match; [by right|by left].
Qed.

(** ** Walks along the queues *)

(** The entries [D] left the table, and the rest is as it was. *)
Record removed (D : list loc) (w w' : W) : Prop := {
  rm_ticks : sw_ticks w' = sw_ticks w;
  rm_doflush : sw_doflush w' = sw_doflush w;
  rm_states : forall y, y ∉ D -> sw_states w' !! y = sw_states w !! y;
  rm_timing : forall y, y ∉ D -> timing (sw_heap w') y = timing (sw_heap w) y;
  rm_table : forall i, sw_table w' i = minus D (sw_table w i);
  rm_list : forall y, y ∉ D -> y ∈ sw_list w' <-> y ∈ sw_list w;
  rm_queue : forall q l, table_queue q -> queue (sw_heap w) q l -> queue (sw_heap w') q (minus D l) }.
Lemma removed_refl w : removed [] w w.
Proof. split; try done; intros; by rewrite minus_nil. Qed.
Lemma removed_one x D w1 w2 w3 : deleted x w1 w2 -> removed D w2 w3 -> removed (x :: D) w1 w3.
Proof.
  intros [[E1 E0 E2 E3] E4 E5 E6] [F1 F0 F2 F3 F4 F5 F6]. split; [congruence|congruence|..].
  - intros y [? ?]%not_elem_of_cons. by rewrite F2, E2.
  - intros y [? ?]%not_elem_of_cons. by rewrite F3, E3.
  - intros i. by rewrite F4, E4, minus_cons.
  - intros y [? ?]%not_elem_of_cons. by rewrite F5, E5.
  - intros q l Hq Hl. rewrite <- minus_cons. auto.
Qed.
Lemma removed_trans D D' w1 w2 w3 : removed D w1 w2 -> removed D' w2 w3 -> removed (D ++ D') w1 w3.
Proof.
  intros [E1 E0 E2 E3 E4 E5 E6] [F1 F0 F2 F3 F4 F5 F6]. split; [congruence|congruence|..].
  - intros y [? ?]%not_elem_of_app. by rewrite F2, E2.
  - intros y [? ?]%not_elem_of_app. by rewrite F3, E3.
  - intros i. by rewrite F4, E4, minus_app.
  - intros y [? ?]%not_elem_of_app. by rewrite F5, E5.
  - intros q l Hq Hl. rewrite <- minus_app. auto.
Qed.
Lemma removed_in_table D w w' y : removed D w w' -> in_table w' y <-> in_table w y /\ y ∉ D.
Proof. intros Hr. unfold in_table. setoid_rewrite (rm_table _ _ _ Hr). setoid_rewrite elem_minus. naive_solver. Qed.

Lemma in_table_list w x : table_ok w -> in_table w x -> x ∈ sw_list w.
Proof.
  intros Ht [i Hi]. destruct (tk_chain _ _ _ _ _ Ht _ _ Hi) as (_ & ? & e & ? & _). apply (tk_list _ _ _ _ _ Ht). split; [by eexists|done].
Qed.
(** The table keeps the promise of Sweeps.v. *)
Definition del why x := ipf_state_del (E:=E) cf x why.
#[export] Instance sweepable_state why : sweepable table_ok in_table removed all_queues (del why).
Proof.
  split.
  - intros A m w a Hm. cbn in *. unfold hp. rewrite Hm. cbn. by destruct w.
  - intros w Ht. apply Ht.
  - intros w Ht. apply Ht.
  - intros w Ht. apply Ht.
  - intros w x Ht [i Hi]. destruct (tk_chain _ _ _ _ _ Ht _ _ Hi) as (_ & _ & e & He & _).
    destruct (state_del_run w x e why Ht He) as (r & w' & R & T & D & _). exists r, w'. split; [done|]. split; [done|].
    eapply removed_one; [done|apply removed_refl].
  - apply removed_refl.
  - intros. by eapply removed_trans.
  - intros D w w' Hr. apply Hr.
  - intros D w w' x Hr. by apply removed_in_table.
  - intros D w w' x Hr. apply Hr.
  - intros D w w' q l Hr. apply Hr.
Qed.

(** As many entries as the list has are enough. *)
Lemma fuel_enough F w : table_ok w -> (92 + length (sw_list w) <= F)%nat -> fuel_ok all_queues F w /\ (92 <= F)%nat.
Proof.
  intros Ht HF. split; [|lia]. apply (fuel_of_list table_ok in_table removed all_queues (del 0) F w (sw_list w) Ht).
  - intros x. by apply in_table_list.
  - unfold all_queues. rewrite length_app, length_map, length_seq. cbn. lia.
Qed.
Lemma tk_users w : table_ok w -> parent_var (sw_heap w) = None.
Proof. by intros []. Qed.
Abbreviation stops := (stops table_ok in_table removed).

(** *** Flushing *)

(** [victim] decides by [p]. *)
Definition picks (w0 : W) (victim : loc -> ips -> ST W bool) (p : loc -> bool) : Prop :=
  forall w x e, table_ok w -> sw_ticks w = sw_ticks w0 -> sw_states w !! x = Some e -> sw_states w0 !! x = Some e ->
    timing (sw_heap w) x = timing (sw_heap w0) x -> victim x e w = Some (p x, w).

Lemma flush_list_run victim p w0 : picks w0 victim p -> forall l D0 w, table_ok w -> NoDup l -> (forall x, x ∈ l -> x ∉ D0) ->
  (forall x, x ∈ l -> is_Some (sw_states w !! x)) -> removed D0 w0 w ->
  exists n w', flush_list cf victim l w = Some (n, w') /\ table_ok w' /\ removed (filter (fun x => p x = true) l) w w'.
Proof.
  intros Hp. induction l as [|x l IH]; intros D0 w Ht Hn Hd Hs Hr.
  { exists 0, w. split_and!; [done..|apply removed_refl]. }
  apply NoDup_cons in Hn as [Hx Hn]. destruct (Hs x) as [e He]; [by left|]. cbn [flush_list].
  assert (Hx0 : x ∉ D0) by (apply Hd; by left).
  rewrite (bind_eq _ _ _ _ _ (st_run _ _ _ He)). rewrite (bind_eq _ _ _ (p x) w).
  2: { apply Hp; [done|apply Hr|done|by rewrite <- (rm_states _ _ _ Hr)|by apply Hr]. }
  destruct (p x) eqn:Ep.
  - destruct (state_del_run w x e ISL_FLUSH Ht He) as (r & w1 & R1 & T1 & D1 & _).
    rewrite (bind_eq _ _ _ _ _ R1). pose proof (removed_one _ _ _ _ _ D1 (removed_refl w1)) as R1'.
    destruct (IH (D0 ++ [x]) w1) as (n & w2 & R2 & T2 & D2); [done|done| | |by eapply removed_trans|].
    { intros y Hy. rewrite elem_of_app, list_elem_of_singleton. intros [Hy0| ->]; [|done]. by eapply Hd; [right|]. }
    { intros y Hy. rewrite (rm_states _ _ _ R1'); [apply Hs; by right|]. intros ->%list_elem_of_singleton. done. }
    rewrite (bind_eq _ _ _ _ _ R2). eexists _, w2. split; [done|]. split; [done|].
    rewrite filter_cons_True by done. by eapply removed_one.
  - rewrite (bind_eq _ _ _ 1 w) by done. destruct (IH D0 w) as (n & w2 & R2 & T2 & D2); [done|done| | |done|].
    { intros y Hy. apply Hd. by right. } { intros y Hy. apply Hs. by right. }
    rewrite (bind_eq _ _ _ _ _ R2). eexists _, w2. split; [done|]. split; [done|]. by rewrite filter_cons_False by congruence.
Qed.
Lemma flush_all_run victim p w : picks w victim p -> table_ok w ->
  exists n w', flush_list cf victim (sw_list w) w = Some (n, w') /\ table_ok w' /\
    removed (filter (fun x => p x = true) (sw_list w)) w w'.
Proof.
  intros Hp Ht. apply (flush_list_run _ _ w Hp _ []); [done|by eapply tk_nodup| | |apply removed_refl].
  - intros x _. apply not_elem_of_nil.
  - intros x Hx. by apply (tk_list _ _ _ _ _ Ht) in Hx as [? _].
Qed.

(** The connections that are no longer used, and entries of one version. *)
Definition of_version (w : W) (proto : Z) (x : loc) : bool :=
  match sw_states w !! x with Some e => (proto =? 0) || (is_v (s_is e) =? proto) | None => false end.
Definition idle_for (w : W) (which : Z) (x : loc) : bool :=
  match timing (sw_heap w) x with Some (_, t) => u64 (sw_ticks w - t) >? idle_limit which | None => false end.
(** The entries in front of the first one that is not TCP, on the queues of the closing
    states and those after them in the chain. *)
Definition not_tcp_at (w : W) (x : loc) : bool :=
  match sw_states w !! x with Some e => negb (is_p (s_is e) =? IPPROTO_TCP) | None => false end.
Definition closing_tcp (w : W) (x : loc) : Prop :=
  exists q l, q ∈ drop 5 all_queues /\ queue (sw_heap w) q l /\ x ∈ until (not_tcp_at w) l.

Lemma not_tcp_stops w0 : stops w0 (fun tqe => par ← hp (ent tqe_parent tqe); par ← need par; e ← st par;
  mret (negb (is_p (s_is e) =? IPPROTO_TCP))) (not_tcp_at w0).
Proof.
  intros w D x t Ht Hg Hx [i Hi] Ex Hp. destruct (tk_chain _ _ _ _ _ Ht _ _ Hi) as (_ & _ & e & He & _).
  rewrite (bind_eq _ _ _ _ _ (hp_ent tqe_parent _ _ _ Ex)), Hp.
  rewrite (bind_eq _ _ _ _ _ eq_refl), (bind_eq _ _ _ _ _ (st_run _ _ _ He)). unfold not_tcp_at. by rewrite <- (rm_states _ _ _ Hg x Hx), He.
Qed.

Lemma closing_range which : is_closing which = true -> 5 <= which <= 11.
Proof. unfold is_closing. intros Hc. repeat (apply orb_true_iff in Hc as [Hc|Hc]); apply Z.eqb_eq in Hc as ->; by vm_compute. Qed.

(** Making room. *)
Lemma state_queueflush_run F size low w :
  table_ok w -> fuel_ok all_queues F w -> (92 <= F)%nat -> 0 <= sw_ticks w < 2 ^ 64 ->
  exists m D w', ipf_queueflush (ipf_state_tcptq cf) (del ISL_FLUSH) F size low w = Some (m, w') /\ table_ok w' /\
    removed D w w' /\ room_made table_ok in_table removed all_queues (ipf_state_tcptq cf) size low w w'.
Proof.
  intros Ht HF HF2 Hw. pose proof (tcptq_queue IPF_TCPS_CLOSED ltac:(by split)) as H1. pose proof (tcptq_queue IPF_TCPS_TIME_WAIT ltac:(by split)) as H2.
  by apply (queueflush_run table_ok in_table removed all_queues (del ISL_FLUSH) (ipf_state_tcptq cf) F eq_refl H1 H2 size low w Ht HF HF2 Hw).
Qed.

(** [ipf_state_flush] completes for every argument; what goes. *)
Lemma state_flush_run F which proto w :
  table_ok w -> fuel_ok all_queues F w -> (92 <= F)%nat -> 0 <= sw_ticks w < 2 ^ 64 ->
  exists n D w', ipf_state_flush cf F which proto w = Some (n, w') /\ table_ok w' /\ removed D w w' /\
    (which = 0 -> D = filter (fun x => of_version w proto x = true) (sw_list w)) /\
    (which = 1 -> forall x, x ∈ D <-> closing_tcp w x) /\
    (which = 2 -> ipf_state_wm_freq cf < u64 (sw_ticks w - sw_wm_last w) ->
      room_made table_ok in_table removed all_queues (ipf_state_tcptq cf) (ipf_state_size cf) (ipf_state_wm_low cf) w w') /\
    (which = 2 -> u64 (sw_ticks w - sw_wm_last w) <= ipf_state_wm_freq cf -> D = []) /\
    (which < 30 -> which <> 0 -> which <> 1 -> which <> 2 -> is_closing which = false -> D = []) /\
    (is_closing which = true -> which <> 2 -> queue (sw_heap w) (ipf_state_tcptq cf which) D) /\
    (30 <= which -> D = filter (fun x => of_version w proto x && idle_for w which x = true) (sw_list w)).
Proof.
  intros Ht HF HF2 Hw. unfold ipf_state_flush.
  destruct (Z.eqb_spec which 0) as [->|H0].
  { rewrite (bind_eq _ _ _ _ _ eq_refl).
    destruct (flush_all_run (fun _ e => mret (negb (negb (proto =? 0) && negb (is_v (s_is e) =? proto)))) (of_version w proto) w)
      as (n & w' & R & T & D); [|done|].
    { intros w1 x e _ _ _ He _. unfold of_version, mret, st_ret. rewrite He. do 2 f_equal. by destruct (proto =? 0), (_ =? proto). }
    eexists n, _, w'. by split_and!. }
  destruct (Z.eqb_spec which 1) as [->|H1].
  { cbv zeta.
    destruct (queues_run _ _ _ _ (del ISL_FLUSH) _ _ F false w (drop 5 all_queues) (take 5 all_queues) F [] w (not_tcp_stops w))
      as (n & D & w1 & R & T & D1 & _ & _ & He); [by rewrite take_drop| |done|done|apply removed_refl|].
    { pose proof (proj1 HF). rewrite length_drop. lia. }
    rewrite (bind_eq _ _ _ n w1) by exact R. rewrite (bind_eq _ _ _ _ _ eq_refl), (tk_users _ T).
    exists (n + 0), D, w1. split; [by destruct F|]. split_and!; try done; lia. }
  destruct (Z.eqb_spec which 2) as [->|H2].
  { rewrite (bind_eq _ _ _ w w eq_refl). destruct (u64 _ >? _) eqn:Eage; breflect; [|exists 0, [], w; split_and!; try done; try lia; apply removed_refl].
    destruct (state_queueflush_run F (ipf_state_size cf) (ipf_state_wm_low cf) w Ht HF HF2 Hw) as (n & D & w1 & R & T & D1 & Hroom).
    fold (del ISL_FLUSH). rewrite (bind_eq _ _ _ n w1) by exact R. rewrite (bind_eq _ _ _ tt _ eq_refl).
    eexists n, D, _. split; [done|]. split_and!; try done; try lia.
    - eapply table_ok_same; [|exact T]. same_core.
    - by destruct D1.
    - intros _ _. by destruct Hroom. }
  destruct (is_closing which) eqn:Ec.
  { destruct (flush_queue_run _ _ _ _ (del ISL_FLUSH) F w (ipf_state_tcptq cf which) Ht HF) as (n & D & w1 & R & T & D1 & Hq).
    { apply tcptq_queue. unfold is_state, IPF_TCP_NSTATES. apply closing_range in Ec. lia. }
    exists n, D, w1. split; [exact R|]. apply closing_range in Ec. split_and!; try done; lia. }
  destruct (which <? 30) eqn:E30; breflect; [exists 0, [], w; split_and!; try done; try lia; apply removed_refl|].
  cbv zeta. rewrite (bind_eq _ _ _ _ _ eq_refl).
  destruct (flush_all_run (fun x e => if (proto =? 0) || (is_v (s_is e) =? proto) then
      t ← hp (ent tqe_touched x); w ← gets id; mret (u64 (sw_ticks w - t) >? idle_limit which) else mret false)
    (fun x => of_version w proto x && idle_for w which x) w) as (n & w' & R & T & D); [|done|].
  { intros w1 x e T1 Htk He He0 Hv. destruct (tk_ents _ _ _ _ _ T1 x) as [t Ex]; [by eexists|].
    unfold of_version, idle_for. rewrite He0, <- Hv, <- Htk. unfold timing. rewrite Ex. cbn [fmap option_fmap option_map].
    destruct ((proto =? 0) || _); [|done]. by rewrite (bind_eq _ _ _ _ _ (hp_ent tqe_touched _ _ _ Ex)). }
  eexists n, _, w'. split; [exact R|]. split_and!; try done; lia.
Qed.

(** *** The timer *)

(** [ipf_state_expire] completes.  What stays is not due, and unless room has to be
    made everything that is not due stays. *)
Lemma state_expire_run w F : table_ok w -> fuel_ok all_queues F w -> (92 <= F)%nat -> 0 <= sw_ticks w < 2 ^ 64 ->
  exists w' D, ipf_state_expire cf F w = Some (tt, w') /\ table_ok w' /\ removed D w (w' <| sw_doflush := sw_doflush w |>) /\
    (forall x, in_table w' x -> in_table w x /\ due w x = false) /\
    (sw_doflush w = 0 -> forall x, in_table w x -> due w x = false -> in_table w' x).
Proof.
  intros Ht HF HF2 Hw. unfold ipf_state_expire. cbv zeta.
  destruct (expire_scan _ _ _ _ (del ISL_EXPIRE) w F Ht HF) as (n & D & w1 & R & T & Dr & Hd & Hs).
  rewrite (bind_eq _ _ _ n w1) by exact R. rewrite (bind_eq _ _ _ _ _ eq_refl), (tk_users _ T).
  rewrite (bind_eq _ _ _ 0 w1) by by destruct F. rewrite (bind_eq _ _ _ _ _ eq_refl), (tk_users _ T).
  rewrite (bind_eq _ _ _ tt w1) by by destruct F. rewrite (bind_eq _ _ _ _ _ eq_refl).
  destruct (Z.eqb_spec (sw_doflush w1) 0) as [E0|E0]; cbn [negb when_].
  { exists w1, D. split; [done|]. split; [done|]. split; [by destruct Dr|]. split; [intros x Hx; by apply Hs|].
    intros _ x Hx Hx'. by apply Hs. }
  pose proof (fuel_removed _ _ _ _ (del ISL_EXPIRE) _ _ _ _ Ht Dr HF) as HF1.
  destruct (state_flush_run F 2 0 w1 T HF1 HF2) as (m & D2 & w2 & R2 & T2 & Dr2 & _); [by rewrite (rm_ticks _ _ _ Dr)|].
  rewrite (bind_eq _ _ _ _ _ R2). eexists _, (D ++ D2). split; [done|]. pose proof (removed_trans _ _ _ _ _ Dr Dr2) as Dr3.
  split; [eapply (tok_forget _ _ _ _ _ 0 (sw_ticks w2)); exact T2|]. split; [by destruct Dr3|]. split.
  - intros x Hx. change (in_table w2 x) in Hx. apply Hs. by apply (removed_in_table _ _ _ x Dr2) in Hx as [? _].
  - intros Hz. rewrite <- (rm_doflush _ _ _ Dr) in Hz. done.
Qed.

(** References. *)
Lemma state_deref_run w x e : table_ok w -> sw_states w !! x = Some e ->
  exists w', ipf_state_deref cf x w = Some (tt, w') /\ table_ok w' /\ (forall y, y <> x -> in_table w' y <-> in_table w y).
Proof.
  intros Ht He. unfold ipf_state_deref. rewrite (bind_eq _ _ _ _ _ (st_run _ _ _ He)). destruct (is_ref e >? 1).
  - rewrite (upd_st_run _ _ _ _ He). eexists. split; [done|]. split; [|done]. apply (tok_upd_st _ _ _ _ w); [split; auto|done].
  - destruct (state_del_run w x e ISL_ORPHAN Ht He) as (r & w' & R & T & D & _). rewrite (bind_eq _ _ _ _ _ R).
    exists w'. split; [done|]. split; [done|]. intros y Hy.
    rewrite (removed_in_table [x] w w' y); [|by eapply removed_one; [|apply removed_refl]]. rewrite list_elem_of_singleton. tauto.
Qed.

Lemma next_of_in x l y : next_of x l = Some y -> y ∈ l.
Proof.
  induction l as [|z l IH]; cbn [next_of]; [done|]. case_decide; [|right; auto].
  destruct l; [done|]. cbn. intros [= ->]. right. by left.
Qed.

(** [ipf_state_iter]: the token refers to an entry that exists. *)
Lemma state_iter_run w tok cur : table_ok w -> sw_saved w !! tok = Some cur ->
  (forall x, cur = Some x -> is_Some (sw_states w !! x)) ->
  exists nx w', ipf_state_iter cf tok w = Some (nx, w') /\ table_ok w' /\
    nx = match cur with None => head (sw_list w) | Some x => next_of x (sw_list w) end /\
    (forall n, nx = Some n -> n ∈ sw_list w).
Proof.
  intros Ht Hc He. unfold ipf_state_iter. rewrite (bind_eq _ _ _ w w eq_refl).
  rewrite (bind_eq _ _ _ cur w) by (by unfold need; rewrite Hc).
  set (nx := match cur with None => head (sw_list w) | Some x => next_of x (sw_list w) end).
  rewrite (bind_eq _ _ _ nx w).
  2: { unfold nx. destruct cur as [x|]; [|done]. destruct (He x eq_refl) as [e Hx]. rewrite (bind_eq _ _ _ _ _ (st_run _ _ _ Hx)).
       by rewrite (en_listed _ _ _ _ (tk_entry _ _ _ _ _ Ht x e Hx)). }
  assert (Hn : forall n, nx = Some n -> n ∈ sw_list w).
  { unfold nx. intros n Hn. destruct cur; [by eapply next_of_in|]. destruct (sw_list w); [done|]. injection Hn as ->. by left. }
  assert (X : exists w1, match nx with Some n => upd_st n (fun e => e <| is_ref ::= fun r => r + 1 |>) | None => mret tt end w =
    Some (tt, w1) /\ table_ok w1 /\ sw_saved w1 = sw_saved w /\ (forall x, is_Some (sw_states w !! x) -> is_Some (sw_states w1 !! x))).
  { destruct nx as [n|]; [|by exists w]. assert (Hin : n ∈ sw_list w) by by apply Hn.
    apply (tk_list _ _ _ _ _ Ht) in Hin as [[e Hx] _]. rewrite (upd_st_run _ _ _ _ Hx). eexists. split; [done|].
    split; [apply (tok_upd_st _ _ _ _ w); [split; auto|done]|]. split; [done|]. intros y Hy. by apply alter_some. }
  destruct X as (w1 & R1 & T1 & S1 & Hs1). rewrite (bind_eq _ _ _ _ _ R1), (bind_eq _ _ _ tt _ eq_refl).
  set (w2 := w1 <| sw_saved ::= <[tok := nx]> |>).
  assert (T2 : table_ok w2).
  { eapply table_ok_same; [|exact T1]. split; try done; [|by intros r rl Hr; exists rl..].
    intros v Hv. cbn. apply lookup_insert_is_Some'. by right. }
  destruct cur as [x|].
  - destruct (Hs1 x (He x eq_refl)) as [e Hx].
    destruct (state_deref_run w2 x e T2 Hx) as (w3 & R3 & T3 & _). rewrite (bind_eq _ _ _ _ _ R3). by exists nx, w3.
  - rewrite (bind_eq _ _ _ tt w2) by done. by exists nx, w2.
Qed.

(** [ipf_state_setpending] of an entry in the table. *)
Lemma state_setpending_run w x e : table_ok w -> sw_states w !! x = Some e -> is_hashed e = true ->
  exists w', ipf_state_setpending cf x w = Some (tt, w') /\ table_ok w' /\ (forall i, sw_table w' i = sw_table w i).
Proof.
  intros Ht He Hh. assert (Hin : in_table w x).
  { exists (is_hv e). by apply (en_hashed _ _ _ _ (tk_entry _ _ _ _ _ Ht x e He)). }
  destruct (tk_ents _ _ _ _ _ Ht x) as [t Hx]; [by eexists|]. unfold ipf_state_setpending.
  rewrite (bind_eq _ _ _ _ _ (hp_ent tqe_ifq _ _ _ Hx)), (bind_eq _ _ _ _ _ eq_refl).
  fold (enqueue x (tqe_ifq t) (ipf_state_pending cf) (sw_ticks w)).
  destruct (enqueue_run _ _ _ _ _ x t (ipf_state_pending cf) Ht Hx) as (h' & R & T & _); [table_queue|].
  rewrite (bind_eq _ _ _ _ _ R).
  assert (T1 : table_ok (w <| sw_heap := h' |>)).
  { eapply tok_K_ext; [|exact T]. intros y. change (in_table w y \/ y = x <-> in_table w y). naive_solver. }
  destruct (forget_me_run _ _ _ _ _ x e T1 He) as (w2 & e2 & R2 & T2 & _ & _ & _ & _ & _ & _ & Et & _).
  exists w2. split; [done|]. split; [|by rewrite Et]. unfold table_ok. replace (in_table w2) with (in_table (w <| sw_heap := h' |>)); [done|].
  unfold in_table. by rewrite Et.
Qed.

(** *** Another bucket *)
Definition rehashed (x : loc) (h : Z) (w : W) : W :=
  w <| sw_states ::= alter (fun e => e <| is_hashed := true |> <| is_hv := h |>) x |>
    <| iss_inuse := iss_inuse w + b2z (bool_decide (sw_table w h = [])) |>
    <| iss_bucketlen ::= upd_at h (fun n => n + 1) |>
    <| sw_table ::= upd_at h (cons x) |>.
Lemma tok_rehash K d a w x e h :
  tok None K (d + 1) a w -> sw_states w !! x = Some e -> is_hashed e = false -> 0 <= h < ipf_state_size cf ->
  tok None K d a (rehashed x h w).
Proof.
  intros Ht He Hh Hsz. set (w' := rehashed x h w). set (f := fun e : ips => e <| is_hashed := true |> <| is_hv := h |>).
  assert (Es : sw_states w' = alter f x (sw_states w)) by done.
  assert (Hx : x ∈ sw_list w) by (apply (tk_list _ _ _ _ _ Ht); split; [by eexists|done]).
  assert (Htb : forall i, x ∉ sw_table w i).
  { intros i Hi. destruct (tk_chain _ _ _ _ _ Ht _ _ Hi) as (_ & _ & e0 & He0 & <-). rewrite He in He0. injection He0 as <-.
    apply (en_hashed _ _ _ _ (tk_entry _ _ _ _ _ Ht x e He)) in Hi; [congruence|done]. }
  destruct Ht. split; try done.
  - intros y Hy. rewrite Es in Hy. apply alter_some in Hy. auto.
  - intros y e' He'. rewrite Es in He'. apply lookup_alter_cases in He' as [(-> & e0 & He0 & ->)|[Hyx He']].
    + rewrite He in He0. injection He0 as <-. destruct (tk_entry0 x e He) as [? ? ? ? _]. split; try done.
      intros _. cbn. rewrite upd_at_eq. split; [by left|done].
    + destruct (tk_entry0 y e' He') as [? ? ? Hl Hh']. split; try done; auto. intros _.
      rewrite Hh' by congruence. cbn. destruct (decide (is_hv e' = h)) as [->|Hn]; [|by rewrite upd_at_ne].
      rewrite upd_at_eq. set_solver.
  - intros y. rewrite Es, alter_some. apply tk_list0.
  - intros i. cbn. unfold upd_at. case_match; [|done]. apply NoDup_cons. split; [apply Htb|apply tk_chain_nodup0].
  - intros i y Hy. rewrite Es. assert (Hold : y ∈ sw_table w i -> 0 <= i < ipf_state_size cf /\ None <> Some y /\
        exists e', alter f x (sw_states w) !! y = Some e' /\ is_hv e' = i).
    { intros Hy'. destruct (tk_chain0 i y Hy') as (? & Hyx & e' & He' & Hi). split; [done|]. split; [done|].
      exists e'. split; [|done]. rewrite lookup_alter_ne; [done|]. intros ->. by apply (Htb i). }
    cbn in Hy. destruct (decide (i = h)) as [->|]; [|rewrite upd_at_ne in Hy by done; auto].
    rewrite upd_at_eq in Hy. apply elem_of_cons in Hy as [->|Hy]; [|auto].
    split; [done|]. split; [done|]. exists (f e). split; [by apply lookup_alter_Some_eq|done].
  - intros i. cbn. destruct (decide (i = h)) as [->|]; [|by rewrite !upd_at_ne].
    rewrite !upd_at_eq, tk_bucketlen0. cbn. lia.
  - change (sw_list w') with (sw_list w). rewrite (count_upd (orphaned w) (orphaned w') _ x); [|done|done|].
    + assert (orphaned w' x = false) as -> by (unfold orphaned; by rewrite Es, (lookup_alter_Some_eq _ _ _ _ He)).
      assert (orphaned w x = true) as -> by (unfold orphaned; by rewrite He, Hh).
      change (iss_orphan w') with (iss_orphan w). cbn [b2z]. lia.
    + intros y Hy. unfold orphaned. rewrite Es. by rewrite lookup_alter_ne by congruence.
  - cbn. rewrite tk_inuse0. rewrite (count_upd (busy w) (busy w') _ h); [|apply NoDup_seqZ|by apply seqZ_mem|].
    + assert (busy w' h = true) as -> by (unfold busy; cbn; by rewrite upd_at_eq).
      assert (b2z (busy w h) = 1 - b2z (bool_decide (sw_table w h = []))) by (unfold busy; by case_bool_decide).
      cbn [b2z]. lia.
    + intros i Hi. unfold busy. cbn. by rewrite upd_at_ne.
  - intros r. change (holders w' r) with (count (rule_held w' r) (sw_list w)).
    rewrite (count_ext (rule_held w' r) (rule_held w r)); [apply tk_holders0|].
    intros y _. unfold rule_held. rewrite Es. destruct (decide (x = y)) as [->|]; [|by rewrite lookup_alter_ne].
    by rewrite (lookup_alter_Some_eq _ _ _ _ He), He.
  - by apply (fresh_alter w).
Qed.

(** *** A new entry *)
Lemma fresh_new w c e t l : table_ok w -> sw_allocs w = Some c :: l -> is_sti (s_is e) = c -> is_tqehead e = (None, None) ->
  (forall v, is_me e = Some v -> is_Some (sw_saved w !! v)) -> used_states (tqe_state0 t, tqe_state1 t) ->
  has (tqe_flags t) TQE_RULEBASED = false -> tqe_ifq t = None ->
  fresh_ok c (w <| sw_allocs := l |> <| sw_states ::= <[c := e]> |> <| sw_heap ::= (fun h => h <| ents ::= <[c := t]> |>) |>).
Proof.
  intros Ht Ha Hsti Htq Hme Hu Hfl Hi. destruct (tk_allocs _ _ _ _ _ Ht) as [Hn Hf]. rewrite Ha in Hn, Hf.
  destruct (Hf c) as [Hc1 Hc2]; [by left|]. cbn in Hn. apply NoDup_cons in Hn as [Hcl Hn].
  set (w' := w <| sw_allocs := l |> <| sw_states ::= _ |> <| sw_heap ::= _ |>).
  assert (Hs : forall y e, sw_states w !! y = Some e -> c <> y) by (intros y e0 He0 ->; congruence).
  split; [|cbn; rewrite lookup_insert_eq; by eexists].
  assert (Hcl' : c ∉ sw_list w) by (intros [[e0 He0] _]%(tk_list _ _ _ _ _ Ht); by eapply Hs).
  destruct Ht. split; try done.
  - by apply qok_create.
  - intros y. cbn. intros [e0 [[<- <-]|[Hy He0]]%lookup_insert_Some]; [by rewrite lookup_insert_eq|].
    rewrite lookup_insert_ne by done. apply tk_ents0. by eexists.
  - intros y e0 He0. cbn in He0. apply lookup_insert_Some in He0 as [[<- <-]|[Hy He0]]; [by split|].
    destruct (tk_entry0 y e0 He0) as [? ? ? Hl Hh]. split; try done; intros _; auto.
  - intros y. cbn. rewrite tk_list0. split.
    + intros [[e0 He0] _]. split; [|by intros [= ->]; eapply Hs]. rewrite lookup_insert_ne by (by eapply Hs). by eexists.
    + intros [Hy Hne]. rewrite lookup_insert_ne in Hy by congruence. done.
  - intros i y Hy. destruct (tk_chain0 i y Hy) as (? & _ & e0 & He0 & ?). split; [done|]. pose proof (Hs _ _ He0).
    split; [congruence|]. exists e0. cbn. by rewrite lookup_insert_ne.
  - transitivity (count (orphaned w) (sw_list w)); [done|]. apply count_ext. intros y Hy. unfold orphaned. cbn.
    rewrite lookup_insert_ne; [done|]. by intros ->.
  - intros r. replace (holders w' r) with (holders w r); [apply tk_holders0|]. apply count_ext. intros y Hy.
    unfold rule_held. cbn. rewrite lookup_insert_ne; [done|]. by intros ->.
  - split; [done|]. cbn. intros y Hy. destruct (Hf y) as [? ?]; [by right|].
    assert (c <> y). { intros ->. apply Hcl. apply list_elem_of_omap. by exists (Some y). }
    by rewrite !lookup_insert_ne.
Qed.
(** The allocation failed. *)
Lemma table_ok_nomem w l : table_ok w -> sw_allocs w = None :: l -> table_ok (w <| sw_allocs := l |>).
Proof.
  intros Ht Ha. destruct (tk_allocs _ _ _ _ _ Ht) as [Hn Hf]. rewrite Ha in Hn, Hf. destruct Ht. split; try done.
  - intros x e Hx. by destruct (tk_entry0 x e Hx).
  - split; [done|]. cbn. intros x Hx. apply Hf. by right.
Qed.

(** ** The empty table *)
Lemma start_ok (w : W) :
  0 < ipf_state_size cf -> ents (sw_heap w) = ∅ -> parent_var (sw_heap w) = None ->
  queue_chain (sw_heap w) (Some (ipf_state_tcptq cf 0)) all_queues ->
  (forall q, q ∈ all_queues -> queue (sw_heap w) q [] /\
    exists ttl, ttl_of (sw_heap w) q = Some ttl /\ 0 <= ttl /\ sw_ticks w + ttl < 2 ^ 32) -> 0 <= sw_ticks w ->
  sw_states w = ∅ -> sw_list w = [] -> (forall i, sw_table w i = []) -> (forall i, iss_bucketlen w i = 0) ->
  iss_active w = 0 -> iss_orphan w = 0 -> iss_inuse w = 0 -> (forall r rl, sw_rules w !! r = Some rl -> sr_age rl = (0, 0)) ->
  NoDup (omap id (sw_allocs w)) -> table_ok w.
Proof.
  intros Hsz He Hp Hc Hq Hn Hs Hl Ht Hb Ha Ho Hi Hr Hal. split; try done.
  - apply qok_empty; try done. intros x [i Hx]. rewrite Ht in Hx. by apply elem_of_nil in Hx.
  - rewrite Hs. by intros x [e Hx].
  - rewrite Hs. by intros x e Hx.
  - rewrite Hl. constructor.
  - intros x. rewrite Hl, Hs. split; [by intros ?%elem_of_nil|by intros [[? ?] _]].
  - intros i. rewrite Ht. constructor.
  - intros i x. rewrite Ht. by intros ?%elem_of_nil.
  - intros i. by rewrite Ht, Hb.
  - by rewrite Ha, Hl.
  - by rewrite Ho, Hl.
  - rewrite Hi, (count_ext _ (fun _ => false)).
    + generalize (seqZ 0 (ipf_state_size cf)). intros l. induction l as [|a l IH]; [done|]. by rewrite count_cons, <- IH.
    + intros i _. unfold busy. by rewrite Ht.
  - intros r. unfold holders. rewrite Hl, count_nil. lia.
  - split; [done|]. intros x _. by rewrite Hs, He.
Qed.
End Inv.
