(* ===== verification/StateSteps.v ===== *)
(** The lookup of the state table (StateLookup.v) keeps the table well-formed
    (StateInv.v), and so does everything else that happens to it: a step relation with
    the operations of State.v and StateLookup.v, and the invariant of its runs. *)
From S2P Require Import Prelude Packet Cksum Parse Timeoutq TcpAge Queues Sweeps TcpWindow Filter State StateLookup StateInv.

(** ** Pieces of the lookup *)

Section Steps.
Context {E : Type} `{state_env E} (cf : stconf) (be : bool).
Abbreviation W := (stw E).
Abbreviation table_queue := (table_queue cf).

Lemma wlp_st x Q (w : W) : (forall e, sw_states w !! x = Some e -> Q e w) -> wlp (st x) Q w.
Proof. intros Hq. unfold wpg, st. destruct (sw_states w !! x) eqn:E0; [|done]. by apply Hq. Qed.
Lemma wlp_ent {A} (f : ipftqent -> A) x Q (w : W) : (forall t, ents (sw_heap w) !! x = Some t -> Q (f t) w) -> wlp (hp (ent f x)) Q w.
Proof. intros Hq. unfold wpg, hp, ent. destruct (ents (sw_heap w) !! x) eqn:E0; [|done]. specialize (Hq _ eq_refl). by destruct w. Qed.
Lemma wlp_upd_st x f Q (w : W) :
  (forall e, sw_states w !! x = Some e -> Q tt (w <| sw_states ::= alter f x |>)) -> wlp (upd_st x f) Q w.
Proof. intros Hq. unfold wpg, upd_st. destruct (sw_states w !! x) eqn:E0; [|done]. by eapply Hq. Qed.
Lemma wlp_srule r Q (w : W) : (forall rl, sw_rules w !! r = Some rl -> Q rl w) -> wlp (srule r) Q w.
Proof. intros Hq. unfold wpg, srule. destruct (sw_rules w !! r) eqn:E0; [|done]. by apply Hq. Qed.

(** The next step of a run keeps [I], by the hints for [keeps]. *)
Ltac kstep a w Hi := (rewrite wp_bind; eapply wp_mono; [match goal with I0 : ?I ?w0 |- wpg True ?m _ ?w0 =>
  assert (Hk : keeps I m) by auto 20 with keeps; exact (Hk w0 I0) end|]; intros a w Hi).

(** In the table, and found there. *)
Definition hashed (w : W) (x : loc) : Prop := exists e, sw_states w !! x = Some e /\ is_hashed e = true.
(** The table is well-formed and the entries of [P] are in it. *)
Definition inv (P : loc -> Prop) (w : W) : Prop := table_ok cf w /\ forall x, P x -> hashed w x.

Lemma inv_same P w w' : same_core w w' -> inv P w -> inv P w'.
Proof.
  intros Hs [Ht Hp]. split; [by eapply table_ok_same|]. intros x Hx. destruct (Hp x Hx) as (e & ? & ?).
  exists e. by rewrite (sc_states _ _ Hs).
Qed.
Lemma inv_upd_st P w x f : (forall e, sw_states w !! x = Some e -> same_links e (f e)) -> inv P w ->
  inv P (w <| sw_states ::= alter f x |>).
Proof.
  intros Hf [Ht Hp]. split; [by apply (tok_upd_st cf _ _ _ _ w)|]. intros y Hy. destruct (Hp y Hy) as (e & He & Hh).
  unfold hashed. cbn. destruct (decide (x = y)) as [->|Hne]; [|exists e; by rewrite lookup_alter_ne].
  exists (f e). rewrite lookup_alter_eq, He. split; [done|]. by rewrite (sl_hashed _ _ (Hf e He)).
Qed.
Lemma inv_heap P w h' : inv P w -> queue_step (sw_heap w) h' ->
  (forall K, queues_ok table_queue (sw_ticks w) K (sw_heap w) -> queues_ok table_queue (sw_ticks w) K h') ->
  inv P (w <| sw_heap := h' |>).
Proof.
  intros [Ht Hp] Hs Hq. split; [|done]. eapply (tok_heap cf); [exact Ht|done|]. apply Hq. apply Ht.
Qed.
Lemma inv_mono (P P' : loc -> Prop) w : (forall x, P' x -> P x) -> inv P w -> inv P' w.
Proof. intros Hp [Ht Hh]. split; auto. Qed.

Section Pieces.
Context (P : loc -> Prop).
Abbreviation kp := (keeps (inv P)).

Lemma keeps_core f : (forall w, same_core w (f w)) -> kp (modify f).
Proof. intros Hf. apply keeps_modify. intros w. by apply inv_same. Qed.
Lemma keeps_st x : kp (st x).
Proof. intros w Hw. unfold wpg, st. by destruct (sw_states w !! x). Qed.
Lemma keeps_upd_st x f : (forall e, same_links e (f e)) -> kp (upd_st x f).
Proof.
  intros Hf w Hw. unfold wpg, upd_st. destruct (sw_states w !! x) eqn:He; [|done]. cbn. by apply inv_upd_st.
Qed.
Lemma keeps_upd_is x f : (forall i, is_sti (f i) = is_sti i) -> kp (upd_is x f).
Proof. intros Hf. apply keeps_upd_st. intros e. split; cbn; auto. Qed.
Lemma keeps_srule r : kp (srule r).
Proof. intros w Hw. unfold wpg, srule. by destruct (sw_rules w !! r). Qed.
Lemma keeps_ext {A} (f : E -> A * E) : kp (ext f).
Proof. intros w Hw. unfold wpg, ext. destruct (f (sw_ext w)). by eapply inv_same; [apply same_core_ext|]. Qed.
Lemma keeps_ext_ f : kp (ext_ f).
Proof. apply keeps_core. intros w. apply same_core_ext. Qed.
Lemma keeps_upd_sfin f : kp (upd_sfin f).
Proof. apply keeps_core. intros w. split; try done; intros r0 rl0 Hr0; exists rl0; by split. Qed.
Lemma keeps_ent_hp {A} (f : ipftqent -> A) x : kp (hp (ent f x)).
Proof. intros w Hw. unfold wpg, hp, ent. destruct (ents (sw_heap w) !! x); [|done]. by destruct w. Qed.
(** A queue operation, at the current time. *)
Lemma keeps_hp_at {A B} (f : Z -> ST tqheap A) (k : A -> ST W B) : (forall now, queue_op (f now)) ->
  (forall now K, keeps (queues_ok table_queue now K) (f now)) -> (forall a, kp (k a)) ->
  kp (ticks ← gets sw_ticks; a ← hp (f ticks); k a).
Proof.
  intros Ho Hq Hk w Hw. rewrite wp_bind, wp_gets, wp_bind. unfold wpg at 1, hp.
  destruct (f (sw_ticks w) (sw_heap w)) as [[a h']|] eqn:Ef; [|done]. cbn. apply Hk. apply inv_heap; [done|..].
  - intros I HI HIh. by apply (wlp_run _ _ _ _ _ (Ho _ I HI _ HIh) Ef).
  - intros K HK. by apply (wlp_run _ _ _ _ _ (Hq _ K _ HK) Ef).
Qed.
End Pieces.

Hint Resolve keeps_st keeps_srule keeps_ext keeps_ext_ keeps_upd_sfin keeps_ent_hp : keeps.
Hint Extern 1 (keeps _ (upd_st _ _)) => (apply keeps_upd_st; intros; split; auto) : keeps.
Hint Extern 1 (keeps _ (modify _)) => (apply keeps_core; intros; split; try done; intros r0 rl0 Hr0; exists rl0; by split) : keeps.
Hint Extern 1 (keeps _ (if _ then _ else _)) => (apply keeps_if) : keeps.
Hint Extern 1 (keeps _ (let '(_, _) := ?p in _)) => (destruct p) : keeps.

(** Another bucket. *)
Lemma ipsmove_run (w : W) x e hv : table_ok cf w -> sw_states w !! x = Some e -> is_hashed e = true ->
  ipf_ipsmove cf x hv w = Some (tt, rehashed x (DOUBLE_HASH cf hv) (unhashed x (is_hv e) w)).
Proof.
  intros Ht He Hh. unfold ipf_ipsmove. set (h := DOUBLE_HASH cf hv).
  rewrite (bind_eq _ _ _ _ _ (st_run _ _ _ He)), (bind_eq _ _ _ tt _ eq_refl), (bind_eq _ _ _ _ _ eq_refl).
  set (tb := fun i => without x (sw_table w i)).
  rewrite (bind_eq _ _ _ tt (w <| sw_table := tb |> <| iss_inuse := iss_inuse w - b2z (bool_decide (tb (is_hv e) = [])) |>)).
  2: { unfold tb. cbn. unfold when_, modify. destruct (bool_decide _); cbn; [done|]. by rewrite Z.sub_0_r. }
  rewrite (bind_eq _ _ _ tt _ eq_refl). cbv zeta. erewrite bind_eq by (by eapply upd_st_run).
  rewrite (bind_eq _ _ _ _ _ eq_refl). set (w1 := w <| sw_table := tb |> <| iss_inuse := _ |> <| iss_bucketlen ::= _ |>).
  rewrite (bind_eq _ _ _ tt (w1 <| sw_states ::= alter (fun e => e <| is_hv := h |>) x |>
    <| iss_inuse := iss_inuse w1 + b2z (bool_decide (tb h = [])) |>)).
  2: { change (sw_table _ h) with (tb h). destruct (bool_decide (tb h = [])); cbn [when_ b2z]; [done|]. by rewrite Z.add_0_r. }
  rewrite (bind_eq _ _ _ tt _ eq_refl). unfold modify, rehashed, unhashed, w1, tb. cbn. do 3 f_equal.
  rewrite alter_twice. apply map_eq. intros y. destruct (decide (x = y)) as [->|Hne]; [|by rewrite !lookup_alter_ne].
  rewrite !lookup_alter_eq, He. cbn. destruct e; cbn in *. by subst.
Qed.
Lemma inv_ipsmove P w x hv : inv P w -> hashed w x -> wlp (ipf_ipsmove cf x hv) (fun _ => inv P) w.
Proof.
  intros [Ht Hp] (e & He & Hh). unfold wpg. rewrite (ipsmove_run w x e hv) by done.
  assert (Hsz : 0 < ipf_state_size cf) by apply Ht.
  set (w1 := unhashed x (is_hv e) w). assert (T1 : tok cf None (in_table w) (0 + 1) 0 w1) by by apply tok_unhash.
  assert (E1 : sw_states w1 !! x = Some (e <| is_hashed := false |>)) by (cbn; by rewrite lookup_alter_eq, He).
  pose proof (tok_rehash cf _ _ _ w1 x _ (DOUBLE_HASH cf hv) T1 E1 eq_refl (Z.mod_pos_bound _ _ Hsz)) as T2.
  split.
  - eapply tok_K_ext; [|exact T2]. intros y. transitivity (in_table w1 y \/ y = x).
    + unfold w1. rewrite in_table_unhashed. split; [intros ?; destruct (decide (y = x)); tauto|].
      intros [[? _]| ->]; [done|]. exists (is_hv e). by apply (en_hashed _ _ _ _ (tk_entry _ _ _ _ _ _ Ht x e He)).
    + unfold in_table. cbn [sw_table rehashed field_set]. split.
      * intros [[i Hi]| ->]; [|exists (DOUBLE_HASH cf hv); cbn; rewrite upd_at_eq; by left].
        exists i. cbn. unfold upd_at. case_match; [right|]; done.
      * intros [i Hi]. cbn in Hi. unfold upd_at in Hi. case_match; [|left; by exists i].
        apply elem_of_cons in Hi as [->|Hi]; [by right|left; by exists i].
  - intros y Hy. destruct (decide (x = y)) as [->|Hne].
    + eexists. cbn. by rewrite lookup_alter_eq, lookup_alter_eq, He.
    + destruct (Hp y Hy) as (ey & ? & ?). exists ey. cbn. by rewrite !lookup_alter_ne.
Qed.

Lemma keeps_doflush P v : keeps (inv P) (modify (fun w => w <| sw_doflush := v |>)).
Proof.
  apply keeps_modify. intros w [Ht Hp]. split; [|done]. pose proof (tok_forget cf _ _ _ _ w v (sw_wm_last w) Ht) as T.
  by destruct w.
Qed.
Hint Resolve keeps_doflush : keeps.
Hint Extern 1 (keeps _ (upd_is _ _)) => (apply keeps_upd_is; intros) : keeps.

Lemma keeps_fill_ifp P fin k y : keeps (inv P) (fill_ifp fin k y).
Proof. unfold fill_ifp. auto 20 with keeps. Qed.

(** What a search finds is in the table. *)
Definition found (P : loc -> Prop) (r : option loc) (w : W) : Prop :=
  inv P w /\ match r with Some y => hashed w y | None => True end.

Lemma entry_rule_ok (w : W) x e r : table_ok cf w -> sw_states w !! x = Some e -> is_rule e = Some r -> rule_ok w r.
Proof. intros Ht He Hr. eapply (tk_holders cf); [exact Ht|]. by eapply (holders_in cf). Qed.
Lemma used_listen : used_state 0.
Proof. split; [split; done|done]. Qed.

Lemma entry_ok_of (w : W) x e : table_ok cf w -> sw_states w !! x = Some e -> entry_ok None w x e.
Proof. intros Ht. apply (tk_entry cf _ _ _ _ _ Ht). Qed.
Lemma ent_ok_of (w : W) x t : table_ok cf w -> ents (sw_heap w) !! x = Some t -> ent_ok (in_table w) x t.
Proof. intros Ht. destruct (tk_queues cf _ _ _ _ _ Ht) as [Q HQ]. apply HQ. Qed.

(** The new entry goes away when the table does not take it. *)
Lemma fresh_delete P (w : W) c w0 : inv P w0 -> (forall y, y <> c -> sw_states w !! y = sw_states w0 !! y) ->
  sw_states w0 !! c = None -> fresh_ok cf c w ->
  inv P (w <| sw_states ::= delete c |> <| sw_heap ::= (fun h => h <| ents ::= delete c |>) |>).
Proof.
  intros [_ Hp] Hs Hc [Ht _]. split.
  - apply (tok_delete cf _ _ _ _ _ Ht). intros [i Hi]. by destruct (tk_chain cf _ _ _ _ _ Ht _ _ Hi) as (_ & ? & _).
  - intros y Hy. destruct (Hp y Hy) as (e & He & ?). assert (y <> c) by congruence. exists e.
    cbn. by rewrite lookup_delete_ne, Hs by congruence.
Qed.
Lemma hashed_states (w w' : W) y : sw_states w' !! y = sw_states w !! y -> hashed w y -> hashed w' y.
Proof. intros E0 (e & ? & ?). exists e. by rewrite E0. Qed.

Lemma keeps_tcp_age_hp P x fin tcp tq flags ok B (k : Z -> ST W B) :
  (forall s, is_state s -> table_queue (tq s)) -> (forall a, keeps (inv P) (k a)) ->
  keeps (inv P) (ticks ← gets sw_ticks; a ← hp (ipf_tcp_age ticks x fin tcp tq flags ok); k a).
Proof.
  intros Hq Hk. apply (keeps_hp_at P (fun ticks => ipf_tcp_age ticks x fin tcp tq flags ok)); [| |done].
  - intros now I HI. by apply (keeps_tcp_age (fun _ => True)).
  - intros now K. apply qok_tcp_age. intros s [Hs _]. by apply Hq.
Qed.
Hint Extern 1 (keeps _ (mbind _ (gets sw_ticks))) =>
  (apply keeps_tcp_age_hp; [intros; by apply tcptq_queue|intros]) : keeps.

Lemma clone_found P fin tcp x (w : W) : inv P w -> wlp (ipf_state_clone cf fin tcp x) (found P) w.
Proof.
  intros Hw. unfold ipf_state_clone. rewrite wp_bind, wp_gets.
  destruct (iss_active (id w) =? ipf_state_max cf).
  { rewrite wp_bind. eapply wp_mono; [by apply (keeps_doflush P 1)|]. intros [] w' Hw'. by split. }
  rewrite wp_bind. unfold wpg at 1, kmalloc. destruct (sw_allocs w) as [|[c|] l] eqn:Ea; [by split| |].
  2: { split; [|done]. destruct Hw as [Ht Hp]. split; [|done]. by apply (table_ok_nomem cf). }
  set (w1 := w <| sw_allocs := l |>). rewrite wp_bind. apply wlp_st. intros e He.
  rewrite wp_bind. apply wlp_ent. intros t Ex. cbn [id].
  rewrite wp_bind, wp_modify, wp_bind. set (t' := t <| tqe_pnext := None |> <| tqe_next := None |> <| tqe_ifq := None |>
    <| tqe_parent := Some c |> <| tqe_die := _ |> <| tqe_state0 := 0 |> <| tqe_state1 := 0 |>).
  set (w2 := w1 <| sw_states ::= _ |> <| sw_heap ::= _ |>).
  apply wlp_upd_st. intros e' E2. assert (e' = e) as ->.
  { unfold w2 in E2. cbn in E2. rewrite lookup_insert_eq in E2. congruence. }
  set (f := fun e : ips => e <| s_is ::= _ |>). set (w3 := w2 <| sw_states ::= alter f c |>).
  pose proof Hw as [Ht Hp]. destruct (entry_ok_of w x e Ht He) as [_ Etq Eme _ _].
  destruct (ent_ok_of w x t Ht Ex) as [Hu Hfl _ _].
  assert (F3 : fresh_ok cf c (w1 <| sw_states ::= <[c := f e]> |> <| sw_heap ::= (fun h => h <| ents ::= <[c := t']> |>) |>)).
  { by apply (fresh_new cf w). }
  assert (E3 : w3 = w1 <| sw_states ::= <[c := f e]> |> <| sw_heap ::= (fun h => h <| ents ::= <[c := t']> |>) |>).
  { unfold w3, w2. cbn. f_equal. apply map_eq. intros y. rewrite lookup_alter, !lookup_insert. by repeat case_decide. }
  assert (S3 : forall y, y <> c -> sw_states w3 !! y = sw_states w !! y).
  { intros y Hy. rewrite E3. cbn. by rewrite lookup_insert_ne by congruence. }
  assert (E4 : sw_states w3 !! c = Some (f e)) by (rewrite E3; apply lookup_insert_eq).
  assert (Hc : sw_states w !! c = None).
  { destruct (tk_allocs cf _ _ _ _ _ Ht) as [_ Hf]. apply Hf. rewrite Ea. by left. }
  assert (Hr : forall r, is_rule (f e) = Some r -> rule_ok w3 r).
  { intros r Er. destruct (entry_rule_ok w x e r Ht He Er) as (rl & Hrl & ?). exists rl. split; [by rewrite E3|].
    replace (holders w3 r) with (holders w r); [done|]. rewrite E3. apply count_ext. intros y Hy. unfold rule_held. cbn.
    rewrite lookup_insert_ne; [done|]. intros ->. apply (tk_list cf _ _ _ _ _ Ht) in Hy as [[? ?] _]. congruence. }
  rewrite <- E3 in F3. clearbody w3. rewrite wp_bind.
  destruct (state_insert_run cf w3 c (f e) (fin_rev fin) F3 E4 Hr) as (r & w4 & R4 & Hr01 & S4 & O4 & C4).
  unfold wpg at 1. rewrite R4. assert (O5 : forall y, y <> c -> sw_states w4 !! y = sw_states w !! y)
    by (intros y Hy; rewrite O4, S3; done).
  destruct (Z.eqb_spec r 0) as [->|Hr0].
  2: { destruct C4 as (F4 & _ & _). destruct Hr01 as [->| ->]; [done|].
       change (-1 =? -1) with true. cbv iota. rewrite wp_bind, wp_modify. split; [|done]. by apply (fresh_delete P w4 c w). }
  change (0 =? -1) with false. cbv iota. destruct C4 as (T4 & _ & _).
  set (P' := fun y => P y \/ y = c). assert (I4 : inv P' w4).
  { split; [done|]. intros y [Hy| ->]; [|by eexists]. apply (hashed_states w); [|auto]. apply O5. intros ->.
    destruct (Hp c Hy) as (? & ? & _). congruence. }
  apply (wp_mono _ _ (fun r w' => inv P' w' /\ r = Some c)).
  2: { intros r' w' [Hi ->]. split; [eapply inv_mono; [|exact Hi]; unfold P'; tauto|]. apply Hi. by right. }
  clear - I4. clearbody P'. revert w4 I4. intros w I0.
  kstep u w1 I1. kstep e w2 I2. kstep u' w3 I3. kstep e' w4 I4. kstep u'' w5 I5. by split.
Qed.

Lemma hashed_inv (P : loc -> Prop) x w : inv (fun y => P y \/ y = x) w -> inv P w /\ hashed w x.
Proof. intros Hi. split; [eapply inv_mono; [|exact Hi]; intros y Hy; by left|]. apply Hi. by right. Qed.
Lemma inv_hashed (P : loc -> Prop) x w : inv P w -> hashed w x -> inv (fun y => P y \/ y = x) w.
Proof. intros [Ht Hp] Hx. split; [done|]. intros y [?| ->]; auto. Qed.
Lemma found_none P w : inv P w -> found P None w.
Proof. by split. Qed.
Lemma found_mono P x r w : found (fun y => P y \/ y = x) r w -> found P r w.
Proof. intros [Hi Hr]. split; [by apply (hashed_inv P x)|done]. Qed.

Lemma fill_addr_sti flags rev fi i : is_sti (fill_addr be flags rev fi i) = is_sti i.
Proof. unfold fill_addr. by repeat case_match. Qed.
Lemma fill_port_sti flags rev sp dp tcp i : is_sti (fill_port flags rev sp dp tcp i) = is_sti i.
Proof. unfold fill_port. by repeat case_match. Qed.
Lemma note_opts_links fin rev flx e : same_links e (note_opts fin rev flx e).
Proof. unfold note_opts. repeat case_match; split; auto. Qed.
Hint Resolve fill_addr_sti fill_port_sti : keeps.
Hint Extern 1 (keeps _ (upd_st _ (note_opts _ _ _))) => (apply keeps_upd_st; intros; apply note_opts_links) : keeps.
Hint Resolve keeps_fill_ifp : keeps.

Lemma matchsrcdst_found P fin x src dst tcp cmask w : inv P w -> hashed w x ->
  wlp (ipf_matchsrcdst cf be fin x src dst tcp cmask) (fun r => found P (fst r)) w.
Proof.
  intros Hw Hx. pose proof (inv_hashed P x w Hw Hx) as I0. clear Hw Hx. set (P' := fun y => P y \/ y = x) in *.
  assert (Hno : forall w', inv P' w' -> found P None w') by (intros w' Hi; apply found_none; by apply (hashed_inv P x)).
  assert (Hyes : forall w', inv P' w' -> found P (Some x) w') by (intros w' Hi; split; by apply (hashed_inv P x)).
  unfold ipf_matchsrcdst. kstep q w1 I1. case_bool_decide; [by apply Hno|].
  kstep e w2 I2. cbv zeta. destruct (ports_of be fin tcp) as [sp dp].
  destruct (negb (ifp_matches _ _ _)); [by apply Hno|]. destruct (negb (match_conn _ _ _ _ _ _ _)); [by apply Hno|].
  kstep u w3 I3. destruct (negb (opts_match _ _ _ _)); [by apply Hno|]. destruct (has (fin_flx fin) FI_IGNORE); [by apply Hyes|].
  rewrite wp_bind. apply (wp_mono _ _ (found P')).
  - set (flags := if bool_decide (is_Some tcp) then is_flags (s_is e) else clear _ _). destruct (has flags SI_WILDP); [|split; [done|]; apply I3; by right].
    kstep t w4 I4. rewrite wp_bind. apply (wp_mono _ _ (found P')).
    + destruct (has flags SI_CLONE); [by apply clone_found|]. kstep u' w5 I5. split; [done|]. apply I5. by right.
    + intros [y|] w5 [I5 Hy]; [|by apply found_none]. pose proof (inv_hashed P' y w5 I5 Hy) as I6.
      kstep u' w6 I7. kstep u'' w7 I8. split; by apply (hashed_inv P' y).
  - intros [y|] w4 [I4 Hy]; [|by apply Hno]. pose proof (inv_hashed P' y w4 I4 Hy) as I5.
    kstep u' w6 I6. kstep u'' w7 I7. apply (found_mono P x). split; by apply (hashed_inv P' y).
Qed.
Lemma match_packet_found P x src dst tcp cmask w : inv P w -> hashed w x ->
  wlp (match_packet cf be x src dst tcp cmask) (found P) w.
Proof.
  intros Hw Hx. unfold match_packet. rewrite wp_bind, wp_gets, wp_bind.
  eapply wp_mono; [by apply matchsrcdst_found|]. intros r w1 [I1 Hr].
  set (P' := fun y => P y \/ Some y = fst r). assert (I2 : inv P' w1).
  { destruct I1 as [T1 Hp]. split; [done|]. intros y [?|Hy]; [by apply Hp|]. by rewrite <- Hy in Hr. }
  kstep u w2 I3. split; [eapply inv_mono; [|exact I3]; intros y Hy; by left|].
  destruct (fst r) as [y|] eqn:Er; [|done]. apply I3. by right.
Qed.

(** ** Searches *)

Lemma chain_hashed w i x : table_ok cf w -> x ∈ sw_table w i -> hashed w x.
Proof.
  intros Ht Hx. destruct (tk_chain cf _ _ _ _ _ Ht _ _ Hx) as (_ & _ & e & He & <-). exists e. split; [done|].
  by apply (en_hashed _ _ _ _ (entry_ok_of w x e Ht He)).
Qed.
Lemma inv_chain P w i : inv P w -> inv (fun y => P y \/ y ∈ sw_table w i) w.
Proof. intros [Ht Hp]. split; [done|]. intros y [?|?]; [auto|by eapply chain_hashed]. Qed.
Lemma found_sub (P P' : loc -> Prop) r w : (forall y, P y -> P' y) -> found P' r w -> found P r w.
Proof. intros Hp [Hi Hr]. split; [by eapply inv_mono|done]. Qed.

Definition finds (try : loc -> ST W (option loc)) : Prop :=
  forall P x w, inv P w -> hashed w x -> wlp (try x) (found P) w.
Lemma find_state_found P pr v try : finds try -> forall l w, inv P w -> (forall x, x ∈ l -> P x) ->
  wlp (find_state pr v try l) (found P) w.
Proof.
  intros Htry l. induction l as [|x l IH]; intros w Hw Hl; cbn [find_state]; [by split|].
  kstep e w1 I1. case_match; [apply IH; [done|]; intros y Hy; apply Hl; by right|].
  rewrite wp_bind. eapply wp_mono; [apply (Htry P x w1 I1), I1, Hl; by left|].
  intros [y|] w2 [I2 Hy]; [by split|]. apply IH; [done|]. intros y ?; apply Hl; by right.
Qed.
Lemma search_found P hv pr v try w : finds try -> inv P w -> wlp (search cf hv pr v try) (found P) w.
Proof.
  intros Htry Hw. unfold search. rewrite wp_bind, wp_gets. eapply wp_mono.
  - apply (find_state_found (fun y => P y \/ y ∈ sw_table w (DOUBLE_HASH cf hv)) pr v try Htry _ w); [by apply inv_chain|by right].
  - intros r w' Hr. eapply found_sub; [|exact Hr]. by left.
Qed.

Lemma try_icmp_finds id : finds (try_icmp cf be id).
Proof.
  intros P x w Hw Hx. unfold try_icmp. rewrite wp_bind, wp_gets. cbv zeta. rewrite wp_bind.
  eapply wp_mono; [by apply match_packet_found|]. intros [y|] w1 [I1 Hy]; [|by split].
  pose proof (inv_hashed P y w1 I1 Hy) as I2.
  kstep e w2 I3. kstep f0 w3 I4. case_match; [apply found_none; by apply (hashed_inv P y)|].
  kstep ok w4 I5. destruct ok; [split|apply found_none]; by apply (hashed_inv P y).
Qed.
Lemma try_tcpudp_finds : finds (try_tcpudp cf be).
Proof.
  intros P x w Hw Hx. unfold try_tcpudp. pose proof (inv_hashed P x w Hw Hx) as I0. cbv zeta. kstep u w1 I1. kstep w' w2 I2.
  apply hashed_inv in I2 as [? ?]. by apply match_packet_found.
Qed.

(** The packet goes through the entry's windows. *)
Definition conn_step (x : loc) (h : tqheap) (now : Z) (t : tcpworld) : Prop :=
  queue_step h (w_heap t) /\ is_sti (w_is t) = x /\
  (forall K, queues_ok table_queue now K h -> queues_ok table_queue now K (w_heap t)).
Lemma keeps_on_heap {A} x h now (m : ST tqheap A) : queue_op m -> (forall K, keeps (queues_ok table_queue now K) m) ->
  keeps (conn_step x h now) (on_heap m).
Proof.
  intros Ho Hq t (Hs & Hx & HQ). unfold wpg, on_heap. destruct (m (w_heap t)) as [[a h']|] eqn:Em; [|done]. cbn.
  split_and!; [|done|].
  - intros I HI HIh. by apply (wlp_run _ _ _ _ _ (Ho I HI _ (Hs I HI HIh)) Em).
  - intros K HK. by apply (wlp_run _ _ _ _ _ (Hq K _ (HQ K HK)) Em).
Qed.
Lemma keeps_conn_modify x h now f : (forall t, w_heap (f t) = w_heap t /\ is_sti (w_is (f t)) = is_sti (w_is t)) ->
  keeps (conn_step x h now) (modify f).
Proof. intros Hf. apply keeps_modify. intros t (? & ? & ?). destruct (Hf t) as [E1 E2]. unfold conn_step. by rewrite E1, E2. Qed.
Lemma keeps_conn_ent {A} x h now (f : ipftqent -> A) y : keeps (conn_step x h now) (on_heap (ent f y)).
Proof.
  apply keeps_on_heap; [intros I HI; by apply (Queues.keeps_ent)|].
  intros K h' Hh'. unfold wpg, ent. by destruct (ents h' !! y).
Qed.
Lemma keeps_conn_move {B} x h now y d (k : tcpworld -> option (B * tcpworld)) : table_queue d ->
  keeps (conn_step x h now) k ->
  keeps (conn_step x h now) (q ← on_heap (ent tqe_ifq y); q ← need q; on_heap (ipf_movequeue now y q d);; k).
Proof.
  intros Hd Hk t Ht.
  assert (E0 : (q ← on_heap (ent tqe_ifq y); q ← need q; on_heap (ipf_movequeue now y q d);; k) t =
    (on_heap (q ← ent tqe_ifq y; q ← need q; ipf_movequeue now y q d) ≫= fun _ => k) t).
  { unfold mbind, st_bind, on_heap, ent, need. destruct (ents (w_heap t) !! y) as [te|]; [|done]. cbn.
    destruct (tqe_ifq te) as [q|]; [|done]. cbn. by destruct t, (ipf_movequeue now y q d _) as [[]|]. }
  unfold wpg. rewrite E0. revert t Ht E0. intros t Ht _. apply (keeps_bind (conn_step x h now)); [|done|done].
  apply keeps_on_heap.
  - intros I HI. apply keeps_bind; [by apply (Queues.keeps_ent)|]. intros q. apply keeps_bind; [apply keeps_need|]. intros q'.
    by apply (keeps_movequeue (fun _ => True)).
  - intros K. by apply qok_keeps_move.
Qed.
Hint Extern 1 (keeps _ (on_heap (ent _ _))) => (apply keeps_conn_ent) : keeps.
Hint Extern 1 (keeps (conn_step _ _ _) (modify _)) => (apply keeps_conn_modify; by intros) : keeps.

Lemma checknewisn_sti newisn fin tcp i : is_sti (ipf_checknewisn newisn fin tcp i) = is_sti i.
Proof. unfold ipf_checknewisn. by repeat case_match. Qed.
Lemma keeps_syn_extras x h now newisn tcp m source : keeps (conn_step x h now) (tcp_syn_extras newisn tcp m source).
Proof.
  unfold tcp_syn_extras. apply keeps_bind; [auto 20 with keeps|]. intros _. apply keeps_bind; [auto with keeps|]. intros w.
  apply keeps_when. apply keeps_modify. intros t (? & ? & ?). split_and!; try done. cbn. by rewrite checknewisn_sti.
Qed.
Lemma used_closed : used_state IPF_TCPS_CLOSED.
Proof. split; [split; done|done]. Qed.
Lemma queue_op_set_state y dir v : queue_op (upd_ent y (set_state dir v)).
Proof. intros I HI. apply (keeps_upd_ent (fun _ => True) I HI). by left. Qed.
Lemma keeps_state_tcp x h now newisn tcp m :
  keeps (conn_step x h now) (ipf_state_tcp be now newisn (ipf_state_tcptq cf) (ipf_state_deletetq cf) tcp m).
Proof.
  unfold ipf_state_tcp. apply keeps_bind; [auto with keeps|]. intros w. cbv zeta.
  set (source := if _ && _ then 0 else _). set (y := is_sti (w_is w)).
  apply keeps_bind; [auto with keeps|]. intros s0. apply keeps_bind; [auto with keeps|]. intros s1. apply keeps_if.
  - apply keeps_bind.
    + apply keeps_on_heap; [apply queue_op_set_state|]. intros K. apply qok_keeps_state, used_closed.
    + intros _. apply keeps_conn_move; [|auto with keeps]. apply (proj1 (Forall_forall _ _) (table_queues cf)). set_solver.
  - apply keeps_bind.
    { apply keeps_if; [auto with keeps|]. destruct (ipf_state_tcpinwindow _ _ _ _ _) as [[[r fin'] fd] td].
      apply keeps_bind; [auto with keeps|auto with keeps]. }
    intros ret. apply keeps_if; [|auto with keeps]. apply keeps_bind; [auto with keeps|]. intros f0.
    apply keeps_bind.
    { apply keeps_on_heap; [intros I HI; by apply (keeps_tcp_age (fun _ => True))|]. intros K. apply qok_tcp_age.
      intros s [Hs _]. by apply tcptq_queue. }
    intros ret'. apply keeps_if; [auto with keeps|]. cbv zeta. apply keeps_bind; [|auto with keeps].
    apply keeps_if; [|apply keeps_if; [|auto with keeps]]; (apply keeps_bind; [auto with keeps|]); intros _; apply keeps_syn_extras.
Qed.
Lemma on_tcp_inv P y newisn tcp m w : inv P w ->
  wlp (on_tcp y (ipf_state_tcp be (sw_ticks w) newisn (ipf_state_tcptq cf) (ipf_state_deletetq cf) tcp m)) (fun _ => inv P) w.
Proof.
  intros Hw. unfold wpg, on_tcp. destruct (sw_states w !! y) as [e|] eqn:He; [|done]. cbn [mbind option_bind].
  set (t0 := mk_tcpworld (sw_heap w) (s_is e) (sw_fin w)).
  assert (H0 : conn_step (is_sti (s_is e)) (sw_heap w) (sw_ticks w) t0) by (split; [by intros I HI|by split]).
  pose proof (keeps_state_tcp _ _ (sw_ticks w) newisn tcp m t0 H0) as Hk. unfold wpg in Hk.
  destruct (ipf_state_tcp _ _ _ _ _ _ _ _) as [[a t]|]; [|done]. cbn [mbind option_bind]. destruct Hk as (Hs & Hx & Hq).
  eapply inv_same; [|apply (inv_upd_st P (w <| sw_heap := w_heap t |>) y (fun e => e <| s_is := w_is t |>));
    [|by apply inv_heap]].
  - split; try done; intros r0 rl0 Hr0; exists rl0; by split.
  - intros e0 He0. change (sw_states w !! y = Some e0) in He0. assert (e0 = e) as -> by congruence. split; auto.
Qed.

Lemma find_tcpudp_found P pr v : forall l oow w, inv P w -> (forall x, x ∈ l -> P x) ->
  wlp (find_tcpudp cf be pr v l oow) (fun r => found P (fst r)) w.
Proof.
  induction l as [|x l IH]; intros oow w Hw Hl; cbn [find_tcpudp]; [by split|].
  assert (Hl' : forall y, y ∈ l -> P y) by (intros y Hy; apply Hl; by right).
  kstep e w1 I1. case_match; [by apply IH|].
  rewrite wp_bind. eapply wp_mono; [apply (try_tcpudp_finds P x w1 I1), I1, Hl; by left|].
  intros [y|] w2 [I2 Hy]; [|by apply IH]. pose proof (inv_hashed P y w2 I2 Hy) as I3.
  destruct (pr =? IPPROTO_TCP); [|by split]. rewrite wp_bind, wp_gets. cbv zeta. rewrite wp_bind.
  eapply wp_mono; [by apply (on_tcp_inv (fun z => P z \/ z = y) y)|]. intros ok w3 I4. destruct (ok =? 0).
  - kstep f0 w4 I5. apply IH; [by apply (hashed_inv P y)|done].
  - split; by apply (hashed_inv P y).
Qed.
Lemma found_inv P r w : found P r w -> inv P w.
Proof. by intros []. Qed.
(** An entry that was found is moved to another bucket, or not. *)
Lemma moved_found P y hv b (w : W) : inv P w -> hashed w y ->
  wlp (when_ b (ipf_ipsmove cf y hv);; mret (Some y)) (found P) w.
Proof.
  intros Hw Hy. pose proof (inv_hashed P y w Hw Hy) as I0. rewrite wp_bind. eapply wp_mono.
  - apply (wp_when _ b _ (fun _ => inv (fun z => P z \/ z = y))); [intros _; by apply inv_ipsmove|done].
  - intros [] w1 I1. split; by apply (hashed_inv P y).
Qed.
Lemma keeps_may_retry P : keeps (inv P) may_retry.
Proof. unfold may_retry. auto with keeps. Qed.
Hint Resolve keeps_may_retry : keeps.
Lemma lookup_tcpudp_found P : forall n tryagain hv oow w, inv P w ->
  wlp (lookup_tcpudp cf be n tryagain hv oow) (found P) w.
Proof.
  induction n as [|n IH]; intros tryagain hv oow w Hw; cbn [lookup_tcpudp]; kstep f0 w1 I1; cbv zeta;
    rewrite wp_bind, wp_gets, wp_bind;
    (eapply wp_mono; [apply (find_tcpudp_found (fun y => P y \/ y ∈ sw_table w1 (DOUBLE_HASH cf hv)));
      [by apply inv_chain|by right]|]);
    intros [[y|] oow'] w2 Hr; apply (found_sub P) in Hr as [I2 Hy]; try by left.
  - cbn [fst] in Hy. pose proof (inv_hashed P y w2 I2 Hy) as I3. kstep e w3 I4. apply hashed_inv in I4 as [I4 Hy4]. by apply moved_found.
  - kstep a w3 I3. kstep u w4 I4. by split.
  - cbn [fst] in Hy. pose proof (inv_hashed P y w2 I2 Hy) as I3. kstep e w3 I4. apply hashed_inv in I4 as [I4 Hy4]. by apply moved_found.
  - kstep a w3 I3. destruct a; [by apply IH|]. kstep u w4 I4. by split.
Qed.
Lemma lookup_icmp6_found P hv w : inv P w -> wlp (lookup_icmp6 cf be hv) (found P) w.
Proof.
  intros Hw. unfold lookup_icmp6. kstep f0 w1 I1. rewrite wp_bind. eapply wp_mono; [by apply search_found, I1; apply try_icmp_finds|].
  intros [y|] w2 [I2 Hy]; [by split|]. kstep a w3 I3. destruct (_ && _ && _); [|by split]. cbv zeta.
  rewrite wp_bind. eapply wp_mono; [by apply search_found, I3; apply try_icmp_finds|].
  intros [y|] w4 [I4 Hy4]; [|by split]. pose proof (inv_hashed P y w4 I4 Hy4) as I5. kstep e w5 I6.
  apply hashed_inv in I6 as [I6 Hy6]. by apply moved_found.
Qed.

(** The result of a lookup: an entry of the table, and a queue of the table. *)
Definition looked_up (P : loc -> Prop) (r : option loc * option loc) (w : W) : Prop :=
  found P (fst r) w /\ forall q, snd r = Some q -> table_queue q.
Ltac table_queue := (apply (proj1 (Forall_forall _ _) (table_queues cf)); set_solver).
Lemma icmp_queue_run P w : inv P w -> wlp (icmp_queue cf) (fun q w' => inv P w' /\ table_queue q) w.
Proof. intros Hw. unfold icmp_queue. kstep f0 w1 I1. split; [done|]. case_match; table_queue. Qed.

Lemma finish_found P y ifq keep w1 : found P y w1 -> (forall q, ifq = Some q -> table_queue q) ->
  wlp (lookup_finish y ifq keep) (looked_up P) w1.
Proof.
  intros Hy Hq. destruct y as [y|]; [|by split; [split|]; [apply Hy|..]]. destruct Hy as [I1 Hy].
  pose proof (inv_hashed P y w1 I1 Hy) as I2. unfold lookup_finish.
  rewrite wp_bind. apply wlp_st. intros e He. rewrite wp_bind. apply wlp_ent. intros t Ht. kstep f0 w2 I3. cbv zeta.
  rewrite (eo_plain _ _ _ (ent_ok_of w1 y t ltac:(apply I1) Ht)). split; [split; by apply (hashed_inv P y)|].
  cbn. destruct keep; [done|done].
Qed.
Lemma state_lookup_found P icmp6err w : (forall w, inv P w -> wlp icmp6err (found P) w) -> inv P w ->
  wlp (ipf_state_lookup cf be icmp6err) (looked_up P) w.
Proof.
  intros H6 Hw. unfold ipf_state_lookup. rewrite wp_bind, wp_gets. cbv zeta.
  destruct (_ =? IPPROTO_ICMPV6); [|destruct (_ =? IPPROTO_ICMP); [|destruct (_ || _)]].
  - rewrite wp_bind. eapply wp_mono; [by apply lookup_icmp6_found|]. intros [y|] w1 [I1 Hy].
    + pose proof (inv_hashed P y w1 I1 Hy) as I2. rewrite wp_bind. eapply wp_mono; [by apply icmp_queue_run|].
      intros q w2 [I3 Hq]. apply hashed_inv in I3 as [I3 Hy3]. apply finish_found; [by split|by intros ? [= <-]].
    + rewrite wp_bind. eapply wp_mono; [by apply H6|]. intros y w2 Hy2. by split.
  - rewrite wp_bind. eapply wp_mono; [by apply search_found, Hw; apply try_icmp_finds|]. intros r w1 [I1 Hr].
    set (P' := fun z => P z \/ Some z = r). assert (I2 : inv P' w1).
    { destruct I1 as [T1 Hp]. split; [done|]. intros z [?|<-]; auto. }
    rewrite wp_bind. eapply wp_mono; [by apply icmp_queue_run|]. intros q w2 [I3 Hq]. apply finish_found; [|by intros ? [= <-]].
    split; [eapply inv_mono; [|exact I3]; intros z Hz; by left|]. destruct r; [|done]. apply I3. by right.
  - rewrite wp_bind. eapply wp_mono; [by apply lookup_tcpudp_found|]. intros r w1 Hr. by apply finish_found.
  - rewrite wp_bind. eapply wp_mono; [apply search_found, Hw|].
    { intros P' x w1 I1 Hx. by apply match_packet_found. }
    intros r w1 Hr. apply finish_found; [done|]. intros q [= <-]. table_queue.
Qed.

Lemma keeps_allow P x src : keeps (inv P) (ipf_allowstateicmp x src).
Proof.
  unfold ipf_allowstateicmp. apply keeps_bind; [auto with keeps|]. intros e. apply keeps_bind; [auto with keeps|]. intros group.
  apply keeps_bind.
  { destruct group as [start|]; [|auto with keeps]. apply keeps_bind; [auto with keeps|]. intros w. cbv zeta.
    destruct (env_scanlist _ _ _) as [[ipass f0] ex]. auto with keeps. }
  intros blocked. auto 20 with keeps.
Qed.
Hint Resolve keeps_allow : keeps.
Lemma find_quoted_found P want also src dst tcp : forall l ofin w, inv P w -> (forall x, x ∈ l -> P x) ->
  wlp (find_quoted cf be want also src dst tcp l ofin) (found P) w.
Proof.
  induction l as [|x l IH]; intros ofin w Hw Hl; cbn [find_quoted]; [by split|].
  assert (Hl' : forall y, y ∈ l -> P y) by (intros y Hy; apply Hl; by right).
  kstep e w1 I1. case_match; [by apply IH|]. rewrite wp_bind.
  eapply wp_mono; [apply (matchsrcdst_found P); [done|apply I1, Hl; by left]|]. intros [[y|] ofin'] w2 [I2 Hy]; [|by apply IH].
  cbn [fst] in Hy. pose proof (inv_hashed P y w2 I2 Hy) as I3. case_match; [by apply IH|].
  kstep denied w3 I4. destruct denied; [apply IH; [by apply (hashed_inv P y)|done]|]. split; by apply (hashed_inv P y).
Qed.
Lemma search_quoted_found P hv want also src dst tcp ofin w : inv P w ->
  wlp (search_quoted cf be hv want also src dst tcp ofin) (found P) w.
Proof.
  intros Hw. unfold search_quoted. rewrite wp_bind, wp_gets. eapply wp_mono.
  - apply (find_quoted_found (fun y => P y \/ y ∈ sw_table w (DOUBLE_HASH cf hv))); [by apply inv_chain|by right].
  - intros r w' Hr. eapply found_sub; [|exact Hr]. by left.
Qed.

Section Errors.
Context {B : build} (minfragmtu : Z) (pkt : pst).
Lemma keeps_rd P {A} (m : ST pst A) : keeps (inv P) (rd pkt m).
Proof. intros w Hw. unfold wpg, rd. by destruct (m pkt) as [[]|]. Qed.
Lemma keeps_quoted P o at_ len hl ofin : keeps (inv P) (quoted be minfragmtu pkt o at_ len hl ofin).
Proof. intros w Hw. unfold wpg, quoted. destruct (store16 _ _). by destruct (ipf_makefrip _ _ _ _) as [[]|]. Qed.
Hint Resolve keeps_rd keeps_quoted : keeps.

Lemma icmp_found P w : inv P w -> wlp (ipf_checkicmpmatchingstate cf be minfragmtu pkt) (found P) w.
Proof.
  intros Hw. unfold ipf_checkicmpmatchingstate. kstep f0 w1 I1. destruct (_ || _); [by split|]. cbv zeta.
  kstep b0 w2 I2. destruct (_ <? _); [by split|]. destruct (_ || _); [by split|]. destruct (is_kernel && _); [by split|].
  kstep ofin w3 I3. kstep pr w4 I4. kstep s w5 I5. kstep d w6 I6. destruct (pr =? IPPROTO_ICMP).
  - destruct (has _ _); [by split|]. kstep i w7 I7. by apply search_quoted_found.
  - destruct (_ || _); [|by split]. kstep l4 w7 I7. by apply search_quoted_found.
Qed.
Lemma icmp6_found P w : inv P w -> wlp (ipf_checkicmp6matchingstate cf be minfragmtu pkt) (found P) w.
Proof.
  intros Hw. unfold ipf_checkicmp6matchingstate. kstep f0 w1 I1. destruct (_ || _); [by split|]. cbv zeta.
  destruct (_ <? _); [by split|]. kstep ofin w3 I3. destruct (has _ _); [by split|]. kstep pr w4 I4. kstep s w5 I5. kstep d w6 I6.
  destruct (pr =? IPPROTO_ICMPV6).
  - kstep ty w7 I7. destruct (negb _); [by split|]. kstep i w8 I8. kstep q w9 I9. by apply search_quoted_found.
  - destruct (_ || _); [kstep l4 w7 I7|]; by apply search_quoted_found.
Qed.

(** *** The entry takes the packet *)
Lemma keeps_move_to P x q : table_queue q ->
  keeps (inv P) (o ← hp (ent tqe_ifq x); o ← need o; ticks ← gets sw_ticks; hp (ipf_movequeue ticks x o q)).
Proof.
  intros Hq w Hw. rewrite wp_bind. apply wlp_ent. intros t Ht. rewrite wp_bind. unfold wpg at 1, need.
  destruct (tqe_ifq t) as [o|] eqn:Eo; [|done]. rewrite wp_bind, wp_gets. unfold wpg at 1, hp.
  destruct (tk_queues cf _ _ _ _ _ (proj1 Hw)) as [Q HQ].
  destruct (ipf_movequeue _ _ _ _ _) as [[u h']|] eqn:Em; [|done]. cbn [mbind option_bind].
  apply inv_heap; [done|..].
  - intros I HI HIh. by apply (wlp_run _ _ _ _ _ (queue_op_move _ _ _ _ I HI _ HIh) Em).
  - intros K HK. destruct (qok_move _ _ _ _ _ _ _ _ HK Ht Eo Hq) as (h2 & E2 & ? & _). rewrite E2 in Em. by injection Em as _ <-.
Qed.
Lemma check_hit_inv P x ifq passp w : inv P w -> (forall q, ifq = Some q -> table_queue q) ->
  wlp (check_hit x ifq passp) (fun _ => inv P) w.
Proof.
  intros Hw Hq. unfold check_hit. kstep e w1 I1. kstep f0 w2 I2.
  rewrite wp_bind. eapply wp_mono.
  { assert (Hk : keeps (inv P) (match is_rule e with
      | None => mret false
      | Some fr => r ← srule fr; if tag_refused f0 r then mret true else
          upd_sfin (fun fin => fin <| fin_group ::= strncpy 16 (sr_group r) |> <| fin_icode := sr_icode r |>);; mret false
      end)) by auto 20 with keeps. exact (Hk w2 I2). }
  intros refused w3 I3. destruct refused; [done|]. kstep u w4 I4. kstep f1 w5 I5. kstep u1 w6 I6.
  rewrite wp_bind. apply wlp_ent. intros t Ht. cbv zeta. rewrite (eo_plain _ _ _ (ent_ok_of w6 x t ltac:(apply I6) Ht)).
  rewrite wp_bind. apply (wp_mono _ _ (fun _ => inv P)).
  { destruct ifq as [q|]; [|exact I6]. exact (keeps_move_to P x q (Hq q eq_refl) w6 I6). }
  intros u2 w7 I7. kstep u3 w8 I8. kstep e1 w9 I9. kstep u4 w10 I10. kstep u5 w11 I11. kstep u6 w12 I12. kstep u7 w13 I13.
  exact I13.
Qed.

(** [ipf_state_check] keeps the table well-formed. *)
Lemma state_check_inv P passp w : inv P w -> wlp (ipf_state_check cf be minfragmtu pkt passp) (fun _ => inv P) w.
Proof.
  intros Hw. unfold ipf_state_check. rewrite wp_bind, wp_gets. cbv zeta. destruct (_ || _); [exact Hw|].
  destruct (has _ _); [exact Hw|]. rewrite wp_bind.
  eapply wp_mono; [apply (state_lookup_found P); [intros; by apply icmp6_found|done]|].
  intros [x ifq] w1 [[I1 Hx] Hq]. cbn [fst snd] in *. kstep f0 w2 I2.
  rewrite wp_bind. apply (wp_mono _ _ (fun r w' => inv P w' /\ forall q, snd r = Some q -> table_queue q)).
  2: { intros [x' ifq'] w3 [I3 Hq3]. destruct x' as [x'|]; [|exact I3]. by apply check_hit_inv. }
  destruct (_ =? IPPROTO_ICMPV6).
  { destruct x; [by split|]. destruct (_ =? 6); [|by split]. rewrite wp_bind.
    eapply wp_mono; [by apply (icmp6_found P)|]. intros y w3 [I3 _]. by split. }
  destruct (_ =? IPPROTO_ICMP).
  { destruct x; [by split|]. rewrite wp_bind. eapply wp_mono; [by apply (icmp_found P)|]. intros y w3 [I3 _]. by split. }
  destruct (_ =? IPPROTO_TCP).
  - destruct x as [y|]; [|by split]. kstep e w3 I3. cbv zeta.
    rewrite wp_bind. apply (wp_mono _ _ (fun _ => inv P)); [|intros u w4 I4; by split].
    apply (keeps_when (inv P)); [|exact I3]. apply keeps_if; [auto with keeps|]. apply keeps_if; auto with keeps.
  - split; [done|]. intros q [= <-]. destruct (_ =? 0); table_queue.
Qed.
End Errors.

(** ** A new entry *)

(** The rule that decided can be referred to. *)
Definition ready (P : loc -> Prop) (w : W) : Prop :=
  inv P w /\ forall fr, fin_fr (sw_fin w) = Some fr -> rule_ok w fr.
Lemma rule_ok_same (w w' : W) r : same_core w w' -> rule_ok w r -> rule_ok w' r.
Proof.
  intros Hs (rl & Hr & Hh). destruct (sc_refs _ _ Hs _ _ Hr) as (rl' & Hr' & ?). exists rl'. split; [done|].
  unfold holders in *. rewrite (sc_list _ _ Hs). rewrite (count_ext _ (rule_held w r)); [lia|].
  intros y _. unfold rule_held. by rewrite (sc_states _ _ Hs).
Qed.
Lemma ready_same P w w' : same_core w w' -> fin_fr (sw_fin w') = fin_fr (sw_fin w) -> ready P w -> ready P w'.
Proof. intros Hs Hf [Hi Hr]. split; [by eapply inv_same|]. rewrite Hf. intros fr Hfr. eapply rule_ok_same; eauto. Qed.
Lemma keeps_ready P f : (forall w, same_core w (f w) /\ fin_fr (sw_fin (f w)) = fin_fr (sw_fin w)) -> keeps (ready P) (modify f).
Proof. intros Hf. apply keeps_modify. intros w. destruct (Hf w). by apply ready_same. Qed.
Ltac same_fin := (apply keeps_ready; intros; split; [split; try done; intros r0 rl0 Hr0; exists rl0; by split|done]).
Hint Extern 1 (keeps (ready _) (modify _)) => same_fin : keeps.
Hint Extern 1 (keeps (ready _) (upd_sfin _)) => (unfold upd_sfin; same_fin) : keeps.
Lemma keeps_ready_st P x : keeps (ready P) (st x).
Proof. intros w Hw. by apply wlp_st. Qed.
Lemma keeps_ready_srule P r : keeps (ready P) (srule r).
Proof. intros w Hw. by apply wlp_srule. Qed.
Hint Resolve keeps_ready_st keeps_ready_srule : keeps.
Lemma keeps_add_limits P : keeps (ready P) (add_limits cf).
Proof.
  intros w Hw. unfold add_limits. rewrite wp_bind, wp_gets, wp_bind. apply (wp_mono _ _ (fun _ => ready P)).
  - apply wp_when; [|done]. intros _. rewrite wp_modify. destruct Hw as [[Ht Hp] Hr]. split; [|done]. split; [|done].
    pose proof (tok_forget cf _ _ _ _ w 1 (sw_wm_last w) Ht) as T. by destruct w.
  - intros u w1 I1. destruct (fin_fr _); [|done]. kstep r w2 I2. exact I2.
Qed.
Lemma keeps_add_tcp P pass flags i : keeps (ready P) (add_tcp be pass flags i).
Proof.
  unfold add_tcp. apply keeps_bind; [auto with keeps|]. intros w. cbv zeta. apply keeps_if; [auto with keeps|].
  apply keeps_bind; [apply keeps_if; [|auto with keeps]; auto 20 with keeps|]. intros i1.
  apply keeps_bind; [apply keeps_if; [|auto with keeps]; auto 20 with keeps|]. intros i2. apply keeps_if; auto 20 with keeps.
Qed.
Hint Resolve keeps_add_tcp keeps_add_limits : keeps.
Lemma keeps_add_l4 P pass flags hv : keeps (ready P) (add_l4 be pass flags hv).
Proof.
  unfold add_l4. apply keeps_bind; [auto with keeps|]. intros w. cbv zeta. repeat apply keeps_if; auto 20 with keeps.
Qed.
Lemma keeps_find_dup P e : forall l, keeps (ready P) (find_dup e l).
Proof. induction l as [|x l IH]; cbn [find_dup]; [auto with keeps|]. auto 20 with keeps. Qed.
Hint Resolve keeps_add_l4 keeps_find_dup : keeps.

(** The parts of an entry that the lookup goes by; a wildcard is kept. *)
Record same_conn (d e : ips) : Prop := {
  cn_p : is_p (s_is e) = is_p (s_is d); cn_v : is_v (s_is e) = is_v (s_is d);
  cn_src : is_src (s_is e) = is_src (s_is d); cn_dst : is_dst (s_is e) = is_dst (s_is d);
  cn_sport : is_sport (s_is e) = is_sport (s_is d); cn_dport : is_dport (s_is e) = is_dport (s_is d);
  cn_opt : is_opt e = is_opt d; cn_optmsk : is_optmsk e = is_optmsk d;
  cn_sec : is_sec e = is_sec d; cn_secmsk : is_secmsk e = is_secmsk d;
  cn_auth : is_auth e = is_auth d; cn_authmsk : is_authmsk e = is_authmsk d;
  cn_wild : forall m, m = SI_WILDA \/ m = SI_WILDP -> has (is_flags (s_is e)) m = has (is_flags (s_is d)) m;
  cn_flx : forall o, idx 1 (idx o (is_flx e)) = idx 1 (idx o (is_flx d)) }.
Lemma same_conn_refl d : same_conn d d.
Proof. by split. Qed.
Lemma same_conn_trans d1 d2 d3 : same_conn d1 d2 -> same_conn d2 d3 -> same_conn d1 d3.
Proof.
  intros [] []. split; first [congruence|intros o; by rewrite cn_flx1, cn_flx0|intros m Hm; by rewrite cn_wild1, cn_wild0].
Qed.

(** The draft, copied to its place. *)
Section Draft.
Context (P : loc -> Prop) (d : ips) (pf : Z) (tb : Z -> list loc) (x : loc).
Record drafted (w : W) : Prop := {
  df_fresh : fresh_ok cf x w;
  df_others : forall y, P y -> hashed w y /\ y <> x;
  df_table : sw_table w = tb;
  df_fin : fin_p (sw_fin w) = pf;
  df_entry : exists e, sw_states w !! x = Some e /\ (forall r, is_rule e = Some r -> rule_ok w r) /\
    same_conn d e /\ is_hv e = is_hv d }.
Lemma drafted_same w w' : same_core w w' -> fin_p (sw_fin w') = fin_p (sw_fin w) -> drafted w -> drafted w'.
Proof.
  intros Hs Hfin [Hf Ho Htb Hp (e & He & Hr & Hd)]. split.
  - by eapply fresh_ok_same.
  - intros y Hy. destruct (Ho y Hy). split; [|done]. eapply hashed_states; [by rewrite (sc_states _ _ Hs)|done].
  - by rewrite (sc_table _ _ Hs).
  - congruence.
  - exists e. rewrite (sc_states _ _ Hs). split; [done|]. split; [|done]. intros r Er. eapply rule_ok_same; eauto.
Qed.
Lemma drafted_upd w f : (forall e, is_sti (s_is (f e)) = is_sti (s_is e) /\ is_tqehead (f e) = is_tqehead e /\
    is_rule (f e) = is_rule e /\ is_hv (f e) = is_hv e /\
    forall v, is_me (f e) = Some v -> is_me e = Some v \/ is_Some (sw_saved w !! v)) -> (forall e, same_conn e (f e)) ->
  drafted w -> drafted (w <| sw_states ::= alter f x |>).
Proof.
  intros Hf Hc [[Ht Hx] Ho Htb Hp (e & He & Hr & Hd & Hv)]. split.
  - split; [|by apply alter_some]. apply (tok_fresh_st cf); [|done]. intros e0 _. destruct (Hf e0) as (? & ? & _ & _ & ?). done.
  - intros y Hy. destruct (Ho y Hy) as [Hh Hne]. split; [|done]. eapply hashed_states; [|exact Hh]. cbn.
    by rewrite lookup_alter_ne by congruence.
  - done.
  - done.
  - exists (f e). split; [by apply lookup_alter_Some_eq|]. destruct (Hf e) as (_ & _ & E1 & E2 & _). split; [|split].
    + intros r Er. rewrite E1 in Er. destruct (Hr r Er) as (rl & ? & ?). exists rl. split; [done|].
      by rewrite (holders_fresh cf _ _ _ _ _ _ _ Ht).
    + by eapply same_conn_trans.
    + by rewrite E2.
Qed.
Lemma keeps_drafted_upd f : (forall e, is_sti (s_is (f e)) = is_sti (s_is e) /\ is_tqehead (f e) = is_tqehead e /\
    is_rule (f e) = is_rule e /\ is_hv (f e) = is_hv e /\ is_me (f e) = is_me e) -> (forall e, same_conn e (f e)) ->
  keeps drafted (upd_st x f).
Proof.
  intros Hf Hc w Hw. apply wlp_upd_st. intros e He. apply drafted_upd; [|done|done]. intros e0.
  destruct (Hf e0) as (? & ? & ? & ? & E0). split_and!; try done. intros v. rewrite E0. by left.
Qed.
Lemma keeps_drafted_core f : (forall w, same_core w (f w) /\ fin_p (sw_fin (f w)) = fin_p (sw_fin w)) -> keeps drafted (modify f).
Proof. intros Hf. apply keeps_modify. intros w. destruct (Hf w). by apply drafted_same. Qed.
End Draft.

(** Once it is in the table: the entry stays what it is. *)
Record settled (P : loc -> Prop) (d : ips) (pf : Z) (tb : Z -> list loc) (x : loc) (w : W) : Prop := {
  se_inv : inv P w; se_table : sw_table w = tb;
  se_entry : exists e, sw_states w !! x = Some e /\ same_conn d e;
  se_queue : is_p (s_is d) = IPPROTO_UDP -> pf = IPPROTO_UDP -> exists q, ifq_of (sw_heap w) x = Some (Some q) /\
    (q = ipf_state_udptq cf \/ q = ipf_state_udpacktq cf) }.

Hint Extern 1 (keeps (drafted _ _ _ _ _) (upd_st _ _)) =>
  (apply keeps_drafted_upd; [intros; split_and!; done|intros; by split]) : keeps.
Hint Extern 1 (keeps (drafted _ _ _ _ _) (modify _)) => (apply keeps_drafted_core; intros; split; [split; try done; intros r0 rl0 Hr0; exists rl0; by split|done]) : keeps.

Lemma set_ifps_keeps ex f0 r e : let e' := set_ifps ex f0 r e in
  exists (i : list (option loc)) (n : list (list Z)), e' = e <| is_ifp := i |> <| is_ifname := n |>.
Proof.
  cbv zeta. unfold set_ifps.
  assert (Hr : forall j k (i : list (option loc)) (n : list (list Z)) (e : ips), exists i' n', rule_ifp r j k (e <| is_ifp := i |> <| is_ifname := n |>) =
    e <| is_ifp := i' |> <| is_ifname := n' |>).
  { intros j k i n e0. unfold rule_ifp. case_match; by eexists _, _. }
  match goal with |- context [rule_ifp r 1 _ ?e0] => set (e1 := e0) end.
  assert (H1 : exists (i : list (option loc)) (n : list (list Z)), e1 = e <| is_ifp := i |> <| is_ifname := n |>).
  { unfold e1. destruct (fin_ifp f0); [case_match|]; by eexists _, _. }
  clearbody e1. destruct H1 as (i & n & ->).
  destruct (Hr 1 (Z.shiftl (fin_out f0) 1 + 1) i n e) as (i1 & n1 & ->).
  destruct (Hr 2 (Z.shiftl (1 - fin_out f0) 1) i1 n1 e) as (i2 & n2 & ->). apply Hr.
Qed.
Lemma keeps_from_rule P d pf tb F x fr qa0 qa1 : keeps (drafted P d pf tb x) (from_rule F x fr qa0 qa1).
Proof.
  intros w Hw. unfold from_rule. rewrite wp_bind. apply wlp_srule. intros rl Hrl.
  assert (Ha : sr_age rl = (0, 0)) by (eapply (tk_ages cf); [apply Hw|done]). rewrite Ha. cbn [fst snd].
  unfold rule_queue. change (negb (0 =? 0)) with false. cbn [when_].
  kstep u w1 I1. kstep u1 w2 I2. kstep u2 w3 I3. kstep u3 w4 I4. rewrite wp_bind, wp_gets.
  apply keeps_drafted_upd; [..|exact I4]; intros e;
    destruct (set_ifps_keeps (sw_ext (id w4)) (sw_fin (id w4)) rl e) as (i & n & E1); rewrite E1; [done|by split].
Qed.
Lemma first_packet_conn f0 pass e : same_conn e (pass_flags pass (first_packet f0 e)).
Proof.
  assert (H1 : same_conn e (first_packet f0 e)).
  { unfold first_packet. destruct (has _ FI_IGNORE); [by apply same_conn_refl|]. split; try done. intros o. cbn.
    unfold set_idx, idx. by repeat case_match. }
  eapply same_conn_trans; [exact H1|]. generalize (first_packet f0 e). intros e1.
  assert (H2 : forall n (b : bool) (e2 : ips), (forall m, m = SI_WILDA \/ m = SI_WILDP -> has n m = false) ->
    same_conn e1 e2 -> same_conn e1 (if b then e2 <| s_is ::= fun i => i <| is_flags ::= Z.lor n |> |> else e2)).
  { intros n b e2 Hn Hc. destruct b; [|done]. eapply same_conn_trans; [exact Hc|]. split; try done. intros m Hm. cbn.
    by rewrite has_lor, Hn. }
  unfold pass_flags.
  assert (H3 : same_conn e1 (if has pass FR_STATESYNC then
    (if has pass FR_STSTRICT then (if has pass FR_STLOOSE then e1 <| s_is ::= fun i => i <| is_flags ::= Z.lor IS_LOOSE |> |> else e1)
       <| s_is ::= fun i => i <| is_flags ::= Z.lor IS_STRICT |> |>
     else (if has pass FR_STLOOSE then e1 <| s_is ::= fun i => i <| is_flags ::= Z.lor IS_LOOSE |> |> else e1))
      <| s_is ::= fun i => i <| is_flags ::= Z.lor IS_STATESYNC |> |>
    else (if has pass FR_STSTRICT then (if has pass FR_STLOOSE then e1 <| s_is ::= fun i => i <| is_flags ::= Z.lor IS_LOOSE |> |> else e1)
       <| s_is ::= fun i => i <| is_flags ::= Z.lor IS_STRICT |> |>
     else (if has pass FR_STLOOSE then e1 <| s_is ::= fun i => i <| is_flags ::= Z.lor IS_LOOSE |> |> else e1)))).
  { apply H2; [intros m [->| ->]; by vm_compute|]. apply H2; [intros m [->| ->]; by vm_compute|].
    apply H2; [intros m [->| ->]; by vm_compute|]. apply same_conn_refl. }
  destruct (has pass FR_LOGFIRST); [|exact H3]. eapply same_conn_trans; [exact H3|]. by split.
Qed.

(** Once it is inserted. *)
Section Settled.
Context (P : loc -> Prop) (d : ips) (pf : Z) (tb : Z -> list loc) (x : loc).
Abbreviation sd := (settled P d pf tb x).
Lemma settled_same w w' : same_core w w' -> sd w -> sd w'.
Proof.
  intros Hs [Hi Htb He Hq]. split; [by eapply inv_same|by rewrite (sc_table _ _ Hs)|by rewrite (sc_states _ _ Hs)|by rewrite (sc_heap _ _ Hs)].
Qed.
Lemma keeps_settled_core f : (forall w, same_core w (f w)) -> keeps sd (modify f).
Proof. intros Hf. apply keeps_modify. intros w. by apply settled_same. Qed.
Lemma keeps_settled_ext {A} (f : E -> A * E) : keeps sd (ext f).
Proof. intros w Hw. unfold wpg, ext. destruct (f (sw_ext w)). by eapply settled_same; [apply same_core_ext|]. Qed.
Lemma keeps_settled_ext_ f : keeps sd (ext_ f).
Proof. apply keeps_settled_core. intros w. apply same_core_ext. Qed.
Lemma keeps_settled_fin f : keeps sd (upd_sfin f).
Proof. apply keeps_settled_core. intros w. split; try done; intros r0 rl0 Hr0; exists rl0; by split. Qed.
Lemma keeps_settled_upd f : (forall e, same_links e (f e)) -> (forall e, same_conn e (f e)) -> keeps sd (upd_st x f).
Proof.
  intros Hf Hc w [Hi Htb (e & He & Hd) Hq]. apply wlp_upd_st. intros e0 He0. split; [by apply inv_upd_st|done| |done].
  exists (f e). split; [by apply lookup_alter_Some_eq|]. by eapply same_conn_trans.
Qed.
Lemma keeps_settled_srule r : keeps sd (srule r).
Proof. intros w Hw. by apply wlp_srule. Qed.
End Settled.
Hint Resolve keeps_settled_ext keeps_settled_ext_ keeps_settled_fin keeps_settled_srule : keeps.
Hint Extern 1 (keeps (settled _ _ _ _ _) (upd_st _ _)) => (apply keeps_settled_upd; [intros; split; auto|intros; by split]) : keeps.
Hint Extern 1 (keeps (settled _ _ _ _ _) (modify _)) =>
  (apply keeps_settled_core; intros; split; try done; intros r0 rl0 Hr0; exists rl0; by split) : keeps.

Lemma after_insert_settled P d pf tb x pass w : settled P d pf tb x w -> fin_p (sw_fin w) = pf ->
  wlp (after_insert cf x pass) (fun _ => settled P d pf tb x) w.
Proof.
  intros Hw Hfin. unfold after_insert. rewrite wp_bind, wp_gets, wp_bind. apply wlp_st. intros e He. cbn [id].
  rewrite wp_bind. apply (wp_mono _ _ (fun _ => settled P d pf tb x)).
  { apply wp_when; [|done]. intros Hp. apply Z.eqb_eq in Hp. destruct Hw as [Hi Htb Hse Hq].
    pose proof (keeps_tcp_age_hp P x (sw_fin w) (l4_tcp (sw_l4 w)) (ipf_state_tcptq cf) (is_flags (s_is e)) 2 _ (fun _ => mret tt)
      (fun s Hs => tcptq_queue cf s Hs) (fun _ => keeps_ret _ tt) w Hi) as Hk.
    rewrite wp_bind, wp_gets in Hk. rewrite wp_bind in Hk |- *. unfold wpg, hp in Hk |- *.
    destruct (ipf_tcp_age _ _ _ _ _ _ _ _) as [[a h']|]; [|done]. cbn in Hk |- *. split; [done|done|done|].
    intros _ Hu. rewrite <- Hfin, Hp in Hu. done. }
  intros u w1 I1. kstep u1 w2 I2. kstep u2 w3 I3. kstep u3 w4 I4. kstep f0 w5 I5.
  assert (Hk : keeps (settled P d pf tb x) (when_ (has (fin_flx f0) FI_FRAG) (ext_ (env_frag_new f0 pass)))) by auto with keeps. by apply Hk.
Qed.
Lemma keeps_choose_dest P d pf tb fd s1 s2 x : (forall c e, same_links e (s1 c e) /\ same_conn e (s1 c e)) ->
  (forall c e, same_links e (s2 c e) /\ same_conn e (s2 c e)) -> keeps (settled P d pf tb x) (choose_dest fd s1 s2 x).
Proof.
  intros H1 H2. unfold choose_dest.
  assert (Hs : forall (s : frdest -> ips -> ips) c, (forall c e, same_links e (s c e) /\ same_conn e (s c e)) -> keeps (settled P d pf tb x) (upd_st x (s c)))
    by (intros s c Hs; apply keeps_settled_upd; intros e; apply Hs).
  destruct fd; [by apply Hs|by apply Hs|].
  apply keeps_bind; [auto with keeps|]. intros w. apply keeps_bind; [auto with keeps|]. intros [c|]; [by apply Hs|auto with keeps].
Qed.
Lemma keeps_set_dests P d pf tb x fr : keeps (settled P d pf tb x) (set_dests x fr).
Proof.
  unfold set_dests. cbv zeta. apply keeps_bind; [auto with keeps|]. intros rl.
  repeat (apply keeps_bind; [first [apply keeps_choose_dest; intros; (split; [split; by auto|by split])|auto with keeps]|intros _]). auto with keeps.
Qed.

(** What a successful [add_entry] leaves: the new entry [x], made from [d], first in its
    bucket. *)
Definition added (P : loc -> Prop) (d : ips) (x : loc) (w w' : W) : Prop :=
  settled P d (fin_p (sw_fin w)) (upd_at (is_hv d mod ipf_state_size cf) (cons x) (sw_table w)) x w'.

Lemma prepared_conn (w : W) (e : ips) : same_conn e (prepared cf w e <| is_listed := true |> <| is_hashed := true |>).
Proof.
  unfold prepared. assert (H1 : same_conn e (resolve_ifps (sw_ext w) e)); [|by destruct H1].
  unfold resolve_ifps. generalize ([0; 1; 2; 3]). intros l. generalize (same_conn_refl e).
  generalize e at 2 4. induction l as [|i l IH]; intros e1 H1; cbn [foldl]; [done|].
  apply IH. eapply same_conn_trans; [exact H1|]. unfold resolve_ifp. by case_match.
Qed.
Lemma add_entry_ok P F x e pass flags stsave qa0 qa1 l w :
  ready P w -> sw_allocs w = Some x :: l -> is_tqehead e = (None, None) -> is_me e = None ->
  wlp (add_entry cf F x e pass flags stsave qa0 qa1) (fun r w' => inv P w' /\
      (r = 0 -> added P (e <| s_is ::= fun i => i <| is_flags := Z.land flags IS_INHERITED |> |>) x w w'))
    (w <| sw_allocs := l |>).
Proof.
  intros [[Ht Hp] Hr] Ha Htq Hme. unfold add_entry. rewrite wp_bind, wp_gets. cbv zeta. cbn [id].
  set (fr := fin_fr (sw_fin (w <| sw_allocs := l |>))). rewrite wp_bind, wp_modify. cbv beta.
  set (e0 := e <| s_is ::= _ |> <| is_rulen := _ |> <| is_rule := _ |>). set (t0 := mk_tqent _ _ _ _ _ _ _ _ _).
  set (w1 := w <| sw_allocs := l |> <| sw_states ::= <[x := e0]> |> <| sw_heap ::= _ |>).
  set (d := e <| s_is ::= _ |>). set (tb := sw_table w). set (pf := fin_p (sw_fin w)).
  assert (Hx : sw_states w !! x = None) by (apply (tk_allocs cf _ _ _ _ _ Ht); rewrite Ha; by left).
  assert (F1 : fresh_ok cf x w1) by (apply (fresh_new cf w); try done; intros v Hv; change (is_me e = Some v) in Hv; congruence).
  assert (I1 : drafted P d pf tb x w1).
  { split; [done|..].
    - intros y Hy. destruct (Hp y Hy) as (ey & Hey & Hh). assert (y <> x) by (intros ->; congruence). split; [|done].
      exists ey. split; [|done]. cbn. by rewrite lookup_insert_ne by congruence.
    - done.
    - done.
    - exists e0. split; [apply lookup_insert_eq|]. split; [|by split; [split|]]. intros r Er.
      destruct (Hr r Er) as (rl & ? & Hle). exists rl. split; [done|].
      replace (holders w1 r) with (holders w r); [done|]. apply count_ext. intros y Hy. unfold rule_held, w1. cbn.
      rewrite lookup_insert_ne; [done|]. intros ->. apply (tk_list cf _ _ _ _ _ Ht) in Hy as [[? ?] _]. congruence. }
  clearbody w1. clear F1 Hx Hr Ht Hp Ha. rewrite wp_bind. apply (wp_mono _ _ (fun _ => drafted P d pf tb x)).
  { destruct fr as [r|]; [by apply keeps_from_rule|]. destruct (fin_ifp _); [|exact I1].
    apply keeps_drafted_upd; [..|exact I1]; [by intros|by intros]. }
  intros u w2 I2. rewrite wp_bind.
  apply (wp_mono _ _ (fun _ w => drafted P d pf tb x w /\ forall v, stsave = Some v -> is_Some (sw_saved w !! v))).
  { destruct stsave as [v|]; [|by split]. rewrite wp_modify. split.
    - apply (drafted_same P d pf tb x w2); [|done|exact I2]. split; try done; [|by intros r rl Hr; exists rl..].
      intros u0 Hu. cbn. apply lookup_insert_is_Some'. by right.
    - intros v' [= <-]. cbn. rewrite lookup_insert_eq. by eexists. }
  intros u1 w3 [I3 Hs]. rewrite wp_bind. apply wlp_upd_st. intros e3 _.
  set (f := fun e : ips => e <| is_me := stsave |> <| is_ref := _ |>). set (w4 := w3 <| sw_states ::= alter f x |>).
  assert (I4 : drafted P d pf tb x w4).
  { apply drafted_upd; [|by intros|done]. intros e4. split_and!; try done. intros v Hv. right. by apply Hs. }
  clearbody w4. clear I3 Hs w3. kstep f0 w5 I5. kstep u2 w6 I6. rewrite wp_bind.
  apply (wp_mono _ _ (fun _ => drafted P d pf tb x)).
  { apply keeps_drafted_upd; [..|exact I6]; [|apply first_packet_conn]. intros e4. unfold pass_flags, first_packet.
    destruct (has (fin_flx f0) FI_IGNORE), (has pass FR_STLOOSE), (has pass FR_STSTRICT), (has pass FR_STATESYNC), (has pass FR_LOGFIRST); done. }
  intros u3 w7 [F7 Ho Htb7 Hfin7 (e7 & E7 & Hr7 & C7 & V7)]. rewrite wp_bind.
  destruct (state_insert_run cf w7 x e7 (fin_rev f0) F7 E7 Hr7) as (r & w8 & R8 & Hr01 & S8 & O8 & C8).
  unfold wpg at 1. rewrite R8. assert (Hp8 : forall y, P y -> hashed w8 y).
  { intros y Hy. destruct (Ho y Hy) as [Hh Hne]. eapply hashed_states; [by apply O8|done]. }
  destruct Hr01 as [->| ->].
  - change (0 =? -1) with false. change (0 =? 0) with true in S8, C8. cbv iota zeta in S8, C8 |- *.
    destruct C8 as (T8 & Fi8 & _ & Tb8 & q & Hq & Hqu).
    assert (I8 : added P d x w w8).
    { split; [by split|by rewrite Tb8, V7, Htb7| |].
      - eexists. split; [exact S8|]. eapply same_conn_trans; [exact C7|]. apply prepared_conn.
      - intros Hpd _. exists q. split; [done|]. apply Hqu. by rewrite (cn_p _ _ C7). }
    rewrite wp_bind. eapply wp_mono; [apply (after_insert_settled _ _ _ _ _ _ _ I8)|].
    { rewrite Fi8. exact Hfin7. }
    intros u4 w9 I9.
    kstep fr' w10 I10. rewrite wp_bind. eapply wp_mono; [apply (keeps_set_dests _ _ _ _ _ fr' w10 I10)|]. intros u5 w11 I11.
    rewrite wp_ret. split; [apply I11|intros _; exact I11].
  - change (-1 =? -1) with true. cbv iota. destruct C8 as ([T8 _] & _). change (-1 =? 0) with false in S8. cbv iota zeta in S8.
    unfold add_undo. rewrite wp_bind, wp_bind. apply wlp_st. intros e8 E8.
    rewrite (en_tqehead _ _ _ _ (tk_entry cf _ _ _ _ _ T8 x e8 E8)). cbn [fst snd drop_queue].
    do 2 rewrite wp_bind, wp_ret. rewrite wp_modify. split; [|done]. split.
    + apply (tok_delete cf _ _ _ _ _ T8). intros [i Hi]. by destruct (tk_chain cf _ _ _ _ _ T8 _ _ Hi) as (_ & ? & _).
    + intros y Hy. destruct (Ho y Hy) as [_ Hne]. destruct (Hp8 y Hy) as (ey & ? & ?). exists ey. cbn.
      by rewrite lookup_delete_ne by congruence.
Qed.

(** A draft has no queue of its own and nothing refers to it. *)
Definition plain (r : Z + ips * Z * Z) : Prop :=
  match r with inl _ => True | inr (e, _, _) => is_tqehead e = (None, None) /\ is_me e = None end.
Lemma add_l4_plain pass flags hv (w : W) : wlp (add_l4 be pass flags hv) (fun r _ => plain r) w.
Proof.
  unfold add_l4. rewrite wp_bind, wp_gets. cbv zeta.
  destruct (_ =? IPPROTO_ICMPV6); [unfold add_icmp6; rewrite wp_ret; repeat case_match; simplify_eq; done|].
  destruct (_ =? IPPROTO_ICMP); [unfold add_icmp; rewrite wp_ret; repeat case_match; simplify_eq; done|].
  destruct (_ =? IPPROTO_TCP); [|by destruct (_ =? IPPROTO_UDP)]. destruct (has _ _); [done|].
  rewrite wp_bind. eapply wp_mono; [apply wlp_any|]. by intros [i fl] w1 _.
Qed.

(** What the packet, its header and the table are, while a draft is made. *)
Definition pinned (f : fr_info) (l4 : l4hdr) (tb : Z -> list loc) (w : W) : Prop :=
  sw_fin w = f /\ sw_l4 w = l4 /\ sw_table w = tb.
Hint Extern 1 (keeps (pinned _ _ _) (modify _)) => (apply keeps_modify; by intros w0 (? & ? & ?)) : keeps.
Lemma keeps_pinned_st f l4 tb x : keeps (pinned f l4 tb) (st x).
Proof. intros w Hw. by apply wlp_st. Qed.
Lemma keeps_pinned_srule f l4 tb r : keeps (pinned f l4 tb) (srule r).
Proof. intros w Hw. by apply wlp_srule. Qed.
Hint Resolve keeps_pinned_st keeps_pinned_srule : keeps.
Lemma keeps_pinned_limits f l4 tb : keeps (pinned f l4 tb) (add_limits cf).
Proof. unfold add_limits. apply keeps_bind; [auto with keeps|]. intros w. auto 20 with keeps. Qed.
Lemma keeps_and {A} (I J : W -> Prop) (m : ST W A) : keeps I m -> keeps J m -> keeps (fun w => I w /\ J w) m.
Proof. intros H1 H2 w [Hi Hj]. specialize (H1 w Hi). specialize (H2 w Hj). unfold wpg in *. by destruct (m w) as [[]|]. Qed.

(** The draft for a UDP packet, and the hash value it gets. *)
Definition udp_draft (f : fr_info) (pass flags : Z) : ips :=
  draft f pass <| s_is ::= fun i => set_ports be f i <| is_flags := Z.land flags IS_INHERITED |> |>.
Definition udp_add_hv (f : fr_info) (l4 : l4hdr) (flags : Z) : Z :=
  let '(hv, fl) := add_hash be f flags in DOUBLE_HASH cf (hash_ports fl hv (th_dport l4) (th_sport l4)).

(** [ipf_state_add] keeps the table well-formed, and a new UDP entry is first in its
    bucket. *)
Lemma state_add_ok P F qa0 qa1 stsave flags w : ready P w ->
  wlp (ipf_state_add cf be F qa0 qa1 stsave flags) (fun r w' => inv P w' /\
      (r = 0 -> fin_p (sw_fin w) = IPPROTO_UDP -> exists pass x d,
         settled P d IPPROTO_UDP (upd_at (udp_add_hv (sw_fin w) (sw_l4 w) flags mod ipf_state_size cf) (cons x) (sw_table w)) x w' /\
         same_conn (udp_draft (sw_fin w) pass (snd (add_hash be (sw_fin w) flags))) d)) w.
Proof.
  intros I0. remember (sw_fin w) as f0 eqn:Ef. remember (sw_l4 w) as l4 eqn:El. remember (sw_table w) as tb eqn:Et.
  assert (J0 : ready P w /\ pinned f0 l4 tb w) by by split; [|split].
  unfold ipf_state_add. rewrite wp_bind, wp_gets. cbv zeta. destruct (negb _).
  { kstep u w1 I1. rewrite wp_ret. split; [apply I1|done]. }
  destruct (has _ _); [by split; [apply I0|]|]. destruct (_ && _); [by split; [apply I0|]|].
  rewrite wp_bind. apply (wp_mono _ _ (fun _ w => ready P w /\ pinned f0 l4 tb w)).
  { apply keeps_and; [auto with keeps|apply keeps_pinned_limits|done]. }
  intros lim w1 J1. destruct (negb (lim =? 0)) eqn:Elim.
  { rewrite wp_ret. split; [apply J1|]. intros ->. done. }
  rewrite wp_bind. apply (wp_mono _ _ (fun _ w => ready P w /\ pinned f0 l4 tb w)).
  { apply keeps_and; [auto with keeps..|done]. }
  intros pass w2 J2. rewrite wp_bind. unfold upd_sfin. rewrite wp_modify.
  set (fx := fun fin : fr_info => _). set (w3 := w2 <| sw_fin ::= fx |>).
  assert (J3 : ready P w3 /\ pinned (fx f0) l4 tb w3).
  { destruct J2 as [[I2 Hr2] (F2 & ?)]. split; [|by split; [cbn; rewrite F2|]]. split; [|done].
    eapply inv_same; [|exact I2]. split; try done; intros r0 rl0 Hr0; exists rl0; by split. }
  clearbody w3. destruct J3 as [I3 (F3 & L3 & T3)].
  change (id w) with w. rewrite <- Ef. destruct (add_hash be f0 flags) as [hv fl] eqn:Eh. rewrite wp_bind.
  apply (wp_mono _ _ (fun r w => ready P w /\ plain r /\ (fin_p f0 = IPPROTO_UDP ->
    r = inr (draft f0 pass <| s_is ::= set_ports be f0 |>, hash_ports fl hv (th_dport l4) (th_sport l4), fl) /\ sw_table w = tb /\ fin_p (sw_fin w) = IPPROTO_UDP))).
  { pose proof (keeps_add_l4 P pass fl hv w3 I3) as H1. pose proof (add_l4_plain pass fl hv w3) as H2.
    assert (H3 : fin_p f0 = IPPROTO_UDP -> add_l4 be pass fl hv w3 =
      Some (inr (draft f0 pass <| s_is ::= set_ports be f0 |>, hash_ports fl hv (th_dport l4) (th_sport l4), fl), w3)).
    { intros Hp. unfold add_l4. rewrite (bind_eq _ _ _ _ _ eq_refl). cbv zeta. cbn [id]. rewrite F3, L3.
      change (fin_p (fx f0)) with (fin_p f0). rewrite Hp. done. }
    unfold wpg in *. destruct (add_l4 _ _ _ _ _) as [[r w4]|]; [|done]. split; [done|]. split; [done|].
    intros Hp. specialize (H3 Hp). injection H3 as -> ->. split; [done|]. split; [done|]. by rewrite F3. }
  intros [n|[[e hv'] fl']] w4 (I4 & Hpl & Hu).
  { rewrite wp_ret. split; [apply I4|]. intros _ Hp. by destruct (Hu Hp). }
  destruct Hpl as [Hq Hm]. cbv zeta.
  rewrite wp_bind, wp_gets. rewrite wp_bind. apply (wp_mono _ _ (fun _ w => ready P w /\ (fin_p f0 = IPPROTO_UDP -> sw_table w = tb /\ fin_p (sw_fin w) = IPPROTO_UDP))).
  { apply keeps_and; [auto with keeps| |split; [done|apply Hu]]. generalize (sw_table w4 (DOUBLE_HASH cf hv' mod ipf_state_size cf)).
    intros c. induction c as [|y c IH]; cbn [find_dup]; [auto with keeps|]. apply keeps_bind; [|auto with keeps].
    intros w0 Hw0. by apply wlp_st. }
  intros dup w5 [I5 T5]. destruct dup; [rewrite wp_ret; by split; [apply I5|]|]. rewrite wp_bind, wp_gets.
  destruct (_ >=? _); [rewrite wp_ret; by split; [apply I5|]|]. rewrite wp_bind. unfold wpg at 1, kmalloc.
  destruct (sw_allocs w5) as [|[x|] l] eqn:Ea; [rewrite wp_ret; by split; [apply I5|]|..].
  - eapply wp_mono; [by eapply add_entry_ok|]. cbv beta. intros r w6 [I6 A6]. split; [done|]. intros Hr Hp.
    destruct (Hu Hp) as [Ed _]. destruct (T5 Hp) as [T6 P6]. injection Ed as -> -> ->.
    exists pass, x. eexists. unfold udp_add_hv. rewrite Eh. cbv beta iota. split.
    + specialize (A6 Hr). unfold added in A6. change (sw_fin (w5 <| sw_allocs := l |>)) with (sw_fin w5) in A6.
      rewrite P6, T6 in A6. exact A6.
    + by split.
  - rewrite wp_ret. destruct I5 as [[T6 Hp5] _]. split; [split; [by apply (table_ok_nomem cf)|done]|done].
Qed.

(** ** Other operations *)

Lemma find_session_run d : forall l (w : W), (forall x, x ∈ l -> is_Some (sw_states w !! x)) ->
  exists y, find_session d l w = Some (y, w) /\ (forall x, y = Some x -> x ∈ l /\ exists e, sw_states w !! x = Some e /\ same_session d e = true) /\
    (y = None -> forall x e, x ∈ l -> sw_states w !! x = Some e -> same_session d e = false).
Proof.
  induction l as [|x l IH]; intros w Hl; cbn [find_session].
  - exists None. split; [done|]. split; [done|]. by intros _ x e ?%not_elem_of_nil.
  - destruct (Hl x) as [e He]; [by left|]. rewrite (bind_eq _ _ _ _ _ (st_run _ _ _ He)).
    destruct (same_session d e) eqn:Es.
    + exists (Some x). split; [done|]. split; [|done]. intros x' [= <-]. split; [by left|eauto].
    + destruct (IH w) as (y & R & Hy & Hn); [intros z Hz; apply Hl; by right|]. exists y. split; [done|]. split.
      * intros x' E'. destruct (Hy x' E') as [? ?]. split; [by right|done].
      * intros E' z e' [->|Hz]%elem_of_cons He'; [congruence|by apply (Hn E' z e')].
Qed.
Lemma keeps_remove (P : loc -> Prop) d : (forall x, ~ P x) -> keeps (inv P) (ipf_state_remove cf d).
Proof.
  intros HP w [Ht Hp]. unfold ipf_state_remove. rewrite wp_bind, wp_gets, wp_bind. unfold wpg at 1.
  destruct (find_session_run d (sw_list w) w) as (y & R & Hy & _); [intros x Hx; by apply (tk_list cf _ _ _ _ _ Ht) in Hx as [? _]|].
  rewrite R. destruct y as [x|]; [|by split]. destruct (Hy x eq_refl) as (_ & e & He & _).
  destruct (state_del_run cf w x e ISL_REMOVE Ht He) as (r & w' & R' & T & _). rewrite wp_bind. unfold wpg at 1. rewrite R'.
  rewrite wp_ret. split; [done|]. intros z Hz. by destruct (HP z).
Qed.
Lemma sync_ifp_links ex ifp e i : same_links e (sync_ifp ex ifp e i).
Proof. unfold sync_ifp. destruct (_ || _); [split; auto|apply same_links_refl]. Qed.
Lemma keeps_sync P running ifp : keeps (inv P) (ipf_state_sync running ifp).
Proof.
  unfold ipf_state_sync. destruct (_ <=? _); [auto with keeps|]. apply keeps_bind; [auto with keeps|]. intros l.
  induction l as [|x l IH]; cbn [sync_list]; [auto with keeps|]. apply keeps_bind; [auto with keeps|]. intros ex.
  apply keeps_bind; [|done]. apply keeps_upd_st. intros e. generalize (same_links_refl e). generalize e at 2 4.
  induction ([0; 1; 2; 3]) as [|i js IHl]; intros e1 H1; cbn [foldl]; [done|]. apply IHl.
  eapply same_links_trans; [exact H1|apply sync_ifp_links].
Qed.

(** ** Runs of the table *)

(** What can happen to the table: a packet comes in (what [KMALLOC] will return is not
    in use), it is looked up, an entry is added for it, the timer runs, the
    administrator flushes, removes an entry, walks the table or changes the rules (a rule
    that entries refer to stays), interfaces come and go, a proxy gives an entry up, time
    passes.  [F] is fuel that is enough
    for the walks along queues. *)
Inductive step : W -> W -> Prop :=
| step_packet w f l4 pn al : fresh_allocs (w <| sw_allocs := al |>) ->
    step w (w <| sw_fin := f |> <| sw_l4 := l4 |> <| sw_pktnum := pn |> <| sw_allocs := al |>)
| step_check {B : build} w minfragmtu pkt passp r w' :
    ipf_state_check cf be minfragmtu pkt passp w = Some (r, w') -> step w w'
| step_add w F qa0 qa1 stsave flags r w' : (forall fr, fin_fr (sw_fin w) = Some fr -> rule_ok w fr) ->
    ipf_state_add cf be F qa0 qa1 stsave flags w = Some (r, w') -> step w w'
| step_expire w F w' : fuel_ok (all_queues cf) F w -> (92 <= F)%nat -> ipf_state_expire cf F w = Some (tt, w') -> step w w'
| step_flush w F which proto n w' : fuel_ok (all_queues cf) F w -> (92 <= F)%nat ->
    ipf_state_flush cf F which proto w = Some (n, w') -> step w w'
| step_deref w x w' : ipf_state_deref cf x w = Some (tt, w') -> step w w'
| step_iter w tok nx w' : ipf_state_iter cf tok w = Some (nx, w') -> step w w'
| step_setpending w x w' : hashed w x -> ipf_state_setpending cf x w = Some (tt, w') -> step w w'
| step_remove w d r w' : ipf_state_remove cf d w = Some (r, w') -> step w w'
| step_sync w running ifp w' : ipf_state_sync running ifp w = Some (tt, w') -> step w w'
| step_rules w m : (forall r rl, m !! r = Some rl -> sr_age rl = (0, 0)) ->
    (forall r, 0 < holders w r -> exists rl, m !! r = Some rl /\ holders w r <= sr_ref rl) ->
    step w (w <| sw_rules := m |>)
| step_env w ex lk : step w (w <| sw_ext := ex |> <| sw_lock := lk |>)
| step_time w now : sw_ticks w <= now -> (forall q ttl, ttl_of (sw_heap w) q = Some ttl -> now + ttl < 2 ^ 32) ->
    step w (w <| sw_ticks := now |>).

Lemma ticks_range (w : W) : table_ok cf w -> 0 <= sw_ticks w < 2 ^ 64.
Proof.
  intros Ht. destruct (tk_queues cf _ _ _ _ _ Ht) as [Q HQ].
  assert (Hq : table_queue (ipf_state_tcptq cf 0)) by (apply tcptq_queue; split; done).
  destruct (proj1 (qr_fixed _ _ _ _ _ HQ _) Hq) as [l Hl]. destruct (qr_ageing _ _ _ _ _ HQ _ _ Hl) as (ttl & _ & ? & ? & ? & _).
  lia.
Qed.

Lemma inv_none w : table_ok cf w <-> inv (fun _ => False) w.
Proof. unfold inv. tauto. Qed.
Lemma wlp_step {A} (m : ST W A) w r w' : wlp m (fun _ => inv (fun _ => False)) w -> m w = Some (r, w') -> table_ok cf w'.
Proof. intros Hm Hr. apply inv_none. by apply (wlp_run _ _ _ _ _ Hm Hr). Qed.

Lemma step_ok w w' : step w w' -> table_ok cf w -> table_ok cf w'.
Proof.
  intros Hstep Ht. pose proof (proj1 (inv_none w) Ht) as Hi.
  destruct Hstep as [w f l4 pn al Ha|B w mf pkt passp r w' Hr|w F qa0 qa1 sv fl r w' Hfr Hr|w F w' HF H92 Hr|w F which proto n w' HF H92 Hr|
    w x w' Hr|w tok nx w' Hr|w x w' Hx Hr|w d r w' Hr|w running ifp w' Hr|w m Ha Hh|w ex lk|w now Hn Hw].
  - destruct Ht. split; try done. intros x e Hx. by destruct (tk_entry x e Hx).
  - eapply wlp_step; [|exact Hr]. by apply state_check_inv.
  - eapply wlp_step; [|exact Hr]. eapply wp_mono; [by apply state_add_ok|]. by intros ? ? [? _].
  - destruct (state_expire_run cf w F Ht HF H92) as (w1 & D & R & T & _); [by apply ticks_range|]. congruence.
  - destruct (state_flush_run cf F which proto w Ht HF H92) as (m & D & w1 & R & T & _); [by apply ticks_range|]. congruence.
  - destruct (sw_states w !! x) as [e|] eqn:He; [|unfold ipf_state_deref, mbind, st_bind, st in Hr; by rewrite He in Hr].
    destruct (state_deref_run cf w x e Ht He) as (w1 & R & T & _). congruence.
  - destruct (sw_saved w !! tok) as [cur|] eqn:Hc; [|unfold ipf_state_iter, mbind, st_bind, gets, need in Hr; cbn in Hr; by rewrite Hc in Hr].
    assert (Hs : forall x, cur = Some x -> is_Some (sw_states w !! x)).
    { intros x ->. destruct (sw_states w !! x) eqn:He; [by eexists|]. exfalso.
      unfold ipf_state_iter, mbind, st_bind, gets, need, st in Hr. cbn in Hr. rewrite Hc in Hr. by rewrite He in Hr. }
    destruct (state_iter_run cf w tok cur Ht Hc Hs) as (nx' & w1 & R & T & _). congruence.
  - destruct Hx as (e & He & Hh). destruct (state_setpending_run cf w x e Ht He Hh) as (w1 & R & T & _). congruence.
  - eapply wlp_step; [apply (keeps_remove (fun _ => False)); [by intros ? []|exact Hi]|exact Hr].
  - eapply wlp_step; [by apply (keeps_sync (fun _ => False))|exact Hr].
  - by apply (tok_rule_ages cf).
  - eapply table_ok_same; [|exact Ht]. split; try done; intros r0 rl0 Hr0; exists rl0; by split.
  - destruct Ht. split; try done.
    + by apply (qok_tick _ (sw_ticks w)).
    + intros x e Hx. by destruct (tk_entry x e Hx).
Qed.

End Steps.
