(* ===== verification/StateTable.v ===== *)
(** What the state table promises: the properties of its runs (StateSteps.v), of the
    lookup and of the operations, each tried on a small table. *)
From S2P Require Import Prelude Packet Cksum Parse Timeoutq TcpAge Queues Sweeps TcpWindow Filter State StateLookup StateInv StateSteps.

(** ** A table to try things on *)

(** Nothing is known about interfaces, every host may have its entries, nothing is
    logged or synchronised. *)
#[export] Instance quiet_env : state_env unit := {|
  env_resolvenic _ _ _ := None; env_ifname _ _ := []; env_ht_node_add _ _ _ e := (true, e); env_ht_node_del _ _ _ e := e;
  env_sync_new _ _ e := (None, e); env_sync_update _ _ e := e; env_sync_del _ e := e; env_state_log _ _ e := e;
  env_frag_new _ _ e := e; env_dstlist _ _ e := (None, e); env_newisn _ _ := 0; env_scanlist _ f e := (0, f, e) |}.

Module Demo.
Definition cf : stconf :=
  ipf_state_soft_create (fun _ => 0) (fun s => Pos.of_succ_nat (Z.to_nat s)) 19 18 13 14 15 16 17 0%Z.
Definition queue0 : ipftq := mk_ipftq 0 None (NextOf 1%positive) None None 0 0.
(** One rule, which is on a list of rules; memory for two entries. *)
Definition rule1 : strule := mk_strule 0 1 0 0 (0, 0) 0 [] [] [] 0 [] None 0 (FdNone, FdNone) FdNone.
Definition nothing : l4hdr := mk_l4hdr (mk_tcphdr 0 0 0 0 0 0) [] 0 0 0 0.
Definition raw : stw unit := {|
  sw_heap := mk_tqheap ∅ (list_to_map ((fun q => (q, queue0)) <$> all_queues cf)) None 0;
  sw_states := ∅; sw_table _ := []; sw_list := []; sw_lock := 0; sw_doflush := 0; sw_wm_last := 0;
  iss_active := 0; iss_inuse := 0; iss_wild := 0; iss_orphan := 0; iss_bucketlen _ := 0; iss_active_proto _ := 0;
  sw_saved := ∅; sw_rules := {[1%positive := rule1]}; sw_ticks := 1000; sw_fin := fin_zero; sw_pktnum := 0;
  sw_dif := None; sw_tif := None; sw_l4 := nothing; sw_ext := tt; sw_allocs := [Some 100%positive; Some 101%positive] |}.
Definition run {A} (m : ST (stw unit) A) (w : stw unit) : stw unit := default w (exec m w).
Definition start : stw unit := Eval vm_compute in run (ipf_state_soft_init cf default_timeouts) raw.

(** A packet of UDP, and the answer. *)
Definition host (n : Z) : i6addr := mk_i6addr (0x0a000000 + n) 0 0 0.
Definition udp (src sport dst dport : Z) : fr_info :=
  fin_zero <| fin_fr := Some 1%positive |> <| fin_ifp := Some 50%positive |> <| fin_plen := 100 |>
    <| fin_fi := fi_zero <| fi_v := 4 |> <| fi_p := IPPROTO_UDP |> <| fi_src := host src |> <| fi_dst := host dst |>
                         <| fi_ports0 := sport |> <| fi_ports1 := dport |> |>.
Definition udphdr (sport dport : Z) : l4hdr := nothing <| th_sport := sport |> <| th_dport := dport |>.
Definition comes (f : fr_info) (l4 : l4hdr) (w : stw unit) : stw unit :=
  w <| sw_fin := f |> <| sw_l4 := l4 |> <| sw_pktnum := 0 |> <| sw_allocs := sw_allocs w |>.
Definition query : stw unit := Eval vm_compute in comes (udp 1 1000 2 53) (udphdr 1000 53) start.
Definition added : stw unit := Eval vm_compute in run (ipf_state_add cf true 10 None None None 0) query.

Lemma start_heap : ents (sw_heap start) = ∅ /\ parent_var (sw_heap start) = None /\
  queue_chain (sw_heap start) (Some (ipf_state_tcptq cf 0)) (all_queues cf) /\
  Forall (fun q => queue (sw_heap start) q [] /\
    exists ttl, ttl_of (sw_heap start) q = Some ttl /\ 0 <= ttl /\ sw_ticks start + ttl < 2 ^ 32) (all_queues cf).
Proof.
  split; [by vm_compute|]. split; [by vm_compute|]. split.
  - unfold all_queues. cbn [map seq app]. repeat (split; [reflexivity|]; eexists; split; [by vm_compute|]). reflexivity.
  - unfold all_queues. cbn [map seq app]. repeat constructor.
    all: first [eexists; split; [by vm_compute|split; [constructor|split; by vm_compute]]|
                eexists; split; [by vm_compute|split; by vm_compute]].
Qed.
Lemma start_table_ok : table_ok cf start.
Proof.
  destruct start_heap as (H1 & H2 & H3 & H4). apply start_ok; try done.
  - intros q Hq. rewrite Forall_forall in H4. auto.
  - intros r rl Hr. change (sw_rules start) with ({[1%positive := rule1]} : gmap loc strule) in Hr. apply lookup_singleton_Some in Hr as [_ <-]. done.
  - by apply (bool_decide_unpack (NoDup [100%positive; 101%positive])); vm_compute.
Qed.
End Demo.

Section Properties.
Context {E : Type} `{state_env E} (cf : stconf) (be : bool).
Abbreviation W := (stw E).

(** C1. Whatever happens to the table, in whatever order, starting from a well-formed
    table: every bucket holds the entries whose hash value leads there, once; the
    numbers of entries, orphans, used buckets and entries per bucket are right; the
    entries in the buckets are exactly those on the timeout queues, which are sorted
    by expiry; rules that entries refer to are there. *)
Theorem table_invariant (w w' : W) : table_ok cf w -> rtc (step cf be) w w' -> table_ok cf w'.
Proof. intros Ht Hr. induction Hr as [|w1 w2 w3 Hs _ IH]; [done|]. by apply IH, (step_ok cf be w1). Qed.
End Properties.

Lemma query_comes : step Demo.cf true Demo.start Demo.query.
Proof. apply step_packet. destruct (tk_allocs _ _ _ _ _ _ Demo.start_table_ok) as [H1 H2]. by split. Qed.
Lemma rule1_ok : rule_ok Demo.query 1%positive.
Proof. exists Demo.rule1. split; [by vm_compute|vm_compute; congruence]. Qed.
Lemma query_added : step Demo.cf true Demo.query Demo.added.
Proof.
  eapply (step_add _ _ _ 10 None None None 0 0); [|by vm_compute]. intros r Hr. injection Hr as <-. apply rule1_ok.
Qed.
Lemma table_invariant_witness :
  sw_list Demo.added = [100%positive] /\ iss_active Demo.added = 1 /\ table_ok Demo.cf Demo.added.
Proof.
  split; [by vm_compute|]. split; [by vm_compute|]. apply (table_invariant Demo.cf true Demo.start).
  - apply Demo.start_table_ok.
  - eapply rtc_l; [apply query_comes|]. eapply rtc_l; [apply query_added|]. apply rtc_refl.
Defined.

(** ** Expiry and flushing *)

Section Expiry.
Context {E : Type} `{state_env E} (cf : stconf) (be : bool).
Abbreviation W := (stw E).

(** C15. An idle table empties: when no packet comes for the length of every timeout, the
    timer completes and afterwards no entry is in a bucket; the run is one of those
    that [table_invariant] speaks of. *)
Theorem idle_table_empties (w : W) now F :
  table_ok cf w -> (92 + length (sw_list w) <= F)%nat -> sw_ticks w <= now ->
  (forall q ttl, ttl_of (sw_heap w) q = Some ttl -> sw_ticks w + ttl <= now /\ now + ttl < 2 ^ 32) ->
  exists w', ipf_state_expire cf F (w <| sw_ticks := now |>) = Some (tt, w') /\ rtc (step cf be) w w' /\
    table_ok cf w' /\ forall i, sw_table w' i = [].
Proof.
  intros Ht [HF H92]%(fuel_enough cf) Hn Hq; [|done]. set (w1 := w <| sw_ticks := now |>).
  assert (S1 : step cf be w w1) by (apply step_time; [done|]; intros q ttl Hqt; by apply (Hq q)).
  pose proof (step_ok cf be _ _ S1 Ht) as T1.
  destruct (state_expire_run cf w1 F T1 HF H92 (ticks_range cf w1 T1)) as (w2 & D & R & T2 & _ & Hd & _).
  exists w2. split; [done|]. split; [|split; [done|]].
  - eapply rtc_l; [exact S1|]. eapply rtc_l; [by apply (step_expire _ _ _ F)|apply rtc_refl].
  - intros i. destruct (sw_table w2 i) as [|x l] eqn:Ei; [done|]. exfalso.
    destruct (Hd x) as [Hx Hdue]; [exists i; rewrite Ei; by left|].
    assert (Hx' : in_table w x) by exact Hx. destruct (tk_queues cf _ _ _ _ _ Ht) as [Q HQ].
    destruct (proj1 (qr_members _ _ _ _ _ HQ x) Hx') as (q & l' & Hl' & Hxl).
    destruct (qr_ageing _ _ _ _ _ HQ _ _ Hl') as (ttl & Httl & _ & _ & _ & _ & Hb).
    destruct (queued_timing (sw_heap w) q l' x (qr_rel _ _ _ _ _ HQ _ _ Hl') Hxl) as (d & t & Ed).
    assert (Hdb : d <= sw_ticks w + ttl) by (apply Hb, list_elem_of_omap; exists x; by rewrite Ed).
    destruct (Hq q ttl Httl) as [? _]. unfold due in Hdue. change (tbl_heap w1) with (sw_heap w) in Hdue.
    rewrite Ed in Hdue. change (tbl_ticks w1) with now in Hdue. breflect. lia.
Qed.

(** C14. The timer: it completes, and when nobody asked for room to be made, the entries
    that stay in the table are exactly those whose time has not come, and they are as
    they were. *)
Theorem expire_exact (w : W) F :
  table_ok cf w -> (92 + length (sw_list w) <= F)%nat -> sw_doflush w = 0 ->
  exists w', ipf_state_expire cf F w = Some (tt, w') /\ table_ok cf w' /\
    (forall x, in_table w' x <-> in_table w x /\ due w x = false) /\
    (forall x, in_table w' x -> sw_states w' !! x = sw_states w !! x /\ timing (sw_heap w') x = timing (sw_heap w) x).
Proof.
  intros Ht [HF H92]%(fuel_enough cf) Hfl; [|done]. destruct (state_expire_run cf w F Ht HF H92 (ticks_range cf w Ht)) as (w' & D & R & T & Dr & H1 & H2).
  exists w'. split; [done|]. split; [done|]. split; [intros x; split; [apply H1|intros []; by apply H2]|].
  intros x Hx. pose proof (removed_in_table cf D w (w' <| sw_doflush := sw_doflush w |>) x Dr) as Hr.
  assert (Hd : x ∉ D) by (by apply Hr in Hx as [_ Hd]). split; [by apply (rm_states cf _ _ _ Dr)|by apply (rm_timing cf _ _ _ Dr)].
Qed.

End Expiry.

Module Idle.
Lemma added_ok : table_ok Demo.cf Demo.added.
Proof. eapply step_ok; [apply query_added|]. eapply step_ok; [apply query_comes|]. apply Demo.start_table_ok. Qed.
Lemma added_ttls q ttl : ttl_of (sw_heap Demo.added) q = Some ttl -> 0 <= ttl <= 864000.
Proof.
  assert (Hm : map_Forall (fun _ t => 0 <= ifq_ttl t /\ ifq_ttl t <= 864000) (qs (sw_heap Demo.added)))
    by (apply (bool_decide_unpack _); by vm_compute).
  unfold ttl_of. destruct (qs (sw_heap Demo.added) !! q) as [t|] eqn:Et; [|done]. intros [= <-].
  apply (map_Forall_lookup_1 _ _ _ _ Hm Et).
Qed.
End Idle.
Lemma idle_table_empties_witness :
  sw_table Demo.added 5474 = [100%positive] /\
  exists w', ipf_state_expire Demo.cf 100 (Demo.added <| sw_ticks := 900000 |>) = Some (tt, w') /\ forall i, sw_table w' i = [].
Proof.
  split; [by vm_compute|].
  destruct (idle_table_empties Demo.cf true Demo.added 900000 100 Idle.added_ok) as (w' & R & _ & _ & Hi);
    [vm_compute; lia|by vm_compute| |exact (ex_intro _ w' (conj R Hi))].
  intros q ttl Ht. apply Idle.added_ttls in Ht. change (sw_ticks Demo.added) with 1000. lia.
Defined.
Lemma expire_exact_witness :
  due Demo.added 100%positive = false /\
  exists w', ipf_state_expire Demo.cf 100 Demo.added = Some (tt, w') /\ in_table w' 100%positive.
Proof.
  split; [by vm_compute|]. destruct (expire_exact Demo.cf Demo.added 100 Idle.added_ok) as (w' & R & _ & Hi & _);
    [vm_compute; lia|reflexivity|]. exists w'. split; [exact R|]. apply Hi. split; [|by vm_compute]. exists 5474. vm_compute. by left.
Defined.

(** ** The lookup *)

Section Lookup.
Context {E : Type} `{state_env E} (cf : stconf) (be : bool).
Abbreviation W := (stw E).

(** The direction in which the packet belongs to the entry, if it does. *)
Definition packet_rev (fin : fr_info) (tcp : option l4hdr) (i : ipstate) : Z :=
  let '(sp, dp) := ports_of be fin tcp in b2z (match_rev i (fin_dst6 fin) (bool_decide (is_Some tcp)) sp dp).
Definition connects (fin : fr_info) (tcp : option l4hdr) (e : ips) (r : Z) : bool :=
  let '(sp, dp) := ports_of be fin tcp in
  let k := Z.shiftl (fin_out fin) 1 + r in
  ifp_matches (at4 None k (is_ifp e)) (fin_ifp fin) (at4 [] k (is_ifname e)) &&
  match_conn (s_is e) (r =? 1) (fin_src6 fin) (fin_dst6 fin) (bool_decide (is_Some tcp)) sp dp &&
  opts_match fin e r FI_CMP.
Definition belongs (w : W) (fin : fr_info) (tcp : option l4hdr) (x : loc) : option Z :=
  match sw_states w !! x, ents (sw_heap w) !! x with
  | Some e, Some t =>
      let r := packet_rev fin tcp (s_is e) in
      if negb (bool_decide (tqe_ifq t = Some (ipf_state_deletetq cf))) && connects fin tcp e r then Some r else None
  | _, _ => None
  end.
(** The first entry of a chain that has the packet's protocol and version and to which
    the packet belongs. *)
Fixpoint first_owner (w : W) (fin : fr_info) (tcp : option l4hdr) (l : list loc) : option (loc * Z) :=
  match l with
  | [] => None
  | x :: l =>
      match sw_states w !! x with
      | Some e => if (is_p (s_is e) =? fin_p fin) && (is_v (s_is e) =? fin_v fin) then
                    match belongs w fin tcp x with
                    | Some r => Some (x, r)
                    | None => first_owner w fin tcp l
                    end
                  else first_owner w fin tcp l
      | None => None
      end
  end.
Definition no_wild (e : ips) : Prop := has (is_flags (s_is e)) SI_WILDA = false /\ has (is_flags (s_is e)) SI_WILDP = false.

Lemma clear_has f m n : has f n = false -> has (clear f m) n = false.
Proof.
  rewrite !has_false. intros Hf. unfold clear. apply Z.bits_inj'. intros k Hk.
  assert (Hb : Z.testbit (Z.land f n) k = false) by (by rewrite Hf, Z.bits_0). rewrite Z.land_spec in Hb.
  rewrite Z.land_spec, Z.ldiff_spec, Z.bits_0. by destruct (Z.testbit f k), (Z.testbit n k), (Z.testbit m k).
Qed.

Lemma fill_ifp_run fin k y (w : W) e p : sw_states w !! y = Some e -> fin_ifp fin = Some p ->
  exists f, fill_ifp fin k y w = Some (tt, w <| sw_states ::= alter f y |>).
Proof.
  intros He Hp. unfold fill_ifp. rewrite (bind_eq _ _ _ _ _ (st_run _ _ _ He)). cbv zeta. destruct (_ && _); cbn [when_].
  - rewrite (bind_eq _ _ _ p w) by (unfold need; by rewrite Hp). rewrite (bind_eq _ _ _ w w eq_refl).
    rewrite (upd_st_run _ _ _ _ He). by eexists.
  - exists id. replace (w <| sw_states ::= alter id y |>) with w; [done|]. destruct w. cbn. f_equal. symmetry. apply alter_id.
    by intros ? _.
Qed.

Lemma matchsrcdst_run (w : W) fin x e t tcp p :
  sw_states w !! x = Some e -> ents (sw_heap w) !! x = Some t -> no_wild e -> fin_ifp fin = Some p ->
  match belongs w fin tcp x with
  | None => ipf_matchsrcdst cf be fin x (fin_src6 fin) (fin_dst6 fin) tcp FI_CMP w = Some ((None, fin), w)
  | Some r => exists f, ipf_matchsrcdst cf be fin x (fin_src6 fin) (fin_dst6 fin) tcp FI_CMP w =
      Some ((Some x, fin <| fin_rev := r |>), w <| sw_states ::= alter f x |>)
  end.
Proof.
  intros He Hx [Hwa Hwp] Hp. unfold belongs. rewrite He, Hx. unfold ipf_matchsrcdst, connects, packet_rev.
  rewrite (bind_eq _ _ _ _ _ (hp_ent tqe_ifq _ _ _ Hx)). case_bool_decide; [done|]. cbn [negb andb].
  rewrite (bind_eq _ _ _ _ _ (st_run _ _ _ He)). cbv zeta. destruct (ports_of be fin tcp) as [sp dp].
  set (has_tcp := bool_decide (is_Some tcp)). set (rev := match_rev (s_is e) (fin_dst6 fin) has_tcp sp dp).
  destruct (ifp_matches _ _ _); cbn [negb andb]; [|done].
  replace (b2z rev =? 1) with rev by (by destruct rev).
  destruct (match_conn _ _ _ _ _ _ _); cbn [negb andb]; [|done].
  set (flags := if has_tcp then is_flags (s_is e) else _).
  assert (Hfa : has flags SI_WILDA = false) by (unfold flags; destruct has_tcp; [done|by apply clear_has]).
  assert (Hfp : has flags SI_WILDP = false) by (unfold flags; destruct has_tcp; [done|by apply clear_has]).
  rewrite Hfa, Hfp. cbn [when_]. rewrite (bind_eq _ _ _ tt w) by done.
  destruct (opts_match fin e (b2z rev) FI_CMP); cbn [negb]; [|done].
  destruct (has (fin_flx fin) FI_IGNORE).
  { exists id. replace (w <| sw_states ::= alter id x |>) with w; [done|]. destruct w. cbn. f_equal. symmetry. apply alter_id.
    by intros ? _. }
  rewrite (bind_eq _ _ _ (Some x) w) by done. rewrite (bind_eq _ _ _ _ _ (upd_st_run _ _ _ _ He)).
  set (g := note_opts fin (b2z rev) _). set (w1 := w <| sw_states ::= alter g x |>).
  destruct (fill_ifp_run fin (Z.shiftl (fin_out fin) 1 + b2z rev) x w1 (g e) p) as [f Hf]; [by apply lookup_alter_Some_eq|done|].
  rewrite (bind_eq _ _ _ _ _ Hf). exists (fun e => f (g e)). unfold w1. by rewrite states_twice.
Qed.

(** The summary while a chain is searched. *)
Definition tried (f : fr_info) : fr_info := f <| fin_fi ::= fun fi => fi <| fi_flx ::= fun x => clear x FI_OOW |> |>.
Lemma clear_clear x m : clear (clear x m) m = clear x m.
Proof. unfold clear. rewrite Z.ldiff_ldiff_l. by rewrite Z.lor_diag. Qed.
Lemma tried_tried f : tried (tried f) = tried f.
Proof. destruct f as [? ? ? fi]. destruct fi. unfold tried. cbn. by rewrite clear_clear. Qed.

Definition same_kind (w : W) (pr v : Z) (x : loc) : bool :=
  match sw_states w !! x with Some e => (is_p (s_is e) =? pr) && (is_v (s_is e) =? v) | None => false end.

Section Find.
Context (l4 : l4hdr) (p : loc) (w : W).
Hypothesis Hl4 : sw_l4 w = l4.
Hypothesis Hifp : fin_ifp (sw_fin w) = Some p.
Hypothesis Hudp : fin_p (sw_fin w) <> IPPROTO_TCP.
Abbreviation fin0 := (tried (sw_fin w)).
Definition there (x : loc) : Prop := exists e t, sw_states w !! x = Some e /\ ents (sw_heap w) !! x = Some t /\ no_wild e.

(** One try. *)
Lemma gets_run {S A} (f : S -> A) s : gets f s = Some (f s, s).
Proof. done. Qed.
Lemma try_run w1 x e t : w1 = w \/ w1 = w <| sw_fin := fin0 |> -> sw_states w !! x = Some e -> ents (sw_heap w) !! x = Some t ->
  no_wild e ->
  match belongs w fin0 (Some l4) x with
  | None => try_tcpudp cf be x w1 = Some (None, w <| sw_fin := fin0 |>)
  | Some r => exists f, try_tcpudp cf be x w1 =
      Some (Some x, w <| sw_states ::= alter f x |> <| sw_fin := fin0 <| fin_rev := r |> |>)
  end.
Proof.
  intros Hw1 He Hx Hwild. set (w2 := w <| sw_fin := fin0 |>) in *.
  unfold try_tcpudp. rewrite (bind_eq _ _ _ tt w2).
  2: { destruct Hw1 as [->| ->]; [done|]. unfold upd_sfin, modify. do 2 f_equal.
       transitivity (w <| sw_fin := tried (tried (sw_fin w)) |>); [done|by rewrite tried_tried]. }
  rewrite (bind_eq _ _ _ _ _ eq_refl). cbv zeta. unfold match_packet. rewrite (bind_eq _ _ _ _ _ (gets_run sw_fin _)).
  change (sw_l4 w2) with (sw_l4 w). rewrite Hl4. change (sw_fin w2) with fin0.
  pose proof (matchsrcdst_run w2 fin0 x e t (Some l4) p He Hx Hwild Hifp) as Hm.
  change (belongs w2 fin0 (Some l4) x) with (belongs w fin0 (Some l4) x) in Hm.
  destruct (belongs w fin0 (Some l4) x) as [r|].
  - destruct Hm as [f Hm]. exists f. by rewrite (bind_eq _ _ _ _ _ Hm).
  - by rewrite (bind_eq _ _ _ _ _ Hm).
Qed.

Lemma find_udp_run oow : forall l w1, w1 = w \/ w1 = w <| sw_fin := fin0 |> -> (forall x, x ∈ l -> there x) ->
  match first_owner w fin0 (Some l4) l with
  | Some (y, r) => exists f, find_tcpudp cf be (fin_p (sw_fin w)) (fin_v (sw_fin w)) l oow w1 =
      Some ((Some y, oow), w <| sw_states ::= alter f y |> <| sw_fin := fin0 <| fin_rev := r |> |>)
  | None => exists w', find_tcpudp cf be (fin_p (sw_fin w)) (fin_v (sw_fin w)) l oow w1 = Some ((None, oow), w') /\
      (w' = w \/ w' = w <| sw_fin := fin0 |>)
  end.
Proof.
  induction l as [|x l IH]; intros w1 Hw1 Hl; cbn [find_tcpudp first_owner]; [by exists w1|].
  destruct (Hl x) as (e & t & He & Hx & Hnw); [by left|].
  assert (Hl' : forall y, y ∈ l -> there y) by (intros y Hy; apply Hl; by right).
  assert (He1 : sw_states w1 !! x = Some e) by (by destruct Hw1 as [->| ->]).
  rewrite (bind_eq _ _ _ _ _ (st_run _ _ _ He1)), He.
  change (fin_p fin0) with (fin_p (sw_fin w)). change (fin_v fin0) with (fin_v (sw_fin w)).
  destruct (is_p (s_is e) =? fin_p (sw_fin w)), (is_v (s_is e) =? fin_v (sw_fin w)); cbn [negb andb orb]; try by apply IH.
  pose proof (try_run w1 x e t Hw1 He Hx Hnw) as Ht. destruct (belongs w fin0 (Some l4) x) as [r|].
  - destruct Ht as [f Ht]. exists f. rewrite (bind_eq _ _ _ _ _ Ht). by rewrite (proj2 (Z.eqb_neq _ _) Hudp).
  - rewrite (bind_eq _ _ _ _ _ Ht). apply IH; [by right|done].
Qed.
End Find.

(** The bucket in which [ipf_state_lookup] looks for a UDP packet. *)
Definition udp_bucket (fin : fr_info) : Z :=
  DOUBLE_HASH cf (sum32 (lookup_hash be fin) [htons be (fin_sport fin); htons be (fin_dport fin)]).

(** A UDP packet for which the search of its bucket ends with an entry. *)
Lemma lookup_udp_found (w w1 : W) y e t icmp6err : fin_p (sw_fin w) = IPPROTO_UDP ->
  find_tcpudp cf be (fin_p (sw_fin w)) (fin_v (sw_fin w)) (sw_table w (udp_bucket (sw_fin w))) 0 w = Some ((Some y, 0), w1) ->
  sw_states w1 !! y = Some e -> ents (sw_heap w1) !! y = Some t ->
  ipf_state_lookup cf be icmp6err w = Some ((Some y, None), w1).
Proof.
  intros Hudp Hf He Et. unfold ipf_state_lookup. rewrite (bind_eq _ _ _ _ _ eq_refl). cbv zeta. rewrite Hudp.
  change (IPPROTO_UDP =? IPPROTO_ICMPV6) with false. change (IPPROTO_UDP =? IPPROTO_ICMP) with false.
  change ((IPPROTO_UDP =? IPPROTO_TCP) || (IPPROTO_UDP =? IPPROTO_UDP)) with true. cbv iota.
  cbn [lookup_tcpudp]. rewrite st_bind_assoc, (bind_eq _ _ _ _ _ eq_refl). cbv zeta. rewrite st_bind_assoc, (bind_eq _ _ _ _ _ eq_refl), st_bind_assoc.
  fold (udp_bucket (sw_fin w)). rewrite (bind_eq _ _ _ _ _ Hf), st_bind_assoc, (bind_eq _ _ _ _ _ (st_run _ _ _ He)).
  rewrite (bind_eq _ _ _ (Some y) w1) by done.
  unfold lookup_finish. rewrite (bind_eq _ _ _ _ _ (st_run _ _ _ He)). rewrite (bind_eq _ _ _ _ _ (hp_ent tqe_flags y w1 t Et)).
  by rewrite (bind_eq _ _ _ _ _ eq_refl).
Qed.
Lemma first_owner_elem (w : W) fin tcp y r : forall l, first_owner w fin tcp l = Some (y, r) -> y ∈ l.
Proof.
  induction l as [|x l IH]; [done|]. cbn [first_owner]. destruct (sw_states w !! x); [|done].
  destruct (_ && _); [|right; auto]. destruct (belongs _ _ _ _); [intros [= -> ->]; by left|right; auto].
Qed.

Lemma chain_there (w : W) i : table_ok cf w -> (forall x e, x ∈ sw_table w i -> sw_states w !! x = Some e -> no_wild e) ->
  forall x, x ∈ sw_table w i -> there w x.
Proof.
  intros Ht Hw x Hx. destruct (tk_chain cf _ _ _ _ _ Ht _ _ Hx) as (_ & _ & e & He & _).
  destruct (tk_ents cf _ _ _ _ _ Ht x) as [t Et]; [by eexists|]. exists e, t. split_and!; [done..|by apply (Hw x)].
Qed.
(** The search in terms of the code's own comparisons. *)
Lemma lookup_udp_run (w : W) p icmp6err :
  table_ok cf w -> iss_wild w = 0 -> fin_p (sw_fin w) = IPPROTO_UDP -> fin_ifp (sw_fin w) = Some p ->
  let chain := sw_table w (udp_bucket (sw_fin w)) in
  (forall x e, x ∈ chain -> sw_states w !! x = Some e -> no_wild e) ->
  let found := first_owner w (tried (sw_fin w)) (Some (sw_l4 w)) chain in
  exists w', ipf_state_lookup cf be icmp6err w = Some ((fst <$> found, None), w') /\
    (forall r, snd <$> found = Some r -> fin_rev (sw_fin w') = r) /\ sw_table w' = sw_table w /\ sw_heap w' = sw_heap w.
Proof.
  intros Ht H0 Hudp Hp chain Hw found.
  pose proof (chain_there w _ Ht Hw) as Hl. fold chain in Hl.
  pose proof (find_udp_run (sw_l4 w) p w eq_refl Hp ltac:(by rewrite Hudp) 0 chain w (or_introl eq_refl) Hl) as Hf. fold found in Hf.
  destruct found as [[y r]|] eqn:Ef.
  - destruct Hf as [f Hf]. destruct (Hl y (first_owner_elem _ _ _ _ _ _ Ef)) as (e & t & He & Et & _).
    eexists. split; [eapply lookup_udp_found; [done|exact Hf|by apply lookup_alter_Some_eq|exact Et]|].
    split; [by intros r' [= <-]|done].
  - destruct Hf as (w' & Hf & Hw'). unfold ipf_state_lookup. rewrite (bind_eq _ _ _ _ _ eq_refl). cbv zeta. rewrite Hudp.
    change (IPPROTO_UDP =? IPPROTO_ICMPV6) with false. change (IPPROTO_UDP =? IPPROTO_ICMP) with false.
    change ((IPPROTO_UDP =? IPPROTO_TCP) || (IPPROTO_UDP =? IPPROTO_UDP)) with true. cbv iota.
    cbn [lookup_tcpudp]. rewrite st_bind_assoc, (bind_eq _ _ _ _ _ eq_refl). cbv zeta. rewrite st_bind_assoc, (bind_eq _ _ _ _ _ eq_refl), st_bind_assoc.
    fold (udp_bucket (sw_fin w)). fold chain. rewrite (bind_eq _ _ _ _ _ Hf). unfold may_retry.
    rewrite st_bind_assoc, st_bind_assoc, (bind_eq _ _ _ _ _ eq_refl).
    replace (iss_wild w' =? 0) with true by (destruct Hw' as [->| ->]; cbn; by rewrite H0). cbn [negb andb].
    rewrite (bind_eq _ _ _ false w') by done. eexists. split; [done|]. split; [done|]. by destruct Hw' as [->| ->].
Qed.

(** *** What it means that a packet belongs to an entry *)

(** The two ends of a packet and of an entry: an address and a port, in the byte order
    that the entry has it in. *)
Definition sender (fin : fr_info) : i6addr * Z := (fin_src6 fin, htons be (fin_sport fin)).
Definition receiver (fin : fr_info) : i6addr * Z := (fin_dst6 fin, htons be (fin_dport fin)).
Definition owner (i : ipstate) : i6addr * Z := (is_src i, is_sport i).
Definition peer (i : ipstate) : i6addr * Z := (is_dst i, is_dport i).
(** Forwards (0) from the owner to the peer, backwards (1) the other way; when the two are
    the same, every packet goes forwards. *)
Definition goes (fin : fr_info) (i : ipstate) (r : Z) : Prop :=
  r = 0 /\ sender fin = owner i /\ receiver fin = peer i \/
  r = 1 /\ sender fin = peer i /\ receiver fin = owner i /\ owner i <> peer i.
(** A packet that goes in direction [r] of the connection and in or out of the host: the
    interface is the entry's for this case, or the entry has none there and its name is
    empty or stands for any; the properties of the packet that are compared (all of
    [FI_CMP] but [FI_OOW]) are those seen before, the IP options and the security label
    are those of the entry. *)
Record in_conn (fin : fr_info) (e : ips) (r : Z) : Prop := {
  ic_goes : goes fin (s_is e) r;
  ic_ifp : let k := 2 * fin_out fin + r in
    at4 None k (is_ifp e) = fin_ifp fin \/
    at4 None k (is_ifp e) = None /\ nth 0 (at4 [] k (is_ifname e)) 0 ∈ [0; 45; 42];
  ic_flx : let seen := idx r (idx (fin_out fin) (is_flx e)) in
    seen = 0 \/ forall n, 0 <= n -> Z.testbit FI_CMP n = true ->
      Z.testbit seen n = Z.testbit (fin_flx fin) n && negb (Z.testbit FI_OOW n);
  ic_opts : Z.land (fi_optmsk (fin_fi fin)) (idx r (is_optmsk e)) = idx r (is_opt e);
  ic_sec : Z.land (fi_secmsk (fin_fi fin)) (is_secmsk e) = is_sec e;
  ic_auth : Z.land (fi_auth (fin_fi fin)) (is_authmsk e) = is_auth e }.
(** The entry [x] is the packet's: of its protocol and version, not given up, and one of
    its directions is the packet's. *)
Definition owns (w : W) (fin : fr_info) (x : loc) (r : Z) : Prop := exists e t,
  sw_states w !! x = Some e /\ ents (sw_heap w) !! x = Some t /\ tqe_ifq t <> Some (ipf_state_deletetq cf) /\
  is_p (s_is e) = fin_p fin /\ is_v (s_is e) = fin_v fin /\ in_conn fin e r.

Lemma IP6_EQ_refl a : IP6_EQ a a = true.
Proof. unfold IP6_EQ. by rewrite !Z.eqb_refl. Qed.
Lemma IP6_EQ_eq a b : IP6_EQ a b = true -> a = b.
Proof. unfold IP6_EQ. destruct a, b. cbn. intros. breflect. congruence. Qed.
Lemma IP6_EQ_iff a b : IP6_EQ a b = true <-> a = b.
Proof. split; [apply IP6_EQ_eq|intros ->; apply IP6_EQ_refl]. Qed.

(** Without wildcards the code's comparisons decide the direction. *)
Lemma no_wild_flags e : no_wild e -> let flags := is_flags (s_is e) in
  has flags SI_W_SPORT = false /\ has flags SI_W_DPORT = false /\ has flags SI_W_SADDR = false /\ has flags SI_W_DADDR = false.
Proof.
  intros [Ha Hp]. cbv zeta. rewrite !has_false in *. unfold SI_WILDA, SI_WILDP in *. rewrite Z.land_lor_distr_r in *.
  apply Z.lor_eq_0_iff in Ha as [? ?], Hp as [? ?]. by split_and!.
Qed.
Lemma match_rev_iff e dst sp dp : no_wild e ->
  match_rev (s_is e) dst true sp dp = false <-> is_dst (s_is e) = dst /\ sp = is_sport (s_is e) /\ dp = is_dport (s_is e).
Proof.
  intros Hw. destruct (no_wild_flags e Hw) as (Fs & Fd & _ & _). unfold match_rev. rewrite Fs, Fd. cbn [negb andb].
  rewrite !orb_false_iff, !negb_false_iff, IP6_EQ_iff, !Z.eqb_eq. tauto.
Qed.
Lemma match_ends_iff e a b pa pb : no_wild e -> match_ends (s_is e) a b true pa pb = true <->
  (a, pa) = owner (s_is e) /\ (b, pb) = peer (s_is e).
Proof.
  intros Hw. destruct (no_wild_flags e Hw) as (Fs & Fd & Fsa & Fda). unfold match_ends, owner, peer. rewrite Fs, Fd, Fsa, Fda, !orb_false_r.
  cbn [negb orb]. rewrite !andb_true_iff, !IP6_EQ_iff, !Z.eqb_eq. naive_solver.
Qed.
Lemma goes_iff fin l4 e r : no_wild e -> goes fin (s_is e) r <->
  r = packet_rev fin (Some l4) (s_is e) /\
  match_conn (s_is e) (r =? 1) (fin_src6 fin) (fin_dst6 fin) true (htons be (fin_sport fin)) (ntohs be (fin_dport fin)) = true.
Proof.
  intros Hw. unfold packet_rev, goes, match_conn. cbn [ports_of]. rewrite bool_decide_true by by eexists.
  change (ntohs be) with (htons be). pose proof (match_rev_iff e (fin_dst6 fin) (htons be (fin_sport fin)) (htons be (fin_dport fin)) Hw) as Hr.
  unfold sender, receiver, owner, peer. destruct (match_rev _ _ _ _ _) eqn:Er; cbn [b2z].
  - assert (Hn : ~ (is_dst (s_is e) = fin_dst6 fin /\ htons be (fin_sport fin) = is_sport (s_is e) /\
      htons be (fin_dport fin) = is_dport (s_is e))) by (intros ?%Hr; done). clear Hr. split.
    + intros [(-> & Hs & Hd)|(-> & Hs & Hd & _)]; [exfalso; apply Hn; split_and!; congruence|].
      split; [done|]. by apply match_ends_iff.
    + intros [-> [Hd Hs]%(match_ends_iff _ _ _ _ _ Hw)]. right. split_and!; [done..|]. intros He. apply Hn.
      unfold owner, peer in *. split_and!; congruence.
  - destruct (proj1 Hr eq_refl) as (Ed & Es & Ep). split.
    + intros [(-> & Hs & Hd)|(-> & Hs & Hd & Hne)]; [split; [done|]; by apply match_ends_iff|].
      exfalso. apply Hne. congruence.
    + intros [-> [Hs Hd]%(match_ends_iff _ _ _ _ _ Hw)]. by left.
Qed.
Lemma land_agree a b m : Z.land a m = Z.land b m <-> forall n, 0 <= n -> Z.testbit m n = true -> Z.testbit a n = Z.testbit b n.
Proof.
  split.
  - intros He n Hn Hm. apply (f_equal (fun x => Z.testbit x n)) in He. by rewrite !Z.land_spec, Hm, !andb_true_r in He.
  - intros He. apply Z.bits_inj'. intros n Hn. rewrite !Z.land_spec. destruct (Z.testbit m n) eqn:Em; [|by rewrite !andb_false_r].
    by rewrite He.
Qed.
Lemma opts_match_iff fin e r : opts_match (tried fin) e r FI_CMP = true <->
  (let seen := idx r (idx (fin_out fin) (is_flx e)) in seen = 0 \/ forall n, 0 <= n -> Z.testbit FI_CMP n = true ->
      Z.testbit seen n = Z.testbit (fin_flx fin) n && negb (Z.testbit FI_OOW n)) /\
  Z.land (fi_optmsk (fin_fi fin)) (idx r (is_optmsk e)) = idx r (is_opt e) /\
  Z.land (fi_secmsk (fin_fi fin)) (is_secmsk e) = is_sec e /\ Z.land (fi_auth (fin_fi fin)) (is_authmsk e) = is_auth e.
Proof.
  unfold opts_match. change (fin_out (tried fin)) with (fin_out fin). change (fin_flx (tried fin)) with (clear (fin_flx fin) FI_OOW).
  cbv zeta. set (seen := idx r (idx (fin_out fin) (is_flx e))).
  rewrite negb_true_iff, !orb_false_iff, andb_false_iff, !negb_false_iff, !Z.eqb_eq.
  assert (Hl : Z.land (clear (fin_flx fin) FI_OOW) FI_CMP = Z.land seen FI_CMP <-> forall n, 0 <= n -> Z.testbit FI_CMP n = true ->
    Z.testbit seen n = Z.testbit (fin_flx fin) n && negb (Z.testbit FI_OOW n)).
  { rewrite land_agree. unfold clear. by setoid_rewrite Z.ldiff_spec; split; intros He n Hn Hm; symmetry; apply He. }
  rewrite Hl. change (fi_optmsk (fin_fi (tried fin))) with (fi_optmsk (fin_fi fin)).
  change (fi_secmsk (fin_fi (tried fin))) with (fi_secmsk (fin_fi fin)). change (fi_auth (fin_fi (tried fin))) with (fi_auth (fin_fi fin)).
  tauto.
Qed.
Lemma ifp_matches_iff mine ifp name : ifp_matches mine ifp name = true <-> mine = ifp \/ mine = None /\ nth 0 name 0 ∈ [0; 45; 42].
Proof.
  unfold ifp_matches, any_name. rewrite orb_true_iff, andb_true_iff, !bool_decide_eq_true, !orb_true_iff, !Z.eqb_eq.
  rewrite !elem_of_cons, elem_of_nil. tauto.
Qed.
Lemma belongs_iff (w : W) fin l4 x e t r : sw_states w !! x = Some e -> ents (sw_heap w) !! x = Some t -> no_wild e ->
  belongs w (tried fin) (Some l4) x = Some r <-> tqe_ifq t <> Some (ipf_state_deletetq cf) /\ in_conn fin e r.
Proof.
  intros He Ht Hw. unfold belongs. rewrite He, Ht. set (r0 := packet_rev _ _ _).
  assert (Hc : in_conn fin e r <-> r = r0 /\ connects (tried fin) (Some l4) e r = true).
  { unfold connects. cbn [ports_of]. rewrite bool_decide_true by by eexists. change (fin_ifp (tried fin)) with (fin_ifp fin).
    change (fin_out (tried fin)) with (fin_out fin). change (fin_src6 (tried fin)) with (fin_src6 fin). change (fin_dst6 (tried fin)) with (fin_dst6 fin).
    change (fin_sport (tried fin)) with (fin_sport fin). change (fin_dport (tried fin)) with (fin_dport fin). cbv zeta.
    rewrite !andb_true_iff, ifp_matches_iff, opts_match_iff. change (packet_rev (tried fin)) with (packet_rev fin) in r0.
    rewrite Z.shiftl_mul_pow2 by done. rewrite (Z.mul_comm _ (2 ^ 1)). change (2 ^ 1) with 2.
    pose proof (goes_iff fin l4 e r Hw) as Hg. fold r0 in Hg. split; [intros []; tauto|]. intros (? & (? & ?) & ? & ? & ? & ?).
    split; try done. tauto. }
  rewrite Hc. case_bool_decide; cbn [negb andb].
  - split; [done|]. by intros [? _].
  - destruct (connects (tried fin) (Some l4) e r0) eqn:Ec; split; [by intros [= <-]|by intros [_ [-> _]]|done|]. intros [_ [-> ?]]. congruence.
Qed.
(** The search: the first entry that owns the packet. *)
Lemma first_owner_split (w : W) fin l4 : forall l, (forall x, x ∈ l -> there w x) ->
  match first_owner w (tried fin) (Some l4) l with
  | Some (x, r) => exists l1 l2, l = l1 ++ x :: l2 /\ owns w fin x r /\ forall y r', y ∈ l1 -> ~ owns w fin y r'
  | None => forall y r', y ∈ l -> ~ owns w fin y r'
  end.
Proof.
  induction l as [|x l IH]; intros Hl; cbn [first_owner]; [by intros y r' ?%elem_of_nil|].
  destruct (Hl x) as (e & t & He & Ht & Hw); [by left|]. specialize (IH (fun y Hy => Hl y (list_elem_of_further y x l Hy))). rewrite He.
  assert (Hx : forall r, owns w fin x r <-> (is_p (s_is e) =? fin_p fin) && (is_v (s_is e) =? fin_v fin) = true /\
    belongs w (tried fin) (Some l4) x = Some r).
  { intros r. rewrite (belongs_iff w fin l4 x e t r He Ht Hw), andb_true_iff, !Z.eqb_eq. unfold owns. split; [|naive_solver].
    intros (e' & t' & He' & Ht' & ?). rewrite He in He'. rewrite Ht in Ht'. injection He' as <-. injection Ht' as <-. tauto. }
  change (fin_p (tried fin)) with (fin_p fin). change (fin_v (tried fin)) with (fin_v fin).
  assert (Hskip : (forall r, ~ owns w fin x r) -> match first_owner w (tried fin) (Some l4) l with
    | Some (y, r) => exists l1 l2, x :: l = l1 ++ y :: l2 /\ owns w fin y r /\ forall z r', z ∈ l1 -> ~ owns w fin z r'
    | None => forall y r', y ∈ x :: l -> ~ owns w fin y r' end).
  { intros Hn. destruct (first_owner _ _ _ l) as [[y r]|].
    - destruct IH as (l1 & l2 & -> & Ho & Hb). exists (x :: l1), l2. split_and!; [done..|]. intros z r' [->|?]%elem_of_cons; auto.
    - intros y r' [->|?]%elem_of_cons; auto. }
  destruct (_ && _); [|apply Hskip; intros r [? _]%Hx; done].
  destruct (belongs _ _ _ _) as [r|]; [|apply Hskip; intros r [_ ?]%Hx; done].
  exists [], l. split_and!; [done|by apply Hx|by intros y r' ?%elem_of_nil].
Qed.

(** C6. The lookup of a UDP packet that came by a known interface, when no entry of the
    table has a wildcard: it completes, and finds the first entry of the packet's bucket
    that owns the packet, if there is one: an entry of its protocol and version whose
    addresses and ports are the packet's, or the packet's exchanged, with the same
    interface, IP options and security label.  The direction is left in [fin_rev], and
    neither the chains nor the queues change. *)
Theorem lookup_udp (w : W) p icmp6err :
  table_ok cf w -> iss_wild w = 0 -> fin_p (sw_fin w) = IPPROTO_UDP -> fin_ifp (sw_fin w) = Some p ->
  let chain := sw_table w (udp_bucket (sw_fin w)) in
  (forall x e, x ∈ chain -> sw_states w !! x = Some e -> no_wild e) ->
  exists found w', ipf_state_lookup cf be icmp6err w = Some ((found, None), w') /\
    sw_table w' = sw_table w /\ sw_heap w' = sw_heap w /\
    match found with
    | Some x => exists l1 l2 r, chain = l1 ++ x :: l2 /\ owns w (sw_fin w) x r /\ fin_rev (sw_fin w') = r /\
        (forall y r', y ∈ l1 -> ~ owns w (sw_fin w) y r')
    | None => forall y r', y ∈ chain -> ~ owns w (sw_fin w) y r'
    end.
Proof.
  intros Ht H0 Hudp Hp chain Hw. destruct (lookup_udp_run w p icmp6err Ht H0 Hudp Hp Hw) as (w' & R & Hr & Et & Eh).
  pose proof (first_owner_split w (sw_fin w) (sw_l4 w) chain (chain_there w _ Ht Hw)) as Hf. fold chain in R, Hr.
  destruct (first_owner _ _ _ chain) as [[x r]|]; eexists _, w'; (split; [exact R|]; split_and!; try done).
  destruct Hf as (l1 & l2 & Hc & Ho & Hb). exists l1, l2, r. split_and!; try done. by apply Hr.
Qed.

(** ** Hash values *)

Definition sumZ (l : list Z) : Z := foldr Z.add 0 l.
Lemma sum32_sum l : forall hv, 0 <= hv < 2 ^ 32 -> sum32 hv l = u32 (hv + sumZ l).
Proof.
  induction l as [|x l IH]; intros hv Hhv; cbn [sum32 foldl sumZ foldr].
  - rewrite Z.add_0_r. by rewrite u32_id.
  - fold (sum32 (u32 (hv + x)) l). rewrite IH by apply u32_range. fold (sumZ l). rewrite u32_add_l. f_equal. lia.
Qed.
Lemma u32_range' x : 0 <= u32 x < 2 ^ 32.
Proof. apply u32_range. Qed.
Lemma sumZ_app l l' : sumZ (l ++ l') = sumZ l + sumZ l'.
Proof. induction l as [|x l IH]; cbn; [done|]. unfold sumZ in *. cbn in *. rewrite IH. lia. Qed.

(** The words that the hash value of a packet adds up, when it is not multicast. *)
Definition hash_words (fin : fr_info) : list Z :=
  if fin_v fin =? 6 then i6_words (fin_src6 fin) ++ i6_words (fin_dst6 fin) else [i60 (fin_src6 fin); i60 (fin_dst6 fin)].
Definition unicast (fin : fr_info) : Prop := v4_multi fin = false /\ fin_p fin <> IPPROTO_ICMPV6.
Lemma lookup_hash_unicast fin : unicast fin -> lookup_hash be fin = u32 (fin_p fin + sumZ (hash_words fin)).
Proof.
  intros [Hm Hp]. unfold lookup_hash, hash_words. rewrite Hm, (proj2 (Z.eqb_neq _ _) Hp). cbn [andb].
  destruct (fin_v fin =? 6).
  - rewrite !sum32_sum by (apply u32_range' || (rewrite ?sum32_sum by apply u32_range'; apply u32_range')).
    autorewrite with ipf_wrap. rewrite <- Z.add_assoc, u32_add_l. f_equal. cbn. lia.
  - rewrite sum32_sum by apply u32_range'. autorewrite with ipf_wrap. f_equal.
Qed.
Lemma add_hash_unicast fin flags : unicast fin -> add_hash be fin flags = (u32 (fin_p fin + sumZ (hash_words fin)), flags).
Proof.
  intros [Hm Hp]. unfold add_hash, hash_words. rewrite Hm, (proj2 (Z.eqb_neq _ _) Hp). cbn [andb].
  destruct (fin_v fin =? 6).
  - f_equal. rewrite !sum32_sum by (apply u32_range' || (rewrite ?sum32_sum by apply u32_range'; apply u32_range')).
    autorewrite with ipf_wrap. rewrite <- Z.add_assoc, u32_add_l. f_equal. cbn. lia.
  - f_equal. rewrite sum32_sum by apply u32_range'. autorewrite with ipf_wrap. f_equal.
Qed.

(** The packets of a connection, one way and the other. *)
Record answers (f g : fr_info) : Prop := {
  an_v : fin_v g = fin_v f; an_p : fin_p g = fin_p f;
  an_src : fin_src6 g = fin_dst6 f; an_dst : fin_dst6 g = fin_src6 f;
  an_sport : fin_sport g = fin_dport f; an_dport : fin_dport g = fin_sport f }.
Lemma hash_words_answer f g : answers f g -> sumZ (hash_words g) = sumZ (hash_words f).
Proof.
  intros [Hv _ Hs Hd _ _]. unfold hash_words. rewrite Hv, Hs, Hd. destruct (_ =? 6).
  - rewrite !sumZ_app. lia.
  - cbn. lia.
Qed.
Lemma answer_bucket f g : answers f g -> unicast f -> unicast g -> udp_bucket g = udp_bucket f.
Proof.
  intros Ha Hf Hg. unfold udp_bucket. rewrite (lookup_hash_unicast _ Hf), (lookup_hash_unicast _ Hg).
  rewrite !sum32_sum by apply u32_range'. rewrite (hash_words_answer _ _ Ha), (an_p _ _ Ha), (an_sport _ _ Ha), (an_dport _ _ Ha).
  f_equal. f_equal. cbn. lia.
Qed.

(** ** An entry and the answers to the packet that made it *)

(** The security label of the packet, as its 16-bit fields hold it. *)
Definition label_of (f : fr_info) (s a : Z) : Prop :=
  fi_secmsk (fin_fi f) = s /\ fi_auth (fin_fi f) = a /\ 0 <= s < 2 ^ 16 /\ 0 <= a < 2 ^ 16.
Lemma land_short x : 0 <= x < 2 ^ 16 -> Z.land x 0xffff = x.
Proof. intros Hx. change 0xffff with (Z.ones 16). rewrite Z.land_ones by done. by apply Z.mod_small. Qed.
(** The entry accepts answers that come by the packet's interface. *)
Definition accepts_ifp (e : ips) (g : fr_info) : bool :=
  let k := Z.shiftl (fin_out g) 1 + 1 in ifp_matches (at4 None k (is_ifp e)) (fin_ifp g) (at4 [] k (is_ifname e)).

Lemma answer_belongs (w : W) x e t f g s a pass l4 :
  sw_states w !! x = Some e -> ents (sw_heap w) !! x = Some t -> tqe_ifq t <> Some (ipf_state_deletetq cf) ->
  same_conn (udp_draft be f pass 0) e -> answers f g -> label_of f s a -> label_of g s a ->
  fin_src6 f <> fin_dst6 f -> accepts_ifp e g = true ->
  belongs w (tried g) (Some l4) x = Some 1.
Proof.
  intros He Ht Hq [Hp Hv Hs Hd Hsp Hdp Ho Hom Hsec Hsm Ha Ham Hw Hx] [Av Ap As Ad Asp Adp] (Fs & Fa & Rs & Ra) (Gs & Ga & _) Hne Hif.
  assert (Hr : packet_rev (tried g) (Some l4) (s_is e) = 1).
  { unfold packet_rev. cbn [ports_of]. unfold match_rev. rewrite Hd. change (is_dst (s_is (udp_draft be f pass 0))) with (fin_dst6 f).
    change (fin_dst6 (tried g)) with (fin_dst6 g). rewrite Ad. destruct (IP6_EQ (fin_dst6 f) (fin_src6 f)) eqn:Ei; [|done].
    apply IP6_EQ_eq in Ei. congruence. }
  unfold belongs. rewrite He, Ht, Hr, bool_decide_false by done. cbn [negb andb].
  replace (connects (tried g) (Some l4) e 1) with true; [done|]. symmetry. unfold connects. cbn [ports_of].
  change (fin_out (tried g)) with (fin_out g). change (fin_ifp (tried g)) with (fin_ifp g). cbv zeta. unfold accepts_ifp in Hif. rewrite Hif.
  cbn [andb]. change (1 =? 1) with true. apply andb_true_intro. split.
  - unfold match_conn, match_ends. rewrite Hs, Hd, Hsp, Hdp.
    change (fin_src6 (tried g)) with (fin_src6 g). change (fin_dst6 (tried g)) with (fin_dst6 g).
    change (fin_sport (tried g)) with (fin_sport g). change (fin_dport (tried g)) with (fin_dport g). rewrite As, Ad, Asp, Adp.
    change (is_dst (s_is (udp_draft be f pass 0))) with (fin_dst6 f). change (is_src (s_is (udp_draft be f pass 0))) with (fin_src6 f).
    change (is_sport (s_is (udp_draft be f pass 0))) with (htons be (fin_sport f)).
    change (is_dport (s_is (udp_draft be f pass 0))) with (htons be (fin_dport f)).
    rewrite !IP6_EQ_refl. change (ntohs be) with (htons be). by rewrite !Z.eqb_refl, !orb_true_r || rewrite !Z.eqb_refl.
  - unfold opts_match. rewrite Hx, Hom, Ho, Hsm, Hsec, Ham, Ha.
    replace (idx 1 (idx (fin_out (tried g)) (is_flx (udp_draft be f pass 0)))) with 0
      by (unfold idx at 2; by destruct (fin_out (tried g) =? 0)).
    change (idx 1 (is_optmsk (udp_draft be f pass 0))) with 0. change (idx 1 (is_opt (udp_draft be f pass 0))) with 0.
    change (is_secmsk (udp_draft be f pass 0)) with 0xffff. change (is_authmsk (udp_draft be f pass 0)) with 0xffff.
    change (is_sec (udp_draft be f pass 0)) with (fi_secmsk (fin_fi f)). change (is_auth (udp_draft be f pass 0)) with (fi_auth (fin_fi f)).
    change (fi_secmsk (fin_fi (tried g))) with (fi_secmsk (fin_fi g)). change (fi_auth (fin_fi (tried g))) with (fi_auth (fin_fi g)).
    rewrite Gs, Ga, Fs, Fa, Z.land_0_r, !land_short by done. by rewrite !Z.eqb_refl.
Qed.

(** C2. Adding and looking up: when [ipf_state_add] accepts a UDP packet between two hosts,
    the entry it makes is the one that the lookup finds for every packet of the answers
    (the addresses and the ports exchanged, the same security label) that comes by an
    interface the entry accepts, and the answer is seen as going backwards; whatever else
    was in the table. *)
Theorem answer_finds_entry (w w1 : W) F qa0 qa1 stsave s a :
  table_ok cf w -> (forall r, fin_fr (sw_fin w) = Some r -> rule_ok w r) ->
  ipf_state_deletetq cf <> ipf_state_udptq cf -> ipf_state_deletetq cf <> ipf_state_udpacktq cf ->
  let f := sw_fin w in
  fin_p f = IPPROTO_UDP -> unicast f -> label_of f s a -> fin_src6 f <> fin_dst6 f ->
  th_sport (sw_l4 w) = htons be (fin_sport f) -> th_dport (sw_l4 w) = htons be (fin_dport f) ->
  ipf_state_add cf be F qa0 qa1 stsave 0 w = Some (0, w1) ->
  exists x e, sw_states w1 !! x = Some e /\ forall g l4 p icmp6err,
    answers f g -> unicast g -> label_of g s a -> fin_ifp g = Some p -> accepts_ifp e g = true ->
    exists w2, ipf_state_lookup cf be icmp6err (w1 <| sw_fin := g |> <| sw_l4 := l4 |>) = Some ((Some x, None), w2) /\
      fin_rev (sw_fin w2) = 1 /\ sw_table w2 = sw_table w1.
Proof.
  intros Ht Hr Hq1 Hq2 f Hp Hu Hlab Hne Hsp Hdp Hadd.
  destruct (wlp_run _ _ _ _ _ (state_add_ok cf be _ F qa0 qa1 stsave 0 w (conj (proj1 (inv_none cf w) Ht) Hr)) Hadd) as [_ Hok].
  destruct (Hok eq_refl Hp) as (pass & x & d & [[T1 _] Htb (e & He & Hde) Hqu] & Hd). exists x, e. split; [done|].
  intros g l4 p err Hag Hug Hlg Hifp Hacc. fold f in Hd, Htb. rewrite (add_hash_unicast _ _ Hu) in Hd. cbn [snd] in Hd.
  pose proof (same_conn_trans _ _ _ Hd Hde) as Hc.
  destruct (Hqu (eq_trans (cn_p _ _ Hd) Hp) eq_refl) as (q & Hq & Hqc). unfold ifq_of in Hq.
  destruct (ents (sw_heap w1) !! x) as [t|] eqn:Et; [|done]. cbn in Hq. injection Hq as Hq.
  assert (Hbk : udp_add_hv cf be f (sw_l4 w) 0 mod ipf_state_size cf = udp_bucket g).
  { rewrite (answer_bucket _ _ Hag Hu Hug). unfold udp_add_hv, udp_bucket, hash_ports.
    rewrite (add_hash_unicast _ _ Hu), (lookup_hash_unicast _ Hu), Hsp, Hdp. change (has 0 SI_WILDP) with false.
    replace (sum32 (u32 (fin_p f + sumZ (hash_words f))) [htons be (fin_dport f); htons be (fin_sport f)])
      with (sum32 (u32 (fin_p f + sumZ (hash_words f))) [htons be (fin_sport f); htons be (fin_dport f)]).
    - unfold DOUBLE_HASH. by rewrite Z.mod_mod by (pose proof (tk_size cf _ _ _ _ _ T1); lia).
    - rewrite !sum32_sum by apply u32_range'. f_equal. cbn. lia. }
  rewrite Hbk in Htb. set (w2 := w1 <| sw_fin := g |> <| sw_l4 := l4 |>).
  assert (Hb : belongs w2 (tried g) (Some l4) x = Some 1).
  { eapply (answer_belongs w2); try done. rewrite Hq. intros [= ->]. by destruct Hqc. }
  assert (Hnw : no_wild e).
  { split; [exact (cn_wild _ _ Hc SI_WILDA (or_introl eq_refl))|exact (cn_wild _ _ Hc SI_WILDP (or_intror eq_refl))]. }
  assert (Hf : exists w3, find_tcpudp cf be (fin_p g) (fin_v g) (sw_table w2 (udp_bucket g)) 0 w2 = Some ((Some x, 0), w3) /\
    is_Some (sw_states w3 !! x) /\ sw_heap w3 = sw_heap w1 /\ fin_rev (sw_fin w3) = 1 /\ sw_table w3 = sw_table w1).
  { change (sw_table w2) with (sw_table w1). rewrite Htb. unfold upd_at. rewrite Z.eqb_refl. cbn [find_tcpudp].
    rewrite (bind_eq _ _ _ _ _ (st_run _ _ _ (He : sw_states w2 !! x = Some e))).
    rewrite (cn_p _ _ Hc), (cn_v _ _ Hc). change (is_p (s_is (udp_draft be f pass 0))) with (fin_p f).
    change (is_v (s_is (udp_draft be f pass 0))) with (fin_v f). rewrite (an_p _ _ Hag), (an_v _ _ Hag), !Z.eqb_refl. cbn [negb orb].
    pose proof (try_run l4 p w2 eq_refl Hifp w2 x e t (or_introl eq_refl) He Et Hnw) as Htry.
    change (sw_fin w2) with g in Htry. rewrite Hb in Htry. destruct Htry as [h Htry]. rewrite (bind_eq _ _ _ _ _ Htry). rewrite Hp.
    eexists. split; [done|]. split; [by apply alter_some; eexists|]. done. }
  destruct Hf as (w3 & Hf & [e3 He3] & Hh & Hrev & Htab). exists w3. split; [|done].
  eapply lookup_udp_found; [exact (eq_trans (an_p _ _ Hag) Hp)|exact Hf|exact He3|by rewrite Hh].
Qed.

(** An IPv4 multicast packet: the hash value under which an entry is made for it is
    that of its source, and the entry accepts every destination; the lookup takes the
    destination of a packet that comes in and the source of one that goes out. *)
Theorem multicast_hash (f : fr_info) flags : v4_multi f = true ->
  add_hash be f flags = (u32 (fin_p f + i60 (fin_src6 f)), Z.lor flags SI_W_DADDR) /\
  lookup_hash be f = u32 (fin_p f + i60 (if fin_out f =? 0 then fin_dst6 f else fin_src6 f)).
Proof.
  intros Hm. assert (H4 : (fin_v f =? 6) = false) by (unfold v4_multi in Hm; apply andb_prop in Hm as [Hv _]; breflect; lia).
  unfold add_hash, lookup_hash. rewrite Hm, H4. rewrite !sum32_sum by apply u32_range'. cbn [sumZ foldr]. autorewrite with ipf_wrap. rewrite <- !Z.add_sub_assoc, !u32_add_l.
  split; [do 2 f_equal; lia|]. case_match; f_equal; lia.
Qed.
End Lookup.

Section Pressure.
Context {E : Type} `{state_env E} (cf : stconf) (be : bool).
Abbreviation W := (stw E).

Lemma removed_active (D : list loc) (w w' : W) : table_ok cf w -> table_ok cf w' -> removed cf D w w' ->
  (forall x, x ∈ D -> in_table w x) -> 0 <= iss_active w' <= iss_active w.
Proof.
  intros Ht Ht' Dr HD. rewrite (tk_active cf _ _ _ _ _ Ht), (tk_active cf _ _ _ _ _ Ht').
  assert (Hl : (length (sw_list w') <= length (sw_list w))%nat); [|lia].
  apply submseteq_length, NoDup_submseteq; [apply (tk_nodup cf _ _ _ _ _ Ht')|]. intros x Hx.
  destruct (decide (x ∈ D)) as [Hd|Hd]; [|by apply (rm_list cf _ _ _ Dr x Hd)].
  destruct (HD x Hd) as [i Hi]. destruct (tk_chain cf _ _ _ _ _ Ht _ _ Hi) as (_ & _ & e & He & _).
  apply (tk_list cf _ _ _ _ _ Ht). split; [by eexists|done].
Qed.
Lemma queue_in_table (w : W) q l x : table_ok cf w -> table_queue cf q -> queue (sw_heap w) q l -> x ∈ l -> in_table w x.
Proof.
  intros Ht Hq Hl Hx. destruct (tk_queues cf _ _ _ _ _ Ht) as [Q HQ]. apply (qr_members _ _ _ _ _ HQ).
  destruct (proj1 (qr_fixed _ _ _ _ _ HQ q) Hq) as [l' Hl']. exists q, l'. split; [done|].
  by rewrite <- (queue_fun _ _ _ _ Hl (qr_rel _ _ _ _ _ HQ _ _ Hl')).
Qed.

(** C17. Making room with the default parameters: the table is called full at 4013 entries,
    but how full it is is measured against its 5737 buckets.  So while there are no more
    than 5220 entries (and there are no more than 4013, unless rules have a limit of their
    own, which replaces the table's), [ipf_state_flush] with 2 completes and never takes
    anything out but what waits on the queue of closed connections. *)
Theorem default_pressure (w : W) F proto l :
  table_ok cf w -> (92 + length (sw_list w) <= F)%nat ->
  ipf_state_size cf = IPSTATE_SIZE -> ipf_state_wm_low cf = 90 -> iss_active w <= 5220 ->
  queue (sw_heap w) (ipf_state_tcptq cf IPF_TCPS_CLOSED) l ->
  exists n w', ipf_state_flush cf F 2 proto w = Some (n, w') /\ table_ok cf w' /\
    (forall x, in_table w x -> x ∉ l -> in_table w' x).
Proof.
  intros Ht [HF H92]%(fuel_enough cf) Hs Hlow Ha Hl; [|done].
  destruct (state_flush_run cf F 2 proto w Ht HF H92 (ticks_range cf w Ht)) as (n & D & w' & R & T & Dr & _ & _ & D2 & D2' & _).
  exists n, w'. split; [done|]. split; [done|]. intros x Hx Hn.
  destruct (Z.le_gt_cases (u64 (sw_ticks w - sw_wm_last w)) (ipf_state_wm_freq cf)) as [Hy|Hy].
  { apply (removed_in_table cf _ _ _ x Dr). rewrite (D2' eq_refl Hy). split; [done|apply not_elem_of_nil]. }
  destruct (rm_enough _ _ _ _ _ _ _ _ _ (D2 eq_refl Hy) l Hl) as (w1 & T1 & G1 & He). apply He; [|done..].
  assert (Hb : 0 <= iss_active w1 <= iss_active w).
  { apply (removed_active l w w1 Ht T1 G1). intros y. by apply (queue_in_table w _ l y Ht (tcptq_queue cf IPF_TCPS_CLOSED ltac:(by split)) Hl). }
  change (tbl_active w1) with (iss_active w1). rewrite Hs, Hlow, u32_id by (unfold is_u32; lia). unfold IPSTATE_SIZE.
  transitivity (5220 * 100 / 5737); [|done]. apply Z.div_le_mono; lia.
Qed.
End Pressure.

Module Answer.
(** The answer to the packet that made the entry, on its way out by another interface. *)
Definition back : fr_info := Demo.udp 2 53 1 1000 <| fin_out := 1 |> <| fin_ifp := Some 51%positive |>.
Definition query : stw unit :=
  Eval vm_compute in Demo.comes (Demo.udp 1 1000 2 53) (Demo.udphdr (htons true 1000) (htons true 53)) Demo.start.
Definition added : stw unit := Eval vm_compute in Demo.run (ipf_state_add Demo.cf true 10 None None None 0) query.
Definition asked : stw unit := Eval vm_compute in Demo.comes back (Demo.udphdr 53 1000) added.
Lemma query_step : step Demo.cf true Demo.start query.
Proof. apply step_packet. destruct (tk_allocs _ _ _ _ _ _ Demo.start_table_ok) as [H1 H2]. by split. Qed.
Lemma query_ok : table_ok Demo.cf query.
Proof. eapply step_ok; [apply query_step|]. apply Demo.start_table_ok. Qed.
Lemma rule_ok : StateInv.rule_ok query 1%positive.
Proof. exists Demo.rule1. split; [by vm_compute|vm_compute; congruence]. Qed.
Lemma table_ok_added : table_ok Demo.cf added.
Proof.
  eapply (step_ok Demo.cf true); [|apply query_ok]. eapply (step_add _ _ _ 10 None None None 0 0); [|by vm_compute].
  intros r Hr. injection Hr as <-. apply rule_ok.
Qed.
Lemma asked_ok : table_ok Demo.cf asked.
Proof. eapply (step_ok Demo.cf true); [|apply table_ok_added]. apply step_packet. destruct (tk_allocs _ _ _ _ _ _ table_ok_added) as [H1 H2]. by split. Qed.
Lemma later_ok : table_ok Demo.cf (added <| sw_ticks := 5000 |>).
Proof.
  eapply (step_ok Demo.cf true); [|apply table_ok_added]. apply step_time; [done|]. intros q ttl Ht.
  assert (Hm : map_Forall (fun _ t => ifq_ttl t <= 864000) (qs (sw_heap added)))
    by (apply (bool_decide_unpack _); by vm_compute).
  unfold ttl_of in Ht. destruct (qs (sw_heap added) !! q) as [t|] eqn:Et; [|done]. injection Ht as <-.
  pose proof (map_Forall_lookup_1 _ _ _ _ Hm Et) as Hb. cbv beta in Hb. lia.
Qed.
End Answer.

Lemma lookup_udp_witness :
  exists l2 w', ipf_state_lookup Demo.cf true (mret None) Answer.asked = Some ((Some 100%positive, None), w') /\
    sw_table Answer.asked (udp_bucket Demo.cf true Answer.back) = 100%positive :: l2 /\ fin_rev (sw_fin w') = 1.
Proof.
  destruct (lookup_udp Demo.cf true Answer.asked 51%positive (mret None)) as (found & w' & R & _ & _ & Hf).
  - apply Answer.asked_ok.
  - reflexivity.
  - reflexivity.
  - reflexivity.
  - intros x e _ Hx. change (sw_states Answer.asked) with (sw_states Answer.added) in Hx. revert x e Hx.
    apply (bool_decide_unpack (map_Forall (fun _ e => no_wild e) (sw_states Answer.added))). by vm_compute.
  - assert (Hrun : fst <$> ipf_state_lookup Demo.cf true (mret None) Answer.asked = Some (Some 100%positive, None)) by by vm_compute.
    rewrite R in Hrun. injection Hrun as ->. exists [], w'. split; [exact R|]. split; [by vm_compute|].
    destruct Hf as (l1 & l2 & r & _ & Ho & -> & _). destruct Ho as (e & t & He & _ & _ & _ & _ & Hc).
    destruct (ic_goes _ _ _ _ Hc) as [(_ & Hs & _)|(-> & _)]; [|reflexivity]. exfalso.
    vm_compute in He. injection He as <-. vm_compute in Hs. discriminate.
Defined.
Lemma answer_finds_entry_witness : exists x w2,
  ipf_state_lookup Demo.cf true (mret None) (Answer.added <| sw_fin := Answer.back |> <| sw_l4 := Demo.udphdr 53 1000 |>) =
    Some ((Some x, None), w2) /\ fin_rev (sw_fin w2) = 1.
Proof.
  destruct (answer_finds_entry Demo.cf true Answer.query Answer.added 10 None None None 0 0) as (x & e & He & Hl).
  - apply Answer.query_ok.
  - intros r Hr. injection Hr as <-. apply Answer.rule_ok.
  - by vm_compute.
  - by vm_compute.
  - reflexivity.
  - by split; vm_compute.
  - by split; [|split].
  - discriminate.
  - reflexivity.
  - reflexivity.
  - by vm_compute.
  - destruct (Hl Answer.back (Demo.udphdr 53 1000) 51%positive (mret None)) as (w2 & R & Hr & _).
    + by split.
    + by split; vm_compute.
    + by split; [|split].
    + reflexivity.
    + assert (Hx : map_Forall (fun _ e => accepts_ifp e Answer.back = true) (sw_states Answer.added))
        by (apply (bool_decide_unpack _); by vm_compute). exact (Hx x e He).
    + exists x, w2. split; [exact R|exact Hr].
Defined.
Lemma multicast_hash_witness :
  let f := Demo.udp 1 1000 (0xe0000001 - 0x0a000000) 53 <| fin_fi ::= fun fi => fi <| fi_flx := FI_MULTICAST |> |> in
  lookup_hash true f = u32 (IPPROTO_UDP + 0xe0000001).
Proof. exact (proj2 (multicast_hash true (Demo.udp 1 1000 (0xe0000001 - 0x0a000000) 53 <| fin_fi ::= fun fi => fi <| fi_flx := FI_MULTICAST |> |>) 0 eq_refl)). Defined.
Lemma default_pressure_witness :
  exists n w', ipf_state_flush Demo.cf 100 2 0 (Answer.added <| sw_ticks := 5000 |>) = Some (n, w') /\ in_table w' 100%positive.
Proof.
  destruct (default_pressure Demo.cf (Answer.added <| sw_ticks := 5000 |>) 100 0 []) as (n & w' & R & _ & Hi).
  - apply Answer.later_ok.
  - vm_compute. lia.
  - reflexivity.
  - reflexivity.
  - vm_compute. discriminate.
  - eexists. split; [by vm_compute|split; [constructor|split; by vm_compute]].
  - exists n, w'. split; [exact R|]. apply Hi; [|apply not_elem_of_nil]. exists 5474. vm_compute. by left.
Defined.
