(* ===== verification/StateAdmin.v ===== *)
(** Changes to the state table at run time: the size of the table and the timeouts
    ([ipf_state_rehash], [ipf_state_settimeout], [ipf_state_add_tq] of ip_state.c). *)
From stdpp Require Import strings.
From S2P Require Import Prelude Packet Cksum Timeoutq TcpAge Queues Sweeps TcpWindow State StateLookup StateInv StateSteps StateTable.

Section Admin.
Context {E : Type} `{state_env E}.
Abbreviation W := (stw E).

(** ** The size of the table *)

Definition ENOMEM : Z := 12.
(** The variables of [ipf_state_softc_t] that change; [ipf_state_seed] is not made anew. *)
Definition resized (cf : stconf) (n : Z) : stconf :=
  mk_stconf n (ipf_state_max cf) (default_maxbucket n) (ipf_state_seed cf) (ipf_state_wm_freq cf) (ipf_state_wm_high cf)
    (ipf_state_wm_low cf) (ipf_state_logging cf) (ipf_state_tcptq cf) (ipf_state_deletetq cf) (ipf_state_pending cf)
    (ipf_state_udptq cf) (ipf_state_udpacktq cf) (ipf_state_iptq cf) (ipf_state_icmptq cf) (ipf_state_icmpacktq cf)
    (softc_ipf_flags cf).
(** The walk along the list of entries. *)
Fixpoint rehash_list (n : Z) (l : list loc) : ST W unit :=
  match l with
  | [] => mret tt
  | x :: l =>
      e ← st x;
      let hv := is_hv e mod n in
      t ← gets (fun w => sw_table w hv);
      when_ (bool_decide (t = [])) (modify (fun w => w <| iss_inuse ::= fun k => k + 1 |>));;
      upd_st x (fun e => e <| is_hashed := true |>);;
      modify (fun w => w <| sw_table ::= upd_at hv (cons x) |> <| iss_bucketlen ::= upd_at hv (fun k => k + 1) |>);;
      rehash_list n l
  end.
(** [ipf_state_rehash]; [mem1] and [mem2] say whether [KMALLOCS] has memory. *)
Definition ipf_state_rehash (cf : stconf) (n : Z) (mem1 mem2 : bool) : ST W (Z * stconf) :=
  if n =? ipf_state_size cf then mret (0, cf) else
  if negb mem1 || negb mem2 then mret (ENOMEM, cf) else
  modify (fun w => w <| sw_table := fun _ => [] |> <| iss_bucketlen := fun _ => 0 |> <| iss_inuse := 0 |>);;
  l ← gets sw_list;
  rehash_list n l;;
  mret (0, resized cf n).

(** ** Timeouts *)

(** [ipf_state_settimeout]; [cur] is the value of the tunable, the result has its new
    value. *)
Definition ipf_state_settimeout (cf : stconf) (fuel : nat) (name : string) (cur secs : Z) : ST W (Z * Z) :=
  let strcmp s := bool_decide (name = s) in
  let apply q := hp (ipf_apply_timeout fuel q secs);; mret (0, secs) in
  if cur =? secs then mret (0, cur)
  else if String.prefix "tcp_" name then r ← hp (ipf_settimeout_tcp fuel name secs (ipf_state_tcptq cf)); mret (r, cur)
  else if strcmp "udp_timeout"%string then apply (ipf_state_udptq cf)
  else if strcmp "udp_ack_timeout"%string then apply (ipf_state_udpacktq cf)
  else if strcmp "icmp_timeout"%string then apply (ipf_state_icmptq cf)
  else if strcmp "icmp_ack_timeout"%string then apply (ipf_state_icmpacktq cf)
  else if strcmp "ip_timeout"%string then apply (ipf_state_iptq cf)
  else mret (ESRCH, cur).
Definition ipf_state_add_tq (F : nat) (qalloc : option (loc * ipftq)) (ttl : Z) : ST W (option loc) :=
  hp (ipf_addtimeoutqueue F qalloc ttl).

(** ** What a new size does *)

Definition hv_of (w : W) (x : loc) : Z := match sw_states w !! x with Some e => is_hv e | None => 0 end.
(** The entries of a list that belong into a bucket. *)
Definition bound_for (w : W) (n i : Z) (l : list loc) : list loc := filter (fun x => hv_of w x mod n = i) l.

(** The table after the walk along a part of the list. *)
Record rehashed (w0 : W) (n : Z) (l : list loc) (w : W) : Prop := {
  rh_table : forall i, sw_table w i = reverse (bound_for w0 n i l);
  rh_len : forall i, iss_bucketlen w i = Z.of_nat (length (sw_table w i));
  rh_inuse : iss_inuse w = count (busy w) (seqZ 0 n);
  rh_list : sw_list w = sw_list w0;
  rh_heap : sw_heap w = sw_heap w0;
  rh_states : forall x, sw_states w !! x = (if bool_decide (x ∈ l) then (fun e => e <| is_hashed := true |>) <$> sw_states w0 !! x
                                            else sw_states w0 !! x) }.

Lemma bound_for_cons (w : W) n i x l :
  bound_for w n i (l ++ [x]) = bound_for w n i l ++ (if bool_decide (hv_of w x mod n = i) then [x] else []).
Proof.
  unfold bound_for. rewrite filter_app. f_equal. case_bool_decide; [by rewrite filter_cons_True|by rewrite filter_cons_False].
Qed.
Lemma rehash_list_run w0 n : 0 < n -> forall l l0 w, NoDup (l0 ++ l) -> (forall x, x ∈ l -> is_Some (sw_states w0 !! x)) ->
  rehashed w0 n l0 w -> exists w', rehash_list n l w = Some (tt, w') /\ rehashed w0 n (l0 ++ l) w'.
Proof.
  intros Hn. induction l as [|x l IH]; intros l0 w Hd Hl [H1 H2 H3 H4 H5 H6]; cbn [rehash_list].
  { exists w. split; [done|]. by rewrite app_nil_r. }
  destruct (Hl x) as [e He]; [by left|].
  assert (Hx : x ∉ l0) by (intros Hx; apply NoDup_app in Hd as (_ & Hd & _); apply (Hd x Hx); by left).
  assert (He1 : sw_states w !! x = Some e) by (by rewrite H6, bool_decide_false).
  rewrite (bind_eq _ _ _ _ _ (st_run _ _ _ He1)). cbv zeta. set (h := is_hv e mod n).
  assert (Hh : 0 <= h < n) by by apply Z.mod_pos_bound.
  assert (Hv : hv_of w0 x = is_hv e) by (unfold hv_of; by rewrite He).
  rewrite (bind_eq _ _ _ _ _ eq_refl).
  rewrite (bind_eq _ _ _ tt (w <| iss_inuse := iss_inuse w + b2z (bool_decide (sw_table w h = [])) |>)).
  2: { case_bool_decide; cbn; [done|]. destruct w. cbn. by rewrite Z.add_0_r. }
  erewrite bind_eq by (by apply (upd_st_run _ _ _ e)). rewrite (bind_eq _ _ _ _ _ eq_refl).
  set (w1 := _ <| sw_table ::= _ |> <| iss_bucketlen ::= _ |>).
  replace (l0 ++ x :: l) with ((l0 ++ [x]) ++ l) by by rewrite <- app_assoc.
  apply IH; [by rewrite <- app_assoc|intros y Hy; apply Hl; by right|].
  assert (Ht : forall i, sw_table w1 i = if i =? h then x :: sw_table w i else sw_table w i) by done.
  split.
  - intros i. rewrite Ht, bound_for_cons, reverse_app, H1.
    destruct (Z.eqb_spec i h) as [->|Hi]; [rewrite bool_decide_true by (by rewrite Hv); done|rewrite bool_decide_false; [done|]].
    rewrite Hv. by intros <-.
  - intros i. rewrite Ht. unfold w1. cbn. unfold upd_at. rewrite H2. destruct (i =? h); cbn [length]; lia.
  - unfold w1. cbn. rewrite H3. rewrite (count_upd (busy w) (busy w1) _ h); [|apply NoDup_seqZ|by apply seqZ_mem|].
    + unfold busy. rewrite Ht, Z.eqb_refl. case_bool_decide; cbn; lia.
    + intros i Hi. unfold busy. by rewrite Ht, (proj2 (Z.eqb_neq _ _) Hi).
  - done.
  - done.
  - intros y. unfold w1. cbn. destruct (decide (y = x)) as [->|Hy].
    + rewrite lookup_alter_eq, He1, He, bool_decide_true; [done|]. apply elem_of_app. right. by left.
    + rewrite lookup_alter_ne by congruence. rewrite H6. case_bool_decide as Hy1; case_bool_decide as Hy2; try done.
      * destruct Hy2. apply elem_of_app. by left.
      * apply elem_of_app in Hy2 as [?|Hy2]; [done|]. apply list_elem_of_singleton in Hy2. done.
Qed.

(** C18. A new size for the table of a well-formed state: [ipf_state_rehash] completes; every
    entry of the list, the orphans that wait to be given up among them, is in the bucket
    of its old hash value, once, and the numbers of entries per bucket and of used buckets
    are right.  The hash value in the entry is not changed, so that an entry whose value is
    not below the new size is in a bucket other than the one it names, and the table is not
    well-formed any more. *)
Theorem rehash_table (cf : stconf) n (w : W) : table_ok cf w -> 0 < n -> n <> ipf_state_size cf ->
  exists w', ipf_state_rehash cf n true true w = Some ((0, resized cf n), w') /\ rehashed w n (sw_list w) w' /\
    (forall x e, x ∈ sw_list w -> sw_states w !! x = Some e -> n <= is_hv e ->
      x ∈ sw_table w' (is_hv e mod n) /\ ~ table_ok (resized cf n) w').
Proof.
  intros Ht Hn Hs. unfold ipf_state_rehash. rewrite (proj2 (Z.eqb_neq _ _) Hs). cbn [negb orb].
  set (w1 := w <| sw_table := fun _ => [] |> <| iss_bucketlen := fun _ => 0 |> <| iss_inuse := 0 |>).
  rewrite (bind_eq _ _ _ tt w1 eq_refl), (bind_eq _ _ _ _ _ eq_refl).
  destruct (rehash_list_run w n Hn (sw_list w) [] w1) as (w' & R & Hr).
  - apply (tk_nodup cf _ _ _ _ _ Ht).
  - intros x Hx. by apply (tk_list cf _ _ _ _ _ Ht) in Hx as [? _].
  - split; try done. unfold w1. cbn. induction (seqZ 0 n) as [|i l IH]; [done|]. by rewrite count_cons, <- IH.
  - change (sw_list w1) with (sw_list w). rewrite (bind_eq _ _ _ tt w') by exact R. exists w'. split; [done|]. split; [exact Hr|].
    intros x e Hx He Hhv.
    assert (Hin : x ∈ sw_table w' (is_hv e mod n)).
    { rewrite (rh_table _ _ _ _ Hr). apply elem_of_reverse, list_elem_of_filter. unfold hv_of. by rewrite He. }
    split; [done|]. intros Ht'. destruct (tk_chain _ _ _ _ _ _ Ht' _ _ Hin) as (Hb & _ & e' & He' & Hhv').
    rewrite (rh_states _ _ _ _ Hr), bool_decide_true, He in He' by done. injection He' as <-. cbn in Hhv', Hb. lia.
Qed.
End Admin.

Lemma rehash_table_witness : exists w', ipf_state_rehash Demo.cf 100 true true Demo.added = Some ((0, resized Demo.cf 100), w') /\
  100%positive ∈ sw_table w' 74 /\ ~ table_ok (resized Demo.cf 100) w'.
Proof.
  destruct (rehash_table Demo.cf 100 Demo.added Idle.added_ok) as (w' & R & _ & Hl); [done|by vm_compute|].
  assert (He : exists e, sw_states Demo.added !! 100%positive = Some e /\ is_hv e = 5474) by (eexists; by split; [by vm_compute|]).
  destruct He as (e & He & Hv). destruct (Hl 100%positive e) as [Hx Hn]; [vm_compute; by left|done|rewrite Hv; lia|].
  exists w'. split; [exact R|]. rewrite Hv in Hx. split; [exact Hx|exact Hn].
Defined.

(** After the new size the answer to the packet that made the entry finds nothing. *)
Lemma rehash_loses_entry : (fst <$> (r ← ipf_state_rehash Demo.cf 7000 true true Answer.asked;
    ipf_state_lookup (snd (fst r)) true (mret None) (snd r))) = Some (None, None).
Proof. by vm_compute. Qed.
(** A tunable of TCP keeps its value when it is set, so that setting it to that value again
    does nothing. *)
Lemma tcp_timeout_sticks : exists w', ipf_state_settimeout Demo.cf 10 "tcp_closed" 60 30 Demo.added = Some ((0, 60), w') /\
  ipf_state_settimeout Demo.cf 10 "tcp_closed" 60 60 w' = Some ((0, 60), w') /\
  ttl_of (sw_heap w') (ipf_state_tcptq Demo.cf IPF_TCPS_CLOSED) = Some (IPF_TTLVAL 30).
Proof. eexists. split; [by vm_compute|]. split; by vm_compute. Qed.
