(* ===== verification/NatTable.v ===== *)
(** The NAT table of ip_nat.c for IPv4: sessions with their two hash chains and the
    list of all, host maps, rules; how a session enters and leaves the table, and how
    it is found from a packet.

    Sessions, host maps and rules live on heaps.  A hash chain, or the list of all
    sessions, is the sequence met by following [nat_hnext] or [nat_next].  The timeout
    entry inside a session has the location of the session, on the heap of Timeoutq.v.
    An address ([s_addr]) is the 32-bit object in memory, which the code converts with
    [ntohl]; a port in a session is in network order.  Counters that only statistics
    read are left out, as is [nat_mtu]. *)
From S2P Require Import Prelude Packet Cksum Filter Timeoutq TcpAge Queues Sweeps TcpWindow State StateLookup.

(** ** Constants *)

Definition NAT_INBOUND : Z := 0.
Definition NAT_OUTBOUND : Z := 1.
Definition NAT_DIVERTIN : Z := 4.
Definition NAT_DIVERTOUT : Z := 5.

Definition NAT_MAP : Z := 0x01.
Definition NAT_REDIRECT : Z := 0x02.
Definition NAT_BIMAP : Z := Z.lor NAT_MAP NAT_REDIRECT.
Definition NAT_MAPBLK : Z := 0x04.
Definition NAT_REWRITE : Z := 0x08.
Definition NAT_DIVERTUDP : Z := 0x20.

Definition IPN_TCP : Z := 0x00001.
Definition IPN_UDP : Z := 0x00002.
Definition IPN_TCPUDP : Z := Z.lor IPN_TCP IPN_UDP.
Definition IPN_ICMPERR : Z := 0x00004.
Definition IPN_ICMPQUERY : Z := 0x00008.
Definition IPN_TCPUDPICMP : Z := Z.lor IPN_TCPUDP IPN_ICMPQUERY.
Definition IPN_AUTOPORTMAP : Z := 0x00010.
Definition IPN_FILTER : Z := 0x00020.
Definition IPN_SPLIT : Z := 0x00040.
Definition IPN_ROUNDR : Z := 0x00080.
Definition IPN_SIPRANGE : Z := 0x00100.
Definition IPN_NOTSRC : Z := 0x00400.
Definition IPN_NOTDST : Z := 0x00800.
Definition IPN_NO : Z := 0x01000.
Definition IPN_DELETE : Z := 0x08000.
Definition IPN_RF : Z := Z.lor (Z.lor IPN_TCPUDP IPN_DELETE) IPN_ICMPERR.
Definition IPN_STICKY : Z := 0x10000.
Definition IPN_FIXEDDPORT : Z := 0x80000.
Definition IPN_SEQUENTIAL : Z := 0x400000.
Definition IPN_PROXYRULE : Z := 0x1000000.

(** The low bits of [nat_flags]. *)
Definition NAT_SEARCH : Z := 0x0010.
Definition NAT_SLAVE : Z := 0x0020.
Definition NAT_NOTRULEPORT : Z := 0x0040.
Definition NAT_TCPUDP : Z := IPN_TCPUDP.
Definition NAT_FROMRULE : Z := IPN_TCPUDP.

Definition NL_NEW : Z := 0.
Definition NL_CLONE : Z := 1.
Definition NL_DESTROY : Z := 0xfffd.
Definition NL_EXPIRE : Z := 0xffff.
Definition MAPBLK_MINPORT : Z := 1024.

(** ** Data *)

(** [nat_t].  [nat_listed] says that [nat_pnext] is not null; [nat_me] is the variable
    that it points at.  The ports are the fields of [tcpinfo_t]; the identifier of an
    ICMP session overlays them (see [nat_oicmpid]). *)
Record natt := mk_natt {
  nat_listed : bool; nat_hm : option loc; nat_me : option loc; nat_aps : option loc; nat_fr : option loc;
  nat_ptr : option loc; nat_ifp0 : option loc; nat_ifp1 : option loc; nat_ifname0 : list Z; nat_ifname1 : list Z;
  nat_sync : option loc; nat_flags : Z; nat_sumd0 : Z; nat_sumd1 : Z; nat_ipsumd : Z; nat_mssclamp : Z;
  nat_osrcaddr : Z; nat_odstaddr : Z; nat_nsrcaddr : Z; nat_ndstaddr : Z;
  nat_osport : Z; nat_odport : Z; nat_nsport : Z; nat_ndport : Z;
  nat_pkts : Z * Z; nat_bytes : Z * Z; nat_pr0 : Z; nat_pr1 : Z; nat_dir : Z; nat_ref : Z;
  nat_hv0 : Z; nat_hv1 : Z; nat_rev : Z; nat_dlocal : Z; nat_v0 : Z; nat_v1 : Z; nat_redir : Z }.
#[export] Instance eta_natt : Eta natt := fun r =>
  mk_natt (nat_listed r) (nat_hm r) (nat_me r) (nat_aps r) (nat_fr r) (nat_ptr r) (nat_ifp0 r) (nat_ifp1 r)
    (nat_ifname0 r) (nat_ifname1 r) (nat_sync r) (nat_flags r) (nat_sumd0 r) (nat_sumd1 r) (nat_ipsumd r)
    (nat_mssclamp r) (nat_osrcaddr r) (nat_odstaddr r) (nat_nsrcaddr r) (nat_ndstaddr r) (nat_osport r)
    (nat_odport r) (nat_nsport r) (nat_ndport r) (nat_pkts r) (nat_bytes r) (nat_pr0 r) (nat_pr1 r) (nat_dir r)
    (nat_ref r) (nat_hv0 r) (nat_hv1 r) (nat_rev r) (nat_dlocal r) (nat_v0 r) (nat_v1 r) (nat_redir r).

(** [hostmap_t]. *)
Record hostmap := mk_hostmap {
  hm_ipnat : loc; hm_osrcip : Z; hm_odstip : Z; hm_nsrcip : Z; hm_ndstip : Z; hm_port : Z; hm_ref : Z;
  hm_hv : Z; hm_v : Z }.
#[export] Instance eta_hostmap : Eta hostmap := fun r =>
  mk_hostmap (hm_ipnat r) (hm_osrcip r) (hm_odstip r) (hm_nsrcip r) (hm_ndstip r) (hm_port r) (hm_ref r)
    (hm_hv r) (hm_v r).

(** How an address of a rule is compared: with a mask, by a lookup table, or not at all. *)
Inductive na_atype := Na_normal | Na_lookup (table : loc) | Na_other.

(** [ipnat_t].  [in_nsrcptr] and [in_ndstptr] are lists of destinations; [in_ifname1] is the string that [in_ifnames[1]] refers to,
    when it is not -1. *)
Record ipnat := mk_ipnat {
  in_tqehead : option loc * option loc; in_ifp0 : option loc; in_ifp1 : option loc; in_apr : option loc;
  in_ifname1 : option (list Z); in_space : Z; in_hits : Z; in_use : Z; in_dlocal : Z; in_dpnext : Z; in_spnext : Z;
  in_v0 : Z; in_v1 : Z; in_flags : Z; in_mssclamp : Z; in_redir : Z; in_pr0 : Z; in_pr1 : Z;
  in_ndstaddr : Z; in_ndstmsk : Z; in_dnip : Z; in_ndstptr : option loc;
  in_nsrcaddr : Z; in_nsrcmsk : Z; in_snip : Z; in_nsrcptr : option loc;
  in_osrcatype : na_atype; in_osrcaddr : Z; in_osrcmsk : Z;
  in_odstatype : na_atype; in_odstaddr : Z; in_odstmsk : Z;
  in_tuc : frtuc; in_ppip : Z; in_ippip : Z; in_dpmin : Z; in_dpmax : Z; in_spmin : Z; in_spmax : Z;
  in_plabel : Z; in_tag : list Z }.
#[export] Instance eta_ipnat : Eta ipnat := fun r =>
  mk_ipnat (in_tqehead r) (in_ifp0 r) (in_ifp1 r) (in_apr r) (in_ifname1 r) (in_space r) (in_hits r) (in_use r)
    (in_dlocal r) (in_dpnext r) (in_spnext r) (in_v0 r) (in_v1 r) (in_flags r) (in_mssclamp r) (in_redir r)
    (in_pr0 r) (in_pr1 r) (in_ndstaddr r) (in_ndstmsk r) (in_dnip r) (in_ndstptr r) (in_nsrcaddr r) (in_nsrcmsk r)
    (in_snip r) (in_nsrcptr r) (in_osrcatype r) (in_osrcaddr r) (in_osrcmsk r) (in_odstatype r)
    (in_odstaddr r) (in_odstmsk r) (in_tuc r) (in_ppip r) (in_ippip r) (in_dpmin r) (in_dpmax r)
    (in_spmin r) (in_spmax r) (in_plabel r) (in_tag r).
Definition in_odport (r : ipnat) : Z := frp_port (ftu_dst (in_tuc r)).
Definition in_dtop (r : ipnat) : Z := frp_top (ftu_dst (in_tuc r)).

(** [ipf_v4_masktab_t]. *)
Record masktab := mk_masktab { imt4_active : list Z; imt4_masks : list Z; imt4_max : Z }.
#[export] Instance eta_masktab : Eta masktab := fun r => mk_masktab (imt4_active r) (imt4_masks r) (imt4_max r).

(** The variables of [ipf_nat_softc_t] that packets do not change, and the addresses of
    its timeout queues. *)
Record natconf := mk_natconf {
  ipf_nat_table_sz : Z; ipf_nat_maxbucket : Z; ipf_nat_hostmap_sz : Z; ipf_nat_maprules_sz : Z;
  ipf_nat_rdrrules_sz : Z; ipf_nat_table_wm_high : Z; ipf_nat_logging : Z; ipf_nat_tcptq : Z -> loc;
  ipf_nat_udptq : loc; ipf_nat_udpacktq : loc; ipf_nat_icmptq : loc; ipf_nat_icmpacktq : loc; ipf_nat_iptq : loc;
  ipf_nat_pending : loc; ipf_nat_table_wm_low : Z }.

(** The rest: the sessions, the two tables (0: packets going out, 1: packets coming in),
    the counters that decisions depend on, host maps, rules by hash bucket, the filter
    rules that sessions refer to (with their reference counts), the packet under
    consideration (its bytes are [nw_buf]), the state of what is called, and what the
    calls of [KMALLOC] will return. *)
Record natw (E : Type) := mk_natw {
  nw_heap : tqheap; nw_nats : gmap loc natt; nw_table0 : Z -> list loc; nw_table1 : Z -> list loc;
  nw_instances : list loc; ns_bucketlen0 : Z -> Z; ns_bucketlen1 : Z -> Z; ns_active : Z; ns_wilds : Z; ns_rules : Z;
  nw_hms : gmap loc hostmap; nw_hmtable : Z -> list loc; nw_hmlist : list loc;
  nw_rules : gmap loc ipnat; nw_maprules : Z -> list loc; nw_rdrrules : Z -> list loc;
  nw_map_mask : masktab; nw_rdr_mask : masktab; nw_saved : gmap loc (option loc); nw_frs : gmap loc Z;
  nw_ticks : Z; nw_lock : Z; nw_doflush : Z; nw_last_flush : Z; nw_list : list loc; nw_table_max : Z; nw_fin : fr_info; nw_pktnum : Z; nw_buf : list Z;
  nw_ext : E; nw_allocs : list (option loc) }.
Arguments mk_natw {_}.
Arguments nw_heap {_}.
Arguments nw_nats {_}.
Arguments nw_table0 {_}.
Arguments nw_table1 {_}.
Arguments nw_instances {_}.
Arguments ns_bucketlen0 {_}.
Arguments ns_bucketlen1 {_}.
Arguments ns_active {_}.
Arguments ns_wilds {_}.
Arguments ns_rules {_}.
Arguments nw_hms {_}.
Arguments nw_hmtable {_}.
Arguments nw_hmlist {_}.
Arguments nw_rules {_}.
Arguments nw_maprules {_}.
Arguments nw_rdrrules {_}.
Arguments nw_map_mask {_}.
Arguments nw_rdr_mask {_}.
Arguments nw_saved {_}.
Arguments nw_frs {_}.
Arguments nw_ticks {_}.
Arguments nw_lock {_}.
Arguments nw_doflush {_}.
Arguments nw_last_flush {_}.
Arguments nw_list {_}.
Arguments nw_table_max {_}.
Arguments nw_fin {_}.
Arguments nw_pktnum {_}.
Arguments nw_buf {_}.
Arguments nw_ext {_}.
Arguments nw_allocs {_}.
#[export] Instance eta_natw {E} : Eta (natw E) := fun w =>
  mk_natw (nw_heap w) (nw_nats w) (nw_table0 w) (nw_table1 w) (nw_instances w) (ns_bucketlen0 w) (ns_bucketlen1 w)
    (ns_active w) (ns_wilds w) (ns_rules w) (nw_hms w) (nw_hmtable w) (nw_hmlist w) (nw_rules w) (nw_maprules w)
    (nw_rdrrules w) (nw_map_mask w) (nw_rdr_mask w) (nw_saved w) (nw_frs w) (nw_ticks w) (nw_lock w) (nw_doflush w)
    (nw_last_flush w) (nw_list w) (nw_table_max w) (nw_fin w) (nw_pktnum w) (nw_buf w) (nw_ext w) (nw_allocs w).

(** What the NAT code calls.  Interfaces, logging, synchronisation, random numbers, the
    fragment cache and the lookup tables have a state [E] of their own; proxies, ICMP
    errors, rewriting and diverting rules may change everything. *)
Class nat_env (E : Type) := {
  nenv_resolvenic : E -> list Z -> option loc;
  (** [COPYIFNAME]: the name of an interface. *)
  nenv_ifname : E -> loc -> list Z;
  (** [ipf_ifpaddr]: the address of an interface. *)
  nenv_ifpaddr : E -> option loc -> option Z;
  nenv_random : E -> Z * E;
  nenv_sync_new : loc -> fr_info -> E -> option loc * E;
  nenv_sync_update : option loc -> fr_info -> E -> E;
  nenv_sync_del : loc -> E -> E;
  nenv_log : loc -> Z -> E -> E;
  nenv_frag_natnew : fr_info -> loc -> E -> E;
  nenv_frag_natknown : fr_info -> E -> option loc * E;
  nenv_frag_natforget : loc -> E -> E;
  (** A lookup table asked about an address; giving it up. *)
  nenv_lookup : E -> loc -> Z -> Z -> Z;
  nenv_lookup_deref : loc -> E -> E;
  nenv_matchtag : E -> list Z -> loc -> bool;
  nenv_fr_ifp : E -> loc -> Z -> option loc;
  nenv_proxy_match : loc -> ST (natw E) Z;
  nenv_proxy_new : loc -> ST (natw E) Z;
  nenv_proxy_ok : loc -> ST (natw E) Z;
  nenv_proxy_check : loc -> ST (natw E) Z;
  nenv_proxy_free : loc -> ST (natw E) unit;
  nenv_proxy_deref : loc -> ST (natw E) unit;
  (** [ipf_nat_icmperror]: the session, and the flags it leaves. *)
  nenv_icmperror : Z -> Z -> ST (natw E) (option loc * Z);
  (** [ipf_nat_newdivert], [ipf_nat_newrewrite]: the result, and the rule to go on with. *)
  nenv_newdivert : loc -> loc -> ST (natw E) (Z * loc);
  nenv_newrewrite : loc -> loc -> ST (natw E) (Z * loc);
  (** A packet of a session that diverts: how the translation ends, or the flags to go on with. *)
  nenv_divert : Z -> loc -> Z -> ST (natw E) (Z + Z) }.

(** ** Byte order and hash values *)

(** [ntohl], and 32-bit objects in a buffer. *)
Definition bswap32 (x : Z) : Z := swap16 (x mod 65536) * 65536 + swap16 (x / 65536).
Definition ntohl (be : bool) (x : Z) : Z := if be then u32 x else bswap32 (u32 x).
Definition htonl (be : bool) (x : Z) : Z := ntohl be x.
(** [~x] of a 32-bit object. *)
Definition not32 (x : Z) : Z := u32 (Z.lnot x).

Definition NAT_HASH_FN (k l m : Z) : Z := u32 (k + Z.shiftr k 12 + l) mod m.

(** The 16-bit identifier overlays the first two bytes of the 32-bit port. *)
Definition nat_oicmpid (be : bool) (n : natt) : Z := if be then Z.shiftr (nat_osport n) 16 else u16 (nat_osport n).
Definition nat_nicmpid (be : bool) (n : natt) : Z := if be then Z.shiftr (nat_nsport n) 16 else u16 (nat_nsport n).
Definition set_id (be : bool) (v old : Z) : Z :=
  if be then Z.lor (Z.land old 0xffff) (Z.shiftl v 16) else Z.lor (clear old 0xffff) v.

(** [count4bits] of fil.c. *)
Fixpoint leading (n : nat) (ipn : Z) : Z :=
  match n with
  | O => 0
  | S n => if has ipn 0x80000000 then 1 + leading n (u32 (ipn * 2)) else 0
  end.
Fixpoint ones_then (n : nat) (j ipn : Z) : Z :=
  match n with
  | O => ipn
  | S n => ones_then n (j - 1) (u32 (u32 (ipn * 2) + b2z (j >? 0)))
  end.
Definition count4bits (be : bool) (ip : Z) : Z :=
  let cnt := leading 32 (ntohl be ip) in
  if ones_then 32 cnt 0 =? ntohl be ip then cnt else -1.

(** [ipf_inet_mask_add] and [ipf_inet_mask_del] of fil.c; a shift by the width of the
    operand and an index below zero have no value. *)
Definition netmask (bits : Z) : Z := if bits =? 0 then 0 else u32 (Z.shiftl 0xffffffff (32 - bits)).
Fixpoint insert_mask (be : bool) (mask : Z) (l : list Z) : list Z :=
  match l with
  | [] => []
  | a :: r => if ntohl be a <? mask then htonl be mask :: removelast (a :: r) else a :: insert_mask be mask r
  end.
Definition ipf_inet_mask_add (be : bool) (bits : Z) (t : masktab) : option masktab :=
  if bits <? 0 then None else
  let n := at4 0 bits (imt4_masks t) + 1 in
  let t := t <| imt4_masks ::= set4 bits n |> in
  if n >? 1 then Some t
  else Some (t <| imt4_active ::= insert_mask be (netmask bits) |> <| imt4_max ::= fun m => m + 1 |>).
Fixpoint remove_mask (mask : Z) (l : list Z) : list Z :=
  match l with
  | [] => []
  | a :: r => if a =? mask then r ++ [List.last r a] else a :: remove_mask mask r
  end.
Definition ipf_inet_mask_del (be : bool) (bits : Z) (t : masktab) : option masktab :=
  if bits <? 0 then None else
  let n := at4 0 bits (imt4_masks t) - 1 in
  let t := t <| imt4_masks ::= set4 bits n |> in
  if n >? 0 then Some t
  else if bits =? 0 then None
  else Some (t <| imt4_active ::= remove_mask (htonl be (netmask bits)) |> <| imt4_max ::= fun m => m - 1 |>).

Definition nhp {E A} (m : ST tqheap A) : ST (natw E) A := fun w =>
  '(a, h) ← m (nw_heap w); Some (a, w <| nw_heap := h |>).
#[export] Instance queued_nat {E} : queued (natw E) := {
  on_queues := @nhp E; tbl_heap := nw_heap; tbl_ticks := nw_ticks; tbl_active := ns_active }.

Section Table.
Context {E : Type} `{nat_env E} (cf : natconf) (be : bool).
Abbreviation W := (natw E).

(** ** Access *)

Definition nst (x : loc) : ST W natt := fun w => e ← nw_nats w !! x; Some (e, w).
Definition upd_nat (x : loc) (f : natt -> natt) : ST W unit := fun w =>
  _ ← nw_nats w !! x; Some (tt, w <| nw_nats ::= alter f x |>).
Definition rule (r : loc) : ST W ipnat := fun w => e ← nw_rules w !! r; Some (e, w).
Definition upd_rule (r : loc) (f : ipnat -> ipnat) : ST W unit := fun w =>
  _ ← nw_rules w !! r; Some (tt, w <| nw_rules ::= alter f r |>).
Definition hmst (x : loc) : ST W hostmap := fun w => e ← nw_hms w !! x; Some (e, w).
Definition upd_hm (x : loc) (f : hostmap -> hostmap) : ST W unit := fun w =>
  _ ← nw_hms w !! x; Some (tt, w <| nw_hms ::= alter f x |>).
Definition next {A} (f : E -> A * E) : ST W A := fun w =>
  let '(a, e) := f (nw_ext w) in Some (a, w <| nw_ext := e |>).
Definition next_ (f : E -> E) : ST W unit := modify (fun w => w <| nw_ext ::= f |>).
Definition nkmalloc : ST W (option loc) := fun w =>
  match nw_allocs w with
  | [] => Some (None, w)
  | a :: l => Some (a, w <| nw_allocs := l |>)
  end.
Definition upd_nfin (f : fr_info -> fr_info) : ST W unit := modify (fun w => w <| nw_fin ::= f |>).
(** [fin->fin_data[0]] and [fin->fin_data[1]]. *)
Definition set_data (sp dp : Z) (fin : fr_info) : fr_info :=
  fin <| fin_fi ::= fun fi => fi <| fi_ports0 := sp |> <| fi_ports1 := dp |> |>.

(** ** Rules and host maps *)

(** [ipf_nat_rule_fini]. *)
Definition deref_atype (a : na_atype) : ST W unit :=
  match a with Na_lookup t => next_ (nenv_lookup_deref t) | _ => mret tt end.
Definition deref_ptr (p : option loc) : ST W unit :=
  match p with Some t => next_ (nenv_lookup_deref t) | None => mret tt end.
Definition ipf_nat_rule_fini (r : ipnat) : ST W unit :=
  deref_atype (in_odstatype r);; deref_atype (in_osrcatype r);; deref_ptr (in_ndstptr r);; deref_ptr (in_nsrcptr r).

(** What becomes of the queues of the rule: both times it is the second that is freed. *)
Definition drop_rule_queue (q other : option loc) : ST W unit :=
  match q with
  | Some q => n ← nhp (ipf_deletetimeoutqueue q);
              when_ (n =? 0) (o ← need other; nhp (ipf_freetimeoutqueue o))
  | None => mret tt
  end.
Definition ipf_nat_rule_deref (r : loc) : ST W unit :=
  upd_rule r (fun n => n <| in_use ::= fun u => u - 1 |>);;
  n ← rule r;
  if in_use n >? 0 then mret tt else
  match in_apr n with Some a => nenv_proxy_deref a | None => mret tt end;;
  ipf_nat_rule_fini n;;
  drop_rule_queue (fst (in_tqehead n)) (snd (in_tqehead n));;
  drop_rule_queue (snd (in_tqehead n)) (snd (in_tqehead n));;
  when_ (negb (has (in_flags n) IPN_PROXYRULE)) (modify (fun w => w <| ns_rules ::= fun k => k - 1 |>));;
  modify (fun w => w <| nw_rules ::= delete r |>).

Definition hm_hash (src dst : Z) : Z := u32 (u32 (Z.lxor src dst + src) + dst).
Definition hm_matches (src dst : Z) (np : option loc) (port : Z) (h : hostmap) : bool :=
  (hm_osrcip h =? src) && (hm_odstip h =? dst) &&
  match np with None => true | Some r => bool_decide (r = hm_ipnat h) end && ((port =? 0) || (port =? hm_port h)).
Fixpoint find_hm (src dst : Z) (np : option loc) (port : Z) (l : list loc) : ST W (option loc) :=
  match l with
  | [] => mret None
  | y :: l => h ← hmst y; if hm_matches src dst np port h then mret (Some y) else find_hm src dst np port l
  end.
(** [ipf_nat_hostmap]. *)
Definition ipf_nat_hostmap (np : option loc) (src dst map port : Z) : ST W (option loc) :=
  let rhv := hm_hash src dst in
  let hv := rhv mod ipf_nat_hostmap_sz cf in
  l ← gets (fun w => nw_hmtable w hv);
  y ← find_hm src dst np port l;
  match y with
  | Some y => upd_hm y (fun h => h <| hm_ref ::= fun n => n + 1 |>);; mret (Some y)
  | None =>
      match np with
      | None => mret None
      | Some r =>
          alloc ← nkmalloc;
          match alloc with
          | None => mret None
          | Some y =>
              modify (fun w => w <| nw_hmlist ::= cons y |> <| nw_hmtable ::= upd_at hv (cons y) |>);;
              upd_rule r (fun n => n <| in_use ::= fun u => u + 1 |>);;
              modify (fun w => w <| nw_hms ::= <[y := mk_hostmap r src dst map 0 port 1 rhv 4]> |>);;
              mret (Some y)
          end
      end
  end.
(** [ipf_nat_hostmapdel]. *)
Definition ipf_nat_hostmapdel (y : loc) : ST W unit :=
  upd_hm y (fun h => h <| hm_ref ::= fun n => n - 1 |>);;
  h ← hmst y;
  when_ (hm_ref h =? 0)
    (ipf_nat_rule_deref (hm_ipnat h);;
     modify (fun w => w <| nw_hmtable := fun i => without y (nw_hmtable w i) |> <| nw_hmlist ::= without y |>
                        <| nw_hms ::= delete y |>)).

(** The buckets of rules: [ipf_nat_addrdr], [ipf_nat_addmap], [ipf_nat_delrdr] and
    [ipf_nat_delmap]. *)
Definition rule_bucket (a : na_atype) (addr msk size : Z) : Z :=
  match a with Na_normal => NAT_HASH_FN (Z.land addr msk) 0 0xffffffff mod size | _ => 0 end.
Definition rule_bits (a : na_atype) (msk : Z) : Z := match a with Na_normal => count4bits be msk | _ => 0 end.
Definition ipf_nat_addrdr (r : loc) : ST W unit :=
  n ← rule r;
  w ← gets id;
  t ← need (ipf_inet_mask_add be (rule_bits (in_odstatype n) (in_odstmsk n)) (nw_rdr_mask w));
  let hv := rule_bucket (in_odstatype n) (in_odstaddr n) (in_odstmsk n) (ipf_nat_rdrrules_sz cf) in
  modify (fun w => w <| nw_rdr_mask := t |> <| nw_rdrrules ::= upd_at hv (fun l => l ++ [r]) |>);;
  upd_rule r (fun n => n <| in_use ::= fun u => u + 1 |>).
Definition ipf_nat_addmap (r : loc) : ST W unit :=
  n ← rule r;
  w ← gets id;
  t ← need (ipf_inet_mask_add be (rule_bits (in_osrcatype n) (in_osrcmsk n)) (nw_map_mask w));
  let hv := rule_bucket (in_osrcatype n) (in_osrcaddr n) (in_osrcmsk n) (ipf_nat_maprules_sz cf) in
  modify (fun w => w <| nw_map_mask := t |> <| nw_maprules ::= upd_at hv (fun l => l ++ [r]) |>);;
  upd_rule r (fun n => n <| in_use ::= fun u => u + 1 |>).
Definition ipf_nat_delrdr (r : loc) : ST W unit :=
  n ← rule r;
  w ← gets id;
  t ← need (ipf_inet_mask_del be (rule_bits (in_odstatype n) (in_odstmsk n)) (nw_rdr_mask w));
  modify (fun w => w <| nw_rdr_mask := t |> <| nw_rdrrules := fun i => without r (nw_rdrrules w i) |>);;
  upd_rule r (fun n => n <| in_use ::= fun u => u - 1 |>).
Definition ipf_nat_delmap (r : loc) : ST W unit :=
  n ← rule r;
  w ← gets id;
  t ← need (ipf_inet_mask_del be (rule_bits (in_osrcatype n) (in_osrcmsk n)) (nw_map_mask w));
  modify (fun w => w <| nw_map_mask := t |> <| nw_maprules := fun i => without r (nw_maprules w i) |>);;
  upd_rule r (fun n => n <| in_use ::= fun u => u - 1 |>).

(** ** Entering the table *)

(** [ipf_nat_setqueue]. *)
Definition ipf_nat_default_queue (x : loc) (p rev : Z) : ST W loc :=
  if p =? IPPROTO_UDP then mret (ipf_nat_udptq cf)
  else if p =? IPPROTO_ICMP then mret (ipf_nat_icmptq cf)
  else if p =? IPPROTO_TCP then s ← nhp (ent (tqe_state rev) x); mret (ipf_nat_tcptq cf s)
  else mret (ipf_nat_iptq cf).
Definition rule_tq (p : option loc) (rev : Z) : ST W (option loc) :=
  match p with
  | Some r => n ← rule r; mret (idx rev (in_tqehead n))
  | None => mret None
  end.
Definition ipf_nat_setqueue (x : loc) : ST W unit :=
  e ← nst x;
  q ← rule_tq (nat_ptr e) (nat_rev e);
  nifq ← match q with Some q => mret q | None => ipf_nat_default_queue x (nat_pr0 e) (nat_rev e) end;
  oifq ← nhp (ent tqe_ifq x);
  ticks ← gets nw_ticks;
  match oifq with
  | Some o => nhp (ipf_movequeue ticks x o nifq)
  | None => nhp (ipf_queueappend ticks x nifq (Some x))
  end.

(** [ipf_nat_hashtab_add]. *)
Definition bucket0 (e : natt) : Z := nat_hv0 e mod ipf_nat_table_sz cf.
Definition bucket1 (e : natt) : Z := nat_hv1 e mod ipf_nat_table_sz cf.
Definition ipf_nat_hashtab_add (x : loc) : ST W Z :=
  e ← nst x;
  w ← gets id;
  if ns_bucketlen0 w (bucket0 e) >=? ipf_nat_maxbucket cf then mret (-1) else
  if ns_bucketlen1 w (bucket1 e) >=? ipf_nat_maxbucket cf then mret (-1) else
  upd_nat x (fun e => e <| nat_listed := true |>);;
  modify (fun w => w <| nw_instances ::= cons x |>);;
  modify (fun w => w <| nw_table0 ::= upd_at (bucket0 e) (cons x) |>
                     <| ns_bucketlen0 ::= upd_at (bucket0 e) (fun n => n + 1) |>);;
  modify (fun w => w <| nw_table1 ::= upd_at (bucket1 e) (cons x) |>
                     <| ns_bucketlen1 ::= upd_at (bucket1 e) (fun n => n + 1) |>);;
  ipf_nat_setqueue x;;
  modify (fun w => w <| ns_active ::= fun n => n + 1 |>);;
  mret 0.

(** The hash values of the original and of the translated addresses. *)
Definition hash_pair (a b sp dp : Z) : Z :=
  NAT_HASH_FN b (u32 (NAT_HASH_FN a sp 0xffffffff + dp)) 0xffffffff.
Definition entry_hash (e : natt) : Z * Z :=
  if has (nat_flags e) SI_WILDP then
    (hash_pair (nat_osrcaddr e) (nat_odstaddr e) 0 0, hash_pair (nat_nsrcaddr e) (nat_ndstaddr e) 0 0)
  else
    let tcp := has (nat_flags e) IPN_TCPUDP in
    let icmp := has (nat_flags e) IPN_ICMPQUERY in
    let sel (p : Z) (o : Z) (i : Z) := if tcp then p else if icmp then i else o in
    (hash_pair (nat_osrcaddr e) (nat_odstaddr e) (sel (nat_osport e) 0 0) (sel (nat_odport e) 0 (nat_oicmpid be e)),
     hash_pair (nat_nsrcaddr e) (nat_ndstaddr e) (sel (nat_nsport e) 0 0) (sel (nat_ndport e) 0 (nat_nicmpid be e))).
Definition set_hash (h : Z * Z) (e : natt) : natt :=
  if Z.land (nat_dir e) NAT_OUTBOUND =? NAT_OUTBOUND then e <| nat_hv0 := fst h |> <| nat_hv1 := snd h |>
  else e <| nat_hv0 := snd h |> <| nat_hv1 := fst h |>.
(** The interfaces, by name; the second name may come from the first. *)
Definition second_name (n : ipnat) : bool :=
  match in_ifname1 n with
  | None => false
  | Some name => negb (nth 1 name 0 =? 0) && negb (nth 0 name 0 =? 45) && negb (nth 0 name 0 =? 42)
  end.
(** [a[LIFNAMSIZ - 1] = '\0']. *)
Definition end_name (name : list Z) : list Z := <[15%nat := 0]> name.
Definition insert_ifps (x : loc) : ST W unit :=
  w ← gets id;
  upd_nat x (fun e => e <| nat_ifname0 ::= end_name |> <| nat_ifp0 := nenv_resolvenic (nw_ext w) (end_name (nat_ifname0 e)) |>);;
  e ← nst x;
  if negb (nth 0 (nat_ifname1 e) 0 =? 0) then
    upd_nat x (fun e => e <| nat_ifname1 ::= end_name |> <| nat_ifp1 := nenv_resolvenic (nw_ext w) (end_name (nat_ifname1 e)) |>)
  else
    p ← need (nat_ptr e);
    n ← rule p;
    when_ (second_name n)
      (upd_nat x (fun e => e <| nat_ifname1 := end_name (strncpy 16 (nat_ifname0 e) (nat_ifname1 e)) |> <| nat_ifp1 := nat_ifp0 e |>)).
(** [ipf_nat_insert]. *)
Definition ipf_nat_insert (x : loc) : ST W Z :=
  upd_nat x (fun e => set_hash (entry_hash e) e);;
  upd_nat x (fun e => e <| nat_ref := match nat_me e with Some _ => 2 | None => 1 end |>);;
  insert_ifps x;;
  ipf_nat_hashtab_add x.

(** ** Leaving the table *)

(** [ipf_derefrule] of a filter rule. *)
Definition deref_fr (r : loc) : ST W unit :=
  w ← gets id;
  n ← need (nw_frs w !! r);
  modify (fun w => w <| nw_frs ::= if n - 1 =? 0 then delete r else <[r := n - 1]> |>).

(** Out of the two tables and the list. *)
Definition unlink_nat (x : loc) : ST W unit :=
  e ← nst x;
  modify (fun w => w <| ns_bucketlen0 ::= upd_at (bucket0 e) (fun n => n - 1) |>
                     <| ns_bucketlen1 ::= upd_at (bucket1 e) (fun n => n - 1) |>);;
  modify (fun w => w <| nw_instances ::= without x |>);;
  upd_nat x (fun e => e <| nat_listed := false |>);;
  modify (fun w => w <| nw_table0 := fun i => without x (nw_table0 w i) |>);;
  modify (fun w => w <| nw_table1 := fun i => without x (nw_table1 w i) |>);;
  when_ (has (nat_flags e) SI_WILDP) (modify (fun w => w <| ns_wilds ::= fun n => u32 (n - 1) |>)).
(** [*nat->nat_me = NULL]. *)
Definition forget_nat_me (x : loc) : ST W unit :=
  e ← nst x;
  match nat_me e with
  | Some v =>
      w ← gets id;
      _ ← need (nw_saved w !! v);
      modify (fun w => w <| nw_saved ::= <[v := None]> |>);;
      upd_nat x (fun e => e <| nat_me := None |> <| nat_ref ::= fun n => n - 1 |>)
  | None => mret tt
  end.
(** What is left to do when nobody refers to the session any more. *)
Definition free_nat (x : loc) : ST W unit :=
  upd_nat x (fun e => e <| nat_ref := 0 |>);;
  e ← nst x;
  when_ (has (nat_flags e) SI_WILDP) (modify (fun w => w <| ns_wilds ::= fun n => u32 (n - 1) |>));;
  match nat_fr e with Some r => upd_nat x (fun e => e <| nat_fr := None |>);; deref_fr r | None => mret tt end;;
  match nat_hm e with Some h => upd_nat x (fun e => e <| nat_hm := None |>);; ipf_nat_hostmapdel h | None => mret tt end;;
  match nat_ptr e with
  | Some r =>
      upd_nat x (fun e => e <| nat_ptr := None |>);;
      upd_rule r (fun n => n <| in_space ::= fun k => k + 1 |>);;
      ipf_nat_rule_deref r
  | None => mret tt
  end;;
  match nat_aps e with Some a => nenv_proxy_free a | None => mret tt end;;
  modify (fun w => w <| ns_active ::= fun n => n - 1 |>);;
  next_ (nenv_frag_natforget x);;
  modify (fun w => w <| nw_nats ::= delete x |> <| nw_heap ::= fun h => h <| ents ::= delete x |> |>).
(** [ipf_nat_delete]. *)
Definition ipf_nat_delete (x : loc) (logtype : Z) : ST W unit :=
  when_ (negb (logtype =? 0) && negb (ipf_nat_logging cf =? 0)) (next_ (nenv_log x logtype));;
  e ← nst x;
  when_ (nat_listed e) (unlink_nat x);;
  forget_nat_me x;;
  q ← nhp (ent tqe_ifq x);
  match q with Some _ => nhp (ipf_deletequeueentry x) | None => mret tt end;;
  match nat_sync e with
  | Some s => next_ (nenv_sync_del s);; upd_nat x (fun e => e <| nat_sync := None |>)
  | None => mret tt
  end;;
  e ← nst x;
  if logtype =? NL_DESTROY then
    if nat_ref e >? 2 then upd_nat x (fun e => e <| nat_ref ::= fun n => n - 2 |>) else free_nat x
  else if nat_ref e >? 1 then upd_nat x (fun e => e <| nat_ref ::= fun n => n - 1 |>) else free_nat x.

(** [ipf_nat_deref] of a variable that holds [x]. *)
Definition ipf_nat_deref (x : loc) : ST W unit :=
  e ← nst x;
  if nat_ref e >? 1 then upd_nat x (fun e => e <| nat_ref ::= fun n => n - 1 |>)
  else ipf_nat_delete x NL_EXPIRE.

(** ** Finding a session *)

(** [ipf_nat_wildok]. *)
Definition ipf_nat_wildok (e : natt) (sport dport flags dir : Z) : bool :=
  let k := Z.lor (Z.shiftl dir 1) (Z.land (nat_dir e) (Z.lor NAT_INBOUND NAT_OUTBOUND)) in
  let fits p q := ((nat_osport e =? p) || has flags SI_W_SPORT) && ((nat_odport e =? q) || has flags SI_W_DPORT) in
  if (k =? 3) || (k =? 0) then fits sport dport
  else if (k =? 2) || (k =? 1) then fits dport sport
  else false.

(** [ipf_nat_tabmove]. *)
Definition ipf_nat_tabmove (x : loc) : ST W unit :=
  e ← nst x;
  if has (nat_flags e) SI_CLONE then mret tt else
  modify (fun w => w <| nw_table0 := fun i => without x (nw_table0 w i) |> <| nw_table1 := fun i => without x (nw_table1 w i) |>
    <| ns_bucketlen0 ::= upd_at (bucket0 e) (fun n => n - 1) |> <| ns_bucketlen1 ::= upd_at (bucket1 e) (fun n => n - 1) |>);;
  upd_nat x (fun e => set_hash (hash_pair (nat_osrcaddr e) (nat_odstaddr e) (nat_osport e) (nat_odport e),
                                hash_pair (nat_nsrcaddr e) (nat_ndstaddr e) (nat_nsport e) (nat_ndport e)) e);;
  e ← nst x;
  modify (fun w => w <| nw_table0 ::= upd_at (bucket0 e) (cons x) |> <| ns_bucketlen0 ::= upd_at (bucket0 e) (fun n => n + 1) |>);;
  modify (fun w => w <| nw_table1 ::= upd_at (bucket1 e) (cons x) |> <| ns_bucketlen1 ::= upd_at (bucket1 e) (fun n => n + 1) |>).

(** The TCP header at [fin_dp]: its flags and its length, which is all that the ageing of
    a session reads. *)
Definition tcp_at (fin : fr_info) (m : list Z) : option tcphdr :=
  off ← rd8 (fin_dp fin + 12) m;
  fl ← rd8 (fin_dp fin + 13) m;
  Some (mk_tcphdr 0 0 (Z.shiftr off 4) fl 0 0).
Definition nat_tcp_age (x : loc) (flags ok : Z) : ST W unit :=
  w ← gets id;
  tcp ← need (tcp_at (nw_fin w) (nw_buf w));
  _ ← nhp (ipf_tcp_age (nw_ticks w) x (nw_fin w) tcp (ipf_nat_tcptq cf) flags ok);
  mret tt.

(** [ipf_nat_clone]. *)
Definition ipf_nat_clone (x : loc) : ST W (option loc) :=
  alloc ← nkmalloc;
  match alloc with
  | None => mret None
  | Some c =>
      e ← nst x;
      t ← nhp (ent id x);
      fin ← gets nw_fin;
      modify (fun w => w <| nw_nats ::= <[c := e <| nat_rev := fin_rev fin |> <| nat_aps := None |>
                                               <| nat_flags := Z.lor (clear (nat_flags e) SI_CLONE) SI_CLONED |>]> |>
        <| nw_heap ::= fun h => h <| ents ::= <[c := t <| tqe_pnext := None |> <| tqe_next := None |>
             <| tqe_ifq := None |> <| tqe_parent := Some c |>]> |> |>);;
      match nat_hm e with Some h => upd_hm h (fun h => h <| hm_ref ::= fun n => n + 1 |>) | None => mret tt end;;
      r ← ipf_nat_insert c;
      if r =? -1 then
        modify (fun w => w <| nw_nats ::= delete c |> <| nw_heap ::= fun h => h <| ents ::= delete c |> |>);; mret None
      else
        match nat_ptr e with
        | Some np =>
            when_ (negb (ipf_nat_logging cf =? 0)) (next_ (nenv_log c NL_CLONE));;
            upd_rule np (fun n => n <| in_use ::= fun u => u + 1 |>)
        | None => mret tt
        end;;
        match nat_fr e with
        | Some fr => w ← gets id; k ← need (nw_frs w !! fr); modify (fun w => w <| nw_frs ::= <[fr := k + 1]> |>)
        | None => mret tt
        end;;
        e ← nst c;
        when_ (nat_pr0 e =? IPPROTO_TCP) (nat_tcp_age c (nat_flags e) 2);;
        s ← next (nenv_sync_new c fin);
        upd_nat c (fun e => e <| nat_sync := s |>);;
        when_ (negb (ipf_nat_logging cf =? 0)) (next_ (nenv_log c NL_CLONE));;
        mret (Some c)
  end.

(** [sport] and [dport] of the packet. *)
Definition nat_ports (p flags : Z) (fin : fr_info) : Z * Z :=
  if (p =? IPPROTO_TCP) || (p =? IPPROTO_UDP) then (htons be (fin_sport fin), htons be (fin_dport fin))
  else if p =? IPPROTO_ICMP then if has flags IPN_ICMPERR then (fin_dport fin, 0) else (0, fin_dport fin)
  else (0, 0).
(** The interface of the session is another one than the packet's. *)
Definition other_ifp (mine ifp : option loc) : bool :=
  bool_decide (is_Some mine) && bool_decide (is_Some ifp) && negb (bool_decide (ifp = mine)).
(** Ports, or the identifier, of one side. *)
Definition same_ports (e : natt) (p sp dp id sport dport : Z) : bool :=
  if has (nat_flags e) IPN_TCPUDP then (sp =? sport) && (dp =? dport)
  else if p =? IPPROTO_ICMP then id =? dport else true.
(** The comparison of [ipf_nat_inlookup]: original addresses for a session made by an
    incoming packet, reversed translated ones for a session made by an outgoing one. *)
Definition in_match (p : Z) (src dst sport dport : Z) (ifp : option loc) (e : natt) : bool :=
  negb (other_ifp (nat_ifp0 e) ifp) && (nat_pr0 e =? p) &&
  if (nat_dir e =? NAT_INBOUND) || (nat_dir e =? NAT_DIVERTIN) then
    (nat_v0 e =? 4) && (nat_osrcaddr e =? src) && (nat_odstaddr e =? dst) &&
    same_ports e p (nat_osport e) (nat_odport e) (nat_oicmpid be e) sport dport
  else if (nat_dir e =? NAT_DIVERTOUT) || (nat_dir e =? NAT_OUTBOUND) then
    (nat_dlocal e =? 0) && (nat_v1 e =? 4) && (nat_ndstaddr e =? src) && (nat_nsrcaddr e =? dst) &&
    same_ports e p (nat_ndport e) (nat_nsport e) (nat_nicmpid be e) sport dport
  else true.
(** The comparison of [ipf_nat_outlookup]. *)
Definition out_match (p : Z) (src dst sport dport : Z) (ifp : option loc) (e : natt) : bool :=
  negb (other_ifp (nat_ifp1 e) ifp) && (nat_pr1 e =? p) &&
  if (nat_dir e =? NAT_INBOUND) || (nat_dir e =? NAT_DIVERTIN) then
    (nat_v1 e =? 4) && (nat_ndstaddr e =? src) && (nat_nsrcaddr e =? dst) &&
    same_ports e p (nat_ndport e) (nat_nsport e) (nat_nicmpid be e) sport dport
  else if (nat_dir e =? NAT_DIVERTOUT) || (nat_dir e =? NAT_OUTBOUND) then
    (nat_v0 e =? 4) && (nat_osrcaddr e =? src) && (nat_odstaddr e =? dst) &&
    same_ports e p (nat_osport e) (nat_odport e) (nat_oicmpid be e) sport dport
  else true.

(** A proxy may refuse the packet for its session. *)
Definition refused (e : natt) (x : loc) (any : bool) : ST W bool :=
  if (any || has (nat_flags e) IPN_TCPUDP) && bool_decide (is_Some (nat_ptr e)) && bool_decide (is_Some (nat_aps e))
  then m ← nenv_proxy_match x; mret (negb (m =? 0)) else mret false.
Definition bind_ifp0 (x : loc) (ifp : option loc) : ST W unit :=
  upd_nat x (fun e => match nat_ifp0 e with Some _ => e | None => e <| nat_ifp0 := ifp |> end).
Definition bind_ifp1 (x : loc) (ifp : option loc) : ST W unit :=
  upd_nat x (fun e => match nat_ifp1 e with Some _ => e | None => e <| nat_ifp1 := ifp |> end).
(** The loop along a chain. *)
Fixpoint find_nat (matches : natt -> bool) (any : bool) (bound : loc -> ST W unit) (l : list loc) : ST W (option loc) :=
  match l with
  | [] => mret None
  | x :: l =>
      e ← nst x;
      if negb (matches e) then find_nat matches any bound l else
      r ← refused e x any;
      if (r : bool) then find_nat matches any bound l
      else bound x;; mret (Some x)
  end.

(** *** Wildcards *)

(** A wildcard session gets the ports of the packet. *)
Definition bind_ports (same : bool) (sport dport : Z) (e : natt) : natt :=
  let sp := if same then sport else dport in
  let dp := if same then dport else sport in
  let e := if nat_osport e =? 0 then e <| nat_osport := sp |> <| nat_nsport := sp |> else e in
  if nat_odport e =? 0 then e <| nat_odport := dp |> <| nat_ndport := dp |> else e.
Definition wild_match0 (e : natt) (src dst : Z) : bool :=
  if has (nat_dir e) NAT_OUTBOUND then (nat_v1 e =? 4) && (nat_ndstaddr e =? src) && (nat_nsrcaddr e =? dst)
  else (nat_v0 e =? 4) && (nat_osrcaddr e =? src) && (nat_odstaddr e =? dst).
Definition wild_match1 (e : natt) (src dst : Z) : bool :=
  if has (nat_dir e) NAT_OUTBOUND then (nat_v0 e =? 4) && (nat_osrcaddr e =? src) && (nat_odstaddr e =? dst)
  else (nat_v1 e =? 4) && (nat_ndstaddr e =? src) && (nat_nsrcaddr e =? dst).
(** The second loop, on a session that passes: [dir] is the direction of the packet. *)
Definition take_wild (dir : Z) (bound : loc -> ST W unit) (sport dport : Z) (x : loc) : ST W (option loc) :=
  e ← nst x;
  fin ← gets nw_fin;
  if has (fin_flx fin) FI_IGNORE then mret (Some x) else
  y ← (if has (nat_flags e) SI_CLONE then ipf_nat_clone x
       else modify (fun w => w <| ns_wilds ::= fun n => u32 (n - 1) |>);; mret (Some x));
  match y with
  | None => mret None
  | Some y =>
      upd_nat y (fun e => if (nat_dir e =? NAT_INBOUND) || (nat_dir e =? NAT_OUTBOUND)
                          then bind_ports (nat_dir e =? dir) sport dport e else e);;
      bound y;;
      upd_nat y (fun e => e <| nat_flags ::= fun f => clear f SI_WILDP |>);;
      ipf_nat_tabmove y;;
      mret (Some y)
  end.
Fixpoint find_wild (matches : natt -> bool) (dir : Z) (bound : loc -> ST W unit) (sport dport : Z) (l : list loc) :
    ST W (option loc) :=
  match l with
  | [] => mret None
  | x :: l =>
      e ← nst x;
      if matches e && has (nat_flags e) (Z.lor NAT_TCPUDP SI_WILDP) && ipf_nat_wildok e sport dport (nat_flags e) dir
      then take_wild dir bound sport dport x
      else find_wild matches dir bound sport dport l
  end.
(** Whether the second loop is reached. *)
Definition wild_search (flags wilds : Z) (fin : fr_info) : bool :=
  has flags NAT_TCPUDP && has flags NAT_SEARCH && negb (wilds =? 0) && negb (has (fin_flx fin) FI_NOWILD).

(** [ipf_nat_inlookup]. *)
Definition ipf_nat_inlookup (flags p src dst : Z) : ST W (option loc) :=
  w ← gets id;
  let fin := nw_fin w in
  let ifp := fin_ifp fin in
  let '(sport, dport) := nat_ports p flags fin in
  r ← (if has flags SI_WILDP then mret None
       else
         let rhv := NAT_HASH_FN src (u32 (NAT_HASH_FN dst dport 0xffffffff + sport)) 0xffffffff in
         find_nat (in_match p src dst sport dport ifp) false (fun x => bind_ifp0 x ifp)
           (nw_table1 w (rhv mod ipf_nat_table_sz cf)));
  match r with
  | Some x => mret (Some x)
  | None =>
      w ← gets id;
      if negb (wild_search flags (ns_wilds w) fin) then mret None else
      let hv := NAT_HASH_FN src (NAT_HASH_FN dst 0 0xffffffff) (ipf_nat_table_sz cf) in
      find_wild (fun e => negb (other_ifp (nat_ifp0 e) ifp) && (nat_pr0 e =? fin_p fin) && wild_match0 e src dst)
        NAT_INBOUND (fun x => bind_ifp0 x ifp) sport dport (nw_table1 w hv)
  end.

(** [ipf_nat_outlookup]. *)
Definition ipf_nat_outlookup (flags p src dst : Z) : ST W (option loc) :=
  w ← gets id;
  let fin := nw_fin w in
  let ifp := fin_ifp fin in
  let '(sport, dport) := nat_ports p flags fin in
  r ← (if has flags SI_WILDP then mret None
       else
         let hv := NAT_HASH_FN dst (u32 (NAT_HASH_FN src sport 0xffffffff + dport)) (ipf_nat_table_sz cf) in
         find_nat (out_match p src dst sport dport ifp) true (fun x => bind_ifp1 x ifp) (nw_table0 w hv));
  match r with
  | Some x => mret (Some x)
  | None =>
      w ← gets id;
      if negb (wild_search flags (ns_wilds w) fin) then mret None else
      let hv := NAT_HASH_FN dst (NAT_HASH_FN src 0 0xffffffff) (ipf_nat_table_sz cf) in
      find_wild (fun e => negb (other_ifp (nat_ifp1 e) ifp) && (nat_pr1 e =? fin_p fin) && wild_match1 e src dst)
        NAT_OUTBOUND (fun x => bind_ifp1 x ifp) sport dport (nw_table0 w hv)
  end.
End Table.

(** ** Byte order *)

Lemma swap16_u16 x : is_u16 x -> is_u16 (swap16 x) /\ swap16 (swap16 x) = x.
Proof.
  intros Hx. pose proof (ntohs_u16 false x) as H1. pose proof (ntohs_ntohs false x Hx) as H2. unfold ntohs in *.
  rewrite (u16_id x) in * by done. rewrite u16_id in H2 by done. done.
Qed.
Lemma u32_halves x : is_u32 x -> exists h l, is_u16 h /\ is_u16 l /\ x = h * 65536 + l.
Proof.
  unfold is_u32, is_u16. change (2 ^ 32) with 4294967296. change (2 ^ 16) with 65536. intros Hx.
  exists (x / 65536), (x mod 65536). dlia.
Qed.
Lemma halves_u32 h l : is_u16 h -> is_u16 l -> is_u32 (h * 65536 + l).
Proof. unfold is_u32, is_u16. change (2 ^ 32) with 4294967296. change (2 ^ 16) with 65536. lia. Qed.
Lemma bswap32_halves h l : is_u16 h -> is_u16 l -> bswap32 (h * 65536 + l) = swap16 l * 65536 + swap16 h.
Proof.
  unfold bswap32, is_u16. change (2 ^ 16) with 65536. intros Hh Hl. f_equal; [f_equal|]; f_equal.
  - rewrite Z.add_comm, Z_mod_plus_full. by apply Z.mod_small.
  - rewrite Z.div_add_l by done. rewrite Z.div_small by done. lia.
Qed.
Lemma bswap32_u32 x : is_u32 x -> is_u32 (bswap32 x).
Proof.
  intros (h & l & Hh & Hl & ->)%u32_halves. rewrite bswap32_halves by done. apply halves_u32; by apply swap16_u16.
Qed.
Lemma ntohl_u32 be x : is_u32 (ntohl be x).
Proof. unfold ntohl. destruct be; [apply u32_range|apply bswap32_u32, u32_range]. Qed.
Lemma ntohl_htonl be x : is_u32 x -> ntohl be (htonl be x) = x.
Proof.
  intros Hx. unfold htonl, ntohl. rewrite (u32_id x) by done. destruct be; [by apply u32_id|].
  rewrite u32_id by (by apply bswap32_u32). destruct (u32_halves x Hx) as (h & l & Hh & Hl & ->).
  rewrite bswap32_halves by done. destruct (swap16_u16 h Hh) as [Hh1 Hh2], (swap16_u16 l Hl) as [Hl1 Hl2].
  rewrite bswap32_halves by done. by rewrite Hh2, Hl2.
Qed.

(** ** Running the primitives *)

Section Runs.
Context {E : Type}.
Abbreviation W := (natw E).
Implicit Types (w : W) (d : Prop).

Lemma wp_nst d x Q w e : nw_nats w !! x = Some e -> wpg d (nst x) Q w = Q e w.
Proof. intros He. unfold wpg, nst. by rewrite He. Qed.
Lemma wp_upd_nat d x f Q w e : nw_nats w !! x = Some e ->
  wpg d (upd_nat x f) Q w = Q tt (w <| nw_nats ::= alter f x |>).
Proof. intros He. unfold wpg, upd_nat. by rewrite He. Qed.
Lemma wp_rule d r Q w n : nw_rules w !! r = Some n -> wpg d (rule r) Q w = Q n w.
Proof. intros Hn. unfold wpg, rule. by rewrite Hn. Qed.
Lemma wp_upd_rule d r f Q w n : nw_rules w !! r = Some n ->
  wpg d (upd_rule r f) Q w = Q tt (w <| nw_rules ::= alter f r |>).
Proof. intros Hn. unfold wpg, upd_rule. by rewrite Hn. Qed.
Lemma wp_hmst d y Q w h : nw_hms w !! y = Some h -> wpg d (hmst y) Q w = Q h w.
Proof. intros Hh. unfold wpg, hmst. by rewrite Hh. Qed.
Lemma wp_upd_hm d y f Q w h : nw_hms w !! y = Some h ->
  wpg d (upd_hm y f) Q w = Q tt (w <| nw_hms ::= alter f y |>).
Proof. intros Hh. unfold wpg, upd_hm. by rewrite Hh. Qed.

(** Without knowing that the object is there. *)
Lemma wlp_nst x Q w : (forall e, nw_nats w !! x = Some e -> Q e w) -> wlp (nst x) Q w.
Proof. intros H. unfold wpg, nst. destruct (nw_nats w !! x) eqn:He; [by apply H|done]. Qed.
Lemma wlp_upd_nat x f Q w :
  (forall e, nw_nats w !! x = Some e -> Q tt (w <| nw_nats ::= alter f x |>)) -> wlp (upd_nat x f) Q w.
Proof. intros H. unfold wpg, upd_nat. destruct (nw_nats w !! x) eqn:He; [by eapply H|done]. Qed.
Lemma wlp_rule r Q w : (forall n, nw_rules w !! r = Some n -> Q n w) -> wlp (rule r) Q w.
Proof. intros H. unfold wpg, rule. destruct (nw_rules w !! r) eqn:He; [by apply H|done]. Qed.
Lemma wlp_need {A} (o : option A) Q w : (forall a, o = Some a -> Q a w) -> wlp (need o) Q w.
Proof. intros H. unfold wpg, need. destruct o; [by apply H|done]. Qed.

(** What the lookups and the packet depend on, next to rules that use no proxy and
    divert nothing. *)
Definition view w := (nw_nats w, (nw_table0 w, nw_table1 w), (nw_fin w, nw_buf w, ns_wilds w)).
Definition plain_rule (n : ipnat) : Prop := in_apr n = None /\ in_dlocal n = 0.
Definition rules_plain w : Prop := forall r n, nw_rules w !! r = Some n -> plain_rule n.
Definition sees (v : _) w : Prop := view w = v /\ rules_plain w.

Section Keeps.
Context (v : gmap loc natt * ((Z -> list loc) * (Z -> list loc)) * (fr_info * list Z * Z)).
Lemma sees_upd (f : W -> W) : (forall w, view (f w) = view w /\ nw_rules (f w) = nw_rules w) -> keeps (sees v) (modify f).
Proof.
  intros Hf. apply keeps_modify. intros w [Hw Hr]. destruct (Hf w) as [E1 E2]. split; [by rewrite E1|].
  unfold rules_plain. by rewrite E2.
Qed.
Lemma sees_delete r : keeps (sees v) (modify (fun w : W => w <| nw_rules ::= delete r |>)).
Proof.
  apply keeps_modify. intros w [Hw Hr]. split; [done|]. intros q n Hq. cbn in Hq.
  apply lookup_delete_Some in Hq as [_ Hq]. by eapply Hr.
Qed.
Lemma sees_nst x : keeps (sees v) (nst x).
Proof. intros w Hw. by apply wlp_nst. Qed.
Lemma sees_rule r : keeps (sees v) (rule r).
Proof. intros w Hw. by apply wlp_rule. Qed.
Lemma sees_upd_rule r f : (forall n, plain_rule n -> plain_rule (f n)) -> keeps (sees v) (upd_rule r f).
Proof.
  intros Hf w [Hw Hr]. unfold wpg, upd_rule. destruct (nw_rules w !! r) as [n|] eqn:Hn; [|done]. split; [done|].
  intros q m. cbn. destruct (decide (q = r)) as [->|Hq].
  - rewrite lookup_alter, decide_True, Hn by done. intros [= <-]. eapply Hf, Hr, Hn.
  - rewrite lookup_alter_ne by done. apply Hr.
Qed.
Lemma sees_hmst y : keeps (sees v) (hmst y).
Proof. intros w Hw. unfold wpg, hmst. by destruct (nw_hms w !! y). Qed.
Lemma sees_upd_hm y f : keeps (sees v) (upd_hm y f).
Proof. intros w Hw. unfold wpg, upd_hm. by destruct (nw_hms w !! y). Qed.
Lemma sees_nhp {A} (m : ST tqheap A) : keeps (sees v) (nhp m).
Proof. intros w Hw. unfold wpg, nhp. by destruct (m (nw_heap w)) as [[]|]. Qed.
Lemma sees_next {A} (f : E -> A * E) : keeps (sees v) (next f).
Proof. intros w Hw. unfold wpg, next. by destruct (f (nw_ext w)). Qed.
Lemma sees_next_ f : keeps (sees v) (next_ f).
Proof. by apply sees_upd. Qed.
Lemma sees_nkmalloc : keeps (sees v) nkmalloc.
Proof. intros w Hw. unfold wpg, nkmalloc. by destruct (nw_allocs w). Qed.
End Keeps.
End Runs.
#[export] Hint Resolve sees_nst sees_rule sees_hmst sees_upd_hm sees_nhp sees_next sees_next_ sees_nkmalloc sees_delete : keeps.
#[export] Hint Extern 3 (keeps (sees _) (modify _)) => (apply sees_upd; done) : keeps.
#[export] Hint Extern 3 (keeps (sees _) (upd_rule _ _)) => (apply sees_upd_rule; done) : keeps.

(** ** Rules and host maps leave the sessions alone *)

Section Frames.
Context {E : Type} `{nat_env E} (cf : natconf) (be : bool).
Abbreviation W := (natw E).
Context (v : gmap loc natt * ((Z -> list loc) * (Z -> list loc)) * (fr_info * list Z * Z)).

Lemma sees_rule_fini n : keeps (sees v) (ipf_nat_rule_fini n : ST W unit).
Proof.
  unfold ipf_nat_rule_fini, deref_atype, deref_ptr.
  destruct (in_odstatype n), (in_osrcatype n), (in_ndstptr n), (in_nsrcptr n); eauto 8 with keeps.
Qed.
Lemma sees_drop_rule_queue q o : keeps (sees v) (drop_rule_queue q o : ST W unit).
Proof. unfold drop_rule_queue. destruct q; eauto 8 with keeps. Qed.
Lemma sees_rule_deref r : keeps (sees v) (ipf_nat_rule_deref r : ST W unit).
Proof.
  pose proof sees_rule_fini. pose proof sees_drop_rule_queue.
  unfold ipf_nat_rule_deref. apply keeps_bind; [auto with keeps|intros _]. intros w Hw. rewrite wp_bind.
  apply wlp_rule. intros n Hn. assert (Ha : in_apr n = None) by (by apply Hw in Hn as [??]). rewrite Ha.
  revert w Hw Hn. cut (keeps (sees v) (if in_use n >? 0 then mret tt else
    mret tt;; ipf_nat_rule_fini n;; drop_rule_queue (fst (in_tqehead n)) (snd (in_tqehead n));;
    drop_rule_queue (snd (in_tqehead n)) (snd (in_tqehead n));;
    when_ (negb (has (in_flags n) IPN_PROXYRULE)) (modify (fun w : W => w <| ns_rules ::= fun k => k - 1 |>));;
    modify (fun w : W => w <| nw_rules ::= delete r |>))); [auto|]. eauto 12 with keeps.
Qed.
Lemma sees_find_hm src dst np port l : keeps (sees v) (find_hm src dst np port l : ST W _).
Proof. induction l as [|y l IH]; simpl; eauto 8 with keeps. Qed.
Lemma sees_hostmap np src dst map port : keeps (sees v) (ipf_nat_hostmap cf np src dst map port : ST W _).
Proof.
  pose proof sees_find_hm. unfold ipf_nat_hostmap. apply keeps_bind; [auto with keeps|intros l].
  apply keeps_bind; [auto|intros [y|]]; [eauto with keeps|]. destruct np as [r|]; [|auto with keeps].
  apply keeps_bind; [auto with keeps|intros [y|]]; eauto 10 with keeps.
Qed.
Lemma sees_hostmapdel y : keeps (sees v) (ipf_nat_hostmapdel y : ST W unit).
Proof. pose proof sees_rule_deref. unfold ipf_nat_hostmapdel. eauto 10 with keeps. Qed.
Lemma sees_delrdr r : keeps (sees v) (ipf_nat_delrdr be r : ST W unit).
Proof. unfold ipf_nat_delrdr. eauto 10 with keeps. Qed.
Lemma sees_delmap r : keeps (sees v) (ipf_nat_delmap be r : ST W unit).
Proof. unfold ipf_nat_delmap. eauto 10 with keeps. Qed.
Lemma sees_addrdr r : keeps (sees v) (ipf_nat_addrdr cf be r : ST W unit).
Proof. unfold ipf_nat_addrdr. eauto 10 with keeps. Qed.
Lemma sees_addmap r : keeps (sees v) (ipf_nat_addmap cf be r : ST W unit).
Proof. unfold ipf_nat_addmap. eauto 10 with keeps. Qed.
End Frames.
#[export] Hint Resolve sees_hostmap sees_hostmapdel sees_delrdr sees_delmap sees_addrdr sees_addmap : keeps.

(** ** Lookups without proxies *)

Section Find.
Context {E : Type} `{nat_env E} (cf : natconf) (be : bool).
Abbreviation W := (natw E).

(** A session without a proxy, and the first of a chain that matches. *)
Definition plain (nats : gmap loc natt) (l : list loc) : Prop :=
  forall x, x ∈ l -> exists e, nats !! x = Some e /\ nat_aps e = None.
Fixpoint first_match (matches : natt -> bool) (nats : gmap loc natt) (l : list loc) : option loc :=
  match l with
  | [] => None
  | x :: l => match nats !! x with
              | Some e => if matches e then Some x else first_match matches nats l
              | None => None
              end
  end.
Lemma plain_cons nats x l : plain nats (x :: l) -> (exists e, nats !! x = Some e /\ nat_aps e = None) /\ plain nats l.
Proof. intros Hp. split; [apply Hp; left|intros y Hy; apply Hp; by right]. Qed.
Lemma refused_plain e x any w : nat_aps e = None -> refused (E:=E) e x any w = Some (false, w).
Proof. intros Ha. unfold refused. rewrite Ha, andb_false_r. done. Qed.
Lemma find_nat_first matches any bound l w : plain (nw_nats w) l ->
  find_nat matches any bound l w =
  match first_match matches (nw_nats w) l with
  | Some x => (bound x;; mret (Some x)) w
  | None => Some (None, w)
  end.
Proof.
  induction l as [|x l IH]; simpl; intros Hp; [done|]. apply plain_cons in Hp as [(e & He & Ha) Hp].
  rewrite (bind_eq _ _ w e w) by (unfold nst; by rewrite He). rewrite He.
  destruct (matches e); simpl; [|by apply IH].
  by rewrite (bind_eq _ _ w false w) by (by apply refused_plain).
Qed.
Lemma first_match_none matches nats l : plain nats l ->
  first_match matches nats l = None <-> forall x e, x ∈ l -> nats !! x = Some e -> matches e = false.
Proof.
  induction l as [|x l IH]; simpl; intros Hp; [split; [set_solver|done]|].
  apply plain_cons in Hp as [(e & He & _) Hp]. rewrite He. destruct (matches e) eqn:Hm.
  - split; [done|]. intros Hn. rewrite (Hn x e) in Hm; [done|left|done].
  - rewrite IH by done. split; [|intros Hn y f Hy; apply Hn; by right].
    intros Hn y f [->|Hy]%elem_of_cons Hf; [congruence|eauto].
Qed.
Lemma first_match_same matches nats nats' l :
  (forall x, x ∈ l -> nats' !! x = nats !! x) -> first_match matches nats' l = first_match matches nats l.
Proof.
  induction l as [|x l IH]; simpl; intros Hn; [done|]. rewrite (Hn x) by left.
  destruct (nats !! x); [|done]. rewrite IH; [done|]. intros y Hy. apply Hn. by right.
Qed.
End Find.

(** ** The lookup of a reply *)

Section Reply.
Context {E : Type} `{nat_env E} (cf : natconf) (be : bool).
Abbreviation W := (natw E).

Definition tcpudp (p : Z) : Prop := p = IPPROTO_TCP \/ p = IPPROTO_UDP.
Lemma nat_ports_tcpudp p flags fin : tcpudp p -> nat_ports be p flags fin = (htons be (fin_sport fin), htons be (fin_dport fin)).
Proof. by intros [->| ->]. Qed.
Lemma has_clear f m k : has (clear f m) k = true -> has f k = true.
Proof.
  rewrite !has_true. unfold clear. intros Hn Hz. apply Hn. apply Z.bits_inj'. intros i Hi.
  rewrite Z.land_spec, Z.ldiff_spec, Z.bits_0. apply (f_equal (fun t => Z.testbit t i)) in Hz.
  rewrite Z.land_spec, Z.bits_0 in Hz. destruct (Z.testbit f i), (Z.testbit k i); simpl in *; try done. by rewrite andb_false_r.
Qed.
Lemma has_more f k m : Z.land k m = k -> has f k = true -> has f m = true.
Proof.
  intros Hk. rewrite !has_true. intros Hn Hz. apply Hn. by rewrite <- Hk, (Z.land_comm k), Z.land_assoc, Hz.
Qed.
Lemma has_cleared f m k : Z.land m k = k -> has (clear f m) k = false.
Proof.
  intros Hk. apply has_false. unfold clear. apply Z.bits_inj'. intros i Hi.
  rewrite Z.land_spec, Z.ldiff_spec, Z.bits_0. apply (f_equal (fun t => Z.testbit t i)) in Hk.
  rewrite Z.land_spec in Hk. destruct (Z.testbit f i), (Z.testbit m i), (Z.testbit k i); simpl in *; done.
Qed.

(** The chain in which [ipf_nat_inlookup] looks. *)
Definition in_chain (tab : Z -> list loc) (src dst sport dport : Z) : list loc :=
  tab (hash_pair dst src dport sport mod ipf_nat_table_sz cf).
Definition in_found (w : W) (p src dst sport dport : Z) (ifp : option loc) : option loc :=
  first_match (in_match be p src dst sport dport ifp) (nw_nats w) (in_chain (nw_table1 w) src dst sport dport).
Lemma inlookup_plain flags p src dst w sport dport :
  tcpudp p -> sport = htons be (fin_sport (nw_fin w)) -> dport = htons be (fin_dport (nw_fin w)) ->
  has flags SI_WILDP = false -> wild_search flags (ns_wilds w) (nw_fin w) = false ->
  plain (nw_nats w) (in_chain (nw_table1 w) src dst sport dport) ->
  ipf_nat_inlookup cf be flags p src dst w =
  match in_found w p src dst sport dport (fin_ifp (nw_fin w)) with
  | Some x => (bind_ifp0 x (fin_ifp (nw_fin w));; mret (Some x)) w
  | None => Some (None, w)
  end.
Proof.
  intros Hp Hs Hd Hf Hw Hc. unfold ipf_nat_inlookup. rewrite (bind_eq _ _ w w w) by done. cbv zeta.
  rewrite nat_ports_tcpudp, <- Hs, <- Hd by done. rewrite Hf.
  unfold in_chain, hash_pair in Hc. unfold mbind at 1, st_bind at 1. rewrite find_nat_first by exact Hc.
  unfold in_found, in_chain, hash_pair. destruct (first_match _ _ _) as [x|].
  - unfold bind_ifp0, mbind, st_bind, upd_nat. destruct (nw_nats w !! x); done.
  - rewrite (bind_eq _ _ w w w) by done. cbv zeta. rewrite Hw. done.
Qed.
Lemma inlookup_none flags p src dst w sport dport :
  tcpudp p -> sport = htons be (fin_sport (nw_fin w)) -> dport = htons be (fin_dport (nw_fin w)) ->
  has flags SI_WILDP = false -> wild_search flags (ns_wilds w) (nw_fin w) = false ->
  plain (nw_nats w) (in_chain (nw_table1 w) src dst sport dport) ->
  in_found w p src dst sport dport (fin_ifp (nw_fin w)) = None ->
  ipf_nat_inlookup cf be flags p src dst w = Some (None, w).
Proof. intros. erewrite inlookup_plain by done. by rewrite H6. Qed.

(** Binding the interface of the packet changes no comparison for that interface. *)
Definition with_ifp0 (ifp : option loc) (e : natt) : natt :=
  match nat_ifp0 e with Some _ => e | None => e <| nat_ifp0 := ifp |> end.
Lemma in_match_bound p src dst sport dport ifp e :
  in_match be p src dst sport dport ifp (with_ifp0 ifp e) = in_match be p src dst sport dport ifp e.
Proof.
  unfold with_ifp0. destruct (nat_ifp0 e) as [i|] eqn:Hi; [done|]. unfold in_match.
  assert (Ho : forall m, m = None \/ m = ifp -> other_ifp m ifp = false).
  { intros m [->| ->]; unfold other_ifp; [done|]. rewrite (bool_decide_eq_true_2 (ifp = ifp)) by done. by rewrite andb_false_r. }
  cbn. by rewrite !Ho by (rewrite ?Hi; auto).
Qed.
End Reply.
