(* ===== verification/NatNew.v ===== *)
(** New sessions of ip_nat.c: [ipf_nat_newmap] chooses the translation for a session
    that a packet going out opens, [ipf_nat_newrdr] for one that a packet coming in
    opens; [ipf_nat_add] builds the session and [ipf_nat_finalise] computes its
    checksum differences and enters it into the table. *)
From S2P Require Import Prelude Packet Cksum Filter Timeoutq TcpAge Queues Sweeps TcpWindow State StateLookup NatTable.

(** ** Definitions *)

Definition MAX32 : Z := 0xffffffff.

(** What one round of the search of [ipf_nat_newmap] ends with: the function fails, the
    address (in host order) and port are free, or they are taken and the search goes on
    with the host map [hm]. *)
Inductive round := RoundFail | RoundFree (addr port : Z) | RoundTaken (hm : option loc).
(** The outcome of the search. *)
Inductive search := Failed | Chosen (addr port : Z) | OutOfFuel.

Section New.
Context {E : Type} `{nat_env E} (cf : natconf) (be : bool).
Abbreviation W := (natw E).

(** ** [ipf_nat_newmap] *)

(** The address of the round, by the kind of rule; [ifa] is the address of the interface,
    [in1] the address from the host map or the rule, all but [in1] in network order.
    The rule may move on to its next address. *)
Definition map_addr (r : ipnat) (saddr flags l sport in1 : Z) (hm : option loc) (ifa : option Z) :
    ST W (option (Z * Z * ipnat)) :=
  if (in_nsrcmsk r =? MAX32) && (in_spnext r =? 0) && (l >? 0) then mret None
  else if (in_redir r =? NAT_BIMAP) && (in_osrcmsk r =? in_nsrcmsk r) then
    mret (Some (ntohl be (Z.lor (in_nsrcaddr r) (Z.land saddr (not32 (in_osrcmsk r)))), 0, r))
  else if has (in_redir r) NAT_MAPBLK then
    if (l >=? in_ppip r) || ((l >? 0) && negb (has flags IPN_TCPUDP)) then mret None else
    if in_ippip r =? 0 then stuck else
    let inb := Z.land (ntohl be saddr) (ntohl be (not32 (in_osrcmsk r))) in
    let a := u32 (Z.land (inb / in_ippip r) (ntohl be (not32 (in_nsrcmsk r))) + ntohl be (in_nsrcaddr r)) in
    let port := if has flags IPN_TCPUDP && negb (in_ppip r =? 0) then
                  htons be (u16 (u16 (u16 (ntohs be sport + l) mod in_ppip r + in_ppip r * (inb mod in_ippip r)) +
                                 MAPBLK_MINPORT))
                else 0 in
    mret (Some (a, port, r))
  else if (in_nsrcaddr r =? 0) && (in_nsrcmsk r =? MAX32) then
    match ifa with
    | Some a => if l >? 0 then mret None else mret (Some (ntohl be a, 0, r))
    | None => mret None
    end
  else if (in_nsrcaddr r =? 0) && (in_nsrcmsk r =? 0) then
    if l >? 0 then mret None else mret (Some (ntohl be saddr, 0, r))
  else if negb (in_nsrcmsk r =? MAX32) && (in_spnext r =? 0) && ((l >? 0) || bool_decide (hm = None)) then
    mret (Some (in1, 0, r <| in_snip ::= fun a => u32 (a + 1) |>))
  else mret (Some (in1, 0, r)).

(** The port: automatic, or the next of the rule's range. *)
Definition map_port (r : ipnat) (saddr flags l sport port : Z) : ST W (Z * ipnat) :=
  if has flags IPN_TCPUDP && negb (has (in_redir r) NAT_MAPBLK) && has (in_flags r) IPN_AUTOPORTMAP then
    if (l >? 0) && (in_ppip r =? 0) then stuck else
    let r := if (l >? 0) && (l mod in_ppip r =? 0) && (l >? in_ppip r) && negb (in_nsrcmsk r =? MAX32)
             then r <| in_snip ::= fun a => u32 (a + 1) |> else r in
    if in_ppip r =? 0 then mret (port, r)
    else if in_ippip r =? 0 then stuck
    else
      let p := u16 (ntohs be sport + l mod in_ppip r) mod in_ppip r in
      mret (htons be (u16 (u16 (p + in_ppip r * (ntohl be saddr mod in_ippip r)) + MAPBLK_MINPORT)), r)
  else if negb (has (in_redir r) NAT_MAPBLK) && has flags IPN_TCPUDPICMP && negb (in_spnext r =? 0) then
    p ← (if has (in_flags r) IPN_SEQUENTIAL then mret (in_spnext r)
         else
           x ← next nenv_random;
           if in_spmax r - in_spmin r + 1 =? 0 then stuck
           else mret (u16 (u16 (u32 x mod u32 (in_spmax r - in_spmin r + 1)) + in_spmin r)));
    let r := r <| in_spnext ::= fun k => u16 (k + 1) |> in
    let r := if in_spnext r >? in_spmax r then
               let r := r <| in_spnext := in_spmin r |> in
               if in_nsrcmsk r =? MAX32 then r else r <| in_snip ::= fun a => u32 (a + 1) |>
             else r in
    mret (htons be p, r)
  else mret (port, r).

(** The rule's next address stays within its range. *)
Definition wrap_snip (r : ipnat) : ipnat :=
  let lo := ntohl be (in_nsrcaddr r) in
  let msk := ntohl be (in_nsrcmsk r) in
  if has (in_flags r) IPN_SIPRANGE then if in_snip r >? msk then r <| in_snip := lo |> else r
  else if negb (in_nsrcmsk r =? MAX32) && (Z.land (u32 (in_snip r + 1)) msk >? lo) then r <| in_snip := u32 (lo + 1) |>
  else r.

(** The host map of the round, and the address it starts from. *)
Definition map_hm (np : loc) (l : Z) (hm : option loc) : ST W (option loc * Z) :=
  r ← rule np;
  fin ← gets nw_fin;
  let a := htonl be (in_snip r) in
  if l =? 0 then
    h ← ipf_nat_hostmap cf (Some np) (fin_saddr fin) (fin_daddr fin) a 0;
    match h with
    | Some y => e ← hmst y; mret (h, hm_nsrcip e)
    | None => mret (None, a)
    end
  else if l =? 1 then
    match hm with
    | Some y => ipf_nat_hostmapdel y;; mret (None, a)
    | None => mret (None, a)
    end
  else mret (hm, a).

(** Whether a session already uses the reply that the translation would bring. *)
Definition taken (flags dst inb port : Z) : ST W bool :=
  fin ← gets nw_fin;
  upd_nfin (set_data (fin_dport fin) (ntohs be port));;
  natl ← ipf_nat_inlookup cf be (clear flags (Z.lor SI_WILDP NAT_SEARCH)) (fin_p fin) dst inb;
  upd_nfin (set_data (fin_sport fin) (fin_dport fin));;
  mret (bool_decide (is_Some natl)).

(** One round: the body of the loop. *)
Definition newmap_round (x np : loc) (st_ip st_port sport flags l : Z) (hm : option loc) : ST W round :=
  '(hm, in1) ← map_hm np l hm;
  upd_nat x (fun e => e <| nat_hm := hm |>);;
  r ← rule np;
  w ← gets id;
  let fin := nw_fin w in
  a ← map_addr r (fin_saddr fin) flags l sport (ntohl be in1) hm (nenv_ifpaddr (nw_ext w) (fin_ifp fin));
  match a with
  | None => mret RoundFail
  | Some (addr, port, r) =>
      '(port, r) ← map_port r (fin_saddr fin) flags l sport port;
      let r := wrap_snip r in
      upd_rule np (fun _ => r);;
      let port := if (port =? 0) && has flags (Z.lor IPN_TCPUDPICMP IPN_ICMPERR) then sport else port in
      t ← taken flags (fin_daddr fin) (htonl be addr) port;
      if negb t then mret (RoundFree addr port)
      else if negb (in_spnext r =? 0) && (st_port =? in_spnext r) && negb (in_snip r =? 0) && (st_ip =? in_snip r)
      then mret RoundFail
      else mret (RoundTaken hm)
  end.
Fixpoint newmap_search (fuel : nat) (x np : loc) (st_ip st_port sport flags l : Z) (hm : option loc) : ST W search :=
  match fuel with
  | O => mret OutOfFuel
  | S fuel =>
      o ← newmap_round x np st_ip st_port sport flags l hm;
      match o with
      | RoundFail => mret Failed
      | RoundFree addr port => mret (Chosen addr port)
      | RoundTaken hm => newmap_search fuel x np st_ip st_port sport flags (l + 1) hm
      end
  end.

Definition wr_buf (off v : Z) : ST W unit :=
  w ← gets id;
  m ← need (wr16 be (fin_dp (nw_fin w) + off) v (nw_buf w));
  modify (fun w => w <| nw_buf := m |>).
(** [sport] and [dport] of the packet, or its identifier in the place of one of them. *)
Definition map_ports (flags : Z) (fin : fr_info) : Z * Z :=
  if has flags IPN_ICMPQUERY then (fin_dport fin, 0) else (htons be (fin_sport fin), htons be (fin_dport fin)).
Definition newmap_fill (x np : loc) (flags sport dport addr port : Z) : ST W unit :=
  fin ← gets nw_fin;
  upd_nat x (fun e => e <| nat_osrcaddr := fin_saddr fin |> <| nat_nsrcaddr := htonl be addr |>
                        <| nat_odstaddr := fin_daddr fin |> <| nat_ndstaddr := fin_daddr fin |>);;
  e ← nst x;
  match nat_hm e with
  | Some _ => mret tt
  | None => h ← ipf_nat_hostmap cf (Some np) (fin_saddr fin) (fin_daddr fin) (nat_nsrcaddr e) 0;
            upd_nat x (fun e => e <| nat_hm := h |>)
  end;;
  if has flags IPN_TCPUDP then
    upd_nat x (fun e => e <| nat_osport := sport |> <| nat_nsport := port |> <| nat_odport := dport |> <| nat_ndport := dport |>);;
    wr_buf 0 port
  else if has flags IPN_ICMPQUERY then
    upd_nat x (fun e => e <| nat_osport ::= set_id be (fin_dport fin) |>);;
    wr_buf 4 port;;
    upd_nat x (fun e => e <| nat_nsport ::= set_id be port |>)
  else mret tt.
(** [None] when the search does not end within [fuel] rounds. *)
Definition ipf_nat_newmap (fuel : nat) (x np : loc) : ST W (option Z) :=
  r ← rule np;
  e ← nst x;
  fin ← gets nw_fin;
  let flags := nat_flags e in
  let '(sport, dport) := map_ports flags fin in
  s ← newmap_search fuel x np (in_snip r) (in_spnext r) sport flags 0 None;
  match s with
  | OutOfFuel => mret None
  | Failed => mret (Some (-1))
  | Chosen addr port => newmap_fill x np flags sport dport addr port;; mret (Some 0)
  end.

(** ** [ipf_nat_newrdr] *)

(** A sticky mapping chosen before: the rule that it was made by (its address is read as
    well, and then overwritten). *)
Definition sticky_hm (np : loc) (dport : Z) : ST W (option loc) :=
  r ← rule np;
  fin ← gets nw_fin;
  if has (in_flags r) (Z.lor IPN_ROUNDR IPN_SPLIT) && has (in_flags r) IPN_STICKY then
    h ← ipf_nat_hostmap cf None (fin_saddr fin) (fin_daddr fin) 0 dport;
    match h with
    | Some y =>
        e ← hmst y;
        ipf_nat_hostmapdel y;;
        mret (Some (hm_ipnat e))
    | None => mret None
    end
  else mret None.
(** A rule with two addresses: the address, and whether the rule may still be moved. *)
Definition split_addr (np : loc) (dport : Z) (move : bool) : ST W (Z * bool) :=
  r ← rule np;
  fin ← gets nw_fin;
  h ← (if Z.land (in_flags r) (Z.lor IPN_ROUNDR IPN_STICKY) =? IPN_STICKY
       then ipf_nat_hostmap cf None (fin_saddr fin) (fin_daddr fin) (htonl be (in_dnip r)) dport
       else mret None);
  am ← match h with
       | Some y => e ← hmst y; mret (hm_ndstip e, false, hm_ref e =? 1)
       | None => mret (in_dnip r, move, true)
       end;
  let '(addr, move, advance) := am : Z * bool * bool in
  move ← (if advance then
            if in_ndstaddr r =? htonl be addr then upd_rule np (fun r => r <| in_dnip := ntohl be (in_ndstmsk r) |>);; mret false
            else upd_rule np (fun r => r <| in_dnip := ntohl be (in_ndstaddr r) |>);; mret move
          else mret move);
  match h with Some y => ipf_nat_hostmapdel y | None => mret tt end;;
  mret (addr, move).
Definition rdr_addr (np : loc) (dport : Z) (move : bool) : ST W (option (Z * bool)) :=
  r ← rule np;
  w ← gets id;
  let fin := nw_fin w in
  if has (in_flags r) IPN_SPLIT then a ← split_addr np dport move; mret (Some a)
  else if (in_ndstaddr r =? 0) && (in_ndstmsk r =? MAX32) then
    mret (match nenv_ifpaddr (nw_ext w) (fin_ifp fin) with Some a => Some (ntohl be a, move) | None => None end)
  else if (in_ndstaddr r =? 0) && (in_ndstmsk r =? 0) then mret (Some (ntohl be (fin_daddr fin), move))
  else if (in_redir r =? NAT_BIMAP) && (in_ndstmsk r =? in_odstmsk r) then
    mret (Some (ntohl be (Z.lor (in_ndstaddr r) (Z.land (fin_daddr fin) (not32 (in_ndstmsk r)))), move))
  else mret (Some (ntohl be (in_ndstaddr r), move)).
Definition rdr_port (np : loc) (flags dport : Z) : ST W Z :=
  r ← rule np;
  if (in_dpnext r =? 0) || has flags NAT_NOTRULEPORT then mret dport
  else if negb (has (in_flags r) IPN_FIXEDDPORT) && negb (in_odport r =? in_dtop r) then
    mret (htons be (u16 (ntohs be dport - in_odport r + in_dpmax r)))
  else
    upd_rule np (fun r => r <| in_dpnext := let n := u16 (in_dpnext r + 1) in if n >? in_dpmax r then in_dpmin r else n |>);;
    mret (htons be (in_dpnext r)).
Definition rdr_taken (flags src inb port : Z) : ST W bool :=
  fin ← gets nw_fin;
  upd_nfin (set_data (ntohs be port) (fin_sport fin));;
  natl ← ipf_nat_outlookup cf be (clear flags (Z.lor SI_WILDP NAT_SEARCH)) (fin_p fin) inb src;
  upd_nfin (set_data (fin_sport fin) (fin_dport fin));;
  mret (bool_decide (is_Some natl)).
Definition newrdr_fill (x np : loc) (flags sport dport addr nport : Z) : ST W unit :=
  r ← rule np;
  fin ← gets nw_fin;
  upd_nat x (fun e => e <| nat_ndstaddr := htonl be addr |> <| nat_odstaddr := fin_daddr fin |>
                        <| nat_nsrcaddr := fin_saddr fin |> <| nat_osrcaddr := fin_saddr fin |>);;
  e ← nst x;
  match nat_hm e with
  | None =>
      when_ (has (in_flags r) IPN_STICKY)
        (h ← ipf_nat_hostmap cf (Some np) (fin_saddr fin) (fin_daddr fin) (htonl be addr) dport;
         upd_nat x (fun e => e <| nat_hm := h |>))
  | Some _ => mret tt
  end;;
  if has flags IPN_TCPUDP then
    upd_nat x (fun e => e <| nat_odport := dport |> <| nat_ndport := nport |> <| nat_osport := sport |> <| nat_nsport := sport |>);;
    wr_buf 2 nport
  else if has flags IPN_ICMPQUERY then
    upd_nat x (fun e => e <| nat_osport ::= set_id be (fin_dport fin) |>);;
    wr_buf 4 nport;;
    upd_nat x (fun e => e <| nat_nsport ::= set_id be nport |>)
  else mret tt.
(** The result, and the rule to go on with. *)
Definition ipf_nat_newrdr (x np : loc) : ST W (Z * loc) :=
  e ← nst x;
  fin ← gets nw_fin;
  let flags := nat_flags e in
  let '(dport, sport) := if has flags IPN_ICMPQUERY then (fin_dport fin, 0)
                         else (htons be (fin_dport fin), htons be (fin_sport fin)) in
  s ← sticky_hm np dport;
  let '(np, move) := match s with Some np => (np, false) | None => (np, true) end in
  a ← rdr_addr np dport move;
  match a with
  | None => mret (-1, np)
  | Some (addr, move) =>
      nport ← rdr_port np flags dport;
      if (addr =? 0) && (nport =? dport) then mret (-1, np) else
      let addr := if addr =? 0 then ntohl be (fin_daddr fin) else addr in
      t ← rdr_taken flags (fin_saddr fin) (htonl be addr) nport;
      if (t : bool) then mret (-1, np) else
      newrdr_fill x np flags sport dport addr nport;;
      mret (b2z move, np)
  end.

(** ** [ipf_nat_finalise] *)

(** [sumd = (sumd & 0xffff) + (sumd >> 16)] of the difference from [a] to [b]. *)
Definition sumd_of (a b : Z) : Z :=
  let d := CALC_SUMD u32 (LONG_SUM a) (LONG_SUM b) in u32 (Z.land d 0xffff + Z.shiftr d 16).
Definition fold_sum (s : Z) : Z := u32 (Z.land s 0xffff + Z.shiftr s 16).
Definition finalise_sums (e : natt) : natt :=
  let l4 := if nat_pr0 e =? IPPROTO_ICMP then sumd_of (ntohs be (nat_oicmpid be e)) (ntohs be (nat_nicmpid be e))
            else
              u32 (sumd_of (u32 (ntohl be (nat_osrcaddr e) + ntohs be (nat_osport e)))
                           (u32 (ntohl be (nat_nsrcaddr e) + ntohs be (nat_nsport e))) +
                   sumd_of (u32 (ntohl be (nat_odstaddr e) + ntohs be (nat_odport e)))
                           (u32 (ntohl be (nat_ndstaddr e) + ntohs be (nat_ndport e)))) in
  let part := if nat_dir e =? NAT_OUTBOUND
              then u32 (LONG_SUM (ntohl be (nat_nsrcaddr e)) + LONG_SUM (ntohl be (nat_ndstaddr e)))
              else u32 (LONG_SUM (ntohl be (nat_osrcaddr e)) + LONG_SUM (ntohl be (nat_odstaddr e))) in
  e <| nat_sumd0 := l4 |>
    <| nat_sumd1 := fold_sum (u32 (part + nat_pr1 e)) |>
    <| nat_ipsumd := u32 (sumd_of (ntohl be (nat_osrcaddr e)) (ntohl be (nat_nsrcaddr e)) +
                          sumd_of (ntohl be (nat_odstaddr e)) (ntohl be (nat_ndstaddr e))) |>
    <| nat_v0 := 4 |> <| nat_v1 := 4 |>.
Definition ipf_nat_finalise (x : loc) : ST W Z :=
  upd_nat x finalise_sums;;
  e ← nst x;
  fin ← gets nw_fin;
  when_ (negb (has (nat_flags e) SI_CLONE))
    (s ← next (nenv_sync_new x fin); upd_nat x (fun e => e <| nat_sync := s |>));;
  r ← ipf_nat_insert cf be x;
  if r =? 0 then
    when_ (negb (ipf_nat_logging cf =? 0)) (next_ (nenv_log x NL_NEW));;
    match nat_fr e with
    | Some fr => w ← gets id; k ← need (nw_frs w !! fr); modify (fun w => w <| nw_frs ::= <[fr := k + 1]> |>)
    | None => mret tt
    end;;
    mret 0
  else
    e ← nst x;
    match nat_sync e with Some s => next_ (nenv_sync_del s) | None => mret tt end;;
    mret (-1).

(** ** [ipf_nat_add] *)

Definition nat_zero : natt :=
  mk_natt false None None None None None None None (replicate 16 0) (replicate 16 0) None 0 0 0 0 0 0 0 0 0 0 0 0 0
    (0, 0) (0, 0) 0 0 0 0 0 0 0 0 0 0 0.
(** [KFREE] of a session that is not in the table. *)
Definition kfree_nat (x : loc) : ST W unit :=
  modify (fun w => w <| nw_nats ::= delete x |> <| nw_heap ::= fun h => h <| ents ::= delete x |> |>).
(** [badnat]. *)
Definition bad_nat (x : loc) : ST W unit :=
  e ← nst x;
  match nat_hm e with Some h => ipf_nat_hostmapdel h | None => mret tt end;;
  kfree_nat x.
(** The translation is chosen by the kind of rule: the session that is there already, or
    the result and the rule to go on with. *)
Definition new_translation (fuel : nat) (x np : loc) (nflags direction : Z) : ST W (option (loc + Z * loc)) :=
  r ← rule np;
  fin ← gets nw_fin;
  if has (in_redir r) NAT_DIVERTUDP then m ← nenv_newdivert x np; mret (Some (inr m))
  else if has (in_redir r) NAT_REWRITE then m ← nenv_newrewrite x np; mret (Some (inr m))
  else if direction =? NAT_OUTBOUND then
    natl ← ipf_nat_outlookup cf be nflags (fin_p fin) (fin_saddr fin) (fin_daddr fin);
    match natl with
    | Some y => mret (Some (inl y))
    | None => m ← ipf_nat_newmap fuel x np; mret (match m with Some m => Some (inr (m, np)) | None => None end)
    end
  else
    natl ← ipf_nat_inlookup cf be nflags (fin_p fin) (fin_saddr fin) (fin_daddr fin);
    match natl with
    | Some y => mret (Some (inl y))
    | None => m ← ipf_nat_newrdr x np; mret (Some (inr m))
    end.
(** A rule of a round robin goes to the end of its bucket. *)
Definition move_rule (np : loc) (move : Z) : ST W unit :=
  r ← rule np;
  when_ ((move =? 1) && has (in_flags r) IPN_ROUNDR)
    (let k := Z.land (in_redir r) NAT_BIMAP in
     if k =? NAT_REDIRECT then ipf_nat_delrdr be np;; ipf_nat_addrdr cf be np
     else if k =? NAT_MAP then ipf_nat_delmap be np;; ipf_nat_addmap cf be np
     else mret tt).
(** The rest of the session, and its entry into the table. *)
Definition complete_nat (x np : loc) (natsave : option loc) : ST W Z :=
  r ← rule np;
  fin ← gets nw_fin;
  upd_nat x (fun e => e <| nat_mssclamp := in_mssclamp r |> <| nat_me := natsave |> <| nat_fr := fin_fr fin |>
                        <| nat_rev := fin_rev fin |> <| nat_ptr := Some np |> <| nat_dlocal := in_dlocal r |>);;
  e ← nst x;
  p ← (if bool_decide (is_Some (in_apr r)) && negb (has (nat_flags e) NAT_SLAVE) then nenv_proxy_new x else mret 0);
  if p =? -1 then mret (-1) else
  w ← gets id;
  let name i old := match i with Some i => strncpy 16 (nenv_ifname (nw_ext w) i) old | None => old end in
  upd_nat x (fun e => e <| nat_ifp0 := in_ifp0 r |> <| nat_ifname0 ::= name (in_ifp0 r) |>
                        <| nat_ifp1 := in_ifp1 r |> <| nat_ifname1 ::= name (in_ifp1 r) |>);;
  ipf_nat_finalise x.
Definition note_usage : ST W unit :=
  modify (fun w => if u32 (ns_active w * 100) / nw_table_max w >? ipf_nat_table_wm_high cf
                   then w <| nw_doflush := 1 |> else w).
(** The outer [option] is [None] when the search of [ipf_nat_newmap] does not end. *)
Definition ipf_nat_add (fuel : nat) (np : loc) (natsave : option loc) (flags direction : Z) : ST W (option (option loc)) :=
  note_usage;;
  w ← gets id;
  let done np (y : option loc) : ST W (option (option loc)) :=
    match y with Some _ => upd_rule np (fun n => n <| in_hits ::= fun k => k + 1 |>) | None => mret tt end;;
    match natsave with Some v => modify (fun w => w <| nw_saved ::= <[v := y]> |>) | None => mret tt end;;
    mret (Some y) in
  if ns_active w >=? nw_table_max w then mret (Some None) else
  r ← rule np;
  let nflags := Z.land (Z.land (in_flags r) flags) NAT_FROMRULE in
  alloc ← nkmalloc;
  match alloc with
  | None =>
      when_ ((nw_table_max w >? ipf_nat_table_sz cf) && (ns_active w >? 100))
        (modify (fun w => w <| nw_table_max := ns_active w - 100 |>));;
      mret (Some None)
  | Some x =>
      let fin := nw_fin w in
      modify (fun w => w <| nw_nats ::= <[x := nat_zero <| nat_flags := flags |> <| nat_redir := in_redir r |>
          <| nat_dir := direction |> <| nat_pr0 := fin_p fin |> <| nat_pr1 := fin_p fin |>]> |>
        <| nw_heap ::= fun h => h <| ents ::= <[x := mk_tqent None None None None 0 0 0 0 0]> |> |>);;
      t ← new_translation fuel x np nflags direction;
      match t with
      | None => mret None
      | Some (inl y) => kfree_nat x;; done np (Some y)
      | Some (inr (move, np)) =>
          if move =? -1 then bad_nat x;; done np None else
          ok ← complete_nat x np natsave;
          if ok =? -1 then bad_nat x;; done np None else
          upd_rule np (fun n => n <| in_use ::= fun u => u + 1 |>);;
          move_rule np move;;
          when_ (has flags SI_WILDP) (modify (fun w => w <| ns_wilds ::= fun n => u32 (n + 1) |>));;
          done np (Some x)
      end
  end.
End New.

(** ** What the search leaves alone *)

Section Search.
Context {E : Type} `{nat_env E} (cf : natconf) (be : bool).
Abbreviation W := (natw E).

(** [x] is the session under construction: other sessions may get the interface [ifp],
    and [x] a host map. *)
Record near (x : loc) (w w' : W) : Prop := {
  nr_table0 : nw_table0 w' = nw_table0 w; nr_table1 : nw_table1 w' = nw_table1 w;
  nr_fin : nw_fin w' = nw_fin w; nr_buf : nw_buf w' = nw_buf w; nr_wilds : ns_wilds w' = ns_wilds w;
  nr_other : forall y, y <> x -> nw_nats w' !! y = nw_nats w !! y \/
                                 nw_nats w' !! y = with_ifp0 (fin_ifp (nw_fin w)) <$> nw_nats w !! y;
  nr_rules : rules_plain w';
  nr_x : exists h, nw_nats w' !! x = (fun e => e <| nat_hm := h |>) <$> nw_nats w !! x }.
Lemma near_view x w0 w w' : view w' = view w -> nw_rules w' = nw_rules w -> near x w0 w -> near x w0 w'.
Proof.
  intros [= E1 E2 E3 E4 E5 E6] Er [H1 H2 H3 H4 H5 H6 H7 H8]. unfold rules_plain in H7. rewrite <- Er in H7.
  split; rewrite ?E1, ?E2, ?E3, ?E4, ?E5, ?E6; assumption. Qed.
Lemma near_refl x w e : nw_nats w !! x = Some e -> rules_plain w -> near x w w.
Proof. intros He Hr. split; try done; [intros; by left|]. exists (nat_hm e). rewrite He. cbn. by destruct e. Qed.
Lemma keeps_near x w0 {A} (m : ST W A) : (forall v, keeps (sees v) m) -> keeps (near x w0) m.
Proof.
  intros Hm w Hw. eapply wp_mono; [apply (Hm (view w)); split; [done|apply Hw]|].
  intros a w' [[= E1 E2 E3 E4 E5 E6] Hr]. destruct Hw as [H1 H2 H3 H4 H5 H6 H7 H8].
  split; rewrite ?E1, ?E2, ?E3, ?E4, ?E5, ?E6; assumption.
Qed.
Lemma keeps_near_hm x w0 h : keeps (near x w0) (upd_nat x (fun e => e <| nat_hm := h |>)).
Proof.
  intros w Hw. apply wlp_upd_nat. intros e He. destruct Hw as [H1 H2 H3 H4 H5 H6 Hr [h' H7]]. split; cbn; try done.
  - intros y Hy. rewrite lookup_alter_ne by done. by apply H6.
  - exists h. rewrite lookup_alter, decide_True, H7 by done. by destruct (nw_nats w0 !! x).
Qed.

Lemma with_ifp0_idem ifp e : with_ifp0 ifp (with_ifp0 ifp e) = with_ifp0 ifp e.
Proof. unfold with_ifp0. destruct (nat_ifp0 e) eqn:Hi; [by rewrite Hi|]. cbn. by destruct ifp. Qed.
Lemma with_ifp0_aps ifp e : nat_aps (with_ifp0 ifp e) = nat_aps e.
Proof. unfold with_ifp0. by destruct (nat_ifp0 e). Qed.
Lemma keeps_near_bind x w0 y : y <> x -> keeps (near x w0) (bind_ifp0 y (fin_ifp (nw_fin w0))).
Proof.
  intros Hy w Hw. apply wlp_upd_nat. intros e He. destruct Hw as [H1 H2 H3 H4 H5 H6 Hr [h' H7]]. split; cbn; try done.
  - intros z Hz. destruct (decide (z = y)) as [->|Hzy]; [|rewrite lookup_alter_ne by done; by apply H6].
    rewrite lookup_alter, decide_True by done. right.
    destruct (H6 y Hy) as [->| ->]; destruct (nw_nats w0 !! y) as [f|]; try done. cbn. f_equal. apply with_ifp0_idem.
  - exists h'. by rewrite lookup_alter_ne by done.
Qed.
Lemma near_plain x w0 w l : near x w0 w -> x ∉ l -> plain (nw_nats w0) l -> plain (nw_nats w) l.
Proof.
  intros Hn Hx Hp y Hy. destruct (Hp y Hy) as (e & He & Ha).
  destruct (nr_other _ _ _ Hn y ltac:(by intros ->)) as [->| ->]; [by exists e|].
  exists (with_ifp0 (fin_ifp (nw_fin w0)) e). rewrite He, with_ifp0_aps. done.
Qed.
Lemma near_in_found x w0 w p src dst sport dport :
  near x w0 w -> (forall i, x ∉ nw_table1 w0 i) ->
  in_found cf be w p src dst sport dport (fin_ifp (nw_fin w)) = in_found cf be w0 p src dst sport dport (fin_ifp (nw_fin w0)).
Proof.
  intros Hn Hx. unfold in_found, in_chain. rewrite (nr_table1 _ _ _ Hn), (nr_fin _ _ _ Hn).
  set (l := nw_table1 w0 _). assert (Hl : x ∉ l) by apply Hx. clearbody l. clear Hx.
  induction l as [|y l IH]; simpl; [done|]. apply not_elem_of_cons in Hl as [Hy Hl].
  destruct (nr_other _ _ _ Hn y ltac:(done)) as [->| ->]; destruct (nw_nats w0 !! y) as [e|]; simpl; try done.
  - by rewrite IH.
  - rewrite in_match_bound. by rewrite IH.
Qed.

(** Every chain of sessions made without a proxy, and [x] in none. *)
Definition chains_plain (x : loc) (w : W) : Prop :=
  (forall i, plain (nw_nats w) (nw_table1 w i)) /\ (forall i, x ∉ nw_table1 w i).

(** The check of a round: the reply that the translation would bring finds nothing. *)
Definition unused (w : W) (inb port : Z) : Prop :=
  let fin := nw_fin w in
  in_found cf be w (fin_p fin) (fin_daddr fin) inb (htons be (fin_dport fin)) port (fin_ifp fin) = None.
Lemma htons_ntohs port : is_u16 port -> htons be (ntohs be port) = port.
Proof. apply ntohs_ntohs. Qed.
Lemma search_flags flags : has (clear flags (Z.lor SI_WILDP NAT_SEARCH)) SI_WILDP = false /\
  has (clear flags (Z.lor SI_WILDP NAT_SEARCH)) NAT_SEARCH = false.
Proof. split; by apply has_cleared. Qed.
Lemma set_data_back sp dp fin : set_data (fin_sport fin) (fin_dport fin) (set_data sp dp fin) = fin.
Proof. by destruct fin as [???[]]. Qed.
Lemma taken_spec x w0 flags inb port w :
  tcpudp (fin_p (nw_fin w0)) -> is_u16 port -> chains_plain x w0 -> near x w0 w ->
  wlp (taken cf be flags (fin_daddr (nw_fin w0)) inb port)
    (fun t w' => near x w0 w' /\ (t = false -> unused w0 inb port)) w.
Proof.
  intros Hp Hport [Hc Hx] Hn. unfold taken. rewrite wp_bind, wp_gets, wp_bind. unfold upd_nfin at 1. rewrite wp_modify.
  set (fin := nw_fin w). assert (Hfin : fin = nw_fin w0) by apply (nr_fin _ _ _ Hn).
  set (f1 := set_data (fin_dport fin) (ntohs be port) fin). destruct (search_flags flags) as [Hf1 Hf2].
  set (w1 := w <| nw_fin ::= set_data (fin_dport fin) (ntohs be port) |>).
  assert (Hn1 : near x w0 (w1 <| nw_fin := nw_fin w0 |>)) by (apply (near_view x w0 w); [by rewrite <- Hfin|done|exact Hn]).
  rewrite wp_bind. unfold wpg at 1.
  rewrite (inlookup_plain cf be _ _ _ _ _ (htons be (fin_dport fin)) port).
  2: by rewrite Hfin. 2: done. 2: symmetry; by apply htons_ntohs. 2: done.
  2: { unfold wild_search. by rewrite Hf2, andb_false_r. }
  2: { apply (near_plain x w0 (w1 <| nw_fin := nw_fin w0 |>) _ Hn1); unfold in_chain; cbn [nw_table1 field_set w1];
       rewrite (nr_table1 _ _ _ Hn); auto. }
  change (fin_ifp (nw_fin w1)) with (fin_ifp fin). rewrite Hfin.
  assert (He : forall p s d a b, in_found cf be w1 p s d a b (fin_ifp (nw_fin w0)) = in_found cf be w0 p s d a b (fin_ifp (nw_fin w0))).
  { intros. rewrite <- (near_in_found x w0 (w1 <| nw_fin := nw_fin w0 |>)) by done. done. }
  rewrite He. destruct (in_found cf be w0 _ _ _ _ _ _) as [y|] eqn:Hy.
  - assert (Hyx : y <> x).
    { intros ->. unfold in_found, in_chain in Hy. revert Hy. generalize (Hx (hash_pair inb (fin_daddr (nw_fin w0)) port
        (htons be (fin_dport (nw_fin w0))) mod ipf_nat_table_sz cf)). generalize (nw_table1 w0 (hash_pair inb
        (fin_daddr (nw_fin w0)) port (htons be (fin_dport (nw_fin w0))) mod ipf_nat_table_sz cf)).
      intros l. induction l as [|z l IH]; simpl; [done|]. intros [Hz Hl]%not_elem_of_cons.
      destruct (nw_nats w0 !! z) as [e|]; [|done]. case_match; [congruence|auto]. }
    pose proof (keeps_near_bind x w0 y Hyx (w1 <| nw_fin := nw_fin w0 |>) Hn1) as Hb.
    unfold wpg, bind_ifp0, upd_nat, mbind, st_bind in Hb |- *. cbn -[set_data] in Hb |- *.
    destruct (nw_nats w !! y) as [e|]; [|done]. cbn -[set_data] in Hb |- *. split; [|done].
    refine (near_view _ _ _ _ _ _ Hb); [|done]. unfold view. cbn -[set_data]. by rewrite <- Hfin, set_data_back.
  - unfold wpg, mbind, st_bind. cbn -[set_data]. split; [|done]. refine (near_view _ _ _ _ _ _ Hn1); [|done].
    unfold view. cbn -[set_data]. by rewrite <- Hfin, set_data_back.
Qed.

Lemma wlp_and {S A} (m : ST S A) (P Q : A -> S -> Prop) s :
  wlp m P s -> wlp m Q s -> wlp m (fun a s' => P a s' /\ Q a s') s.
Proof. unfold wpg. by destruct (m s) as [[]|]. Qed.
Lemma is_u16_0 : is_u16 0.
Proof. done. Qed.
Lemma htons_u16 v : is_u16 (htons be v).
Proof. apply ntohs_u16. Qed.

(** The address and the port of a round are computed without touching a session. *)
Lemma sees_map_addr v r saddr flags l sport in1 hm ifa : keeps (sees v) (map_addr be r saddr flags l sport in1 hm ifa : ST W _).
Proof.
  unfold map_addr. repeat apply keeps_if; try destruct ifa; repeat apply keeps_if; auto with keeps.
Qed.
Lemma sees_map_port v r saddr flags l sport port : keeps (sees v) (map_port be r saddr flags l sport port : ST W _).
Proof.
  unfold map_port. repeat apply keeps_if; auto with keeps.
Qed.
Lemma map_addr_result r saddr flags l sport in1 hm ifa (w : W) : plain_rule r ->
  wlp (map_addr be r saddr flags l sport in1 hm ifa)
    (fun o _ => forall a p r', o = Some (a, p, r') -> is_u16 p /\ plain_rule r') w.
Proof.
  intros Hr. unfold map_addr. pose proof is_u16_0.
  repeat match goal with
    | |- wpg _ (if ?b then _ else _) _ _ => destruct b
    | |- wpg _ (match ?o with Some _ => _ | None => _ end) _ _ => destruct o
    end; try done; unfold wpg; cbn; intros ??? [= <- <- <-]; try done.
  split; [|done]. case_match; [apply htons_u16|done].
Qed.
Lemma map_port_result r saddr flags l sport port (w : W) : is_u16 port -> plain_rule r ->
  wlp (map_port be r saddr flags l sport port) (fun o _ => is_u16 (fst o) /\ plain_rule (snd o)) w.
Proof.
  intros Hp Hr. unfold map_port.
  repeat match goal with |- wpg _ (if ?b then _ else _) _ _ => destruct b end; try done;
    try (split; [by apply htons_u16|done]).
  all: try (split; [done|]; cbn; by case_match).
  all: try (rewrite wp_bind; eapply wp_mono; [apply wlp_any|]; intros; split; [apply htons_u16|]; cbn; by repeat case_match).
  all: try (split; [apply htons_u16|]; cbn; by repeat case_match).
Qed.
Lemma sees_map_hm v np l hm : keeps (sees v) (map_hm cf be np l hm : ST W _).
Proof.
  unfold map_hm. apply keeps_bind; [auto with keeps|intros r]. apply keeps_bind; [auto with keeps|intros fin].
  apply keeps_if.
  - apply keeps_bind; [auto with keeps|]. intros [y|]; eauto with keeps.
  - apply keeps_if; [|auto with keeps]. destruct hm; eauto with keeps.
Qed.

Lemma newmap_round_spec x np st_ip st_port sport flags l hm w0 w :
  tcpudp (fin_p (nw_fin w0)) -> is_u16 sport -> chains_plain x w0 -> near x w0 w ->
  wlp (newmap_round cf be x np st_ip st_port sport flags l hm)
    (fun o w' => near x w0 w' /\ forall addr port, o = RoundFree addr port -> is_u16 port /\ unused w0 (htonl be addr) port) w.
Proof.
  intros Hp Hsp Hc Hn. unfold newmap_round.
  rewrite wp_bind. eapply wp_mono; [apply (keeps_near x w0 _ (fun v => sees_map_hm v np l hm) w Hn)|]. intros [hm1 in1] w1 Hn1.
  rewrite wp_bind. eapply wp_mono; [apply (keeps_near_hm x w0 hm1 w1 Hn1)|]. intros [] w2 Hn2.
  rewrite wp_bind. apply wlp_rule. intros r Hr. rewrite wp_bind, wp_gets. cbv zeta. change (id w2) with w2.
  rewrite wp_bind. eapply wp_mono; [apply wlp_and; [apply (keeps_near x w0 _ (fun v => sees_map_addr v _ _ _ _ _ _ _ _) w2 Hn2)|
    apply map_addr_result; exact (nr_rules _ _ _ Hn2 _ _ Hr)]|]. cbn beta. intros [[[a p] r1]|] w3 [Hn3 Hu]; [|by split].
  destruct (Hu _ _ _ eq_refl) as [Hup Hpl].
  rewrite wp_bind. eapply wp_mono; [apply wlp_and; [apply (keeps_near x w0 _ (fun v => sees_map_port v _ _ _ _ _ _) w3 Hn3)|
    by apply map_port_result]|]. cbn beta. intros [p1 r2] w4 [Hn4 [Hu4 Hp4]]. cbn in Hu4, Hp4.
  assert (Hwr : plain_rule (wrap_snip be r2)) by (unfold wrap_snip; by repeat case_match).
  rewrite wp_bind. eapply wp_mono; [apply (keeps_near x w0 _ (fun v => sees_upd_rule v _ _ (fun _ _ => Hwr)) w4 Hn4)|].
  intros [] w5 Hn5.
  set (port := if _ && _ then sport else p1). assert (Hport : is_u16 port) by (unfold port; by case_match).
  clearbody port.
  assert (Hfin : nw_fin w2 = nw_fin w0) by apply (nr_fin _ _ _ Hn2). rewrite Hfin.
  rewrite wp_bind. eapply wp_mono; [by apply (taken_spec x w0)|]. intros t w6 [Hn6 Hfree].
  destruct t; cbn [negb].
  - destruct (_ && _); by split.
  - rewrite wp_ret. split; [done|]. intros ?? [= <- <-]. split; [done|by apply Hfree].
Qed.
Lemma newmap_search_spec x np st_ip st_port sport flags fuel w0 :
  tcpudp (fin_p (nw_fin w0)) -> is_u16 sport -> chains_plain x w0 -> forall l hm w, near x w0 w ->
  wlp (newmap_search cf be fuel x np st_ip st_port sport flags l hm)
    (fun o w' => near x w0 w' /\ forall addr port, o = Chosen addr port -> is_u16 port /\ unused w0 (htonl be addr) port) w.
Proof.
  intros Hp Hsp Hc. induction fuel as [|fuel IH]; intros l hm w Hn; simpl; [by split|].
  rewrite wp_bind. eapply wp_mono; [by apply (newmap_round_spec x np st_ip st_port sport flags l hm w0)|].
  cbn beta. intros [|addr port|hm'] w' [Hn' Hf].
  - by split.
  - rewrite wp_ret. split; [done|]. intros ?? [= <- <-]. by apply Hf.
  - by apply IH.
Qed.

(** ** Building the session *)

(** [x] satisfies [P]; the tables are those of [w0]. *)
Record drafted (x : loc) (w0 : W) (P : natt -> Prop) (w : W) : Prop := {
  dr_table0 : nw_table0 w = nw_table0 w0; dr_table1 : nw_table1 w = nw_table1 w0; dr_fin : nw_fin w = nw_fin w0;
  dr_rules : rules_plain w; dr_x : exists e, nw_nats w !! x = Some e /\ P e }.
Lemma keeps_drafted x w0 P {A} (m : ST W A) : (forall v, keeps (sees v) m) -> keeps (drafted x w0 P) m.
Proof.
  intros Hm w Hw. eapply wp_mono; [apply (Hm (view w)); split; [done|apply Hw]|].
  intros a w' [[= E1 E2 E3 E4 E5 E6] Hr]. destruct Hw as [H1 H2 H3 H4 H5].
  split; rewrite ?E1, ?E2, ?E3, ?E4; assumption.
Qed.
Lemma drafted_nat_upd x w0 (P P' : natt -> Prop) f w :
  (forall e, P e -> P' (f e)) -> drafted x w0 P w -> wlp (upd_nat x f) (fun _ => drafted x w0 P') w.
Proof.
  intros Hf [H1 H2 H3 H4 (e & He & Hp)]. apply wlp_upd_nat. intros e' He'. split; try done.
  exists (f e). cbn. rewrite lookup_alter, decide_True, He by done. split; [done|auto].
Qed.
Lemma drafted_weaken x w0 (P P' : natt -> Prop) w : (forall e, P e -> P' e) -> drafted x w0 P w -> drafted x w0 P' w.
Proof. intros Hp [H1 H2 H3 H4 (e & He & Hpe)]. split; eauto. Qed.
Lemma drafted_nst x w0 P w : drafted x w0 P w -> wlp (nst x) (fun e w' => P e /\ drafted x w0 P w') w.
Proof. intros Hd. apply wlp_nst. intros e He. split; [|done]. destruct Hd as [_ _ _ _ (e' & He' & Hp)]. congruence. Qed.
Lemma keeps_wr_buf x w0 P off v : keeps (drafted x w0 P) (wr_buf be off v).
Proof.
  intros w Hw. unfold wr_buf. rewrite wp_bind, wp_gets, wp_bind. apply wlp_need. intros m Hm. rewrite wp_modify.
  destruct Hw as [H1 H2 H3 H4 H5]. by split.
Qed.

(** What the session records of the packet and of its translation. *)
Definition base (p flags : Z) (e : natt) : Prop :=
  nat_flags e = flags /\ nat_dir e = NAT_OUTBOUND /\ nat_pr0 e = p /\ nat_pr1 e = p /\ nat_aps e = None.
Definition mapped (fin : fr_info) (inb port : Z) (e : natt) : Prop :=
  nat_osrcaddr e = fin_saddr fin /\ nat_odstaddr e = fin_daddr fin /\ nat_ndstaddr e = fin_daddr fin /\
  nat_nsrcaddr e = inb /\ nat_osport e = htons be (fin_sport fin) /\ nat_odport e = htons be (fin_dport fin) /\
  nat_ndport e = htons be (fin_dport fin) /\ nat_nsport e = port.
Lemma newmap_fill_spec x np flags addr port w0 w :
  let fin := nw_fin w0 in
  has flags IPN_TCPUDP = true -> drafted x w0 (base (fin_p fin) flags) w ->
  wlp (newmap_fill cf be x np flags (htons be (fin_sport fin)) (htons be (fin_dport fin)) addr port)
    (fun _ => drafted x w0 (fun e => base (fin_p fin) flags e /\ mapped fin (htonl be addr) port e)) w.
Proof.
  intros fin Hf Hd. unfold newmap_fill. rewrite wp_bind, wp_gets, (dr_fin _ _ _ _ Hd). fold fin. rewrite wp_bind.
  set (P1 e := base (fin_p fin) flags e /\ nat_osrcaddr e = fin_saddr fin /\ nat_odstaddr e = fin_daddr fin /\
               nat_ndstaddr e = fin_daddr fin /\ nat_nsrcaddr e = htonl be addr).
  eapply wp_mono; [apply (drafted_nat_upd x w0 (base (fin_p fin) flags) P1); [|exact Hd]|].
  { intros e (?&?&?&?&?). by split_and!. }
  intros [] w1 Hd1. rewrite wp_bind. eapply wp_mono; [apply (drafted_nst _ _ _ _ Hd1)|]. intros e w2 [_ Hd2].
  rewrite wp_bind. eapply (wp_mono _ _ (fun _ => drafted x w0 P1)).
  { destruct (nat_hm e); [exact Hd2|]. rewrite wp_bind.
    eapply wp_mono; [apply (keeps_drafted x w0 P1 _ (fun v => sees_hostmap cf v _ _ _ _ _) w2 Hd2)|]. intros h w3 Hd3.
    apply (drafted_nat_upd x w0 P1); [|exact Hd3]. intros e' ((?&?&?&?&?)&?&?&?&?). by split_and!. }
  intros [] w3 Hd3. rewrite Hf. rewrite wp_bind. eapply wp_mono.
  { apply (drafted_nat_upd x w0 P1 (fun e => base (fin_p fin) flags e /\ mapped fin (htonl be addr) port e)); [|exact Hd3].
    intros e' ((?&?&?&?&?)&?&?&?&?). by split_and!. }
  intros [] w4 Hd4. by apply keeps_wr_buf.
Qed.
Lemma near_drafted x w0 P w : near x w0 w -> (exists e, nw_nats w0 !! x = Some e /\ P e) ->
  (forall e h, P e -> P (e <| nat_hm := h |>)) -> drafted x w0 P w.
Proof.
  intros [H1 H2 H3 H4 H5 H6 H7 [h H8]] (e & He & Hp) Hh. split; try done. exists (e <| nat_hm := h |>).
  rewrite H8, He. split; [done|auto].
Qed.
Lemma newmap_spec fuel x np flags w0 e0 :
  let fin := nw_fin w0 in
  tcpudp (fin_p fin) -> has flags IPN_TCPUDP = true -> has flags IPN_ICMPQUERY = false ->
  chains_plain x w0 -> rules_plain w0 ->
  nw_nats w0 !! x = Some e0 -> base (fin_p fin) flags e0 ->
  wlp (ipf_nat_newmap cf be fuel x np)
    (fun o w' => forall v, o = Some v -> v <> -1 -> exists inb port, is_u16 port /\ unused w0 inb port /\
       drafted x w0 (fun e => base (fin_p fin) flags e /\ mapped fin inb port e) w') w0.
Proof.
  intros fin Hp Hf Hq Hc Hr He0 Hb. unfold ipf_nat_newmap. rewrite wp_bind. apply wlp_rule. intros r _.
  rewrite wp_bind, (wp_nst _ _ _ _ e0) by done. rewrite wp_bind, wp_gets. fold fin. destruct Hb as (Hfl & Hb).
  rewrite Hfl. unfold map_ports. rewrite Hq. rewrite wp_bind.
  eapply wp_mono; [apply (newmap_search_spec x np _ _ _ _ fuel w0); [done|apply htons_u16|done|by eapply near_refl]|].
  intros [|addr port|] w1 [Hn Hch]; cbn [wpg mret st_ret].
  - intros ? [= <-]. done.
  - destruct (Hch addr port eq_refl) as [Hu Hfree]. rewrite wp_bind.
    eapply wp_mono; [apply (newmap_fill_spec x np flags addr port w0); [done|]|].
    + apply near_drafted; [done| |]. { exists e0. by split. } intros e h (?&?&?&?&?). by split_and!.
    + intros [] w2 Hd. rewrite wp_ret. intros v [= <-] _. by exists (htonl be addr), port.
  - done.
Qed.

(** ** Its entry into the table *)

(** What is known of [x] once it is in the table; only [view] matters. *)
Definition entered (x : loc) (w0 : W) (P : natt -> Prop) (w : W) : Prop :=
  exists e l, nw_nats w !! x = Some e /\ P e /\ nw_table1 w (bucket1 cf e) = x :: l /\
    nat_hv1 e = hash_pair (nat_nsrcaddr e) (nat_ndstaddr e) (nat_nsport e) (nat_ndport e) /\
    nat_v1 e = 4 /\ nat_dlocal e = 0 /\ rules_plain w /\ nw_fin w = nw_fin w0.
Lemma keeps_entered x w0 P {A} (m : ST W A) : (forall v, keeps (sees v) m) -> keeps (entered x w0 P) m.
Proof.
  intros Hm w (e & l & H1 & H2 & H3 & H4 & H5 & H6 & H7 & H8).
  eapply wp_mono; [apply (Hm (view w)); by split|]. intros a w' [[= E1 E2 E3 E4 E5 E6] Hr].
  exists e, l. rewrite E1, E3, E4. by split_and!.
Qed.

(** A predicate that the completion of the session does not disturb. *)
Definition steady (P : natt -> Prop) : Prop :=
  forall e e', nat_flags e' = nat_flags e -> nat_dir e' = nat_dir e -> nat_pr0 e' = nat_pr0 e -> nat_pr1 e' = nat_pr1 e ->
    nat_aps e' = nat_aps e -> nat_osrcaddr e' = nat_osrcaddr e -> nat_odstaddr e' = nat_odstaddr e ->
    nat_nsrcaddr e' = nat_nsrcaddr e -> nat_ndstaddr e' = nat_ndstaddr e -> nat_osport e' = nat_osport e ->
    nat_odport e' = nat_odport e -> nat_nsport e' = nat_nsport e -> nat_ndport e' = nat_ndport e -> P e -> P e'.
Lemma steady_base p flags fin inb port : steady (fun e => base p flags e /\ mapped fin inb port e).
Proof.
  intros e e' E1 E2 E3 E4 E5 E6 E7 E8 E9 E10 E11 E12 E13. unfold base, mapped.
  by rewrite E1, E2, E3, E4, E5, E6, E7, E8, E9, E10, E11, E12, E13.
Qed.
Lemma steady_and P (Q : natt -> Prop) : steady P -> (forall e e', Q e -> Q e') -> steady (fun e => P e /\ Q e).
Proof. intros Hs Hq e e' ????????????? [Hp Hqe]. split; [by eapply (Hs e e')|by eapply Hq]. Qed.

Section Insert.
Context (x : loc) (w0 : W) (P : natt -> Prop) (HP : steady P).
Lemma drafted_steady (Q : natt -> Prop) f w :
  (forall e, P e -> P (f e)) -> (forall e, Q e -> Q (f e)) ->
  drafted x w0 (fun e => P e /\ Q e) w -> wlp (upd_nat x f) (fun _ => drafted x w0 (fun e => P e /\ Q e)) w.
Proof. intros Hf Hq. apply drafted_nat_upd. intros e [??]. auto. Qed.
Ltac steady := (intros ? Hp; eapply HP; [..|exact Hp]; done).

Definition ready (e : natt) : Prop :=
  nat_hv1 e = hash_pair (nat_nsrcaddr e) (nat_ndstaddr e) (nat_nsport e) (nat_ndport e) /\ nat_v1 e = 4 /\ nat_dlocal e = 0.
Lemma insert_ifps_spec w : drafted x w0 (fun e => P e /\ ready e) w ->
  wlp (insert_ifps x : ST W unit) (fun _ => drafted x w0 (fun e => P e /\ ready e)) w.
Proof.
  intros Hd. unfold insert_ifps. rewrite wp_bind, wp_gets, wp_bind. eapply wp_mono; [apply drafted_steady; [steady| |exact Hd]; done|].
  intros [] w1 Hd1. rewrite wp_bind. eapply wp_mono; [apply (drafted_nst _ _ _ _ Hd1)|]. intros e w2 [_ Hd2].
  destruct (negb _); [apply drafted_steady; [steady| |exact Hd2]; done|].
  rewrite wp_bind. apply wlp_need. intros p _. rewrite wp_bind. apply wlp_rule. intros n _.
  apply wp_when; [|done]. intros _. apply drafted_steady; [steady| |exact Hd2]. done.
Qed.
Lemma sees_setqueue v : keeps (sees v) (ipf_nat_setqueue cf x : ST W unit).
Proof.
  unfold ipf_nat_setqueue, rule_tq, ipf_nat_default_queue. apply keeps_bind; [auto with keeps|intros e].
  apply keeps_bind; [destruct (nat_ptr e); auto with keeps|intros q]. apply keeps_bind.
  - destruct q; [auto with keeps|]. repeat apply keeps_if; eauto with keeps.
  - intros n. apply keeps_bind; [auto with keeps|intros o]. apply keeps_bind; [auto with keeps|intros t].
    destruct o; auto with keeps.
Qed.
Lemma hashtab_add_spec w : drafted x w0 (fun e => P e /\ ready e) w ->
  wlp (ipf_nat_hashtab_add cf x : ST W Z) (fun r w' => r = 0 -> entered x w0 P w') w.
Proof.
  intros [H1 H2 H3 H4 (e & He & Hp & Hh & Hv & Hl)]. unfold ipf_nat_hashtab_add.
  rewrite wp_bind, (wp_nst _ _ _ _ e) by done. rewrite wp_bind, wp_gets. destruct (_ >=? _); [done|]. destruct (_ >=? _); [done|].
  rewrite wp_bind, (wp_upd_nat _ _ _ _ _ e) by done. rewrite wp_bind, wp_modify, wp_bind, wp_modify, wp_bind, wp_modify.
  match goal with |- wpg _ _ _ ?w' => assert (Hen : entered x w0 P w') end.
  { exists (e <| nat_listed := true |>), (nw_table1 w (bucket1 cf e)). split_and!; cbn; try done.
    - by rewrite lookup_alter, decide_True, He.
    - eapply HP; [..|exact Hp]; done.
    - unfold upd_at, bucket1. cbn. by rewrite Z.eqb_refl. }
  rewrite wp_bind. eapply wp_mono; [apply (keeps_entered x w0 P _ sees_setqueue _ Hen)|].
  intros [] w2 Hen2. rewrite wp_bind, wp_modify, wp_ret. intros _.
  refine (wlp_run (modify _) (fun _ => entered x w0 P) w2 tt _ _ eq_refl). apply keeps_entered; [|done]. auto with keeps.
Qed.
Definition tcp_entry (flags : Z) (e : natt) : Prop := nat_flags e = flags /\ nat_dir e = NAT_OUTBOUND.
Lemma insert_spec flags w :
  has flags IPN_TCPUDP = true -> has flags SI_WILDP = false -> (forall e, P e -> tcp_entry flags e) ->
  drafted x w0 (fun e => P e /\ nat_v1 e = 4 /\ nat_dlocal e = 0) w ->
  wlp (ipf_nat_insert cf be x : ST W Z) (fun r w' => r = 0 -> entered x w0 P w') w.
Proof.
  intros Hf Hw Hpt Hd. unfold ipf_nat_insert. rewrite wp_bind.
  eapply wp_mono; [apply (drafted_nat_upd x w0 (fun e => P e /\ nat_v1 e = 4 /\ nat_dlocal e = 0) (fun e => P e /\ ready e)); [|exact Hd]|].
  { intros e (Hp & Hv & Hl). destruct (Hpt e Hp) as [Hfl Hdir]. unfold set_hash, entry_hash. rewrite Hfl, Hdir, Hw, Hf. cbn.
    split; [eapply HP; [..|exact Hp]; done|by split_and!]. }
  intros [] w1 Hd1. rewrite wp_bind. eapply wp_mono; [apply drafted_steady; [steady| |exact Hd1]; done|].
  intros [] w2 Hd2. rewrite wp_bind. eapply wp_mono; [by apply insert_ifps_spec|]. intros [] w3 Hd3.
  by apply hashtab_add_spec.
Qed.
Lemma finalise_spec flags w :
  has flags IPN_TCPUDP = true -> has flags SI_WILDP = false -> (forall e, P e -> tcp_entry flags e) ->
  drafted x w0 (fun e => P e /\ nat_dlocal e = 0) w ->
  wlp (ipf_nat_finalise cf be x) (fun r w' => r <> -1 -> entered x w0 P w') w.
Proof.
  intros Hf Hw Hpt Hd. unfold ipf_nat_finalise. rewrite wp_bind.
  set (Q e := nat_v1 e = 4 /\ nat_dlocal e = 0).
  eapply wp_mono; [apply (drafted_nat_upd x w0 (fun e => P e /\ nat_dlocal e = 0) (fun e => P e /\ Q e)); [|exact Hd]|].
  { intros e [Hp Hl]. split; [eapply HP; [..|exact Hp]; done|by split]. }
  intros [] w1 Hd1. rewrite wp_bind. eapply wp_mono; [apply (drafted_nst _ _ _ _ Hd1)|]. intros e w2 [_ Hd2].
  rewrite wp_bind, wp_gets. rewrite wp_bind. eapply (wp_mono _ _ (fun _ => drafted x w0 (fun e => P e /\ Q e))).
  { apply wp_when; [|done]. intros _. rewrite wp_bind.
    eapply wp_mono; [apply (keeps_drafted x w0 _ _ (fun v => sees_next v _) w2 Hd2)|]. intros s w3 Hd3.
    apply drafted_steady; [steady|done|done]. }
  intros [] w3 Hd3. rewrite wp_bind. eapply wp_mono; [by apply (insert_spec flags)|]. cbn beta. intros r w4 Hr.
  destruct (Z.eqb_spec r 0) as [->|].
  - specialize (Hr eq_refl). rewrite wp_bind. eapply wp_mono.
    { apply (keeps_entered x w0 P (when_ _ _)); [|exact Hr]. auto with keeps. }
    intros [] w5 Hen. rewrite wp_bind. eapply wp_mono; [eapply (keeps_entered x w0 P); [|exact Hen]|].
    { intros v. destruct (nat_fr e) as [fr|]; [|auto with keeps]. eauto 8 with keeps. }
    intros [] w6 Hen6. rewrite wp_ret. intros _. exact Hen6.
  - rewrite wp_bind. eapply wp_mono; [apply wlp_any|]. intros e' w5 _. rewrite wp_bind. eapply wp_mono; [apply wlp_any|].
    intros ???. rewrite wp_ret. by intros [].
Qed.
End Insert.

Lemma complete_spec x np P flags w0 w :
  steady P -> has flags IPN_TCPUDP = true -> has flags SI_WILDP = false -> (forall e, P e -> tcp_entry flags e) ->
  drafted x w0 P w ->
  wlp (complete_nat cf be x np None) (fun r w' => r <> -1 -> entered x w0 P w') w.
Proof.
  intros HP Hf Hw Hpt Hd. unfold complete_nat. rewrite wp_bind. apply wlp_rule. intros r Hr.
  destruct (dr_rules _ _ _ _ Hd _ _ Hr) as [Hapr Hdl]. rewrite wp_bind, wp_gets, wp_bind.
  set (Q e := nat_dlocal e = 0). eapply wp_mono; [apply (drafted_nat_upd x w0 P (fun e => P e /\ Q e)); [|exact Hd]|].
  { intros e Hp. split; [eapply HP; [..|exact Hp]; done|done]. }
  intros [] w1 Hd1. rewrite wp_bind. eapply wp_mono; [apply (drafted_nst _ _ _ _ Hd1)|]. intros e w2 [_ Hd2].
  rewrite Hapr. cbn [bool_decide is_Some_dec decide_rel andb]. rewrite wp_bind, wp_ret. cbn [Z.eqb].
  rewrite wp_bind, wp_gets. cbv zeta. rewrite wp_bind. eapply wp_mono; [apply drafted_steady; [| |exact Hd2]|].
  { intros e' Hp. eapply HP; [..|exact Hp]; done. } { done. }
  intros [] w3 Hd3. by apply (finalise_spec x w0 P HP flags).
Qed.

(** ** A new session and the replies to it *)

(** The answer to a packet that [e] translates. *)
Definition reply_to (e : natt) (f : fr_info) : Prop :=
  htons be (fin_sport f) = nat_ndport e /\ htons be (fin_dport f) = nat_nsport e /\ other_ifp (nat_ifp0 e) (fin_ifp f) = false.
Lemma entered_found x w0 p flags fin inb port w f fl :
  tcpudp p -> has flags IPN_TCPUDP = true -> has fl SI_WILDP = false ->
  entered x w0 (fun e => base p flags e /\ mapped fin inb port e) w ->
  exists e, nw_nats w !! x = Some e /\ base p flags e /\ mapped fin inb port e /\
    (reply_to e f -> result (ipf_nat_inlookup cf be fl p (nat_ndstaddr e) (nat_nsrcaddr e)) (w <| nw_fin := f |>) = Some (Some x)).
Proof.
  intros Hp Hf Hfl (e & l & He & (Hb & Hm) & Ht & Hh & Hv & Hl & Hr & _). exists e. split_and!; try done.
  intros (Hs & Hd & Ho). destruct Hb as (Hef & Hdir & Hp0 & Hp1 & Ha).
  unfold result, ipf_nat_inlookup. rewrite (bind_eq _ _ _ (w <| nw_fin := f |>) (w <| nw_fin := f |>)) by done. cbv zeta.
  change (nw_fin (w <| nw_fin := f |>)) with f. rewrite nat_ports_tcpudp by done. rewrite Hfl.
  assert (Hc : nw_table1 w (hash_pair (nat_nsrcaddr e) (nat_ndstaddr e) (htons be (fin_dport f)) (htons be (fin_sport f))
                 mod ipf_nat_table_sz cf) = x :: l) by (by rewrite Hs, Hd, <- Hh).
  unfold hash_pair in Hc. change (nw_table1 (w <| nw_fin := f |>)) with (nw_table1 w). rewrite Hc.
  assert (Hin : in_match be p (nat_ndstaddr e) (nat_nsrcaddr e) (htons be (fin_sport f)) (htons be (fin_dport f)) (fin_ifp f) e = true).
  { unfold in_match, same_ports. rewrite Ho, Hp0, Hdir, Hl, Hv, Hef, Hf, Hs, Hd, !Z.eqb_refl. done. }
  set (w1 := w <| nw_fin := f |>).
  rewrite (bind_eq _ _ _ (Some x) (w1 <| nw_nats ::= alter (with_ifp0 (fin_ifp f)) x |>)); [done|].
  cbn [find_nat]. rewrite (bind_eq _ _ _ e w1) by (unfold nst; cbn; by rewrite He). rewrite Hin. cbn [negb].
  rewrite (bind_eq _ _ _ false w1) by (by apply refused_plain).
  unfold bind_ifp0, mbind, st_bind, upd_nat. cbn. by rewrite He.
Qed.
Lemma first_match_in matches nats l x : first_match matches nats l = Some x -> x ∈ l.
Proof.
  induction l as [|y l IH]; simpl; [done|]. destruct (nats !! y); [|done]. case_match; [intros [= ->]; left|right; auto].
Qed.
Lemma outlookup_spec flags p src dst (w : W) :
  has flags SI_WILDP = false -> has flags NAT_SEARCH = false -> (forall i, plain (nw_nats w) (nw_table0 w i)) ->
  wlp (ipf_nat_outlookup cf be flags p src dst)
    (fun o w' => match o with Some y => exists i, y ∈ nw_table0 w i | None => w' = w end) w.
Proof.
  intros Hf Hs Hp. unfold ipf_nat_outlookup. rewrite wp_bind, wp_gets. change (id w) with w. cbv zeta.
  destruct (nat_ports _ _ _ _) as [sport dport]. rewrite Hf, wp_bind. unfold wpg at 1. rewrite find_nat_first by done.
  destruct (first_match _ _ _) as [y|] eqn:Hy.
  - apply first_match_in in Hy. unfold mbind, st_bind, bind_ifp1, upd_nat.
    destruct (nw_nats w !! y); [|done]. cbn. eauto.
  - unfold wild_search. rewrite Hs, andb_false_r. cbn. done.
Qed.
Lemma from_rule_flags a b : let f := Z.land (Z.land a b) NAT_FROMRULE in has f SI_WILDP = false /\ has f NAT_SEARCH = false.
Proof.
  cbv zeta. split; apply has_false; rewrite <- Z.land_assoc; [change (Z.land NAT_FROMRULE SI_WILDP) with 0|
    change (Z.land NAT_FROMRULE NAT_SEARCH) with 0]; apply Z.land_0_r.
Qed.

(** Where the session comes from: the table before, and the search. *)
Definition is_map (r : ipnat) : Prop := has (in_redir r) NAT_DIVERTUDP = false /\ has (in_redir r) NAT_REWRITE = false.
Definition table_plain (w : W) : Prop :=
  (forall i, plain (nw_nats w) (nw_table0 w i)) /\ (forall i, plain (nw_nats w) (nw_table1 w i)).
Lemma plain_insert nats x e l : nats !! x = None -> plain nats l -> plain (<[x := e]> nats) l /\ x ∉ l.
Proof.
  intros Hx Hp. assert (Hn : x ∉ l) by (intros Hi; destruct (Hp x Hi) as (? & ? & _); congruence). split; [|done].
  intros y Hy. rewrite lookup_insert_ne by (by intros ->). by apply Hp.
Qed.
Lemma new_translation_spec fuel x np nflags flags (w : W) e0 r :
  let fin := nw_fin w in
  tcpudp (fin_p fin) -> has flags IPN_TCPUDP = true -> has flags IPN_ICMPQUERY = false ->
  has nflags SI_WILDP = false -> has nflags NAT_SEARCH = false ->
  nw_rules w !! np = Some r -> is_map r ->
  (forall i, plain (nw_nats w) (nw_table0 w i) /\ x ∉ nw_table0 w i) -> chains_plain x w -> rules_plain w ->
  nw_nats w !! x = Some e0 -> base (fin_p fin) flags e0 ->
  wlp (new_translation cf be fuel x np nflags NAT_OUTBOUND)
    (fun o w' => match o with
       | None => True
       | Some (inl y) => y <> x
       | Some (inr (move, np')) => np' = np /\ (move <> -1 -> exists inb port, is_u16 port /\ unused w inb port /\
           drafted x w (fun e => base (fin_p fin) flags e /\ mapped fin inb port e) w')
       end) w.
Proof.
  intros fin Hp Hf Hq Hw Hs Hr [Hd Hrw] H0 Hc Hpl He Hb. unfold new_translation.
  rewrite wp_bind, (wp_rule _ _ _ _ r) by done. rewrite wp_bind, wp_gets, Hd, Hrw. cbn [Z.eqb Pos.eqb NAT_OUTBOUND].
  rewrite wp_bind. eapply wp_mono; [apply outlookup_spec; [done|done|intros i; apply H0]|]. cbn beta.
  intros [y|] w1 Hy.
  - rewrite wp_ret. destruct Hy as [i Hy]. intros ->. by apply (H0 i).
  - subst w1. rewrite wp_bind. eapply wp_mono; [by eapply newmap_spec|]. cbn beta. intros [m|] w1 Hm; [|done].
    rewrite wp_ret. split; [done|]. intros Hne. by apply (Hm m).
Qed.

Lemma sees_move_rule v np move : keeps (sees v) (move_rule cf be np move : ST W unit).
Proof.
  unfold move_rule. apply keeps_bind; [auto with keeps|intros r]. apply keeps_when.
  repeat apply keeps_if; [..|apply keeps_ret]; (apply keeps_bind; [|intros _]).
  - apply sees_delrdr.
  - apply sees_addrdr.
  - apply sees_delmap.
  - apply sees_addmap.
Qed.
Lemma view_note_usage (w : W) : wlp (note_usage cf) (fun _ w' => view w' = view w /\ nw_rules w' = nw_rules w /\ nw_allocs w' = nw_allocs w) w.
Proof. unfold note_usage. rewrite wp_modify. by case_match. Qed.
Lemma add_spec fuel x np flags (w : W) r :
  let fin := nw_fin w in
  tcpudp (fin_p fin) -> has flags IPN_TCPUDP = true -> has flags IPN_ICMPQUERY = false -> has flags SI_WILDP = false ->
  nw_rules w !! np = Some r -> is_map r -> rules_plain w -> table_plain w ->
  head (nw_allocs w) = Some (Some x) -> nw_nats w !! x = None ->
  wlp (ipf_nat_add cf be fuel np None flags NAT_OUTBOUND)
    (fun o w' => o = Some (Some x) -> exists inb port, is_u16 port /\ unused w inb port /\
       entered x w (fun e => base (fin_p fin) flags e /\ mapped fin inb port e) w') w.
Proof.
  intros fin Hp Hf Hq Hw Hr Hm Hpl [Ht0 Ht1] Hal Hx. unfold ipf_nat_add.
  rewrite wp_bind. eapply wp_mono; [apply view_note_usage|]. cbn beta. intros _ wa (Hva & Hra & Haa).
  rewrite wp_bind, wp_gets. change (id wa) with wa. cbv zeta. destruct (_ >=? _); [done|].
  rewrite wp_bind, (wp_rule _ _ _ _ r) by (by rewrite Hra). rewrite wp_bind.
  unfold nkmalloc at 1, wpg at 1. rewrite Haa. destruct (nw_allocs w) as [|a al]; [done|]. injection Hal as ->.
  rewrite wp_bind, wp_modify. injection Hva as E1 E2 E3 E4 E5 E6. rewrite E4. fold fin.
  set (e0 := nat_zero <| nat_flags := flags |> <| nat_redir := in_redir r |> <| nat_dir := NAT_OUTBOUND |>
                      <| nat_pr0 := fin_p fin |> <| nat_pr1 := fin_p fin |>).
  match goal with |- wpg _ _ _ ?w' => set (w1 := w') end.
  assert (Hn1 : nw_nats w1 = <[x := e0]> (nw_nats w)) by (cbn; by rewrite E1).
  assert (Hfin1 : nw_fin w1 = fin) by exact E4.
  assert (Ht01 : nw_table0 w1 = nw_table0 w) by exact E2. assert (Ht11 : nw_table1 w1 = nw_table1 w) by exact E3.
  assert (Hc1 : chains_plain x w1).
  { split; intros i; rewrite Ht11, ?Hn1; by apply (plain_insert _ _ e0 _ Hx). }
  assert (Hc0 : forall i, plain (nw_nats w1) (nw_table0 w1 i) /\ x ∉ nw_table0 w1 i).
  { intros i. rewrite Ht01, Hn1. by apply (plain_insert _ _ e0 _ Hx). }
  assert (Hr1 : nw_rules w1 = nw_rules w) by exact Hra.
  assert (Hu : forall inb port, unused w1 inb port -> unused w inb port).
  { intros inb port. unfold unused, in_found, in_chain. rewrite Hfin1, Ht11, Hn1. intros <-. symmetry. apply first_match_same.
    intros y Hy. rewrite lookup_insert_ne; [done|]. intros <-. by apply (plain_insert _ _ e0 _ Hx (Ht1 _)) in Hy. }
  clearbody w1. destruct (from_rule_flags (in_flags r) flags) as [Hnf1 Hnf2]. rewrite wp_bind.
  assert (Hpl1 : rules_plain w1) by (unfold rules_plain; by rewrite Hr1).
  assert (Hx1 : nw_nats w1 !! x = Some e0) by (by rewrite Hn1, lookup_insert, decide_True).
  rewrite <- Hr1 in Hr. pose proof (new_translation_spec fuel x np (Z.land (Z.land (in_flags r) flags) NAT_FROMRULE) flags w1 e0 r) as Hnt. cbv zeta in Hnt. rewrite Hfin1 in Hnt.
  specialize (Hnt Hp Hf Hq Hnf1 Hnf2 Hr Hm Hc0 Hc1 Hpl1 Hx1 ltac:(by split_and!)).
  eapply wp_mono; [exact Hnt|].
  cbn beta. intros [[y|[move np']]|] w2 Ht; [..|done].
  - rewrite wp_bind. eapply wp_mono; [apply wlp_any|]. intros _ w3 _. rewrite wp_bind.
    eapply wp_mono; [apply wlp_any|]. intros _ w4 _. rewrite wp_bind, wp_ret, wp_ret. intros [= ->]. done.
  - destruct Ht as [-> Ht]. destruct (Z.eqb_spec move (-1)) as [|Hmv].
    { rewrite wp_bind. eapply wp_mono; [apply wlp_any|]. intros _ w3 _. rewrite !wp_bind, !wp_ret. done. }
    destruct (Ht Hmv) as (inb & port & Hpo & Hun & Hd). set (P := fun e => _ /\ mapped fin inb port e) in Hd.
    assert (HP : steady P) by apply steady_base. rewrite wp_bind.
    eapply wp_mono; [apply (complete_spec x np P flags w1 w2 HP Hf Hw); [|exact Hd]|].
    { intros e [(?&?&_) _]. by split. }
    cbn beta. intros ok w3 Hen. destruct (Z.eqb_spec ok (-1)) as [|Hok].
    { rewrite wp_bind. eapply wp_mono; [apply wlp_any|]. intros _ w4 _. rewrite !wp_bind, !wp_ret. done. }
    specialize (Hen Hok).
    assert (Hhit : forall v (f : ipnat -> ipnat), (forall n, plain_rule n -> plain_rule (f n)) -> keeps (sees v) (upd_rule np f : ST W unit)).
    { intros. by apply sees_upd_rule. }
    rewrite wp_bind. eapply wp_mono; [apply (keeps_entered x w1 P (upd_rule np _)); [intros v; by apply Hhit|exact Hen]|].
    intros [] w4 Hen4. rewrite wp_bind. eapply wp_mono; [apply (keeps_entered x w1 P (move_rule cf be np move) (fun v => sees_move_rule v _ _)); exact Hen4|].
    intros [] w5 Hen5. rewrite wp_bind, Hw. cbn [when_]. rewrite wp_ret, wp_bind.
    eapply wp_mono; [apply (keeps_entered x w1 P (upd_rule np _)); [intros v; by apply Hhit|exact Hen5]|].
    intros [] w6 Hen6. rewrite wp_bind, wp_ret, wp_ret. intros _. exists inb, port. split_and!; [done|by apply Hu|].
    destruct Hen6 as (e & l & H1 & H2 & H3 & H4 & H5 & H6 & H7 & H8). exists e, l. rewrite H8, Hfin1. split; [done|]. split; [exact H2|]. by split_and!.
Qed.
End Search.

(** C10. translating a TCP or UDP packet that goes out gives a session of its own: when
    [ipf_nat_add] makes a new session under a [map] rule, no session of the table before
    it answers to the reply that the chosen address and port will bring, and in the table
    after it the lookup of every such reply gives the new session, whose original
    addresses and ports are those of the packet. *)
Theorem new_mapping_reply {E : Type} `{nat_env E} cf be fuel x np flags (w w' : natw E) r :
  let fin := nw_fin w in
  tcpudp (fin_p fin) -> has flags IPN_TCPUDP = true -> has flags IPN_ICMPQUERY = false -> has flags SI_WILDP = false ->
  nw_rules w !! np = Some r -> is_map r -> rules_plain w -> table_plain w ->
  head (nw_allocs w) = Some (Some x) -> nw_nats w !! x = None ->
  ipf_nat_add cf be fuel np None flags NAT_OUTBOUND w = Some (Some (Some x), w') ->
  exists e, nw_nats w' !! x = Some e /\
    nat_osrcaddr e = fin_saddr fin /\ nat_odstaddr e = fin_daddr fin /\
    nat_osport e = htons be (fin_sport fin) /\ nat_odport e = htons be (fin_dport fin) /\
    in_found cf be w (fin_p fin) (nat_ndstaddr e) (nat_nsrcaddr e) (nat_ndport e) (nat_nsport e) (fin_ifp fin) = None /\
    forall f fl, reply_to be e f -> has fl SI_WILDP = false ->
      result (ipf_nat_inlookup cf be fl (fin_p fin) (nat_ndstaddr e) (nat_nsrcaddr e)) (w' <| nw_fin := f |>) = Some (Some x).
Proof.
  intros fin Hp Hf Hq Hw Hr Hm Hpl Ht Ha Hx Hrun.
  destruct (wlp_run _ _ _ _ _ (add_spec cf be fuel x np flags w r Hp Hf Hq Hw Hr Hm Hpl Ht Ha Hx) Hrun eq_refl)
    as (inb & port & Hpo & Hun & Hen). fold fin in Hen.
  assert (Hen' := Hen). destruct Hen' as (e & l & He & [Hb Hmp] & _). exists e. split; [done|].
  pose proof Hmp as (M1 & M2 & M3 & M4 & M5 & M6 & M7 & M8). rewrite M1, M2, M3, M4, M5, M6, M7, M8.
  split_and!; try done. intros f fl Hrep Hfl.
  destruct (entered_found cf be x w (fin_p fin) flags fin inb port w' f fl Hp Hf Hfl Hen) as (e' & He' & _ & _ & Hfind).
  assert (e' = e) as -> by congruence. specialize (Hfind Hrep). by rewrite M3, M4 in Hfind.
Qed.

(** ** A small table for concrete runs *)

(** Neither proxies nor interfaces, and random numbers that are all 0. *)
#[export] Instance plain_nat_env : nat_env unit := {|
  nenv_resolvenic _ _ := None; nenv_ifname _ _ := []; nenv_ifpaddr _ _ := None; nenv_random e := (0, e);
  nenv_sync_new _ _ e := (None, e); nenv_sync_update _ _ e := e; nenv_sync_del _ e := e; nenv_log _ _ e := e;
  nenv_frag_natnew _ _ e := e; nenv_frag_natknown _ e := (None, e); nenv_frag_natforget _ e := e;
  nenv_lookup _ _ _ _ := 1; nenv_lookup_deref _ e := e; nenv_matchtag _ _ _ := true; nenv_fr_ifp _ _ _ := None;
  nenv_proxy_match _ := mret 0; nenv_proxy_new _ := mret 0; nenv_proxy_ok _ := mret 1; nenv_proxy_check _ := mret 0;
  nenv_proxy_free _ := mret tt; nenv_proxy_deref _ := mret tt; nenv_icmperror f _ := mret (None, f);
  nenv_newdivert _ r := mret (-1, r); nenv_newrewrite _ r := mret (-1, r); nenv_divert _ _ f := mret (inr f) |}.

Module Demo.
Definition cf : natconf :=
  mk_natconf 127 22 127 127 127 99 0 (fun s => Pos.of_succ_nat (Z.to_nat s)) 13 14 15 16 17 18 90.
Definition queue (q : loc) : ipftq := IPFTQ_INIT q 60 (mk_ipftq 0 None (HeadOf q) None None 0 0).
(** [map 10.0.0.0/8 -> addr/msk], for ports from [lo] to [hi]. *)
Definition map_rule (flags addr msk snip lo hi : Z) : ipnat := {|
  in_tqehead := (None, None); in_ifp0 := None; in_ifp1 := None; in_apr := None; in_ifname1 := None; in_space := 0;
  in_hits := 0; in_use := 2; in_dlocal := 0; in_dpnext := 0; in_spnext := lo; in_v0 := 4; in_v1 := 4;
  in_flags := flags; in_mssclamp := 0; in_redir := NAT_MAP; in_pr0 := 0; in_pr1 := 0; in_ndstaddr := 0; in_ndstmsk := 0;
  in_dnip := 0; in_ndstptr := None; in_nsrcaddr := addr; in_nsrcmsk := msk; in_snip := snip; in_nsrcptr := None;
  in_osrcatype := Na_normal; in_osrcaddr := 0x0a000000; in_osrcmsk := 0xff000000; in_odstatype := Na_normal;
  in_odstaddr := 0; in_odstmsk := 0; in_tuc := mk_frtuc 0 0 (mk_frpcmp FR_NONE 0 0) (mk_frpcmp FR_NONE 0 0);
  in_ppip := 0; in_ippip := 0; in_dpmin := 0; in_dpmax := 0; in_spmin := lo; in_spmax := hi; in_plabel := -1; in_tag := [0] |}.
(** A packet from [src] to [dst] of protocol [p], with ports or an identifier. *)
Definition packet (out p src dst sport dport : Z) : fr_info :=
  fin_zero <| fin_fi := fi_zero <| fi_v := 4 |> <| fi_p := p |> <| fi_src := mk_i6addr src 0 0 0 |>
                        <| fi_dst := mk_i6addr dst 0 0 0 |> <| fi_ports0 := sport |> <| fi_ports1 := dport |>
                        <| fi_flx := if p =? IPPROTO_ICMP then FI_ICMPQUERY else FI_TCPUDP |> |>
           <| fin_out := out |> <| fin_hlen := 20 |> <| fin_dp := 20 |> <| fin_plen := 40 |> <| fin_dlen := 20 |>.
(** The table with one rule, at location 1. *)
Definition table (r : ipnat) (fin : fr_info) : natw unit := {|
  nw_heap := mk_tqheap ∅ (list_to_map ((fun q => (q, queue q)) <$> (Pos.of_succ_nat <$> seq 0 18))) None 0;
  nw_nats := ∅; nw_table0 _ := []; nw_table1 _ := []; nw_instances := []; ns_bucketlen0 _ := 0; ns_bucketlen1 _ := 0;
  ns_active := 0; ns_wilds := 0; ns_rules := 1; nw_hms := ∅; nw_hmtable _ := []; nw_hmlist := [];
  nw_rules := {[1%positive := r]}; nw_maprules _ := [1%positive]; nw_rdrrules _ := [1%positive];
  nw_map_mask := mk_masktab (0xff000000 :: replicate 32 0) (replicate 33 0) 1;
  nw_rdr_mask := mk_masktab (0xff000000 :: replicate 32 0) (replicate 33 0) 1; nw_saved := ∅; nw_frs := ∅; nw_ticks := 1000;
  nw_lock := 0; nw_doflush := 0; nw_last_flush := 0; nw_list := [1%positive]; nw_table_max := 100; nw_fin := fin; nw_pktnum := 0; nw_buf := replicate 40 0;
  nw_ext := tt; nw_allocs := [Some 100%positive; Some 101%positive; Some 102%positive; Some 103%positive; Some 104%positive;
                              Some 105%positive; Some 106%positive; Some 107%positive] |}.
Definition run {A} (m : ST (natw unit) A) (w : natw unit) : natw unit := default w (exec m w).
End Demo.

Definition new_mapping_reply_state : natw unit :=
  Demo.table (Demo.map_rule IPN_SEQUENTIAL 0xc0a80101 MAX32 0xc0a80101 40000 40009)
             (Demo.packet 1 IPPROTO_UDP 0x0a000001 0x08080808 123 53).
Lemma new_mapping_reply_witness : exists w' e,
  ipf_nat_add Demo.cf true 10 1 None IPN_UDP NAT_OUTBOUND new_mapping_reply_state = Some (Some (Some 100%positive), w') /\
  nw_nats w' !! 100%positive = Some e /\ nat_osrcaddr e = 0x0a000001 /\ nat_nsrcaddr e = 0xc0a80101 /\ nat_nsport e = 40000.
Proof.
  destruct (ipf_nat_add Demo.cf true 10 1 None IPN_UDP NAT_OUTBOUND new_mapping_reply_state) as [[o w']|] eqn:R;
    [|vm_compute in R; discriminate R].
  assert (Ho : o = Some (Some 100%positive)).
  { apply (f_equal (fmap fst)) in R. vm_compute in R. by injection R as <-. }
  subst o.
  destruct (new_mapping_reply Demo.cf true 10 100 1 IPN_UDP new_mapping_reply_state w'
    (Demo.map_rule IPN_SEQUENTIAL 0xc0a80101 MAX32 0xc0a80101 40000 40009)) as (e & He & H1 & _).
  - by right.
  - vm_compute; reflexivity.
  - vm_compute; reflexivity.
  - vm_compute; reflexivity.
  - vm_compute; reflexivity.
  - split; vm_compute; reflexivity.
  - intros q n Hq. cbn in Hq. apply lookup_singleton_Some in Hq as [<- <-]. by split.
  - split; intros i x Hx; destruct (not_elem_of_nil x Hx).
  - vm_compute; reflexivity.
  - vm_compute; reflexivity.
  - exact R.
  - exists w', e. split; [reflexivity|]. split; [exact He|]. split; [exact H1|].
    assert (Hc : match ipf_nat_add Demo.cf true 10 1 None IPN_UDP NAT_OUTBOUND new_mapping_reply_state with
                 | Some (_, w) => (fun e => (nat_nsrcaddr e, nat_nsport e)) <$> nw_nats w !! 100%positive
                 | None => None
                 end = Some (0xc0a80101, 40000)) by (vm_compute; reflexivity).
    clear - R He Hc. rewrite R, He in Hc. clear - Hc. cbn [fmap option_fmap option_map] in Hc.
    injection Hc as Hc1 Hc2. split; [exact Hc1|exact Hc2].
Defined.

(** ** A pool that is used up *)

Section Pool.
Context {E : Type} `{nat_env E} (cf : natconf) (be : bool).
Abbreviation W := (natw E).

Lemma first_match_bound p src dst sport dport ifp y nats l :
  first_match (in_match be p src dst sport dport ifp) (alter (with_ifp0 ifp) y nats) l =
  first_match (in_match be p src dst sport dport ifp) nats l.
Proof.
  induction l as [|z l IH]; simpl; [done|]. destruct (decide (z = y)) as [->|Hz].
  - rewrite lookup_alter, decide_True by done. destruct (nats !! y); simpl; [|done]. by rewrite in_match_bound, IH.
  - rewrite lookup_alter_ne by done. by rewrite IH.
Qed.
Lemma plain_alter nats y ifp l : plain nats l -> plain (alter (with_ifp0 ifp) y nats) l.
Proof.
  intros Hp z Hz. destruct (Hp z Hz) as (e & He & Ha). destruct (decide (z = y)) as [->|Hzy].
  - exists (with_ifp0 ifp e). rewrite lookup_alter, decide_True, He by done. by rewrite with_ifp0_aps.
  - exists e. by rewrite lookup_alter_ne.
Qed.

(** [r] is a rule with a pool of addresses and no port range, [pool] the addresses that
    its next address runs through. *)
Context (r : ipnat) (pool : Z -> Prop) (fin : fr_info) (flags : Z) (x np : loc).
Definition next_addr (a : Z) : Z := in_snip (wrap_snip be (r <| in_snip := a |>)).
Record pool_rule : Prop := {
  pr_map : in_redir r = NAT_MAP; pr_msk : in_nsrcmsk r <> MAX32; pr_addr : in_nsrcaddr r <> 0; pr_ports : in_spnext r = 0;
  pr_auto : has (in_flags r) IPN_AUTOPORTMAP = false;
  pr_u32 : forall a, pool a -> is_u32 a;
  pr_same : forall a, pool a -> pool (next_addr a); pr_next : forall a, pool a -> pool (next_addr (u32 (a + 1))) }.
Record spin (k : Z) (w : W) : Prop := {
  sp_rule : exists a u, nw_rules w !! np = Some (r <| in_snip := a |> <| in_use := u |>) /\ pool a /\ k <= u;
  sp_x : is_Some (nw_nats w !! x); sp_fin : nw_fin w = fin;
  sp_plain : forall i, plain (nw_nats w) (nw_table1 w i);
  sp_taken : forall a, pool a -> is_Some (in_found cf be w (fin_p fin) (fin_daddr fin) (htonl be a) (htons be (fin_dport fin))
                                            (htons be (fin_sport fin)) (fin_ifp fin)) }.
Context (Hr : pool_rule) (Hp : tcpudp (fin_p fin)) (Hf : has flags IPN_TCPUDP = true).

(** Changes that do not matter here. *)
Lemma spin_same k w w' : view w' = view w -> nw_rules w' = nw_rules w -> spin k w -> spin k w'.
Proof.
  intros [= E1 E2 E3 E4 E5 E6] Er [H1 H2 H3 H4 H5]. split; rewrite ?E1, ?E3, ?E4, ?Er; try done.
  intros a Ha. specialize (H5 a Ha). unfold in_found in *. by rewrite E1, E3.
Qed.
Lemma spin_hm k w h : spin k w -> wp (upd_nat x (fun e => e <| nat_hm := h |>)) (fun _ w' => spin k w' /\ nw_hms w' = nw_hms w) w.
Proof.
  intros [H1 [e He] H3 H4 H5]. rewrite (wp_upd_nat _ _ _ _ _ e) by done. split; [|done].
  set (f := fun e : natt => _).
  assert (Hm : forall matches l, (forall e, matches (f e) = matches e) ->
    first_match matches (alter f x (nw_nats w)) l = first_match matches (nw_nats w) l).
  { intros matches l Hm. induction l as [|z l IH]; simpl; [done|]. destruct (decide (z = x)) as [->|Hz].
    - rewrite lookup_alter, decide_True, He by done. simpl. by rewrite Hm, IH.
    - rewrite lookup_alter_ne by done. by rewrite IH. }
  split; cbn; try done.
  - rewrite lookup_alter, decide_True, He by done. by eexists.
  - intros i z Hz. destruct (H4 i z Hz) as (ez & Hez & Ha). destruct (decide (z = x)) as [->|Hzx].
    + exists (f ez). by rewrite lookup_alter, decide_True, Hez.
    + exists ez. by rewrite lookup_alter_ne.
  - intros a Ha. specialize (H5 a Ha). unfold in_found, in_chain in *. cbn. by rewrite Hm.
Qed.
Lemma spin_taken k w a : spin k w -> pool a ->
  wp (taken cf be flags (fin_daddr fin) (htonl be a) (htons be (fin_sport fin))) (fun t w' => t = true /\ spin k w' /\ nw_hms w' = nw_hms w) w.
Proof.
  intros Hs Ha. destruct Hs as [H1 H2 H3 H4 H5]. destruct (H5 a Ha) as [y Hy].
  unfold taken. rewrite wp_bind, wp_gets, wp_bind. unfold upd_nfin at 1. rewrite wp_modify, H3.
  set (w1 := w <| nw_fin ::= _ |>). destruct (search_flags flags) as [Hf1 Hf2].
  rewrite wp_bind. unfold wpg at 1.
  rewrite (inlookup_plain cf be _ _ _ _ w1 (htons be (fin_dport fin)) (htons be (fin_sport fin))); cycle 1.
  { done. } { done. } { cbn. symmetry. apply htons_ntohs, htons_u16. } { done. }
  { unfold wild_search. by rewrite Hf2, andb_false_r. } { apply H4. }
  assert (Hi : fin_ifp (nw_fin w1) = fin_ifp fin) by (cbn; by rewrite H3). rewrite Hi.
  change (in_found cf be w1) with (in_found cf be w). rewrite Hy.
  assert (Hyn : is_Some (nw_nats w !! y)).
  { unfold in_found in Hy. apply first_match_in in Hy. destruct (H4 _ y Hy) as (e & He & _). by exists e. }
  destruct Hyn as [ey Hey]. unfold bind_ifp0, mbind, st_bind, upd_nat. cbn -[set_data]. rewrite Hey. cbn -[set_data]. split; [done|].
  split; [|done]. split; cbn -[set_data]; try done.
  - destruct H2 as [e He]. destruct (decide (x = y)) as [->|Hxy].
    + rewrite lookup_alter, decide_True, He by done. by eexists.
    + rewrite lookup_alter_ne by done. by exists e.
  - by rewrite H3, set_data_back.
  - intros i. apply (plain_alter (nw_nats w) y (fin_ifp fin)), H4.
  - intros b Hb. specialize (H5 b Hb). unfold in_found, in_chain in *. cbn.
    by rewrite (first_match_bound _ _ _ _ _ (fin_ifp fin) y).
Qed.

(** The rule's next address. *)
Lemma wrap_snip_at a u : wrap_snip be (r <| in_snip := a |> <| in_use := u |>) = r <| in_snip := next_addr a |> <| in_use := u |>.
Proof. unfold next_addr, wrap_snip. cbn. by repeat case_match. Qed.
Lemma spin_rule k w a u : spin k w -> pool a -> k <= u ->
  wp (upd_rule np (fun _ => r <| in_snip := a |> <| in_use := u |>)) (fun _ w' => spin k w' /\ nw_hms w' = nw_hms w) w.
Proof.
  intros [(b & v & H1 & _) H2 H3 H4 H5] Ha Hu. rewrite (wp_upd_rule _ _ _ _ _ _ H1). split; [|done]. split; cbn; try done.
  exists a, u. by rewrite lookup_alter, decide_True, H1 by done.
Qed.

(** A round after the host map: always taken. *)
Lemma pool_map_addr a u saddr l sport b hm ifa w :
  exists a', (a' = a \/ a' = u32 (a + 1)) /\
    map_addr be (r <| in_snip := a |> <| in_use := u |>) saddr flags l sport b hm ifa w =
    Some (Some (b, 0, r <| in_snip := a' |> <| in_use := u |>), w : W).
Proof.
  unfold map_addr. cbn. destruct Hr as [R1 R2 R3 R4 R5 _ _ _].
  rewrite (proj2 (Z.eqb_neq _ _) R2), (proj2 (Z.eqb_neq _ _) R3), R1, R4. cbn.
  destruct ((l >? 0) || _); [exists (u32 (a + 1)); auto|exists a; auto].
Qed.
Lemma pool_map_port r' saddr l sport w : in_redir r' = NAT_MAP -> has (in_flags r') IPN_AUTOPORTMAP = false -> in_spnext r' = 0 ->
  map_port be r' saddr flags l sport 0 w = Some ((0, r'), w : W).
Proof. intros R1 R2 R3. unfold map_port. by rewrite R1, R2, R3, !andb_false_r. Qed.
Definition round_rest (l : Z) (sport st_ip st_port : Z) (hm : option loc) (in1 : Z) : ST W round :=
  upd_nat x (fun e => e <| nat_hm := hm |>);;
  r ← rule np;
  w ← gets id;
  let fin := nw_fin w in
  a ← map_addr be r (fin_saddr fin) flags l sport (ntohl be in1) hm (nenv_ifpaddr (nw_ext w) (fin_ifp fin));
  match a with
  | None => mret RoundFail
  | Some (addr, port, r) =>
      '(port, r) ← map_port be r (fin_saddr fin) flags l sport port;
      let r := wrap_snip be r in
      upd_rule np (fun _ => r);;
      let port := if (port =? 0) && has flags (Z.lor IPN_TCPUDPICMP IPN_ICMPERR) then sport else port in
      t ← taken cf be flags (fin_daddr fin) (htonl be addr) port;
      if negb t then mret (RoundFree addr port)
      else if negb (in_spnext r =? 0) && (st_port =? in_spnext r) && negb (in_snip r =? 0) && (st_ip =? in_snip r)
      then mret RoundFail
      else mret (RoundTaken hm)
  end.
Lemma has_tcpudp : has flags (Z.lor IPN_TCPUDPICMP IPN_ICMPERR) = true.
Proof. by apply (has_more _ IPN_TCPUDP). Qed.
Lemma pool_round_rest k l st_ip st_port hm b w : spin k w -> pool b ->
  wp (round_rest l (htons be (fin_sport fin)) st_ip st_port hm (htonl be b))
    (fun o w' => o = RoundTaken hm /\ spin k w' /\ nw_hms w' = nw_hms w) w.
Proof.
  intros Hs Hb. unfold round_rest. rewrite wp_bind. eapply wp_mono; [by apply spin_hm|]. intros [] w1 [H1 E1].
  destruct (sp_rule _ _ H1) as (a & u & Hru & Ha & Hu).
  rewrite wp_bind, (wp_rule _ _ _ _ _ Hru), wp_bind, wp_gets. cbv zeta. change (id w1) with w1. rewrite (sp_fin _ _ H1).
  assert (Hbb : ntohl be (htonl be b) = b) by (apply ntohl_htonl, (pr_u32 Hr), Hb). rewrite Hbb.
  destruct (pool_map_addr a u (fin_saddr fin) l (htons be (fin_sport fin)) b hm (nenv_ifpaddr (nw_ext w1) (fin_ifp fin)) w1)
    as (a' & Ha' & Em).
  rewrite wp_bind. unfold wpg at 1. rewrite Em. rewrite wp_bind. unfold wpg at 1.
  rewrite pool_map_port by apply Hr. rewrite wrap_snip_at.
  assert (Hn : pool (next_addr a')) by (destruct Ha' as [->| ->]; [by apply (pr_same Hr)|by apply (pr_next Hr)]).
  rewrite wp_bind. eapply wp_mono; [by apply (spin_rule k)|]. intros [] w2 [H2 E2].
  rewrite has_tcpudp. cbn [Z.eqb andb]. rewrite wp_bind. eapply wp_mono; [by apply (spin_taken k)|].
  intros t w3 (-> & H3 & E3). cbn. rewrite (pr_ports Hr). cbn. split; [done|]. split; [done|congruence].
Qed.

(** No host map for the addresses of the packet. *)
Definition no_hostmap (w : W) : Prop :=
  forall y, y ∈ nw_hmtable w (hm_hash (fin_saddr fin) (fin_daddr fin) mod ipf_nat_hostmap_sz cf) ->
  exists h, nw_hms w !! y = Some h /\ hm_matches (fin_saddr fin) (fin_daddr fin) (Some np) 0 h = false.
Lemma find_hm_none src dst o port l (w : W) :
  (forall y, y ∈ l -> exists h, nw_hms w !! y = Some h /\ hm_matches src dst o port h = false) ->
  find_hm src dst o port l w = Some (None, w).
Proof.
  induction l as [|y l IH]; simpl; intros Hl; [done|]. destruct (Hl y) as (h & Hh & Hm); [left|].
  rewrite (bind_eq _ _ w h w) by (unfold hmst; by rewrite Hh). rewrite Hm. apply IH. intros z Hz. apply Hl. by right.
Qed.
Lemma newmap_round_eq l st_ip st_port sport hm :
  newmap_round cf be x np st_ip st_port sport flags l hm =
  ('(hm, in1) ← map_hm cf be np l hm; round_rest l sport st_ip st_port hm in1).
Proof. done. Qed.

(** A host map that only the search refers to. *)
Definition own_hm (hm : option loc) (w : W) : Prop :=
  match hm with Some y => exists h, nw_hms w !! y = Some h /\ hm_ref h = 1 /\ hm_ipnat h = np | None => True end.
Definition uses (hm : option loc) : Z := match hm with Some _ => 2 | None => 1 end.
Lemma pool_round_first st_ip st_port w : spin 1 w -> no_hostmap w ->
  wp (newmap_round cf be x np st_ip st_port (htons be (fin_sport fin)) flags 0 None)
    (fun o w' => exists hm, o = RoundTaken hm /\ own_hm hm w' /\ spin (uses hm) w') w.
Proof.
  intros Hs Hno. rewrite newmap_round_eq, wp_bind. unfold map_hm. destruct (sp_rule _ _ Hs) as (a & u & Hru & Ha & Hu).
  rewrite wp_bind, (wp_rule _ _ _ _ _ Hru), wp_bind, wp_gets, (sp_fin _ _ Hs). cbn [in_snip field_set Z.eqb].
  rewrite wp_bind. unfold ipf_nat_hostmap. rewrite wp_bind, wp_gets, wp_bind. unfold wpg at 1.
  rewrite find_hm_none by exact Hno. rewrite wp_bind. unfold wpg at 1. unfold nkmalloc at 1.
  destruct (nw_allocs w) as [|[y|] al].
  - change (wp (round_rest 0 (htons be (fin_sport fin)) st_ip st_port None (htonl be a))
      (fun o w' => exists hm, o = RoundTaken hm /\ own_hm hm w' /\ spin (uses hm) w') w).
    eapply wp_mono; [by apply (pool_round_rest 1)|]. intros o w' (-> & H1 & _). by exists None.
  - cbn [fst snd]. set (w1 := w <| nw_allocs := al |>). rewrite wp_bind, wp_modify. set (w2 := w1 <| nw_hmlist ::= _ |> <| nw_hmtable ::= _ |>).
    rewrite wp_bind, (wp_upd_rule _ _ _ _ w2 _ Hru). set (w3 := w2 <| nw_rules ::= _ |>). rewrite wp_bind, wp_modify.
    set (w4 := w3 <| nw_hms ::= _ |>). rewrite wp_ret, wp_bind.
    rewrite (wp_hmst _ _ _ _ (mk_hostmap np (fin_saddr fin) (fin_daddr fin) (htonl be a) 0 0 1
      (hm_hash (fin_saddr fin) (fin_daddr fin)) 4)) by (unfold w4; cbn; by rewrite lookup_insert, decide_True).
    rewrite wp_ret. cbn [hm_nsrcip].
    assert (H4 : spin 2 w4).
    { destruct Hs as [_ H2 H3 H4 H5]. split; try done. exists a, (u + 1). split; [|by split; [|lia]].
      unfold w4, w3. cbn. rewrite lookup_alter, decide_True, Hru by done. done. }
    eapply wp_mono; [by apply (pool_round_rest 2)|]. intros o w' (-> & H5 & E5). exists (Some y). split; [done|].
    split; [|done]. unfold own_hm. rewrite E5. unfold w4. cbn. rewrite lookup_insert, decide_True by done. by eexists.
  - set (w1 := w <| nw_allocs := al |>). assert (H1 : spin 1 w1) by (by apply (spin_same 1 w)).
    change (wp (round_rest 0 (htons be (fin_sport fin)) st_ip st_port None (htonl be a))
      (fun o w' => exists hm, o = RoundTaken hm /\ own_hm hm w' /\ spin (uses hm) w') w1).
    eapply wp_mono; [by apply (pool_round_rest 1)|]. intros o w' (-> & H2 & _). by exists None.
Qed.
Lemma pool_round_second st_ip st_port hm w : spin (uses hm) w -> own_hm hm w ->
  wp (newmap_round cf be x np st_ip st_port (htons be (fin_sport fin)) flags 1 hm)
    (fun o w' => o = RoundTaken None /\ spin 1 w') w.
Proof.
  intros Hs Ho. rewrite newmap_round_eq, wp_bind. unfold map_hm. destruct (sp_rule _ _ Hs) as (a & u & Hru & Ha & Hu).
  rewrite wp_bind, (wp_rule _ _ _ _ _ Hru), wp_bind, wp_gets. cbn [in_snip field_set Z.eqb Pos.eqb].
  destruct hm as [y|]; cbn in Hu.
  - destruct Ho as (h & Hh & Hr1 & Hi). rewrite wp_bind. unfold ipf_nat_hostmapdel.
    rewrite wp_bind, (wp_upd_hm _ _ _ _ _ h) by done. set (w1 := w <| nw_hms ::= _ |>).
    rewrite wp_bind, (wp_hmst _ _ _ w1 (h <| hm_ref := 0 |>))
      by (unfold w1; cbn; rewrite lookup_alter, decide_True, Hh by done; cbn; by rewrite Hr1).
    cbn [hm_ref field_set hm_ipnat Z.eqb when_]. rewrite wp_bind. rewrite Hi. unfold ipf_nat_rule_deref.
    rewrite wp_bind, (wp_upd_rule _ _ _ _ w1 _ Hru). set (w2 := w1 <| nw_rules ::= _ |>).
    rewrite wp_bind, (wp_rule _ _ _ w2 (r <| in_snip := a |> <| in_use := u - 1 |>))
      by (unfold w2; cbn; by rewrite lookup_alter, decide_True, Hru).
    cbn [in_use field_set]. rewrite (proj2 (Z.gtb_lt (u - 1) 0)) by lia. rewrite wp_ret, wp_modify, wp_ret.
    match goal with |- wp _ _ ?w => assert (H3 : spin 1 w) end.
    { destruct Hs as [_ H2 H3 H4 H5]. split; try done. exists a, (u - 1). split; [|by split; [|lia]].
      unfold w2. cbn. by rewrite lookup_alter, decide_True, Hru. }
    eapply wp_mono; [by apply (pool_round_rest 1)|]. intros o w' (-> & H4 & _). done.
  - rewrite wp_ret. eapply wp_mono; [by apply (pool_round_rest 1)|]. by intros o w' (-> & H4 & _).
Qed.
Lemma pool_round_later st_ip st_port l w : spin 1 w -> 2 <= l ->
  wp (newmap_round cf be x np st_ip st_port (htons be (fin_sport fin)) flags l None)
    (fun o w' => o = RoundTaken None /\ spin 1 w') w.
Proof.
  intros Hs Hl. rewrite newmap_round_eq, wp_bind. unfold map_hm. destruct (sp_rule _ _ Hs) as (a & u & Hru & Ha & Hu).
  rewrite wp_bind, (wp_rule _ _ _ _ _ Hru), wp_bind, wp_gets.
  rewrite (proj2 (Z.eqb_neq l 0)), (proj2 (Z.eqb_neq l 1)) by lia. rewrite wp_ret. cbn [in_snip field_set].
  eapply wp_mono; [by apply (pool_round_rest 1)|]. by intros o w' (-> & H4 & _).
Qed.
Lemma pool_search_later st_ip st_port fuel : forall l w, spin 1 w -> 2 <= l ->
  wp (newmap_search cf be fuel x np st_ip st_port (htons be (fin_sport fin)) flags l None) (fun o _ => o = OutOfFuel) w.
Proof.
  induction fuel as [|fuel IH]; intros l w Hs Hl; cbn [newmap_search]; [done|].
  rewrite wp_bind. eapply wp_mono; [by apply pool_round_later|]. intros o w' [-> H1]. apply IH; [done|lia].
Qed.
Lemma pool_search st_ip st_port fuel w : spin 1 w -> no_hostmap w ->
  wp (newmap_search cf be fuel x np st_ip st_port (htons be (fin_sport fin)) flags 0 None) (fun o _ => o = OutOfFuel) w.
Proof.
  intros Hs Hn. destruct fuel as [|fuel]; [done|]. cbn [newmap_search].
  rewrite wp_bind. eapply wp_mono; [by apply pool_round_first|]. intros o w1 (hm & -> & H1 & H2).
  destruct fuel as [|fuel]; [done|]. cbn [newmap_search].
  rewrite wp_bind. eapply wp_mono; [by apply pool_round_second|]. intros o w2 [-> H3]. by apply pool_search_later.
Qed.
End Pool.

(** C11. A rule that maps to a pool of addresses and names no ports: when a session that
    a reply would reach uses every address of the pool, with the ports of the packet, the
    search for an address never ends.  The only test that leaves the loop asks for the
    next port of the rule, which such a rule does not have. *)
Theorem newmap_pool_endless {E} `{nat_env E} cf be r pool x np (w : natw E) e a u :
  pool_rule be r pool -> nw_rules w !! np = Some (r <| in_snip := a |> <| in_use := u |>) -> pool a -> 1 <= u ->
  nw_nats w !! x = Some e -> has (nat_flags e) IPN_TCPUDP = true -> has (nat_flags e) IPN_ICMPQUERY = false ->
  tcpudp (fin_p (nw_fin w)) -> (forall i, plain (nw_nats w) (nw_table1 w i)) ->
  no_hostmap cf (nw_fin w) np w ->
  (forall b, pool b -> exists y, in_found cf be w (fin_p (nw_fin w)) (fin_daddr (nw_fin w)) (htonl be b)
     (htons be (fin_dport (nw_fin w))) (htons be (fin_sport (nw_fin w))) (fin_ifp (nw_fin w)) = Some y) ->
  forall fuel, exists w', ipf_nat_newmap cf be fuel x np w = Some (None, w').
Proof.
  intros Hr Hru Ha Hu Hx Hf Hi Hp Hc Hn Ht fuel.
  assert (Hs : spin cf be r pool (nw_fin w) x np 1 w).
  { split; [by exists a, u|by exists e|done|done|]. intros b Hb. by destruct (Ht b Hb) as [y ->]. }
  assert (Hw : wp (ipf_nat_newmap cf be fuel x np) (fun o _ => o = None) w).
  { unfold ipf_nat_newmap. rewrite wp_bind, (wp_rule _ _ _ _ _ Hru), wp_bind, (wp_nst _ _ _ _ _ Hx), wp_bind, wp_gets.
    unfold map_ports. cbv zeta. rewrite Hi. rewrite wp_bind.
    eapply wp_mono; [by apply (pool_search cf be r pool (nw_fin w))|]. by intros o w' ->. }
  unfold wpg in Hw. destruct (ipf_nat_newmap cf be fuel x np w) as [[o w']|]; [|done]. subst o. by exists w'.
Qed.

(** 192.168.1.0/30 has two addresses to give; two hosts use them. *)
Definition pool_of (a : Z) : Prop := a = 0xc0a80101 \/ a = 0xc0a80102.
Definition pool_demo_rule : ipnat := Demo.map_rule 0 0xc0a80100 0xfffffffc 0xc0a80101 0 0.
Definition pool_demo_state : natw unit :=
  let host src := Demo.packet 1 IPPROTO_UDP src 0x08080808 123 53 in
  let add (w : natw unit) := Demo.run (ipf_nat_add Demo.cf true 10 1 None IPN_UDP NAT_OUTBOUND) w in
  let w := add (Demo.table pool_demo_rule (host 0x0a000001)) in
  let w := add (w <| nw_fin := host 0x0a000002 |>) in
  w <| nw_fin := host 0x0a000003 |> <| nw_nats ::= <[200%positive := nat_zero <| nat_flags := IPN_UDP |>]> |>.
Lemma pool_demo_chains i : plain (nw_nats pool_demo_state) (nw_table1 pool_demo_state i).
Proof.
  assert (Ht : forall y, y ∈ nw_table1 pool_demo_state i -> y = 100%positive \/ y = 102%positive).
  { assert (E : nw_table1 pool_demo_state i = upd_at 40 (cons 102%positive) (upd_at 39 (cons 100%positive) (fun _ => [])) i)
      by (vm_compute; reflexivity).
    clear - E. rewrite E. clear E. unfold upd_at. intros y. destruct (i =? 40), (i =? 39); cbv iota;
      rewrite ?elem_of_cons, ?elem_of_nil; tauto. }
  intros y Hy.
  assert (Hb : (nat_aps <$> nw_nats pool_demo_state !! y) = Some None)
    by (destruct (Ht y Hy) as [->| ->]; vm_compute; reflexivity).
  destruct (nw_nats pool_demo_state !! y) as [e|]; [|discriminate Hb]. exists e. by injection Hb.
Qed.
Lemma newmap_pool_endless_witness : exists w',
  ipf_nat_newmap Demo.cf true 1000 200 1 pool_demo_state = Some (None, w').
Proof.
  apply (newmap_pool_endless Demo.cf true (pool_demo_rule <| in_hits := 2 |>) pool_of 200 1 pool_demo_state
           (nat_zero <| nat_flags := IPN_UDP |>) 0xc0a80101 6).
  - split; [reflexivity|done|done|reflexivity|reflexivity| | |].
    + intros a [->| ->]; done.
    + intros a [->| ->]; [left|right]; vm_compute; reflexivity.
    + intros a [->| ->]; [right|left]; vm_compute; reflexivity.
  - vm_compute; reflexivity.
  - by left.
  - lia.
  - vm_compute; reflexivity.
  - vm_compute; reflexivity.
  - vm_compute; reflexivity.
  - by right.
  - apply pool_demo_chains.
  - intros y Hy. assert (E : nw_hmtable pool_demo_state (hm_hash (fin_saddr (nw_fin pool_demo_state))
      (fin_daddr (nw_fin pool_demo_state)) mod ipf_nat_hostmap_sz Demo.cf) = []) by (vm_compute; reflexivity).
    rewrite E in Hy. destruct (not_elem_of_nil y Hy).
  - intros b [->| ->]; eexists; vm_compute; reflexivity.
Defined.
