(* ===== verification/NatXlate.v ===== *)
(** The translation of packets by ip_nat.c: [ipf_nat_mssclamp], [ipf_nat_proto],
    [ipf_nat_out], [ipf_nat_in], how a packet is given a session ([ipf_nat_match], the
    walk over the rules, [ipf_nat_checkout], [ipf_nat_checkin]) and [ipf_nat_update].

    The packet is the list of bytes from [fin_ip] on.  The build is the one of the user
    programs, Linux and the like, where the checksum of the IP header is adjusted. *)
From S2P Require Import Prelude Packet Cksum Filter Timeoutq TcpAge Queues Sweeps TcpWindow State StateLookup NatTable NatNew.

(** ** Definitions *)

Definition FI_NATED : Z := 0x0010.
Definition FI_BADNAT : Z := 0x0200.
Definition FRB_NATV4 : Z := 15.
Definition TCPOPT_EOL : Z := 0.
Definition TCPOPT_NOP : Z := 1.
Definition TCPOPT_MAXSEG : Z := 2.

(** *** The maximum segment size *)

Section Buffer.
Context (be : bool).

Definition wr8 (i v : Z) (m : list Z) : option (list Z) :=
  if (i <? 0) || (Z.of_nat (length m) <=? i) then None else Some (<[Z.to_nat i := v]> m).
(** A 32-bit object, as its two halves. *)
Definition wr32 (i v : Z) (m : list Z) : option (list Z) :=
  m ← wr16 be i (if be then v / 65536 else v mod 65536) m;
  wr16 be (i + 2) (if be then v mod 65536 else v / 65536) m.
(** A 16-bit object is replaced by its image. *)
Definition fix16 (i : Z) (f : Z -> Z) (m : list Z) : option (list Z) := v ← rd16 be i m; wr16 be i (f v) m.

(** The options between [cp] and [ep]; [csump] is a null pointer or the checksum.  The
    macro [CALC_SUMD] leaves in [maxmss] what it makes of it. *)
Definition sumd_s2 (s1 s2 : Z) : Z :=
  let s1 := u32 (Z.land s1 0xffff + Z.shiftr s1 16) in
  let s2 := u32 (Z.land s2 0xffff + Z.shiftr s2 16) in
  let s1 := u32 (Z.land s1 0xffff + Z.shiftr s1 16) in
  let s2 := u32 (Z.land s2 0xffff + Z.shiftr s2 16) in
  if s1 >? s2 then u32 (s2 - 1) else s2.
Definition clamp_mss (csump : option Z) (cp maxmss : Z) (m : list Z) : option (Z * list Z) :=
  hi ← rd8 (cp + 2) m;
  lo ← rd8 (cp + 3) m;
  let mss := hi * 256 + lo in
  if mss >? maxmss then
    m ← wr8 (cp + 2) (u8 (maxmss / 256)) m;
    m ← wr8 (cp + 3) (Z.land maxmss 0xff) m;
    c ← csump;
    m ← fix16 c (fun v => ipf_fix_outcksum be 0 v (CALC_SUMD u32 mss maxmss) 0) m;
    Some (sumd_s2 mss maxmss, m)
  else Some (maxmss, m).
Fixpoint clamp_options (fuel : nat) (csump : option Z) (cp ep maxmss : Z) (m : list Z) : option (list Z) :=
  if cp <? ep then
    match fuel with
    | O => None
    | S fuel =>
        opt ← rd8 cp m;
        if opt =? TCPOPT_EOL then Some m
        else if opt =? TCPOPT_NOP then clamp_options fuel csump (cp + 1) ep maxmss m
        else if cp + 1 >=? ep then Some m
        else
          advance ← rd8 (cp + 1) m;
          if (cp + advance >? ep) || (advance <=? 0) then Some m
          else
            '(maxmss, m) ← (if (opt =? TCPOPT_MAXSEG) && (advance =? 4) then clamp_mss csump cp maxmss m
                            else Some (maxmss, m));
            clamp_options fuel csump (cp + advance) ep maxmss m
    end
  else Some m.
(** [ipf_nat_mssclamp]; an option takes a byte at least, hence the fuel. *)
Definition ipf_nat_mssclamp (dp maxmss : Z) (csump : option Z) (m : list Z) : option (list Z) :=
  off ← rd8 (dp + 12) m;
  let hlen := Z.shiftl (Z.shiftr off 4) 2 in
  if hlen >? 20 then clamp_options (Z.to_nat hlen) csump (dp + 20) (dp + hlen) maxmss m else Some m.
End Buffer.

Section Xlate.
Context {E : Type} `{nat_env E} (cf : natconf) (be : bool).
Abbreviation W := (natw E).

(** A change of the packet. *)
Definition edit (f : list Z -> option (list Z)) : ST W unit :=
  w ← gets id; m ← need (f (nw_buf w)); modify (fun w => w <| nw_buf := m |>).
Definition byte_at (i : Z) : ST W Z := w ← gets id; need (rd8 i (nw_buf w)).
Definition word_at (i : Z) : ST W Z := w ← gets id; need (rd16 be i (nw_buf w)).

(** *** [ipf_nat_proto] *)

(** The direction of the packet within the session, and where its checksum is. *)
Definition ipf_nat_proto (x : loc) (nflags : Z) : ST W (option Z) :=
  e ← nst x;
  fin ← gets nw_fin;
  let rev := if fin_out fin =? 0 then Z.land (nat_dir e) NAT_OUTBOUND
             else b2z (Z.land (nat_dir e) NAT_OUTBOUND =? 0) in
  upd_nfin (fun fin => fin <| fin_rev := rev |>);;
  let dp := fin_dp fin in
  if fin_p fin =? IPPROTO_TCP then
    let csump := if has nflags IPN_TCP then Some (dp + 16) else None in
    when_ (negb (nat_mssclamp e =? 0))
      (fl ← byte_at (dp + 13); when_ (has fl TH_SYN) (edit (ipf_nat_mssclamp be dp (nat_mssclamp e) csump)));;
    mret csump
  else if fin_p fin =? IPPROTO_UDP then
    if has nflags IPN_UDP then s ← word_at (dp + 6); mret (if s =? 0 then None else Some (dp + 6)) else mret None
  else if fin_p fin =? IPPROTO_ICMP then
    if has nflags IPN_ICMPQUERY then s ← word_at (dp + 2); mret (if s =? 0 then None else Some (dp + 2)) else mret None
  else mret None.

(** *** [ipf_nat_update] *)

Definition update_queue (x : loc) (p rev : Z) : ST W loc :=
  mret (if p =? IPPROTO_UDP then if negb (rev =? 0) then ipf_nat_udpacktq cf else ipf_nat_udptq cf
        else if (p =? IPPROTO_ICMP) || (p =? IPPROTO_ICMPV6)
        then if negb (rev =? 0) then ipf_nat_icmpacktq cf else ipf_nat_icmptq cf
        else ipf_nat_iptq cf).
Definition ipf_nat_update (x : loc) : ST W unit :=
  e ← nst x;
  fin ← gets nw_fin;
  ifq ← nhp (ent tqe_ifq x);
  ifq2 ← rule_tq (nat_ptr e) (fin_rev fin);
  if (nat_pr0 e =? IPPROTO_TCP) && bool_decide (ifq2 = None) then nat_tcp_age cf x 0 2
  else
    q2 ← match ifq2 with Some q => mret q | None => update_queue x (nat_pr0 e) (fin_rev fin) end;
    q ← need ifq;
    ticks ← gets nw_ticks;
    nhp (ipf_movequeue ticks x q q2).

(** *** [ipf_nat_out] *)

(** Addresses of the summary and of the header. *)
Definition set_addrs (src dst : Z) (fin : fr_info) : fr_info :=
  fin <| fin_fi ::= fun fi => fi <| fi_src ::= (fun a => a <| i60 := src |>) |> <| fi_dst ::= (fun a => a <| i60 := dst |>) |> |>.
Definition put_src (a : Z) : ST W unit := edit (wr32 be 12 a).
Definition put_dst (a : Z) : ST W unit := edit (wr32 be 16 a).
(** Ports of the header and of the summary. *)
Definition put_ports (sp dp : Z) : ST W unit :=
  fin ← gets nw_fin;
  edit (wr16 be (fin_dp fin) (u16 sp));;
  edit (wr16 be (fin_dp fin + 2) (u16 dp));;
  upd_nfin (set_data (ntohs be sp) (ntohs be dp)).
Definition put_id (v : Z) : ST W unit := fin ← gets nw_fin; edit (wr16 be (fin_dp fin + 4) v).
Definition fix_sum (i : Z) (f : Z -> Z) : ST W unit := edit (fix16 be i f).

(** The correction of the header of an ICMP error, to the addresses it will get. *)
Definition icmperr_sumd (e : natt) (fin : fr_info) : Z :=
  let out := nat_dir e =? NAT_OUTBOUND in
  let d a b := CALC_SUMD u32 (LONG_SUM (ntohl be a)) (LONG_SUM (ntohl be b)) in
  u32 (d (fin_saddr fin) (if out then nat_nsrcaddr e else nat_odstaddr e) +
       d (fin_daddr fin) (if out then nat_ndstaddr e else nat_osrcaddr e)).
Definition out_ipsum (e : natt) (nflags : Z) : ST W unit :=
  fin ← gets nw_fin;
  let part := Z.land (fin_cksum fin) FI_CK_L4PART in
  if nflags =? IPN_ICMPERR then fix_sum 10 (fun v => ipf_fix_outcksum be 0 v (icmperr_sumd e fin) 0)
  else if nat_dir e =? NAT_OUTBOUND then fix_sum 10 (fun v => ipf_fix_outcksum be part v (nat_ipsumd e) 0)
  else if nat_dir e =? NAT_INBOUND then fix_sum 10 (fun v => ipf_fix_incksum be part v (nat_ipsumd e) 0)
  else mret tt.
(** The part that concerns the transport header. *)
Definition out_l4 (x : loc) (e : natt) (nflags : Z) : ST W unit :=
  when_ (negb (nat_nsport e =? 0) && has nflags IPN_TCPUDP)
    (if nat_dir e =? NAT_OUTBOUND then put_ports (nat_nsport e) (nat_ndport e)
     else if nat_dir e =? NAT_INBOUND then put_ports (nat_odport e) (nat_osport e) else mret tt);;
  when_ (negb (nat_oicmpid be e =? 0) && has nflags IPN_ICMPQUERY)
    (if nat_dir e =? NAT_OUTBOUND then put_id (nat_nicmpid be e)
     else if nat_dir e =? NAT_INBOUND then put_id (nat_oicmpid be e) else mret tt);;
  csump ← ipf_nat_proto x nflags;
  fin ← gets nw_fin;
  match csump with
  | Some c =>
      let partial := u32 (nat_sumd1 e + fin_dlen fin) in
      fix_sum c (fun v => if nat_dir e =? NAT_OUTBOUND then ipf_fix_outcksum be (fin_cksum fin) v (nat_sumd0 e) partial
                          else ipf_fix_incksum be (fin_cksum fin) v (nat_sumd0 e) partial)
  | None => mret tt
  end.
Definition first_fragment (fin : fr_info) : bool := negb (has (fin_flx fin) FI_SHORT) && (fin_off fin =? 0).
Definition rule_apr (p : option loc) : ST W (option loc) :=
  match p with Some r => n ← rule r; mret (in_apr n) | None => mret None end.
Definition ipf_nat_out (x : loc) (natadd : bool) (nflags : Z) : ST W Z :=
  e ← nst x;
  fin ← gets nw_fin;
  when_ (natadd && has (fin_flx fin) FI_FRAG && bool_decide (is_Some (nat_ptr e))) (next_ (nenv_frag_natnew fin x));;
  out_ipsum e nflags;;
  d ← (if nat_dir e =? NAT_OUTBOUND then
         put_src (nat_nsrcaddr e);; put_dst (nat_ndstaddr e);;
         upd_nfin (set_addrs (nat_nsrcaddr e) (nat_ndstaddr e));; mret (inr nflags)
       else if nat_dir e =? NAT_INBOUND then
         put_src (nat_odstaddr e);; put_dst (nat_osrcaddr e);;
         upd_nfin (set_addrs (nat_ndstaddr e) (nat_nsrcaddr e));; mret (inr nflags)
       else if (nat_dir e =? NAT_DIVERTIN) || (nat_dir e =? NAT_DIVERTOUT) then nenv_divert 1 x nflags
       else mret (inr nflags));
  match d with
  | inl v => mret v
  | inr nflags =>
      fin ← gets nw_fin;
      when_ (first_fragment fin) (out_l4 x e nflags);;
      fin ← gets nw_fin;
      next_ (nenv_sync_update (nat_sync e) fin);;
      apr ← rule_apr (nat_ptr e);
      i ← match apr with
          | Some _ => i ← nenv_proxy_check x; mret (if i =? 0 then 1 else i)
          | None => mret 1
          end;
      upd_nfin (or_flx FI_NATED);;
      mret i
  end.

(** *** [ipf_nat_in] *)

Definition set_tag (p : option loc) : ST W unit :=
  match p with
  | Some r => n ← rule r; when_ (negb (nth 0 (in_tag n) 0 =? 0)) (upd_nfin (fun fin => fin <| fin_nattag := Some (in_tag n) |>))
  | None => mret tt
  end.
(** The addresses, and what the header checksum is corrected by. *)
Definition in_addrs (e : natt) : ST W unit :=
  fin ← gets nw_fin;
  let err := has (fin_flx fin) FI_ICMPERR in
  if nat_dir e =? NAT_INBOUND then
    let ipsumd := if err then u32 (nat_ipsumd e - CALC_SUMD u32 (nat_osrcaddr e) (nat_nsrcaddr e)) else nat_ipsumd e in
    when_ (negb err) (put_src (nat_nsrcaddr e));;
    put_dst (nat_ndstaddr e);;
    upd_nfin (set_addrs (if err then fin_saddr fin else nat_nsrcaddr e) (nat_ndstaddr e));;
    fix_sum 10 (fun v => ipf_fix_outcksum be 0 v ipsumd 0)
  else if nat_dir e =? NAT_OUTBOUND then
    let ipsumd := if err then u32 (nat_ipsumd e - CALC_SUMD u32 (nat_odstaddr e) (nat_ndstaddr e)) else nat_ipsumd e in
    when_ (negb err) (put_src (nat_odstaddr e));;
    put_dst (nat_osrcaddr e);;
    upd_nfin (set_addrs (if err then fin_saddr fin else nat_odstaddr e) (nat_osrcaddr e));;
    fix_sum 10 (fun v => ipf_fix_incksum be 0 v ipsumd 0)
  else mret tt.
Definition in_l4 (x : loc) (e : natt) (nflags : Z) : ST W unit :=
  when_ (negb (nat_odport e =? 0) && has nflags IPN_TCPUDP)
    (if nat_dir e =? NAT_INBOUND then put_ports (nat_nsport e) (nat_ndport e)
     else if nat_dir e =? NAT_OUTBOUND then put_ports (nat_odport e) (nat_osport e) else mret tt);;
  when_ (negb (nat_oicmpid be e =? 0) && has nflags IPN_ICMPQUERY)
    (if nat_dir e =? NAT_INBOUND then put_id (nat_nicmpid be e)
     else if nat_dir e =? NAT_OUTBOUND then put_id (nat_oicmpid be e) else mret tt);;
  csump ← ipf_nat_proto x nflags;
  match csump with
  | Some c => fix_sum c (fun v => if nat_dir e =? NAT_OUTBOUND then ipf_fix_incksum be 0 v (nat_sumd0 e) 0
                                  else ipf_fix_outcksum be 0 v (nat_sumd0 e) 0)
  | None => mret tt
  end.
Definition ipf_nat_in (x : loc) (natadd : bool) (nflags : Z) : ST W Z :=
  e ← nst x;
  upd_nfin (fun fin => fin <| fin_fr := nat_fr e |>);;
  fin ← gets nw_fin;
  when_ (natadd && has (fin_flx fin) FI_FRAG && bool_decide (is_Some (nat_ptr e))) (next_ (nenv_frag_natnew fin x));;
  apr ← rule_apr (nat_ptr e);
  i ← match apr with Some _ => nenv_proxy_check x | None => mret 0 end;
  if i =? -1 then mret (-1) else
  fin ← gets nw_fin;
  next_ (nenv_sync_update (nat_sync e) fin);;
  in_addrs e;;
  d ← (if (nat_dir e =? NAT_DIVERTIN) || (nat_dir e =? NAT_DIVERTOUT) then nenv_divert 0 x nflags else mret (inr nflags));
  match d with
  | inl v => mret v
  | inr nflags =>
      fin ← gets nw_fin;
      when_ (first_fragment fin) (in_l4 x e nflags);;
      upd_nfin (or_flx FI_NATED);;
      set_tag (nat_ptr e);;
      mret 1
  end.

(** *** The session of a packet *)

(** [ipf_nat_match]: 0 or 1. *)
Definition atype_mismatch (w : W) (a : na_atype) (addr msk pkt : Z) : Z :=
  match a with
  | Na_normal => b2z (negb (Z.land pkt msk =? addr))
  | Na_lookup t => nenv_lookup (nw_ext w) t pkt (fin_plen (nw_fin w))
  | Na_other => 0
  end.
Definition ipf_nat_match (w : W) (n : ipnat) : bool :=
  let fin := nw_fin w in
  let src := Z.lxor (atype_mismatch w (in_osrcatype n) (in_osrcaddr n) (in_osrcmsk n) (fin_saddr fin))
                    (b2z (has (in_flags n) IPN_NOTSRC)) in
  let dst := Z.lxor (atype_mismatch w (in_odstatype n) (in_odstaddr n) (in_odstmsk n) (fin_daddr fin))
                    (b2z (has (in_flags n) IPN_NOTDST)) in
  if negb (src =? 0) then false
  else if negb (dst =? 0) then false
  else if negb (has (fin_flx fin) FI_TCPUDP) || has (fin_flx fin) (Z.lor FI_SHORT FI_FRAGBODY) then
    bool_decide (frp_cmp (ftu_src (in_tuc n)) = FR_NONE) && bool_decide (frp_cmp (ftu_dst (in_tuc n)) = FR_NONE)
  else ipf_tcpudpchk (fin_fi fin) (in_tuc n).

(** The flags of a packet that is no error and not a later fragment. *)
Definition packet_nflags (fin : fr_info) : Z :=
  if first_fragment fin then
    if fin_p fin =? IPPROTO_TCP then IPN_TCP
    else if fin_p fin =? IPPROTO_UDP then IPN_UDP
    else if (fin_p fin =? IPPROTO_ICMP) && has (fin_flx fin) FI_ICMPQUERY then IPN_ICMPQUERY
    else 0
  else 0.
Definition bad_ifp (mine ifp : option loc) : bool :=
  bool_decide (is_Some mine) && negb (bool_decide (mine = ifp)).
Definition bad_proto (mine p : Z) : bool := negb (mine =? 0) && negb (mine =? p).
Definition bad_flags (n : ipnat) (nflags : Z) : bool := has (in_flags n) IPN_RF && negb (has (in_flags n) nflags).

(** The conditions of a rule on a packet going out, up to the proxy's. *)
Definition out_rule_ok (w : W) (nflags : Z) (n : ipnat) : bool :=
  let fin := nw_fin w in
  negb (bad_ifp (in_ifp1 n) (fin_ifp fin)) && (in_v0 n =? 4) && negb (bad_proto (in_pr1 n) (fin_p fin)) &&
  negb (bad_flags n nflags) &&
  (if has (in_flags n) IPN_FILTER then ipf_nat_match w n else Z.land (fin_saddr fin) (in_osrcmsk n) =? in_osrcaddr n) &&
  match fin_fr fin with Some fr => nenv_matchtag (nw_ext w) (in_tag n) fr | None => true end &&
  ((in_plabel n =? -1) || has (in_flags n) IPN_FILTER || (in_odport n =? fin_dport fin)).
(** The same for a packet coming in; [dport] is its port, or the identifier. *)
Definition in_rule_ok (w : W) (nflags dport : Z) (n : ipnat) : bool :=
  let fin := nw_fin w in
  negb (bad_ifp (in_ifp0 n) (fin_ifp fin)) && (in_v0 n =? 4) && negb (bad_proto (in_pr0 n) (fin_p fin)) &&
  negb (bad_flags n nflags) &&
  (if has (in_flags n) IPN_FILTER then ipf_nat_match w n
   else (Z.land (fin_daddr fin) (in_odstmsk n) =? in_odstaddr n) &&
        negb (negb (in_odport n =? 0) && ((in_dtop n <? dport) || (dport <? in_odport n)))).

(** The walk over one bucket: the session, whether a rule stopped the search, and whether
    making a session failed. *)
Inductive walked := Walked (nat : option loc) (stop : bool) (failed : bool) | WalkEndless.
Definition proxy_refuses (r : loc) (n : ipnat) : ST W bool :=
  if in_plabel n =? -1 then mret false else p ← nenv_proxy_ok r; mret (p =? 0).
Fixpoint walk_rules (fuel : nat) (ok : W -> ipnat -> bool) (nflags dir : Z) (failed : bool) (l : list loc) : ST W walked :=
  match l with
  | [] => mret (Walked None false failed)
  | r :: l =>
      n ← rule r;
      w ← gets id;
      if negb (ok w n) then walk_rules fuel ok nflags dir failed l else
      p ← proxy_refuses r n;
      if (p : bool) then walk_rules fuel ok nflags dir failed l else
      if has (in_flags n) IPN_NO then
        upd_rule r (fun n => n <| in_hits ::= fun k => k + 1 |>);; mret (Walked None true failed)
      else
        y ← ipf_nat_add cf be fuel r None nflags dir;
        match y with
        | None => mret WalkEndless
        | Some (Some x) => mret (Walked (Some x) true false)
        | Some None => walk_rules fuel ok nflags dir true l
        end
  end.
(** The masks in use, from the first to the one at index [imt4_max]. *)
Fixpoint walk_masks (fuel : nat) (ok : W -> ipnat -> bool) (buckets : W -> Z -> list loc) (size addr nflags dir : Z)
    (failed : bool) (masks : list Z) : ST W walked :=
  match masks with
  | [] => mret (Walked None false failed)
  | msk :: masks =>
      w ← gets id;
      o ← walk_rules fuel ok nflags dir failed (buckets w (NAT_HASH_FN (Z.land addr msk) 0 size));
      match o with
      | Walked None false failed => walk_masks fuel ok buckets size addr nflags dir failed masks
      | o => mret o
      end
  end.
Definition masks_of (t : masktab) : list Z := take (Z.to_nat (imt4_max t + 1)) (imt4_active t).

(** What both directions do to find the session: whether it may enter the fragment cache,
    the flags to translate with. *)
Inductive found := Found (nat : option loc) (natadd : bool) (nflags : Z) (failed : bool) | FoundEndless.
Definition nat_session (fuel : nat) (out : bool) : ST W found :=
  w ← gets id;
  let fin := nw_fin w in
  let nflags := packet_nflags fin in
  '(y, nflags) ← (if (fin_p fin =? IPPROTO_ICMP) && negb (has nflags IPN_ICMPQUERY)
                  then nenv_icmperror nflags (b2z out) else mret (None, nflags));
  match y with
  | Some x => mret (Found (Some x) true nflags false)
  | None =>
      y ← (if has (fin_flx fin) FI_FRAG then next (nenv_frag_natknown fin) else mret None);
      match y with
      | Some x => mret (Found (Some x) false nflags false)
      | None =>
          let look := if out then ipf_nat_outlookup cf be else ipf_nat_inlookup cf be in
          y ← look (Z.lor nflags NAT_SEARCH) (fin_p fin) (fin_saddr fin) (fin_daddr fin);
          match y with
          | Some x => e ← nst x; mret (Found (Some x) true (nat_flags e) false)
          | None =>
              if negb (fin_off fin =? 0) then mret (Found None true nflags false) else
              w ← gets id;
              dport ← (if out then mret 0
                       else if nflags =? IPN_ICMPQUERY then word_at (fin_dp fin + 4)
                       else mret (if has nflags IPN_TCPUDP then fin_dport fin else 0));
              o ← (if out
                   then walk_masks fuel (fun w => out_rule_ok w nflags) nw_maprules (ipf_nat_maprules_sz cf)
                          (fin_saddr fin) nflags NAT_OUTBOUND false (masks_of (nw_map_mask w))
                   else walk_masks fuel (fun w => in_rule_ok w nflags dport) nw_rdrrules (ipf_nat_rdrrules_sz cf)
                          (fin_daddr fin) nflags NAT_INBOUND false (masks_of (nw_rdr_mask w)));
              match o with
              | Walked y _ failed => mret (Found y true nflags failed)
              | WalkEndless => mret FoundEndless
              end
          end
      end
  end.

(** What follows the translation: the session's counters and its timeout. *)
Definition count_nat (x : loc) (out : bool) : ST W unit :=
  ipf_nat_update x;;
  fin ← gets nw_fin;
  let s := b2z out in
  upd_nat x (fun e => e <| nat_bytes ::= (fun t => set_idx s (idx s t + fin_plen fin) t) |>
                        <| nat_pkts ::= (fun t => set_idx s (idx s t + 1) t) |>);;
  e ← nst x;
  modify (fun w => w <| nw_pktnum := idx s (nat_pkts e) |>).
(** The verdict: 1 translated, 0 left alone, -1 to be blocked; [pass] is [*passp]. *)
Definition nat_verdict (rval pass : Z) : ST W (Z * Z) :=
  if rval =? -1 then
    upd_nfin (fun fin => or_flx FI_BADNAT (fin <| fin_reason := FRB_NATV4 |>));; mret (rval, FR_BLOCK)
  else mret (rval, pass).
(** The interface that the filter rule sends the packet to. *)
Definition out_ifp (w : W) : option loc :=
  match fin_fr (nw_fin w) with
  | Some fr => match nenv_fr_ifp (nw_ext w) fr (fin_rev (nw_fin w)) with Some i => Some i | None => fin_ifp (nw_fin w) end
  | None => fin_ifp (nw_fin w)
  end.
Definition nat_idle (w : W) : bool :=
  negb (nw_lock w =? 0) || ((ns_rules w =? 0) && bool_decide (nw_instances w = [])).
(** [ipf_nat_checkout] for IPv4; [None] when the search for a translation does not end. *)
Definition ipf_nat_checkout (fuel : nat) (pass : Z) : ST W (option (Z * Z)) :=
  w ← gets id;
  if nat_idle w then mret (Some (0, pass)) else
  let sifp := fin_ifp (nw_fin w) in
  upd_nfin (fun fin => fin <| fin_ifp := out_ifp w |>);;
  f ← nat_session fuel true;
  match f with
  | FoundEndless => mret None
  | Found y natadd nflags failed =>
      rval ← match y with
             | Some x => v ← ipf_nat_out x natadd nflags; when_ (v =? 1) (count_nat x true);; mret v
             | None => mret (if failed then -1 else 0)
             end;
      r ← nat_verdict rval pass;
      upd_nfin (fun fin => fin <| fin_ifp := sifp |>);;
      mret (Some r)
  end.
(** [ipf_nat_checkin]. *)
Definition ipf_nat_checkin (fuel : nat) (pass : Z) : ST W (option (Z * Z)) :=
  w ← gets id;
  if nat_idle w then mret (Some (0, pass)) else
  f ← nat_session fuel false;
  match f with
  | FoundEndless => mret None
  | Found y natadd nflags failed =>
      rval ← match y with
             | Some x => v ← ipf_nat_in x natadd nflags; when_ (v =? 1) (count_nat x false);; mret v
             | None => mret (if failed then -1 else 0)
             end;
      r ← nat_verdict rval pass;
      mret (Some r)
  end.
End Xlate.

(** ** Words of a packet *)

Section Words.
Context (be : bool).

Definition word (m : list Z) (i : Z) : Z := load16 be (nth (Z.to_nat i) m 0) (nth (Z.to_nat (i + 1)) m 0).
Definition put16 (i v : Z) (m : list Z) : list Z :=
  <[Z.to_nat (i + 1) := snd (store16 be v)]> (<[Z.to_nat i := fst (store16 be v)]> m).
Definition inside (i : Z) (m : list Z) : Prop := 0 <= i /\ i + 2 <= Z.of_nat (length m).

Lemma length_put16 i v m : length (put16 i v m) = length m.
Proof. unfold put16. by rewrite !length_insert. Qed.
Lemma inside_put16 j i v m : inside j (put16 i v m) <-> inside j m.
Proof. unfold inside. by rewrite length_put16. Qed.
Lemma wr16_put16 i v m : inside i m -> wr16 be i v m = Some (put16 i v m).
Proof.
  intros [H1 H2]. unfold wr16. rewrite (proj2 (Z.ltb_ge i 0)), (proj2 (Z.ltb_ge _ (i + 2))) by lia. done.
Qed.
Lemma rd8_nth i m : 0 <= i < Z.of_nat (length m) -> rd8 i m = Some (nth (Z.to_nat i) m 0).
Proof.
  intros Hi. unfold rd8. rewrite (proj2 (Z.ltb_ge i 0)) by lia. destruct (lookup_lt_is_Some_2 m (Z.to_nat i)) as [b Hb]; [lia|]. by rewrite nth_lookup, Hb.
Qed.
Lemma rd16_word i m : inside i m -> rd16 be i m = Some (word m i).
Proof. intros [H1 H2]. unfold rd16. by rewrite !rd8_nth by lia. Qed.
Lemma nth_insert_eq k b (m : list Z) : (k < length m)%nat -> nth k (<[k := b]> m) 0 = b.
Proof. intros Hk. rewrite nth_lookup. by rewrite list_lookup_insert_eq by lia. Qed.
Lemma nth_insert_ne k j b (m : list Z) : k <> j -> nth j (<[k := b]> m) 0 = nth j m 0.
Proof. intros Hk. by rewrite !nth_lookup, list_lookup_insert_ne. Qed.
Lemma word_put16_eq i v m : inside i m -> is_u16 v -> word (put16 i v m) i = v.
Proof.
  intros [H1 H2] Hv. unfold word, put16. rewrite (nth_insert_ne (Z.to_nat (i + 1)) (Z.to_nat i)) by lia.
  rewrite !nth_insert_eq by (rewrite ?length_insert; lia).
  unfold load16, store16, is_u16 in *. destruct be; cbn [fst snd]; dlia.
Qed.
Lemma word_put16_ne i j v m : 0 <= i -> 0 <= j -> i + 2 <= j \/ j + 2 <= i -> word (put16 i v m) j = word m j.
Proof. intros Hi Hj Hij. unfold word, put16. by rewrite !nth_insert_ne by lia. Qed.
Lemma put16_u8 i v m : is_u16 v -> Forall is_u8 m -> Forall is_u8 (put16 i v m).
Proof.
  intros Hv Hm. unfold put16. apply Forall_insert; [apply Forall_insert; [done|]|];
    unfold store16, is_u16, is_u8 in *; destruct be; cbn [fst snd]; dlia.
Qed.
Lemma word_u16 i m : Forall is_u8 m -> is_u16 (word m i).
Proof.
  intros Hm. assert (Hn : forall k, is_u8 (nth k m 0)).
  { intros k. destruct (decide (k < length m)%nat).
    - rewrite Forall_nth in Hm. by apply Hm.
    - rewrite nth_overflow by lia. done. }
  by apply load16_u16.
Qed.

(** The sum of the words of [n] bytes from [a] on. *)
Definition seg (m : list Z) (a n : Z) : Z := wsum (words_of be (take (Z.to_nat n) (drop (Z.to_nat a) m))).
Lemma words_insert2 k b0 b1 : forall l n, (2 * k + 2 <= n)%nat -> (2 * k + 2 <= length l)%nat ->
  wsum (words_of be (take n (<[(2 * k + 1)%nat := b1]> (<[(2 * k)%nat := b0]> l)))) =
  wsum (words_of be (take n l)) - load16 be (nth (2 * k) l 0) (nth (2 * k + 1) l 0) + load16 be b0 b1.
Proof.
  induction k as [|k IH]; intros [|x [|y l]] n Hn Hl; cbn [length] in Hl; try lia.
  - destruct n as [|[|n]]; [lia..|]. cbn. unfold wsum. lia.
  - destruct n as [|[|n]]; [lia..|].
    replace (2 * S k + 1)%nat with (S (S (2 * k + 1))) by lia. replace (2 * S k)%nat with (S (S (2 * k))) by lia.
    cbn [insert list_insert take words_of wsum fold_right nth].
    fold (wsum (words_of be (take n l))).
    etransitivity; [exact (f_equal (Z.add (load16 be x y)) (IH l n ltac:(lia) ltac:(lia)))|]. unfold wsum. lia.
Qed.
Lemma seg_put16_in m a n i v : is_u16 v -> 0 <= a -> a <= i -> (i - a) mod 2 = 0 -> i + 2 <= a + n -> inside i m ->
  seg (put16 i v m) a n = seg m a n - word m i + v.
Proof.
  intros Hv Ha Hi Hm Hn [_ Hl]. unfold seg, put16. set (k := Z.to_nat ((i - a) / 2)).
  assert (E0 : Z.to_nat i = (Z.to_nat a + 2 * k)%nat) by (unfold k; dlia).
  assert (E1 : Z.to_nat (i + 1) = (Z.to_nat a + (2 * k + 1))%nat) by (unfold k; dlia).
  assert (En : forall j, nth (Z.to_nat a + j) m 0 = nth j (drop (Z.to_nat a) m) 0)
    by (intros j; by rewrite !nth_lookup, lookup_drop).
  unfold word. rewrite E0, E1, !En. rewrite !drop_insert_ge by lia.
  replace (Z.to_nat a + (2 * k + 1) - Z.to_nat a)%nat with (2 * k + 1)%nat by lia.
  replace (Z.to_nat a + 2 * k - Z.to_nat a)%nat with (2 * k)%nat by lia. rewrite words_insert2.
  - f_equal. unfold load16, store16, is_u16 in *. destruct be; cbn [fst snd]; dlia.
  - unfold k. dlia.
  - rewrite length_drop. unfold k. dlia.
Qed.
Lemma seg_put16_out m a n i v : 0 <= a -> 0 <= i -> 0 <= n -> i + 2 <= a \/ a + n <= i -> seg (put16 i v m) a n = seg m a n.
Proof.
  intros Ha Hi Hn Ho. unfold seg, put16. f_equal. f_equal. destruct Ho as [Ho|Ho].
  - by rewrite !drop_insert_lt by lia.
  - rewrite !drop_insert_ge by lia. by rewrite !take_insert_ge by lia.
Qed.
End Words.

(** ** The differences of a session *)

Lemma LONG_SUM_spec a : is_u32 a -> is_u32 (LONG_SUM a) /\ LONG_SUM a ≡ₒ a.
Proof.
  intros Ha. unfold LONG_SUM. rewrite fold_step'. pose proof (fold_bound a Ha) as Hb.
  rewrite u32_id by (unfold is_u32; lia). split; [unfold is_u32; lia|apply fold_eqm].
Qed.
Lemma sumd_of_spec a b : is_u32 a -> is_u32 b -> is_u16 (sumd_of a b) /\ sumd_of a b ≡ₒ b - a.
Proof.
  intros Ha Hb. destruct (LONG_SUM_spec a Ha) as [Ha1 Ha2], (LONG_SUM_spec b Hb) as [Hb1 Hb2].
  destruct (CALC_SUMD_spec _ _ Ha1 Hb1) as [E B]. unfold sumd_of. rewrite fold_step'.
  set (d := CALC_SUMD u32 (LONG_SUM a) (LONG_SUM b)) in *. clearbody d.
  rewrite u32_id by (unfold is_u32; dlia). split; [unfold is_u16; dlia|]. by rewrite fold_eqm, E, Ha2, Hb2.
Qed.
Lemma sumd_of_same a : is_u32 a -> sumd_of a a = 0.
Proof.
  intros Ha. destruct (LONG_SUM_spec a Ha) as [Ha1 _]. unfold sumd_of. rewrite CALC_SUMD_value by done.
  rewrite Z.gtb_ltb, Z.ltb_irrefl, Z.sub_diag. done.
Qed.
Lemma ntohl_eqm be a : is_u32 a -> ntohl be a ≡ₒ unit_of be * a.
Proof.
  intros Ha. unfold ntohl. rewrite u32_id by done. destruct be; cbn [unit_of]; [by rewrite Z.mul_1_l|].
  destruct (u32_halves a Ha) as (h & l & Hh & Hl & ->). rewrite bswap32_halves by done.
  pose proof (ntohs_eqm false h Hh) as E1. pose proof (ntohs_eqm false l Hl) as E2. unfold ntohs in E1, E2.
  rewrite u16_id in E1, E2 by done. cbn [unit_of] in E1, E2.
  rewrite (eqm_pow16 (swap16 l * 65536 + swap16 h) (swap16 l) (swap16 h)), E1, E2 by done.
  rewrite (eqm_pow16 (h * 65536 + l) h l) by done. apply (eqm_of _ _ 0). lia.
Qed.

(** The correction of a checksum, in the words of memory. *)
Lemma eqm_unit_sub be x y d e : unit_of be * x ≡ₒ unit_of be * y - d -> d ≡ₒ unit_of be * e -> x ≡ₒ y - e.
Proof. intros H1 H2. apply (eqm_cancel_unit be). rewrite H1, H2. apply (eqm_of _ _ 0). lia. Qed.
Lemma eqm_unit_add be x y d e : unit_of be * x ≡ₒ unit_of be * y + d -> d ≡ₒ unit_of be * e -> x ≡ₒ y + e.
Proof. intros H1 H2. apply (eqm_cancel_unit be). rewrite H1, H2. apply (eqm_of _ _ 0). lia. Qed.
Definition plain_cksum (c : Z) : Prop := c = 0 \/ c = 1.
Lemma fix_out_word be c sp n partial d : plain_cksum c -> is_u16 sp -> 0 <= n < 2 ^ 32 - 65536 -> n ≡ₒ unit_of be * d ->
  is_u16 (ipf_fix_outcksum be c sp n partial) /\ ipf_fix_outcksum be c sp n partial ≡ₒ sp - d.
Proof.
  intros Hc Hs Hn Hd. assert (E : ipf_fix_outcksum be c sp n partial = ipf_fix_outcksum be 0 sp n 0)
    by (by destruct Hc as [->| ->]).
  rewrite E. pose proof (fix_outcksum_u16 be sp n Hs) as Hu. split; [done|].
  pose proof (fix_outcksum_eqm be sp n Hs Hn) as H1. rewrite !ntohs_eqm in H1 by done. by eapply eqm_unit_sub.
Qed.
Lemma fix_in_word be c sp n partial d : plain_cksum c -> is_u16 sp -> is_u16 n -> n ≡ₒ unit_of be * d ->
  is_u16 (ipf_fix_incksum be c sp n partial) /\ ipf_fix_incksum be c sp n partial ≡ₒ sp + d.
Proof.
  intros Hc Hs Hn Hd. assert (E : ipf_fix_incksum be c sp n partial = ipf_fix_incksum be 0 sp n 0)
    by (by destruct Hc as [->| ->]).
  rewrite E. pose proof (fix_incksum_u16 be sp n Hs) as Hu. split; [done|].
  destruct (Z.eqb_spec n 0) as [->|Hz].
  - apply (eqm_unit_add be _ _ 0); [|done]. cbn. apply (eqm_of _ _ 0). lia.
  - pose proof (fix_incksum_eqm be sp n Hs Hz) as H1. rewrite !ntohs_eqm in H1 by done.
    rewrite Z.mod_small in H1 by (unfold is_u16 in Hn; lia). by eapply eqm_unit_add.
Qed.

(** The addresses and ports of a direction, as they are in memory. *)
Record ends := mk_ends { en_src : Z; en_dst : Z; en_sport : Z; en_dport : Z }.
Definition answer_of (t : ends) : ends := mk_ends (en_dst t) (en_src t) (en_dport t) (en_sport t).
Definition orig (e : natt) : ends := mk_ends (nat_osrcaddr e) (nat_odstaddr e) (nat_osport e) (nat_odport e).
Definition trans (e : natt) : ends := mk_ends (nat_nsrcaddr e) (nat_ndstaddr e) (nat_nsport e) (nat_ndport e).
Definition addr_total (t : ends) : Z := en_src t + en_dst t.
Definition ends_total (t : ends) : Z := addr_total t + en_sport t + en_dport t.
Record ends_ok (be : bool) (t : ends) : Prop := {
  eo_src : is_u32 (en_src t); eo_dst : is_u32 (en_dst t); eo_sport : is_u16 (en_sport t); eo_dport : is_u16 (en_dport t);
  eo_nowrap1 : ntohl be (en_src t) + ntohs be (en_sport t) < 2 ^ 32;
  eo_nowrap2 : ntohl be (en_dst t) + ntohs be (en_dport t) < 2 ^ 32 }.
(** What [ipf_nat_finalise] left in the session, of a protocol with ports. *)
Record sums_ok (be : bool) (e : natt) : Prop := {
  so_orig : ends_ok be (orig e); so_trans : ends_ok be (trans e); so_pr : nat_pr0 e <> IPPROTO_ICMP;
  so_ip : nat_ipsumd e = nat_ipsumd (finalise_sums be e); so_l4 : nat_sumd0 e = nat_sumd0 (finalise_sums be e) }.
Lemma ntohl_ntohs_u32 be a p : is_u32 a -> is_u16 p -> ntohl be a + ntohs be p < 2 ^ 32 ->
  is_u32 (u32 (ntohl be a + ntohs be p)) /\ u32 (ntohl be a + ntohs be p) ≡ₒ unit_of be * (a + p).
Proof.
  intros Ha Hp Hs. pose proof (ntohl_u32 be a) as H1. pose proof (ntohs_u16 be p) as H2. unfold is_u32, is_u16 in H1, H2.
  rewrite u32_id by (unfold is_u32; lia). split; [unfold is_u32; lia|].
  rewrite ntohl_eqm, ntohs_eqm by done. apply (eqm_of _ _ 0). lia.
Qed.
Lemma ipsumd_spec be e : sums_ok be e ->
  0 <= nat_ipsumd e <= 131070 /\ nat_ipsumd e ≡ₒ unit_of be * (addr_total (trans e) - addr_total (orig e)).
Proof.
  intros [[O1 O2 _ _ _ _] [T1 T2 _ _ _ _] _ -> _]. cbn in *.
  destruct (sumd_of_spec (ntohl be (nat_osrcaddr e)) (ntohl be (nat_nsrcaddr e))) as [H1 E1]; [apply ntohl_u32..|].
  destruct (sumd_of_spec (ntohl be (nat_odstaddr e)) (ntohl be (nat_ndstaddr e))) as [H2 E2]; [apply ntohl_u32..|].
  unfold is_u16 in H1, H2. rewrite u32_id by (unfold is_u32; lia). split; [lia|].
  rewrite E1, E2, !ntohl_eqm by done. unfold addr_total. cbn. apply (eqm_of _ _ 0). lia.
Qed.
Lemma sumd0_spec be e : sums_ok be e ->
  0 <= nat_sumd0 e <= 131070 /\ nat_sumd0 e ≡ₒ unit_of be * (ends_total (trans e) - ends_total (orig e)).
Proof.
  intros [[O1 O2 O3 O4 O5 O6] [T1 T2 T3 T4 T5 T6] Hp _ ->]. cbn in *.
  rewrite (proj2 (Z.eqb_neq _ _) Hp).
  destruct (ntohl_ntohs_u32 be _ _ O1 O3 O5) as [A1 B1], (ntohl_ntohs_u32 be _ _ O2 O4 O6) as [A2 B2].
  destruct (ntohl_ntohs_u32 be _ _ T1 T3 T5) as [A3 B3], (ntohl_ntohs_u32 be _ _ T2 T4 T6) as [A4 B4].
  destruct (sumd_of_spec _ _ A1 A3) as [H1 E1], (sumd_of_spec _ _ A2 A4) as [H2 E2]. unfold is_u16 in H1, H2.
  rewrite u32_id by (unfold is_u32; lia). split; [lia|].
  rewrite E1, E2, B1, B2, B3, B4. unfold ends_total, addr_total. cbn. apply (eqm_of _ _ 0). lia.
Qed.
(** The differences of a session that changes only one side fit 16 bits. *)
Definition one_side (e : natt) : Prop :=
  (nat_osrcaddr e = nat_nsrcaddr e /\ nat_osport e = nat_nsport e) \/ (nat_odstaddr e = nat_ndstaddr e /\ nat_odport e = nat_ndport e).
Lemma one_side_u16 be e : sums_ok be e -> one_side e -> is_u16 (nat_ipsumd e) /\ is_u16 (nat_sumd0 e).
Proof.
  intros [[O1 O2 O3 O4 O5 O6] [T1 T2 T3 T4 T5 T6] Hp -> ->] Hs. cbn in *. rewrite (proj2 (Z.eqb_neq _ _) Hp).
  destruct (ntohl_ntohs_u32 be _ _ O1 O3 O5) as [A1 _], (ntohl_ntohs_u32 be _ _ O2 O4 O6) as [A2 _].
  destruct (ntohl_ntohs_u32 be _ _ T1 T3 T5) as [A3 _], (ntohl_ntohs_u32 be _ _ T2 T4 T6) as [A4 _].
  destruct (sumd_of_spec _ _ A1 A3) as [H1 _], (sumd_of_spec _ _ A2 A4) as [H2 _].
  destruct (sumd_of_spec (ntohl be (nat_osrcaddr e)) (ntohl be (nat_nsrcaddr e))) as [H3 _]; [apply ntohl_u32..|].
  destruct (sumd_of_spec (ntohl be (nat_odstaddr e)) (ntohl be (nat_ndstaddr e))) as [H4 _]; [apply ntohl_u32..|].
  assert (Hu : forall x, is_u16 x -> is_u32 x) by (unfold is_u16, is_u32; lia).
  destruct Hs as [[Es Ep]|[Es Ep]]; rewrite ?Es, ?Ep in *; rewrite !(sumd_of_same (ntohl _ _)) by apply ntohl_u32;
    rewrite !(sumd_of_same (u32 _)) by done; rewrite ?Z.add_0_l, ?Z.add_0_r; rewrite !u32_id by auto; done.
Qed.

(** ** A packet and its checksums *)

Section Layout.
Context (be : bool).
Implicit Types (m : list Z) (t : ends).

(** 32-bit objects. *)
Definition hi32 (a : Z) : Z := if be then a / 65536 else a mod 65536.
Definition lo32 (a : Z) : Z := if be then a mod 65536 else a / 65536.
Definition put32 (i a : Z) (m : list Z) : list Z := put16 be (i + 2) (lo32 a) (put16 be i (hi32 a) m).
Definition word32 (m : list Z) (i : Z) : Z :=
  if be then word be m i * 65536 + word be m (i + 2) else word be m (i + 2) * 65536 + word be m i.
Lemma halves_u16 a : is_u32 a -> is_u16 (hi32 a) /\ is_u16 (lo32 a).
Proof. unfold is_u32, is_u16, hi32, lo32. change (2 ^ 32) with 4294967296. intros. destruct be; dlia. Qed.
Lemma halves_eqm a : hi32 a + lo32 a ≡ₒ a.
Proof.
  transitivity (a / 65536 + a mod 65536); [|apply fold_eqm]. unfold hi32, lo32. destruct be; apply (eqm_of _ _ 0); lia.
Qed.
Lemma wr32_put32 i a m : 0 <= i -> i + 4 <= Z.of_nat (length m) -> wr32 be i a m = Some (put32 i a m).
Proof.
  intros Hi Hl. unfold wr32, put32, hi32, lo32. rewrite wr16_put16 by (unfold inside; lia). cbn [mbind option_bind].
  by rewrite wr16_put16 by (unfold inside; rewrite length_put16; lia).
Qed.
Lemma length_put32 i a m : length (put32 i a m) = length m.
Proof. unfold put32. by rewrite !length_put16. Qed.
Lemma word32_put32 i a m : is_u32 a -> 0 <= i -> i + 4 <= Z.of_nat (length m) -> word32 (put32 i a m) i = a.
Proof.
  intros Ha Hi Hl. destruct (halves_u16 a Ha) as [H1 H2]. unfold word32, put32.
  rewrite (word_put16_ne be (i + 2) i) by lia.
  rewrite !word_put16_eq by (done || (unfold inside; rewrite ?length_put16; lia)).
  unfold hi32, lo32, is_u32 in *. destruct be; dlia.
Qed.
Lemma word32_eqm m i : word32 m i ≡ₒ word be m i + word be m (i + 2).
Proof. unfold word32. destruct be; [by apply eqm_pow16|rewrite eqm_pow16 by done; apply (eqm_of _ _ 0); lia]. Qed.
Lemma word_put32_ne i j a m : 0 <= i -> 0 <= j -> i + 4 <= j \/ j + 2 <= i -> word be (put32 i a m) j = word be m j.
Proof. intros. unfold put32. by rewrite !word_put16_ne by lia. Qed.
Lemma put32_u8 i a m : is_u32 a -> Forall is_u8 m -> Forall is_u8 (put32 i a m).
Proof. intros Ha Hm. destruct (halves_u16 a Ha). by apply put16_u8, put16_u8. Qed.

(** An IPv4 packet with [hlen] bytes of header and [l4] bytes behind it, of protocol [p],
    and the sums that must be zero: of the header, and of pseudo header and segment. *)
Context (p hlen l4 : Z).
Definition ip_sum (m : list Z) : Z := seg be m 0 hlen.
Definition l4_sum (m : list Z) : Z :=
  wsum (pseudo_words be (take (Z.to_nat hlen) m) p l4 ++ words_of be (take (Z.to_nat l4) (drop (Z.to_nat hlen) m))).
Definition csum_at : Z := hlen + if p =? IPPROTO_TCP then 16 else 6.
Record packet (m : list Z) : Prop := {
  pk_u8 : Forall is_u8 m; pk_hlen : 20 <= hlen; pk_even : hlen mod 2 = 0; pk_len : hlen + l4 <= Z.of_nat (length m);
  pk_p : tcpudp p; pk_l4 : (if p =? IPPROTO_TCP then 20 else 8) <= l4 }.
Definition carries (m : list Z) (t : ends) : Prop :=
  word32 m 12 = en_src t /\ word32 m 16 = en_dst t /\ word be m hlen = en_sport t /\ word be m (hlen + 2) = en_dport t.
(** The same packet with other ports. *)
Definition with_ports (sp dp : Z) (m : list Z) : list Z := put16 be (hlen + 2) dp (put16 be hlen sp m).

Lemma csum_inside m : packet m -> hlen + 4 <= csum_at /\ csum_at + 2 <= hlen + l4 /\ csum_at mod 2 = 0.
Proof.
  intros [_ H2 H3 H4 [E|E] H6]; unfold csum_at; rewrite E in H6 |- *; cbn [Z.eqb Pos.eqb IPPROTO_TCP IPPROTO_UDP] in *; dlia.
Qed.
Lemma packet_put16 i v m : is_u16 v -> packet m -> packet (put16 be i v m).
Proof. intros Hv [H1 H2 H3 H4 H5 H6]. split; rewrite ?length_put16; auto using put16_u8. Qed.
Lemma packet_put32 i v m : is_u32 v -> packet m -> packet (put32 i v m).
Proof. intros Hv Hm. destruct (halves_u16 v Hv). by apply packet_put16, packet_put16. Qed.

Lemma l4_sum_eq m : packet m -> l4_sum m = htons be (u16 p) + htons be (u16 l4) + seg be m 12 8 + seg be m hlen l4.
Proof.
  intros [_ H2 _ _ H5 _]. unfold l4_sum, pseudo_words. rewrite (proj2 (Z.eqb_neq p IPPROTO_ICMP)) by (by destruct H5 as [->| ->]).
  rewrite wsum_app. cbn [wsum fold_right]. fold (wsum (words_of be (take 8 (drop 12 (take (Z.to_nat hlen) m))) ++ [htons be (u16 l4)])).
  rewrite wsum_app, skipn_firstn_comm. change (firstn ?n ?l) with (take n l). rewrite take_take.
  replace (Nat.min 8 (Z.to_nat hlen - 12)) with 8%nat by lia. unfold seg. cbn [wsum fold_right]. change (Z.to_nat 8) with 8%nat. change (Z.to_nat 12) with 12%nat. lia.
Qed.
(** What one write changes. *)
Lemma packet_l4 m : packet m -> 8 <= l4.
Proof. intros [_ _ _ _ _ H]. destruct (p =? IPPROTO_TCP); lia. Qed.
Lemma ip_sum_put16 i v m : is_u16 v -> packet m -> 0 <= i -> i mod 2 = 0 -> i + 2 <= hlen ->
  ip_sum (put16 be i v m) = ip_sum m - word be m i + v.
Proof.
  intros Hv Hm Hi He Hl. pose proof (packet_l4 m Hm). destruct Hm as [? ? ? ? ? ?]. unfold ip_sum.
  apply seg_put16_in; [done|lia|lia|by rewrite Z.sub_0_r|lia|split; lia].
Qed.
Lemma ip_sum_put16_out i v m : packet m -> hlen <= i -> ip_sum (put16 be i v m) = ip_sum m.
Proof. intros [? ? ? ? ? ?] Hi. apply seg_put16_out; lia. Qed.
Lemma l4_sum_put16_addr i v m : is_u16 v -> packet m -> 12 <= i -> i mod 2 = 0 -> i + 2 <= 20 ->
  l4_sum (put16 be i v m) = l4_sum m - word be m i + v.
Proof.
  intros Hv Hm Hi He Hl. rewrite !l4_sum_eq by (done || by apply packet_put16). pose proof (packet_l4 m Hm). destruct Hm as [? ? ? ? ? ?].
  rewrite (seg_put16_out be m hlen) by lia. rewrite seg_put16_in; [lia|done|lia|lia|dlia|lia|]. split; [lia|].
  lia.
Qed.
Lemma l4_sum_put16_seg i v m : is_u16 v -> packet m -> hlen <= i -> i mod 2 = 0 -> i + 2 <= hlen + l4 ->
  l4_sum (put16 be i v m) = l4_sum m - word be m i + v.
Proof.
  intros Hv Hm Hi He Hl. rewrite !l4_sum_eq by (done || by apply packet_put16). pose proof (packet_l4 m Hm). destruct Hm as [? ? ? ? ? ?].
  rewrite (seg_put16_out be m 12) by lia. rewrite (seg_put16_in be m hlen); [lia|done|lia|lia|dlia|lia|]. split; lia.
Qed.
Lemma l4_sum_put16_sum i v m : is_u16 v -> packet m -> 0 <= i -> i + 2 <= 12 -> l4_sum (put16 be i v m) = l4_sum m.
Proof.
  intros Hv Hm Hi Hl. rewrite !l4_sum_eq by (done || by apply packet_put16). pose proof (packet_l4 m Hm). destruct Hm as [? ? ? ? ? ?].
  by rewrite !seg_put16_out by lia.
Qed.
(** Addresses, ports and the two checksum fields. *)
Definition put_addrs (s d : Z) (m : list Z) : list Z := put32 16 d (put32 12 s m).
Lemma packet_put_addrs s d m : is_u32 s -> is_u32 d -> packet m -> packet (put_addrs s d m).
Proof. intros. by apply packet_put32, packet_put32. Qed.
Lemma put32_sum (T : list Z -> Z) i a m :
  is_u32 a -> packet m -> (forall j v m, is_u16 v -> packet m -> j = i \/ j = i + 2 -> T (put16 be j v m) = T m - word be m j + v) ->
  0 <= i -> T (put32 i a m) ≡ₒ T m - word32 m i + a.
Proof.
  intros Ha Hm HT Hi. destruct (halves_u16 a Ha) as [H1 H2]. unfold put32.
  rewrite HT by (auto using packet_put16). rewrite HT by auto. rewrite word_put16_ne by lia.
  rewrite word32_eqm. transitivity (T m - (word be m i + word be m (i + 2)) + (hi32 a + lo32 a)); [apply (eqm_of _ _ 0); lia|].
  by rewrite halves_eqm.
Qed.
Lemma put_addrs_sum (T : list Z -> Z) s d m : is_u32 s -> is_u32 d -> packet m ->
  (forall j v m, is_u16 v -> packet m -> 12 <= j -> j mod 2 = 0 -> j + 2 <= 20 -> T (put16 be j v m) = T m - word be m j + v) ->
  T (put_addrs s d m) ≡ₒ T m - (word32 m 12 + word32 m 16) + (s + d).
Proof.
  intros Hs Hd Hm HT. unfold put_addrs.
  assert (E1 : T (put32 12 s m) ≡ₒ T m - word32 m 12 + s).
  { apply put32_sum; [done|done| |lia]. intros j v m' Hv Hm' [->| ->]; by apply HT. }
  assert (E2 : T (put32 16 d (put32 12 s m)) ≡ₒ T (put32 12 s m) - word32 (put32 12 s m) 16 + d).
  { apply put32_sum; [done|by apply packet_put32| |lia]. intros j v m' Hv Hm' [->| ->]; by apply HT. }
  assert (E : word32 (put32 12 s m) 16 = word32 m 16) by (unfold word32; by rewrite !word_put32_ne by lia).
  rewrite E2, E1, E. apply (eqm_of _ _ 0). lia.
Qed.
Lemma ip_sum_addrs s d m : is_u32 s -> is_u32 d -> packet m ->
  ip_sum (put_addrs s d m) ≡ₒ ip_sum m - (word32 m 12 + word32 m 16) + (s + d).
Proof.
  intros Hs Hd Hm. apply put_addrs_sum; try done. intros j v m' Hv Hm' ???. apply ip_sum_put16; try done; [lia|].
  pose proof (pk_hlen _ Hm'). lia.
Qed.
Lemma l4_sum_addrs s d m : is_u32 s -> is_u32 d -> packet m ->
  l4_sum (put_addrs s d m) ≡ₒ l4_sum m - (word32 m 12 + word32 m 16) + (s + d).
Proof. intros Hs Hd Hm. apply put_addrs_sum; try done. intros. by apply l4_sum_put16_addr. Qed.
Lemma packet_ports sp dp m : is_u16 sp -> is_u16 dp -> packet m -> packet (with_ports sp dp m).
Proof. intros. by apply packet_put16, packet_put16. Qed.
Lemma l4_sum_ports sp dp m : is_u16 sp -> is_u16 dp -> packet m ->
  l4_sum (with_ports sp dp m) = l4_sum m - word be m hlen - word be m (hlen + 2) + sp + dp.
Proof.
  intros Hs Hd Hm. pose proof (packet_l4 m Hm). pose proof Hm as [? ? He ? ? ?]. unfold with_ports.
  rewrite l4_sum_put16_seg by (auto using packet_put16; dlia). rewrite l4_sum_put16_seg by (auto; dlia).
  rewrite word_put16_ne by lia. lia.
Qed.
Lemma ip_sum_ports sp dp m : is_u16 sp -> packet m -> ip_sum (with_ports sp dp m) = ip_sum m.
Proof. intros Hs Hm. unfold with_ports. rewrite !ip_sum_put16_out by (auto using packet_put16; lia). done. Qed.

(** The packet after the translation to [t], with the checksums [c] and [k] in the place
    of the old ones ([None] when the segment has none). *)
Definition translated (t : ends) (c : Z) (k : option Z) (m : list Z) : list Z :=
  let m := with_ports (en_sport t) (en_dport t) (put_addrs (en_src t) (en_dst t) (put16 be 10 c m)) in
  match k with Some k => put16 be csum_at k m | None => m end.
Definition ends_u (t : ends) : Prop := is_u32 (en_src t) /\ is_u32 (en_dst t) /\ is_u16 (en_sport t) /\ is_u16 (en_dport t).
End Layout.

Section Translated.
Context (be : bool) (p hlen l4 : Z) (m : list Z) (t : ends) (c : Z) (k : option Z).
Context (Hm : packet p hlen l4 m) (Ht : ends_u t) (Hc : is_u16 c) (Hk : forall v, k = Some v -> is_u16 v).
Let m1 := put16 be 10 c m.
Let m2 := put_addrs be (en_src t) (en_dst t) m1.
Let m3 := with_ports be hlen (en_sport t) (en_dport t) m2.
Local Lemma stages : packet p hlen l4 m1 /\ packet p hlen l4 m2 /\ packet p hlen l4 m3.
Proof.
  destruct Ht as (H1 & H2 & H3 & H4). assert (P1 : packet p hlen l4 m1) by by apply packet_put16.
  assert (P2 : packet p hlen l4 m2) by (by apply packet_put_addrs). split; [exact P1|]. split; [exact P2|].
  by apply packet_ports.
Qed.
Lemma translated_packet : packet p hlen l4 (translated be p hlen t c k m).
Proof.
  destruct stages as (_ & _ & P3). unfold translated. fold m1 m2 m3. destruct k as [v|]; [|done].
  apply packet_put16; auto.
Qed.
Lemma len20 : 20 <= Z.of_nat (length m).
Proof. pose proof (packet_l4 p hlen l4 m Hm). destruct Hm. lia. Qed.
(** It carries the new addresses and ports. *)
Lemma translated_carries : carries be hlen (translated be p hlen t c k m) t.
Proof.
  destruct Ht as (H1 & H2 & H3 & H4). destruct stages as (P1 & P2 & P3). pose proof len20 as Hl.
  pose proof (csum_inside p hlen l4 m Hm) as [Hcs _]. pose proof (packet_l4 p hlen l4 m Hm). pose proof Hm as [? ? ? ? ? ?].
  assert (C3 : carries be hlen m3 t).
  { assert (Hw : forall j, 0 <= j -> j + 2 <= hlen -> word be m3 j = word be m2 j).
    { intros. unfold m3, with_ports. by rewrite !word_put16_ne by lia. }
    split; [|split; [|split]].
    - unfold word32. rewrite !Hw by lia. fold (word32 be m2 12). unfold m2, put_addrs.
      assert (E : word32 be (put32 be 16 (en_dst t) (put32 be 12 (en_src t) m1)) 12 = word32 be (put32 be 12 (en_src t) m1) 12).
      { unfold word32. by rewrite !(word_put32_ne be 16) by lia. }
      rewrite E. apply word32_put32; [done|lia|]. unfold m1. rewrite length_put16. lia.
    - unfold word32. rewrite !Hw by lia. fold (word32 be m2 16). unfold m2, put_addrs.
      apply word32_put32; [done|lia|]. rewrite length_put32. unfold m1. rewrite length_put16. lia.
    - unfold m3, with_ports. rewrite word_put16_ne by lia. apply word_put16_eq; [|done]. split; [lia|].
      destruct P2. lia.
    - unfold m3, with_ports. apply word_put16_eq; [|done]. split; [lia|]. rewrite length_put16. destruct P2. lia. }
  unfold translated. fold m1 m2 m3. destruct k as [v|]; [|done]. destruct C3 as (C1 & C2 & C3 & C4).
  assert (Hw : forall j, 0 <= j -> j + 2 <= csum_at p hlen -> word be (put16 be (csum_at p hlen) v m3) j = word be m3 j).
  { intros. by rewrite word_put16_ne by lia. }
  unfold carries, word32 in *. rewrite !Hw by lia. auto.
Qed.
(** The words that the corrections read. *)
Lemma stage_ip_word : word be m2 10 = c.
Proof.
  pose proof len20. unfold m2, put_addrs. rewrite !word_put32_ne by lia. apply word_put16_eq; [|done]. split; lia.
Qed.
Lemma stage_l4_word : word be m3 (csum_at p hlen) = word be m (csum_at p hlen).
Proof.
  pose proof (csum_inside p hlen l4 m Hm) as [Hcs _]. pose proof Hm as [? ? ? ? ? ?].
  unfold m3, with_ports, m2, put_addrs, m1. rewrite !word_put16_ne by lia. rewrite !word_put32_ne by lia.
  by rewrite word_put16_ne by lia.
Qed.
Context (from : ends) (Hsrc : word32 be m 12 = en_src from) (Hdst : word32 be m 16 = en_dst from).
Lemma translated_ip_sum : c ≡ₒ word be m 10 - (addr_total t - addr_total from) ->
  ip_sum be hlen (translated be p hlen t c k m) ≡ₒ ip_sum be hlen m.
Proof.
  destruct Ht as (H1 & H2 & H3 & H4). destruct stages as (P1 & P2 & P3). intros E. pose proof Hm as [? ? ? ? ? ?].
  assert (E3 : ip_sum be hlen (translated be p hlen t c k m) = ip_sum be hlen m2).
  { unfold translated. fold m1 m2 m3. rewrite <- (ip_sum_ports be p hlen l4 (en_sport t) (en_dport t) m2) by done. fold m3.
    destruct k as [v|]; [|done]. apply (ip_sum_put16_out be p hlen l4); [done|].
    pose proof (csum_inside p hlen l4 m Hm). lia. }
  rewrite E3. unfold m2. rewrite (ip_sum_addrs be p hlen l4) by done.
  assert (Ew : forall j, j = 12 \/ j = 16 -> word32 be m1 j = word32 be m j)
    by (intros j Hj; unfold word32, m1; by rewrite !word_put16_ne by lia).
  rewrite !Ew by auto. rewrite Hsrc, Hdst. unfold m1. rewrite (ip_sum_put16 be p hlen l4) by (done || lia).
  rewrite E. unfold addr_total. apply (eqm_of _ _ 0). lia.
Qed.
Lemma translated_l4_sum v : k = Some v -> v ≡ₒ word be m (csum_at p hlen) - (ends_total t - ends_total from) ->
  is_u16 (en_sport from) -> is_u16 (en_dport from) ->
  l4_sum be p hlen l4 (translated be p hlen t c k m) ≡ₒ l4_sum be p hlen l4 (with_ports be hlen (en_sport from) (en_dport from) m).
Proof.
  destruct Ht as (H1 & H2 & H3 & H4). destruct stages as (P1 & P2 & P3). intros Ek E Hf1 Hf2. pose proof Hm as [? ? ? ? ? ?].
  pose proof (csum_inside p hlen l4 m Hm) as (Hc1 & Hc2 & Hc3). pose proof (Hk v Ek) as Hv.
  unfold translated. fold m1 m2 m3. rewrite Ek. rewrite l4_sum_put16_seg by (done || lia). rewrite stage_l4_word.
  unfold m3. rewrite l4_sum_ports by done.
  assert (Ew : forall j, hlen <= j -> word be m2 j = word be m j).
  { intros j Hj. unfold m2, put_addrs, m1. rewrite !word_put32_ne by lia. by rewrite word_put16_ne by lia. }
  rewrite !Ew by lia. unfold m2.
  pose proof (l4_sum_addrs be p hlen l4 (en_src t) (en_dst t) m1 H1 H2 P1) as Ea.
  assert (Ew' : forall j, j = 12 \/ j = 16 -> word32 be m1 j = word32 be m j)
    by (intros j Hj; unfold word32, m1; by rewrite !word_put16_ne by lia).
  rewrite !Ew' in Ea by auto. rewrite Hsrc, Hdst in Ea. unfold m1 in Ea |- *.
  rewrite (l4_sum_put16_sum be p hlen l4 10 c m) in Ea by (done || lia). rewrite l4_sum_ports by done.
  rewrite Ea, E. unfold ends_total, addr_total. apply (eqm_of _ _ 0). lia.
Qed.
End Translated.

(** ** The translation of a packet *)

Section Run.
Context {E : Type} `{nat_env E} (cf : natconf) (be : bool).
Abbreviation W := (natw E).
Implicit Types (w : W) (t : ends).

Lemma wp_edit d f Q w m : f (nw_buf w) = Some m -> wpg d (edit f) Q w = Q tt (w <| nw_buf := m |>).
Proof. intros Hm. unfold wpg, edit, mbind, st_bind, need, gets, id. by rewrite Hm. Qed.
Lemma wp_next_ d f Q w : wpg d (next_ f) Q w = Q tt (w <| nw_ext ::= f |>).
Proof. done. Qed.
Lemma wp_upd_nfin d f Q w : wpg d (upd_nfin f) Q w = Q tt (w <| nw_fin ::= f |>).
Proof. done. Qed.
Lemma wp_fix_sum d i f Q w : inside i (nw_buf w) ->
  wpg d (fix_sum be i f) Q w = Q tt (w <| nw_buf := put16 be i (f (word be (nw_buf w) i)) (nw_buf w) |>).
Proof.
  intros Hi. apply wp_edit. unfold fix16. rewrite rd16_word by done. cbn [mbind option_bind]. by apply wr16_put16.
Qed.
Lemma wp_fix_sum_at d i f Q w m : nw_buf w = m -> inside i m ->
  wpg d (fix_sum be i f) Q w = Q tt (w <| nw_buf := put16 be i (f (word be m i)) m |>).
Proof. intros <-. apply wp_fix_sum. Qed.
Lemma wp_word_at d i Q w : inside i (nw_buf w) -> wpg d (word_at be i) Q w = Q (word be (nw_buf w) i) w.
Proof. intros Hi. unfold wpg, word_at, mbind, st_bind, gets, need, id. by rewrite rd16_word. Qed.

(** The checksum field of the segment: none when a UDP datagram has no checksum. *)
Definition csum_field (p hlen : Z) (m : list Z) : option Z :=
  if p =? IPPROTO_TCP then Some (csum_at p hlen)
  else if word be m (csum_at p hlen) =? 0 then None else Some (csum_at p hlen).
Record segment_of (p hlen l4 nflags : Z) (fin : fr_info) : Prop := {
  sg_p : fin_p fin = p; sg_dp : fin_dp fin = hlen; sg_first : first_fragment fin = true;
  sg_flags : has nflags (if p =? IPPROTO_TCP then IPN_TCP else IPN_UDP) = true; sg_query : has nflags IPN_ICMPQUERY = false;
  sg_cksum : plain_cksum (fin_cksum fin) }.

(** A session is used in its own direction, or for an answer. *)
Definition goes_from (fwd : bool) (e : natt) : ends := if fwd then orig e else answer_of (trans e).
Definition goes_to (fwd : bool) (e : natt) : ends := if fwd then trans e else answer_of (orig e).
Definition fixer (fwd : bool) : Z -> Z -> Z -> Z -> Z := if fwd then ipf_fix_outcksum be else ipf_fix_incksum be.
Lemma fixer_spec fwd c sp n partial old new : plain_cksum c -> is_u16 sp -> 0 <= n <= 131070 -> (fwd = false -> is_u16 n) ->
  n ≡ₒ unit_of be * (if fwd then new - old else old - new) ->
  is_u16 (fixer fwd c sp n partial) /\ fixer fwd c sp n partial ≡ₒ sp - (new - old).
Proof.
  intros Hc Hs Hn Hb E1. destruct fwd; cbn [fixer].
  - apply fix_out_word; [done|done|lia|done].
  - destruct (fix_in_word be c sp n partial _ Hc Hs (Hb eq_refl) E1) as [H1 H2]. split; [done|]. rewrite H2.
    apply (eqm_of _ _ 0). lia.
Qed.
Context (e : natt) (fwd : bool) (Hsums : sums_ok be e) (Hone : fwd = false -> one_side e).
Lemma answer_totals t : addr_total (answer_of t) = addr_total t /\ ends_total (answer_of t) = ends_total t.
Proof. unfold ends_total, addr_total. cbn. lia. Qed.
Lemma fix_l4 c sp partial : plain_cksum c -> is_u16 sp ->
  is_u16 (fixer fwd c sp (nat_sumd0 e) partial) /\
  fixer fwd c sp (nat_sumd0 e) partial ≡ₒ sp - (ends_total (goes_to fwd e) - ends_total (goes_from fwd e)).
Proof.
  intros Hc Hs. destruct (sumd0_spec be e Hsums) as [H1 H2]. apply fixer_spec; [done|done|done| |].
  - intros Hf. by apply (one_side_u16 be e Hsums (Hone Hf)).
  - rewrite H2. destruct fwd; cbn [goes_to goes_from]; [done|]. by rewrite !(proj2 (answer_totals _)).
Qed.
Lemma fix_ip c sp partial : plain_cksum c -> is_u16 sp ->
  is_u16 (fixer fwd c sp (nat_ipsumd e) partial) /\
  fixer fwd c sp (nat_ipsumd e) partial ≡ₒ sp - (addr_total (goes_to fwd e) - addr_total (goes_from fwd e)).
Proof.
  intros Hc Hs. destruct (ipsumd_spec be e Hsums) as [H1 H2]. apply fixer_spec; [done|done|done| |].
  - intros Hf. by apply (one_side_u16 be e Hsums (Hone Hf)).
  - rewrite H2. destruct fwd; cbn [goes_to goes_from]; [done|]. by rewrite !(proj1 (answer_totals _)).
Qed.
Lemma goes_u : ends_u (goes_to fwd e) /\ ends_u (goes_from fwd e).
Proof. destruct Hsums as [[? ? ? ? _ _] [? ? ? ? _ _] _ _ _]. destruct fwd; split; split_and!; done. Qed.

Lemma nat_proto_spec x p hlen l4 nflags w : nw_nats w !! x = Some e -> nat_mssclamp e = 0 ->
  packet p hlen l4 (nw_buf w) -> segment_of p hlen l4 nflags (nw_fin w) ->
  wp (ipf_nat_proto be x nflags) (fun o w' => o = csum_field p hlen (nw_buf w) /\
    exists r, w' = w <| nw_fin ::= (fun fin => fin <| fin_rev := r |>) |>) w.
Proof.
  intros He Hc Hm [Sp Sd Sf Sn Sq Sc]. unfold ipf_nat_proto. rewrite wp_bind, (wp_nst _ _ _ _ _ He), wp_bind, wp_gets.
  cbv zeta. rewrite wp_bind, wp_upd_nfin, Hc. set (w1 := w <| nw_fin ::= _ |>). rewrite Sp, Sd.
  pose proof (csum_inside p hlen l4 (nw_buf w) Hm) as (Hc1 & Hc2 & _). destruct Hm as [? ? ? ? Htu ?].
  assert (Hw : w1 = w <| nw_fin ::= (fun fin => fin <| fin_rev := if fin_out (nw_fin w) =? 0 then Z.land (nat_dir e) NAT_OUTBOUND
             else b2z (Z.land (nat_dir e) NAT_OUTBOUND =? 0) |>) |>) by done.
  unfold csum_field, csum_at in *. destruct Htu as [->| ->]; cbn [Z.eqb Pos.eqb IPPROTO_TCP IPPROTO_UDP when_ negb] in *.
  - rewrite Sn, wp_bind, wp_ret, wp_ret. split; [done|by eexists].
  - rewrite Sn, wp_bind, wp_word_at by (unfold inside; cbn; lia). cbn [nw_buf field_set w1]. rewrite wp_ret.
    split; [by destruct (_ =? 0)|by eexists].
Qed.

(** What is written into the segment. *)
Definition segment_done (p hlen : Z) (t from : ends) (m m' : list Z) : Prop :=
  exists k, m' = match k with Some v => put16 be (csum_at p hlen) v (with_ports be hlen (en_sport t) (en_dport t) m)
                            | None => with_ports be hlen (en_sport t) (en_dport t) m end /\
    (k = None <-> csum_field p hlen m = None) /\
    forall v, k = Some v -> is_u16 v /\ v ≡ₒ word be m (csum_at p hlen) - (ends_total t - ends_total from).
Definition same_summary (t : ends) (w w' : W) : Prop :=
  nw_nats w' = nw_nats w /\ nw_rules w' = nw_rules w /\
  fin_sport (nw_fin w') = ntohs be (en_sport t) /\ fin_dport (nw_fin w') = ntohs be (en_dport t) /\
  fin_saddr (nw_fin w') = fin_saddr (nw_fin w) /\ fin_daddr (nw_fin w') = fin_daddr (nw_fin w).

Section Segment.
Context (x : loc) (p hlen l4 nflags : Z) (w : W).
Context (He : nw_nats w !! x = Some e) (Hmss : nat_mssclamp e = 0) (Hm : packet p hlen l4 (nw_buf w))
  (Hseg : segment_of p hlen l4 nflags (nw_fin w)).
Lemma put_ports_spec t Q : ends_u t ->
  Q tt (w <| nw_buf := with_ports be hlen (en_sport t) (en_dport t) (nw_buf w) |>
          <| nw_fin ::= set_data (ntohs be (en_sport t)) (ntohs be (en_dport t)) |>) ->
  wp (put_ports be (en_sport t) (en_dport t)) Q w.
Proof.
  intros (_ & _ & H3 & H4) HQ. pose proof (packet_l4 p hlen l4 _ Hm). destruct Hm as [? ? ? ? ? ?].
  unfold put_ports. rewrite wp_bind, wp_gets, (sg_dp _ _ _ _ _ Hseg), !u16_id by done.
  rewrite wp_bind, (wp_edit _ _ _ _ (put16 be hlen (en_sport t) (nw_buf w))) by (apply wr16_put16; split; lia).
  rewrite wp_bind, (wp_edit _ _ _ _ (with_ports be hlen (en_sport t) (en_dport t) (nw_buf w))); [exact HQ|].
  cbn [nw_buf field_set]. apply wr16_put16. split; [lia|]. rewrite length_put16. lia.
Qed.
Lemma segment_packet t : ends_u t -> packet p hlen l4 (with_ports be hlen (en_sport t) (en_dport t) (nw_buf w)).
Proof. intros (_ & _ & ? & ?). by apply packet_ports. Qed.
Lemma segment_field t : ends_u t ->
  word be (with_ports be hlen (en_sport t) (en_dport t) (nw_buf w)) (csum_at p hlen) = word be (nw_buf w) (csum_at p hlen).
Proof.
  intros _. pose proof (csum_inside p hlen l4 _ Hm) as (? & ? & _). destruct Hm as [? ? ? ? ? ?].
  unfold with_ports. by rewrite !word_put16_ne by lia.
Qed.
Definition with_new_ports (t : ends) : W :=
  w <| nw_buf := with_ports be hlen (en_sport t) (en_dport t) (nw_buf w) |>
    <| nw_fin ::= set_data (ntohs be (en_sport t)) (ntohs be (en_dport t)) |>.
(** The end of [out_l4] and [in_l4]: the checksum is corrected by [F]. *)
Lemma segment_tail t from (k : option Z -> ST W unit) (F : fr_info -> Z -> Z) : ends_u t ->
  (forall c w, inside c (nw_buf w) -> forall Q, wp (k (Some c)) Q w = wp (fix_sum be c (F (nw_fin w))) Q w) ->
  (forall Q w, wp (k None) Q w = Q tt w) ->
  (forall fin v, plain_cksum (fin_cksum fin) -> is_u16 v -> is_u16 (F fin v) /\ F fin v ≡ₒ v - (ends_total t - ends_total from)) ->
  wp (csump ← ipf_nat_proto be x nflags; k csump)
    (fun _ w' => segment_done p hlen t from (nw_buf w) (nw_buf w') /\ same_summary t w w') (with_new_ports t).
Proof.
  intros Ht Hk Hn HF. pose proof (segment_packet t Ht) as Hp. pose proof (segment_field t Ht) as Hw.
  assert (Hs : segment_of p hlen l4 nflags (nw_fin (with_new_ports t))) by (by destruct Hseg; split).
  rewrite wp_bind. eapply wp_mono; [by apply (nat_proto_spec x p hlen l4 nflags (with_new_ports t))|].
  intros o w' (-> & r & ->).
  assert (Ef : csum_field p hlen (nw_buf (with_new_ports t)) = csum_field p hlen (nw_buf w))
    by (unfold csum_field, with_new_ports; cbn [nw_buf field_set]; by rewrite Hw).
  assert (Hss : forall b, same_summary t w (with_new_ports t <| nw_fin ::= (fun fin => fin <| fin_rev := r |>) |> <| nw_buf := b |>))
    by done.
  destruct (csum_field p hlen (nw_buf (with_new_ports t))) as [c|] eqn:Ec.
  - assert (Hc : c = csum_at p hlen) by (revert Ec; unfold csum_field; repeat case_match; by intros [= <-]).
    subst c. pose proof (csum_inside p hlen l4 _ Hp) as (Hc1 & Hc2 & _).
    assert (Hin : inside (csum_at p hlen) (with_ports be hlen (en_sport t) (en_dport t) (nw_buf w)))
      by (destruct Hp; split; lia).
    rewrite Hk by exact Hin. rewrite wp_fix_sum by exact Hin. split; [|apply Hss].
    cbn [nw_buf nw_fin field_set with_new_ports]. rewrite Hw. eexists (Some _). split; [reflexivity|].
    split; [rewrite <- Ef; split; done|]. intros v [= <-]. apply HF; [apply Hseg|]. apply word_u16, Hm.
  - rewrite Hn. split; [|apply (Hss (nw_buf (with_new_ports t)))]. exists None. split; [done|]. split; [done|]. done.
Qed.
End Segment.

Lemma segment_tcpudp p hlen l4 nflags w : segment_of p hlen l4 nflags (nw_fin w) -> has nflags IPN_TCPUDP = true.
Proof.
  intros Hs. apply (has_more _ (if p =? IPPROTO_TCP then IPN_TCP else IPN_UDP)); [by destruct (p =? IPPROTO_TCP)|].
  apply (sg_flags _ _ _ _ _ Hs).
Qed.
Lemma out_l4_spec x p hlen l4 nflags w : nw_nats w !! x = Some e -> nat_mssclamp e = 0 -> packet p hlen l4 (nw_buf w) ->
  segment_of p hlen l4 nflags (nw_fin w) -> nat_dir e = (if fwd then NAT_OUTBOUND else NAT_INBOUND) -> nat_nsport e <> 0 ->
  wp (out_l4 be x e nflags) (fun _ w' =>
    segment_done p hlen (goes_to fwd e) (goes_from fwd e) (nw_buf w) (nw_buf w') /\ same_summary (goes_to fwd e) w w') w.
Proof.
  intros He Hc Hm Hs Hd Hp. destruct goes_u as [Ht _]. unfold out_l4. rewrite (proj2 (Z.eqb_neq _ _) Hp).
  rewrite (segment_tcpudp p hlen l4 nflags w Hs), (sg_query _ _ _ _ _ Hs), andb_false_r. cbn [negb andb when_]. rewrite wp_bind.
  assert (Ho : (if nat_dir e =? NAT_OUTBOUND then put_ports be (nat_nsport e) (nat_ndport e)
     else if nat_dir e =? NAT_INBOUND then put_ports be (nat_odport e) (nat_osport e) else mret tt) =
     put_ports be (en_sport (goes_to fwd e)) (en_dport (goes_to fwd e)) :> ST W unit) by (rewrite Hd; by destruct fwd).
  rewrite Ho. apply (put_ports_spec p hlen l4 nflags w Hm Hs); [done|]. rewrite wp_bind, wp_ret.
  apply (segment_tail x p hlen l4 nflags w He Hc Hm Hs (goes_to fwd e) (goes_from fwd e)
    _ (fun fin v => fixer fwd (fin_cksum fin) v (nat_sumd0 e) (u32 (nat_sumd1 e + fin_dlen fin)))); [done| |done|].
  - intros c w' Hi Q. rewrite wp_bind, wp_gets. rewrite Hd. by destruct fwd.
  - intros fin v Hpc Hv. by apply fix_l4.
Qed.
Lemma in_l4_spec x p hlen l4 nflags w : nw_nats w !! x = Some e -> nat_mssclamp e = 0 -> packet p hlen l4 (nw_buf w) ->
  segment_of p hlen l4 nflags (nw_fin w) -> nat_dir e = (if fwd then NAT_INBOUND else NAT_OUTBOUND) -> nat_odport e <> 0 ->
  wp (in_l4 be x e nflags) (fun _ w' =>
    segment_done p hlen (goes_to fwd e) (goes_from fwd e) (nw_buf w) (nw_buf w') /\ same_summary (goes_to fwd e) w w') w.
Proof.
  intros He Hc Hm Hs Hd Hp. destruct goes_u as [Ht _]. unfold in_l4. rewrite (proj2 (Z.eqb_neq _ _) Hp).
  rewrite (segment_tcpudp p hlen l4 nflags w Hs), (sg_query _ _ _ _ _ Hs), andb_false_r. cbn [negb andb when_]. rewrite wp_bind.
  assert (Ho : (if nat_dir e =? NAT_INBOUND then put_ports be (nat_nsport e) (nat_ndport e)
     else if nat_dir e =? NAT_OUTBOUND then put_ports be (nat_odport e) (nat_osport e) else mret tt) =
     put_ports be (en_sport (goes_to fwd e)) (en_dport (goes_to fwd e)) :> ST W unit) by (rewrite Hd; by destruct fwd).
  rewrite Ho. apply (put_ports_spec p hlen l4 nflags w Hm Hs); [done|]. rewrite wp_bind, wp_ret.
  apply (segment_tail x p hlen l4 nflags w He Hc Hm Hs (goes_to fwd e) (goes_from fwd e)
    _ (fun fin v => fixer fwd 0 v (nat_sumd0 e) 0)); [done| |done|].
  - intros c w' Hi Q. rewrite Hd. by destruct fwd.
  - intros fin v Hpc Hv. apply fix_l4; [by left|done].
Qed.

(** The header. *)
Lemma out_ipsum_spec p hlen l4 nflags w : packet p hlen l4 (nw_buf w) -> segment_of p hlen l4 nflags (nw_fin w) ->
  nat_dir e = (if fwd then NAT_OUTBOUND else NAT_INBOUND) ->
  wp (out_ipsum be e nflags) (fun _ w' => exists c, w' = w <| nw_buf := put16 be 10 c (nw_buf w) |> /\ is_u16 c /\
    c ≡ₒ word be (nw_buf w) 10 - (addr_total (goes_to fwd e) - addr_total (goes_from fwd e))) w.
Proof.
  intros Hm Hs Hd. pose proof (len20 _ _ _ _ Hm). unfold out_ipsum. rewrite wp_bind, wp_gets.
  assert (Hpart : Z.land (fin_cksum (nw_fin w)) FI_CK_L4PART = 0) by (by destruct (sg_cksum _ _ _ _ _ Hs) as [->| ->]).
  cbv zeta. rewrite Hpart.
  destruct (Z.eqb_spec nflags IPN_ICMPERR) as [->|_].
  { pose proof (sg_flags _ _ _ _ _ Hs) as Hf. by destruct (p =? IPPROTO_TCP). }
  assert (Hi : inside 10 (nw_buf w)) by (split; lia).
  destruct (fix_ip 0 (word be (nw_buf w) 10) 0) as [H1 H2]; [by left|apply word_u16, Hm|].
  rewrite Hd. destruct fwd; cbn; (rewrite wp_fix_sum by done); (eexists; split; [reflexivity|]; by split).
Qed.
Lemma put_addr_spec i a Q w : (i = 12 \/ i = 16) -> 20 <= Z.of_nat (length (nw_buf w)) ->
  wp (edit (wr32 be i a)) Q w = Q tt (w <| nw_buf := put32 be i a (nw_buf w) |>).
Proof. intros Hi Hl. apply wp_edit, wr32_put32; lia. Qed.
End Run.

(** ** Translated packets are valid *)

Lemma put16_comm be i j v u m : 0 <= i -> i + 2 <= j -> put16 be i v (put16 be j u m) = put16 be j u (put16 be i v m).
Proof.
  intros Hi Hj. unfold put16. rewrite !(list_insert_insert_ne _ (Z.to_nat i)), !(list_insert_insert_ne _ (Z.to_nat (i + 1))) by lia.
  done.
Qed.
Lemma put_addrs_comm be c s d m : put16 be 10 c (put_addrs be s d m) = put_addrs be s d (put16 be 10 c m).
Proof. unfold put_addrs, put32. by rewrite !(put16_comm be 10) by lia. Qed.

Section Valid.
Context {E : Type} `{nat_env E} (be : bool).
Abbreviation W := (natw E).

(** A session of TCP or UDP without a proxy and without MSS clamping, with the
    differences that [ipf_nat_finalise] computes, and a packet of it, with addresses and
    ports [from]; what is in the place of the ports may have been changed already (by
    [ipf_nat_newmap]). *)
Record translates (x : loc) (e : natt) (fwd : bool) (p hlen l4 nflags : Z) (w : W) : Prop := {
  tr_e : nw_nats w !! x = Some e; tr_sums : sums_ok be e; tr_one : fwd = false -> one_side e;
  tr_rule : match nat_ptr e with Some r => exists n, nw_rules w !! r = Some n /\ in_apr n = None | None => True end;
  tr_mss : nat_mssclamp e = 0; tr_packet : packet p hlen l4 (nw_buf w); tr_seg : segment_of p hlen l4 nflags (nw_fin w);
  tr_src : word32 be (nw_buf w) 12 = en_src (goes_from fwd e); tr_dst : word32 be (nw_buf w) 16 = en_dst (goes_from fwd e) }.
(** Both checksums of [m'] are as good as those of [m] were with the ports [from]. *)
Definition still_valid (p hlen l4 : Z) (from : ends) (m m' : list Z) : Prop :=
  (verifies (ip_sum be hlen m) -> verifies (ip_sum be hlen m')) /\
  (csum_field be p hlen m <> None -> verifies (l4_sum be p hlen l4 (with_ports be hlen (en_sport from) (en_dport from) m)) ->
   verifies (l4_sum be p hlen l4 m')).
Definition well_translated (p hlen l4 : Z) (from t : ends) (m m' : list Z) : Prop :=
  length m' = length m /\ carries be hlen m' t /\ still_valid p hlen l4 from m m' /\
  exists c k, m' = translated be p hlen t c k m.

Lemma rule_apr_none p Q (w : W) :
  match p with Some r => exists n, nw_rules w !! r = Some n /\ in_apr n = None | None => True end ->
  Q None w -> wp (rule_apr p) Q w.
Proof.
  unfold rule_apr. destruct p as [r|]; [|done]. intros (n & Hn & Ha) HQ.
  by rewrite wp_bind, (wp_rule _ _ _ _ _ Hn), wp_ret, Ha.
Qed.
Lemma translated_valid p hlen l4 from t c m m1 m' :
  packet p hlen l4 m -> ends_u t -> ends_u from -> is_u16 c -> c ≡ₒ word be m 10 - (addr_total t - addr_total from) ->
  word32 be m 12 = en_src from -> word32 be m 16 = en_dst from -> m1 = put_addrs be (en_src t) (en_dst t) (put16 be 10 c m) ->
  segment_done be p hlen t from m1 m' -> well_translated p hlen l4 from t m m'.
Proof.
  intros Hm Ht Hf Hc Ec Hs Hd -> (k & -> & Hk & Hkv).
  pose proof (len20 _ _ _ _ Hm) as Hl. pose proof (csum_inside p hlen l4 m Hm) as (Hi1 & Hi2 & _). pose proof Hm as [? ? ? ? ? ?].
  set (m1 := put_addrs be (en_src t) (en_dst t) (put16 be 10 c m)) in *.
  assert (Ew : word be m1 (csum_at p hlen) = word be m (csum_at p hlen)).
  { unfold m1, put_addrs. rewrite !word_put32_ne by lia. by rewrite word_put16_ne by lia. }
  assert (Ef : csum_field be p hlen m1 = csum_field be p hlen m) by (unfold csum_field; by rewrite Ew).
  rewrite Ew in Hkv. rewrite Ef in Hk.
  assert (Hk16 : forall v, k = Some v -> is_u16 v) by (intros v Hv; by apply (Hkv v)).
  change (match k with Some v => _ | None => _ end) with (translated be p hlen t c k m).
  split; [|split; [|split; [split|]]].
  - unfold translated. destruct k; rewrite ?length_put16; unfold with_ports, put_addrs; by rewrite !length_put16, !length_put32, length_put16.
  - by apply (translated_carries be p hlen l4).
  - rewrite !verifies_iff. intros Hv. rewrite (translated_ip_sum be p hlen l4 m t c k Hm Ht Hc Hk16 from) by done. done.
  - intros Hn. rewrite !verifies_iff. intros Hv. destruct k as [v|] eqn:Ek; [|by destruct Hn; apply Hk].
    destruct (Hkv v eq_refl) as [Hv1 Hv2]. destruct Hf as (_ & _ & ? & ?).
    rewrite (translated_l4_sum be p hlen l4 m t c (Some v) Hm Ht Hc Hk16 from Hs Hd v) by done. done.
  - by exists c, k.
Qed.

Lemma put_addrs_spec a b f (r : Z + Z) Q (w : W) : 20 <= Z.of_nat (length (nw_buf w)) ->
  Q r (w <| nw_buf := put_addrs be a b (nw_buf w) |> <| nw_fin ::= f |>) ->
  wp (put_src be a;; put_dst be b;; upd_nfin f;; mret r) Q w.
Proof.
  intros Hl HQ. unfold put_src, put_dst. rewrite wp_bind, put_addr_spec by auto.
  rewrite wp_bind, put_addr_spec by (auto; cbn [nw_buf field_set]; by rewrite length_put32). done.
Qed.
(** What follows the addresses in [ipf_nat_out]. *)
Definition out_rest (x : loc) (e : natt) (nflags : Z) : ST W Z :=
  fin ← gets nw_fin;
  when_ (first_fragment fin) (out_l4 be x e nflags);;
  fin ← gets nw_fin;
  next_ (nenv_sync_update (nat_sync e) fin);;
  apr ← rule_apr (nat_ptr e);
  i ← match apr with
      | Some _ => i ← nenv_proxy_check x; mret (if i =? 0 then 1 else i)
      | None => mret 1
      end;
  upd_nfin (or_flx FI_NATED);;
  mret i.
Lemma out_rest_spec x e fwd p hlen l4 nflags (w : W) : nw_nats w !! x = Some e -> sums_ok be e -> (fwd = false -> one_side e) ->
  match nat_ptr e with Some r => exists n, nw_rules w !! r = Some n /\ in_apr n = None | None => True end ->
  nat_mssclamp e = 0 -> packet p hlen l4 (nw_buf w) -> segment_of p hlen l4 nflags (nw_fin w) ->
  nat_dir e = (if fwd then NAT_OUTBOUND else NAT_INBOUND) -> nat_nsport e <> 0 ->
  wp (out_rest x e nflags)
    (fun o w' => o = 1 /\ segment_done be p hlen (goes_to fwd e) (goes_from fwd e) (nw_buf w) (nw_buf w')) w.
Proof.
  intros He Hsum Hone Hrule Hmss Hpk Hseg Hd Hp. unfold out_rest. rewrite wp_bind, wp_gets, (sg_first _ _ _ _ _ Hseg).
  cbn [when_]. rewrite wp_bind. eapply wp_mono; [by apply (out_l4_spec be e fwd Hsum Hone x p hlen l4)|].
  intros [] w1 [Hsd (E1 & E2 & _)]. rewrite wp_bind, wp_gets, wp_bind, wp_next_, wp_bind.
  apply rule_apr_none; [cbn [nw_rules field_set]; by rewrite E2|]. by rewrite wp_bind, wp_ret, wp_bind, wp_upd_nfin, wp_ret.
Qed.
Lemma nat_out_run x e fwd p hlen l4 natadd nflags w : translates x e fwd p hlen l4 nflags w ->
  nat_dir e = (if fwd then NAT_OUTBOUND else NAT_INBOUND) -> nat_nsport e <> 0 ->
  wp (ipf_nat_out be x natadd nflags)
    (fun o w' => o = 1 /\ well_translated p hlen l4 (goes_from fwd e) (goes_to fwd e) (nw_buf w) (nw_buf w')) w.
Proof.
  intros [He Hsum Hone Hrule Hmss Hpk Hseg Hsrc Hdst] Hd Hp. pose proof (len20 _ _ _ _ Hpk) as Hl.
  destruct (goes_u be e fwd Hsum Hone) as [Hto Hfrom].
  unfold ipf_nat_out. rewrite wp_bind, (wp_nst _ _ _ _ _ He), wp_bind, wp_gets, wp_bind.
  eapply wp_mono with (Q := fun _ w1 => exists f, w1 = w <| nw_ext ::= f |>).
  { apply wp_when; intros _; [rewrite wp_next_; by eexists|exists id; by destruct w]. }
  intros [] w1 (f & ->). rewrite wp_bind.
  eapply wp_mono; [by apply (out_ipsum_spec be e fwd Hsum Hone p hlen l4 nflags (w <| nw_ext ::= f |>))|].
  intros [] w2 (c & -> & Hc & Ec). cbn [nw_buf field_set] in Ec |- *. rewrite wp_bind.
  assert (Hpk2 : packet p hlen l4 (put_addrs be (en_src (goes_to fwd e)) (en_dst (goes_to fwd e)) (put16 be 10 c (nw_buf w)))).
  { destruct Hto as (? & ? & _). by apply packet_put_addrs, packet_put16. }
  assert (Hfinal : forall s d, wp (out_rest x e nflags) (fun o w' => o = 1 /\ well_translated p hlen l4 (goes_from fwd e) (goes_to fwd e) (nw_buf w) (nw_buf w'))
      (w <| nw_ext ::= f |> <| nw_buf := put16 be 10 c (nw_buf w) |>
         <| nw_buf := put_addrs be (en_src (goes_to fwd e)) (en_dst (goes_to fwd e)) (put16 be 10 c (nw_buf w)) |>
         <| nw_fin ::= set_addrs s d |>)).
  { intros s d. eapply wp_mono; [apply (out_rest_spec x e fwd p hlen l4); try done|].
    - by destruct Hseg; split.
    - intros o w' [-> Hsd]. split; [done|]. eapply translated_valid; [exact Hpk|exact Hto|exact Hfrom|exact Hc|exact Ec|exact Hsrc|
        exact Hdst|reflexivity|exact Hsd]. }
  rewrite Hd. destruct fwd; cbn [Z.eqb NAT_OUTBOUND NAT_INBOUND Pos.eqb].
  all: apply put_addrs_spec; [cbn [nw_buf field_set]; by rewrite length_put16|].
  all: apply Hfinal.
Qed.
End Valid.

Section ValidIn.
Context {E : Type} `{nat_env E} (be : bool).
Abbreviation W := (natw E).

Lemma in_addrs_spec e fwd p hlen l4 nflags (w : W) : sums_ok be e -> (fwd = false -> one_side e) -> packet p hlen l4 (nw_buf w) ->
  segment_of p hlen l4 nflags (nw_fin w) -> has (fin_flx (nw_fin w)) FI_ICMPERR = false ->
  nat_dir e = (if fwd then NAT_INBOUND else NAT_OUTBOUND) ->
  wp (in_addrs be e) (fun _ w' => exists c s d, is_u16 c /\
    c ≡ₒ word be (nw_buf w) 10 - (addr_total (goes_to fwd e) - addr_total (goes_from fwd e)) /\
    nw_buf w' = put_addrs be (en_src (goes_to fwd e)) (en_dst (goes_to fwd e)) (put16 be 10 c (nw_buf w)) /\
    nw_nats w' = nw_nats w /\ nw_rules w' = nw_rules w /\ nw_fin w' = set_addrs s d (nw_fin w)) w.
Proof.
  intros Hsum Hone Hpk Hseg Herr Hd. pose proof (len20 _ _ _ _ Hpk) as Hl.
  unfold in_addrs. rewrite wp_bind, wp_gets, Herr. cbn [negb when_].
  destruct (fix_ip be e fwd Hsum Hone 0 (word be (nw_buf w) 10) 0) as [H1 H2]; [by left|apply word_u16, Hpk|].
  assert (Hw : forall s d, word be (put_addrs be s d (nw_buf w)) 10 = word be (nw_buf w) 10)
    by (intros; unfold put_addrs; by rewrite !word_put32_ne by lia).
  assert (Hi : forall s d, inside 10 (put_addrs be s d (nw_buf w)))
    by (intros; unfold inside, put_addrs; rewrite !length_put32; lia).
  assert (Hgo : forall s d f k, wp (put_src be s;; put_dst be d;; upd_nfin f;; fix_sum be 10 k) (fun _ w' =>
    nw_buf w' = put_addrs be s d (put16 be 10 (k (word be (nw_buf w) 10)) (nw_buf w)) /\
    nw_nats w' = nw_nats w /\ nw_rules w' = nw_rules w /\ nw_fin w' = f (nw_fin w)) w).
  { intros s d f k. unfold put_src, put_dst. rewrite wp_bind, put_addr_spec by auto.
    rewrite wp_bind, put_addr_spec by (auto; cbn [nw_buf field_set]; by rewrite length_put32).
    rewrite wp_bind, wp_upd_nfin, (wp_fix_sum_at _ _ _ _ _ _ (put_addrs be s d (nw_buf w))) by (done || apply Hi).
    rewrite Hw, put_addrs_comm. done. }
  rewrite Hd. destruct fwd; cbn [Z.eqb NAT_OUTBOUND NAT_INBOUND Pos.eqb].
  all: eapply wp_mono; [apply Hgo|]; intros [] w' Hw'; do 3 eexists; split; [exact H1|split; [exact H2|exact Hw']].
Qed.
Lemma nat_in_run x e fwd p hlen l4 natadd nflags (w : W) : translates be x e fwd p hlen l4 nflags w ->
  nat_dir e = (if fwd then NAT_INBOUND else NAT_OUTBOUND) -> nat_odport e <> 0 -> has (fin_flx (nw_fin w)) FI_ICMPERR = false ->
  wp (ipf_nat_in be x natadd nflags)
    (fun o w' => o = 1 /\ well_translated be p hlen l4 (goes_from fwd e) (goes_to fwd e) (nw_buf w) (nw_buf w')) w.
Proof.
  intros [He Hsum Hone Hrule Hmss Hpk Hseg Hsrc Hdst] Hd Hp Herr. destruct (goes_u be e fwd Hsum Hone) as [Hto Hfrom].
  unfold ipf_nat_in. rewrite wp_bind, (wp_nst _ _ _ _ _ He), wp_bind, wp_upd_nfin, wp_bind, wp_gets, wp_bind.
  set (w0 := w <| nw_fin ::= _ |>).
  eapply wp_mono with (Q := fun _ w1 => exists f, w1 = w0 <| nw_ext ::= f |>).
  { apply wp_when; intros _; [rewrite wp_next_; by eexists|exists id; by destruct w]. }
  intros [] w1 (f & ->). rewrite wp_bind. apply rule_apr_none; [done|]. rewrite wp_bind, wp_ret. cbn [Z.eqb].
  rewrite wp_bind, wp_gets, wp_bind, wp_next_, wp_bind.
  eapply wp_mono; [apply (in_addrs_spec e fwd p hlen l4 nflags); try done; by destruct Hseg; split|].
  intros [] w2 (c & s & d & Hc & Ec & Eb & En & Er & Ef). rewrite wp_bind.
  assert (Hnd : (nat_dir e =? NAT_DIVERTIN) || (nat_dir e =? NAT_DIVERTOUT) = false) by (rewrite Hd; by destruct fwd).
  rewrite Hnd, wp_ret, wp_bind, wp_gets.
  assert (Hseg2 : segment_of p hlen l4 nflags (nw_fin w2)) by (rewrite Ef; by destruct Hseg; split).
  assert (Hpk2 : packet p hlen l4 (nw_buf w2)) by (rewrite Eb; destruct Hto as (? & ? & _); by apply packet_put_addrs, packet_put16).
  assert (He2 : nw_nats w2 !! x = Some e) by (by rewrite En).
  rewrite (sg_first _ _ _ _ _ Hseg2). cbn [when_]. rewrite wp_bind.
  eapply wp_mono; [by apply (in_l4_spec be e fwd Hsum Hone x p hlen l4 nflags w2)|].
  intros [] w3 [Hsd (E1 & E2 & _)]. rewrite wp_bind, wp_upd_nfin, wp_bind.
  eapply wp_mono with (Q := fun _ w4 => nw_buf w4 = nw_buf w3).
  { unfold set_tag. destruct (nat_ptr e) as [r|]; [|done]. destruct Hrule as (n & Hn & _).
    rewrite wp_bind, (wp_rule _ _ _ _ n) by (rewrite <- Hn; change (nw_rules w) with (nw_rules (w0 <| nw_ext ::= f |>)); cbn [nw_rules field_set]; by rewrite E2, Er). apply wp_when; by intros _. }
  intros [] w4 E4. rewrite wp_ret. split; [done|]. rewrite E4.
  eapply translated_valid; [exact Hpk|exact Hto|exact Hfrom|exact Hc|exact Ec|exact Hsrc|exact Hdst|exact Eb|exact Hsd].
Qed.
End ValidIn.

(** C12. [ipf_nat_out] on a packet of TCP or UDP: it carries the session's addresses and
    ports afterwards (the translated ones for a session made by an outgoing packet, the
    original ones for an answer to a session made by an incoming one), nothing but these
    and the two checksums is written, and both checksums stay valid, in either byte order.
    This is for sessions and packets as [translates] has them.  The session: the rule, if
    any, has no proxy; no MSS clamping ([nat_mssclamp] is 0); a new source port that is not
    0; the differences that [ipf_nat_finalise] computes, from addresses and ports whose sum,
    in host order, does not wrap around 2^32; and for an answer, one side of the session is
    as it was.  The packet: a first fragment that is long enough for its header, whose
    checksum the hardware has not taken over ([fin_cksum] of one of the two plain values).
    Outside of this it can fail: see the findings on the MSS option, on carries and on
    wrapped sums. *)
Theorem nat_out_valid {E} `{nat_env E} be x e fwd p hlen l4 natadd nflags (w : natw E) :
  translates be x e fwd p hlen l4 nflags w -> nat_dir e = (if fwd then NAT_OUTBOUND else NAT_INBOUND) -> nat_nsport e <> 0 ->
  exists w', ipf_nat_out be x natadd nflags w = Some (1, w') /\
    well_translated be p hlen l4 (goes_from fwd e) (goes_to fwd e) (nw_buf w) (nw_buf w').
Proof.
  intros Ht Hd Hp. destruct (wp_total _ _ _ (nat_out_run be x e fwd p hlen l4 natadd nflags w Ht Hd Hp)) as (o & w' & Hr & -> & Hw).
  by exists w'.
Qed.

(** C13. The same for [ipf_nat_in], which answers to outgoing sessions and the packets of
    incoming ones pass: addresses, ports and nothing else but the two checksums change, and
    these stay valid.  The conditions are those of [translates] again: no proxy, no MSS
    clamping, no sum of an address and a port that wraps around 2^32, for an answer only one
    side of the session changed, a first fragment with room for its header, a checksum that
    is left to the host; here the original destination port is not 0, and the packet is not
    an ICMP error ([FI_ICMPERR]). *)
Theorem nat_in_valid {E} `{nat_env E} be x e fwd p hlen l4 natadd nflags (w : natw E) :
  translates be x e fwd p hlen l4 nflags w -> nat_dir e = (if fwd then NAT_INBOUND else NAT_OUTBOUND) -> nat_odport e <> 0 ->
  has (fin_flx (nw_fin w)) FI_ICMPERR = false ->
  exists w', ipf_nat_in be x natadd nflags w = Some (1, w') /\
    well_translated be p hlen l4 (goes_from fwd e) (goes_to fwd e) (nw_buf w) (nw_buf w').
Proof.
  intros Ht Hd Hp He. destruct (wp_total _ _ _ (nat_in_run be x e fwd p hlen l4 natadd nflags w Ht Hd Hp He)) as (o & w' & Hr & -> & Hw).
  by exists w'.
Qed.

(** A datagram from 10.0.0.1 to 8.8.8.8 on a little-endian host, for which a session is
    made, and the answer to it. *)
Definition xlate_out_state : natw unit :=
  let fin := Demo.packet 1 IPPROTO_UDP 0x0100000a 0x08080808 123 53 <| fin_plen := 31 |> <| fin_dlen := 11 |> in
  Demo.run (ipf_nat_add Demo.cf false 10 1 None IPN_UDP NAT_OUTBOUND)
    (Demo.table (Demo.map_rule IPN_SEQUENTIAL 0x0101a8c0 MAX32 0xc0a80101 40000 40009) fin
       <| nw_buf := [69; 0; 0; 31; 0; 7; 0; 0; 64; 17; 96; 183; 10; 0; 0; 1; 8; 8; 8; 8;
                     0; 123; 0; 53; 0; 11; 225; 21; 1; 2; 3] |>).
Definition xlate_in_state : natw unit :=
  xlate_out_state
    <| nw_fin := Demo.packet 0 IPPROTO_UDP 0x08080808 0x0101a8c0 53 40000 <| fin_plen := 32 |> <| fin_dlen := 12 |> |>
    <| nw_buf := [69; 0; 0; 32; 0; 7; 0; 0; 64; 17; 169; 13; 8; 8; 8; 8; 192; 168; 1; 1;
                  0; 53; 156; 64; 0; 12; 129; 153; 9; 8; 7; 6] |>.
Definition xlate_session : natt := default nat_zero (nw_nats xlate_out_state !! 100%positive).
Lemma ends_ok_small be s d sp dp : is_u32 s -> is_u32 d -> is_u16 sp -> is_u16 dp -> ntohl be s <= 0xfffeffff -> ntohl be d <= 0xfffeffff ->
  ends_ok be (mk_ends s d sp dp).
Proof.
  intros. pose proof (ntohs_u16 be sp) as H5. pose proof (ntohs_u16 be dp) as H6. unfold is_u16 in H5, H6.
  split; cbn; try done; lia.
Qed.
Lemma xlate_session_sums : sums_ok false xlate_session.
Proof.
  split; [| |vm_compute; discriminate|vm_compute; reflexivity|vm_compute; reflexivity].
  - assert (E : orig xlate_session = mk_ends 0x0100000a 0x08080808 31488 13568) by (vm_compute; reflexivity).
    rewrite E. clear E. by apply ends_ok_small.
  - assert (E : trans xlate_session = mk_ends 0x0101a8c0 0x08080808 16540 13568) by (vm_compute; reflexivity).
    rewrite E. clear E. by apply ends_ok_small.
Qed.
Lemma xlate_translates fwd (w : natw unit) hlen l4 : nw_nats w !! 100%positive = Some xlate_session ->
  match nat_ptr xlate_session with Some r => exists n, nw_rules w !! r = Some n /\ in_apr n = None | None => True end ->
  packet IPPROTO_UDP hlen l4 (nw_buf w) -> segment_of IPPROTO_UDP hlen l4 IPN_UDP (nw_fin w) ->
  word32 false (nw_buf w) 12 = en_src (goes_from fwd xlate_session) ->
  word32 false (nw_buf w) 16 = en_dst (goes_from fwd xlate_session) ->
  translates false 100 xlate_session fwd IPPROTO_UDP hlen l4 IPN_UDP w.
Proof.
  intros. split; [done|apply xlate_session_sums|intros _; right; split; vm_compute; reflexivity|done|vm_compute; reflexivity|done..].
Qed.
Lemma nat_out_valid_witness : exists w',
  ipf_nat_out false 100 true IPN_UDP xlate_out_state = Some (1, w') /\
  well_translated false IPPROTO_UDP 20 11 (orig xlate_session) (trans xlate_session) (nw_buf xlate_out_state) (nw_buf w').
Proof.
  apply (nat_out_valid false 100 xlate_session true IPPROTO_UDP 20 11 true IPN_UDP xlate_out_state).
  - apply xlate_translates; try (vm_compute; reflexivity).
    + vm_compute. eexists. split; reflexivity.
    + split; [apply bytes_ok; vm_compute; reflexivity|done|done|by vm_compute|by right|done].
    + split; [vm_compute; reflexivity..|left; vm_compute; reflexivity].
  - vm_compute; reflexivity.
  - by vm_compute.
Defined.
Lemma nat_in_valid_witness : exists w',
  ipf_nat_in false 100 true IPN_UDP xlate_in_state = Some (1, w') /\
  well_translated false IPPROTO_UDP 20 12 (answer_of (trans xlate_session)) (answer_of (orig xlate_session))
    (nw_buf xlate_in_state) (nw_buf w').
Proof.
  apply (nat_in_valid false 100 xlate_session false IPPROTO_UDP 20 12 true IPN_UDP xlate_in_state).
  - apply xlate_translates; try (vm_compute; reflexivity).
    + vm_compute. eexists. split; reflexivity.
    + split; [apply bytes_ok; vm_compute; reflexivity|done|done|by vm_compute|by right|done].
    + split; [vm_compute; reflexivity..|left; vm_compute; reflexivity].
  - vm_compute; reflexivity.
  - by vm_compute.
  - vm_compute; reflexivity.
Defined.
