(* ===== verification/NatAdmin.v ===== *)
(** The NAT table outside the path of packets: the timer ([ipf_nat_expire]), making room
    and flushing ([ipf_nat_extraflush], [ipf_nat_flushtable]), taking rules away
    ([ipf_nat_delrule], [ipf_nat_clearlist]), giving a session up ([ipf_nat_setpending],
    [ipf_nat_uncreate]) and new sizes of the tables. *)
From stdpp Require Import strings.
From S2P Require Import Prelude Packet Cksum Filter Timeoutq TcpAge Queues Sweeps TcpWindow State StateLookup StateAdmin NatTable NatNew NatXlate.

(** ** Definitions *)

Definition NL_PURGE : Z := 0xfffc.
Definition NL_FLUSH : Z := 0xfffe.
Definition IPN_PURGE : Z := 0x800000.

Section Admin.
Context {E : Type} `{nat_env E} (cf : natconf) (be : bool).
Abbreviation W := (natw E).

(** [ipf_nat_delete] as a walk calls it, and [ipf_nat_flush_entry]. *)
Definition nat_del (logtype : Z) (x : loc) : ST W Z := ipf_nat_delete cf x logtype;; mret 0.
Definition ipf_nat_flush_entry (x : loc) : ST W Z := nat_del NL_FLUSH x.

(** *** Flushing *)

(** The loop over the list of all sessions, which go when [victim] says so; deleting one
    leaves the sequence of the others as it is. *)
Fixpoint flush_nats (logtype : Z) (victim : loc -> natt -> ST W bool) (l : list loc) : ST W Z :=
  match l with
  | [] => mret 0
  | x :: l =>
      e ← nst x;
      v ← victim x e;
      when_ v (ipf_nat_delete cf x logtype);;
      n ← flush_nats logtype victim l;
      mret (b2z v + n)
  end.
Definition not_tcp (e : natt) : bool := negb (nat_pr0 e =? IPPROTO_TCP) || negb (nat_pr1 e =? IPPROTO_TCP).
(** The walk over a user queue for sessions that are closing. *)
Definition del_closing_nat (x : loc) : ST W Z :=
  e ← nst x;
  if not_tcp e then mret 1 else
  s0 ← nhp (ent tqe_state0 x);
  s1 ← nhp (ent tqe_state1 x);
  if (s0 >? IPF_TCPS_ESTABLISHED) && (s1 >? IPF_TCPS_ESTABLISHED) then nat_del NL_EXPIRE x else mret 1.
(** [ipf_nat_extraflush]. *)
Definition ipf_nat_extraflush (F : nat) (which : Z) : ST W Z :=
  if which =? 0 then l ← gets nw_instances; flush_nats NL_FLUSH (fun _ _ => mret true) l
  else if which =? 1 then
    let stop tqe := par ← nhp (ent tqe_parent tqe); par ← need par; e ← nst par; mret (not_tcp e) in
    n ← sweep_queues (sweep (nat_del NL_EXPIRE) stop F) false F (Some (ipf_nat_tcptq cf IPF_TCPS_CLOSE_WAIT));
    us ← gets (fun w => parent_var (nw_heap w));
    m ← sweep_queues (sweep del_closing_nat (fun _ => mret false) F) false F us;
    mret (n + m)
  else if is_closing which then flush_queue ipf_nat_flush_entry F (ipf_nat_tcptq cf which)
  else if which =? 2 then
    w ← gets id;
    if u64 (nw_ticks w - nw_last_flush w) >? IPF_TTLVAL 5 then
      modify (fun w => w <| nw_last_flush := nw_ticks w |>);;
      ipf_queueflush (ipf_nat_tcptq cf) ipf_nat_flush_entry F (ipf_nat_table_sz cf) (ipf_nat_table_wm_low cf)
    else mret 0
  else if which <? 30 then mret 0
  else
    let idle := idle_limit which in
    l ← gets nw_instances;
    flush_nats NL_FLUSH (fun x _ => t ← nhp (ent tqe_touched x); w ← gets id; mret (u64 (nw_ticks w - t) >? idle)) l.
(** [ipf_nat_flushtable]: the chains are cleared first.  (In the code a deletion then writes
    the rest of its chain back to the slot; when all are deleted nothing is left of it.) *)
Definition ipf_nat_flushtable : ST W Z :=
  modify (fun w => w <| nw_table0 := fun _ => [] |> <| nw_table1 := fun _ => [] |>);;
  l ← gets nw_instances;
  flush_nats NL_FLUSH (fun _ _ => mret true) l.

(** *** The timer *)

(** [ipf_nat_expire]. *)
Definition ipf_nat_expire (F : nat) : ST W unit :=
  let expire := sweep (nat_del NL_EXPIRE) not_due F in
  _ ← sweep_queues expire false F (Some (ipf_nat_tcptq cf 0));
  us ← gets (fun w => parent_var (nw_heap w));
  _ ← sweep_queues expire false F us;
  us ← gets (fun w => parent_var (nw_heap w));
  free_queues F us;;
  fl ← gets nw_doflush;
  when_ (negb (fl =? 0)) (_ ← ipf_nat_extraflush F 2; modify (fun w => w <| nw_doflush := 0 |>)).

(** *** Giving a session up *)

(** [ipf_nat_setpending]. *)
Definition ipf_nat_setpending (x : loc) : ST W unit :=
  oifq ← nhp (ent tqe_ifq x);
  ticks ← gets nw_ticks;
  match oifq with
  | Some o => nhp (ipf_movequeue ticks x o (ipf_nat_pending cf))
  | None => nhp (ipf_queueappend ticks x (ipf_nat_pending cf) (Some x))
  end;;
  forget_nat_me x.
(** [ipf_nat_uncreate]. *)
Definition ipf_nat_uncreate : ST W unit :=
  fin ← gets nw_fin;
  let nflags := if fin_p fin =? IPPROTO_TCP then IPN_TCP else if fin_p fin =? IPPROTO_UDP then IPN_UDP else 0 in
  y ← (if fin_out fin =? 0 then ipf_nat_outlookup cf be nflags (fin_p fin) (fin_daddr fin) (fin_saddr fin)
       else ipf_nat_inlookup cf be nflags (fin_p fin) (fin_saddr fin) (fin_daddr fin));
  match y with Some x => ipf_nat_delete cf x NL_DESTROY | None => mret tt end.

(** *** Rules *)

(** The tail of [ipf_nat_siocaddnat]: the rule, whose names are resolved, enters the list
    and its buckets; [age] are its own timeouts. *)
Definition nat_add_rule (F : nat) (r : loc) (age : Z * Z) (alloc0 alloc1 : option (loc * ipftq)) : ST W unit :=
  modify (fun w => w <| nw_list ::= (fun l => l ++ [r]) |>);;
  upd_rule r (fun n => n <| in_use ::= fun u => u + 1 |>);;
  n ← rule r;
  when_ (has (in_redir n) NAT_REDIRECT)
    (upd_rule r (fun n => n <| in_flags ::= fun f => clear f IPN_NOTDST |>);;
     when_ (in_v0 n =? 4) (ipf_nat_addrdr cf be r));;
  when_ (has (in_redir n) (Z.lor NAT_MAP NAT_MAPBLK))
    (upd_rule r (fun n => n <| in_flags ::= fun f => clear f IPN_NOTSRC |>);;
     when_ (in_v0 n =? 4) (ipf_nat_addmap cf be r));;
  when_ (negb (fst age =? 0))
    (q ← nhp (ipf_addtimeoutqueue F alloc0 (fst age)); upd_rule r (fun n => n <| in_tqehead ::= fun t => (q, snd t) |>));;
  when_ (negb (snd age =? 0))
    (q ← nhp (ipf_addtimeoutqueue F alloc1 (snd age)); upd_rule r (fun n => n <| in_tqehead ::= fun t => (fst t, q) |>));;
  modify (fun w => w <| ns_rules ::= fun k => k + 1 |>).
(** [ipf_nat_delrule]; a rule that is not in the list has no [in_pnext]. *)
Definition ipf_nat_delrule (r : loc) (purge : bool) : ST W unit :=
  n ← rule r;
  modify (fun w => w <| nw_list ::= without r |>);;
  when_ (purge && has (in_flags n) IPN_PURGE)
    (l ← gets nw_instances;
     _ ← flush_nats NL_PURGE (fun _ e => mret (bool_decide (nat_ptr e = Some r))) l; mret tt);;
  when_ (negb (has (in_flags n) IPN_DELETE))
    (when_ (has (in_redir n) NAT_REDIRECT && (in_v0 n =? 4)) (ipf_nat_delrdr be r);;
     when_ (has (in_redir n) (Z.lor NAT_MAPBLK NAT_MAP) && (in_v0 n =? 4)) (ipf_nat_delmap be r));;
  upd_rule r (fun n => n <| in_flags ::= fun f => Z.lor f IPN_DELETE |>);;
  ipf_nat_rule_deref r.
Definition ipf_nat_siocdelnat (r : loc) : ST W unit := ipf_nat_delrule r true.
(** The loop of [ipf_nat_clearlist]. *)
Fixpoint clear_rules (l : list loc) : ST W Z :=
  match l with
  | [] => mret 0
  | r :: l => ipf_nat_delrule r false;; n ← clear_rules l; mret (1 + n)
  end.
Definition ipf_nat_clearlist : ST W Z :=
  modify (fun w => w <| nw_maprules := fun _ => [] |> <| nw_rdrrules := fun _ => [] |>);;
  l ← gets nw_list;
  clear_rules l.

(** *** Sizes and timeouts *)

(** The variables of [ipf_nat_softc_t] that [ipf_nat_rehash] changes. *)
Definition nat_resized (n : Z) : natconf :=
  mk_natconf n (default_maxbucket n) (ipf_nat_hostmap_sz cf) (ipf_nat_maprules_sz cf) (ipf_nat_rdrrules_sz cf)
    (ipf_nat_table_wm_high cf) (ipf_nat_logging cf) (ipf_nat_tcptq cf) (ipf_nat_udptq cf) (ipf_nat_udpacktq cf)
    (ipf_nat_icmptq cf) (ipf_nat_icmpacktq cf) (ipf_nat_iptq cf) (ipf_nat_pending cf) (ipf_nat_table_wm_low cf).
Fixpoint rehash_nats (n : Z) (l : list loc) : ST W unit :=
  match l with
  | [] => mret tt
  | x :: l =>
      e ← nst x;
      modify (fun w => w <| nw_table0 ::= upd_at (nat_hv0 e mod n) (cons x) |>
                         <| ns_bucketlen0 ::= upd_at (nat_hv0 e mod n) (fun k => k + 1) |>);;
      modify (fun w => w <| nw_table1 ::= upd_at (nat_hv1 e mod n) (cons x) |>
                         <| ns_bucketlen1 ::= upd_at (nat_hv1 e mod n) (fun k => k + 1) |>);;
      rehash_nats n l
  end.
(** [ipf_nat_rehash]; [mem] says for each of the four calls of [KMALLOCS] whether there is
    memory.  The first two are not checked, and what they return is written to.  The
    tunables do not allow the size 0. *)
Definition ipf_nat_rehash (n : Z) (mem : (bool * bool) * (bool * bool)) : ST W (Z * natconf) :=
  if n =? ipf_nat_table_sz cf then mret (0, cf) else
  if negb (fst (snd mem)) || negb (snd (snd mem)) then mret (ENOMEM, cf) else
  if negb (fst (fst mem)) || negb (snd (fst mem)) then stuck else
  modify (fun w => w <| nw_table0 := fun _ => [] |> <| nw_table1 := fun _ => [] |>
                     <| ns_bucketlen0 := fun _ => 0 |> <| ns_bucketlen1 := fun _ => 0 |>);;
  l ← gets nw_instances;
  rehash_nats n l;;
  mret (0, nat_resized n).
(** The host maps move to a table of a new size. *)
Definition nat_hostmaps (n : Z) : natconf :=
  mk_natconf (ipf_nat_table_sz cf) (ipf_nat_maxbucket cf) n (ipf_nat_maprules_sz cf) (ipf_nat_rdrrules_sz cf)
    (ipf_nat_table_wm_high cf) (ipf_nat_logging cf) (ipf_nat_tcptq cf) (ipf_nat_udptq cf) (ipf_nat_udpacktq cf)
    (ipf_nat_icmptq cf) (ipf_nat_icmpacktq cf) (ipf_nat_iptq cf) (ipf_nat_pending cf) (ipf_nat_table_wm_low cf).
Fixpoint rehash_hms (n : Z) (l : list loc) : ST W unit :=
  match l with
  | [] => mret tt
  | y :: l => h ← hmst y; modify (fun w => w <| nw_hmtable ::= upd_at (hm_hv h mod n) (cons y) |>);; rehash_hms n l
  end.
Definition ipf_nat_hostmap_rehash (n : Z) (mem : bool) : ST W (Z * natconf) :=
  if n =? ipf_nat_hostmap_sz cf then mret (0, cf) else
  if negb mem then mret (ENOMEM, cf) else
  modify (fun w => w <| nw_hmtable := fun _ => [] |>);;
  l ← gets nw_hmlist;
  rehash_hms n l;;
  mret (0, nat_hostmaps n).

(** [ipf_nat_settimeout] and [ipf_nat_add_tq]. *)
Definition ipf_nat_settimeout (fuel : nat) (name : string) (secs : Z) : ST W Z :=
  let strcmp s := bool_decide (name = s) in
  let apply q := nhp (ipf_apply_timeout fuel q secs);; mret 0 in
  if String.prefix "tcp_" name then nhp (ipf_settimeout_tcp fuel name secs (ipf_nat_tcptq cf))
  else if strcmp "udp_timeout"%string then apply (ipf_nat_udptq cf)
  else if strcmp "udp_ack_timeout"%string then apply (ipf_nat_udpacktq cf)
  else if strcmp "icmp_timeout"%string then apply (ipf_nat_icmptq cf)
  else if strcmp "icmp_ack_timeout"%string then apply (ipf_nat_icmpacktq cf)
  else if strcmp "ip_timeout"%string then apply (ipf_nat_iptq cf)
  else mret ESRCH.
Definition ipf_nat_add_tq (F : nat) (qalloc : option (loc * ipftq)) (ttl : Z) : ST W (option loc) :=
  nhp (ipf_addtimeoutqueue F qalloc ttl).

(** *** The table at the start *)

(** The timeouts of [ipf_nat_softc_t]. *)
Record nattimes := mk_nattimes { ipf_nat_defage : Z; ipf_nat_defipage : Z; ipf_nat_deficmpage : Z }.
(** The queues of [ipf_nat_soft_init]: a TCP queue lasts as long as [ipf_nat_deficmpage] at least. *)
Fixpoint floor_ttls (tqp : Z -> loc) (ttl : Z) (i : Z) (n : nat) : ST tqheap unit :=
  match n with
  | O => mret tt
  | S n =>
      t ← que ifq_ttl (tqp i);
      when_ (t <? ttl) (set_ttl (tqp i) ttl);;
      floor_ttls tqp ttl (i + 1) n
  end.
Definition init_nat_queues (c : timeouts) (t : nattimes) : ST tqheap unit :=
  ipf_sttab_init c (ipf_nat_tcptq cf);;
  set_ttl (ipf_nat_tcptq cf IPF_TCPS_CLOSED) (ipf_tcplastack c);;
  upd_que (ipf_nat_tcptq cf (IPF_TCP_NSTATES - 1)) (fun t => t <| ifq_next := Some (ipf_nat_udptq cf) |>);;
  init_queue (ipf_nat_udptq cf) (ipf_nat_defage t) (Some (ipf_nat_udpacktq cf));;
  init_queue (ipf_nat_udpacktq cf) (ipf_nat_defage t) (Some (ipf_nat_icmptq cf));;
  init_queue (ipf_nat_icmptq cf) (ipf_nat_deficmpage t) (Some (ipf_nat_icmpacktq cf));;
  init_queue (ipf_nat_icmpacktq cf) (ipf_nat_defage t) (Some (ipf_nat_iptq cf));;
  init_queue (ipf_nat_iptq cf) (ipf_nat_defipage t) (Some (ipf_nat_pending cf));;
  init_queue (ipf_nat_pending cf) 1 None;;
  floor_ttls (ipf_nat_tcptq cf) (ipf_nat_deficmpage t) 0 (Z.to_nat IPF_TCP_NSTATES);;
  set_ttl (ipf_nat_tcptq cf IPF_TCPS_CLOSED) (ipf_tcplastack c).
Definition ipf_nat_soft_init (c : timeouts) (t : nattimes) : ST W unit :=
  modify (fun w => w <| nw_table0 := fun _ => [] |> <| nw_table1 := fun _ => [] |> <| nw_maprules := fun _ => [] |>
    <| nw_rdrrules := fun _ => [] |> <| nw_hmtable := fun _ => [] |> <| nw_hmlist := [] |>
    <| ns_bucketlen0 := fun _ => 0 |> <| ns_bucketlen1 := fun _ => 0 |>);;
  nhp (init_nat_queues c t).
End Admin.
