(* ===== verification/NatInv.v ===== *)
(** Well-formed NAT tables (NatTable.v): each session of the table is in the list of
    sessions, in one chain of each of the two tables and on one timeout queue; the
    lengths of the buckets and the number of sessions are counted right; and host maps,
    rules and filter rules have at least as many references as there are sessions and host
    maps that refer to them.  Deleting, expiring and flushing sessions complete on such a
    table and leave a well-formed one.

    The rules are those without timeouts, proxies, rewriting or diverting of their own. *)
From S2P Require Import Prelude Packet Cksum Filter Timeoutq TcpAge Queues Sweeps TcpWindow State StateLookup StateInv.
From S2P Require Import NatTable NatNew NatXlate NatAdmin.

(** ** Well-formed tables *)

(** What may be different between two steps of an operation: a session that is not in
    the table yet or no longer ([md_draft]), which sessions are queued, by how much
    [ns_active] is ahead, whether the chains are complete, and how many references on
    host maps, rules and filter rules local variables hold (or, below 0, still have to
    take). *)
Record mode := mk_mode {
  md_draft : option loc; md_queued : loc -> Prop; md_ahead : Z; md_full : bool;
  md_hm : loc -> Z; md_rule : loc -> Z; md_fr : loc -> Z }.
#[export] Instance eta_mode : Eta mode := fun m =>
  mk_mode (md_draft m) (md_queued m) (md_ahead m) (md_full m) (md_hm m) (md_rule m) (md_fr m).
Definition none : loc -> Z := fun _ => 0.
(** One reference more, if there is one. *)
Definition plus (o : option loc) (n : Z) (d : loc -> Z) : loc -> Z := fun r => d r + n * b2z (bool_decide (o = Some r)).

Lemma hms_refl (m : gmap loc hostmap) y : match m !! y, m !! y with
  | Some h, Some h' => hm_ipnat h' = hm_ipnat h /\ hm_ref h <= hm_ref h' | None, None => True | _, _ => False end.
Proof. destruct (m !! y); [by split|done]. Qed.
(** A state that differs in nothing that the invariant sees. *)
Ltac nat_core := split; try done; first
  [ apply hms_refl | by intros r0 n0 Hn0 Hall0; apply (Hall0 r0) | intros r0 n0 Hn0; exists n0; by split | idtac ].

Section Inv.
Context {E : Type} `{nat_env E} (cf : natconf).
Abbreviation W := (natw E).
(** The references on rules that the list of rules and its buckets hold. *)
Context (own : loc -> Z) (Hown : forall r, 0 <= own r).

(** The queues of the table, in the order of their chain. *)
Definition nat_queues : list loc :=
  map (fun s => ipf_nat_tcptq cf (Z.of_nat s)) (seq 0 12) ++
  [ipf_nat_udptq cf; ipf_nat_udpacktq cf; ipf_nat_icmptq cf; ipf_nat_icmpacktq cf; ipf_nat_iptq cf; ipf_nat_pending cf].

(** The two sides of the table. *)
Definition tab (s : bool) (w : W) : Z -> list loc := if s then nw_table1 w else nw_table0 w.
Definition blen (s : bool) (w : W) : Z -> Z := if s then ns_bucketlen1 w else ns_bucketlen0 w.
Definition bucket (s : bool) (e : natt) : Z := if s then bucket1 cf e else bucket0 cf e.

Definition at_bucket (w : W) (s : bool) (i : Z) (x : loc) : bool :=
  match nw_nats w !! x with Some e => bucket s e =? i | None => false end.
(** How many sessions of the table refer to [r], and how many host maps were made for it. *)
Definition refers (f : natt -> option loc) (w : W) (r x : loc) : bool :=
  match nw_nats w !! x with Some e => bool_decide (f e = Some r) | None => false end.
Definition held (f : natt -> option loc) (w : W) (r : loc) : Z := count (refers f w r) (nw_instances w).
Definition hm_made (w : W) (r y : loc) : bool :=
  match nw_hms w !! y with Some h => bool_decide (hm_ipnat h = r) | None => false end.
Definition made (w : W) (r : loc) : Z := count (hm_made w r) (nw_hmlist w).

Definition simple_rule (n : ipnat) : Prop :=
  in_tqehead n = (None, None) /\ in_apr n = None /\ in_plabel n = -1 /\ has (in_redir n) NAT_DIVERTUDP = false /\ has (in_redir n) NAT_REWRITE = false.
Definition live_rule (n : ipnat) : Prop := simple_rule n /\ 1 <= in_use n.
Record session_ok (o : option loc) (w : W) (x : loc) (e : natt) : Prop := {
  se_listed : o <> Some x -> nat_listed e = true;
  se_ref : o <> Some x -> nat_ref e = 1 + b2z (bool_decide (is_Some (nat_me e)));
  se_me : forall v, nat_me e = Some v -> is_Some (nw_saved w !! v);
  se_aps : nat_aps e = None;
  se_dir : nat_dir e = NAT_INBOUND \/ nat_dir e = NAT_OUTBOUND }.
(** What [KMALLOC] will return is not in use. *)
Definition nat_fresh_allocs (w : W) : Prop :=
  NoDup (omap id (nw_allocs w)) /\
  forall x, Some x ∈ nw_allocs w -> nw_nats w !! x = None /\ ents (nw_heap w) !! x = None /\ nw_hms w !! x = None.

Record nat_ok (m : mode) (w : W) : Prop := {
  nk_size : 0 < ipf_nat_table_sz cf;
  nk_queues : queues_ok (fun q => q ∈ nat_queues) (nw_ticks w) (md_queued m) (nw_heap w);
  nk_user : parent_var (nw_heap w) = None;
  nk_qchain : queue_chain (nw_heap w) (head nat_queues) nat_queues;
  nk_ents : forall x, is_Some (nw_nats w !! x) -> is_Some (ents (nw_heap w) !! x);
  nk_session : forall x e, nw_nats w !! x = Some e -> session_ok (md_draft m) w x e;
  nk_nodup : NoDup (nw_instances w);
  nk_list : forall x, x ∈ nw_instances w <-> is_Some (nw_nats w !! x) /\ md_draft m <> Some x;
  nk_chain_nodup : forall s i, NoDup (tab s w i);
  nk_chain : forall s i x, x ∈ tab s w i -> x ∈ nw_instances w /\ at_bucket w s i x = true;
  nk_full : md_full m = true -> forall s i x, x ∈ nw_instances w -> at_bucket w s i x = true -> x ∈ tab s w i;
  nk_bucketlen : forall s i, blen s w i = count (at_bucket w s i) (nw_instances w);
  nk_active : ns_active w = Z.of_nat (length (nw_instances w)) + md_ahead m;
  nk_rules : forall r n, nw_rules w !! r = Some n -> live_rule n;
  nk_hmlist : NoDup (nw_hmlist w) /\ forall y, y ∈ nw_hmlist w <-> is_Some (nw_hms w !! y);
  nk_hm : forall y, 0 < held nat_hm w y + md_hm m y ->
    exists h, nw_hms w !! y = Some h /\ held nat_hm w y + md_hm m y <= hm_ref h;
  nk_rule : forall r, 0 < held nat_ptr w r + made w r + md_rule m r ->
    exists n, nw_rules w !! r = Some n /\ held nat_ptr w r + made w r + md_rule m r <= in_use n;
  nk_fr : forall r, 0 < held nat_fr w r + md_fr m r ->
    exists n, nw_frs w !! r = Some n /\ held nat_fr w r + md_fr m r <= n;
  nk_used : (forall y h, nw_hms w !! y = Some h -> 0 <= hm_ref h) /\ (forall r n, nw_frs w !! r = Some n -> 1 <= n);
  nk_allocs : nat_fresh_allocs w }.

(** A table between two operations ([full] is false while [ipf_nat_flushtable] runs). *)
Definition in_nat_table (w : W) (x : loc) : Prop := x ∈ nw_instances w.
Definition resting (full : bool) (w : W) : mode := mk_mode None (in_nat_table w) 0 full none own none.
Definition nat_table_ok (w : W) : Prop := nat_ok (resting true w) w.

(** *** Parts of the state that the invariant does not see *)

Record nat_same_core (w w' : W) : Prop := {
  sc_heap : nw_heap w' = nw_heap w; sc_nats : nw_nats w' = nw_nats w; sc_table0 : nw_table0 w' = nw_table0 w;
  sc_table1 : nw_table1 w' = nw_table1 w; sc_instances : nw_instances w' = nw_instances w;
  sc_blen0 : ns_bucketlen0 w' = ns_bucketlen0 w; sc_blen1 : ns_bucketlen1 w' = ns_bucketlen1 w;
  sc_active : ns_active w' = ns_active w; sc_hmlist : nw_hmlist w' = nw_hmlist w; sc_ticks : nw_ticks w' = nw_ticks w;
  sc_allocs : nw_allocs w' = nw_allocs w;
  sc_hms : forall y, match nw_hms w !! y, nw_hms w' !! y with
                     | Some h, Some h' => hm_ipnat h' = hm_ipnat h /\ hm_ref h <= hm_ref h'
                     | None, None => True | _, _ => False end;
  sc_saved : forall v, is_Some (nw_saved w !! v) -> is_Some (nw_saved w' !! v);
  sc_plain : forall r n', nw_rules w' !! r = Some n' -> (forall r n, nw_rules w !! r = Some n -> live_rule n) -> live_rule n';
  sc_uses : forall r n, nw_rules w !! r = Some n -> exists n', nw_rules w' !! r = Some n' /\ in_use n <= in_use n';
  sc_frpos : forall r n', nw_frs w' !! r = Some n' -> (forall r n, nw_frs w !! r = Some n -> 1 <= n) -> 1 <= n';
  sc_frs : forall r n, nw_frs w !! r = Some n -> exists n', nw_frs w' !! r = Some n' /\ n <= n' }.

Lemma nat_same_core_refl w : nat_same_core w w.
Proof. nat_core. Qed.
Lemma nat_same_core_trans w1 w2 w3 : nat_same_core w1 w2 -> nat_same_core w2 w3 -> nat_same_core w1 w3.
Proof.
  intros [] []. split; try congruence.
  - intros y. specialize (sc_hms0 y). specialize (sc_hms1 y).
    destruct (nw_hms w1 !! y), (nw_hms w2 !! y), (nw_hms w3 !! y); try done. destruct sc_hms0, sc_hms1. split; [congruence|lia].
  - auto.
  - intros r n Hn Hp. eapply sc_plain1; [exact Hn|]. intros r2 n2 Hn2. by eapply sc_plain0.
  - intros r n Hn. destruct (sc_uses0 r n Hn) as (n1 & Hn1 & ?). destruct (sc_uses1 r n1 Hn1) as (n2 & ? & ?).
    exists n2. split; [done|lia].
  - intros r n Hn Hp. eapply sc_frpos1; [exact Hn|]. intros r2 n2 Hn2. by eapply sc_frpos0.
  - intros r n Hn. destruct (sc_frs0 r n Hn) as (n1 & Hn1 & ?). destruct (sc_frs1 r n1 Hn1) as (n2 & ? & ?).
    exists n2. split; [done|lia].
Qed.
Lemma nat_same_core_tab w w' s : nat_same_core w w' -> tab s w' = tab s w /\ blen s w' = blen s w.
Proof. intros []. by destruct s. Qed.
Lemma nat_same_core_counts w w' : nat_same_core w w' ->
  (forall s i x, at_bucket w' s i x = at_bucket w s i x) /\ (forall f r, held f w' r = held f w r) /\ (forall r, made w' r = made w r).
Proof.
  intros Hs. pose proof Hs as [_ En _ _ Ei _ _ _ El _ _ Eh _ _ _ _ _]. split; [|split].
  - intros s i x. unfold at_bucket. by rewrite En.
  - intros f r. unfold held. rewrite Ei. apply count_ext. intros x _. unfold refers. by rewrite En.
  - intros r. unfold made. rewrite El. apply count_ext. intros y _. unfold hm_made. specialize (Eh y).
    destruct (nw_hms w !! y), (nw_hms w' !! y); try done. by destruct Eh as [-> _].
Qed.
Lemma hms_some w w' y : nat_same_core w w' -> is_Some (nw_hms w' !! y) <-> is_Some (nw_hms w !! y).
Proof. intros Hs. pose proof (sc_hms _ _ Hs y) as Hy. destruct (nw_hms w !! y), (nw_hms w' !! y); by try done; split; intros []. Qed.
Lemma nat_ok_same m w w' : nat_same_core w w' -> nat_ok m w -> nat_ok m w'.
Proof.
  intros Hs Ht. destruct (nat_same_core_counts _ _ Hs) as (Eb & Er & Em).
  assert (Et : forall s, tab s w' = tab s w /\ blen s w' = blen s w) by (intros s; by apply nat_same_core_tab).
  pose proof Hs as [E1 E2 _ _ E5 _ _ E8 E9 E10 E11 Eh Es Ep Eu Ef1 Ef].
  destruct Ht. split; rewrite ?E1, ?E2, ?E5, ?E8, ?E9, ?E10; try done.
  - intros x e He. destruct (nk_session0 x e He). by split; auto.
  - intros s i. rewrite (proj1 (Et s)). apply nk_chain_nodup0.
  - intros s i x. rewrite (proj1 (Et s)), Eb. apply nk_chain0.
  - intros Hf s i x. rewrite (proj1 (Et s)), Eb. by apply nk_full0.
  - intros s i. rewrite (proj2 (Et s)), nk_bucketlen0. by apply count_ext.
  - intros r n Hr. by eapply Ep.
  - split; [apply nk_hmlist0|]. intros y. rewrite (hms_some w w' y Hs). apply nk_hmlist0.
  - intros y. rewrite Er. intros Hp. destruct (nk_hm0 y Hp) as (h & Hh & ?). specialize (Eh y). rewrite Hh in Eh.
    destruct (nw_hms w' !! y) as [h'|]; [|done]. destruct Eh. exists h'. split; [done|lia].
  - intros r. rewrite Er, Em. intros Hp. destruct (nk_rule0 r Hp) as (n & Hn & ?). destruct (Eu r n Hn) as (n' & ? & ?).
    exists n'. split; [done|lia].
  - intros r. rewrite Er. intros Hp. destruct (nk_fr0 r Hp) as (n & Hn & ?). destruct (Ef r n Hn) as (n' & ? & ?).
    exists n'. split; [done|lia].
  - destruct nk_used0 as [Hu1 Hu2]. split; [|intros r n Hr; by eapply Ef1]. intros y h' Hh. specialize (Eh y). rewrite Hh in Eh.
    destruct (nw_hms w !! y) as [h|] eqn:Hy; [|done]. destruct Eh. specialize (Hu1 y h Hy). lia.
  - destruct nk_allocs0 as [? Ha]. unfold nat_fresh_allocs. rewrite E11, E1, E2. split; [done|]. intros x Hx. destruct (Ha x Hx) as (? & ? & Hn).
    split_and!; try done. specialize (Eh x). rewrite Hn in Eh. by destruct (nw_hms w' !! x).
Qed.
Lemma nat_table_ok_same w w' : nat_same_core w w' -> nat_table_ok w -> nat_table_ok w'.
Proof.
  intros Hs Ht. apply (nat_ok_same _ w w' Hs) in Ht. unfold nat_table_ok, resting, in_nat_table in *. by rewrite (sc_instances _ _ Hs).
Qed.

(** *** The mode *)

Lemma nat_ok_mode m m' w : md_draft m' = md_draft m -> (forall x, md_queued m x <-> md_queued m' x) -> md_ahead m' = md_ahead m ->
  (md_full m' = true -> md_full m = true) -> (forall r, md_hm m' r <= md_hm m r) -> (forall r, md_rule m' r <= md_rule m r) ->
  (forall r, md_fr m' r <= md_fr m r) -> nat_ok m w -> nat_ok m' w.
Proof.
  intros E1 Eq Ea Ef Eh Er Efr []. split; rewrite ?E1, ?Ea; try done; auto.
  - by eapply queues_ok_ext.
  - intros y Hy. specialize (Eh y). destruct (nk_hm0 y) as (h & ? & ?); [lia|]. exists h. split; [done|lia].
  - intros r Hr. specialize (Er r). destruct (nk_rule0 r) as (n & ? & ?); [lia|]. exists n. split; [done|lia].
  - intros r Hr. specialize (Efr r). destruct (nk_fr0 r) as (n & ? & ?); [lia|]. exists n. split; [done|lia].
Qed.
Lemma plus_none n d r : plus None n d r = d r.
Proof. unfold plus. rewrite bool_decide_false by done. cbn. lia. Qed.
Lemma plus_eq x n d : plus (Some x) n d x = d x + n.
Proof. unfold plus. rewrite bool_decide_true by done. cbn. lia. Qed.
Lemma plus_ne o x n d : o <> Some x -> plus o n d x = d x.
Proof. intros Hx. unfold plus. rewrite bool_decide_false by done. cbn. lia. Qed.

(** *** Counting references *)

Lemma refers_ext f w w' r x : nw_nats w' !! x = nw_nats w !! x -> refers f w' r x = refers f w r x.
Proof. unfold refers. by intros ->. Qed.
Lemma at_bucket_ext w w' s i x : nw_nats w' !! x = nw_nats w !! x -> at_bucket w' s i x = at_bucket w s i x.
Proof. unfold at_bucket. by intros ->. Qed.
Lemma refers_plus f w x e r : nw_nats w !! x = Some e -> b2z (refers f w r x) = plus (f e) 1 none r.
Proof. intros He. unfold refers, plus, none. rewrite He. lia. Qed.
Lemma held_upd f w w' r x : NoDup (nw_instances w) -> x ∈ nw_instances w -> nw_instances w' = nw_instances w ->
  (forall y, y <> x -> nw_nats w' !! y = nw_nats w !! y) ->
  held f w' r = held f w r + b2z (refers f w' r x) - b2z (refers f w r x).
Proof.
  intros Hn Hx Ei Ho. unfold held. rewrite Ei. apply count_upd; [done|done|]. intros y Hy. symmetry. by apply refers_ext, Ho.
Qed.
Lemma held_same f w w' r : nw_instances w' = nw_instances w ->
  (forall x, x ∈ nw_instances w -> nw_nats w' !! x = nw_nats w !! x) -> held f w' r = held f w r.
Proof. intros Ei Ho. unfold held. rewrite Ei. apply count_ext. intros x Hx. by apply refers_ext, Ho. Qed.
Lemma held_nonneg f w r : 0 <= held f w r.
Proof. apply count_nonneg. Qed.
Lemma made_nonneg w r : 0 <= made w r.
Proof. apply count_nonneg. Qed.
Lemma made_same (w w' : W) r : nw_hmlist w' = nw_hmlist w -> nw_hms w' = nw_hms w -> made w' r = made w r.
Proof. intros E1 E2. unfold made, hm_made. by rewrite E1, E2. Qed.
Lemma count_without {A} (P : positive -> bool) x (l : list positive) (a : A) : NoDup l -> x ∈ l ->
  count P (without x l) = count P l - b2z (P x).
Proof.
  intros Hn (l1 & l2 & ->)%list_elem_of_split. rewrite without_mid by (by apply mid_notin). rewrite !count_app, count_cons. lia.
Qed.

(** *** The heap of queues *)

Definition queue_op {A} (m : ST tqheap A) : Prop := forall I, stable (fun _ => True) I -> keeps I m.
Definition queue_step (h h' : tqheap) : Prop := forall I, stable (fun _ => True) I -> I h -> I h'.
Lemma nat_ok_heap m (w : W) K' h' : nat_ok m w -> queue_step (nw_heap w) h' ->
  queues_ok (fun q => q ∈ nat_queues) (nw_ticks w) K' h' -> nat_ok (m <| md_queued := K' |>) (w <| nw_heap := h' |>).
Proof.
  intros [] Hk Hq. split; try done.
  - by apply (Hk _ (stable_parent _)).
  - by apply (Hk _ (stable_chain _ _)).
  - intros x Hx. apply (Hk _ (stable_present x)). by apply nk_ents0.
  - intros x e Hx. destruct (nk_session0 x e Hx). by split.
  - destruct nk_allocs0 as [? Ha]. split; [done|]. intros x Hx. destruct (Ha x Hx) as (? & ? & ?). split_and!; try done.
    by apply (Hk _ (stable_absent x)).
Qed.
Lemma queue_op_step {A} (m : ST tqheap A) h a h' : queue_op m -> m h = Some (a, h') -> queue_step h h'.
Proof. intros Hm Hr I HI Hh. by apply (wlp_run _ _ _ _ _ (Hm I HI h Hh) Hr). Qed.

(** *** Updates of a session *)

(** What the invariant sees of a session. *)
Record same_links (e e' : natt) : Prop := {
  sl_listed : nat_listed e' = nat_listed e; sl_me : nat_me e' = nat_me e; sl_ref : nat_ref e' = nat_ref e;
  sl_aps : nat_aps e' = nat_aps e; sl_dir : nat_dir e' = nat_dir e; sl_hv0 : nat_hv0 e' = nat_hv0 e;
  sl_hv1 : nat_hv1 e' = nat_hv1 e; sl_hm : nat_hm e' = nat_hm e; sl_ptr : nat_ptr e' = nat_ptr e; sl_fr : nat_fr e' = nat_fr e }.
Definition set_nat (x : loc) (f : natt -> natt) (w : W) : W := w <| nw_nats ::= alter f x |>.
Lemma set_nat_other x f w y : y <> x -> nw_nats (set_nat x f w) !! y = nw_nats w !! y.
Proof. intros Hy. cbn. by rewrite lookup_alter_ne by congruence. Qed.
Lemma set_nat_at x f w e : nw_nats w !! x = Some e -> nw_nats (set_nat x f w) !! x = Some (f e).
Proof. intros He. by apply lookup_alter_Some_eq. Qed.
Lemma set_nat_some x f w y : is_Some (nw_nats (set_nat x f w) !! y) <-> is_Some (nw_nats w !! y).
Proof. apply alter_some. Qed.
Lemma fresh_set_nat x f w : nat_fresh_allocs w -> nat_fresh_allocs (set_nat x f w).
Proof.
  intros [Hn Hf]. split; [done|]. intros y Hy. destruct (Hf y Hy) as (Hs & ? & ?). split_and!; try done. cbn.
  by rewrite lookup_alter_None.
Qed.
(** An update that keeps the hash values and references of a session, and keeps it well-formed. *)
Lemma nat_ok_set m w x f :
  (forall e, nw_nats w !! x = Some e -> (md_draft m <> Some x -> (forall s, bucket s (f e) = bucket s e) /\
     nat_hm (f e) = nat_hm e /\ nat_ptr (f e) = nat_ptr e /\ nat_fr (f e) = nat_fr e) /\
     (session_ok (md_draft m) w x e -> session_ok (md_draft m) w x (f e))) ->
  nat_ok m w -> nat_ok m (set_nat x f w).
Proof.
  intros Hf Ht. set (w' := set_nat x f w).
  assert (Hb : forall s i y, y ∈ nw_instances w -> at_bucket w' s i y = at_bucket w s i y).
  { intros s i y [[e He] Hd]%(nk_list _ _ Ht). unfold at_bucket. destruct (decide (y = x)) as [->|Hy].
    - unfold w'. rewrite (set_nat_at _ _ _ _ He), He. destruct (Hf e He) as [Hl _]. destruct (Hl Hd) as [-> _]. done.
    - unfold w'. by rewrite set_nat_other. }
  assert (Hh : forall g r, (forall e, nw_nats w !! x = Some e -> md_draft m <> Some x -> g (f e) = g e) -> held g w' r = held g w r).
  { intros g r Hg. unfold held. change (nw_instances w') with (nw_instances w). apply count_ext.
    intros y [[e He] Hd]%(nk_list _ _ Ht). unfold refers. destruct (decide (y = x)) as [->|Hy].
    - unfold w'. rewrite (set_nat_at _ _ _ _ He), He. by rewrite Hg.
    - unfold w'. by rewrite set_nat_other. }
  pose proof Ht as Ht'. destruct Ht. split; try done.
  - intros y Hy. apply set_nat_some in Hy. auto.
  - intros y e' He'. unfold w' in He'. cbn in He'. apply lookup_alter_cases in He' as [(-> & e & He & ->)|[Hne He]].
    + destruct (Hf e He) as [_ Hs]. specialize (Hs (nk_session0 x e He)). by destruct Hs; split.
    + destruct (nk_session0 y e' He). by split.
  - intros y. unfold w'. rewrite set_nat_some. apply nk_list0.
  - intros s i y Hy. assert (Hy' : y ∈ tab s w i) by (by destruct s). destruct (nk_chain0 s i y Hy') as [Hi Ha].
    split; [done|]. by rewrite Hb.
  - intros Hfl s i y Hy Ha. assert (Hy' : y ∈ tab s w i); [|by destruct s]. apply nk_full0; [done|done|]. by rewrite <- Hb.
  - intros s i. transitivity (blen s w i); [by destruct s|]. rewrite nk_bucketlen0. apply count_ext. intros y Hy. by rewrite Hb.
  - intros y. rewrite Hh; [apply nk_hm0|]. intros e He Hd. by apply Hf.
  - intros r. rewrite Hh, (made_same w w'); [apply nk_rule0|done|done|]. intros e He Hd. by apply Hf.
  - intros r. rewrite Hh; [apply nk_fr0|]. intros e He Hd. by apply Hf.
  - by apply fresh_set_nat.
Qed.
Lemma session_ok_links o w x e e' : same_links e e' -> session_ok o w x e -> session_ok o w x e'.
Proof. intros [El Em Er Ea Ed _ _ _ _ _] []. split; rewrite ?El, ?Em, ?Er, ?Ea, ?Ed; done. Qed.
Lemma bucket_links e e' s : same_links e e' -> bucket s e' = bucket s e.
Proof. intros []. destruct s; unfold bucket, bucket0, bucket1; congruence. Qed.
Lemma nat_ok_links m w x f : (forall e, nw_nats w !! x = Some e -> same_links e (f e)) -> nat_ok m w -> nat_ok m (set_nat x f w).
Proof.
  intros Hf. apply nat_ok_set. intros e He. specialize (Hf e He). split; [|by apply session_ok_links].
  intros _. split; [intros s; by apply bucket_links|]. by destruct Hf.
Qed.
(** Any update of a session that is not in the table. *)
Lemma nat_ok_draft m w x f : md_draft m = Some x ->
  (forall e, nw_nats w !! x = Some e -> nat_aps (f e) = nat_aps e /\ nat_dir (f e) = nat_dir e /\
     forall v, nat_me (f e) = Some v -> nat_me e = Some v \/ is_Some (nw_saved w !! v)) ->
  nat_ok m w -> nat_ok m (set_nat x f w).
Proof.
  intros Hd Hf. apply nat_ok_set. intros e He. destruct (Hf e He) as (Ha & Hdir & Hm). split; [by intros|].
  intros []. split; try done; [|by rewrite Ha|by rewrite Hdir].
  intros v Hv. destruct (Hm v Hv) as [?|?]; auto.
Qed.

(** *** Into the table and out of it *)

(** The references of a session are counted, or are local again ([n] is -1 or 1). *)
Definition shift (n : Z) (e : natt) (m : mode) : mode :=
  m <| md_hm ::= plus (nat_hm e) n |> <| md_rule ::= plus (nat_ptr e) n |> <| md_fr ::= plus (nat_fr e) n |>.
Definition set_listed (b : bool) (e : natt) : natt := e <| nat_listed := b |>.

Definition linked (x : loc) (e : natt) (w : W) : W :=
  set_nat x (set_listed true) w <| nw_instances ::= cons x |>
    <| nw_table0 ::= upd_at (bucket0 cf e) (cons x) |> <| ns_bucketlen0 ::= upd_at (bucket0 cf e) (fun n => n + 1) |>
    <| nw_table1 ::= upd_at (bucket1 cf e) (cons x) |> <| ns_bucketlen1 ::= upd_at (bucket1 cf e) (fun n => n + 1) |>.
Lemma tab_linked x e w s : tab s (linked x e w) = upd_at (bucket s e) (cons x) (tab s w).
Proof. by destruct s. Qed.
Lemma blen_linked x e w s : blen s (linked x e w) = upd_at (bucket s e) (fun n => n + 1) (blen s w).
Proof. by destruct s. Qed.

Lemma plus_neg f (e : natt) d r : plus (f e) (-1) d r = d r - plus (f e) 1 none r.
Proof. unfold plus, none. lia. Qed.
Lemma plus_pos f (e : natt) d r : plus (f e) 1 d r = d r + plus (f e) 1 none r.
Proof. unfold plus, none. lia. Qed.

Lemma nat_ok_link m w x e : md_draft m = Some x -> nw_nats w !! x = Some e -> nat_ref e = 1 + b2z (bool_decide (is_Some (nat_me e))) ->
  nat_ok m w -> nat_ok (shift (-1) e (m <| md_draft := None |> <| md_ahead ::= fun a => a - 1 |>)) (linked x e w).
Proof.
  intros Hd He Href Ht. set (w' := linked x e w).
  assert (Hx : x ∉ nw_instances w) by (intros [_ Hn]%(nk_list _ _ Ht); done).
  assert (Hx' : nw_nats w' !! x = Some (set_listed true e)) by by apply set_nat_at.
  assert (Hot : forall y, y <> x -> nw_nats w' !! y = nw_nats w !! y) by (intros; by apply set_nat_other).
  assert (Hb : forall s i y, y ∈ nw_instances w -> at_bucket w' s i y = at_bucket w s i y).
  { intros s i y Hy. apply at_bucket_ext, Hot. by intros ->. }
  assert (Hbx : forall s i, at_bucket w' s i x = (bucket s e =? i)) by (intros s i; unfold at_bucket; rewrite Hx'; by destruct s).
  assert (Hh : forall f r, f (set_listed true e) = f e -> held f w' r = held f w r + plus (f e) 1 none r).
  { intros f r Hf. unfold held. change (nw_instances w') with (x :: nw_instances w). rewrite count_cons.
    rewrite (refers_plus f w' x _ r Hx'), Hf. rewrite (count_ext (refers f w' r) (refers f w r)); [lia|].
    intros y Hy. apply refers_ext, Hot. by intros ->. }
  destruct Ht. split; try done.
  - intros y Hy. apply set_nat_some in Hy. auto.
  - intros y e' He'. destruct (decide (y = x)) as [->|Hy].
    + rewrite Hx' in He'. injection He' as <-. destruct (nk_session0 x e He). by split.
    + rewrite Hot in He' by done. destruct (nk_session0 y e' He') as [Hl Hr ? ? ?].
      split; try done; intros _; [apply Hl|apply Hr]; rewrite Hd; congruence.
  - by apply NoDup_cons.
  - intros y. change (nw_instances w') with (x :: nw_instances w). rewrite elem_of_cons, nk_list0.
    destruct (decide (y = x)) as [->|Hy]; [rewrite Hx'; split; [by split; [eexists|]|by left]|].
    rewrite Hot by done. rewrite Hd. split; [intros [?|[? ?]]; [done|by split]|intros [? _]; right; split; [done|congruence]].
  - intros s i. unfold w'. rewrite tab_linked. unfold upd_at. destruct (i =? bucket s e); [|done]. apply NoDup_cons.
    split; [by intros [? _]%nk_chain0|done].
  - intros s i y Hy. unfold w' in Hy. rewrite tab_linked in Hy. change (nw_instances w') with (x :: nw_instances w).
    assert (Hold : y ∈ tab s w i -> y ∈ x :: nw_instances w /\ at_bucket w' s i y = true).
    { intros [Hi Ha]%nk_chain0. split; [by right|by rewrite Hb]. }
    destruct (decide (i = bucket s e)) as [->|Hi]; [|rewrite upd_at_ne in Hy by done; auto].
    rewrite upd_at_eq in Hy. apply elem_of_cons in Hy as [->|Hy]; [|auto]. split; [by left|]. rewrite Hbx. apply Z.eqb_refl.
  - intros Hfl s i y Hy Ha. unfold w'. rewrite tab_linked. change (nw_instances w') with (x :: nw_instances w) in Hy.
    apply elem_of_cons in Hy as [->|Hy].
    + rewrite Hbx in Ha. apply Z.eqb_eq in Ha as ->. rewrite upd_at_eq. by left.
    + rewrite Hb in Ha by done. specialize (nk_full0 Hfl s i y Hy Ha).
      destruct (decide (i = bucket s e)) as [->|Hi]; [rewrite upd_at_eq; by right|by rewrite upd_at_ne].
  - intros s i. unfold w' at 1. rewrite blen_linked. change (nw_instances w') with (x :: nw_instances w).
    rewrite count_cons, Hbx, (count_ext _ (at_bucket w s i)) by (intros; by apply Hb). rewrite <- nk_bucketlen0.
    destruct (decide (i = bucket s e)) as [->|Hi]; [rewrite upd_at_eq, Z.eqb_refl; cbn; lia|].
    rewrite upd_at_ne by done. rewrite (proj2 (Z.eqb_neq _ _)) by congruence. cbn. lia.
  - cbn. rewrite nk_active0. lia.
  - intros y. rewrite (Hh nat_hm) by done. cbn [md_hm shift]. cbn. rewrite plus_neg. intros Hy.
    destruct (nk_hm0 y) as (h & ? & ?); [lia|]. exists h. split; [done|lia].
  - intros r. rewrite (Hh nat_ptr), (made_same w w') by done. cbn. rewrite plus_neg. intros Hr.
    destruct (nk_rule0 r) as (n & ? & ?); [lia|]. exists n. split; [done|lia].
  - intros r. rewrite (Hh nat_fr) by done. cbn. rewrite plus_neg. intros Hr.
    destruct (nk_fr0 r) as (n & ? & ?); [lia|]. exists n. split; [done|lia].
  - by apply fresh_set_nat.
Qed.

Definition unlinked (x : loc) (e : natt) (w : W) : W :=
  set_nat x (set_listed false) w <| nw_instances ::= without x |>
    <| nw_table0 := fun i => without x (nw_table0 w i) |> <| nw_table1 := fun i => without x (nw_table1 w i) |>
    <| ns_bucketlen0 ::= upd_at (bucket0 cf e) (fun n => n - 1) |> <| ns_bucketlen1 ::= upd_at (bucket1 cf e) (fun n => n - 1) |>.
Lemma tab_unlinked x e w s i : tab s (unlinked x e w) i = without x (tab s w i).
Proof. by destruct s. Qed.
Lemma blen_unlinked x e w s : blen s (unlinked x e w) = upd_at (bucket s e) (fun n => n - 1) (blen s w).
Proof. by destruct s. Qed.
Lemma nat_ok_unlink m w x e : md_draft m = None -> nw_nats w !! x = Some e ->
  nat_ok m w -> nat_ok (shift 1 e (m <| md_draft := Some x |> <| md_ahead ::= fun a => a + 1 |>)) (unlinked x e w).
Proof.
  intros Hd He Ht. set (w' := unlinked x e w).
  assert (Hx : x ∈ nw_instances w) by (apply (nk_list _ _ Ht); split; [by eexists|by rewrite Hd]).
  assert (Hot : forall y, y <> x -> nw_nats w' !! y = nw_nats w !! y) by (intros; by apply set_nat_other).
  assert (Hx' : nw_nats w' !! x = Some (set_listed false e)) by by apply set_nat_at.
  assert (Hb : forall s i y, y <> x -> at_bucket w' s i y = at_bucket w s i y) by (intros s i y Hy; apply at_bucket_ext; auto).
  assert (Hin : forall y, y ∈ nw_instances w' <-> y ∈ nw_instances w /\ y <> x) by (intros y; apply elem_without).
  pose proof (nk_nodup _ _ Ht) as Hn.
  assert (Hcount : forall P P' : loc -> bool, (forall y, y <> x -> P' y = P y) ->
    count P' (nw_instances w') = count P (nw_instances w) - b2z (P x)).
  { intros P P' HP. change (nw_instances w') with (without x (nw_instances w)). rewrite <- (count_without P x _ x) by done.
    apply count_ext. intros y [_ Hy]%elem_without. auto. }
  assert (Hh : forall f r, held f w' r = held f w r - plus (f e) 1 none r).
  { intros f r. unfold held. rewrite (Hcount (refers f w r)); [by rewrite (refers_plus f w x e r He)|].
    intros y Hy. apply refers_ext. auto. }
  destruct Ht. split; try done.
  - intros y Hy. apply set_nat_some in Hy. auto.
  - intros y e' He'. destruct (decide (y = x)) as [->|Hy].
    + rewrite Hx' in He'. injection He' as <-. destruct (nk_session0 x e He). by split.
    + rewrite Hot in He' by done. destruct (nk_session0 y e' He') as [Hl Hr ? ? ?]. rewrite Hd in *.
      split; try done; intros _; [by apply Hl|by apply Hr].
  - by apply without_NoDup.
  - intros y. rewrite Hin, nk_list0, Hd. cbn. destruct (decide (y = x)) as [->|Hy].
    + split; [by intros [_ ?]|by intros [_ ?]].
    + rewrite Hot by done. split; [intros [[? _] _]; split; [done|congruence]|intros [? _]; by split_and!].
  - intros s i. unfold w'. rewrite tab_unlinked. by apply without_NoDup.
  - intros s i y. unfold w' at 1. rewrite tab_unlinked, elem_without, Hin. intros [[Hi Ha]%nk_chain0 Hy].
    split; [by split|]. by rewrite Hb.
  - intros Hfl s i y [Hi Hy]%Hin Ha. unfold w'. rewrite tab_unlinked, elem_without. split; [|done].
    rewrite Hb in Ha by done. by apply nk_full0.
  - intros s i. unfold w' at 1. rewrite blen_unlinked.
    rewrite (Hcount (at_bucket w s i)) by auto. rewrite <- nk_bucketlen0.
    assert (Ha : at_bucket w s i x = (bucket s e =? i)) by (unfold at_bucket; by rewrite He). rewrite Ha.
    destruct (decide (i = bucket s e)) as [->|Hi]; [rewrite upd_at_eq, Z.eqb_refl; cbn; lia|].
    rewrite upd_at_ne by done. rewrite (proj2 (Z.eqb_neq _ _)) by congruence. cbn. lia.
  - change (ns_active w') with (ns_active w). change (nw_instances w') with (without x (nw_instances w)).
    rewrite length_without, nk_active0 by done. cbn. lia.
  - intros y. rewrite Hh. cbn. rewrite (plus_pos nat_hm e (md_hm m)). intros Hy.
    destruct (nk_hm0 y) as (h & ? & ?); [lia|]. exists h. split; [done|lia].
  - intros r. rewrite Hh, (made_same w w') by done. cbn. rewrite (plus_pos nat_ptr e (md_rule m)). intros Hr.
    destruct (nk_rule0 r) as (n & ? & ?); [lia|]. exists n. split; [done|lia].
  - intros r. rewrite Hh. cbn. rewrite (plus_pos nat_fr e (md_fr m)). intros Hr.
    destruct (nk_fr0 r) as (n & ? & ?); [lia|]. exists n. split; [done|lia].
  - by apply fresh_set_nat.
Qed.

(** *** Memory *)

Definition unused (x : loc) (w : W) : Prop :=
  nw_nats w !! x = None /\ ents (nw_heap w) !! x = None /\ nw_hms w !! x = None /\ Some x ∉ nw_allocs w.
Lemma fresh_alloc a l (w : W) : nw_allocs w = a :: l -> nat_fresh_allocs w ->
  nat_fresh_allocs (w <| nw_allocs := l |>) /\ forall x, a = Some x -> unused x (w <| nw_allocs := l |>).
Proof.
  intros El [Hn Hf]. rewrite El in *. split.
  - split; [|intros x Hx; apply Hf; by right]. cbn. by destruct a; [apply NoDup_cons in Hn as [_ ?]|].
  - intros x ->. destruct (Hf x) as (? & ? & ?); [by left|]. split_and!; try done. cbn.
    cbn in Hn. apply NoDup_cons in Hn as [Hx _]. intros Hx'. apply Hx, list_elem_of_omap. by exists (Some x).
Qed.
Lemma nat_ok_alloc m a l (w : W) : nw_allocs w = a :: l -> nat_ok m w ->
  nat_ok m (w <| nw_allocs := l |>) /\ forall x, a = Some x -> unused x (w <| nw_allocs := l |>).
Proof.
  intros El Ht. destruct (fresh_alloc a l w El (nk_allocs _ _ Ht)) as [Hf Hu]. split; [|done].
  destruct Ht. split; try done. intros x e He. by destruct (nk_session0 x e He); split.
Qed.
Lemma wlp_nkmalloc m Q (w : W) : nat_ok m w ->
  (forall l, nat_ok m (w <| nw_allocs := l |>) -> Q None (w <| nw_allocs := l |>)) ->
  (forall l x, nat_ok m (w <| nw_allocs := l |>) -> unused x (w <| nw_allocs := l |>) -> Q (Some x) (w <| nw_allocs := l |>)) ->
  wlp nkmalloc Q w.
Proof.
  intros Ht H0 H1. unfold wpg, nkmalloc. destruct (nw_allocs w) as [|a l] eqn:El.
  - replace w with (w <| nw_allocs := [] |>) by (rewrite <- El; by destruct w). apply H0.
    replace (w <| nw_allocs := [] |>) with w by (rewrite <- El; by destruct w). done.
  - destruct (nat_ok_alloc m a l w El Ht) as [Hw Hu]. destruct a as [x|]; auto.
Qed.

Lemma nat_ok_create m (w : W) x e t : nat_ok m w -> md_draft m = None -> unused x w -> session_ok (Some x) w x e ->
  used_states (tqe_state0 t, tqe_state1 t) -> has (tqe_flags t) TQE_RULEBASED = false -> tqe_ifq t = None ->
  nat_ok (m <| md_draft := Some x |>)
    (w <| nw_nats ::= <[x := e]> |> <| nw_heap ::= fun h => h <| ents ::= <[x := t]> |> |>).
Proof.
  intros Ht Hd (Hn & He & Hh & Ha) Hse Hu Hfl Hi. set (w' := w <| nw_nats ::= _ |> <| nw_heap ::= _ |>).
  assert (Hx : x ∉ nw_instances w) by (intros [[e' He'] _]%(nk_list _ _ Ht); congruence).
  assert (Hot : forall y, y <> x -> nw_nats w' !! y = nw_nats w !! y) by (intros y Hy; cbn; by rewrite lookup_insert_ne by congruence).
  assert (Hin : forall y, y ∈ nw_instances w -> nw_nats w' !! y = nw_nats w !! y) by (intros y Hy; apply Hot; by intros ->).
  assert (Hb : forall s i y, y ∈ nw_instances w -> at_bucket w' s i y = at_bucket w s i y) by (intros; apply at_bucket_ext; auto).
  assert (Hhl : forall f r, held f w' r = held f w r) by (intros; by apply held_same).
  destruct Ht. split; try done.
  - by apply qok_create.
  - intros y. cbn. rewrite !lookup_insert_is_Some. intros [->|[? ?]]; [by left|right]. split; [done|auto].
  - intros y e'. cbn. intros [[<- <-]|[Hne He']]%lookup_insert_Some; [by destruct Hse; split|].
    destruct (nk_session0 y e' He') as [Hl Hr ? ? ?]. rewrite Hd in *. split; try done; intros _; [by apply Hl|by apply Hr].
  - intros y. change (nw_instances w') with (nw_instances w). rewrite nk_list0, Hd. cbn [md_draft]. split.
    + intros [Hy _]. assert (y <> x) by (intros ->; by rewrite Hn in Hy; destruct Hy). rewrite Hot by done. split; [done|cbn; congruence].
    + intros [Hy Hne]. split; [|done]. rewrite Hot in Hy; [done|]. intros ->. by apply Hne.
  - intros s i y Hy. assert (Hy' : y ∈ tab s w i) by by destruct s. destruct (nk_chain0 s i y Hy') as [? ?]. split; [done|]. by rewrite Hb.
  - intros Hf s i y Hy Hay. rewrite Hb in Hay by done. assert (y ∈ tab s w i) by by apply nk_full0. by destruct s.
  - intros s i. transitivity (blen s w i); [by destruct s|]. rewrite nk_bucketlen0. apply count_ext. intros y Hy. by rewrite Hb.
  - intros y. rewrite Hhl. apply nk_hm0.
  - intros r. rewrite Hhl, (made_same w w') by done. apply nk_rule0.
  - intros r. rewrite Hhl. apply nk_fr0.
  - destruct nk_allocs0 as [? Hfr]. split; [done|]. intros y Hy. change (Some y ∈ nw_allocs w) in Hy. destruct (Hfr y Hy) as (? & ? & ?).
    assert (y <> x) by (intros ->; done). cbn. by rewrite !lookup_insert_ne by congruence.
Qed.

Definition freed (x : loc) (w : W) : W := w <| nw_nats ::= delete x |> <| nw_heap ::= fun h => h <| ents ::= delete x |> |>.
Lemma nat_ok_free m (w : W) x : nat_ok m w -> md_draft m = Some x -> ~ md_queued m x ->
  nat_ok (m <| md_draft := None |>) (freed x w).
Proof.
  intros Ht Hd Hq. set (w' := freed x w).
  assert (Hx : x ∉ nw_instances w) by (intros [_ ?]%(nk_list _ _ Ht); done).
  assert (Hot : forall y, y <> x -> nw_nats w' !! y = nw_nats w !! y) by (intros y Hy; cbn; by rewrite lookup_delete_ne by congruence).
  assert (Hin : forall y, y ∈ nw_instances w -> nw_nats w' !! y = nw_nats w !! y) by (intros y Hy; apply Hot; by intros ->).
  assert (Hb : forall s i y, y ∈ nw_instances w -> at_bucket w' s i y = at_bucket w s i y) by (intros; apply at_bucket_ext; auto).
  assert (Hhl : forall f r, held f w' r = held f w r) by (intros; by apply held_same).
  destruct Ht. split; try done.
  - by apply qok_free.
  - intros y. cbn. intros [e [Hne He]%lookup_delete_Some]. rewrite lookup_delete_ne by done. apply nk_ents0. by eexists.
  - intros y e. cbn. intros [Hne He]%lookup_delete_Some. destruct (nk_session0 y e He) as [Hl Hr ? ? ?]. rewrite Hd in *.
    split; try done; intros _; [apply Hl|apply Hr]; congruence.
  - intros y. change (nw_instances w') with (nw_instances w). rewrite nk_list0, Hd. cbn [md_draft]. split.
    + intros [Hy Hne]. assert (y <> x) by congruence. by rewrite Hot.
    + intros [Hy _]. assert (y <> x). { intros ->. cbn in Hy. rewrite lookup_delete_eq in Hy. by destruct Hy. }
      rewrite Hot in Hy by done. split; [done|congruence].
  - intros s i y Hy. assert (Hy' : y ∈ tab s w i) by by destruct s. destruct (nk_chain0 s i y Hy') as [? ?]. split; [done|]. by rewrite Hb.
  - intros Hf s i y Hy Hay. rewrite Hb in Hay by done. assert (y ∈ tab s w i) by by apply nk_full0. by destruct s.
  - intros s i. transitivity (blen s w i); [by destruct s|]. rewrite nk_bucketlen0. apply count_ext. intros y Hy. by rewrite Hb.
  - intros y. rewrite Hhl. apply nk_hm0.
  - intros r. rewrite Hhl, (made_same w w') by done. apply nk_rule0.
  - intros r. rewrite Hhl. apply nk_fr0.
  - destruct nk_allocs0 as [? Hfr]. split; [done|]. intros y Hy. change (Some y ∈ nw_allocs w) in Hy. destruct (Hfr y Hy) as (? & ? & ?).
    cbn. split_and!; [by apply lookup_delete_None; right|by apply lookup_delete_None; right|done].
Qed.

(** *** References *)

(** What taking and giving up references leaves alone. *)
Record still (w w' : W) : Prop := {
  st_heap : nw_heap w' = nw_heap w; st_nats : nw_nats w' = nw_nats w; st_table0 : nw_table0 w' = nw_table0 w;
  st_table1 : nw_table1 w' = nw_table1 w; st_instances : nw_instances w' = nw_instances w;
  st_blen0 : ns_bucketlen0 w' = ns_bucketlen0 w; st_blen1 : ns_bucketlen1 w' = ns_bucketlen1 w;
  st_active : ns_active w' = ns_active w; st_ticks : nw_ticks w' = nw_ticks w; st_doflush : nw_doflush w' = nw_doflush w;
  st_saved : nw_saved w' = nw_saved w; st_list : nw_list w' = nw_list w; st_fin : nw_fin w' = nw_fin w }.
Lemma still_refl w : still w w.
Proof. done. Qed.
Lemma still_trans w1 w2 w3 : still w1 w2 -> still w2 w3 -> still w1 w3.
Proof. intros [] []. split; congruence. Qed.

(** The references of a rule, a filter rule or a host map change by [n]. *)
Lemma nat_ok_rules m (w : W) mr d : nat_ok m w -> (forall r n, mr !! r = Some n -> live_rule n) ->
  (forall r, 0 < held nat_ptr w r + made w r + d r -> exists n, mr !! r = Some n /\ held nat_ptr w r + made w r + d r <= in_use n) ->
  nat_ok (m <| md_rule := d |>) (w <| nw_rules := mr |>).
Proof. intros [] Hp Hr. split; try done. intros x e He. by destruct (nk_session0 x e He); split. Qed.
Lemma nat_ok_frs m (w : W) mr d : nat_ok m w -> (forall r n, mr !! r = Some n -> 1 <= n) ->
  (forall r, 0 < held nat_fr w r + d r -> exists n, mr !! r = Some n /\ held nat_fr w r + d r <= n) ->
  nat_ok (m <| md_fr := d |>) (w <| nw_frs := mr |>).
Proof.
  intros [] H1 Hr. split; try done; [intros x e He; by destruct (nk_session0 x e He); split|]. split; [apply nk_used0|done].
Qed.
Lemma nat_ok_hms m (w : W) mh hl d dr : nat_ok m w -> NoDup hl -> (forall y, y ∈ hl <-> is_Some (mh !! y)) ->
  (forall y, 0 < held nat_hm w y + d y -> exists h, mh !! y = Some h /\ held nat_hm w y + d y <= hm_ref h) ->
  (forall r, made (w <| nw_hms := mh |> <| nw_hmlist := hl |>) r + dr r = made w r + md_rule m r) ->
  (forall y, Some y ∈ nw_allocs w -> mh !! y = None) -> (forall y h, mh !! y = Some h -> 0 <= hm_ref h) ->
  nat_ok (m <| md_hm := d |> <| md_rule := dr |>) (w <| nw_hms := mh |> <| nw_hmlist := hl |>).
Proof.
  intros [] Hn Hl Hh Hm Ha H1. split; try done.
  - intros x e He. by destruct (nk_session0 x e He); split.
  - intros r. change (held nat_ptr (w <| nw_hms := mh |> <| nw_hmlist := hl |>) r) with (held nat_ptr w r).
    change (md_rule (m <| md_hm := d |> <| md_rule := dr |>)) with dr. specialize (nk_rule0 r). specialize (Hm r).
    intros Hr. destruct nk_rule0 as (n & ? & ?); [lia|]. exists n. split; [done|lia].
  - split; [done|apply nk_used0].
  - destruct nk_allocs0 as [? Hf]. split; [done|]. intros y Hy. destruct (Hf y Hy) as (? & ? & _). auto.
Qed.

Lemma plus_le o d r : plus o (-1) d r <= d r.
Proof. unfold plus. pose proof (b2z_range (bool_decide (o = Some r))). lia. Qed.
Lemma plus_back o n d r : plus o (- n) (plus o n d) r = d r.
Proof. unfold plus. lia. Qed.

Lemma nst_run x (w : W) e : nw_nats w !! x = Some e -> nst x w = Some (e, w).
Proof. intros He. unfold nst. by rewrite He. Qed.
Lemma upd_nat_run x f (w : W) e : nw_nats w !! x = Some e -> upd_nat x f w = Some (tt, set_nat x f w).
Proof. intros He. unfold upd_nat. by rewrite He. Qed.
Lemma same_core_next f (w : W) : nat_same_core w (w <| nw_ext ::= f |>).
Proof. nat_core. Qed.
Lemma still_next f (w : W) : still w (w <| nw_ext ::= f |>).
Proof. done. Qed.

(** [ipf_nat_rule_deref] of a rule that somebody refers to. *)
Definition ext_only (w w' : W) : Prop := exists f, w' = w <| nw_ext ::= f |>.
Lemma ext_only_core w w' : ext_only w w' -> nat_same_core w w' /\ still w w'.
Proof. intros [f ->]. split; [apply same_core_next|apply still_next]. Qed.
Lemma ext_only_refl w : ext_only w w.
Proof. exists id. by destruct w. Qed.
Lemma ext_only_trans w1 w2 w3 : ext_only w1 w2 -> ext_only w2 w3 -> ext_only w1 w3.
Proof. intros [f ->] [g ->]. by exists (fun e => g (f e)). Qed.
Lemma deref_atype_run a (w : W) : exists w', deref_atype a w = Some (tt, w') /\ ext_only w w'.
Proof. destruct a; eexists; (split; [done|]); [apply ext_only_refl|by eexists|apply ext_only_refl]. Qed.
Lemma deref_ptr_run p (w : W) : exists w', deref_ptr p w = Some (tt, w') /\ ext_only w w'.
Proof. destruct p; eexists; (split; [done|]); [by eexists|apply ext_only_refl]. Qed.
Lemma rule_fini_run n (w : W) : exists w', ipf_nat_rule_fini n w = Some (tt, w') /\ ext_only w w'.
Proof.
  unfold ipf_nat_rule_fini. destruct (deref_atype_run (in_odstatype n) w) as (w1 & R1 & X1). rewrite (bind_eq _ _ _ _ _ R1).
  destruct (deref_atype_run (in_osrcatype n) w1) as (w2 & R2 & X2). rewrite (bind_eq _ _ _ _ _ R2).
  destruct (deref_ptr_run (in_ndstptr n) w2) as (w3 & R3 & X3). rewrite (bind_eq _ _ _ _ _ R3).
  destruct (deref_ptr_run (in_nsrcptr n) w3) as (w4 & R4 & X4). exists w4. split; [done|]. eauto using ext_only_trans.
Qed.
Lemma nat_rule_deref_run m (w : W) r n : nat_ok m w -> nw_rules w !! r = Some n ->
  exists w', ipf_nat_rule_deref r w = Some (tt, w') /\ nat_ok (m <| md_rule ::= plus (Some r) (-1) |>) w' /\
    still w w' /\ nw_hms w' = nw_hms w /\ nw_hmlist w' = nw_hmlist w /\ nw_frs w' = nw_frs w /\ nw_allocs w' = nw_allocs w.
Proof.
  intros Ht Hr. destruct (nk_rules _ _ Ht r n Hr) as ((Hq & Hap & _) & Hu1). unfold ipf_nat_rule_deref.
  set (f := fun n : ipnat => n <| in_use ::= fun u => u - 1 |>). set (w1 := w <| nw_rules ::= alter f r |>).
  rewrite (bind_eq _ _ _ tt w1) by (unfold upd_rule; by rewrite Hr).
  assert (Hr1 : nw_rules w1 !! r = Some (f n)) by by apply lookup_alter_Some_eq.
  rewrite (bind_eq _ _ _ (f n) w1) by (unfold rule; by rewrite Hr1).
  assert (Hd : forall s, plus (Some r) (-1) (md_rule m) s <= md_rule m s) by (intros; apply plus_le).
  assert (Hpl : forall s n', nw_rules w1 !! s = Some n' -> s = r \/ live_rule n').
  { cbn. intros s n' [(-> & n0 & Hn0 & ->)|[_ Hs]]%lookup_alter_cases; [by left|right; by apply (nk_rules _ _ Ht s)]. }
  assert (Huse : forall s, s <> r -> 0 < held nat_ptr w s + made w s + plus (Some r) (-1) (md_rule m) s ->
    exists n', nw_rules w1 !! s = Some n' /\ held nat_ptr w s + made w s + plus (Some r) (-1) (md_rule m) s <= in_use n').
  { intros s Hs Hp. rewrite plus_ne in * by congruence. destruct (nk_rule _ _ Ht s Hp) as (n' & ? & ?).
    exists n'. split; [|done]. cbn. by rewrite lookup_alter_ne. }
  assert (Hru : held nat_ptr w r + made w r + plus (Some r) (-1) (md_rule m) r <= Z.max 0 (in_use (f n))).
  { rewrite plus_eq. cbn. destruct (decide (0 < held nat_ptr w r + made w r + md_rule m r)) as [Hp|]; [|lia].
    destruct (nk_rule _ _ Ht r Hp) as (n' & ? & ?). simplify_eq. lia. }
  destruct (in_use (f n) >? 0) eqn:Eu; breflect.
  - exists w1. split; [done|]. split; [|done]. apply (nat_ok_rules m w); [done|intros s n' Hs; destruct (Hpl s n' Hs) as [->|?]; [|done]; change (nw_rules w1 !! r = Some n') in Hs; assert (n' = f n) as -> by congruence; split; [exact (proj1 (nk_rules _ _ Ht r n Hr))|lia]|].
    intros s Hp. destruct (decide (s = r)) as [->|Hs]; [|by apply Huse]. exists (f n). split; [done|lia].
  - change (in_apr (f n)) with (in_apr n). rewrite Hap. rewrite (bind_eq _ _ _ tt w1) by done.
    destruct (rule_fini_run (f n) w1) as (w2 & R2 & X2). rewrite (bind_eq _ _ _ _ _ R2).
    change (in_tqehead (f n)) with (in_tqehead n). rewrite Hq. cbn [fst snd].
    rewrite (bind_eq _ _ _ tt w2) by done. rewrite (bind_eq _ _ _ tt w2) by done.
    assert (X : exists k, when_ (negb (has (in_flags (f n)) IPN_PROXYRULE)) (modify (fun w => w <| ns_rules ::= fun k => k - 1 |>)) w2 =
      Some (tt, w2 <| ns_rules := k |>)).
    { destruct (has _ _); [exists (ns_rules w2); by destruct w2|by eexists]. }
    destruct X as [k X]. rewrite (bind_eq _ _ _ _ _ X). eexists. split; [done|]. destruct X2 as [g ->]. split; [|done].
    assert (Ha : nat_ok (m <| md_rule ::= plus (Some r) (-1) |>) (w <| nw_rules := delete r (nw_rules w1) |>)).
    { apply (nat_ok_rules m w); [done|intros s n' [Hne Hs]%lookup_delete_Some; by destruct (Hpl s n' Hs)|].
      intros s Hp. destruct (decide (s = r)) as [->|Hs]; [lia|]. rewrite lookup_delete_ne by done. by apply Huse. }
    eapply nat_ok_same; [|exact Ha]. nat_core.
Qed.

Lemma deref_fr_run m (w : W) r : nat_ok m w -> 0 < held nat_fr w r + md_fr m r ->
  exists w', deref_fr r w = Some (tt, w') /\ nat_ok (m <| md_fr ::= plus (Some r) (-1) |>) w' /\ still w w'.
Proof.
  intros Ht Hp. destruct (nk_fr _ _ Ht r Hp) as (n & Hn & Hle). unfold deref_fr.
  rewrite (bind_eq _ _ _ w w eq_refl), (bind_eq _ _ _ n w) by (unfold need; by rewrite Hn).
  eexists. split; [done|]. split; [|by destruct (n - 1 =? 0)].
  set (mr := if n - 1 =? 0 then delete r (nw_frs w) else <[r := n - 1]> (nw_frs w)).
  assert (Ha : nat_ok (m <| md_fr ::= plus (Some r) (-1) |>) (w <| nw_frs := mr |>)).
  { apply (nat_ok_frs m w); [done| |].
    { unfold mr. intros s n0 Hs. destruct (n - 1 =? 0) eqn:E0; breflect.
      - apply lookup_delete_Some in Hs as [_ Hs]. by eapply (proj2 (nk_used _ _ Ht)).
      - apply lookup_insert_Some in Hs as [[_ <-]|[_ Hs]]; [|by eapply (proj2 (nk_used _ _ Ht))].
        pose proof (proj2 (nk_used _ _ Ht) r n Hn). lia. }
    intros s Hs. destruct (decide (s = r)) as [->|Hne].
    - rewrite plus_eq in *. unfold mr. destruct (n - 1 =? 0) eqn:E0; breflect; [lia|]. exists (n - 1).
      split; [by rewrite lookup_insert_eq|lia].
    - rewrite plus_ne in * by congruence. destruct (nk_fr _ _ Ht s Hs) as (n' & ? & ?). exists n'. split; [|done].
      unfold mr. destruct (n - 1 =? 0); [by rewrite lookup_delete_ne|by rewrite lookup_insert_ne]. }
  unfold mr in Ha. cbn. destruct (n - 1 =? 0); exact Ha.
Qed.

Lemma made_in (w : W) y h : NoDup (nw_hmlist w) -> y ∈ nw_hmlist w -> nw_hms w !! y = Some h -> 0 < made w (hm_ipnat h).
Proof.
  intros Hn (l1 & l2 & El)%list_elem_of_split Hy. unfold made. rewrite El, count_app, count_cons.
  assert (hm_made w (hm_ipnat h) y = true) as -> by (unfold hm_made; rewrite Hy; by apply bool_decide_eq_true_2).
  pose proof (count_nonneg (hm_made w (hm_ipnat h)) l1). pose proof (count_nonneg (hm_made w (hm_ipnat h)) l2). cbn. lia.
Qed.
(** [ipf_nat_hostmapdel] of a host map that somebody refers to. *)
Lemma hostmapdel_run m (w : W) y : nat_ok m w -> (forall r, 0 <= md_rule m r) -> 0 < held nat_hm w y + md_hm m y ->
  exists w', ipf_nat_hostmapdel y w = Some (tt, w') /\ nat_ok (m <| md_hm ::= plus (Some y) (-1) |>) w' /\ still w w'.
Proof.
  intros Ht Hd Hc. destruct (nk_hm _ _ Ht y Hc) as (h & Hy & Hle). unfold ipf_nat_hostmapdel.
  set (f := fun h : hostmap => h <| hm_ref ::= fun n => n - 1 |>). set (w1 := w <| nw_hms ::= alter f y |>).
  rewrite (bind_eq _ _ _ tt w1) by (unfold upd_hm; by rewrite Hy).
  assert (Hy1 : nw_hms w1 !! y = Some (f h)) by by apply lookup_alter_Some_eq.
  rewrite (bind_eq _ _ _ (f h) w1) by (unfold hmst; by rewrite Hy1).
  destruct (nk_hmlist _ _ Ht) as [Hnd Hl].
  assert (Hmade : forall r, made w1 r = made w r).
  { intros r. apply count_ext. intros z _. unfold hm_made, w1. cbn. destruct (decide (z = y)) as [->|Hz].
    - by rewrite (lookup_alter_Some_eq _ _ _ _ Hy), Hy.
    - by rewrite lookup_alter_ne by congruence. }
  assert (T1 : nat_ok (m <| md_hm ::= plus (Some y) (-1) |>) w1).
  { change (nat_ok (m <| md_hm := plus (Some y) (-1) (md_hm m) |> <| md_rule := md_rule m |>)
      (w <| nw_hms := alter f y (nw_hms w) |> <| nw_hmlist := nw_hmlist w |>)).
    apply (nat_ok_hms m w (alter f y (nw_hms w)) (nw_hmlist w) (plus (Some y) (-1) (md_hm m)) (md_rule m)); [done|done| | | | |].
    - intros z. rewrite alter_some. apply Hl.
    - intros z Hz. destruct (decide (z = y)) as [->|Hne].
      + rewrite plus_eq in *. exists (f h). split; [done|]. destruct (nk_hm _ _ Ht y) as (h' & ? & ?); [lia|]. simplify_eq. cbn. lia.
      + rewrite plus_ne in * by congruence. rewrite lookup_alter_ne by congruence. by apply (nk_hm _ _ Ht).
    - intros r. by rewrite <- (Hmade r).
    - intros z Hz. rewrite lookup_alter_None. by apply (nk_allocs _ _ Ht).
    - intros z h' [(-> & h0 & Hz & ->)|[_ Hz]]%lookup_alter_cases; [simplify_eq; cbn; lia|by eapply (proj1 (nk_used _ _ Ht))]. }
  destruct (Z.eqb_spec (hm_ref (f h)) 0) as [E0|E0]; cbn [when_]; [|by exists w1].
  assert (Hin : y ∈ nw_hmlist w1) by (apply Hl; by eexists).
  change (hm_ipnat (f h)) with (hm_ipnat h). set (r := hm_ipnat h).
  assert (Hmr : 0 < made w1 r) by (by apply (made_in w1 y (f h))).
  destruct (nk_rule _ _ T1 r) as (n & Hn & _).
  { pose proof (held_nonneg nat_ptr w1 r). specialize (Hd r). change (md_rule (m <| md_hm ::= plus (Some y) (-1) |>)) with (md_rule m). lia. }
  destruct (nat_rule_deref_run _ w1 r n T1 Hn) as (w2 & R2 & T2 & S2 & Eh & El & _ & Ea). rewrite (bind_eq _ _ _ _ _ R2).
  eexists. split; [done|].
  assert (Hcnt : forall s, made (w2 <| nw_hms := delete y (nw_hms w2) |> <| nw_hmlist := without y (nw_hmlist w2) |>) s =
    made w1 s - b2z (bool_decide (r = s))).
  { intros s. unfold made. cbn. rewrite El.
    transitivity (count (hm_made w1 s) (without y (nw_hmlist w1))).
    - apply count_ext. intros z [_ Hz]%elem_without. unfold hm_made. cbn. rewrite lookup_delete_ne by congruence. by rewrite Eh.
    - rewrite (count_without _ y _ y Hnd Hin). unfold hm_made at 2. by rewrite Hy1. }
  assert (T3 : nat_ok (m <| md_hm ::= plus (Some y) (-1) |>)
    (w2 <| nw_hms := delete y (nw_hms w2) |> <| nw_hmlist := without y (nw_hmlist w2) |>)).
  { apply (nat_ok_hms _ w2 (delete y (nw_hms w2)) (without y (nw_hmlist w2)) (plus (Some y) (-1) (md_hm m)) (md_rule m)) in T2; [exact T2|..].
    - rewrite El. by apply without_NoDup.
    - intros z. rewrite El, Eh, elem_without. rewrite (Hl z : z ∈ nw_hmlist w1 <-> _).
      unfold is_Some. setoid_rewrite lookup_delete_Some. split.
      + intros [[h0 Hz] Hne]. exists h0. split; [congruence|]. cbn. by rewrite lookup_alter_ne by congruence.
      + intros (h0 & Hne & Hz). cbn in Hz. rewrite lookup_alter_ne in Hz by congruence. split; [by eexists|congruence].
    - intros z Hz. assert (Hh : held nat_hm w2 z = held nat_hm w z).
      { apply held_same; [exact (st_instances _ _ S2)|]. intros. exact (f_equal (.!! x) (st_nats _ _ S2)). }
      rewrite Hh in Hz |- *. destruct (decide (z = y)) as [->|Hne].
      + rewrite plus_eq in Hz. destruct (nk_hm _ _ Ht y) as (h' & ? & ?); [lia|]. simplify_eq. cbn in E0. lia.
      + rewrite plus_ne in * by congruence. rewrite lookup_delete_ne by congruence. rewrite Eh. cbn. rewrite lookup_alter_ne by congruence.
        by apply (nk_hm _ _ Ht).
    - intros s. rewrite Hcnt. change (md_rule (m <| md_hm ::= plus (Some y) (-1) |> <| md_rule ::= plus (Some r) (-1) |>) s)
        with (plus (Some r) (-1) (md_rule m) s). rewrite (made_same w1 w2) by done. unfold plus.
      rewrite (bool_decide_ext (Some r = Some s) (r = s)) by (split; congruence). lia.
    - intros z Hz. apply lookup_delete_None. right. rewrite Eh. apply (nk_allocs _ _ T1). by rewrite <- Ea.
    - intros z h' [_ Hz]%lookup_delete_Some. rewrite Eh in Hz. by eapply (proj1 (nk_used _ _ T1)). }
  split; [|by destruct S2; split].
  eapply nat_ok_same; [|exact T3]. nat_core.
Qed.

(** *** Deleting a session *)

(** Only [x] and what it refers to changes. *)
Record beside (x : loc) (w w' : W) : Prop := {
  bs_heap : nw_heap w' = nw_heap w; bs_nats : forall y, y <> x -> nw_nats w' !! y = nw_nats w !! y;
  bs_table0 : nw_table0 w' = nw_table0 w; bs_table1 : nw_table1 w' = nw_table1 w;
  bs_instances : nw_instances w' = nw_instances w; bs_ticks : nw_ticks w' = nw_ticks w;
  bs_doflush : nw_doflush w' = nw_doflush w; bs_list : nw_list w' = nw_list w; bs_fin : nw_fin w' = nw_fin w }.
Lemma beside_refl x w : beside x w w.
Proof. done. Qed.
Lemma beside_trans x w1 w2 w3 : beside x w1 w2 -> beside x w2 w3 -> beside x w1 w3.
Proof. intros [] []. split; try congruence. intros y Hy. by rewrite bs_nats1, bs_nats0. Qed.
Lemma still_beside x w w' : still w w' -> beside x w w'.
Proof. intros []. split; try done. intros y _. by rewrite st_nats0. Qed.
Lemma set_nat_beside x f w : beside x w (set_nat x f w).
Proof. split; try done. intros y Hy. by apply set_nat_other. Qed.

Lemma forget_nat_me_run b K a d1 d2 d3 (w : W) x e : let m := mk_mode (Some x) K a b d1 d2 d3 in
  nat_ok m w -> nw_nats w !! x = Some e -> nat_ref e = 1 + b2z (bool_decide (is_Some (nat_me e))) ->
  exists w' e', forget_nat_me x w = Some (tt, w') /\ nat_ok m w' /\ nw_nats w' !! x = Some e' /\ beside x w w' /\
    nat_ref e' = 1 /\ nat_hm e' = nat_hm e /\ nat_ptr e' = nat_ptr e /\ nat_fr e' = nat_fr e.
Proof.
  intros m Ht He Href. unfold forget_nat_me. rewrite (bind_eq _ _ _ _ _ (nst_run _ _ _ He)).
  destruct (nat_me e) as [v|] eqn:Ev; [|by exists w, e].
  rewrite (bind_eq _ _ _ w w eq_refl). destruct (se_me _ _ _ _ (nk_session _ _ Ht x e He) v Ev) as [o Ho].
  rewrite (bind_eq _ _ _ o w) by (unfold need; by rewrite Ho). rewrite (bind_eq _ _ _ tt _ eq_refl).
  set (w1 := w <| nw_saved ::= <[v := None]> |>).
  assert (T1 : nat_ok m w1).
  { eapply nat_ok_same; [|exact Ht]. nat_core.
    intros u Hu. apply lookup_insert_is_Some'. by right. }
  rewrite (upd_nat_run x _ w1 e He). eexists _, _. split; [done|].
  split; [apply nat_ok_draft; [done| |done]; intros e0 _; split_and!; try done|].
  split; [by apply set_nat_at|]. split; [|by cbn in *; split_and!; try done; lia].
  eapply beside_trans; [|apply set_nat_beside]. done.
Qed.

(** The three kinds of references that a session gives up. *)
Lemma drop_fr_run m (w : W) x e : nat_ok m w -> md_draft m = Some x -> nw_nats w !! x = Some e ->
  (forall r, md_fr m r = plus (nat_fr e) 1 none r) ->
  exists w' e', (match nat_fr e with Some r => upd_nat x (fun e => e <| nat_fr := None |>);; deref_fr r | None => mret tt end) w = Some (tt, w') /\
    nat_ok (m <| md_fr := none |>) w' /\ nw_nats w' !! x = Some e' /\ beside x w w' /\ nat_hm e' = nat_hm e /\ nat_ptr e' = nat_ptr e /\
    nat_aps e' = nat_aps e.
Proof.
  intros Ht Hd He Hm. destruct (nat_fr e) as [r|] eqn:Er.
  2: { exists w, e. split; [done|]. split; [|done]. eapply nat_ok_mode; [..|exact Ht]; try done. intros r. rewrite Hm, plus_none. done. }
  rewrite (bind_eq _ _ _ _ _ (upd_nat_run x _ w e He)). set (w1 := set_nat x _ w).
  assert (T1 : nat_ok m w1) by (apply nat_ok_draft; [done| |done]; intros e0 _; split_and!; auto).
  destruct (deref_fr_run m w1 r T1) as (w2 & R2 & T2 & S2).
  { pose proof (held_nonneg nat_fr w1 r). rewrite Hm, plus_eq. unfold none. lia. }
  exists w2, (e <| nat_fr := None |>). split; [done|].
  split; [eapply nat_ok_mode; [..|exact T2]; try done; intros s; cbn; unfold plus at 1; rewrite Hm; unfold plus, none; lia|].
  split; [rewrite (st_nats _ _ S2); by apply set_nat_at|]. split; [|done].
  eapply beside_trans; [apply set_nat_beside|by apply still_beside].
Qed.
Lemma drop_hm_run m (w : W) x e : nat_ok m w -> md_draft m = Some x -> nw_nats w !! x = Some e -> (forall r, 0 <= md_rule m r) ->
  (forall r, md_hm m r = plus (nat_hm e) 1 none r) ->
  exists w' e', (match nat_hm e with Some h => upd_nat x (fun e => e <| nat_hm := None |>);; ipf_nat_hostmapdel h | None => mret tt end) w = Some (tt, w') /\
    nat_ok (m <| md_hm := none |>) w' /\ nw_nats w' !! x = Some e' /\ beside x w w' /\ nat_ptr e' = nat_ptr e /\ nat_aps e' = nat_aps e.
Proof.
  intros Ht Hd He Hr Hm. destruct (nat_hm e) as [h|] eqn:Eh.
  2: { exists w, e. split; [done|]. split; [|done]. eapply nat_ok_mode; [..|exact Ht]; try done. intros r. rewrite Hm, plus_none. done. }
  rewrite (bind_eq _ _ _ _ _ (upd_nat_run x _ w e He)). set (w1 := set_nat x _ w).
  assert (T1 : nat_ok m w1) by (apply nat_ok_draft; [done| |done]; intros e0 _; split_and!; auto).
  destruct (hostmapdel_run m w1 h T1 Hr) as (w2 & R2 & T2 & S2).
  { pose proof (held_nonneg nat_hm w1 h). rewrite Hm, plus_eq. unfold none. lia. }
  exists w2, (e <| nat_hm := None |>). split; [done|].
  split; [eapply nat_ok_mode; [..|exact T2]; try done; intros s; cbn; unfold plus at 1; rewrite Hm; unfold plus, none; lia|].
  split; [rewrite (st_nats _ _ S2); by apply set_nat_at|]. split; [|done].
  eapply beside_trans; [apply set_nat_beside|by apply still_beside].
Qed.
Lemma drop_rule_run m (w : W) x e : nat_ok m w -> md_draft m = Some x -> nw_nats w !! x = Some e ->
  (forall r, md_rule m r = plus (nat_ptr e) 1 own r) ->
  exists w' e', (match nat_ptr e with
      | Some r => upd_nat x (fun e => e <| nat_ptr := None |>);; upd_rule r (fun n => n <| in_space ::= fun k => k + 1 |>);; ipf_nat_rule_deref r
      | None => mret tt end) w = Some (tt, w') /\
    nat_ok (m <| md_rule := own |>) w' /\ nw_nats w' !! x = Some e' /\ beside x w w' /\ nat_aps e' = nat_aps e.
Proof.
  intros Ht Hd He Hm. destruct (nat_ptr e) as [r|] eqn:Er.
  2: { exists w, e. split; [done|]. split; [|done]. eapply nat_ok_mode; [..|exact Ht]; try done. intros r. rewrite Hm, plus_none. done. }
  rewrite (bind_eq _ _ _ _ _ (upd_nat_run x _ w e He)). set (w1 := set_nat x _ w).
  assert (T1 : nat_ok m w1) by (apply nat_ok_draft; [done| |done]; intros e0 _; split_and!; auto).
  destruct (nk_rule _ _ T1 r) as (n & Hn & _).
  { pose proof (held_nonneg nat_ptr w1 r). pose proof (made_nonneg w1 r). rewrite Hm, plus_eq. specialize (Hown r). lia. }
  set (f := fun n : ipnat => n <| in_space ::= fun k => k + 1 |>). set (w2 := w1 <| nw_rules ::= alter f r |>).
  rewrite (bind_eq _ _ _ tt w2) by (unfold upd_rule; by rewrite Hn).
  assert (T2 : nat_ok m w2).
  { eapply nat_ok_same; [|exact T1]. split; try done; [apply hms_refl|..].
    - intros s n' [(-> & n0 & Hs & ->)|[_ Hs]]%lookup_alter_cases Hp; [exact (Hp r n0 Hs)|by eapply Hp].
    - intros s n' Hs. destruct (decide (s = r)) as [->|Hne].
      + exists (f n'). cbn. by rewrite (lookup_alter_Some_eq _ _ _ _ Hs).
      + exists n'. cbn. by rewrite lookup_alter_ne by congruence.
    - intros s n' Hs Hall. by apply (Hall s).
    - intros s n' Hs. exists n'. by split. }
  destruct (nat_rule_deref_run m w2 r (f n) T2) as (w3 & R3 & T3 & S3 & _); [by apply lookup_alter_Some_eq|].
  exists w3, (e <| nat_ptr := None |>). split; [done|].
  split; [eapply nat_ok_mode; [..|exact T3]; try done; intros s; cbn; unfold plus at 1; rewrite Hm; unfold plus, none; lia|].
  split; [rewrite (st_nats _ _ S3); by apply set_nat_at|]. split; [|done].
  eapply beside_trans; [apply set_nat_beside|]. apply (beside_trans x w1 w2 w3); [done|by apply still_beside].
Qed.

Lemma free_nat_run b K (w : W) x e : nat_ok (shift 1 e (mk_mode (Some x) K 1 b none own none)) w -> ~ K x ->
  nw_nats w !! x = Some e ->
  exists w', free_nat x w = Some (tt, w') /\ nat_ok (mk_mode None K 0 b none own none) w' /\
    (exists w0, beside x w w0 /\ nw_nats w' = delete x (nw_nats w0) /\ nw_heap w' = nw_heap w <| ents ::= delete x |> /\
       nw_table0 w' = nw_table0 w0 /\ nw_table1 w' = nw_table1 w0 /\ nw_instances w' = nw_instances w0 /\
       nw_ticks w' = nw_ticks w0 /\ nw_doflush w' = nw_doflush w0 /\ nw_list w' = nw_list w0 /\ nw_fin w' = nw_fin w0).
Proof.
  intros Ht HK He. unfold free_nat. rewrite (bind_eq _ _ _ _ _ (upd_nat_run x _ w e He)). set (f := fun e : natt => e <| nat_ref := 0 |>).
  set (m := shift 1 e _) in *. set (w1 := set_nat x f w).
  assert (T1 : nat_ok m w1) by (apply nat_ok_draft; [done| |done]; intros e0 _; split_and!; auto).
  assert (He1 : nw_nats w1 !! x = Some (f e)) by by apply set_nat_at.
  rewrite (bind_eq _ _ _ _ _ (nst_run _ _ _ He1)).
  assert (X : exists k, when_ (has (nat_flags (f e)) SI_WILDP) (modify (fun w => w <| ns_wilds ::= fun n => u32 (n - 1) |>)) w1 =
    Some (tt, w1 <| ns_wilds := k |>)).
  { destruct (has _ _); [by eexists|exists (ns_wilds w1); by destruct w1]. }
  destruct X as [k X]. rewrite (bind_eq _ _ _ _ _ X). set (w2 := w1 <| ns_wilds := k |>).
  assert (T2 : nat_ok m w2).
  { eapply nat_ok_same; [|exact T1]. nat_core. }
  destruct (drop_fr_run m w2 x (f e) T2 eq_refl He1) as (w3 & e3 & R3 & T3 & He3 & B3 & Eh3 & Ep3 & Ea3); [done|].
  rewrite (bind_eq _ _ _ _ _ R3). rewrite <- Eh3.
  destruct (drop_hm_run _ w3 x e3 T3 eq_refl He3) as (w4 & e4 & R4 & T4 & He4 & B4 & Ep4 & Ea4).
  { intros r. cbn. unfold plus. pose proof (b2z_range (bool_decide (nat_ptr e = Some r))). specialize (Hown r). lia. }
  { intros r. rewrite Eh3. done. }
  rewrite (bind_eq _ _ _ _ _ R4). rewrite <- Ep3, <- Ep4.
  destruct (drop_rule_run _ w4 x e4 T4 eq_refl He4) as (w5 & e5 & R5 & T5 & He5 & B5 & Ea5).
  { intros r. rewrite Ep4, Ep3. done. }
  rewrite (bind_eq _ _ _ _ _ R5).
  replace (nat_aps (f e)) with (@None loc) by (symmetry; exact (se_aps _ _ _ _ (nk_session _ _ Ht x e He))).
  rewrite (bind_eq _ _ _ tt w5) by done. rewrite (bind_eq _ _ _ tt _ eq_refl), (bind_eq _ _ _ tt _ eq_refl).
  set (w6 := w5 <| ns_active ::= fun n => n - 1 |>). set (w7 := w6 <| nw_ext ::= nenv_frag_natforget x |>).
  assert (T6 : nat_ok (mk_mode (Some x) K 0 b none own none) w6).
  { assert (T : nat_ok (mk_mode (Some x) K 1 b none own none) w5) by (eapply nat_ok_mode; [..|exact T5]; done).
    destruct T. split; try done; [intros y e0 He0; by destruct (nk_session0 y e0 He0); split|]. cbn. rewrite nk_active0. cbn. lia. }
  assert (T7 : nat_ok (mk_mode (Some x) K 0 b none own none) w7) by (eapply nat_ok_same; [apply same_core_next|exact T6]).
  eexists. split; [done|]. split; [exact (nat_ok_free _ w7 x T7 eq_refl HK)|].
  exists w5. split; [|split_and!; try done].
  - apply (beside_trans x w w1); [apply set_nat_beside|]. apply (beside_trans x w1 w2); [done|].
    apply (beside_trans x w2 w3 w5 B3), (beside_trans x w3 w4 w5 B4), B5.
  - cbn. by rewrite (bs_heap _ _ _ B5), (bs_heap _ _ _ B4), (bs_heap _ _ _ B3).
Qed.

(** [ipf_nat_delete] on a session of the table. *)
Lemma unlink_nat_run x (w : W) e : nw_nats w !! x = Some e ->
  exists k, unlink_nat cf x w = Some (tt, unlinked x e w <| ns_wilds := k |>).
Proof.
  intros He. unfold unlink_nat. rewrite (bind_eq _ _ _ _ _ (nst_run _ _ _ He)), (bind_eq _ _ _ tt _ eq_refl), (bind_eq _ _ _ tt _ eq_refl).
  erewrite bind_eq by by eapply upd_nat_run. rewrite (bind_eq _ _ _ tt _ eq_refl), (bind_eq _ _ _ tt _ eq_refl).
  destruct (has (nat_flags e) SI_WILDP); cbn [when_]; eexists; [done|].
  instantiate (1 := ns_wilds w). done.
Qed.

(** The sessions [D] left the table, and the others are as they were. *)
Record nat_gone (D : list loc) (w w' : W) : Prop := {
  ng_ticks : nw_ticks w' = nw_ticks w; ng_doflush : nw_doflush w' = nw_doflush w; ng_list : nw_list w' = nw_list w;
  ng_nats : forall y, y ∉ D -> nw_nats w' !! y = nw_nats w !! y;
  ng_timing : forall y, y ∉ D -> timing (nw_heap w') y = timing (nw_heap w) y;
  ng_tab : forall s i, tab s w' i = minus D (tab s w i);
  ng_instances : nw_instances w' = minus D (nw_instances w);
  ng_queue : forall q l, q ∈ nat_queues -> queue (nw_heap w) q l -> queue (nw_heap w') q (minus D l) }.
Lemma nat_gone_refl w : nat_gone [] w w.
Proof. split; try done; intros; by rewrite minus_nil. Qed.
Lemma nat_gone_trans D D' w1 w2 w3 : nat_gone D w1 w2 -> nat_gone D' w2 w3 -> nat_gone (D ++ D') w1 w3.
Proof.
  intros [] []. split; try congruence.
  - intros y [? ?]%not_elem_of_app. by rewrite ng_nats1, ng_nats0.
  - intros y [? ?]%not_elem_of_app. by rewrite ng_timing1, ng_timing0.
  - intros s i. by rewrite ng_tab1, ng_tab0, minus_app.
  - by rewrite ng_instances1, ng_instances0, minus_app.
  - intros q l Hq Hl. rewrite <- minus_app. auto.
Qed.
Lemma nat_gone_in D w w' y : nat_gone D w w' -> in_nat_table w' y <-> in_nat_table w y /\ y ∉ D.
Proof. intros Hg. unfold in_nat_table. by rewrite (ng_instances _ _ _ Hg), elem_minus. Qed.

(** What [ipf_nat_delete] does before it frees the session. *)
Lemma nat_dequeue_run b d1 d2 d3 (K : loc -> Prop) (w : W) x e : let m K := mk_mode (Some x) K 1 b d1 d2 d3 in
  nat_ok (m K) w -> nw_nats w !! x = Some e -> K x ->
  exists h', (q ← nhp (ent tqe_ifq x); match q with Some _ => nhp (ipf_deletequeueentry x) | None => mret tt end) w = Some (tt, w <| nw_heap := h' |>) /\
    nat_ok (m (fun y => K y /\ y <> x)) (w <| nw_heap := h' |>) /\ (forall y, timing h' y = timing (nw_heap w) y) /\
    (forall q l, q ∈ nat_queues -> queue (nw_heap w) q l -> queue h' q (without x l)).
Proof.
  intros m Ht He Hx. pose proof (nk_queues _ _ Ht) as HQ. pose proof HQ as [Q HQ'].
  destruct (proj1 (qr_members _ _ _ _ _ HQ' x) Hx) as (q & l & Hl & Hxl).
  destruct (queue_elem_ent _ _ _ _ (qr_rel _ _ _ _ _ HQ' _ _ Hl) Hxl) as (t & Et & Eq & _).
  destruct (qok_delete _ _ K (nw_heap w) x t q HQ Et Eq) as (h' & R & Hq' & _ & _ & Htm & Hqs).
  exists h'. split; [|split; [|done]].
  - rewrite (bind_eq _ _ _ (Some q) w) by (unfold nhp, ent; rewrite Et; cbn; rewrite Eq; by destruct w).
    unfold nhp. by rewrite R.
  - apply (nat_ok_heap (m K) w (fun y => K y /\ y <> x) h' Ht); [|done].
    apply (queue_op_step (ipf_deletequeueentry x) (nw_heap w) tt h'); [|done]. intros I HI. exact (keeps_deletequeueentry (fun _ => True) I HI x Logic.I).
Qed.

Lemma unsync_run o x (w : W) e : nw_nats w !! x = Some e ->
  exists f k, (match o with
    | Some s => next_ (nenv_sync_del s);; upd_nat x (fun e => e <| nat_sync := None |>)
    | None => mret tt end) w = Some (tt, set_nat x f (w <| nw_ext ::= k |>)) /\ (forall e, same_links e (f e)).
Proof.
  intros He. destruct o as [s|].
  - exists (fun e => e <| nat_sync := None |>), (nenv_sync_del s). split; [|done].
    unfold mbind, st_bind, next_, modify. cbv beta iota. by rewrite (upd_nat_run x _ _ e) by done.
  - exists id, id. split; [|done]. unfold set_nat. cbn. rewrite alter_id by done. by destruct w.
Qed.

Lemma nat_delete_run full logtype (w : W) x : nat_ok (resting full w) w -> in_nat_table w x ->
  exists w', ipf_nat_delete cf x logtype w = Some (tt, w') /\ nat_ok (resting full w') w' /\ nat_gone [x] w w'.
Proof.
  intros Ht Hx. pose proof (proj1 (nk_list _ _ Ht x) Hx) as [[e He] _]. unfold ipf_nat_delete.
  assert (X : exists f, when_ (negb (logtype =? 0) && negb (ipf_nat_logging cf =? 0)) (next_ (nenv_log x logtype)) w =
    Some (tt, w <| nw_ext ::= f |>)).
  { destruct (_ && _); [by eexists|exists id; by destruct w]. }
  destruct X as [f X]. rewrite (bind_eq _ _ _ _ _ X). set (w1 := w <| nw_ext ::= f |>).
  assert (T1 : nat_ok (resting full w) w1) by (eapply nat_ok_same; [apply same_core_next|exact Ht]).
  rewrite (bind_eq _ _ _ e w1) by by apply nst_run. destruct (nk_session _ _ Ht x e He) as [Hlist Href _ _ _].
  rewrite Hlist by done. cbn [when_]. destruct (unlink_nat_run x w1 e He) as [k R2]. rewrite (bind_eq _ _ _ _ _ R2).
  set (d1 := plus (nat_hm e) 1 none). set (d2 := plus (nat_ptr e) 1 own). set (d3 := plus (nat_fr e) 1 none).
  set (K := in_nat_table w). set (w2 := unlinked x e w1 <| ns_wilds := k |>).
  assert (T2 : nat_ok (mk_mode (Some x) K 1 full d1 d2 d3) w2).
  { eapply (nat_ok_same _ (unlinked x e w1)).
    - nat_core.
    - exact (nat_ok_unlink (resting full w) w1 x e eq_refl He T1). }
  assert (He2 : nw_nats w2 !! x = Some (set_listed false e)) by by apply set_nat_at.
  destruct (forget_nat_me_run full K 1 d1 d2 d3 w2 x _ T2 He2) as (w3 & e3 & R3 & T3 & He3 & B3 & Hr3 & Eh3 & Ep3 & Ef3); [by apply Href|].
  rewrite (bind_eq _ _ _ _ _ R3).
  destruct (nat_dequeue_run full d1 d2 d3 K w3 x e3 T3 He3 Hx) as (h' & R4 & T4 & Htm & Hqs).
  rewrite <- st_bind_assoc, (bind_eq _ _ _ _ _ R4). set (w4 := w3 <| nw_heap := h' |>) in *.
  assert (He4 : nw_nats w4 !! x = Some e3) by exact He3.
  destruct (unsync_run (nat_sync e) x w4 e3 He4) as (g & k5 & R5 & Hg). rewrite (bind_eq _ _ _ _ _ R5). set (w5 := set_nat x g _).
  assert (T5 : nat_ok (mk_mode (Some x) (fun y => K y /\ y <> x) 1 full d1 d2 d3) w5).
  { apply nat_ok_links; [intros; apply Hg|]. by eapply nat_ok_same; [apply (same_core_next k5)|]. }
  assert (He5 : nw_nats w5 !! x = Some (g e3)) by by apply set_nat_at.
  rewrite (bind_eq _ _ _ _ _ (nst_run _ _ _ He5)). destruct (Hg e3) as [_ _ Er5 _ _ _ _ Eh5 Ep5 Ef5]. rewrite Er5, Hr3. cbn [Z.gtb].
  assert (T5' : nat_ok (shift 1 (g e3) (mk_mode (Some x) (fun y => K y /\ y <> x) 1 full none own none)) w5).
  { unfold shift. cbn. rewrite Eh5, Ep5, Ef5, Eh3, Ep3, Ef3. exact T5. }
  destruct (free_nat_run full _ w5 x (g e3) T5') as (w6 & R6 & T6 & w0 & B6 & En6 & Eh6 & E0 & E1 & Ei & Etk & Efl & El & _); [tauto|done|].
  exists w6. split; [by destruct (logtype =? NL_DESTROY)|].
  assert (Hi : nw_instances w6 = without x (nw_instances w)).
  { rewrite Ei, (bs_instances _ _ _ B6). exact (bs_instances _ _ _ B3). }
  split.
  - eapply nat_ok_mode; [..|exact T6]; try done. intros y. cbn. unfold K, in_nat_table. rewrite Hi, elem_without. tauto.
  - assert (Hm : forall l, minus [x] l = without x l) by (intros l; by rewrite <- minus_cons, minus_nil).
    assert (Hh : forall y, y <> x -> ents (nw_heap w6) !! y = ents h' !! y).
    { intros y Hy. rewrite Eh6. cbn. by rewrite lookup_delete_ne by congruence. }
    split.
    + rewrite Etk, (bs_ticks _ _ _ B6). exact (bs_ticks _ _ _ B3).
    + rewrite Efl, (bs_doflush _ _ _ B6). exact (bs_doflush _ _ _ B3).
    + rewrite El, (bs_list _ _ _ B6). exact (bs_list _ _ _ B3).
    + intros y Hy%not_elem_of_cons. destruct Hy as [Hy _]. rewrite En6, lookup_delete_ne by congruence.
      rewrite (bs_nats _ _ _ B6) by done. unfold w5. rewrite set_nat_other by done.
      etrans; [exact (bs_nats _ _ _ B3 y Hy)|]. exact (set_nat_other x (set_listed false) w1 y Hy).
    + intros y Hy%not_elem_of_cons. destruct Hy as [Hy _]. unfold timing at 1. rewrite Hh by done. fold (timing h' y).
      rewrite Htm. by rewrite (bs_heap _ _ _ B3).
    + intros s i. rewrite Hm. transitivity (tab s w3 i); [destruct s; cbn [tab]; rewrite ?E0, ?E1, ?(bs_table0 _ _ _ B6), ?(bs_table1 _ _ _ B6); done|].
      transitivity (tab s w2 i); [destruct s; cbn [tab]; by rewrite ?(bs_table0 _ _ _ B3), ?(bs_table1 _ _ _ B3)|].
      by destruct s.
    + by rewrite Hm.
    + intros q l Hq Hl. rewrite Hm. rewrite (bs_heap _ _ _ B3) in Hqs. apply (Hqs q l Hq) in Hl.
      eapply queue_frame; [exact Hl|by rewrite Eh6|]. intros y [_ Hy]%elem_without. by apply Hh.
Qed.

(** The NAT table keeps the promise of Sweeps.v. *)
#[export] Instance sweepable_nat why : sweepable nat_table_ok in_nat_table nat_gone nat_queues (nat_del cf why).
Proof.
  split.
  - intros A m w a Hm. cbn in *. unfold nhp. rewrite Hm. cbn. by destruct w.
  - intros w Ht. apply (nk_queues _ _ Ht).
  - intros w Ht. apply (nk_qchain _ _ Ht).
  - intros w Ht. apply (nk_user _ _ Ht).
  - intros w x Ht Hx. destruct (nat_delete_run true why w x Ht Hx) as (w' & R & T & D). exists 0, w'. split; [|done].
    unfold nat_del. by rewrite (bind_eq _ _ _ _ _ R).
  - apply nat_gone_refl.
  - intros. by eapply nat_gone_trans.
  - intros D w w' Hg. apply Hg.
  - intros D w w' x Hg. by apply nat_gone_in.
  - intros D w w' x Hg. apply Hg.
  - intros D w w' q l Hg. apply Hg.
Qed.

(** As many steps as there are sessions and queues are enough. *)
Lemma nat_fuel F (w : W) : nat_table_ok w -> (92 + length (nw_instances w) <= F)%nat -> fuel_ok nat_queues F w /\ (92 <= F)%nat.
Proof.
  intros Ht HF. split; [|lia]. apply (fuel_of_list nat_table_ok in_nat_table nat_gone nat_queues (nat_del cf 0) F w (nw_instances w) Ht); [done|].
  unfold nat_queues. rewrite length_app, length_map, length_seq. cbn. lia.
Qed.
Lemma nat_tcptq s : 0 <= s < 12 -> ipf_nat_tcptq cf s ∈ nat_queues.
Proof.
  intros Hs. apply elem_of_app. left. apply list_elem_of_fmap. exists (Z.to_nat s). split; [f_equal; lia|].
  apply elem_of_seq. lia.
Qed.
Lemma nat_ticks_range m (w : W) : nat_ok m w -> 0 <= nw_ticks w < 2 ^ 64.
Proof.
  intros Ht. destruct (nk_queues _ _ Ht) as [Q HQ].
  destruct (proj1 (qr_fixed _ _ _ _ _ HQ _) (nat_tcptq 0 ltac:(lia))) as [l Hl].
  destruct (qr_ageing _ _ _ _ _ HQ _ _ Hl) as (ttl & _ & ? & ? & ? & _). lia.
Qed.

(** *** Flushing *)

(** [victim] decides by [p]. *)
Definition chooses (full : bool) (w0 : W) (victim : loc -> natt -> ST W bool) (p : loc -> bool) : Prop :=
  forall w x e, nat_ok (resting full w) w -> nw_ticks w = nw_ticks w0 -> nw_nats w !! x = Some e ->
    nw_nats w0 !! x = Some e -> timing (nw_heap w) x = timing (nw_heap w0) x -> victim x e w = Some (p x, w).
Lemma flush_nats_run full victim p why w0 : chooses full w0 victim p -> forall l D0 w, nat_ok (resting full w) w -> NoDup l ->
  (forall x, x ∈ l -> (x ∉ D0) /\ in_nat_table w x) -> nat_gone D0 w0 w ->
  exists n w', flush_nats cf why victim l w = Some (n, w') /\ nat_ok (resting full w') w' /\ nat_gone (filter (fun x => p x = true) l) w w'.
Proof.
  intros Hp. induction l as [|x l IH]; intros D0 w Ht Hn Hd Hr.
  { exists 0, w. split_and!; [done..|apply nat_gone_refl]. }
  apply NoDup_cons in Hn as [Hx Hn]. destruct (Hd x) as [Hx0 Hin]; [by left|]. cbn [flush_nats].
  pose proof (proj1 (nk_list _ _ Ht x) Hin) as [[e He] _].
  rewrite (bind_eq _ _ _ _ _ (nst_run _ _ _ He)). rewrite (bind_eq _ _ _ (p x) w).
  2: { apply Hp; [done|apply Hr|done|by rewrite <- (ng_nats _ _ _ Hr)|by apply Hr]. }
  destruct (p x) eqn:Ep; cbn [when_].
  - destruct (nat_delete_run full why w x Ht Hin) as (w1 & R1 & T1 & D1).
    rewrite (bind_eq _ _ _ _ _ R1). destruct (IH (D0 ++ [x]) w1) as (n & w2 & R2 & T2 & D2); [done|done| |by eapply nat_gone_trans|].
    { intros y Hy. destruct (Hd y) as [? ?]; [by right|]. assert (y <> x) by by intros ->.
      split; [set_solver|]. apply (nat_gone_in _ _ _ y D1). split; [done|set_solver]. }
    rewrite (bind_eq _ _ _ _ _ R2). eexists _, w2. split; [done|]. split; [done|].
    rewrite filter_cons_True by done. exact (nat_gone_trans [x] _ _ _ _ D1 D2).
  - rewrite (bind_eq _ _ _ tt w) by done. destruct (IH D0 w) as (n & w2 & R2 & T2 & D2); [done|done| |done|].
    { intros y Hy. apply Hd. by right. }
    rewrite (bind_eq _ _ _ _ _ R2). eexists _, w2. split; [done|]. split; [done|]. by rewrite filter_cons_False by congruence.
Qed.
Lemma flush_all_nats full victim p why w : chooses full w victim p -> nat_ok (resting full w) w ->
  exists n w', flush_nats cf why victim (nw_instances w) w = Some (n, w') /\ nat_ok (resting full w') w' /\
    nat_gone (filter (fun x => p x = true) (nw_instances w)) w w'.
Proof.
  intros Hp Ht. apply (flush_nats_run full _ _ why w Hp _ []); [done|by eapply nk_nodup| |apply nat_gone_refl].
  intros x Hx. split; [apply not_elem_of_nil|done].
Qed.
Lemma filter_all (p : loc -> bool) (l : list loc) : (forall x, x ∈ l -> p x = true) -> filter (fun x => p x = true) l = l.
Proof. induction l as [|x l IH]; intros Hp; [done|]. rewrite filter_cons_True by (apply Hp; by left). f_equal. apply IH. intros y Hy. apply Hp. by right. Qed.

(** The sessions in front of the first one that is not TCP, on the queues of the closing
    states and those after them in the chain. *)
Definition nat_not_tcp_at (w : W) (x : loc) : bool := match nw_nats w !! x with Some e => not_tcp e | None => false end.
Definition nat_closing_tcp (w : W) (x : loc) : Prop :=
  exists q l, q ∈ drop 5 nat_queues /\ queue (nw_heap w) q l /\ x ∈ until (nat_not_tcp_at w) l.
Lemma nat_not_tcp_stops w0 : stops nat_table_ok in_nat_table nat_gone w0
  (fun tqe => par ← nhp (ent tqe_parent tqe); par ← need par; e ← nst par; mret (not_tcp e)) (nat_not_tcp_at w0).
Proof.
  intros w D x t Ht Hg Hx Hi Ex Hp. pose proof (proj1 (nk_list _ _ Ht x) Hi) as [[e He] _].
  rewrite (bind_eq _ _ _ (Some x) w) by (unfold nhp, ent; cbn in Ex; rewrite Ex; cbn; rewrite Hp; by destruct w).
  rewrite (bind_eq _ _ _ _ _ eq_refl), (bind_eq _ _ _ _ _ (nst_run _ _ _ He)). unfold nat_not_tcp_at. by rewrite <- (ng_nats _ _ _ Hg x Hx), He.
Qed.
(** How long a session has seen no packet. *)
Definition nat_idle_for (w : W) (which : Z) (x : loc) : bool :=
  match timing (nw_heap w) x with Some (_, t) => u64 (nw_ticks w - t) >? idle_limit which | None => false end.
Lemma nat_idle_chooses w which : chooses true w
  (fun x _ => t ← nhp (ent tqe_touched x); w ← gets id; mret (u64 (nw_ticks w - t) >? idle_limit which)) (nat_idle_for w which).
Proof.
  intros w1 x e T1 Htk He He0 Hv. destruct (nk_ents _ _ T1 x) as [t Ex]; [by eexists|].
  rewrite (bind_eq _ _ _ (tqe_touched t) w1) by (unfold nhp, ent; rewrite Ex; by destruct w1).
  rewrite (bind_eq _ _ _ w1 w1 eq_refl). unfold nat_idle_for. rewrite <- Hv, <- Htk. unfold timing. by rewrite Ex.
Qed.

(** Making room. *)
Lemma nat_queueflush_run F (w : W) : nat_table_ok w -> fuel_ok nat_queues F w -> (92 <= F)%nat ->
  exists m D w', ipf_queueflush (ipf_nat_tcptq cf) (ipf_nat_flush_entry cf) F (ipf_nat_table_sz cf) (ipf_nat_table_wm_low cf) w = Some (m, w') /\
    nat_table_ok w' /\ nat_gone D w w' /\
    room_made nat_table_ok in_nat_table nat_gone nat_queues (ipf_nat_tcptq cf) (ipf_nat_table_sz cf) (ipf_nat_table_wm_low cf) w w'.
Proof.
  intros Ht HF HF2.
  apply (queueflush_run nat_table_ok in_nat_table nat_gone nat_queues (nat_del cf NL_FLUSH) (ipf_nat_tcptq cf) F eq_refl
    (nat_tcptq IPF_TCPS_CLOSED ltac:(by split)) (nat_tcptq IPF_TCPS_TIME_WAIT ltac:(by split))
    (ipf_nat_table_sz cf) (ipf_nat_table_wm_low cf) w Ht HF HF2 (nat_ticks_range _ _ Ht)).
Qed.

(** [ipf_nat_extraflush] completes for every argument; what goes. *)
Lemma nat_extraflush_run F which w : nat_table_ok w -> fuel_ok nat_queues F w -> (92 <= F)%nat ->
  exists n D w', ipf_nat_extraflush cf F which w = Some (n, w') /\ nat_table_ok w' /\ nat_gone D w w' /\
    (which = 0 -> D = nw_instances w) /\
    (which = 1 -> forall x, x ∈ D <-> nat_closing_tcp w x) /\
    (which = 2 -> IPF_TTLVAL 5 < u64 (nw_ticks w - nw_last_flush w) ->
      room_made nat_table_ok in_nat_table nat_gone nat_queues (ipf_nat_tcptq cf) (ipf_nat_table_sz cf) (ipf_nat_table_wm_low cf) w w') /\
    (which = 2 -> u64 (nw_ticks w - nw_last_flush w) <= IPF_TTLVAL 5 -> D = []) /\
    (which < 30 -> which <> 0 -> which <> 1 -> which <> 2 -> is_closing which = false -> D = []) /\
    (is_closing which = true -> which <> 2 -> queue (nw_heap w) (ipf_nat_tcptq cf which) D) /\
    (30 <= which -> D = filter (fun x => nat_idle_for w which x = true) (nw_instances w)).
Proof.
  intros Ht HF HF2. unfold ipf_nat_extraflush.
  destruct (Z.eqb_spec which 0) as [->|H0].
  { rewrite (bind_eq _ _ _ _ _ eq_refl).
    destruct (flush_all_nats true (fun _ _ => mret true) (fun _ => true) NL_FLUSH w) as (n & w' & R & T & D); [done|done|].
    rewrite filter_all in D by done. eexists n, _, w'. by split_and!. }
  destruct (Z.eqb_spec which 1) as [->|H1].
  { cbv zeta.
    destruct (queues_run _ _ _ _ (nat_del cf NL_EXPIRE) _ _ F false w (drop 5 nat_queues) (take 5 nat_queues) F [] w (nat_not_tcp_stops w))
      as (n & D & w1 & R & T & D1 & _ & _ & He); [by rewrite take_drop| |done|done|apply nat_gone_refl|].
    { pose proof (proj1 HF). rewrite length_drop. lia. }
    rewrite (bind_eq _ _ _ n w1) by exact R. rewrite (bind_eq _ _ _ _ _ eq_refl), (nk_user _ _ T).
    exists (n + 0), D, w1. split; [by destruct F|]. split_and!; try done; lia. }
  destruct (is_closing which) eqn:Ec.
  { destruct (flush_queue_run _ _ _ _ (nat_del cf NL_FLUSH) F w (ipf_nat_tcptq cf which) Ht HF) as (n & D & w1 & R & T & D1 & Hq).
    { apply nat_tcptq. apply closing_range in Ec. lia. }
    exists n, D, w1. split; [exact R|]. apply closing_range in Ec. split_and!; try done; lia. }
  destruct (Z.eqb_spec which 2) as [->|H2].
  { rewrite (bind_eq _ _ _ w w eq_refl). destruct (u64 _ >? _) eqn:Eage; breflect; [|exists 0, [], w; split_and!; try done; try lia; apply nat_gone_refl].
    rewrite (bind_eq _ _ _ tt _ eq_refl). set (w1 := w <| nw_last_flush := nw_ticks w |>).
    assert (T1 : nat_table_ok w1).
    { eapply nat_table_ok_same; [|exact Ht]. nat_core. }
    destruct (nat_queueflush_run F w1 T1 HF HF2) as (n & D & w2 & R & T & D1 & Hroom).
    exists n, D, w2. split; [exact R|]. split_and!; try done; try lia; [by destruct D1|].
    intros _ _. destruct Hroom as [Rc Re Ro Rr]. split; [done| |done..].
    intros l Hl. destruct (Re l Hl) as (w3 & T3 & [] & He). by exists w3. }
  destruct (which <? 30) eqn:E30; breflect; [exists 0, [], w; split_and!; try done; try lia; apply nat_gone_refl|].
  cbv zeta. rewrite (bind_eq _ _ _ _ _ eq_refl).
  destruct (flush_all_nats true _ _ NL_FLUSH w (nat_idle_chooses w which) Ht) as (n & w' & R & T & D).
  eexists n, _, w'. split; [exact R|]. split_and!; try done; lia.
Qed.

(** [ipf_nat_expire] completes.  What stays is not due, and unless room has to be made
    everything that is not due stays. *)
Lemma nat_expire_run w F : nat_table_ok w -> fuel_ok nat_queues F w -> (92 <= F)%nat ->
  exists w' D, ipf_nat_expire cf F w = Some (tt, w') /\ nat_table_ok w' /\ nat_gone D w (w' <| nw_doflush := nw_doflush w |>) /\
    (forall x, in_nat_table w' x -> in_nat_table w x /\ due w x = false) /\
    (nw_doflush w = 0 -> forall x, in_nat_table w x -> due w x = false -> in_nat_table w' x).
Proof.
  intros Ht HF HF2. unfold ipf_nat_expire. cbv zeta.
  destruct (expire_scan _ _ _ _ (nat_del cf NL_EXPIRE) w F Ht HF) as (n & D & w1 & R & T & Dr & Hd & Hs).
  rewrite (bind_eq _ _ _ n w1) by exact R. rewrite (bind_eq _ _ _ _ _ eq_refl), (nk_user _ _ T).
  rewrite (bind_eq _ _ _ 0 w1) by by destruct F. rewrite (bind_eq _ _ _ _ _ eq_refl), (nk_user _ _ T).
  rewrite (bind_eq _ _ _ tt w1) by by destruct F. rewrite (bind_eq _ _ _ _ _ eq_refl).
  destruct (Z.eqb_spec (nw_doflush w1) 0) as [E0|E0]; cbn [negb when_].
  { exists w1, D. split; [done|]. split; [done|]. split; [by destruct Dr|]. split; [intros x Hx; by apply Hs|].
    intros _ x Hx Hx'. by apply Hs. }
  pose proof (fuel_removed _ _ _ _ (nat_del cf NL_EXPIRE) _ _ _ _ Ht Dr HF) as HF1.
  destruct (nat_extraflush_run F 2 w1 T HF1 HF2) as (m & D2 & w2 & R2 & T2 & Dr2 & _).
  rewrite (bind_eq _ _ _ _ _ R2). eexists _, (D ++ D2). split; [done|]. pose proof (nat_gone_trans _ _ _ _ _ Dr Dr2) as Dr3.
  split.
  { eapply nat_table_ok_same; [|exact T2]. nat_core. }
  split; [by destruct Dr3|]. split.
  - intros x Hx. change (in_nat_table w2 x) in Hx. apply Hs. by apply (nat_gone_in _ _ _ x Dr2) in Hx as [? _].
  - intros Hz. rewrite <- (ng_doflush _ _ _ Dr) in Hz. done.
Qed.
End Inv.
