(* ===== verification/NatSteps.v ===== *)
(** Packets and the invariant of NatInv.v: every path of a packet through
    [ipf_nat_checkout] and [ipf_nat_checkin] that ends leaves a well-formed table, with
    new sessions, clones and host maps accounted for. *)
From S2P Require Import Prelude Packet Cksum Filter Timeoutq TcpAge Queues Sweeps TcpWindow State StateLookup.
From S2P Require Import NatTable NatNew NatXlate NatAdmin NatInv.

(** The references of a session: host map, rule, filter rule, saved pointer, and how many
    refer to it. *)
Abbreviation refs_t := (option loc * option loc * option loc * option loc * Z)%type.

Section Steps.
Context {E : Type} `{nat_env E} (cf : natconf) (be : bool) (own : loc -> Z).
Abbreviation W := (natw E).
Abbreviation nat_ok := (nat_ok (E:=E) cf).

(** ** What most steps keep *)

(** A predicate that sees the table as the invariant does. *)
Class framed (I : W -> Prop) : Prop := {
  fr_core : forall w w', nat_same_core w w' -> I w -> I w';
  fr_links : forall y f w, (forall e, nw_nats w !! y = Some e -> same_links e (f e)) -> I w -> I (set_nat y f w);
  fr_simple : forall w r n, I w -> nw_rules w !! r = Some n -> live_rule n;
  fr_aps : forall w y e, I w -> nw_nats w !! y = Some e -> nat_aps e = None;
  fr_dir : forall w y e, I w -> nw_nats w !! y = Some e -> nat_dir e = NAT_INBOUND \/ nat_dir e = NAT_OUTBOUND }.

(** The invariant, with the sessions of the table. *)
Definition inv (m : mode) (l : list loc) (w : W) : Prop := nat_ok m w /\ nw_instances w = l.
(** The references of a session that is being made. *)
Definition refs (e : natt) := (nat_hm e, nat_ptr e, nat_fr e, nat_me e, nat_ref e).
Definition refs_are (x : loc) (v : refs_t) (w : W) : Prop := refs <$> nw_nats w !! x = Some v.
Definition drafts (m : mode) (l : list loc) (x : loc) (v : refs_t) (w : W) : Prop := inv m l w /\ refs_are x v w.
#[export] Instance framed_inv m l : framed (inv m l).
Proof.
  split.
  - intros w w' Hs [Ht Hi]. split; [by eapply nat_ok_same|]. by rewrite (sc_instances _ _ Hs).
  - intros y f w Hf [Ht Hi]. split; [by apply nat_ok_links|done].
  - intros w r n [Ht _]. apply (nk_rules _ _ _ Ht).
  - intros w y e [Ht _] He. exact (se_aps _ _ _ _ (nk_session _ _ _ Ht y e He)).
  - intros w y e [Ht _] He. exact (se_dir _ _ _ _ (nk_session _ _ _ Ht y e He)).
Qed.
#[export] Instance framed_drafts m l x v : framed (drafts m l x v).
Proof.
  split.
  - intros w w' Hs [Hi Hx]. split; [by eapply fr_core|]. unfold refs_are. by rewrite (sc_nats _ _ Hs).
  - intros y f w Hf [Hi Hx]. split; [by apply fr_links|]. unfold refs_are in *. destruct (decide (y = x)) as [->|Hy].
    + destruct (nw_nats w !! x) as [e|] eqn:He; [|done]. rewrite (set_nat_at _ _ _ _ He). cbn in *. destruct (Hf e eq_refl). unfold refs in *. congruence.
    + by rewrite set_nat_other by congruence.
  - intros w r n [Hi _]. by apply fr_simple.
  - intros w y e [Hi _]. by apply fr_aps.
  - intros w y e [Hi _]. by apply fr_dir.
Qed.

Section Framed.
Context (I : W -> Prop) `{!framed I}.

Lemma keeps_same {A} (m : ST W A) : (forall w a w', m w = Some (a, w') -> nat_same_core w w') -> keeps I m.
Proof. intros Hm w Hw. unfold wpg. destruct (m w) as [[a w']|] eqn:Em; [|done]. eapply fr_core; [by eapply Hm|done]. Qed.
Lemma keeps_read {A} (m : ST W A) : (forall w a w', m w = Some (a, w') -> w' = w) -> keeps I m.
Proof. intros Hm. apply keeps_same. intros w a w' ->%Hm. apply nat_same_core_refl. Qed.
Lemma keeps_nst x : keeps I (nst x).
Proof. apply keeps_read. unfold nst. intros w a w'. destruct (nw_nats w !! x); [by intros [= _ <-]|done]. Qed.
Lemma keeps_rule r : keeps I (rule r).
Proof. apply keeps_read. unfold rule. intros w a w'. destruct (nw_rules w !! r); [by intros [= _ <-]|done]. Qed.
Lemma keeps_hmst y : keeps I (hmst y).
Proof. apply keeps_read. unfold hmst. intros w a w'. destruct (nw_hms w !! y); [by intros [= _ <-]|done]. Qed.
Lemma keeps_nent {A} (f : ipftqent -> A) x : keeps I (nhp (ent f x)).
Proof.
  apply keeps_read. unfold nhp, ent. intros w a w'. destruct (ents (nw_heap w) !! x); [|done]. cbn. intros [= _ <-]. by destruct w.
Qed.
Lemma keeps_ncore (f : W -> W) : (forall w, nat_same_core w (f w)) -> keeps I (modify f).
Proof. intros Hf. apply keeps_modify. intros w. apply fr_core, Hf. Qed.
Lemma keeps_next {A} (f : E -> A * E) : keeps I (next f).
Proof. apply keeps_same. unfold next. intros w a w'. destruct (f (nw_ext w)) as [b e]. intros [= _ <-]. nat_core. Qed.
Lemma keeps_next_ f : keeps I (next_ f).
Proof. apply keeps_ncore. intros w. nat_core. Qed.
Lemma keeps_upd_nfin f : keeps I (upd_nfin f).
Proof. apply keeps_ncore. intros w. nat_core. Qed.
Lemma keeps_set_buf m : keeps I (modify (fun w => w <| nw_buf := m |>)).
Proof. apply keeps_ncore. intros w. nat_core. Qed.
Lemma keeps_set_wilds f : keeps I (modify (fun w => w <| ns_wilds ::= f |>)).
Proof. apply keeps_ncore. intros w. nat_core. Qed.
Lemma keeps_upd_nat x f : (forall e, same_links e (f e)) -> keeps I (upd_nat x f).
Proof.
  intros Hf w Hw. unfold wpg. destruct (nw_nats w !! x) as [e|] eqn:He; [|by unfold upd_nat; rewrite He].
  rewrite (upd_nat_run x f w e He). by apply fr_links.
Qed.
Lemma nat_core_rule (w : W) r n f : nw_rules w !! r = Some n -> (live_rule n -> simple_rule (f n)) -> in_use n <= in_use (f n) ->
  nat_same_core w (w <| nw_rules ::= alter f r |>).
Proof.
  intros Hr Hp Hu. split; try done; [apply hms_refl|..].
  - intros s n' [(-> & n0 & Hs & ->)|[_ Hs]]%lookup_alter_cases Hall; [|by eapply Hall]. pose proof (Hall r _ Hs) as Hl. simplify_eq. split; [by apply Hp|destruct Hl; lia].
  - intros s n' Hs. destruct (decide (s = r)) as [->|Hne].
    + simplify_eq. exists (f n). split; [by apply lookup_alter_Some_eq|done].
    + exists n'. cbn. by rewrite lookup_alter_ne by congruence.
  - intros s n' Hs Hall. by apply (Hall s).
  - intros s n' Hs. exists n'. by split.
Qed.
Lemma keeps_upd_rule r f : (forall n, live_rule n -> simple_rule (f n) /\ in_use n <= in_use (f n)) -> keeps I (upd_rule r f).
Proof.
  intros Hf w Hw. unfold wpg, upd_rule. destruct (nw_rules w !! r) as [n|] eqn:Hn; [|done].
  apply (fr_core w); [|done]. pose proof (fr_simple w r n Hw Hn) as Hs. destruct (Hf n Hs). by apply (nat_core_rule w r n f).
Qed.
End Framed.
End Steps.
#[export] Hint Resolve keeps_nst keeps_rule keeps_hmst keeps_nent keeps_next keeps_next_ keeps_upd_nfin keeps_set_buf keeps_set_wilds : keeps.
#[export] Hint Extern 0 (framed _) => typeclasses eauto : keeps.
#[export] Hint Extern 2 (keeps _ (upd_nat _ _)) => (apply keeps_upd_nat; [typeclasses eauto|done]) : keeps.
#[export] Hint Extern 2 (keeps _ (upd_rule _ _)) => (apply keeps_upd_rule; [typeclasses eauto|intros ? [[] ?]; split; [done|cbn; lia]]) : keeps.
#[export] Hint Extern 3 (keeps _ (modify _)) => (apply keeps_ncore; [typeclasses eauto|intros ?; nat_core]) : keeps.
Lemma keeps_sum {S A B C} (I : S -> Prop) (t : A + B) (m : A -> ST S C) (n : B -> ST S C) :
  (forall a, keeps I (m a)) -> (forall b, keeps I (n b)) -> keeps I (match t with inl a => m a | inr b => n b end).
Proof. by destruct t. Qed.
(** A run of steps that keep the predicate. *)
Ltac keep := repeat first
  [ progress intros
  | solve [eauto 3 with keeps]
  | apply keeps_bind
  | apply keeps_option | apply keeps_if | apply keeps_when | apply keeps_pair | apply keeps_sum ].

(** ** Lookups and translations *)

Section Walks.
Context {E : Type} `{nat_env E} (cf : natconf) (be : bool).
Abbreviation W := (natw E).
Context (I : W -> Prop) `{!framed I}.

Lemma keeps_nst_bind {B} x (k : natt -> ST W B) :
  (forall e, nat_aps e = None -> nat_dir e = NAT_INBOUND \/ nat_dir e = NAT_OUTBOUND -> keeps I (k e)) -> keeps I (nst x ≫= k).
Proof.
  intros Hk w Hw. rewrite wp_bind. apply wlp_nst. intros e He.
  apply Hk; [by eapply fr_aps|by eapply fr_dir|done].
Qed.
Lemma keeps_rule_bind {B} r (k : ipnat -> ST W B) : (forall n, simple_rule n -> keeps I (k n)) -> keeps I (rule r ≫= k).
Proof. intros Hk w Hw. rewrite wp_bind. apply wlp_rule. intros n Hn. apply Hk; [exact (proj1 (fr_simple w r n Hw Hn))|done]. Qed.

Lemma keeps_edit f : keeps I (edit f).
Proof. unfold edit. keep. Qed.
Lemma keeps_byte_at i : keeps I (byte_at i).
Proof. unfold byte_at. keep. Qed.
Lemma keeps_word_at i : keeps I (word_at be i).
Proof. unfold word_at. keep. Qed.
Lemma keeps_wr_nbuf off v : keeps I (wr_buf be off v).
Proof. unfold wr_buf. keep. Qed.
#[local] Hint Resolve keeps_edit keeps_byte_at keeps_word_at keeps_wr_nbuf : keeps.

(** *** Chains *)

Lemma keeps_refused e x any : nat_aps e = None -> keeps I (refused e x any).
Proof. intros Ha. unfold refused. rewrite Ha. rewrite andb_false_r. keep. Qed.
Lemma keeps_bind_ifp0 x ifp : keeps I (bind_ifp0 x ifp).
Proof. apply (keeps_upd_nat I). intros e. by destruct (nat_ifp0 e). Qed.
Lemma keeps_bind_ifp1 x ifp : keeps I (bind_ifp1 x ifp).
Proof. apply (keeps_upd_nat I). intros e. by destruct (nat_ifp1 e). Qed.
Lemma keeps_find_nat matches any bound l : (forall x, keeps I (bound x)) -> keeps I (find_nat matches any bound l).
Proof.
  intros Hb. induction l as [|x l IH]; cbn [find_nat]; [keep|]. apply keeps_nst_bind. intros e Ha _.
  apply keeps_if; [done|]. apply keeps_bind; [by apply keeps_refused|intros r]. keep; auto.
Qed.
#[local] Hint Resolve keeps_bind_ifp0 keeps_bind_ifp1 : keeps.
Lemma keeps_inlookup flags p src dst : has flags NAT_SEARCH = false -> keeps I (ipf_nat_inlookup cf be flags p src dst).
Proof.
  intros Hf. unfold ipf_nat_inlookup, wild_search. rewrite Hf, andb_false_r. cbn [andb negb]. apply keeps_bind; [keep|intros w].
  destruct (nat_ports _ _ _ _) as [sport dport]. keep; apply keeps_find_nat; auto with keeps.
Qed.
Lemma keeps_outlookup flags p src dst : has flags NAT_SEARCH = false -> keeps I (ipf_nat_outlookup cf be flags p src dst).
Proof.
  intros Hf. unfold ipf_nat_outlookup, wild_search. rewrite Hf, andb_false_r. cbn [andb negb]. apply keeps_bind; [keep|intros w].
  destruct (nat_ports _ _ _ _) as [sport dport]. keep; apply keeps_find_nat; auto with keeps.
Qed.

(** *** The packet *)

Lemma keeps_nat_proto x nflags : keeps I (ipf_nat_proto be x nflags).
Proof. unfold ipf_nat_proto. keep. Qed.
Lemma keeps_put_ports sp dp : keeps I (put_ports be sp dp).
Proof. unfold put_ports. keep. Qed.
Lemma keeps_put_id v : keeps I (put_id be v).
Proof. unfold put_id. keep. Qed.
Lemma keeps_fix_sum i f : keeps I (fix_sum be i f).
Proof. unfold fix_sum. keep. Qed.
Lemma keeps_put_src a : keeps I (put_src be a).
Proof. unfold put_src. keep. Qed.
Lemma keeps_put_dst a : keeps I (put_dst be a).
Proof. unfold put_dst. keep. Qed.
#[local] Hint Resolve keeps_nat_proto keeps_put_ports keeps_put_id keeps_fix_sum keeps_put_src keeps_put_dst : keeps.
Lemma keeps_out_ipsum e nflags : keeps I (out_ipsum be e nflags).
Proof. unfold out_ipsum. keep. Qed.
Lemma keeps_out_l4 x e nflags : keeps I (out_l4 be x e nflags).
Proof. unfold out_l4. keep. Qed.
Lemma keeps_in_addrs e : keeps I (in_addrs be e).
Proof. unfold in_addrs. keep. Qed.
Lemma keeps_in_l4 x e nflags : keeps I (in_l4 be x e nflags).
Proof. unfold in_l4. keep. Qed.
Lemma keeps_set_tag p : keeps I (set_tag p).
Proof. unfold set_tag. keep. Qed.
#[local] Hint Resolve keeps_out_ipsum keeps_out_l4 keeps_in_addrs keeps_in_l4 keeps_set_tag : keeps.
Lemma keeps_rule_apr {B} p (k : option loc -> ST W B) : keeps I (k None) -> keeps I (rule_apr p ≫= k).
Proof.
  intros Hk. unfold rule_apr. destruct p as [r|]; [|exact Hk]. intros w Hw. rewrite wp_bind, wp_bind. apply wlp_rule.
  intros n Hn. destruct (fr_simple w r n Hw Hn) as ((_ & Ha & _) & _). rewrite wp_ret, Ha. by apply Hk.
Qed.
Lemma dir_cases (e : natt) : nat_dir e = NAT_INBOUND \/ nat_dir e = NAT_OUTBOUND ->
  (nat_dir e =? NAT_DIVERTIN) || (nat_dir e =? NAT_DIVERTOUT) = false.
Proof. by intros [->| ->]. Qed.
Lemma keeps_nat_out x natadd nflags : keeps I (ipf_nat_out be x natadd nflags).
Proof.
  unfold ipf_nat_out. apply keeps_nst_bind. intros e Ha Hd. rewrite (dir_cases e Hd).
  apply keeps_bind; [keep|intros fin]. apply keeps_bind; [keep|intros _]. apply keeps_bind; [keep|intros _].
  apply keeps_bind; [keep|intros [v|nf]]; [keep|]. apply keeps_bind; [keep|intros fin2]. apply keeps_bind; [keep|intros _].
  apply keeps_bind; [keep|intros fin3]. apply keeps_bind; [keep|intros _]. apply keeps_rule_apr. keep.
Qed.
Lemma keeps_nat_in x natadd nflags : keeps I (ipf_nat_in be x natadd nflags).
Proof.
  unfold ipf_nat_in. apply keeps_nst_bind. intros e Ha Hd. rewrite (dir_cases e Hd).
  apply keeps_bind; [keep|intros _]. apply keeps_bind; [keep|intros fin]. apply keeps_bind; [keep|intros _].
  apply keeps_rule_apr. keep.
Qed.
Lemma keeps_verdict rval pass : keeps I (nat_verdict rval pass).
Proof. unfold nat_verdict. keep. Qed.
Lemma keeps_rule_tq {B} p rev (k : option loc -> ST W B) : keeps I (k None) -> keeps I (rule_tq p rev ≫= k).
Proof.
  intros Hk. unfold rule_tq. destruct p as [r|]; [|exact Hk]. intros w Hw. rewrite wp_bind, wp_bind. apply wlp_rule.
  intros n Hn. destruct (fr_simple w r n Hw Hn) as ((Hq & _) & _). rewrite wp_ret, Hq. replace (idx rev (None, None)) with (@None loc); [by apply Hk|].
  unfold idx. by destruct (rev =? 0).
Qed.
End Walks.

(** ** Queues, and entering the table *)

Section Enter.
Context {E : Type} `{nat_env E} (cf : natconf) (be : bool).
Abbreviation W := (natw E).
Abbreviation nat_ok := (nat_ok (E:=E) cf).
Abbreviation inv := (inv (E:=E) cf).
Abbreviation drafts := (drafts (E:=E) cf).
Abbreviation nat_queues := (nat_queues cf).

Lemma nat_inv_heap m l (w : W) K h' : inv m l w -> queue_step (nw_heap w) h' ->
  queues_ok (fun q => q ∈ nat_queues) (nw_ticks w) K h' -> inv (m <| md_queued := K |>) l (w <| nw_heap := h' |>).
Proof. intros [Ht Hl] Hs Hq. split; [by apply nat_ok_heap|done]. Qed.
Lemma inv_queued m l (w : W) K : (forall y, md_queued m y <-> K y) -> inv m l w -> inv (m <| md_queued := K |>) l w.
Proof. intros HK [Ht Hl]. split; [|done]. by eapply nat_ok_mode; [..|exact Ht]. Qed.
Lemma wlp_nhp {A} (f : ST tqheap A) m l (w : W) : inv m l w -> queue_op f ->
  wlp f (fun _ => queues_ok (fun q => q ∈ nat_queues) (nw_ticks w) (md_queued m)) (nw_heap w) -> wlp (nhp f) (fun _ => inv m l) w.
Proof.
  intros Hw Hf Hk. unfold wpg, nhp. destruct (f (nw_heap w)) as [[a h']|] eqn:Ef; [|done]. cbn.
  pose proof (nat_inv_heap m l w (md_queued m) h' Hw (queue_op_step f (nw_heap w) a h' Hf Ef)) as Hi.
  destruct m. apply Hi. apply (wlp_run _ _ _ _ _ Hk Ef).
Qed.
Lemma wlp_nent {A} (f : ipftqent -> A) x Q (w : W) :
  (forall t, ents (nw_heap w) !! x = Some t -> Q (f t) w) -> wlp (nhp (ent f x)) Q w.
Proof.
  intros Hk. unfold wpg, nhp, ent. destruct (ents (nw_heap w) !! x) as [t|]; [|done].
  specialize (Hk t eq_refl). by destruct w.
Qed.
Lemma nat_queue_move now x o n : queue_op (ipf_movequeue now x o n).
Proof. intros I HI. exact (keeps_movequeue (fun _ => True) I HI now x o n Logic.I). Qed.
Lemma nat_queue_append now x q p : queue_op (ipf_queueappend now x q p).
Proof. intros I HI. exact (keeps_queueappend (fun _ => True) I HI now x q p Logic.I). Qed.
Lemma nat_tcptq_state s : used_state s -> ipf_nat_tcptq cf s ∈ nat_queues.
Proof. intros [Hs _]. apply nat_tcptq. unfold is_state, IPF_TCP_NSTATES in Hs. lia. Qed.
Lemma keeps_nat_tcp_age m l x flags ok : keeps (inv m l) (nat_tcp_age cf x flags ok).
Proof.
  intros w Hw. unfold nat_tcp_age. rewrite wp_bind, wp_gets. cbn. rewrite wp_bind. unfold wpg at 1, need.
  destruct (tcp_at _ _) as [tcp|]; [|done]. rewrite wp_bind. apply (wp_mono _ _ (fun _ => inv m l)); [|done].
  apply wlp_nhp; [done| |].
  - intros I HI. by apply (keeps_tcp_age (fun _ => True)).
  - apply qok_tcp_age; [apply nat_tcptq_state|apply (nk_queues _ _ _ (proj1 Hw))].
Qed.

(** The queue that a session is on, if it is on one, and the one it goes to. *)
Lemma wlp_requeue m l x q (w : W) : inv m l w -> q ∈ nat_queues ->
  wlp (oifq ← nhp (ent tqe_ifq x); ticks ← gets nw_ticks;
       match oifq with Some o => nhp (ipf_movequeue ticks x o q) | None => nhp (ipf_queueappend ticks x q (Some x)) end)
    (fun _ => inv (m <| md_queued := fun y => md_queued m y \/ y = x |>) l) w.
Proof.
  intros Hw Hq. pose proof (nk_queues _ _ _ (proj1 Hw)) as HQ. rewrite wp_bind. apply wlp_nent. intros t Et.
  rewrite wp_bind, wp_gets. destruct (tqe_ifq t) as [o|] eqn:Eo.
  - destruct (qok_move _ _ _ _ x t o q HQ Et Eo Hq) as (h' & R & Hq' & _). unfold wpg, nhp. rewrite R. cbn.
    apply nat_inv_heap; [done|by eapply queue_op_step; [apply nat_queue_move|exact R]|]. eapply queues_ok_ext; [|exact Hq'].
    destruct HQ as [Q HQ]. intros y. split; [by left|]. intros [?| ->]; [done|].
    apply (eo_free _ x t); [by eapply qr_ents|congruence].
  - destruct (qok_append _ _ _ _ x t q HQ Et Eo Hq) as (h' & R & Hq' & _). unfold wpg, nhp. rewrite R. cbn.
    apply nat_inv_heap; [done|by eapply queue_op_step; [apply nat_queue_append|exact R]|done].
Qed.
Lemma wlp_default_nq m l x p rev (w : W) : inv m l w ->
  wlp (ipf_nat_default_queue cf x p rev) (fun q w' => q ∈ nat_queues /\ inv m l w') w.
Proof.
  assert (Hin : forall q, q ∈ [ipf_nat_udptq cf; ipf_nat_udpacktq cf; ipf_nat_icmptq cf; ipf_nat_icmpacktq cf; ipf_nat_iptq cf; ipf_nat_pending cf] ->
    q ∈ nat_queues) by (intros; apply elem_of_app; by right).
  intros Hw. unfold ipf_nat_default_queue. split_ifs; rewrite ?wp_ret; try (split; [apply Hin; set_solver|done]).
  rewrite wp_bind. apply wlp_nent. intros t Et. rewrite wp_ret. split; [|done]. apply nat_tcptq_state. destruct (nk_queues _ _ _ (proj1 Hw)) as [Q HQ].
  destruct (eo_used _ _ _ (qr_ents _ _ _ _ _ HQ x t Et)). unfold tqe_state. by case_match.
Qed.
Lemma wlp_nat_setqueue m l x (w : W) : inv m l w ->
  wlp (ipf_nat_setqueue cf x) (fun _ => inv (m <| md_queued := fun y => md_queued m y \/ y = x |>) l) w.
Proof.
  intros Hw. unfold ipf_nat_setqueue. rewrite wp_bind. apply wlp_nst. intros e He.
  assert (X : forall p rev w, inv m l w -> wlp (rule_tq p rev) (fun q w' => q = None /\ inv m l w') w).
  { clear. intros p rev w Hw. unfold rule_tq. destruct p as [r|]; [|by rewrite wp_ret].
    rewrite wp_bind. apply wlp_rule. intros n Hn. destruct (nk_rules _ _ _ (proj1 Hw) r n Hn) as ((Hq & _) & _). rewrite wp_ret, Hq.
    split; [|done]. unfold idx. by destruct (rev =? 0). }
  rewrite wp_bind. eapply wp_mono; [by apply X|]. cbv beta. intros q w1 [-> Hw1]. rewrite wp_bind.
  apply (wp_mono _ _ (fun q => fun w' => q ∈ nat_queues /\ inv m l w')); [by apply wlp_default_nq|].
  intros q w2 [Hq Hw2]. by apply wlp_requeue.
Qed.

(** A session that is being made changes, but not in what is counted. *)
Lemma keeps_draft m l x v f : md_draft m = Some x ->
  (forall e, nat_aps (f e) = nat_aps e /\ nat_dir (f e) = nat_dir e /\ refs (f e) = refs e) -> keeps (drafts m l x v) (upd_nat x f).
Proof.
  intros Hd Hf w [[Ht Hl] Hx]. apply wlp_upd_nat. intros e He. destruct (Hf e) as (Ha & Hdir & Hr). split; [split; [|done]|].
  - apply (nat_ok_draft cf m w x f Hd); [|done]. intros e0 _. destruct (Hf e0) as (? & ? & Hr0). split_and!; [done|done|].
    unfold refs in Hr0. intros v0 Hv. left. congruence.
  - unfold refs_are in *. cbn. rewrite (lookup_alter_Some_eq _ _ _ _ He). rewrite He in Hx. cbn in *. congruence.
Qed.
(** The references change. *)
Lemma wlp_draft m l x v v' f (w : W) : drafts m l x v w -> md_draft m = Some x ->
  (forall e, refs e = v -> nat_aps (f e) = nat_aps e /\ nat_dir (f e) = nat_dir e /\ nat_me (f e) = nat_me e /\ refs (f e) = v') ->
  wlp (upd_nat x f) (fun _ => drafts m l x v') w.
Proof.
  intros [[Ht Hl] Hx] Hd Hf. apply wlp_upd_nat. intros e He. unfold refs_are in Hx. rewrite He in Hx. injection Hx as Hx.
  destruct (Hf e Hx) as (Ha & Hdir & Hm & Hr). split; [split; [|done]|].
  - apply (nat_ok_draft cf m w x f Hd); [|done]. intros e0 He0. rewrite He in He0. injection He0 as <-.
    split_and!; [done|done|]. intros v0 Hv. left. congruence.
  - unfold refs_are. cbn. rewrite (lookup_alter_Some_eq _ _ _ _ He). cbn. congruence.
Qed.

Lemma nat_ok_active m (w : W) k : nat_ok m w -> nat_ok (m <| md_ahead ::= fun a => a + k |>) (w <| ns_active ::= fun n => n + k |>).
Proof.
  intros Ht. destruct Ht. split; try done; [intros y e He; by destruct (nk_session y e He); split|]. cbn. rewrite nk_active. cbn. lia.
Qed.
(** The references of a session are the table's. *)
Definition take (v : refs_t) (m : mode) : mode :=
  let '(hm, p, fr, _, _) := v in m <| md_hm ::= plus hm (-1) |> <| md_rule ::= plus p (-1) |> <| md_fr ::= plus fr (-1) |>.
Definition entered (x : loc) (v : refs_t) (m : mode) : mode :=
  take v (m <| md_draft := None |> <| md_queued := fun y => md_queued m y \/ y = x |>).
Lemma wlp_hashtab_add m l x v (w : W) : drafts m l x v w -> md_draft m = Some x ->
  snd v = 1 + b2z (bool_decide (is_Some (snd (fst v)))) ->
  wlp (ipf_nat_hashtab_add cf x) (fun r w' => (r = -1 /\ drafts m l x v w') \/ (r = 0 /\ inv (entered x v m) (x :: l) w')) w.
Proof.
  intros Hw Hd Hr. pose proof Hw as [[Ht Hl] Hx]. unfold ipf_nat_hashtab_add. rewrite wp_bind. apply wlp_nst. intros e He.
  rewrite wp_bind, wp_gets. cbn [id]. destruct (_ >=? _); [by left|]. destruct (_ >=? _); [by left|].
  unfold refs_are in Hx. rewrite He in Hx. injection Hx as <-. cbn in Hr.
  rewrite wp_bind. unfold wpg at 1. rewrite (upd_nat_run x _ w e He). rewrite !wp_bind, !wp_modify, !wp_bind, !wp_modify, wp_bind, wp_modify.
  rewrite wp_bind.
  pose proof (nat_ok_link cf m w x e Hd He Hr Ht) as T1.
  eapply wp_mono; [apply (wlp_nat_setqueue (shift (-1) e (m <| md_draft := None |> <| md_ahead ::= fun a => a - 1 |>)) (x :: l) x (linked cf x e w));
    split; [exact T1|cbn; by rewrite Hl]|].
  cbv beta. intros _ w2 [T2 Hl2]. rewrite wp_bind, wp_modify, wp_ret. right. split; [done|]. split; [|done].
  apply (nat_ok_active _ _ 1) in T2. eapply nat_ok_mode; [..|exact T2]; try done. cbn. lia.
Qed.
Lemma keeps_insert_ifps (I : W -> Prop) `{!framed I} x : keeps I (insert_ifps x).
Proof. unfold insert_ifps. keep. Qed.
Lemma wlp_nat_insert m l x hm p fr me ref (w : W) : drafts m l x (hm, p, fr, me, ref) w -> md_draft m = Some x ->
  wlp (ipf_nat_insert cf be x) (fun r w' => (r = -1 /\ exists ref, drafts m l x (hm, p, fr, me, ref) w') \/
    (r = 0 /\ inv (entered x (hm, p, fr, me, ref) m) (x :: l) w')) w.
Proof.
  intros Hw Hd. unfold ipf_nat_insert. rewrite wp_bind.
  eapply wp_mono; [apply (keeps_draft m l x (hm, p, fr, me, ref) _ Hd); [|exact Hw]|].
  { intros e. unfold set_hash. by destruct (_ =? NAT_OUTBOUND). }
  cbv beta. intros _ w1 Hw1. rewrite wp_bind. set (r := match me with Some _ => 2 | None => 1 end).
  eapply wp_mono; [apply (wlp_draft m l x (hm, p, fr, me, ref) (hm, p, fr, me, r) _ w1 Hw1 Hd)|].
  { intros e [= <- <- <- <- _]. done. }
  cbv beta. intros _ w2 Hw2. rewrite wp_bind. eapply wp_mono; [by apply (keeps_insert_ifps (drafts m l x (hm, p, fr, me, r)))|].
  cbv beta. intros _ w3 Hw3. eapply wp_mono; [apply (wlp_hashtab_add m l x (hm, p, fr, me, r) w3 Hw3 Hd); cbn; unfold r; by destruct me|].
  cbv beta. intros b w4 [[-> Hw4]|[-> Hw4]]; [left; split; [done|by eexists]|right; by split].
Qed.

(** ** The timeout of a session *)

Lemma keeps_update_queue m l x p rev (w : W) : inv m l w -> wlp (update_queue cf x p rev) (fun q w' => q ∈ nat_queues /\ inv m l w') w.
Proof.
  assert (Hin : forall q, q ∈ [ipf_nat_udptq cf; ipf_nat_udpacktq cf; ipf_nat_icmptq cf; ipf_nat_icmpacktq cf; ipf_nat_iptq cf; ipf_nat_pending cf] ->
    q ∈ nat_queues) by (intros; apply elem_of_app; by right).
  intros Hw. unfold update_queue. rewrite wp_ret. split; [|done]. apply Hin. split_ifs; set_solver.
Qed.
Lemma keeps_nat_update m l x : keeps (inv m l) (ipf_nat_update cf x).
Proof.
  intros w Hw. unfold ipf_nat_update. rewrite wp_bind. apply wlp_nst. intros e He. rewrite wp_bind, wp_gets, wp_bind.
  apply wlp_nent. intros t Et. revert w Hw Et He.
  assert (X : forall (w : W), inv m l w -> ents (nw_heap w) !! x = Some t -> forall fin,
    wlp (if (nat_pr0 e =? IPPROTO_TCP) && bool_decide (@None loc = None) then nat_tcp_age cf x 0 2
         else q2 ← update_queue cf x (nat_pr0 e) (fin_rev fin); q ← need (tqe_ifq t); ticks ← gets nw_ticks; nhp (ipf_movequeue ticks x q q2))
    (fun _ => inv m l) w).
  { intros w Hw Et fin. destruct (_ && _); [by apply keeps_nat_tcp_age|]. rewrite wp_bind. unfold update_queue. rewrite wp_ret.
    set (q2 := if _ : bool then _ else _). assert (Hq : q2 ∈ nat_queues).
    { destruct (keeps_update_queue m l x (nat_pr0 e) (fin_rev fin) w Hw) as [? _]. done. }
    rewrite wp_bind. unfold wpg at 1, need. destruct (tqe_ifq t) as [o|] eqn:Eo; [|done]. rewrite wp_bind, wp_gets.
    apply wlp_nhp; [done|apply nat_queue_move|].
    destruct (qok_move _ _ _ _ x t o q2 (nk_queues _ _ _ (proj1 Hw)) Et Eo Hq) as (h' & R & Hq' & _). unfold wpg. by rewrite R. }
  intros w Hw Et He. rewrite wp_bind. unfold rule_tq. destruct (nat_ptr e) as [r|]; [|rewrite wp_ret; by apply X].
  rewrite wp_bind. apply wlp_rule. intros n Hn. destruct (nk_rules _ _ _ (proj1 Hw) r n Hn) as ((Hq & _) & _). rewrite wp_ret, Hq.
  replace (idx _ (None, None)) with (@None loc) by (unfold idx; by destruct (_ =? 0)). by apply X.
Qed.
Lemma keeps_count_nat m l x out : keeps (inv m l) (count_nat cf x out).
Proof. unfold count_nat. apply keeps_bind; [apply keeps_nat_update|intros _]. keep. Qed.
End Enter.

(** ** Moving and cloning sessions *)

Section Moves.
Context {E : Type} `{nat_env E} (cf : natconf) (be : bool) (own : loc -> Z).
Abbreviation W := (natw E).
Abbreviation nat_ok := (nat_ok (E:=E) cf).
Abbreviation inv := (inv (E:=E) cf).
Abbreviation drafts := (drafts (E:=E) cf).
Abbreviation rest := (nat_table_ok (E:=E) cf own).

(** A table at rest, with its sessions. *)
Definition restm (l : list loc) : mode := mk_mode None (fun x => x ∈ l) 0 true none own none.
Lemma rest_inv w : rest w <-> inv (restm (nw_instances w)) (nw_instances w) w.
Proof. split; [by intros Ht|by intros [Ht _]]. Qed.
Lemma inv_rest l w : inv (restm l) l w -> rest w.
Proof. intros [Ht <-]. exact Ht. Qed.
#[export] Instance framed_rest : framed rest.
Proof.
  split.
  - intros w w' Hs Hw. by eapply nat_table_ok_same.
  - intros y f w Hf Hw. apply (inv_rest (nw_instances w)).
    apply (fr_links (I:=inv (restm (nw_instances w)) (nw_instances w)) y f w Hf). by apply rest_inv.
  - intros w r n Hw. by apply (nk_rules _ _ _ Hw).
  - intros w y e Hw He. exact (se_aps _ _ _ _ (nk_session _ _ _ Hw y e He)).
  - intros w y e Hw He. exact (se_dir _ _ _ _ (nk_session _ _ _ Hw y e He)).
Qed.

(** Into the buckets of the new hash values. *)
Definition rehashed (x : loc) (e : natt) (f : natt -> natt) (w : W) : W :=
  let e' := f e in set_nat x f w
    <| nw_table0 := upd_at (bucket0 cf e') (cons x) (fun i => without x (nw_table0 w i)) |>
    <| nw_table1 := upd_at (bucket1 cf e') (cons x) (fun i => without x (nw_table1 w i)) |>
    <| ns_bucketlen0 ::= fun b => upd_at (bucket0 cf e') (fun n => n + 1) (upd_at (bucket0 cf e) (fun n => n - 1) b) |>
    <| ns_bucketlen1 ::= fun b => upd_at (bucket1 cf e') (fun n => n + 1) (upd_at (bucket1 cf e) (fun n => n - 1) b) |>.
Lemma tab_rehashed x e f w s i : tab s (rehashed x e f w) i = if i =? bucket cf s (f e) then x :: without x (tab s w i) else without x (tab s w i).
Proof. destruct s; cbn; unfold upd_at; by destruct (i =? _). Qed.
Lemma blen_rehashed x e f w s i : blen s (rehashed x e f w) i = blen s w i + b2z (bucket cf s (f e) =? i) - b2z (bucket cf s e =? i).
Proof.
  transitivity (upd_at (bucket cf s (f e)) (fun n => n + 1) (upd_at (bucket cf s e) (fun n => n - 1) (blen s w)) i); [by destruct s|].
  unfold upd_at. rewrite !(Z.eqb_sym i). destruct (_ =? i), (_ =? i); cbn; lia.
Qed.
Lemma nat_ok_rehash m w x e f : nat_ok m w -> nw_nats w !! x = Some e -> md_draft m = None ->
  nat_hm (f e) = nat_hm e /\ nat_ptr (f e) = nat_ptr e /\ nat_fr (f e) = nat_fr e ->
  (session_ok None w x e -> session_ok None w x (f e)) -> nat_ok m (rehashed x e f w).
Proof.
  intros Ht He Hd (Eh & Ep & Ef) Hse. set (w' := rehashed x e f w).
  assert (Hx : x ∈ nw_instances w) by (apply (nk_list _ _ _ Ht); split; [by eexists|by rewrite Hd]).
  assert (Hx' : nw_nats w' !! x = Some (f e)) by exact (set_nat_at x f w e He).
  assert (Hot : forall y, y <> x -> nw_nats w' !! y = nw_nats w !! y) by (intros; by apply (set_nat_other x f w)).
  assert (Hb : forall s i y, y <> x -> at_bucket cf w' s i y = at_bucket cf w s i y) by (intros; apply at_bucket_ext; auto).
  assert (Hbx : forall s i, at_bucket cf w' s i x = (bucket cf s (f e) =? i)) by (intros s i; unfold at_bucket; by rewrite Hx').
  assert (Hbo : forall s i, at_bucket cf w s i x = (bucket cf s e =? i)) by (intros s i; unfold at_bucket; by rewrite He).
  assert (Hh : forall g r, g (f e) = g e -> held g w' r = held g w r).
  { intros g r Hg. rewrite (held_upd g w w' r x); [|apply Ht|done|done|done]. rewrite (refers_plus g w' x (f e) r Hx'), (refers_plus g w x e r He), Hg. lia. }
  destruct Ht. split; try done.
  - intros y Hy. apply set_nat_some in Hy. auto.
  - intros y e0 He0. destruct (decide (y = x)) as [->|Hy].
    + rewrite Hx' in He0. injection He0 as <-. rewrite Hd in *. by destruct (Hse (nk_session x e He)); split.
    + rewrite Hot in He0 by done. by destruct (nk_session y e0 He0); split.
  - intros y. change (nw_instances w') with (nw_instances w). rewrite nk_list. destruct (decide (y = x)) as [->|Hy]; [|by rewrite Hot].
    rewrite Hx', He. split; intros [_ ?]; (split; [by eexists|done]).
  - intros s i. unfold w'. rewrite tab_rehashed. destruct (_ =? _); [apply NoDup_cons; split; [by intros [_ ?]%elem_without|]|]; by apply without_NoDup.
  - intros s i y Hy. unfold w' in Hy. rewrite tab_rehashed in Hy. change (nw_instances w') with (nw_instances w).
    assert (Hold : y ∈ without x (tab s w i) -> y ∈ nw_instances w /\ at_bucket cf w' s i y = true).
    { intros [Hin Hne]%elem_without. destruct (nk_chain s i y Hin). split; [done|]. by rewrite Hb. }
    destruct (Z.eqb_spec i (bucket cf s (f e))) as [->|]; [|auto]. apply elem_of_cons in Hy as [->|Hy]; [|auto].
    split; [done|]. rewrite Hbx. apply Z.eqb_refl.
  - intros Hf s i y Hy Ha. unfold w'. rewrite tab_rehashed. destruct (decide (y = x)) as [->|Hne].
    + rewrite Hbx in Ha. apply Z.eqb_eq in Ha as ->. rewrite Z.eqb_refl. by left.
    + rewrite Hb in Ha by done. assert (y ∈ without x (tab s w i)) by (apply elem_without; split; [by apply nk_full|done]).
      destruct (_ =? _); [by right|done].
  - intros s i. unfold w' at 1. rewrite blen_rehashed, nk_bucketlen, <- Hbx, <- Hbo. symmetry.
    change (nw_instances w') with (nw_instances w). apply count_upd; [done|done|]. intros y Hy. symmetry. by apply Hb.
  - intros y. rewrite Hh by done. apply nk_hm.
  - intros r. rewrite Hh, (made_same w w') by done. apply nk_rule.
  - intros r. rewrite Hh by done. apply nk_fr.
  - exact (fresh_set_nat x f w nk_allocs).
Qed.
Lemma set_hash_links h e : nat_hm (set_hash h e) = nat_hm e /\ nat_ptr (set_hash h e) = nat_ptr e /\ nat_fr (set_hash h e) = nat_fr e /\
  nat_listed (set_hash h e) = nat_listed e /\ nat_ref (set_hash h e) = nat_ref e /\ nat_me (set_hash h e) = nat_me e /\
  nat_aps (set_hash h e) = nat_aps e /\ nat_dir (set_hash h e) = nat_dir e.
Proof. unfold set_hash. by destruct (_ =? NAT_OUTBOUND). Qed.
Lemma tabmove_run x (w : W) e : nw_nats w !! x = Some e -> has (nat_flags e) SI_CLONE = false ->
  ipf_nat_tabmove cf x w = Some (tt, rehashed x e (fun e => set_hash (hash_pair (nat_osrcaddr e) (nat_odstaddr e) (nat_osport e) (nat_odport e),
    hash_pair (nat_nsrcaddr e) (nat_ndstaddr e) (nat_nsport e) (nat_ndport e)) e) w).
Proof.
  intros He Hc. unfold ipf_nat_tabmove. rewrite (bind_eq _ _ _ _ _ (nst_run _ _ _ He)), Hc. rewrite (bind_eq _ _ _ tt _ eq_refl).
  erewrite bind_eq by by eapply upd_nat_run. erewrite bind_eq by (eapply nst_run; exact (set_nat_at x _ w e He)).
  by rewrite (bind_eq _ _ _ tt _ eq_refl).
Qed.
Lemma inv_tabmove m l x (w : W) : inv m l w -> md_draft m = None -> wlp (ipf_nat_tabmove cf x) (fun _ => inv m l) w.
Proof.
  intros [Ht Hl] Hd. unfold wpg. destruct (nw_nats w !! x) as [e|] eqn:He.
  2: { unfold ipf_nat_tabmove, mbind, st_bind, nst. by rewrite He. }
  destruct (has (nat_flags e) SI_CLONE) eqn:Hc.
  { unfold ipf_nat_tabmove. by rewrite (bind_eq _ _ _ _ _ (nst_run _ _ _ He)), Hc. }
  rewrite (tabmove_run x w e He Hc). split; [|done]. pose proof (set_hash_links (hash_pair (nat_osrcaddr e) (nat_odstaddr e) (nat_osport e) (nat_odport e),
    hash_pair (nat_nsrcaddr e) (nat_ndstaddr e) (nat_nsport e) (nat_ndport e)) e) as (E1 & E2 & E3 & E4 & E5 & E6 & E7 & E8).
  apply nat_ok_rehash; [done|done|done|done|]. intros []. split; rewrite ?E4, ?E5, ?E6, ?E7, ?E8; done.
Qed.

(** *** References *)

(** A reference on a rule, a host map or a filter rule is taken or given back. *)
Lemma wlp_rule_ref m l r k (w : W) : inv m l w -> 0 <= k \/ (k = -1 /\ 1 < held nat_ptr w r + made w r + md_rule m r) ->
  wlp (upd_rule r (fun n => n <| in_use ::= fun u => u + k |>)) (fun _ => inv (m <| md_rule ::= plus (Some r) k |>) l) w.
Proof.
  intros [Ht Hl] Hk. unfold wpg, upd_rule. destruct (nw_rules w !! r) as [n|] eqn:Hn; [|done]. split; [|done].
  set (f := fun n : ipnat => n <| in_use ::= fun u => u + k |>). destruct (nk_rules _ _ _ Ht r n Hn) as [Hs1 Hu].
  assert (Hc : 0 < held nat_ptr w r + made w r + md_rule m r -> held nat_ptr w r + made w r + md_rule m r <= in_use n).
  { intros Hp. destruct (nk_rule _ _ _ Ht r Hp) as (n' & ? & ?). congruence. }
  apply (nat_ok_rules cf m w (alter f r (nw_rules w)) (plus (Some r) k (md_rule m)) Ht).
  - intros s n' [(-> & n0 & Hs & ->)|[_ Hs]]%lookup_alter_cases; [|by apply (nk_rules _ _ _ Ht s)].
    assert (n0 = n) as -> by congruence. split; [done|]. cbn. lia.
  - intros s Hs. destruct (decide (s = r)) as [->|Hne].
    + exists (f n). split; [by apply lookup_alter_Some_eq|]. rewrite plus_eq in *. cbn. lia.
    + rewrite plus_ne in * by congruence. rewrite lookup_alter_ne by congruence. by apply (nk_rule _ _ _ Ht).
Qed.
Lemma wlp_hm_ref m l y (w : W) : inv m l w ->
  wlp (upd_hm y (fun h => h <| hm_ref ::= fun n => n + 1 |>)) (fun _ => inv (m <| md_hm ::= plus (Some y) 1 |>) l) w.
Proof.
  intros [Ht Hl]. unfold wpg, upd_hm. destruct (nw_hms w !! y) as [h|] eqn:Hy; [|done]. split; [|done].
  set (f := fun h : hostmap => h <| hm_ref ::= fun n => n + 1 |>). pose proof (proj1 (nk_used _ _ _ Ht) y h Hy) as H0.
  assert (Hc : 0 < held nat_hm w y + md_hm m y -> held nat_hm w y + md_hm m y <= hm_ref h).
  { intros Hp. destruct (nk_hm _ _ _ Ht y Hp) as (h' & ? & ?). congruence. }
  change (nat_ok (m <| md_hm := plus (Some y) 1 (md_hm m) |> <| md_rule := md_rule m |>)
    (w <| nw_hms := alter f y (nw_hms w) |> <| nw_hmlist := nw_hmlist w |>)).
  apply (nat_ok_hms cf m w (alter f y (nw_hms w)) (nw_hmlist w) (plus (Some y) 1 (md_hm m)) (md_rule m) Ht).
  - apply (nk_hmlist _ _ _ Ht).
  - intros z. rewrite alter_some. apply (nk_hmlist _ _ _ Ht).
  - intros z Hz. destruct (decide (z = y)) as [->|Hne].
    + exists (f h). split; [by apply lookup_alter_Some_eq|]. rewrite plus_eq in *. cbn. lia.
    + rewrite plus_ne in * by congruence. rewrite lookup_alter_ne by congruence. by apply (nk_hm _ _ _ Ht).
  - intros r. f_equal. apply count_ext. intros z _. unfold hm_made. cbn. destruct (decide (z = y)) as [->|Hne].
    + by rewrite (lookup_alter_Some_eq _ _ _ _ Hy), Hy.
    + by rewrite lookup_alter_ne by congruence.
  - intros z Hz. rewrite lookup_alter_None. by apply (nk_allocs _ _ _ Ht).
  - intros z h' [(-> & h0 & Hz & ->)|[_ Hz]]%lookup_alter_cases; [|by eapply (proj1 (nk_used _ _ _ Ht))].
    assert (h0 = h) as -> by congruence. cbn. lia.
Qed.
Lemma wlp_fr_ref m l o (w : W) : inv m l w ->
  wlp (match o with Some fr => w ← gets id; k ← need (nw_frs w !! fr); modify (fun w => w <| nw_frs ::= <[fr := k + 1]> |>) | None => mret tt end)
    (fun _ => inv (m <| md_fr ::= plus o 1 |>) l) w.
Proof.
  intros [Ht Hl]. destruct o as [r|].
  2: { rewrite wp_ret. split; [|done]. eapply nat_ok_mode; [..|exact Ht]; try done. intros r. cbn. by rewrite plus_none. }
  rewrite wp_bind, wp_gets, wp_bind. unfold wpg at 1, need. cbn [id]. destruct (nw_frs w !! r) as [k|] eqn:Hr; [|done].
  rewrite wp_modify. split; [|done]. pose proof (proj2 (nk_used _ _ _ Ht) r k Hr) as H0.
  assert (Hc : 0 < held nat_fr w r + md_fr m r -> held nat_fr w r + md_fr m r <= k).
  { intros Hp. destruct (nk_fr _ _ _ Ht r Hp) as (k' & ? & ?). congruence. }
  apply (nat_ok_frs cf m w (<[r := k + 1]> (nw_frs w)) (plus (Some r) 1 (md_fr m)) Ht).
  - intros s n [[_ <-]|[_ Hs]]%lookup_insert_Some; [lia|by eapply (proj2 (nk_used _ _ _ Ht))].
  - intros s Hs. destruct (decide (s = r)) as [->|Hne].
    + exists (k + 1). split; [by rewrite lookup_insert_eq|]. rewrite plus_eq in *. lia.
    + rewrite plus_ne in * by congruence. rewrite lookup_insert_ne by congruence. by apply (nk_fr _ _ _ Ht).
Qed.
Lemma inv_mode m m' l (w : W) : md_draft m' = md_draft m -> (forall x, md_queued m x <-> md_queued m' x) -> md_ahead m' = md_ahead m ->
  md_full m' = md_full m -> (forall r, md_hm m' r <= md_hm m r) -> (forall r, md_rule m' r <= md_rule m r) ->
  (forall r, md_fr m' r <= md_fr m r) -> inv m l w -> inv m' l w.
Proof. intros ?? ? Ef ??? [Ht ?]. split; [|done]. eapply nat_ok_mode; [..|exact Ht]; try done. by rewrite Ef. Qed.

(** A session that is not in the table is given back. *)
Lemma wlp_kfree m l x v (w : W) : drafts m l x v w -> md_draft m = Some x -> ~ md_queued m x ->
  wlp (kfree_nat x) (fun _ => inv (m <| md_draft := None |>) l) w.
Proof. intros [[Ht Hl] _] Hd Hq. unfold kfree_nat. rewrite wp_modify. split; [by apply (nat_ok_free cf m w x)|done]. Qed.

Lemma keeps_refs_hm x v y f : keeps (refs_are (E:=E) x v) (upd_hm y f).
Proof. intros w Hw. unfold wpg, upd_hm. by destruct (nw_hms w !! y). Qed.
(** What a session refers to, from the references that are still local. *)
Lemma wlp_take_hm m l x v o (w : W) : drafts m l x v w ->
  wlp (match o with Some h => upd_hm h (fun h => h <| hm_ref ::= fun n => n + 1 |>) | None => mret tt end)
    (fun _ => drafts (m <| md_hm ::= plus o 1 |>) l x v) w.
Proof.
  intros [Hi Hx]. destruct o as [h|].
  - apply wlp_and; [by apply wlp_hm_ref|by apply keeps_refs_hm].
  - rewrite wp_ret. split; [|done]. eapply inv_mode; [..|exact Hi]; try done. intros r. cbn. by rewrite plus_none.
Qed.
Lemma wlp_take_rule m l p (log : ST W unit) (w : W) : keeps (inv m l) log -> inv m l w ->
  wlp (match p with Some np => log;; upd_rule np (fun n => n <| in_use ::= fun u => u + 1 |>) | None => mret tt end)
    (fun _ => inv (m <| md_rule ::= plus p 1 |>) l) w.
Proof.
  intros Hlog Hw. destruct p as [np|].
  - rewrite wp_bind. eapply wp_mono; [by apply Hlog|]. cbv beta. intros _ w1 Hw1. apply wlp_rule_ref; [done|left; lia].
  - rewrite wp_ret. eapply inv_mode; [..|exact Hw]; try done. intros r. cbn. by rewrite plus_none.
Qed.
Lemma plus_minus o d r : plus o 1 (plus o (-1) d) r = d r /\ plus o (-1) (plus o 1 d) r = d r.
Proof. unfold plus. split; lia. Qed.

(** *** [ipf_nat_clone] *)

Lemma keeps_clone_tail m l c fin : keeps (inv m l) (e ← nst c;
  when_ (nat_pr0 e =? IPPROTO_TCP) (nat_tcp_age cf c (nat_flags e) 2);;
  s ← next (nenv_sync_new c fin); upd_nat c (fun e => e <| nat_sync := s |>);;
  when_ (negb (ipf_nat_logging cf =? 0)) (next_ (nenv_log c NL_CLONE));; mret (Some c)).
Proof. pose proof (keeps_nat_tcp_age (E:=E) cf m l c). keep. Qed.
Lemma wlp_clone x (w : W) : rest w -> wlp (ipf_nat_clone cf be x) (fun _ => rest) w.
Proof.
  intros Hw. unfold ipf_nat_clone. rewrite wp_bind.
  apply (wlp_nkmalloc cf (resting own true w)); [done|intros al Ht; rewrite wp_ret; exact Ht|]. intros al c Ht Hc.
  set (w1 := w <| nw_allocs := al |>) in *. change (resting own true w) with (resting own true w1) in Ht. clearbody w1.
  rewrite wp_bind. apply wlp_nst. intros e He. rewrite wp_bind. apply wlp_nent. intros t Et. rewrite wp_bind, wp_gets, wp_bind, wp_modify.
  change (id t) with t. set (l := nw_instances w1). set (e' := e <| nat_rev := _ |> <| nat_aps := _ |> <| nat_flags := _ |>). set (t' := t <| tqe_pnext := _ |> <| tqe_next := _ |> <| tqe_ifq := _ |> <| tqe_parent := _ |>).
  destruct (nk_session _ _ _ Ht x e He) as [_ _ Hme _ Hdir].
  destruct (nk_queues _ _ _ Ht) as [Q HQ]. destruct (qr_ents _ _ _ _ _ HQ x t Et) as [Hu Hp _ _].
  set (m2 := restm l <| md_draft := Some c |>).
  assert (T2 : drafts m2 l c (refs e') (w1 <| nw_nats ::= <[c := e']> |> <| nw_heap ::= fun h => h <| ents ::= <[c := t']> |> |>)).
  { split; [split; [|done]|unfold refs_are; cbn; by rewrite lookup_insert_eq].
    apply (nat_ok_create cf (restm l) w1 c e' t'); done. }
  rewrite wp_bind. eapply wp_mono; [by apply wlp_take_hm|]. cbv beta. intros _ w3 H3.
  rewrite wp_bind. eapply wp_mono; [exact (wlp_nat_insert cf be (m2 <| md_hm ::= plus (nat_hm e) 1 |>) l c _ _ _ _ _ w3 H3 eq_refl)|]. cbv beta. intros r w4 [[-> [ref H4]]|[-> H4]].
  { change (-1 =? -1) with true. cbv iota. rewrite wp_bind. eapply wp_mono; [apply (wlp_kfree _ l c _ w4 H4 eq_refl)|].
    - intros Hin. destruct Hc as [Hn _]. apply (nk_list _ _ _ Ht) in Hin as [[e0 He0] _]. congruence.
    - cbv beta. intros _ w5 H5. rewrite wp_ret. apply (inv_rest l). eapply inv_mode; [..|exact H5]; try done.
      intros r. cbn. unfold plus, none. pose proof (b2z_range (bool_decide (nat_hm e = Some r))). lia. }
  change (0 =? -1) with false. cbv iota. rewrite wp_bind. eapply wp_mono; [apply (wlp_take_rule (entered c (refs e') (m2 <| md_hm ::= plus (nat_hm e) 1 |>)) (c :: l) (nat_ptr e)
    (when_ (negb (ipf_nat_logging cf =? 0)) (next_ (nenv_log c NL_CLONE)))); [keep|exact H4]|].
  cbv beta. intros _ w5 H5. rewrite wp_bind. eapply wp_mono; [exact (wlp_fr_ref _ (c :: l) (nat_fr e) w5 H5)|].
  cbv beta. intros _ w6 H6. apply (wp_mono _ _ (fun _ => inv (restm (c :: l)) (c :: l))); [|intros _ w7; apply inv_rest].
  assert (H7 : inv (restm (c :: l)) (c :: l) w6).
  { eapply inv_mode; [..|exact H6]; try done.
    - intros y. cbn. rewrite elem_of_cons. tauto.
    - intros r. cbn. change (nat_hm e') with (nat_hm e). rewrite (proj2 (plus_minus _ _ _)). done.
    - intros r. cbn. change (nat_ptr e') with (nat_ptr e). rewrite (proj1 (plus_minus _ _ _)). done.
    - intros r. cbn. change (nat_fr e') with (nat_fr e). rewrite (proj1 (plus_minus _ _ _)). done. }
  by apply (keeps_clone_tail (restm (c :: l)) (c :: l) c).
Qed.

(** *** The lookups, wildcards included *)

Lemma bind_ports_links same sport dport e : same_links e (bind_ports same sport dport e).
Proof. unfold bind_ports. cbv zeta. by destruct same, (nat_osport e =? 0); cbn; destruct (nat_odport e =? 0). Qed.
Lemma rest_tabmove x : keeps rest (ipf_nat_tabmove cf x).
Proof.
  intros w Hw. apply rest_inv in Hw. eapply wp_mono; [by apply (inv_tabmove _ _ x w Hw)|]. cbv beta. intros _ w'. apply inv_rest.
Qed.
Lemma rest_take_wild dir bound sport dport x : (forall y, keeps rest (bound y)) -> keeps rest (take_wild cf be dir bound sport dport x).
Proof.
  intros Hb. unfold take_wild. apply keeps_bind; [keep|intros e]. apply keeps_bind; [keep|intros fin]. apply keeps_if; [keep|].
  apply keeps_bind; [apply keeps_if; [intros w Hw; by apply wlp_clone|keep]|intros [y|]; [|keep]].
  apply keeps_bind; [|intros _].
  { apply (keeps_upd_nat rest). intros e0. destruct (_ || _); [apply bind_ports_links|done]. }
  apply keeps_bind; [apply Hb|intros _]. apply keeps_bind; [keep|intros _]. apply keeps_bind; [apply rest_tabmove|intros _]. keep.
Qed.
Lemma rest_find_wild matches dir bound sport dport l : (forall y, keeps rest (bound y)) ->
  keeps rest (find_wild cf be matches dir bound sport dport l).
Proof.
  intros Hb. induction l as [|x l IH]; cbn [find_wild]; [keep|]. apply keeps_bind; [keep|intros e].
  apply keeps_if; [by apply rest_take_wild|done].
Qed.
Lemma rest_inlookup flags p src dst : keeps rest (ipf_nat_inlookup cf be flags p src dst).
Proof.
  unfold ipf_nat_inlookup. apply keeps_bind; [keep|intros w]. destruct (nat_ports _ _ _ _) as [sport dport].
  apply keeps_bind; [apply keeps_if; [keep|apply keeps_find_nat; [apply framed_rest|intros; apply keeps_bind_ifp0, framed_rest]]|intros [x|]; [keep|]].
  apply keeps_bind; [keep|intros w2]. apply keeps_if; [keep|]. apply rest_find_wild. intros. apply keeps_bind_ifp0, framed_rest.
Qed.
Lemma rest_outlookup flags p src dst : keeps rest (ipf_nat_outlookup cf be flags p src dst).
Proof.
  unfold ipf_nat_outlookup. apply keeps_bind; [keep|intros w]. destruct (nat_ports _ _ _ _) as [sport dport].
  apply keeps_bind; [apply keeps_if; [keep|apply keeps_find_nat; [apply framed_rest|intros; apply keeps_bind_ifp1, framed_rest]]|intros [x|]; [keep|]].
  apply keeps_bind; [keep|intros w2]. apply keeps_if; [keep|]. apply rest_find_wild. intros. apply keeps_bind_ifp1, framed_rest.
Qed.

(** ** Host maps while a session is made *)

Lemma find_hm_same src dst np port l (w : W) : wlp (find_hm src dst np port l) (fun _ w' => w' = w) w.
Proof.
  revert w. induction l as [|y l IH]; intros w; cbn [find_hm]; [done|]. rewrite wp_bind. unfold wpg at 1, hmst.
  destruct (nw_hms w !! y) as [h|]; [|done]. cbn. destruct (hm_matches _ _ _ _ _); [done|apply IH].
Qed.
Lemma wlp_nupd_rule r f Q (w : W) : (forall n, nw_rules w !! r = Some n -> Q tt (w <| nw_rules ::= alter f r |>)) -> wlp (upd_rule r f) Q w.
Proof. intros Hk. unfold wpg, upd_rule. destruct (nw_rules w !! r) as [n|]; [by eapply Hk|done]. Qed.
Lemma wlp_hostmap m l np src dst map port (w : W) : inv m l w ->
  wlp (ipf_nat_hostmap cf np src dst map port) (fun y w' => inv (m <| md_hm ::= plus y 1 |>) l w' /\ nw_nats w' = nw_nats w) w.
Proof.
  intros Hw. unfold ipf_nat_hostmap. rewrite wp_bind, wp_gets, wp_bind. eapply wp_mono; [apply find_hm_same|]. cbv beta.
  assert (Hnone : forall w, inv m l w -> inv (m <| md_hm ::= plus None 1 |>) l w).
  { clear w Hw. intros w Hw. eapply inv_mode; [..|exact Hw]; try done. intros r. cbn. by rewrite plus_none. }
  intros [y|] w1 ->.
  { rewrite wp_bind. eapply (wp_mono _ _ (fun _ w' => inv (m <| md_hm ::= plus (Some y) 1 |>) l w' /\ nw_nats w' = nw_nats w)); [|done].
    apply wlp_and; [by apply wlp_hm_ref|]. unfold wpg, upd_hm. by destruct (nw_hms w !! y). }
  destruct np as [r|]; [|rewrite wp_ret; by split; [apply Hnone|]].
  rewrite wp_bind. destruct Hw as [Ht Hl]. apply (wlp_nkmalloc cf m); [done|intros al T; rewrite wp_ret; by split; [apply Hnone; split|]|].
  intros al y T Hy. set (w1 := w <| nw_allocs := al |>) in *. change (nw_instances w1 = l) in Hl.
  change (nw_nats w) with (nw_nats w1). clearbody w1. clear Ht w.
  rewrite wp_bind, wp_modify, wp_bind. apply wlp_nupd_rule. intros n Hn. change (nw_rules w1 !! r = Some n) in Hn.
  rewrite wp_bind, wp_modify, wp_ret. split; [|done]. split; [|done].
  pose proof (wlp_rule_ref m l r 1 w1 (conj T Hl) ltac:(left; lia)) as T2. unfold wpg, upd_rule in T2. rewrite Hn in T2.
  destruct T2 as [T2 _]. set (w2 := w1 <| nw_rules ::= alter _ r |>) in T2.
  set (h := mk_hostmap r src dst map 0 port 1 _ 4). destruct Hy as (_ & _ & Hy & Hay).
  apply (nat_ok_same cf _ (w2 <| nw_hms := <[y := h]> (nw_hms w2) |> <| nw_hmlist := y :: nw_hmlist w2 |>)); [nat_core|].
  destruct (nk_hmlist _ _ _ T2) as [Hnd Hin].
  assert (Hny : y ∉ nw_hmlist w2) by (intros Hi; apply Hin in Hi as [h0 Hh0]; cbn in Hh0; congruence).
  apply (nat_ok_hms cf _ w2 (<[y := h]> (nw_hms w2)) (y :: nw_hmlist w2) (plus (Some y) 1 (md_hm m)) (md_rule m)) in T2; [exact T2|..].
  - by apply NoDup_cons.
  - intros z. rewrite elem_of_cons, lookup_insert_is_Some'. rewrite Hin. split; intros [?|?]; auto.
  - intros z Hz. change (held nat_hm w2 z) with (held nat_hm w1 z) in *. destruct (decide (z = y)) as [->|Hne].
    + exists h. split; [by rewrite lookup_insert_eq|]. rewrite plus_eq in *. cbn.
      destruct (decide (0 < held nat_hm w1 y + md_hm m y)) as [Hp|]; [|lia]. destruct (nk_hm _ _ _ T y Hp) as (h0 & ? & _). congruence.
    + rewrite plus_ne in * by congruence. rewrite lookup_insert_ne by congruence. by apply (nk_hm _ _ _ T).
  - intros s. set (w3 := w2 <| nw_hms := _ |> <| nw_hmlist := _ |>).
    assert (Hm1 : hm_made w3 s y = bool_decide (r = s)) by (unfold hm_made; cbn; by rewrite lookup_insert_eq).
    assert (Hm2 : count (hm_made w3 s) (nw_hmlist w2) = made w2 s).
    { apply count_ext. intros z Hz. unfold hm_made. cbn. by rewrite lookup_insert_ne by congruence. }
    change (made w3 s) with (count (hm_made w3 s) (y :: nw_hmlist w2)). rewrite count_cons, Hm1, Hm2. cbn. unfold plus.
    rewrite (bool_decide_ext (Some r = Some s) (r = s)) by (split; congruence). lia.
  - intros z Hz. change (Some z ∈ nw_allocs w1) in Hz. apply lookup_insert_None. split; [by apply (nk_allocs _ _ _ T)|]. by intros ->.
  - intros z h' [[_ <-]|[_ Hz]]%lookup_insert_Some; [cbn; lia|by eapply (proj1 (nk_used _ _ _ T))].
Qed.
Lemma wlp_hostmapdel m l y (w : W) : inv m l w -> (forall r, 0 <= md_rule m r) -> 0 < held nat_hm w y + md_hm m y ->
  wlp (ipf_nat_hostmapdel y) (fun _ w' => inv (m <| md_hm ::= plus (Some y) (-1) |>) l w' /\ nw_nats w' = nw_nats w) w.
Proof.
  intros [Ht Hl] Hr Hc. destruct (hostmapdel_run cf m w y Ht Hr Hc) as (w' & R & T & S). unfold wpg. rewrite R.
  split; [|apply S]. split; [done|]. by rewrite (st_instances _ _ S).
Qed.

(** ** New sessions *)

Section Making.
Context (Hown : forall r, 0 <= own r) (l : list loc) (x : loc) (Hx : x ∉ l).

(** The mode while the session [x] is made, which holds the host map [hm]; [making]: it
    refers to nothing else yet. *)
Definition draftm (hm : option loc) : mode := restm l <| md_draft := Some x |> <| md_hm := plus hm 1 none |>.
Definition making (hm : option loc) : W -> Prop := drafts (draftm hm) l x (hm, None, None, None, 0).

Lemma drafts_mode m m' v (w : W) : md_draft m' = md_draft m -> (forall y, md_queued m y <-> md_queued m' y) -> md_ahead m' = md_ahead m ->
  md_full m' = md_full m -> (forall r, md_hm m' r <= md_hm m r) -> (forall r, md_rule m' r <= md_rule m r) ->
  (forall r, md_fr m' r <= md_fr m r) -> drafts m l x v w -> drafts m' l x v w.
Proof. intros ??????? [Hi ?]. split; [|done]. by eapply inv_mode; [..|exact Hi]. Qed.
(** A host map is found or made, and given back. *)
Lemma wlp_draft_hostmap v np src dst map port (w : W) : drafts (draftm None) l x v w ->
  wlp (ipf_nat_hostmap cf np src dst map port) (fun y => drafts (draftm y) l x v) w.
Proof.
  intros [Hi Hv]. eapply wp_mono; [exact (wlp_hostmap _ l np src dst map port w Hi)|]. cbv beta. intros y w' [Hi' En].
  split; [|by unfold refs_are; rewrite En]. eapply inv_mode; [..|exact Hi']; done.
Qed.
Lemma wlp_draft_hostmapdel v y (w : W) : drafts (draftm (Some y)) l x v w ->
  wlp (ipf_nat_hostmapdel y) (fun _ => drafts (draftm None) l x v) w.
Proof.
  intros [Hi Hv]. eapply wp_mono; [apply (wlp_hostmapdel _ l y w Hi); [exact Hown|]|].
  { pose proof (held_nonneg nat_hm w y). cbn. rewrite plus_eq. unfold none. lia. }
  cbv beta. intros _ w' [Hi' En]. split; [|by unfold refs_are; rewrite En]. eapply inv_mode; [..|exact Hi']; try done.
  intros r. cbn. unfold plus, none. rewrite (bool_decide_false (None = Some r)) by done. by destruct (bool_decide _).
Qed.

(** *** The search for an address *)

Lemma wlp_map_hm v np k hm (w : W) : (k = 0 -> hm = None) -> drafts (draftm hm) l x v w ->
  wlp (map_hm cf be np k hm) (fun o => drafts (draftm (fst o)) l x v) w.
Proof.
  intros Hk Hw. unfold map_hm. rewrite wp_bind. apply wlp_rule. intros r _. rewrite wp_bind, wp_gets. cbv zeta.
  destruct (Z.eqb_spec k 0) as [E0|_].
  { rewrite (Hk E0) in Hw. rewrite wp_bind. eapply wp_mono; [by apply wlp_draft_hostmap|]. cbv beta. intros [y|] w1 H1; [|by rewrite wp_ret].
    rewrite wp_bind. unfold wpg at 1, hmst. by destruct (nw_hms w1 !! y). }
  destruct (k =? 1); [|by rewrite wp_ret]. destruct hm as [y|]; [|by rewrite wp_ret].
  rewrite wp_bind. eapply wp_mono; [by apply wlp_draft_hostmapdel|]. cbv beta. intros _ w1 H1. by rewrite wp_ret.
Qed.
(** What a rule keeps while its addresses and ports are chosen. *)
Definition same_use (r r' : ipnat) : Prop := in_use r' = in_use r /\ (simple_rule r -> simple_rule r').
Lemma same_use_refl r : same_use r r.
Proof. by split. Qed.
Lemma map_addr_use r saddr flags k sport in1 hm ifa (w : W) :
  wlp (map_addr be r saddr flags k sport in1 hm ifa)
    (fun o w' => w' = w /\ forall a p r', o = Some (a, p, r') -> same_use r r') w.
Proof.
  unfold map_addr.
  repeat match goal with
    | |- wpg _ (if ?b then _ else _) _ _ => destruct b
    | |- wpg _ (match ?o with Some _ => _ | None => _ end) _ _ => destruct o
    end; try done; rewrite wp_ret; (split; [done|]); intros ??? [= _ _ <-]; try apply same_use_refl; by split.
Qed.
Lemma map_port_use r saddr flags k sport port (w : W) :
  wlp (map_port be r saddr flags k sport port)
    (fun o w' => nat_same_core w w' /\ nw_rules w' = nw_rules w /\ nw_nats w' = nw_nats w /\ same_use r (snd o)) w.
Proof.
  pose proof (nat_same_core_refl w) as Hs. pose proof (same_use_refl r).
  unfold map_port.
  repeat match goal with |- wpg _ (if ?b then _ else _) _ _ => destruct b end; try done;
    try (rewrite wp_ret; split_and!; [done..|]; cbn; repeat case_match; by split).
  rewrite wp_bind. destruct (has (in_flags r) IPN_SEQUENTIAL).
  { rewrite wp_ret, wp_ret. split_and!; [done..|]. cbn. repeat case_match; by split. }
  rewrite wp_bind. unfold wpg at 1, next. destruct (nenv_random (nw_ext w)) as [v e]. cbn.
  case_match; [done|]. rewrite !wp_ret. split_and!; [nat_core|done..|]. cbn. repeat case_match; by split.
Qed.
Lemma wrap_snip_use r : same_use r (wrap_snip be r).
Proof. unfold wrap_snip. repeat case_match; by split. Qed.
Lemma keeps_taken hm flags dst inb port : keeps (making hm) (taken cf be flags dst inb port).
Proof.
  unfold taken. apply keeps_bind; [keep|intros fin]. apply keeps_bind; [keep|intros _]. apply keeps_bind; [|keep].
  apply keeps_inlookup; [typeclasses eauto|]. apply search_flags.
Qed.
Lemma wlp_newmap_round np si sp sport flags k hm (w : W) : (k = 0 -> hm = None) -> making hm w ->
  wlp (newmap_round cf be x np si sp sport flags k hm)
    (fun o w' => exists hm', making hm' w' /\ forall h, o = RoundTaken h -> h = hm') w.
Proof.
  intros Hk Hw. unfold newmap_round. rewrite wp_bind. eapply wp_mono; [by apply wlp_map_hm|]. cbv beta. intros [h1 in1] w1 H1. cbn in H1.
  rewrite wp_bind. eapply wp_mono; [apply (wlp_draft _ _ _ _ _ (h1, None, None, None, 0) _ _ H1 eq_refl)|].
  { intros e [= _ E2 E3 E4 E5]. split_and!; try done. unfold refs. cbn. congruence. }
  cbv beta. intros _ w2 H2. rewrite wp_bind. apply wlp_rule. intros r Hr. rewrite wp_bind, wp_gets, wp_bind. cbv zeta.
  eapply wp_mono; [apply map_addr_use|]. cbv beta. intros o w2' [-> Ho].
  destruct o as [[[a p] r1]|]; [|rewrite wp_ret; by exists h1]. destruct (Ho _ _ _ eq_refl) as [U1 P1].
  rewrite wp_bind. eapply wp_mono; [apply map_port_use|]. cbv beta. intros [p1 r2] w3 (S3 & R3 & N3 & U2 & P2). cbn in U2, P2.
  destruct (wrap_snip_use r2) as [U3 P3]. pose proof (fr_core _ _ S3 H2) as H3. change (making h1 w3) in H3.
  rewrite wp_bind. apply wlp_nupd_rule. intros n Hn. assert (n = r) as -> by congruence.
  assert (H4 : making h1 (w3 <| nw_rules ::= alter (fun _ => wrap_snip be r2) np |>)).
  { apply (fr_core w3); [|exact H3]. apply (nat_core_rule w3 np r (fun _ => wrap_snip be r2) Hn).
    - intros [? _]. auto.
    - lia. }
  rewrite wp_bind. eapply wp_mono; [by apply keeps_taken|]. cbv beta. intros t w5 H5.
  destruct t; cbn [negb]; [destruct (_ && _)|]; rewrite wp_ret; exists h1; (split; [done|]); congruence.
Qed.
Lemma wlp_newmap_search fuel : forall np si sp sport flags k hm (w : W), 0 <= k -> (k = 0 -> hm = None) -> making hm w ->
  wlp (newmap_search cf be fuel x np si sp sport flags k hm) (fun _ w' => exists hm', making hm' w') w.
Proof.
  induction fuel as [|fuel IH]; intros np si sp sport flags k hm w H0 Hk Hw; cbn [newmap_search]; [rewrite wp_ret; by exists hm|].
  rewrite wp_bind. eapply wp_mono; [by apply wlp_newmap_round|]. cbv beta. intros [|a p|h] w' (hm' & Hm & Ht); try (rewrite wp_ret; by eexists).
  rewrite (Ht h eq_refl). apply IH; [lia|lia|done].
Qed.

(** A session that refers to a host map at most. *)
Definition some_making (w : W) : Prop := exists hm, making hm w.
Lemma making_hm hm (w : W) e : making hm w -> nw_nats w !! x = Some e -> nat_hm e = hm.
Proof. intros [_ Hv] He. unfold refs_are in Hv. rewrite He in Hv. by injection Hv. Qed.
Lemma keeps_making hm f : (forall e, nat_aps (f e) = nat_aps e /\ nat_dir (f e) = nat_dir e /\ refs (f e) = refs e) ->
  keeps (making hm) (upd_nat x f).
Proof. by apply keeps_draft. Qed.
#[local] Hint Extern 1 (keeps (making _) (upd_nat _ _)) => (apply keeps_making; done) : keeps.
#[local] Hint Resolve keeps_wr_nbuf : keeps.
(** The host map of the session, made when there is none. *)
Lemma wlp_give_hostmap np src dst map port (w : W) : making None w ->
  wlp (h ← ipf_nat_hostmap cf np src dst map port; upd_nat x (fun e => e <| nat_hm := h |>)) (fun _ => some_making) w.
Proof.
  intros Hw. rewrite wp_bind. eapply wp_mono; [by apply wlp_draft_hostmap|]. cbv beta. intros h w1 H1.
  eapply wp_mono; [apply (wlp_draft _ _ _ _ _ (h, None, None, None, 0) _ _ H1 eq_refl)|cbv beta; intros _ w2 H2; by exists h].
  intros e [= _ E2 E3 E4 E5]. split_and!; try done. unfold refs. cbn. congruence.
Qed.
Lemma keeps_some {A} (m : ST W A) : (forall hm, keeps (making hm) m) -> keeps some_making m.
Proof. intros Hm w [hm Hw]. eapply wp_mono; [by apply Hm|]. cbv beta. intros _ w' Hw'. by exists hm. Qed.
Lemma wlp_newmap_fill np flags sport dport addr port : keeps some_making (newmap_fill cf be x np flags sport dport addr port).
Proof.
  intros w [hm Hw]. unfold newmap_fill. rewrite wp_bind, wp_gets, wp_bind.
  eapply wp_mono; [eapply keeps_making; [|exact Hw]; done|]. cbv beta. intros _ w1 H1. rewrite wp_bind. apply wlp_nst. intros e He.
  rewrite (making_hm _ _ _ H1 He). rewrite wp_bind. apply (wp_mono _ _ (fun _ => some_making)).
  - destruct hm; [rewrite wp_ret; by eexists|]. by apply wlp_give_hostmap.
  - cbv beta. intros _ w2. apply keeps_some. intros h. keep.
Qed.
Lemma wlp_newmap fuel np (w : W) : making None w -> wlp (ipf_nat_newmap cf be fuel x np) (fun _ => some_making) w.
Proof.
  intros Hw. unfold ipf_nat_newmap. rewrite wp_bind. apply wlp_rule. intros r _. rewrite wp_bind. apply wlp_nst. intros e _.
  rewrite wp_bind, wp_gets. cbv zeta. destruct (map_ports _ _) as [sport dport]. rewrite wp_bind.
  eapply wp_mono; [by apply wlp_newmap_search|]. cbv beta. intros [|a p|] w' Hm; try by rewrite wp_ret.
  rewrite wp_bind. eapply wp_mono; [by apply wlp_newmap_fill|]. cbv beta. intros _ w2 H2. by rewrite wp_ret.
Qed.

(** *** Redirection *)

(** A host map is looked at, and given back at once. *)
Lemma wlp_hm_read {B} y (k : hostmap -> ST W B) Q (w : W) : (forall h, wlp (k h) Q w) -> wlp (hmst y ≫= k) Q w.
Proof. intros Hk. rewrite wp_bind. unfold wpg at 1, hmst. destruct (nw_hms w !! y) as [h|]; [exact (Hk h)|done]. Qed.
Lemma wlp_sticky_hm np dport : keeps (making None) (sticky_hm cf np dport).
Proof.
  intros w Hw. unfold sticky_hm. rewrite wp_bind. apply wlp_rule. intros r _. rewrite wp_bind, wp_gets.
  destruct (_ && _); [|by rewrite wp_ret]. rewrite wp_bind. eapply wp_mono; [by apply wlp_draft_hostmap|]. cbv beta.
  intros [y|] w1 H1; [|by rewrite wp_ret]. apply wlp_hm_read. intros h. rewrite wp_bind.
  eapply wp_mono; [by apply wlp_draft_hostmapdel|]. cbv beta. intros _ w2 H2. by rewrite wp_ret.
Qed.
Lemma wlp_split_addr np dport move : keeps (making None) (split_addr cf be np dport move).
Proof.
  intros w Hw. unfold split_addr. rewrite wp_bind. apply wlp_rule. intros r _. rewrite wp_bind, wp_gets, wp_bind.
  apply (wp_mono _ _ (fun h => drafts (draftm h) l x (None, None, None, None, 0))).
  { destruct (_ =? IPN_STICKY); [by apply wlp_draft_hostmap|by rewrite wp_ret]. }
  cbv beta. intros h w1 H1. rewrite wp_bind. apply (wp_mono _ _ (fun _ => drafts (draftm h) l x (None, None, None, None, 0))).
  { destruct h as [y|]; [apply wlp_hm_read; intros hm|]; by rewrite wp_ret. }
  cbv beta. intros [[addr mv] adv] w2 H2. cbv beta iota zeta. rewrite wp_bind.
  apply (wp_mono _ _ (fun _ => drafts (draftm h) l x (None, None, None, None, 0))).
  { revert w2 H2. change (keeps (drafts (draftm h) l x (None, None, None, None, 0)) (if adv then
      if in_ndstaddr r =? htonl be addr then upd_rule np (fun r => r <| in_dnip := ntohl be (in_ndstmsk r) |>);; mret false
      else upd_rule np (fun r => r <| in_dnip := ntohl be (in_ndstaddr r) |>);; mret mv else mret mv)). keep. }
  cbv beta. intros mv2 w3 H3. rewrite wp_bind. apply (wp_mono _ _ (fun _ => making None)).
  { destruct h as [y|]; [by apply wlp_draft_hostmapdel|by rewrite wp_ret]. }
  cbv beta. intros _ w4 H4. by rewrite wp_ret.
Qed.
Lemma wlp_rdr_addr np dport move : keeps (making None) (rdr_addr cf be np dport move).
Proof. pose proof wlp_split_addr as Hs. unfold rdr_addr. keep. Qed.
Lemma keeps_rdr_port np flags dport : keeps (making None) (rdr_port be np flags dport).
Proof. unfold rdr_port. keep. Qed.
Lemma keeps_rdr_taken flags src inb port : keeps (making None) (rdr_taken cf be flags src inb port).
Proof.
  unfold rdr_taken. apply keeps_bind; [keep|intros fin]. apply keeps_bind; [keep|intros _]. apply keeps_bind; [|keep].
  apply keeps_outlookup; [typeclasses eauto|]. apply search_flags.
Qed.
Lemma wlp_newrdr_fill np flags sport dport addr nport (w : W) : making None w ->
  wlp (newrdr_fill cf be x np flags sport dport addr nport) (fun _ => some_making) w.
Proof.
  intros Hw. unfold newrdr_fill. rewrite wp_bind. apply wlp_rule. intros r _. rewrite wp_bind, wp_gets, wp_bind.
  eapply wp_mono; [eapply keeps_making; [|exact Hw]; done|]. cbv beta. intros _ w1 H1. rewrite wp_bind. apply wlp_nst. intros e He.
  rewrite (making_hm _ _ _ H1 He). rewrite wp_bind. apply (wp_mono _ _ (fun _ => some_making)).
  - destruct (has _ IPN_STICKY); cbn [when_]; [by apply wlp_give_hostmap|]. rewrite wp_ret. by exists None.
  - cbv beta. intros _ w2. apply keeps_some. intros h. keep.
Qed.
Lemma wlp_newrdr np (w : W) : making None w -> wlp (ipf_nat_newrdr cf be x np) (fun _ => some_making) w.
Proof.
  intros Hw. assert (Hnone : forall w, making None w -> some_making w) by (intros; by exists None).
  unfold ipf_nat_newrdr. rewrite wp_bind. apply wlp_nst. intros e _. rewrite wp_bind, wp_gets. cbv zeta.
  destruct (if has _ IPN_ICMPQUERY then _ else _) as [dport sport]. rewrite wp_bind. eapply wp_mono; [by apply wlp_sticky_hm|]. cbv beta.
  intros s w1 H1. destruct (match s with Some np => _ | None => _ end) as [np1 mv]. rewrite wp_bind.
  eapply wp_mono; [by apply wlp_rdr_addr|]. cbv beta. intros [[addr mv2]|] w2 H2; [|rewrite wp_ret; auto].
  rewrite wp_bind. eapply wp_mono; [by apply keeps_rdr_port|]. cbv beta. intros nport w3 H3.
  destruct (_ && _); [rewrite wp_ret; auto|]. cbv zeta. rewrite wp_bind. eapply wp_mono; [by apply keeps_rdr_taken|]. cbv beta.
  intros t w4 H4. destruct t; [rewrite wp_ret; auto|]. rewrite wp_bind. eapply wp_mono; [by apply wlp_newrdr_fill|].
  cbv beta. intros _ w5 H5. by rewrite wp_ret.
Qed.

(** *** The session is finished, or given up *)

Lemma wlp_finalise hm np fr (w : W) : drafts (draftm hm) l x (hm, Some np, fr, None, 0) w ->
  wlp (ipf_nat_finalise cf be x) (fun ok w' => (ok = -1 /\ exists ref, drafts (draftm hm) l x (hm, Some np, fr, None, ref) w') \/
    (ok = 0 /\ inv (restm (x :: l) <| md_rule := plus (Some np) (-1) own |>) (x :: l) w')) w.
Proof.
  intros Hw. unfold ipf_nat_finalise. rewrite wp_bind. eapply wp_mono; [apply (keeps_draft cf (draftm hm) l x (hm, Some np, fr, None, 0) _ eq_refl); [done|exact Hw]|].
  cbv beta. intros _ w1 H1. rewrite wp_bind. apply wlp_nst. intros e He. rewrite wp_bind, wp_gets, wp_bind.
  assert (Ef : nat_fr e = fr) by (destruct H1 as [_ Hv]; unfold refs_are in Hv; rewrite He in Hv; by injection Hv).
  eapply (wp_mono _ _ (fun _ => drafts (draftm hm) l x (hm, Some np, fr, None, 0))).
  { assert (Hk : keeps (drafts (draftm hm) l x (hm, Some np, fr, None, 0)) (when_ (negb (has (nat_flags e) SI_CLONE))
      (s ← next (nenv_sync_new x (nw_fin w1)); upd_nat x (fun e => e <| nat_sync := s |>)))) by (keep; by apply keeps_draft).
    by apply Hk. }
  cbv beta. intros _ w2 H2. rewrite wp_bind. eapply wp_mono; [by apply (wlp_nat_insert cf be _ _ _ _ _ _ _ _ w2 H2)|]. cbv beta.
  intros r w3 [[-> [ref H3]]|[-> H3]].
  - change (-1 =? 0) with false. cbv iota. rewrite wp_bind. apply wlp_nst. intros e3 _. rewrite wp_bind.
    eapply (wp_mono _ _ (fun _ => drafts (draftm hm) l x (hm, Some np, fr, None, ref))).
    { revert w3 H3. change (keeps (drafts (draftm hm) l x (hm, Some np, fr, None, ref))
        (match nat_sync e3 with Some s => next_ (nenv_sync_del s) | None => mret tt end)). keep. }
    cbv beta. intros _ w4 H4. rewrite wp_ret. left. split; [done|by eexists].
  - change (0 =? 0) with true. cbv iota. rewrite wp_bind. rewrite Ef.
    apply (wp_mono _ _ (fun _ => inv (entered x (hm, Some np, fr, None, 0) (draftm hm)) (x :: l))).
    { destruct (negb _); cbn [when_]; [apply keeps_next_; [typeclasses eauto|exact H3]|by rewrite wp_ret]. }
    cbv beta. intros _ w4 H4. rewrite wp_bind. eapply wp_mono; [exact (wlp_fr_ref _ (x :: l) fr w4 H4)|]. cbv beta. intros _ w5 H5.
    rewrite wp_ret. right. split; [done|]. eapply inv_mode; [..|exact H5]; try done.
    + intros y. cbn. rewrite elem_of_cons. tauto.
    + intros r. cbn. by rewrite (proj2 (plus_minus _ _ _)).
    + intros r. cbn. by rewrite (proj1 (plus_minus _ _ _)).
Qed.
Lemma wlp_bad_nat hm p fr me ref (w : W) : drafts (draftm hm) l x (hm, p, fr, me, ref) w -> wlp (bad_nat x) (fun _ => rest) w.
Proof.
  intros Hw. unfold bad_nat. rewrite wp_bind. apply wlp_nst. intros e He.
  assert (Eh : nat_hm e = hm) by (destruct Hw as [_ Hv]; unfold refs_are in Hv; rewrite He in Hv; by injection Hv).
  rewrite wp_bind, Eh. apply (wp_mono _ _ (fun _ => drafts (draftm None) l x (hm, p, fr, me, ref))).
  { destruct hm as [y|]; [by apply wlp_draft_hostmapdel|by rewrite wp_ret]. }
  cbv beta. intros _ w1 H1. eapply wp_mono; [by apply (wlp_kfree (draftm None) l x _ w1 H1)|]. cbv beta. intros _ w2 H2.
  apply (inv_rest l). eapply inv_mode; [..|exact H2]; try done.
Qed.
Lemma wlp_complete hm np (w : W) : making hm w ->
  wlp (complete_nat cf be x np None) (fun ok w' => (ok = -1 /\ exists fr ref, drafts (draftm hm) l x (hm, Some np, fr, None, ref) w') \/
    (ok = 0 /\ inv (restm (x :: l) <| md_rule := plus (Some np) (-1) own |>) (x :: l) w')) w.
Proof.
  intros Hw. unfold complete_nat. rewrite wp_bind. apply wlp_rule. intros r Hr. destruct (fr_simple w np r Hw Hr) as ((_ & Ha & _) & _).
  rewrite wp_bind, wp_gets, wp_bind. set (fr := fin_fr (nw_fin w)).
  eapply wp_mono; [apply (wlp_draft _ _ _ _ _ (hm, Some np, fr, None, 0) _ _ Hw eq_refl)|].
  { intros e [= E1 _ _ E4 E5]. split_and!; try done. unfold refs. cbn. congruence. }
  cbv beta. intros _ w1 H1. rewrite wp_bind. apply wlp_nst. intros e1 _. rewrite Ha. change (bool_decide (is_Some None)) with false. cbn [andb].
  rewrite wp_bind, wp_ret. change (0 =? -1) with false. cbv iota. rewrite wp_bind, wp_gets. cbv zeta. rewrite wp_bind.
  eapply wp_mono; [apply (keeps_draft cf (draftm hm) l x (hm, Some np, fr, None, 0) _ eq_refl); [done|exact H1]|]. cbv beta. intros _ w2 H2.
  eapply wp_mono; [by apply wlp_finalise|]. cbv beta. intros ok w3 [[-> [ref H3]]|[-> H3]]; [left; eauto|by right].
Qed.
Lemma wlp_translation fuel np nflags dir (w : W) : has nflags NAT_SEARCH = false -> making None w ->
  wlp (new_translation cf be fuel x np nflags dir) (fun _ => some_making) w.
Proof.
  intros Hf Hw. unfold new_translation. rewrite wp_bind. apply wlp_rule. intros r Hr.
  destruct (fr_simple w np r Hw Hr) as ((_ & _ & _ & Hd & Hrw) & _). rewrite wp_bind, wp_gets, Hd, Hrw.
  destruct (dir =? NAT_OUTBOUND); rewrite wp_bind.
  - eapply wp_mono; [apply (keeps_outlookup cf be (making None)); [done|exact Hw]|]. cbv beta. intros [y|] w1 H1; [rewrite wp_ret; by exists None|].
    rewrite wp_bind. eapply wp_mono; [by apply wlp_newmap|]. cbv beta. intros o w2 H2. by rewrite wp_ret.
  - eapply wp_mono; [apply (keeps_inlookup cf be (making None)); [done|exact Hw]|]. cbv beta. intros [y|] w1 H1; [rewrite wp_ret; by exists None|].
    rewrite wp_bind. eapply wp_mono; [by apply wlp_newrdr|]. cbv beta. intros o w2 H2. by rewrite wp_ret.
Qed.
End Making.

(** *** [ipf_nat_add] *)

(** A rule that is taken out of its bucket and put back has the references it had. *)
Definition use_off (n : ipnat) : ipnat := n <| in_use ::= fun u => u - 1 |>.
Definition use_on (n : ipnat) : ipnat := n <| in_use ::= fun u => u + 1 |>.
Definition short (np : loc) (w0 w : W) : Prop :=
  is_Some (nw_rules w0 !! np) /\ nw_rules w = alter use_off np (nw_rules w0) /\ nat_same_core w0 (w <| nw_rules := nw_rules w0 |>).
Lemma wlp_delrdr np (w : W) : wlp (ipf_nat_delrdr be np) (fun _ => short np w) w.
Proof.
  unfold ipf_nat_delrdr. rewrite wp_bind. apply wlp_rule. intros n Hn. rewrite wp_bind, wp_gets, wp_bind. apply wlp_need. intros t _.
  rewrite wp_bind, wp_modify. apply wlp_nupd_rule. intros _ _. split; [by eexists|]. split; [done|]. nat_core.
Qed.
Lemma wlp_delmap np (w : W) : wlp (ipf_nat_delmap be np) (fun _ => short np w) w.
Proof.
  unfold ipf_nat_delmap. rewrite wp_bind. apply wlp_rule. intros n Hn. rewrite wp_bind, wp_gets, wp_bind. apply wlp_need. intros t _.
  rewrite wp_bind, wp_modify. apply wlp_nupd_rule. intros _ _. split; [by eexists|]. split; [done|]. nat_core.
Qed.
Lemma short_back np (w0 w : W) : short np w0 w -> nat_same_core w0 (w <| nw_rules ::= alter use_on np |>).
Proof.
  intros ([n Hn] & R & S). eapply nat_same_core_trans; [exact S|]. set (u := w <| nw_rules := nw_rules w0 |>) in *.
  assert (E1 : w <| nw_rules ::= alter use_on np |> = u <| nw_rules ::= alter (use_on ∘ use_off) np |>).
  { cbn. rewrite R. f_equal. apply map_eq. intros y. destruct (decide (y = np)) as [->|Hy].
    - by rewrite !lookup_alter_eq, <- option_fmap_compose.
    - by rewrite !lookup_alter_ne by congruence. }
  rewrite E1. apply (nat_core_rule u np n); [exact Hn|by intros []|cbn; lia].
Qed.
Lemma keeps_again_rdr (I : W -> Prop) `{!framed I} np : keeps I (ipf_nat_delrdr be np;; ipf_nat_addrdr cf be np).
Proof.
  intros w Hw. rewrite wp_bind. eapply wp_mono; [apply wlp_delrdr|]. cbv beta. intros _ w1 Hs. unfold ipf_nat_addrdr.
  rewrite wp_bind. apply wlp_rule. intros n Hn. rewrite wp_bind, wp_gets, wp_bind. apply wlp_need. intros t _.
  rewrite wp_bind, wp_modify. apply wlp_nupd_rule. intros _ _. apply (fr_core w); [|done].
  eapply nat_same_core_trans; [exact (short_back np w w1 Hs)|]. nat_core.
Qed.
Lemma keeps_again_map (I : W -> Prop) `{!framed I} np : keeps I (ipf_nat_delmap be np;; ipf_nat_addmap cf be np).
Proof.
  intros w Hw. rewrite wp_bind. eapply wp_mono; [apply wlp_delmap|]. cbv beta. intros _ w1 Hs. unfold ipf_nat_addmap.
  rewrite wp_bind. apply wlp_rule. intros n Hn. rewrite wp_bind, wp_gets, wp_bind. apply wlp_need. intros t _.
  rewrite wp_bind, wp_modify. apply wlp_nupd_rule. intros _ _. apply (fr_core w); [|done].
  eapply nat_same_core_trans; [exact (short_back np w w1 Hs)|]. nat_core.
Qed.
Lemma keeps_move_rule (I : W -> Prop) `{!framed I} np move : keeps I (move_rule cf be np move).
Proof.
  pose proof (keeps_again_rdr I np). pose proof (keeps_again_map I np). unfold move_rule. keep.
Qed.
Lemma keeps_note_usage (I : W -> Prop) `{!framed I} : keeps I (note_usage cf).
Proof. unfold note_usage. apply keeps_ncore; [done|]. intros w. case_match; [nat_core|apply nat_same_core_refl]. Qed.

Section Packets.
Context (Hown : forall r, 0 <= own r).

Lemma rest_add fuel np flags dir (w : W) : dir = NAT_INBOUND \/ dir = NAT_OUTBOUND -> rest w ->
  wlp (ipf_nat_add cf be fuel np None flags dir) (fun o w' => o <> None -> rest w') w.
Proof.
  intros Hdir Hw. unfold ipf_nat_add. rewrite wp_bind. eapply wp_mono; [by apply keeps_note_usage; [apply framed_rest|]|]. cbv beta.
  clear w Hw. intros _ w Hw. rewrite wp_bind, wp_gets. cbv zeta. destruct (_ >=? _); [by rewrite wp_ret|].
  rewrite wp_bind. apply wlp_rule. intros r Hr. rewrite wp_bind. change (id w) with w.
  apply (wlp_nkmalloc cf (resting own true w)); [done| |].
  { intros al T. change (rest (w <| nw_allocs := al |>)) in T. rewrite wp_bind.
    apply (wp_mono _ _ (fun _ => rest)); [|intros _ w1 H1; by rewrite wp_ret].
    destruct (_ && _); cbn [when_]; [|by rewrite wp_ret]. apply keeps_ncore; [apply framed_rest|intros; nat_core|exact T]. }
  intros al x T Hx. set (w1 := w <| nw_allocs := al |>) in *. change (resting own true w) with (resting own true w1) in T.
  change (nw_fin w) with (nw_fin w1). change (nw_table_max w) with (nw_table_max w1). clearbody w1. clear Hw w Hr.
  rewrite wp_bind, wp_modify. set (l := nw_instances w1).
  assert (Hxl : x ∉ l). { intros Hin. destruct Hx as [Hn _]. apply (nk_list _ _ _ T) in Hin as [[e0 He0] _]. congruence. }
  set (e := nat_zero <| nat_flags := _ |> <| nat_redir := _ |> <| nat_dir := _ |> <| nat_pr0 := _ |> <| nat_pr1 := _ |>).
  set (t := mk_tqent None None None None 0 0 0 0 0). set (w2 := w1 <| nw_nats ::= _ |> <| nw_heap ::= _ |>).
  assert (H2 : making l x None w2).
  { split; [split; [|done]|unfold refs_are; cbn; by rewrite lookup_insert_eq].
    eapply nat_ok_mode; [..|apply (nat_ok_create cf (restm l) w1 x e t T)]; done. }
  clearbody w2. rewrite wp_bind. eapply wp_mono; [apply (wlp_translation Hown l x); [apply from_rule_flags|exact H2]|]. cbv beta.
  intros [[y|[move np']]|] w3 [hm H3]; [..|by rewrite wp_ret].
  - rewrite wp_bind. eapply wp_mono; [apply (wlp_kfree _ l x _ w3 H3 eq_refl Hxl)|]. cbv beta. intros _ w4 H4.
    assert (R4 : rest w4).
    { apply (inv_rest l). eapply inv_mode; [..|exact H4]; try done; intros s; cbn; unfold plus, none; by destruct (bool_decide _). }
    rewrite wp_bind. eapply wp_mono; [apply (keeps_upd_rule rest); [|exact R4]; intros ? [[] ?]; by split|]. cbv beta. intros _ w5 H5. by rewrite wp_bind, !wp_ret.
  - destruct (move =? -1).
    { rewrite wp_bind. eapply wp_mono; [by apply (wlp_bad_nat Hown l x Hxl _ _ _ _ _ w3 H3)|]. cbv beta. intros _ w4 H4. by rewrite wp_bind, wp_ret, wp_bind, !wp_ret. }
    rewrite wp_bind. eapply wp_mono; [by apply wlp_complete|]. cbv beta. intros ok w4 [[-> (fr & ref & H4)]|[-> H4]].
    { change (-1 =? -1) with true. cbv iota. rewrite wp_bind. eapply wp_mono; [by apply (wlp_bad_nat Hown l x Hxl _ _ _ _ _ w4 H4)|]. cbv beta.
      intros _ w5 H5. by rewrite wp_bind, wp_ret, wp_bind, !wp_ret. }
    change (0 =? -1) with false. cbv iota. rewrite wp_bind.
    eapply wp_mono; [apply (wlp_rule_ref _ (x :: l) np' 1 w4 H4); left; lia|]. cbv beta. intros _ w5 H5.
    assert (R5 : rest w5).
    { apply (inv_rest (x :: l)). eapply inv_mode; [..|exact H5]; try done. intros s. cbn. by rewrite (proj1 (plus_minus _ _ _)). }
    clear H5. revert w5 R5.
    cut (keeps rest (move_rule cf be np' move;; when_ (has flags SI_WILDP) (modify (fun w : W => w <| ns_wilds ::= fun n => u32 (n + 1) |>));;
      upd_rule np' (fun n => n <| in_hits ::= fun k => k + 1 |>);; mret tt;; mret (Some (Some x)))).
    { intros Hk w5 R5. eapply wp_mono; [by apply Hk|]. by intros. }
    pose proof (keeps_move_rule rest np' move). keep.
Qed.

(** *** The rules *)

Lemma rest_walk_rules fuel ok nflags dir failed bucket : dir = NAT_INBOUND \/ dir = NAT_OUTBOUND -> forall w, rest w ->
  wlp (walk_rules cf be fuel ok nflags dir failed bucket) (fun o w' => o <> WalkEndless -> rest w') w.
Proof.
  intros Hdir. revert failed. induction bucket as [|r bucket IH]; intros failed w Hw; cbn [walk_rules]; [by rewrite wp_ret|].
  rewrite wp_bind. apply wlp_rule. intros n Hn. destruct (nk_rules _ _ _ Hw r n Hn) as ((_ & _ & Hl & _) & _).
  rewrite wp_bind, wp_gets. destruct (negb _); [by apply IH|]. unfold proxy_refuses. rewrite Hl. rewrite wp_bind, Z.eqb_refl, wp_ret.
  destruct (has _ IPN_NO).
  - rewrite wp_bind. eapply wp_mono; [apply (keeps_upd_rule rest); [|exact Hw]; intros ? [[] ?]; by split|]. cbv beta. intros _ w1 H1. by rewrite wp_ret.
  - rewrite wp_bind. eapply wp_mono; [by apply rest_add|]. cbv beta. intros [[y|]|] w1 H1; [by rewrite wp_ret; auto|apply IH; auto|by rewrite wp_ret].
Qed.
Lemma rest_walk_masks fuel ok buckets size addr nflags dir masks : dir = NAT_INBOUND \/ dir = NAT_OUTBOUND -> forall failed w, rest w ->
  wlp (walk_masks cf be fuel ok buckets size addr nflags dir failed masks) (fun o w' => o <> WalkEndless -> rest w') w.
Proof.
  intros Hdir. induction masks as [|msk masks IH]; intros failed w Hw; cbn [walk_masks]; [by rewrite wp_ret|].
  rewrite wp_bind, wp_gets, wp_bind. eapply wp_mono; [by apply rest_walk_rules|]. cbv beta.
  intros [[y|] [|] f|] w1 H1; try (rewrite wp_ret; auto). by apply IH, H1.
Qed.

(** *** A packet *)

(** The packet is no ICMP error (what those do is left open). *)
Definition no_icmp_error (fin : fr_info) : Prop := fin_p fin = IPPROTO_ICMP -> has (packet_nflags fin) IPN_ICMPQUERY = true.
Lemma rest_session fuel out (w : W) : no_icmp_error (nw_fin w) -> rest w ->
  wlp (nat_session cf be fuel out) (fun o w' => o <> FoundEndless -> rest w') w.
Proof.
  intros Hi Hw. unfold nat_session. rewrite wp_bind, wp_gets. cbv zeta. change (id w) with w. set (fin := nw_fin w) in *.
  assert (Eb : (fin_p fin =? IPPROTO_ICMP) && negb (has (packet_nflags fin) IPN_ICMPQUERY) = false).
  { destruct (Z.eqb_spec (fin_p fin) IPPROTO_ICMP) as [E0|]; [|done]. by rewrite (Hi E0). }
  rewrite Eb, wp_bind, wp_ret, wp_bind. eapply (wp_mono _ _ (fun _ => rest)).
  { destruct (has _ FI_FRAG); [apply keeps_next; [apply framed_rest|exact Hw]|by rewrite wp_ret]. }
  cbv beta. intros [y|] w1 H1; [by rewrite wp_ret|]. rewrite wp_bind. apply (wp_mono _ _ (fun _ => rest)).
  { destruct out; [by apply rest_outlookup|by apply rest_inlookup]. }
  cbv beta. intros [y|] w2 H2; [rewrite wp_bind; apply wlp_nst; intros e _; by rewrite wp_ret|].
  destruct (negb (fin_off fin =? 0)); [by rewrite wp_ret|]. rewrite wp_bind, wp_gets, wp_bind. apply (wp_mono _ _ (fun _ => rest)).
  { destruct out; [by rewrite wp_ret|]. destruct (_ =? IPN_ICMPQUERY); [|by rewrite wp_ret]. by apply (keeps_word_at be rest). }
  cbv beta. intros dport w3 H3. rewrite wp_bind. apply (wp_mono _ _ (fun o w' => o <> WalkEndless -> rest w')).
  { destruct out; apply rest_walk_masks; auto. }
  cbv beta. intros [y s f|] w4 H4; rewrite wp_ret; auto.
Qed.
Lemma rest_count_nat x out : keeps rest (count_nat cf x out).
Proof.
  intros w Hw. apply rest_inv in Hw. eapply wp_mono; [by apply keeps_count_nat|]. cbv beta. intros _ w'. apply inv_rest.
Qed.
Lemma rest_translated out x natadd nflags : keeps rest
  (v ← (if out then ipf_nat_out be x natadd nflags else ipf_nat_in be x natadd nflags); when_ (v =? 1) (count_nat cf x out);; mret v).
Proof.
  pose proof (keeps_nat_out be rest x natadd nflags). pose proof (keeps_nat_in be rest x natadd nflags). pose proof (rest_count_nat x out). keep.
Qed.
Lemma rest_checkout fuel pass (w : W) : no_icmp_error (nw_fin w) -> rest w ->
  wlp (ipf_nat_checkout cf be fuel pass) (fun o w' => o <> None -> rest w') w.
Proof.
  intros Hi Hw. unfold ipf_nat_checkout. rewrite wp_bind, wp_gets. destruct (nat_idle _); [by rewrite wp_ret|]. cbv zeta.
  rewrite wp_bind. unfold upd_nfin at 1. rewrite wp_modify, wp_bind. set (w1 := w <| nw_fin ::= _ |>).
  assert (H1 : rest w1) by (eapply (fr_core w); [nat_core|exact Hw]). eapply wp_mono; [apply rest_session; [exact Hi|exact H1]|]. cbv beta.
  intros [y natadd nflags failed|] wf Hf; [|by rewrite wp_ret]. specialize (Hf ltac:(done)). rewrite wp_bind.
  apply (wp_mono _ _ (fun _ => rest)); [destruct y as [x|]; [by apply (rest_translated true)|by rewrite wp_ret]|]. cbv beta. intros v w2 H2.
  rewrite wp_bind. eapply wp_mono; [by apply (keeps_verdict rest)|]. cbv beta. intros r w3 H3. rewrite wp_bind.
  eapply wp_mono; [by apply (keeps_upd_nfin rest)|]. cbv beta. intros _ w4 H4. by rewrite wp_ret.
Qed.
Lemma rest_checkin fuel pass (w : W) : no_icmp_error (nw_fin w) -> rest w ->
  wlp (ipf_nat_checkin cf be fuel pass) (fun o w' => o <> None -> rest w') w.
Proof.
  intros Hi Hw. unfold ipf_nat_checkin. rewrite wp_bind, wp_gets. destruct (nat_idle _); [by rewrite wp_ret|].
  rewrite wp_bind. eapply wp_mono; [by apply rest_session|]. cbv beta. intros [y natadd nflags failed|] w1 H1; [|by rewrite wp_ret].
  specialize (H1 ltac:(done)). rewrite wp_bind.
  apply (wp_mono _ _ (fun _ => rest)); [destruct y as [x|]; [by apply (rest_translated false)|by rewrite wp_ret]|]. cbv beta. intros v w2 H2.
  rewrite wp_bind. eapply wp_mono; [by apply (keeps_verdict rest)|]. cbv beta. intros r w3 H3. by rewrite wp_ret.
Qed.

(** ** Other operations *)

Lemma ran {A} (m : ST W A) (w : W) : (exists w' a, m w = Some (a, w') /\ rest w') -> wlp m (fun _ => rest) w.
Proof. intros (w' & a & R & T). unfold wpg. by rewrite R. Qed.
Lemma rest_delete x logtype (w : W) : rest w -> wlp (ipf_nat_delete cf x logtype) (fun _ => rest) w.
Proof.
  intros Hw. destruct (nw_nats w !! x) as [e|] eqn:He.
  - apply ran. destruct (nat_delete_run cf own Hown true logtype w x Hw) as (w' & R & T & _); [|by exists w', tt].
    apply (nk_list _ _ _ Hw). split; [by eexists|done].
  - unfold ipf_nat_delete. rewrite wp_bind. apply (wp_mono _ _ (fun _ w' => nw_nats w' !! x = None)).
    + destruct (_ && _); cbn [when_]; [unfold next_; by rewrite wp_modify|by rewrite wp_ret].
    + cbv beta. intros _ w1 H1. rewrite wp_bind. apply wlp_nst. intros e He1. congruence.
Qed.
Lemma rest_uncreate : keeps rest (ipf_nat_uncreate cf be).
Proof.
  intros w Hw. unfold ipf_nat_uncreate. rewrite wp_bind, wp_gets. cbv zeta. rewrite wp_bind. apply (wp_mono _ _ (fun _ => rest)).
  - destruct (_ =? 0); [by apply rest_outlookup|by apply rest_inlookup].
  - cbv beta. intros [x|] w1 H1; [by apply rest_delete|by rewrite wp_ret].
Qed.
Lemma rest_forget_me x : keeps rest (forget_nat_me (E:=E) x).
Proof.
  intros w Hw. unfold forget_nat_me. rewrite wp_bind. apply wlp_nst. intros e He.
  destruct (nat_me e) as [v|] eqn:Em; [|by rewrite wp_ret]. rewrite wp_bind, wp_gets, wp_bind. apply wlp_need. intros o Ho. change (id w) with w in Ho.
  rewrite wp_bind, wp_modify. set (w1 := w <| nw_saved ::= <[v := None]> |>).
  assert (H1 : rest w1).
  { apply (fr_core w); [|done]. nat_core. intros u Hu. cbn. apply lookup_insert_is_Some'. by right. }
  unfold wpg. rewrite (upd_nat_run x _ w1 e He). apply (inv_rest (nw_instances w1)).
  split; [|done]. apply (nat_ok_set cf (restm (nw_instances w1)) w1 x); [|exact H1]. intros e0 He0. change (nw_nats w !! x = Some e0) in He0.
  assert (e0 = e) as -> by congruence. split; [by intros|]. intros [Hl Hr Hm Ha Hd]. split; try done.
  intros _. cbn. rewrite Hr, Em by done. done.
Qed.
Lemma rest_setpending x (w : W) : in_nat_table w x -> rest w -> wlp (ipf_nat_setpending cf x) (fun _ => rest) w.
Proof.
  intros Hx Hw. apply rest_inv in Hw. set (l := nw_instances w) in *.
  assert (Hq : ipf_nat_pending cf ∈ nat_queues cf) by (apply elem_of_app; right; set_solver).
  pose proof (wlp_requeue cf (restm l) l x (ipf_nat_pending cf) w Hw Hq) as Hr. unfold ipf_nat_setpending.
  rewrite !wp_bind in *. eapply wp_mono; [exact Hr|]. cbv beta. intros oifq w1 H1. rewrite wp_bind in *. eapply wp_mono; [exact H1|]. cbv beta.
  clear Hr H1 w1. intros ticks w1 H1. rewrite wp_bind. eapply wp_mono; [exact H1|]. cbv beta. intros _ w2 H2. apply rest_forget_me.
  apply (inv_rest l). eapply inv_mode; [..|exact H2]; try done. intros y. cbn. split; [intros [?| ->]; [done|exact Hx]|by left].
Qed.
Lemma flushtable_run (w : W) : rest w -> exists n w', ipf_nat_flushtable cf w = Some (n, w') /\ rest w' /\ nw_instances w' = [].
Proof.
  intros Hw. unfold ipf_nat_flushtable. rewrite (bind_eq _ _ _ tt _ eq_refl). set (w1 := w <| nw_table0 := _ |> <| nw_table1 := _ |>).
  assert (T1 : nat_ok (resting own false w1) w1).
  { destruct Hw. split; try done.
    - intros x e He. destruct (nk_session x e He). by split.
    - intros s i. destruct s; apply NoDup_nil_2.
    - intros s i x Hx. destruct s; by apply elem_of_nil in Hx. }
  rewrite (bind_eq _ _ _ _ _ eq_refl). destruct (flush_all_nats cf own Hown false (fun _ _ => mret true) (fun _ => true) NL_FLUSH w1) as (n & w' & R & T & D); [done|done|].
  exists n, w'. split; [exact R|]. rewrite filter_all in D by done.
  assert (Hn : nw_instances w' = []).
  { destruct (nw_instances w') as [|x l] eqn:El; [done|]. destruct (proj1 (nat_gone_in cf _ _ _ x D)) as [H1 H2]; [|done]. unfold in_nat_table. rewrite El. by left. }
  split; [|done]. unfold nat_table_ok. destruct T. split; try done. intros _ s i x Hx. rewrite Hn in Hx. by apply elem_of_nil in Hx.
Qed.
End Packets.

(** ** What happens to a table *)

Inductive nat_step : W -> W -> Prop :=
| nstep_packet w f bf al : nat_fresh_allocs (w <| nw_allocs := al |>) ->
    nat_step w (w <| nw_fin := f |> <| nw_buf := bf |> <| nw_allocs := al |>)
| nstep_out w fuel pass r w' : no_icmp_error (nw_fin w) -> ipf_nat_checkout cf be fuel pass w = Some (Some r, w') -> nat_step w w'
| nstep_in w fuel pass r w' : no_icmp_error (nw_fin w) -> ipf_nat_checkin cf be fuel pass w = Some (Some r, w') -> nat_step w w'
| nstep_expire w F w' : (92 + length (nw_instances w) <= F)%nat -> ipf_nat_expire cf F w = Some (tt, w') -> nat_step w w'
| nstep_flush w F which n w' : (92 + length (nw_instances w) <= F)%nat -> ipf_nat_extraflush cf F which w = Some (n, w') -> nat_step w w'
| nstep_flushtable w n w' : ipf_nat_flushtable cf w = Some (n, w') -> nat_step w w'
| nstep_delete w x logtype w' : ipf_nat_delete cf x logtype w = Some (tt, w') -> nat_step w w'
| nstep_setpending w x w' : in_nat_table w x -> ipf_nat_setpending cf x w = Some (tt, w') -> nat_step w w'
| nstep_uncreate w w' : ipf_nat_uncreate cf be w = Some (tt, w') -> nat_step w w'
| nstep_rules w mr l a b tm tr : (forall r n, mr !! r = Some n -> live_rule n) ->
    (forall r, 0 < held nat_ptr w r + made w r + own r -> exists n, mr !! r = Some n /\ held nat_ptr w r + made w r + own r <= in_use n) ->
    nat_step w (w <| nw_rules := mr |> <| nw_list := l |> <| nw_maprules := a |> <| nw_rdrrules := b |> <| nw_map_mask := tm |> <| nw_rdr_mask := tr |>)
| nstep_filter_rules w mf : (forall r n, mf !! r = Some n -> 1 <= n) ->
    (forall r, 0 < held nat_fr w r -> exists n, mf !! r = Some n /\ held nat_fr w r <= n) -> nat_step w (w <| nw_frs := mf |>)
| nstep_env w ex lk k n : nat_step w (w <| nw_ext := ex |> <| nw_lock := lk |> <| nw_doflush := k |> <| nw_table_max := n |>)
| nstep_time w now : nw_ticks w <= now -> (forall q ttl, ttl_of (nw_heap w) q = Some ttl -> now + ttl < 2 ^ 32) ->
    nat_step w (w <| nw_ticks := now |>).

Lemma ran_rest {A} (m : ST W A) (w : W) r w' : wlp m (fun _ => rest) w -> m w = Some (r, w') -> rest w'.
Proof. intros Hm Hr. exact (wlp_run _ _ _ _ _ Hm Hr). Qed.
Lemma nat_step_ok w w' : (forall r, 0 <= own r) -> nat_step w w' -> rest w -> rest w'.
Proof.
  intros Hown Hstep Hw.
  destruct Hstep as [w f bf al Ha|w fuel pass r w' Hi Hr|w fuel pass r w' Hi Hr|w F w' HF Hr|w F which n w' HF Hr|w n w' Hr|w x lt w' Hr|w x w' Hx Hr|
    w w' Hr|w mr l a b tm tr Hl Hc|w mf Hl Hc|w ex lk k n|w now Hn Hq].
  - destruct Hw. split; try done. intros x e He. destruct (nk_session x e He). by split.
  - exact (wlp_run _ _ _ _ _ (rest_checkout Hown fuel pass w Hi Hw) Hr ltac:(done)).
  - exact (wlp_run _ _ _ _ _ (rest_checkin Hown fuel pass w Hi Hw) Hr ltac:(done)).
  - destruct (nat_fuel cf own Hown F w Hw HF) as [HF1 HF2]. destruct (nat_expire_run cf own Hown w F Hw HF1 HF2) as (w1 & D & R & T & _). congruence.
  - destruct (nat_fuel cf own Hown F w Hw HF) as [HF1 HF2]. destruct (nat_extraflush_run cf own Hown F which w Hw HF1 HF2) as (m & D & w1 & R & T & _). congruence.
  - destruct (flushtable_run Hown w Hw) as (m & w1 & R & T & _). congruence.
  - eapply ran_rest; [by apply rest_delete|exact Hr].
  - eapply ran_rest; [by apply rest_setpending|exact Hr].
  - eapply ran_rest; [by apply rest_uncreate|exact Hr].
  - pose proof (nat_ok_rules cf (resting own true w) w mr own Hw Hl Hc) as T.
    apply (nat_table_ok_same cf own (w <| nw_rules := mr |>)); [nat_core|exact T].
  - pose proof (nat_ok_frs cf (resting own true w) w mf none Hw Hl) as T. apply T. intros r. unfold none. rewrite Z.add_0_r. apply Hc.
  - apply (nat_table_ok_same cf own w); [nat_core|exact Hw].
  - destruct Hw. split; try done; [by eapply qok_tick|]. intros x e He. destruct (nk_session x e He). by split.
Qed.
End Moves.
