(* ===== verification/NatLife.v ===== *)
(** The life of the NAT table as a whole: the theorems about NatInv.v and NatSteps.v (the
    invariant over every sequence of steps, exact expiry, exact flushing), with a small
    table that [ipf_nat_soft_init] makes, to which a rule is added and a packet comes. *)
From S2P Require Import Prelude Packet Cksum Filter Timeoutq TcpAge Queues Sweeps TcpWindow State StateLookup StateInv.
From S2P Require Import NatTable NatNew NatXlate NatAdmin NatInv NatSteps.

(** ** The table at the start *)

Section Start.
Context {E : Type} `{nat_env E} (cf : natconf) (own : loc -> Z).
Abbreviation W := (natw E).

Lemma nat_start_ok (w : W) :
  0 < ipf_nat_table_sz cf -> ents (nw_heap w) = ∅ -> parent_var (nw_heap w) = None ->
  queue_chain (nw_heap w) (head (nat_queues cf)) (nat_queues cf) ->
  (forall q, q ∈ nat_queues cf -> queue (nw_heap w) q [] /\
    exists ttl, ttl_of (nw_heap w) q = Some ttl /\ 0 <= ttl /\ nw_ticks w + ttl < 2 ^ 32) -> 0 <= nw_ticks w ->
  nw_nats w = ∅ -> nw_instances w = [] -> (forall s i, tab s w i = []) -> (forall s i, blen s w i = 0) -> ns_active w = 0 ->
  (forall r n, nw_rules w !! r = Some n -> live_rule n) ->
  (forall r, 0 < own r -> exists n, nw_rules w !! r = Some n /\ own r <= in_use n) ->
  nw_hms w = ∅ -> nw_hmlist w = [] -> (forall r n, nw_frs w !! r = Some n -> 1 <= n) -> NoDup (omap id (nw_allocs w)) ->
  nat_table_ok cf own w.
Proof.
  intros Hsz He Hp Hc Hq Hnow Hn Hl Ht Hb Ha Hr Ho Hm Hml Hf Hal.
  assert (Hheld : forall f r, held f w r = 0) by (intros f r; unfold held; by rewrite Hl).
  assert (Hmade : forall r, made w r = 0) by (intros r; unfold made; by rewrite Hml).
  split; cbn [md_draft md_queued md_ahead md_full md_hm md_rule md_fr resting]; try done.
  - apply qok_empty; try done. unfold in_nat_table. rewrite Hl. by intros x ?%elem_of_nil.
  - rewrite Hn. by intros x [e Hx].
  - rewrite Hn. by intros x e Hx.
  - rewrite Hl. apply NoDup_nil_2.
  - intros x. rewrite Hl, Hn. split; [by intros ?%elem_of_nil|by intros [[e Hx] _]].
  - intros s i. rewrite Ht. apply NoDup_nil_2.
  - intros s i x. rewrite Ht. by intros ?%elem_of_nil.
  - intros _ s i x. rewrite Hl. by intros ?%elem_of_nil.
  - intros s i. by rewrite Hb, Hl.
  - by rewrite Ha, Hl.
  - rewrite Hml, Hm. split; [apply NoDup_nil_2|]. intros y. split; [by intros ?%elem_of_nil|by intros [e Hx]].
  - intros y. rewrite Hheld. unfold none. lia.
  - intros r. rewrite Hheld, Hmade. intros Hpos. destruct (Ho r) as (n & Hn' & ?); [lia|]. exists n. split; [done|lia].
  - intros r. rewrite Hheld. unfold none. lia.
  - split; [|done]. rewrite Hm. by intros y h Hy.
  - split; [done|]. intros x _. by rewrite Hn, He, Hm.
Qed.
End Start.

(** 10.0.0.0/8 is translated to 192.168.1.1, ports 40000 to 40009, by a rule at location
    1 that is on the list of rules and in a bucket; the other data are those of NatNew.v. *)
Module Life.
Definition cf := Demo.cf.
Definition own (r : loc) : Z := if decide (r = 1%positive) then 2 else 0.
Definition raw : natw unit :=
  Demo.table (Demo.map_rule IPN_SEQUENTIAL 0xc0a80101 MAX32 0xc0a80101 40000 40009 <| in_use := 0 |>) fin_zero <| nw_list := [] |> <| ns_rules := 0 |>.
Definition start : natw unit := Eval vm_compute in
  Demo.run (nat_add_rule cf true 10 1 (0, 0) None None) (Demo.run (ipf_nat_soft_init cf default_timeouts (mk_nattimes 1200 120 6)) raw).
(** A datagram, which the rule applies to. *)
Definition query : natw unit := Eval vm_compute in
  start <| nw_fin := Demo.packet 1 IPPROTO_UDP 0x0a000001 0x08080808 123 53 |>
        <| nw_buf := replicate 40 0 |> <| nw_allocs := nw_allocs start |>.
Definition added : natw unit := Eval vm_compute in Demo.run (ipf_nat_checkout cf true 10 0) query.

Lemma nat_start_heap : ents (nw_heap start) = ∅ /\ parent_var (nw_heap start) = None /\
  queue_chain (nw_heap start) (head (nat_queues cf)) (nat_queues cf) /\
  Forall (fun q => queue (nw_heap start) q [] /\
    exists ttl, ttl_of (nw_heap start) q = Some ttl /\ 0 <= ttl /\ nw_ticks start + ttl < 2 ^ 32) (nat_queues cf).
Proof.
  split; [by vm_compute|]. split; [by vm_compute|]. split.
  - unfold nat_queues. cbn [map seq app head]. repeat (split; [reflexivity|]; eexists; split; [by vm_compute|]). reflexivity.
  - unfold nat_queues. cbn [map seq app]. repeat constructor.
    all: first [eexists; split; [by vm_compute|split; [constructor|split; by vm_compute]]|
                eexists; split; [by vm_compute|split; by vm_compute]].
Qed.
Lemma start_rules : exists n, nw_rules start = {[1%positive := n]} /\ live_rule n /\ in_use n = 2.
Proof. eexists. split; [reflexivity|]. by split; [split|]. Qed.
Lemma life_start_ok : nat_table_ok cf own start.
Proof.
  destruct nat_start_heap as (H1 & H2 & H3 & H4). rewrite Forall_forall in H4. destruct start_rules as (n & Er & Hl & Hu).
  apply nat_start_ok; try done; try by intros [].
  - intros r n'. rewrite Er. by intros [_ <-]%lookup_singleton_Some.
  - intros r. unfold own. case_decide as Hr; [|done]. intros _. subst r. exists n. rewrite Er, lookup_singleton_eq. split; [done|lia].
  - apply (bool_decide_unpack (NoDup _)). by vm_compute.
Qed.
Lemma own_nonneg r : 0 <= own r.
Proof. unfold own. by case_decide. Qed.
Lemma packet_comes : nat_step cf true own start query.
Proof.
  apply (nstep_packet cf true own start (nw_fin query) (nw_buf query) (nw_allocs query)). by apply (nk_allocs _ _ _ life_start_ok).
Qed.
Lemma packet_passes : nat_step cf true own query added.
Proof. apply (nstep_out cf true own query 10 0 (1, 0)); [by intros Hp; vm_compute in Hp|by vm_compute]. Qed.
End Life.

(** ** The invariant *)

Section Properties.
Context {E : Type} `{nat_env E} (cf : natconf) (be : bool) (own : loc -> Z).
Abbreviation W := (natw E).

(** C7. Whatever happens to the NAT table, in whatever order, starting from a well-formed
    one: every session is in one chain of each side, the one its hash value leads to, and
    on one timeout queue; the lengths of the buckets and the number of sessions are right;
    host maps, rules and filter rules are there as long as a session or a host map refers
    to them, with at least that many references. *)
Theorem nat_table_invariant (w w' : W) : (forall r, 0 <= own r) ->
  nat_table_ok cf own w -> rtc (nat_step cf be own) w w' -> nat_table_ok cf own w'.
Proof. intros Hown Ht Hr. induction Hr as [|w1 w2 w3 Hs _ IH]; [done|]. by apply IH, (nat_step_ok cf be own w1). Qed.

(** C8. [ipf_nat_expire] completes, and when nobody asked for room to be made, the
    sessions that stay are exactly those whose time has not come, as they were. *)
Theorem nat_expire_exact (w : W) F : (forall r, 0 <= own r) ->
  nat_table_ok cf own w -> (92 + length (nw_instances w) <= F)%nat -> nw_doflush w = 0 ->
  exists w', ipf_nat_expire cf F w = Some (tt, w') /\ nat_table_ok cf own w' /\
    (forall x, in_nat_table w' x <-> in_nat_table w x /\ due w x = false) /\
    (forall x, in_nat_table w' x -> nw_nats w' !! x = nw_nats w !! x /\ timing (nw_heap w') x = timing (nw_heap w) x).
Proof.
  intros Hown Ht [HF H92]%(nat_fuel cf own Hown) Hfl; [|done].
  destruct (nat_expire_run cf own Hown w F Ht HF H92) as (w' & D & R & T & Dr & H1 & H2).
  exists w'. split; [done|]. split; [done|]. split; [intros x; split; [apply H1|intros []; by apply H2]|].
  intros x Hx. pose proof (nat_gone_in cf D w (w' <| nw_doflush := nw_doflush w |>) x Dr) as Hr.
  assert (Hd : x ∉ D) by (by apply Hr in Hx as [_ Hd]). split; [by apply (ng_nats _ _ _ _ Dr)|by apply (ng_timing _ _ _ _ Dr)].
Qed.

(** C9. [ipf_nat_extraflush] completes for every argument, and takes out exactly what the
    argument names.  0: all sessions.  1: the TCP sessions on the queues from that of
    CLOSE_WAIT on, in each queue up to the first session that is not TCP.  The number of a
    closing TCP state: those on that state's queue.  A number of seconds from 30 on: those
    that saw no packet for so long.  2: nothing within 5 seconds of the last time;
    otherwise room is made: the queue of closed connections is emptied, when that is not
    enough other sessions go too, but only those in TIME_WAIT or untouched for 30 seconds,
    and in the end there is room unless the host is up for less than 45 seconds or each
    queue starts with a session touched in the last 30.  Any other number: nothing. *)
Theorem nat_flush_exact (w : W) F which : (forall r, 0 <= own r) ->
  nat_table_ok cf own w -> (92 + length (nw_instances w) <= F)%nat ->
  exists n w', ipf_nat_extraflush cf F which w = Some (n, w') /\ nat_table_ok cf own w' /\
    (forall x, in_nat_table w' x -> in_nat_table w x) /\
    (which = 0 -> nw_instances w' = []) /\
    (which = 1 -> forall x, in_nat_table w' x <-> in_nat_table w x /\ ~ nat_closing_tcp cf w x) /\
    (which = 2 -> IPF_TTLVAL 5 < u64 (nw_ticks w - nw_last_flush w) ->
      room_made (nat_table_ok cf own) in_nat_table (nat_gone cf) (nat_queues cf) (ipf_nat_tcptq cf)
        (ipf_nat_table_sz cf) (ipf_nat_table_wm_low cf) w w') /\
    (is_closing which = true -> forall l, queue (nw_heap w) (ipf_nat_tcptq cf which) l ->
      forall x, in_nat_table w' x <-> in_nat_table w x /\ x ∉ l) /\
    (30 <= which -> forall x, in_nat_table w' x <-> in_nat_table w x /\ nat_idle_for w which x = false) /\
    (which = 2 /\ u64 (nw_ticks w - nw_last_flush w) <= IPF_TTLVAL 5 \/
     which < 30 /\ which <> 0 /\ which <> 1 /\ which <> 2 /\ is_closing which = false ->
      forall x, in_nat_table w' x <-> in_nat_table w x).
Proof.
  intros Hown Ht [HF H92]%(nat_fuel cf own Hown); [|done].
  destruct (nat_extraflush_run cf own Hown F which w Ht HF H92) as (n & D & w' & R & T & Dr & D0 & D1 & D2 & D2' & Dn & Dc & Di).
  assert (Hx : forall x, in_nat_table w' x <-> in_nat_table w x /\ x ∉ D) by (intros x; by apply (nat_gone_in cf D w w')).
  exists n, w'. split; [done|]. split; [done|]. split; [by intros x [? _]%Hx|]. split.
  { intros E0. destruct (nw_instances w') as [|x l] eqn:El; [done|]. destruct (proj1 (Hx x)) as [H1 H2].
    { unfold in_nat_table. rewrite El. by left. }
    by rewrite (D0 E0) in H2. }
  split; [intros E1 x; by rewrite Hx, D1|]. split; [done|]. split.
  { intros Ec l Hl x. assert (which <> 2) by (apply closing_range in Ec; lia).
    rewrite Hx. by rewrite (queue_fun _ _ _ _ Hl (Dc Ec ltac:(done))). }
  split.
  { intros E0 x. rewrite Hx, (Di E0), list_elem_of_filter. destruct (nat_idle_for w which x); naive_solver. }
  intros Hn x. rewrite Hx. assert (D = []) as -> by (destruct Hn as [[? ?]|(? & ? & ? & ? & ?)]; auto).
  split; [by intros []|intros ?; split; [done|apply not_elem_of_nil]].
Qed.
End Properties.

Lemma nat_table_invariant_witness :
  nw_instances Life.added = [100%positive] /\ ns_active Life.added = 1 /\ nat_table_ok Life.cf Life.own Life.added.
Proof.
  split; [by vm_compute|]. split; [by vm_compute|]. apply (nat_table_invariant Life.cf true Life.own Life.start).
  - apply Life.own_nonneg.
  - apply Life.life_start_ok.
  - eapply rtc_l; [apply Life.packet_comes|]. eapply rtc_l; [apply Life.packet_passes|]. apply rtc_refl.
Defined.
Lemma nat_added_ok : nat_table_ok Life.cf Life.own Life.added.
Proof.
  eapply nat_step_ok; [apply Life.own_nonneg|apply Life.packet_passes|].
  eapply nat_step_ok; [apply Life.own_nonneg|apply Life.packet_comes|]. apply Life.life_start_ok.
Qed.
Lemma nat_expire_exact_witness :
  due Life.added 100%positive = false /\
  exists w', ipf_nat_expire Life.cf 100 Life.added = Some (tt, w') /\ in_nat_table w' 100%positive.
Proof.
  split; [by vm_compute|]. destruct (nat_expire_exact Life.cf Life.own Life.added 100 Life.own_nonneg nat_added_ok) as (w' & R & _ & Hi & _);
    [vm_compute; lia|reflexivity|]. exists w'. split; [exact R|]. apply Hi. split; [|by vm_compute]. vm_compute. by left.
Defined.
Lemma nat_flush_exact_witness :
  exists n w', ipf_nat_extraflush Life.cf 100 0 Life.added = Some (n, w') /\ nw_instances w' = [].
Proof.
  destruct (nat_flush_exact Life.cf Life.own Life.added 100 0 Life.own_nonneg nat_added_ok) as (n & w' & R & _ & _ & H0 & _); [vm_compute; lia|].
  exists n, w'. split; [exact R|]. by apply H0.
Defined.
